(* ===== verification/_CoqProject ===== *)
-Q . S2P
Prelude.v
RustStd.v
RustText.v
Sha2.v
AgentTypes.v
Json.v
Framing.v
StateStoreCore.v
Sqlite.v
StateStore.v
StoreProperties.v
ItemStore.v
Serial.v
ServiceExample.v
Delivery.v
DeliveryMachine.v
DeliveryProperties.v
DeliveryExample.v
ActionStore.v
ActionMachine.v
ActionProperties.v
ActionExample.v
Waiting.v
Wildcard.v
WaitingMachine.v
WaitingProperties.v
WaitingExample.v
Goals.v
GoalMachine.v
GoalProperties.v
GoalExample.v
Commitments.v
CommitmentMachine.v
CommitmentProperties.v
CommitmentExample.v
Planner.v
PlanSteps.v
PlanMachine.v
PlanProperties.v
PlanExample.v
Schedules.v
CronSyntax.v
Occurrences.v
Scheduler.v
SchedulerMachine.v
SchedulerOperations.v
SchedulerProperties.v
SchedulerExample.v
FileSystem.v
Attention.v
AttentionProperties.v
AttentionExample.v
Configuration.v
ConfigurationProperties.v
ConfigurationExample.v
Profiles.v
ProfileProperties.v
Routing.v
RouteProperties.v
RouteExample.v
PlatformContracts.v
ScreenControl.v
ScreenMachine.v
ScreenRefinement.v
ScreenRestart.v
ScreenSaves.v
ScreenProperties.v
ScreenExample.v
Session.v
SessionMailbox.v
SessionProperties.v
SessionExample.v
ResourceModel.v
ResourceGovernor.v
GovernorDurable.v
GovernorInvariant.v
GovernorSafety.v
GovernorScheduling.v
GovernorExample.v
GovernorProperties.v
