(* ===== verification/Prelude.v ===== *)
(** * Keith: a verified model of the agent harness's durable services

    Keith is a personal agent: a daemon that runs agent sessions, stores their
    state, admits their work under resource ceilings and lets them act on the
    outside world, a computer screen included.  This library models the parts of
    the Rust workspace under [src/] that the rest relies on to be right: what is
    durable, what is fenced, what is bounded, and who is allowed to act.  The
    theorems are about definitions translated from the sources; code that is not
    in the repository (SQLite, serde_json, ulid, sha2, url, tempfile, chrono, toml)
    is a parameter with its documented behaviour as laws, and for each there is a
    concrete instance that satisfies the laws.

    ** The parts and how they interact

    - Foundations.  [Prelude] (this file): Rust's [Result] and [?], methods on
      [&mut self] as a state and error monad whose state survives an error,
      machine integers as [Z] with checked and saturating operations, [Ord] and
      ordered iteration over a [BTreeMap], triples over the monad.  [RustStd]: the
      instances of [Ord], strings (a [str] is its list of scalar values) and
      enumerations.  [RustText]: splitting, numerals and paths.  [Sha2]: the
      digest.  [FileSystem]: [std::fs] over a map
      from paths to entries, with a script that makes any call fail.
    - Shared types, [crates/agent-types]: [AgentTypes] (versions, identifiers,
      counters, timestamps, time zones) and [Json] (canonical JSON).
    - Framing, [crates/framing]: [Framing], the length-prefixed codec under every
      connection.
    - State store.  [StateStoreCore] is [crates/state-store-core]: records,
      preconditions, and the contract of an atomic repository, as an abstract
      function on finite maps and as the type class [Repository] with its laws.
      [Sqlite] is the engine under [crates/state-store], whose [EmbeddedStore] is
      [StateStore]; it is shown to be an instance of the class.  [StoreProperties]
      has what its callers rely on.
    - Resource governor, [crates/resource-governor], a client of the repository
      class: [ResourceModel] (model.rs), [ResourceGovernor] (service.rs, with the
      writes of other governors between any two repository calls),
      [GovernorDurable] and [GovernorInvariant] (the durable accounts and the
      invariant), [GovernorSafety] (every operation under interference),
      [GovernorScheduling] (what a pass decides), [GovernorExample] and
      [GovernorProperties].
    - Item services.  Delivery, the action inbox, waiting, goals, commitments,
      plans, the scheduler, profiles and channel routes keep one record per item
      and write it conditionally on the revision read, most of them behind a
      mutex.
      [ItemStore] has what they share: the world of a service (the repository,
      the writes that other processes make between any two calls, the identifiers
      drawn) and a rely/guarantee logic for their operations.  [Delivery],
      [DeliveryMachine], [DeliveryProperties] and [DeliveryExample] are
      [crates/delivery] (with the message data of [crates/channel-core]);
      [ActionStore], [ActionMachine], [ActionProperties] and [ActionExample] are
      [crates/action-store]; [Waiting], [Wildcard], [WaitingMachine],
      [WaitingProperties] and [WaitingExample] are [crates/waiting], whose sink is
      the action inbox; [Goals], [GoalMachine], [GoalProperties] and [GoalExample]
      are [crates/goals], which submits continuations to the inbox;
      [Commitments], [CommitmentMachine], [CommitmentProperties] and
      [CommitmentExample] are [crates/commitments], which parks commitments as
      waits and relies on the waiting service through [waiting_promises];
      [Planner], [PlanSteps], [PlanMachine], [PlanProperties] and [PlanExample] are
      [crates/planner]; [Schedules], [CronSyntax], [Occurrences] (the calendar),
      [Scheduler], [SchedulerMachine], [SchedulerOperations],
      [SchedulerProperties] and [SchedulerExample] are [crates/scheduler], whose
      sink is the inbox; [Profiles] and [ProfileProperties] are [crates/profile],
      and [Routing], [RouteProperties] and [RouteExample] the route table of
      [crates/routing] over it.  In each group the first file is the code, the machine is
      what may happen to one item and the specification of every operation, and
      the properties are about runs, of all the services involved where several
      write.  [PlanSteps] is about the dependencies of plan steps.  [Serial] and
      [ServiceExample] have the codec and the repository of the closed examples.
    - Attention: [Attention], [AttentionProperties] and [AttentionExample] are
      [crates/initiative], the candidates for work of the agent's own accord, and
      [crates/attention], which decides about them, keeps its ledger in a file of
      [FileSystem] and submits work to the inbox.
    - Configuration, [crates/configuration]: [Configuration] (layers, patches and
      the manager), [ConfigurationProperties] and [ConfigurationExample].  Its
      profile is what [Profiles] registers.
    - Sessions, [crates/session]: [Session] (life cycle, actor, services, the JSON
      writer over [FileSystem] and [replace_file] of [crates/platform]),
      [SessionMailbox] (the threads that share a handle, as an interleaving),
      [SessionProperties], [SessionExample].
    - Platform contracts, [crates/platform-contracts]: [PlatformContracts], the
      authority, approval, lease, lifecycle and trace types with their checks.
    - Computer control, [crates/cua/src/control.rs], a client of the contracts and
      of [FileSystem]: [ScreenControl] (the service), [ScreenMachine] (an abstract
      machine for it), [ScreenRefinement] (the service refines the machine),
      [ScreenRestart] ([open]), [ScreenSaves] (what every operation leaves in the
      file, beside a twin on a disk that works), [ScreenProperties],
      [ScreenExample].

    State and operations carry the names of the sources; a method on [&mut self]
    is a monadic definition over a record with the fields of the struct, and where
    a name would clash it has the type's name in front ([lease_validate] is
    [ControlLease::validate]).  Trait objects are records or classes of functions,
    [Arc<AtomicBool>] tokens are cells of a shared store, random identifiers are
    a stream [nat -> EntityId], and concurrent processes and threads are explicit
    interleavings.

    ** What the theorems show

    - Store: a batch is atomic and does exactly what the contract says; on a
      working engine an accepted batch commits; revisions only move forward; the
      evolution ledger is append-only except for its explicit erasure, which is
      exact; typed repositories do not see each other; a record that was put is
      read back.
    - Governor: whatever other governors write and whichever acknowledgements are
      lost, accounts count exactly the leases on their scope and no counter passes
      its ceiling; selection is first come first served in a session, by priority
      between sessions and round robin between trees; one pass decides a request
      once; grants, heartbeats, releases and reclaims have their exact effect.
    - Deliveries: whatever other outboxes write, items are never lost, are
      attempted at most the configured number of times and settled only under
      their live claim; the only outbox of a repository enqueues once per key and
      hands out the oldest due item.
    - Actions: they keep their content, move along the allowed states and stay
      terminal; the only inbox of a repository runs one action per session at a
      time, within its queue limits, in the order of priority and arrival.
    - Waits: they are resumed only once their action is in the inbox, a recovery
      leaves no wake half done, and file patterns are matched as globs.
    - Goals: whatever other processes write, a goal stays within every limit, its
      usage is charged exactly and never decreases, and an ended goal keeps its
      outcome; a continuation gets exactly the budget that is left; the only
      writer never leaves a continuation of an ended goal or a second one.
    - Commitments: a waiting commitment has a durable wait for its own trigger, and
      with the theorem about waits its wake reaches the inbox; ended commitments
      are final, and a pass over the overdue ones expires them all.
    - Plans: steps are accepted exactly when their dependencies have no cycle, the
      search for one always ends, and a valid plan always has a step to work on;
      histories only grow, and an edit applies to the revision its caller saw.
    - Schedules: calendar expressions mean what their syntax says, the next run is
      the first occurrence after an instant and missed runs are bounded by the
      policy.  Whatever other schedulers write, jobs and attempts stay sound, a
      tick leaves no attempt overdue and a deletion leaves none live.
    - Profiles and routes: stored profiles stay valid and are removed only after
      they were disabled; a message is routed only by the one rule that selects
      it, to a profile that admits it, and a conversation keeps its session.
    - Attention: the agent acts only as the policy of scores, quiet hours and
      budgets allows; every decision a caller is answered with is counted, and a
      budget is exceeded by no more than the decisions lost with a failed write;
      work is in the inbox before its decision is returned.
    - Configuration: the active configuration is the valid one that the layers
      resolve to; no layer raises a ceiling of the installation, and narrow layers
      relax neither the ceilings nor the tool rules of the profile.
    - Sessions: every command is answered as specified and moves the snapshot
      along the published life cycle, one revision per change; a command changes
      the state only with a successful store; the file holds one complete snapshot
      under any sequence of I/O failures, so recovery returns an acknowledged state
      or the one being written; the mailbox counter is exact, and calls under way
      end.
    - Authority: intersecting boundaries gives the least authority they share, and
      a consequential action needs an exact, unexpired approval.
    - Computer control: the service refines its machine under any I/O failures;
      Keith's input is cancelled whenever Keith loses the lease; revisions fence
      old leases; takeover, tickets and deletion do exactly what they promise;
      after any history the service opens again and has lost no change that it
      acknowledged.
    - Codecs: frames and canonical JSON round-trip, cut streams are errors,
      identifiers are faithful names of their values.

    ** Bounds and fuel

    Loops that are not structural take fuel that the theorems instantiate: the
    retry loops of the governor run to the retry limit of the source, its
    scheduling pass to the pass limit of the caller.  The search for a cycle among
    plan steps gets one more unit of fuel than there are steps and is shown to
    end before it is used up.  The search for the next minute of a calendar
    schedule and the collection of due occurrences run to the limits of the
    source, and the decimal digits of a number to its width.  Nothing else takes
    fuel.  Integers are unbounded [Z] with the width checked where the source
    checks it ([checked_add], [try_from], saturating operations); sizes of
    collections are not bounded by [usize].

    ** Not modelled

    Power failures (files are what running processes see), the schema migrations
    and the opening of a database in [crates/state-store], the creation of the
    session actor's thread (taken to succeed), the process-driving part of
    [crates/cua], and the crates and applications that are mostly input and output
    or clients of external services.  [append_session_marker] of the planner only
    forwards to the session log, which is not modelled.  Texts of repository
    errors are constructors, not strings.  [RouteResolver] of [crates/routing]
    drives the session log and the model catalogue and is not modelled. *)

From Stdlib Require Import ZArith Lia.
From stdpp Require Import base decidable gmap list sorting option.

(** ** Results: Rust's [Result<A, E>] and the [?] operator *)

Inductive result (E A : Type) : Type :=
| Ok (a : A)
| Err (e : E).

Global Arguments Ok {E A} a.
Global Arguments Err {E A} e.

#[export] Instance result_ret {E} : MRet (result E) := fun A a => Ok a.
#[export] Instance result_bind {E} : MBind (result E) :=
  fun A B f r => match r with Ok a => f a | Err e => Err e end.
#[export] Instance result_fmap {E} : FMap (result E) :=
  fun A B f r => match r with Ok a => Ok (f a) | Err e => Err e end.

#[export] Instance result_eq_dec {E A} `{EqDecision E, EqDecision A} :
  EqDecision (result E A).
Proof. solve_decision. Defined.

Definition is_ok {E A} (r : result E A) : bool :=
  match r with Ok _ => true | Err _ => false end.

Definition map_err {E F A} (f : E -> F) (r : result E A) : result F A :=
  match r with Ok a => Ok a | Err e => Err (f e) end.

(** [Option::ok_or]. *)
Definition ok_or {E A} (o : option A) (e : E) : result E A :=
  match o with Some a => Ok a | None => Err e end.

(** [if cond { return Err(e) }]. *)
Definition reject_if {E} (b : bool) (e : E) : result E unit :=
  if b then Err e else Ok tt.

(** [for x in xs { acc = f(acc, x)?; }]. *)
Fixpoint try_fold {E A B} (f : A -> B -> result E A) (a : A) (xs : list B) : result E A :=
  match xs with
  | [] => Ok a
  | x :: xs => match f a x with Ok a' => try_fold f a' xs | Err e => Err e end
  end.

(** [xs.iter().map(f).collect::<Result<Vec<_>, _>>()]. *)
Fixpoint try_map {E A B} (f : A -> result E B) (xs : list A) : result E (list B) :=
  match xs with
  | [] => Ok []
  | x :: xs => b ← f x; bs ← try_map f xs; Ok (b :: bs)
  end.

(** ** Stateful fallible code

    A method on [&mut self] that returns a [Result]: the state is kept on the
    error path too, because Rust does not undo what ran before an early return. *)

Definition stateT (S E A : Type) : Type := S -> result E A * S.

#[export] Instance stateT_ret {S E} : MRet (stateT S E) := fun A a s => (Ok a, s).
#[export] Instance stateT_bind {S E} : MBind (stateT S E) :=
  fun A B f m s => match m s with
                   | (Ok a, s') => f a s'
                   | (Err e, s') => (Err e, s')
                   end.

Definition lift {S E A} (r : result E A) : stateT S E A := fun s => (r, s).
Definition throw {S E A} (e : E) : stateT S E A := fun s => (Err e, s).
Definition gets {S E A} (f : S -> A) : stateT S E A := fun s => (Ok (f s), s).
Definition modify {S E} (f : S -> S) : stateT S E unit := fun s => (Ok tt, f s).

(** [for x in xs { f(x)?; }]. *)
Fixpoint try_for {S E B} (f : B -> stateT S E unit) (xs : list B) : stateT S E unit :=
  match xs with
  | [] => mret tt
  | x :: xs => f x ;; try_for f xs
  end.

(** [for x in xs { acc = f(acc, x)?; }] over a state. *)
Fixpoint fold_m {S E A B} (f : A -> B -> stateT S E A) (a : A) (xs : list B) : stateT S E A :=
  match xs with
  | [] => mret a
  | x :: xs => a' ← f a x; fold_m f a' xs
  end.

(** [for x in xs { out.push(f(x)?); }]. *)
Fixpoint map_m {S E A B} (f : A -> stateT S E B) (xs : list A) : stateT S E (list B) :=
  match xs with
  | [] => mret []
  | x :: xs => y ← f x; ys ← map_m f xs; mret (y :: ys)
  end.

(** [m.map_err(f)] of a stateful computation. *)
Definition map_err_m {S E F A} (f : E -> F) (m : stateT S E A) : stateT S F A :=
  fun s => let '(r, s') := m s in (map_err f r, s').

(** ** Machine integers

    A machine integer is a [Z]; the range it lives in is a predicate, and the
    checked and saturating operations of the Rust standard library are written
    out on [Z]. *)

Definition u16_max : Z := 65535.
Definition u32_max : Z := 4294967295.
Definition u64_max : Z := 18446744073709551615.
Definition i64_min : Z := -9223372036854775808.
Definition i64_max : Z := 9223372036854775807.

Definition is_u64 (z : Z) : Prop := (0 <= z <= u64_max)%Z.
Definition is_u16 (z : Z) : Prop := (0 <= z <= u16_max)%Z.
Definition is_u32 (z : Z) : Prop := (0 <= z <= u32_max)%Z.
Definition is_i64 (z : Z) : Prop := (i64_min <= z <= i64_max)%Z.

Definition u64_checked_add (a b : Z) : option Z :=
  if (a + b <=? u64_max)%Z then Some (a + b)%Z else None.

Definition u64_checked_sub (a b : Z) : option Z :=
  if (b <=? a)%Z then Some (a - b)%Z else None.

Definition u64_saturating_add (a b : Z) : Z := Z.min u64_max (a + b).
Definition u64_saturating_sub (a b : Z) : Z := Z.max 0 (a - b).

Definition i64_checked_add (a b : Z) : option Z :=
  if ((i64_min <=? a + b) && (a + b <=? i64_max))%Z then Some (a + b)%Z else None.

Definition i64_checked_sub (a b : Z) : option Z :=
  if ((i64_min <=? a - b) && (a - b <=? i64_max))%Z then Some (a - b)%Z else None.

Definition i64_checked_mul (a b : Z) : option Z :=
  if ((i64_min <=? a * b) && (a * b <=? i64_max))%Z then Some (a * b)%Z else None.

(** Division rounds towards zero; it fails on a zero divisor and on the one
    quotient that does not fit. *)
Definition i64_checked_div (a b : Z) : option Z :=
  if ((b =? 0) || (a =? i64_min) && (b =? -1))%Z then None else Some (Z.quot a b).

Definition i64_checked_neg (a : Z) : option Z :=
  if (a =? i64_min)%Z then None else Some (- a)%Z.

Definition u32_checked_add (a b : Z) : option Z :=
  if (a + b <=? u32_max)%Z then Some (a + b)%Z else None.
Definition u16_saturating_add (a b : Z) : Z := Z.min u16_max (a + b).
Definition u32_saturating_add (a b : Z) : Z := Z.min u32_max (a + b).
Definition u32_saturating_sub (a b : Z) : Z := Z.max 0 (a - b).

Definition i64_clamp (z : Z) : Z := Z.max i64_min (Z.min i64_max z).
Definition i64_saturating_add (a b : Z) : Z := i64_clamp (a + b).
Definition i64_saturating_sub (a b : Z) : Z := i64_clamp (a - b).
Definition i64_saturating_mul (a b : Z) : Z := i64_clamp (a * b).

(** [a.checked_shl(n)]: bits shifted out are lost. *)
Definition i64_wrap (z : Z) : Z := ((z + 2 ^ 63) mod 2 ^ 64 - 2 ^ 63)%Z.
Definition i64_checked_shl (a n : Z) : option Z :=
  if (n <? 64)%Z then Some (i64_wrap (Z.shiftl a n)) else None.

(** [u16::try_from], [u32::try_from], [u64::try_from] and [i64::try_from]. *)
Definition u16_try_from (z : Z) : option Z :=
  if ((0 <=? z) && (z <=? u16_max))%Z then Some z else None.
Definition u32_try_from (z : Z) : option Z :=
  if ((0 <=? z) && (z <=? u32_max))%Z then Some z else None.
Definition u64_try_from (z : Z) : option Z :=
  if ((0 <=? z) && (z <=? u64_max))%Z then Some z else None.
Definition i64_try_from (z : Z) : option Z :=
  if ((i64_min <=? z) && (z <=? i64_max))%Z then Some z else None.

(** ** Rust's [Ord]: a total comparison *)

Class RustOrd (K : Type) : Type := {
  rcmp : K -> K -> comparison;
  rcmp_eq : forall x y, rcmp x y = Eq <-> x = y;
  rcmp_opp : forall x y, rcmp y x = CompOpp (rcmp x y);
  rcmp_trans : forall x y z, rcmp x y = Lt -> rcmp y z = Lt -> rcmp x z = Lt
}.

Definition rltb {K} `{RustOrd K} (x y : K) : bool :=
  match rcmp x y with Lt => true | _ => false end.
Definition rleb {K} `{RustOrd K} (x y : K) : bool :=
  match rcmp x y with Gt => false | _ => true end.
Definition rle {K} `{RustOrd K} (x y : K) : Prop := rcmp x y <> Gt.

(** [a.cmp(b).then(c.cmp(d))]. *)
Definition cmp_then (c d : comparison) : comparison :=
  match c with Eq => d | _ => c end.

Fixpoint list_cmp {K} `{RustOrd K} (xs ys : list K) : comparison :=
  match xs, ys with
  | [], [] => Eq
  | [], _ :: _ => Lt
  | _ :: _, [] => Gt
  | x :: xs, y :: ys => cmp_then (rcmp x y) (list_cmp xs ys)
  end.

Definition option_cmp {K} `{RustOrd K} (x y : option K) : comparison :=
  match x, y with
  | None, None => Eq
  | None, Some _ => Lt
  | Some _, None => Gt
  | Some x, Some y => rcmp x y
  end.

Definition pair_cmp {K L} `{RustOrd K, RustOrd L} (x y : K * L) : comparison :=
  cmp_then (rcmp x.1 y.1) (rcmp x.2 y.2).

(** ** B-tree maps

    A [BTreeMap<K, V>] is a finite map [gmap K V] whose iteration order is the
    order of its keys. *)

Definition entry_le {K V} `{RustOrd K} (p q : K * V) : Prop := rle p.1 q.1.

#[export] Instance entry_le_dec {K V} `{RustOrd K} : RelDecision (@entry_le K V _).
Proof. intros p q. unfold entry_le, rle. solve_decision. Defined.

(** [map.iter()]. *)
Definition btree_iter {K V} `{Countable K, RustOrd K} (m : gmap K V) : list (K * V) :=
  merge_sort entry_le (map_to_list m).

(** [map.values()]. *)
Definition btree_values {K V} `{Countable K, RustOrd K} (m : gmap K V) : list V :=
  (btree_iter m).*2.

(** [map.keys()]. *)
Definition btree_keys {K V} `{Countable K, RustOrd K} (m : gmap K V) : list K :=
  (btree_iter m).*1.

(** [xs.sort_by(cmp)]: the standard library's stable sort, as insertion sort. *)
Fixpoint insert_by {A} (cmp : A -> A -> comparison) (x : A) (xs : list A) : list A :=
  match xs with
  | [] => [x]
  | y :: ys => match cmp x y with
               | Gt => y :: insert_by cmp x ys
               | _ => x :: y :: ys
               end
  end.

Definition sort_by {A} (cmp : A -> A -> comparison) (xs : list A) : list A :=
  foldr (insert_by cmp) [] xs.

(** ** Automation *)

Create HintDb keith.

Lemma stateT_bind_unfold {S E A B} (f : A -> stateT S E B) (m : stateT S E A) (s : S) :
  (x ← m; f x) s = match m s with (Ok a, s') => f a s' | (Err e, s') => (Err e, s') end.
Proof. reflexivity. Qed.

(** Splits the binds, fallible conversions and conditionals of a computation
    that is known to return a given result. *)
Ltac res_step :=
  match goal with
  | H : mbind _ ?m ?s = _ |- _ =>
      rewrite stateT_bind_unfold in H;
      let E := fresh "E" in destruct (m s) as [[?|?] ?] eqn:E
  | H : lift _ _ = _ |- _ => unfold lift in H
  | H : throw _ _ = _ |- _ => unfold throw in H
  | H : gets _ _ = _ |- _ => unfold gets in H
  | H : modify _ _ = _ |- _ => unfold modify in H
  | H : mret _ _ = _ |- _ => unfold mret, stateT_ret in H
  | H : Ok _ = Ok _ |- _ => injection H as H; try subst
  | H : Err _ = Err _ |- _ => injection H as H; try subst
  | H : Some _ = Some _ |- _ => injection H as H; try subst
  | H : (_, _) = (_, _) |- _ => injection H as H; try subst
  | H : Ok _ = Err _ |- _ => discriminate H
  | H : Err _ = Ok _ |- _ => discriminate H
  | H : Some _ = None |- _ => discriminate H
  | H : None = Some _ |- _ => discriminate H
  | H : true = false |- _ => discriminate H
  | H : false = true |- _ => discriminate H
  | H : mbind _ ?c = _ |- _ =>
      let E := fresh "E" in destruct c eqn:E; cbn [mbind result_bind option_bind] in H
  | H : map_err _ ?c = _ |- _ =>
      let E := fresh "E" in destruct c eqn:E; cbn [map_err] in H
  | H : ok_or ?c _ = _ |- _ =>
      let E := fresh "E" in destruct c eqn:E; cbn [ok_or] in H
  | H : reject_if ?b _ = _ |- _ =>
      let E := fresh "E" in destruct b eqn:E; cbn [reject_if] in H
  | H : (if ?b then _ else _) = _ |- _ =>
      let E := fresh "E" in destruct b eqn:E
  | H : (match ?c with _ => _ end) = _ |- _ =>
      let E := fresh "E" in destruct c eqn:E
  end.

Ltac res_inv := repeat res_step.

(** Reads boolean tests as propositions. *)
Ltac bool_step :=
  match goal with
  | H : (_ && _)%bool = true |- _ => apply andb_true_iff in H; destruct H
  | H : (_ && _)%bool = false |- _ => apply andb_false_iff in H
  | H : (_ || _)%bool = false |- _ => apply orb_false_iff in H; destruct H
  | H : (_ || _)%bool = true |- _ => apply orb_true_iff in H
  | H : negb _ = true |- _ => apply negb_true_iff in H
  | H : negb _ = false |- _ => apply negb_false_iff in H
  | H : (_ <=? _)%Z = true |- _ => apply Z.leb_le in H
  | H : (_ <=? _)%Z = false |- _ => apply Z.leb_gt in H
  | H : (_ <? _)%Z = true |- _ => apply Z.ltb_lt in H
  | H : (_ <? _)%Z = false |- _ => apply Z.ltb_ge in H
  | H : (_ =? _)%Z = true |- _ => apply Z.eqb_eq in H
  | H : (_ =? _)%Z = false |- _ => apply Z.eqb_neq in H
  | H : (_ <=? _)%nat = true |- _ => apply Nat.leb_le in H
  | H : (_ <=? _)%nat = false |- _ => apply Nat.leb_gt in H
  | H : (_ <? _)%nat = true |- _ => apply Nat.ltb_lt in H
  | H : (_ <? _)%nat = false |- _ => apply Nat.ltb_ge in H
  | H : bool_decide _ = true |- _ => apply bool_decide_eq_true_1 in H
  | H : bool_decide _ = false |- _ => apply bool_decide_eq_false_1 in H
  end.

Ltac bool_inv := repeat bool_step.

(** ** Lemmas on results *)

Lemma ok_or_Ok {E A} (o : option A) (e : E) a : ok_or o e = Ok a <-> o = Some a.
Proof. destruct o; simpl; split; congruence. Qed.

Lemma bind_Ok {E A B} (x : result E A) (f : A -> result E B) b :
  (a ← x; f a) = Ok b <-> exists a, x = Ok a /\ f a = Ok b.
Proof. destruct x as [a|e]; cbn; split; [eauto| |done|]; intros (a' & Ha & Hf); [by injection Ha as ->|done]. Qed.

Lemma bind_of_ok {E A B} (x : result E A) (f : A -> result E B) a : x = Ok a -> (a ← x; f a) = f a.
Proof. by intros ->. Qed.

Lemma bind_of_err {E A B} (x : result E A) (f : A -> result E B) e : x = Err e -> (a ← x; f a) = Err e.
Proof. by intros ->. Qed.

(** A computation that gave a result, with the result left symbolic. *)
Lemma ok_pair {S E A} (p : result E A * S) : is_ok p.1 = true -> exists a, p = (Ok a, p.2).
Proof. destruct p as [[a|e] s]; [by exists a|done]. Qed.

Lemma reject_if_ok {E} b (e : E) : reject_if b e = Ok tt <-> b = false.
Proof. by destruct b. Qed.

Lemma reject_if_bind {E A} b (e : E) (k : result E A) x : (reject_if b e ;; k) = Ok x <-> b = false /\ k = Ok x.
Proof. destruct b; naive_solver. Qed.

Lemma units_ok {E} (x y : result E unit) : (_ ← x; y) = Ok tt <-> x = Ok tt /\ y = Ok tt.
Proof. destruct x as [[]|]; naive_solver. Qed.

Lemma try_fold_units {E A} (f : A -> result E unit) xs :
  try_fold (fun _ => f) tt xs = Ok tt <-> Forall (fun x => f x = Ok tt) xs.
Proof.
  induction xs as [|x xs IH]; simpl; [done|]. rewrite Forall_cons_iff, <-IH.
  destruct (f x) as [[]|]; naive_solver.
Qed.

Lemma try_fold_app {E A B} (f : A -> B -> result E A) a xs ys :
  try_fold f a (xs ++ ys) =
  match try_fold f a xs with Ok a' => try_fold f a' ys | Err e => Err e end.
Proof. revert a. induction xs as [|x xs IH]; intros a; simpl; [done|]. by destruct (f a x). Qed.

Lemma try_fold_ind {E A B} (P : A -> Prop) (f : A -> B -> result E A) xs a a' :
  P a -> (forall a x a', x ∈ xs -> P a -> f a x = Ok a' -> P a') ->
  try_fold f a xs = Ok a' -> P a'.
Proof.
  revert a. induction xs as [|x xs IH]; intros a Ha Hstep Hf; simpl in Hf; [by res_inv|].
  destruct (f a x) as [b|] eqn:E0; [|done]. eapply (IH b); try done.
  - eapply Hstep; eauto. by left.
  - intros ? ? ? Hin. apply Hstep. by right.
Qed.

Lemma try_map_Forall2 {E A B} (f : A -> result E B) xs ys :
  try_map f xs = Ok ys <-> Forall2 (fun x y => f x = Ok y) xs ys.
Proof.
  revert ys. induction xs as [|x xs IH]; intros ys; simpl.
  - split; [intros; res_inv; constructor|]. by inversion 1.
  - split.
    + intros H. res_inv. constructor; [done|]. by apply IH.
    + inversion 1 as [|? y ? ys' Hx Hxs]; subst. rewrite Hx. simpl.
      by rewrite (proj2 (IH _) Hxs).
Qed.

(** ** Lemmas on machine integers *)

Lemma u64_checked_add_Some a b c :
  u64_checked_add a b = Some c <-> c = (a + b)%Z /\ (a + b <= u64_max)%Z.
Proof.
  unfold u64_checked_add. destruct (Z.leb_spec (a + b) u64_max);
    split; intros; destruct_and?; simplify_eq; auto; lia.
Qed.

Lemma u64_checked_sub_Some a b c :
  u64_checked_sub a b = Some c <-> c = (a - b)%Z /\ (b <= a)%Z.
Proof.
  unfold u64_checked_sub. destruct (Z.leb_spec b a);
    split; intros; destruct_and?; simplify_eq; auto; lia.
Qed.

Lemma i64_clamp_in z : is_i64 z -> i64_clamp z = z.
Proof. unfold is_i64, i64_clamp. lia. Qed.

Lemma i64_checked_add_Some a b c :
  i64_checked_add a b = Some c <-> c = (a + b)%Z /\ is_i64 (a + b).
Proof.
  unfold i64_checked_add, is_i64.
  destruct (Z.leb_spec i64_min (a + b)), (Z.leb_spec (a + b) i64_max); simpl;
    split; intros; destruct_and?; simplify_eq; auto; lia.
Qed.

Lemma i64_checked_sub_Some a b c :
  i64_checked_sub a b = Some c <-> c = (a - b)%Z /\ is_i64 (a - b).
Proof. apply (i64_checked_add_Some a (- b)). Qed.

Lemma i64_checked_mul_Some a b c :
  i64_checked_mul a b = Some c <-> c = (a * b)%Z /\ is_i64 (a * b).
Proof. pose proof (i64_checked_add_Some 0 (a * b) c) as H. by rewrite Z.add_0_l in H. Qed.

Lemma i64_checked_add_in a b : is_i64 (a + b) -> i64_checked_add a b = Some (a + b)%Z.
Proof. intros H. by apply i64_checked_add_Some. Qed.

Lemma i64_checked_sub_in a b : is_i64 (a - b) -> i64_checked_sub a b = Some (a - b)%Z.
Proof. intros H. by apply i64_checked_sub_Some. Qed.

Lemma i64_checked_mul_in a b : is_i64 (a * b) -> i64_checked_mul a b = Some (a * b)%Z.
Proof. intros H. by apply i64_checked_mul_Some. Qed.

Lemma i64_checked_div_pos a b : (0 <= a)%Z -> (0 < b)%Z -> i64_checked_div a b = Some (a / b)%Z.
Proof.
  intros Ha Hb. unfold i64_checked_div. rewrite Z.quot_div_nonneg by lia.
  destruct (Z.eqb_spec b 0), (Z.eqb_spec b (-1)); try lia. by rewrite andb_false_r.
Qed.

(** ** Triples *)

(** [m], started in a state in [P], ends in [Q] when it succeeds and in [F] when
    it fails. *)
Definition triple {S E A : Type} (P : S -> Prop) (m : stateT S E A) (Q : A -> S -> Prop) (F : S -> Prop) : Prop :=
  forall s r s', P s -> m s = (r, s') -> match r with Ok a => Q a s' | Err _ => F s' end.

Section triples.
Context {S E : Type}.
Implicit Types P F : S -> Prop.

Lemma triple_bind {A B} P (m : stateT S E A) Q (f : A -> stateT S E B) R F :
  triple P m Q F -> (forall a, triple (Q a) (f a) R F) -> triple P (x ← m; f x) R F.
Proof.
  intros Hm Hf s r s' HP Hr. rewrite stateT_bind_unfold in Hr. destruct (m s) as [[a|e] s1] eqn:Em.
  - by eapply Hf, Hr; apply (Hm _ _ _ HP Em).
  - injection Hr as <- <-. by apply (Hm _ _ _ HP Em).
Qed.

Lemma triple_weaken {A} P P' (m : stateT S E A) (Q Q' : A -> S -> Prop) F F' :
  triple P m Q F -> (forall s, P' s -> P s) -> (forall a s, Q a s -> Q' a s) -> (forall s, F s -> F' s) ->
  triple P' m Q' F'.
Proof. intros Hm HP HQ HF s r s' Hp Hr. specialize (Hm _ _ _ (HP _ Hp) Hr). destruct r; auto. Qed.

Lemma triple_pre {A} P (m : stateT S E A) Q F :
  (forall s, P s -> triple (eq s) m Q F) -> triple P m Q F.
Proof. intros Hm s r s' HP Hr. by eapply (Hm s HP). Qed.

Lemma triple_ret {A} P (a : A) (Q : A -> S -> Prop) F : (forall s, P s -> Q a s) -> triple P (mret a : stateT S E A) Q F.
Proof. intros HQ s r s' HP Hr. unfold mret, stateT_ret in Hr. injection Hr as <- <-. auto. Qed.

Lemma triple_throw {A} P (e : E) (Q : A -> S -> Prop) F : (forall s, P s -> F s) -> triple P (throw e) Q F.
Proof. intros HF s r s' HP Hr. unfold throw in Hr. injection Hr as <- <-. auto. Qed.

Lemma triple_lift {A} P (x : result E A) (Q : A -> S -> Prop) F :
  (forall a s, x = Ok a -> P s -> Q a s) -> (forall s, P s -> F s) -> triple P (lift x) Q F.
Proof. intros HQ HF s r s' HP Hr. unfold lift in Hr. injection Hr as <- <-. destruct x; auto. Qed.

Lemma triple_lift_bind {A B} P (x : result E A) (f : A -> stateT S E B) Q F :
  (forall a, x = Ok a -> triple P (f a) Q F) -> (forall s, P s -> F s) -> triple P (a ← lift x; f a) Q F.
Proof.
  intros Hf HF s r s' HP Hr. rewrite stateT_bind_unfold in Hr. unfold lift in Hr.
  destruct x as [a|e]; [by eapply Hf|]. injection Hr as <- <-. auto.
Qed.

Lemma triple_gets_bind {A B} P (g : S -> A) (f : A -> stateT S E B) Q F :
  (forall s, P s -> triple (eq s) (f (g s)) Q F) -> triple P (a ← gets g; f a) Q F.
Proof. intros Hf s r s' HP Hr. by eapply (Hf s HP). Qed.

Lemma triple_map_err {E' A} P (f : E -> E') (m : stateT S E A) Q F : triple P m Q F -> triple P (map_err_m f m) Q F.
Proof.
  intros Hm s r s' HP Hr. unfold map_err_m in Hr. destruct (m s) as [r0 s1] eqn:Em.
  injection Hr as <- <-. specialize (Hm _ _ _ HP Em). by destruct r0.
Qed.

Lemma triple_map_m {A B} P (f : A -> stateT S E B) (I : B -> Prop) F xs :
  (forall x, x ∈ xs -> triple P (f x) (fun y s => P s /\ I y) F) ->
  triple P (map_m f xs) (fun ys s => P s /\ Forall I ys) F.
Proof.
  induction xs as [|x xs IH]; intros Hf; simpl.
  - apply triple_ret. by constructor.
  - eapply triple_bind; [apply Hf; by left|]. intros y. cbn beta.
    intros s r s' [HP HI]. revert s r s' HP. eapply triple_bind; [apply IH; intros; apply Hf; by right|].
    intros ys. apply triple_ret. intros s [HP HIs]. by repeat constructor.
Qed.

Lemma triple_modify P (g : S -> S) (Q : unit -> S -> Prop) F :
  (forall s, P s -> Q tt (g s)) -> triple P (modify g : stateT S E unit) Q F.
Proof. intros HQ s r s' HP Hr. unfold modify in Hr. injection Hr as <- <-. auto. Qed.
End triples.
