(* ===== verification/RustStd.v ===== *)
(** * The parts of the Rust standard library the sources use

    Instances of [Ord] for integers, sequences, options and pairs, the laws of
    ordered iteration over a [BTreeMap] and of [sort_by], and strings.  A [str]
    is its list of Unicode scalar values; [len] is the length of its UTF-8
    encoding, and the order of code points is the order of the encodings. *)

From Stdlib Require Import ZArith Lia String Ascii.
From stdpp Require Import base decidable gmap list sorting option.
From S2P Require Import Prelude.

(** ** Orders *)

Lemma cmp_then_trans c1 c2 d1 d2 c d :
  (c1 = Lt -> c2 = Lt -> c = Lt) -> (c1 = Eq -> c = c2) -> (c2 = Eq -> c = c1) ->
  (c1 = Eq -> c2 = Eq -> d1 = Lt -> d2 = Lt -> d = Lt) ->
  cmp_then c1 d1 = Lt -> cmp_then c2 d2 = Lt -> cmp_then c d = Lt.
Proof. destruct c1, c2; simpl; intros HLt H1 H2 Hd ? ?; try done; simplify_eq;
  try (rewrite HLt by done; done); try (rewrite H1 by done; done);
  try (rewrite H2 by done; done).
  rewrite H1 by done; simpl; auto.
Qed.

#[export] Program Instance Z_ord : RustOrd Z := {| rcmp := Z.compare |}.
Next Obligation. apply Z.compare_eq_iff. Qed.
Next Obligation. intros. apply Z.compare_antisym. Qed.
Next Obligation. intros x y z. rewrite !Z.compare_lt_iff. lia. Qed.

Section derived.
Context {K : Type} `{RustOrd K}.

Lemma rcmp_refl (x : K) : rcmp x x = Eq.
Proof. by apply rcmp_eq. Qed.

Lemma rcmp_Eq_l (x y z : K) : rcmp x y = Eq -> rcmp x z = rcmp y z.
Proof. by intros ->%rcmp_eq. Qed.

Lemma rcmp_Eq_r (x y z : K) : rcmp y z = Eq -> rcmp x z = rcmp x y.
Proof. by intros ->%rcmp_eq. Qed.

Lemma rltb_lt (x y : K) : rltb x y = true <-> rcmp x y = Lt.
Proof. unfold rltb. by destruct (rcmp x y). Qed.

Lemma rltb_irrefl (x : K) : rltb x x = false.
Proof. unfold rltb. by rewrite rcmp_refl. Qed.

Lemma rle_refl (x : K) : rle x x.
Proof. unfold rle. by rewrite rcmp_refl. Qed.

Lemma rle_total (x y : K) : rle x y \/ rle y x.
Proof. unfold rle. rewrite (rcmp_opp x y). destruct (rcmp x y); simpl; auto. Qed.

Lemma rle_antisym (x y : K) : rle x y -> rle y x -> x = y.
Proof.
  unfold rle. rewrite (rcmp_opp x y). destruct (rcmp x y) eqn:E; simpl; try done.
  intros _ _. by apply rcmp_eq.
Qed.

Lemma rle_lt_or_eq (x y : K) : rle x y <-> rcmp x y = Lt \/ x = y.
Proof.
  unfold rle. split.
  - destruct (rcmp x y) eqn:E; [right; by apply rcmp_eq|by left|done].
  - intros [->| ->]; [done|]. by rewrite rcmp_refl.
Qed.

Lemma rle_trans (x y z : K) : rle x y -> rle y z -> rle x z.
Proof.
  rewrite !rle_lt_or_eq. intros [Hxy| ->] [Hyz| ->]; auto.
  left. by eapply rcmp_trans.
Qed.

Lemma rcmp_Gt (x y : K) : rcmp x y = Gt <-> rcmp y x = Lt.
Proof. rewrite (rcmp_opp x y). by destruct (rcmp x y). Qed.

Lemma list_cmp_eq (xs ys : list K) : list_cmp xs ys = Eq <-> xs = ys.
Proof.
  revert ys. induction xs as [|x xs IH]; intros [|y ys]; simpl; try done.
  destruct (rcmp x y) eqn:E; simpl.
  - apply rcmp_eq in E as ->. rewrite IH. split; congruence.
  - split; [done|]. intros [= -> ->]. by rewrite rcmp_refl in E.
  - split; [done|]. intros [= -> ->]. by rewrite rcmp_refl in E.
Qed.

Lemma list_cmp_opp (xs ys : list K) : list_cmp ys xs = CompOpp (list_cmp xs ys).
Proof.
  revert ys. induction xs as [|x xs IH]; intros [|y ys]; simpl; try done.
  rewrite (rcmp_opp x y). destruct (rcmp x y); simpl; auto.
Qed.

Lemma list_cmp_trans (xs ys zs : list K) :
  list_cmp xs ys = Lt -> list_cmp ys zs = Lt -> list_cmp xs zs = Lt.
Proof.
  revert ys zs. induction xs as [|x xs IH]; intros [|y ys] [|z zs]; simpl; try done.
  apply cmp_then_trans; eauto using rcmp_trans, rcmp_Eq_l, rcmp_Eq_r.
Qed.

#[export] Instance list_ord : RustOrd (list K) :=
  {| rcmp := list_cmp; rcmp_eq := list_cmp_eq;
     rcmp_opp := list_cmp_opp; rcmp_trans := list_cmp_trans |}.

#[export] Program Instance option_ord : RustOrd (option K) := {| rcmp := option_cmp |}.
Next Obligation. intros [x|] [y|]; simpl; try done. rewrite rcmp_eq. split; congruence. Qed.
Next Obligation. intros [x|] [y|]; simpl; try done. apply rcmp_opp. Qed.
Next Obligation. intros [x|] [y|] [z|]; simpl; try done. apply rcmp_trans. Qed.
End derived.

Section pairs.
Context {K L : Type} `{RustOrd K, RustOrd L}.

#[export] Program Instance pair_ord : RustOrd (K * L) := {| rcmp := pair_cmp |}.
Next Obligation.
  intros [x u] [y v]. unfold pair_cmp; simpl.
  destruct (rcmp x y) eqn:E; simpl.
  - apply rcmp_eq in E as ->. rewrite rcmp_eq. split; congruence.
  - split; [done|]. intros [= -> ->]. by rewrite rcmp_refl in E.
  - split; [done|]. intros [= -> ->]. by rewrite rcmp_refl in E.
Qed.
Next Obligation.
  intros [x u] [y v]. unfold pair_cmp; simpl. rewrite (rcmp_opp x y), (rcmp_opp u v).
  by destruct (rcmp x y).
Qed.
Next Obligation.
  intros [x u] [y v] [z w]. unfold pair_cmp; simpl.
  apply cmp_then_trans; eauto using rcmp_trans, rcmp_Eq_l, rcmp_Eq_r.
Qed.
End pairs.

(** A type ordered through an injective key. *)
Program Definition ord_by {A K} `{RustOrd K} (f : A -> K) `{!Inj (=) (=) f} : RustOrd A :=
  {| rcmp := fun x y => rcmp (f x) (f y) |}.
Next Obligation. intros. simpl. rewrite rcmp_eq. split; [apply (inj f)|congruence]. Qed.
Next Obligation. intros. simpl. apply rcmp_opp. Qed.
Next Obligation. intros. simpl in *. by eapply rcmp_trans. Qed.

(** ** Ordered iteration over a map *)

Section btree.
Context {K V : Type} `{Countable K, RustOrd K}.
Implicit Types m : gmap K V.

#[local] Instance entry_le_trans : Transitive (@entry_le K V _).
Proof. intros p q r. unfold entry_le. apply rle_trans. Qed.
#[local] Instance entry_le_total : Total (@entry_le K V _).
Proof. intros p q. unfold entry_le. apply rle_total. Qed.

Lemma btree_iter_perm m : btree_iter m ≡ₚ map_to_list m.
Proof. unfold btree_iter. apply merge_sort_Permutation. Qed.

Lemma btree_iter_sorted m : StronglySorted entry_le (btree_iter m).
Proof. unfold btree_iter. apply StronglySorted_merge_sort; apply _. Qed.

Lemma elem_of_btree_iter m k v : (k, v) ∈ btree_iter m <-> m !! k = Some v.
Proof. rewrite btree_iter_perm. apply elem_of_map_to_list. Qed.

Lemma NoDup_btree_keys m : NoDup (btree_keys m).
Proof. unfold btree_keys. rewrite btree_iter_perm. apply NoDup_fst_map_to_list. Qed.

Lemma btree_iter_lt m : StronglySorted (fun p q => rcmp p.1 q.1 = Lt) (btree_iter m).
Proof.
  pose proof (NoDup_btree_keys m) as Hnd. pose proof (btree_iter_sorted m) as Hs.
  unfold btree_keys in Hnd. induction Hs as [|p l Hs IH Hp]; [constructor|].
  inversion Hnd as [|? ? Hni Hnd']; subst. constructor; [by apply IH|].
  rewrite Forall_forall in *. intros q Hq.
  destruct (proj1 (rle_lt_or_eq p.1 q.1) (Hp _ Hq)) as [?|Heq]; [done|].
  destruct Hni. rewrite Heq. by apply list_elem_of_fmap_2, list_elem_of_In.
Qed.

Lemma elem_of_btree_values m v : v ∈ btree_values m <-> exists k, m !! k = Some v.
Proof.
  unfold btree_values. rewrite list_elem_of_fmap. split.
  - intros ([k v'] & -> & Hin). exists k. by apply elem_of_btree_iter.
  - intros [k Hk]. exists (k, v). split; [done|]. by apply elem_of_btree_iter.
Qed.

Lemma elem_of_btree_keys m k : k ∈ btree_keys m <-> is_Some (m !! k).
Proof.
  unfold btree_keys. rewrite list_elem_of_fmap. split.
  - intros ([k' v] & -> & Hin). exists v. by apply elem_of_btree_iter.
  - intros [v Hv]. exists (k, v). split; [done|]. by apply elem_of_btree_iter.
Qed.
End btree.

(** ** Sorting *)

Section sorting.
Context {A : Type} (cmp : A -> A -> comparison).

Lemma insert_by_perm x xs : insert_by cmp x xs ≡ₚ x :: xs.
Proof.
  induction xs as [|y ys IH]; simpl; [done|]. destruct (cmp x y); try done.
  rewrite IH. apply Permutation_swap.
Qed.

Lemma sort_by_perm xs : sort_by cmp xs ≡ₚ xs.
Proof. induction xs as [|x xs IH]; simpl; [done|]. by rewrite insert_by_perm, IH. Qed.

Context (cmp_total : forall x y, cmp x y = Gt -> cmp y x <> Gt).
Context (cmp_transitive : forall x y z, cmp x y <> Gt -> cmp y z <> Gt -> cmp x z <> Gt).

Lemma insert_by_sorted x xs :
  StronglySorted (fun a b => cmp a b <> Gt) xs ->
  StronglySorted (fun a b => cmp a b <> Gt) (insert_by cmp x xs).
Proof.
  induction 1 as [|y ys Hys IH Hy]; simpl; [repeat constructor|].
  assert (cmp x y <> Gt -> StronglySorted (fun a b => cmp a b <> Gt) (x :: y :: ys)) as Hfront.
  { intros Hxy. constructor; [by constructor|]. constructor; [done|].
    eapply Forall_impl, Hy. intros z Hz. by eapply cmp_transitive. }
  destruct (cmp x y) eqn:E; try (apply Hfront; congruence).
  constructor; [done|]. rewrite insert_by_perm. constructor; [by apply cmp_total|done].
Qed.

Lemma sort_by_sorted xs : StronglySorted (fun a b => cmp a b <> Gt) (sort_by cmp xs).
Proof. induction xs as [|x xs IH]; simpl; [constructor|]. by apply insert_by_sorted. Qed.
End sorting.

(** [xs.sort_by_key(f)]. *)
Lemma sort_by_key_sorted {A K} `{RustOrd K} (f : A -> K) xs :
  StronglySorted (fun x y => rle (f x) (f y)) (sort_by (fun x y => rcmp (f x) (f y)) xs).
Proof.
  apply (sort_by_sorted (fun x y => rcmp (f x) (f y))).
  - intros x y. rewrite (rcmp_opp (f x) (f y)). by destruct (rcmp _ _).
  - intros x y z. apply rle_trans.
Qed.

(** The first match of a sorted list is below every match. *)
Lemma find_sorted {A} (R : A -> A -> Prop) (p : A -> bool) xs x :
  (forall y, R y y) -> StronglySorted R xs -> List.find p xs = Some x ->
  x ∈ xs /\ p x = true /\ forall y, y ∈ xs -> p y = true -> R x y.
Proof.
  intros Hrefl Hs. induction Hs as [|z zs Hs IH Hz]; simpl; [done|]. destruct (p z) eqn:Ez.
  - intros [= ->]. split; [by left|]. split; [done|]. intros y [->|Hy]%elem_of_cons Hp; [done|].
    rewrite list.Forall_forall in Hz. auto.
  - intros Hf. destruct (IH Hf) as (Hin & Hp & Hmin). split; [by right|]. split; [done|].
    intros y [->|Hy]%elem_of_cons Hpy; [congruence|auto].
Qed.

Lemma filter_filter_and {A} (p q : A -> bool) xs :
  List.filter q (List.filter p xs) = List.filter (fun x => p x && q x) xs.
Proof. induction xs as [|x xs IH]; simpl; [done|]. destruct (p x); simpl; [|done]. destruct (q x); by rewrite IH. Qed.

(** ** Strings *)

(** Scalar values of a string. *)
Abbreviation rstr := (list Z).

(** An ASCII string literal. *)
Definition str (s : String.string) : rstr :=
  (fun a => Z.of_N (N_of_ascii a)) <$> list_ascii_of_string s.

(** [char::len_utf8]. *)
Definition char_len_utf8 (c : Z) : Z :=
  if (c <? 128)%Z then 1
  else if (c <? 2048)%Z then 2
  else if (c <? 65536)%Z then 3
  else 4.

(** [str::len]. *)
Fixpoint str_len (s : rstr) : Z :=
  match s with
  | [] => 0
  | c :: s => char_len_utf8 c + str_len s
  end.

(** [char::is_whitespace]: the Unicode [White_Space] property. *)
Definition char_is_whitespace (c : Z) : bool :=
  ((9 <=? c) && (c <=? 13) || (c =? 32) || (c =? 133) || (c =? 160) || (c =? 5760)
   || (8192 <=? c) && (c <=? 8202) || (c =? 8232) || (c =? 8233) || (c =? 8239)
   || (c =? 8287) || (c =? 12288))%Z%bool.

(** [char::is_control]: the Unicode general category [Cc]. *)
Definition char_is_control (c : Z) : bool :=
  ((0 <=? c) && (c <=? 31) || (127 <=? c) && (c <=? 159))%Z%bool.

Fixpoint trim_start (s : rstr) : rstr :=
  match s with
  | [] => []
  | c :: s' => if char_is_whitespace c then trim_start s' else s
  end.

(** [str::trim]. *)
Definition trim (s : rstr) : rstr := reverse (trim_start (reverse (trim_start s))).

(** [str::is_empty]. *)
Definition str_is_empty (s : rstr) : bool :=
  match s with [] => true | _ => false end.

(** [s.trim().is_empty()]. *)
Definition str_blank (s : rstr) : bool := str_is_empty (trim s).

(** [str::contains(char)]. *)
Definition str_contains (c : Z) (s : rstr) : bool := existsb (Z.eqb c) s.

(** [s.replace("\r\n", "\n")]. *)
Fixpoint replace_crlf (s : rstr) : rstr :=
  match s with
  | [] => []
  | c :: s' =>
      match s' with
      | d :: s'' =>
          if ((c =? 13) && (d =? 10))%Z%bool then 10%Z :: replace_crlf s''
          else c :: replace_crlf s'
      | [] => [c]
      end
  end.

(** [xs.join(sep)]. *)
Fixpoint str_join (sep : rstr) (xs : list rstr) : rstr :=
  match xs with
  | [] => []
  | [x] => x
  | x :: xs => x ++ sep ++ str_join sep xs
  end.

(** [s.split(c)]: the pieces between the occurrences of [c], at least one. *)
Fixpoint str_split (c : Z) (s : rstr) : list rstr :=
  match s with
  | [] => [[]]
  | d :: s =>
      match str_split c s with
      | [] => [[d]]
      | p :: ps => if (d =? c)%Z then [] :: p :: ps else (d :: p) :: ps
      end
  end.

(** [str::starts_with]. *)
Fixpoint starts_with (p s : rstr) : bool :=
  match p, s with
  | [], _ => true
  | _ :: _, [] => false
  | x :: p, y :: s => ((x =? y)%Z && starts_with p s)%bool
  end.

(** [str::as_bytes]: the UTF-8 encoding. *)
Definition char_encode_utf8 (c : Z) : list Z :=
  (if c <? 128 then [c]
   else if c <? 2048 then [192 + Z.shiftr c 6; 128 + Z.land c 63]
   else if c <? 65536 then [224 + Z.shiftr c 12; 128 + Z.land (Z.shiftr c 6) 63; 128 + Z.land c 63]
   else [240 + Z.shiftr c 18; 128 + Z.land (Z.shiftr c 12) 63; 128 + Z.land (Z.shiftr c 6) 63;
         128 + Z.land c 63])%Z.
Definition as_bytes (s : rstr) : list Z := s ≫= char_encode_utf8.

(** [s.contains(p)] for a string [p]. *)
Fixpoint str_contains_str (p s : rstr) : bool :=
  (starts_with p s || match s with [] => false | _ :: s => str_contains_str p s end)%bool.

(** [str::ends_with]. *)
Definition ends_with (p s : rstr) : bool := starts_with (reverse p) (reverse s).

(** [str::is_char_boundary]. *)
Fixpoint is_char_boundary (s : rstr) (i : Z) : bool :=
  match s with
  | [] => (i =? 0)%Z
  | c :: s => ((i =? 0) || (char_len_utf8 c <=? i) && is_char_boundary s (i - char_len_utf8 c))%Z%bool
  end.

(** [while !s.is_char_boundary(boundary) { boundary -= 1; }]. *)
Fixpoint back_to_boundary (s : rstr) (boundary : nat) : nat :=
  if is_char_boundary s (Z.of_nat boundary) then boundary
  else match boundary with O => O | S boundary => back_to_boundary s boundary end.

(** [s[..i]], for a boundary [i]. *)
Fixpoint str_slice_to (s : rstr) (i : Z) : rstr :=
  match s with
  | [] => []
  | c :: s => if (i <=? 0)%Z then [] else c :: str_slice_to s (i - char_len_utf8 c)
  end.

(** [s.find(p)]: the byte offset of the first occurrence. *)
Fixpoint str_find (p s : rstr) : option Z :=
  if starts_with p s then Some 0%Z
  else match s with
       | [] => None
       | c :: s => (fun i => char_len_utf8 c + i)%Z <$> str_find p s
       end.

(** [s[i..]], for a boundary [i]. *)
Fixpoint str_slice_from (s : rstr) (i : Z) : rstr :=
  if (i <=? 0)%Z then s
  else match s with [] => [] | c :: s => str_slice_from s (i - char_len_utf8 c) end.

(** [str::to_ascii_lowercase]. *)
Definition ascii_lower (c : Z) : Z := if ((65 <=? c) && (c <=? 90))%Z%bool then (c + 32)%Z else c.
Definition to_ascii_lowercase (s : rstr) : rstr := ascii_lower <$> s.

Lemma str_len_nonneg s : (0 <= str_len s)%Z.
Proof.
  induction s as [|c s IH]; simpl; [lia|]. unfold char_len_utf8.
  repeat case_match; lia.
Qed.

Lemma str_len_app s t : str_len (s ++ t) = (str_len s + str_len t)%Z.
Proof. induction s as [|c s IH]; simpl; [done|]. rewrite IH. lia. Qed.

Lemma str_len_zero s : str_len s = 0%Z <-> s = [].
Proof.
  destruct s as [|c s]; simpl; [done|]. split; [|done].
  pose proof (str_len_nonneg s). unfold char_len_utf8. repeat case_match; lia.
Qed.

Lemma char_len_utf8_pos c : (0 < char_len_utf8 c)%Z.
Proof. unfold char_len_utf8. repeat case_match; lia. Qed.

Lemma back_to_boundary_spec s n :
  is_char_boundary s (Z.of_nat (back_to_boundary s n)) = true /\ (back_to_boundary s n <= n)%nat.
Proof.
  induction n as [|n IH]; cbn [back_to_boundary].
  - by destruct s.
  - destruct (is_char_boundary s (Z.of_nat (S n))) eqn:E; [split; [exact E|lia]|]. destruct IH. split; [done|lia].
Qed.

Lemma str_slice_to_len s i : is_char_boundary s i = true -> str_len (str_slice_to s i) = i.
Proof.
  revert i. induction s as [|c s IH]; intros i Hb; simpl in *; [lia|]. pose proof (char_len_utf8_pos c).
  destruct (Z.leb_spec i 0); simpl.
  - apply orb_true_iff in Hb as [?|[? _]%andb_true_iff]; lia.
  - apply orb_true_iff in Hb as [?|[? Hb]%andb_true_iff]; [lia|]. rewrite IH by done. lia.
Qed.

Lemma str_slice_to_prefix s i : str_slice_to s i `prefix_of` s.
Proof.
  revert i. induction s as [|c s IH]; intros i; simpl; [done|].
  destruct (i <=? 0)%Z; [apply prefix_nil|]. by apply prefix_cons.
Qed.

Lemma Forall2_StronglySorted {A B} (R : A -> B -> Prop) (P : A -> A -> Prop) (Q : B -> B -> Prop) xs ys :
  (forall x x' y y', R x y -> R x' y' -> P x x' -> Q y y') ->
  Forall2 R xs ys -> StronglySorted P xs -> StronglySorted Q ys.
Proof.
  intros HRQ. induction 1 as [|x y xs ys Hxy Hxs IH]; inversion 1 as [|? ? Hs Hall]; subst;
    constructor; [by apply IH|].
  clear -HRQ Hxy Hxs Hall.
  induction Hxs as [|x' y' xs ys Hxy' Hxs IH]; inversion Hall; subst; constructor; eauto.
Qed.

Lemma size_list_to_set_le {A} `{Countable A} (xs : list A) : (size (list_to_set xs : gset A) <= length xs)%nat.
Proof.
  induction xs as [|x xs IH]; [done|]. rewrite list_to_set_cons, size_union_alt, size_singleton. simpl.
  assert (size (list_to_set xs ∖ {[x]} : gset A) <= size (list_to_set xs : gset A))%nat; [|lia].
  apply subseteq_size, subseteq_difference_l. done.
Qed.

(** A [BTreeSet] collected from distinct values has them all. *)
Lemma size_list_to_set_NoDup {A} `{Countable A} (xs : list A) :
  size (list_to_set xs : gset A) = length xs <-> NoDup xs.
Proof.
  split; [|apply size_list_to_set].
  induction xs as [|x xs IH]; simpl; [constructor|]. intros Hs.
  pose proof (size_list_to_set_le xs) as Hle.
  destruct (decide (x ∈ xs)) as [Hin|Hni].
  - rewrite (subseteq_union_1_L {[x]}) in Hs by set_solver. lia.
  - constructor; [done|]. apply IH. rewrite size_union, size_singleton in Hs by set_solver. lia.
Qed.

(** ** Enumerations *)

(** An enum by the list of its variants in order of declaration. *)
Class Enumerated (A : Type) `{EqDecision A} : Type := {
  variants : list A;
  variants_complete : forall x, x ∈ variants
}.

Section enumerated.
Context {A : Type} `{Enumerated A}.

(** [self as u8]. *)
Definition variant_index (x : A) : Z :=
  match list_find (fun y => y = x) variants with Some (n, _) => Z.of_nat n | None => 0 end.

Lemma variant_index_lookup x : variants !! Z.to_nat (variant_index x) = Some x.
Proof.
  unfold variant_index. destruct (list_find _ _) as [[n y]|] eqn:E.
  - apply list_find_Some in E as (Hn & -> & _). by rewrite Nat2Z.id.
  - apply list_find_None in E. rewrite list.Forall_forall in E.
    by destruct (E x (variants_complete x)).
Qed.

#[export] Instance variant_index_inj : Inj (=) (=) variant_index.
Proof.
  intros x y Heq. pose proof (variant_index_lookup x) as Hx. pose proof (variant_index_lookup y) as Hy.
  rewrite Heq in Hx. congruence.
Qed.

#[export] Program Instance enumerated_countable : Countable A :=
  inj_countable variant_index (fun z => variants !! Z.to_nat z) variant_index_lookup.
#[export] Instance enumerated_ord : RustOrd A := ord_by variant_index.
End enumerated.

(** [Ord::min]. *)
Definition rmin {K} `{RustOrd K} (x y : K) : K := if rltb y x then y else x.

Lemma rltb_rmin {K} `{RustOrd K} (x y z : K) : rltb (rmin x y) z = (rltb x z || rltb y z)%bool.
Proof.
  unfold rmin. destruct (rltb y x) eqn:Eyx.
  - destruct (rltb x z) eqn:Exz; [|done]. apply rltb_lt in Eyx, Exz. apply rltb_lt. by eapply rcmp_trans.
  - destruct (rltb y z) eqn:Eyz; [|by rewrite orb_false_r].
    assert (rle x y) as Hle. { intros HG%rcmp_Gt. apply rltb_lt in HG. congruence. }
    apply rltb_lt in Eyz. rewrite orb_true_r. apply rltb_lt. apply rle_lt_or_eq in Hle as [Hlt| ->]; [|done].
    by eapply rcmp_trans.
Qed.

(** [xs.max()]. *)
Definition max_of (xs : list Z) : option Z :=
  match xs with [] => None | x :: xs => Some (fold_left Z.max xs x) end.

Lemma fold_max_le xs y x : x ∈ y :: xs -> (x <= fold_left Z.max xs y)%Z.
Proof.
  revert y x. induction xs as [|z xs IH]; intros y x Hx; simpl.
  - apply list_elem_of_singleton in Hx as ->. lia.
  - apply elem_of_cons in Hx as [->|[->|Hx]%elem_of_cons].
    + trans (Z.max y z); [lia|]. apply IH. by left.
    + trans (Z.max y z); [lia|]. apply IH. by left.
    + apply IH. by right.
Qed.

Lemma max_of_le xs x : x ∈ xs -> (x <= default 0 (max_of xs))%Z.
Proof. destruct xs as [|y ys]; [by intros ?%elem_of_nil|]. apply fold_max_le. Qed.

Lemma max_of_Some xs m : max_of xs = Some m -> m ∈ xs /\ forall x, x ∈ xs -> (x <= m)%Z.
Proof.
  intros Hm. assert (forall x, x ∈ xs -> (x <= m)%Z) as Hle.
  { intros x Hx. apply max_of_le in Hx. by rewrite Hm in Hx. }
  split; [|done]. destruct xs as [|y ys]; [done|]. injection Hm as <-. clear Hle.
  revert y. induction ys as [|z ys IH]; intros y; simpl; [by left|].
  specialize (IH (Z.max y z)). apply elem_of_cons in IH as [->|IH]; [|by right; right].
  destruct (Z.max_spec y z) as [[_ ->]|[_ ->]]; [right; by left|by left].
Qed.
