(* ===== verification/RustText.v ===== *)
(** * Text of the Rust standard library: splitting, numerals and paths

    [str::split_whitespace], [str::split_once], [u32::from_str] and the decimal
    form of a number, with the lemmas that relate splitting to joining and
    reading a numeral to writing it.  Then paths on Unix: a [PathBuf] is its text,
    [Path::components] drops repeated separators and inner dots, and two paths are
    equal when their components are. *)

From Stdlib Require Import ZArith Lia String.
From stdpp Require Import base decidable countable gmap sorting option list.
From S2P Require Import Prelude RustStd.

(** ** Splitting *)

(** [s.split_whitespace()]: the maximal runs without white space.  [word] is the
    run that is being read, backwards. *)
Fixpoint words_from (word : rstr) (s : rstr) : list rstr :=
  match s with
  | [] => match word with [] => [] | _ => [reverse word] end
  | c :: s =>
      if char_is_whitespace c
      then match word with [] => words_from [] s | _ => reverse word :: words_from [] s end
      else words_from (c :: word) s
  end.

Definition split_whitespace (s : rstr) : list rstr := words_from [] s.

(** [s.split_once(c)]: the text before and after the first [c]. *)
Fixpoint split_once (c : Z) (s : rstr) : option (rstr * rstr) :=
  match s with
  | [] => None
  | d :: s => if (d =? c)%Z then Some ([], s) else '(a, b) ← split_once c s; Some (d :: a, b)
  end.

(** ** Numerals *)

Definition digit_value (c : Z) : option Z :=
  if ((48 <=? c) && (c <=? 57))%Z then Some (c - 48)%Z else None.

Definition decimal_value (s : rstr) : option Z :=
  foldl (fun acc c => a ← acc; d ← digit_value c; Some (10 * a + d)%Z) (Some 0%Z) s.

(** [s.parse::<u32>()]: a [+] is allowed, at least one digit is required, and
    the value must fit. *)
Definition u32_from_str (s : rstr) : option Z :=
  let digits := match s with c :: rest => if (c =? 43)%Z then rest else s | [] => s end in
  match digits with
  | [] => None
  | _ => v ← decimal_value digits; u32_try_from v
  end.

(** The decimal digits of a number, most significant first. *)
Fixpoint decimal_digits (fuel : nat) (n : Z) : rstr :=
  match fuel with
  | O => []
  | S fuel => (if (n <? 10)%Z then [] else decimal_digits fuel (n / 10)) ++ [48 + n mod 10]%Z
  end.

(** [format!("{n}")] of a [u32], which has at most ten digits. *)
Definition u32_to_string (n : Z) : rstr := decimal_digits 10 n.

(** [format!("{n}")] of an [i64], which has at most nineteen digits. *)
Definition i64_to_string (n : Z) : rstr :=
  if (n <? 0)%Z then str "-" ++ decimal_digits 19 (- n) else decimal_digits 19 n.

(** [format!("{n:+}")]. *)
Definition i64_to_signed (n : Z) : rstr := if (n <? 0)%Z then i64_to_string n else str "+" ++ i64_to_string n.

(** [format!("{n:0width$}")]: zeros after the sign up to the width. *)
Definition pad_zeros (width : nat) (n : Z) : rstr :=
  let digits := decimal_digits 19 (Z.abs n) in
  let sign := if (n <? 0)%Z then str "-" else [] in
  sign ++ replicate (width - length sign - length digits) 48%Z ++ digits.

(** ** Lemmas *)

Lemma words_from_word w s : Forall (fun c => char_is_whitespace c = false) s ->
  words_from w s = match reverse w ++ s with [] => [] | t => [t] end.
Proof.
  revert w. induction s as [|c s IH]; intros w Hs; simpl.
  - rewrite app_nil_r. destruct w as [|d w]; [done|]. rewrite reverse_cons. by destruct (reverse w).
  - apply Forall_cons in Hs as [Hc Hs]. rewrite Hc, IH by done. by rewrite reverse_cons, <-app_assoc.
Qed.

Lemma words_from_app w s c t :
  Forall (fun c => char_is_whitespace c = false) s -> char_is_whitespace c = true ->
  reverse w ++ s <> [] -> words_from w (s ++ c :: t) = (reverse w ++ s) :: words_from [] t.
Proof.
  intros Hs Hc. revert w. induction Hs as [|d s Hd Hs IH]; intros w Hne; simpl.
  - rewrite Hc, app_nil_r in *. by destruct w.
  - rewrite Hd, IH; rewrite reverse_cons, <-app_assoc; [done|]. by destruct (reverse w).
Qed.

(** Words joined by blanks are split again. *)
Lemma split_whitespace_join ws :
  Forall (fun w => w <> [] /\ Forall (fun c => char_is_whitespace c = false) w) ws ->
  split_whitespace (str_join [32%Z] ws) = ws.
Proof.
  unfold split_whitespace. induction ws as [|w ws IH]; intros Hws; [done|].
  apply Forall_cons in Hws as [[Hne Hw] Hws]. destruct ws as [|w' ws].
  - simpl. rewrite words_from_word by done. simpl. by destruct w.
  - change (str_join _ _) with (w ++ 32%Z :: str_join [32%Z] (w' :: ws)).
    rewrite words_from_app by done. simpl (reverse [] ++ w). by rewrite IH.
Qed.

Lemma split_once_app c s t : c ∉ s -> split_once c (s ++ c :: t) = Some (s, t).
Proof.
  induction s as [|d s IH]; intros Hc; simpl; [by rewrite Z.eqb_refl|].
  apply not_elem_of_cons in Hc as [Hd Hc]. destruct (Z.eqb_spec d c); [done|]. by rewrite IH.
Qed.

Lemma split_once_none c s : c ∉ s -> split_once c s = None.
Proof.
  induction s as [|d s IH]; intros Hc; simpl; [done|].
  apply not_elem_of_cons in Hc as [Hd Hc]. destruct (Z.eqb_spec d c); [done|]. by rewrite IH.
Qed.

Lemma str_split_none c s : c ∉ s -> str_split c s = [s].
Proof.
  induction s as [|d s IH]; intros Hc; simpl; [done|].
  apply not_elem_of_cons in Hc as [Hd Hc]. rewrite IH by done. by destruct (Z.eqb_spec d c).
Qed.

Lemma str_split_app c s t : c ∉ s -> str_split c (s ++ c :: t) = s :: str_split c t.
Proof.
  assert (str_split c t <> []) as Hne.
  { destruct t as [|d t]; simpl; [done|]. destruct (str_split c t); [done|]. by destruct (d =? c)%Z. }
  induction s as [|d s IH]; intros Hc; simpl.
  - destruct (str_split c t); [done|]. by rewrite Z.eqb_refl.
  - apply not_elem_of_cons in Hc as [Hd Hc]. rewrite IH by done. by destruct (Z.eqb_spec d c).
Qed.

(** Pieces joined by a separator are split again. *)
Lemma str_split_join c ps :
  ps <> [] -> Forall (fun p => c ∉ p) ps -> str_split c (str_join [c] ps) = ps.
Proof.
  induction ps as [|p ps IH]; intros Hne Hps; [done|]. apply Forall_cons in Hps as [Hp Hps].
  destruct ps as [|q ps]; [by apply str_split_none|].
  change (str_join _ _) with (p ++ c :: str_join [c] (q :: ps)). rewrite str_split_app by done. by rewrite IH.
Qed.

(** *** Numerals *)

Definition is_digit (c : Z) : Prop := (48 <= c <= 57)%Z.

Lemma digit_value_char d : (0 <= d < 10)%Z -> digit_value (48 + d) = Some d.
Proof.
  intros Hd. unfold digit_value. destruct (Z.leb_spec 48 (48 + d)), (Z.leb_spec (48 + d) 57); simpl; try lia.
  f_equal. lia.
Qed.

Lemma decimal_digits_ne fuel n : fuel <> O -> decimal_digits fuel n <> [].
Proof. destruct fuel; [done|]. simpl. intros _ H. by apply app_nil in H as [_ ?]. Qed.

Lemma decimal_digits_are fuel n : (0 <= n)%Z -> Forall is_digit (decimal_digits fuel n).
Proof.
  revert n. induction fuel as [|fuel IH]; intros n Hn; simpl; [done|]. apply Forall_app. split.
  - destruct (n <? 10)%Z; [done|]. apply IH. by apply Z.div_pos.
  - apply Forall_singleton. unfold is_digit. pose proof (Z.mod_pos_bound n 10). lia.
Qed.

Lemma decimal_value_digits fuel n :
  (0 <= n < 10 ^ Z.of_nat fuel)%Z -> decimal_value (decimal_digits fuel n) = Some n.
Proof.
  revert n. induction fuel as [|fuel IH]; intros n Hn; simpl decimal_digits.
  { simpl in Hn. assert (n = 0)%Z as -> by lia. done. }
  unfold decimal_value. rewrite foldl_app. fold (decimal_value (if (n <? 10)%Z then [] else decimal_digits fuel (n / 10))).
  pose proof (Z.mod_pos_bound n 10). pose proof (Z.div_mod n 10). destruct (Z.ltb_spec n 10).
  - simpl. rewrite digit_value_char by lia. simpl. f_equal. rewrite Z.mod_small; lia.
  - rewrite IH.
    + simpl. rewrite digit_value_char by lia. simpl. f_equal. lia.
    + rewrite Nat2Z.inj_succ, Z.pow_succ_r in Hn by lia. split; [apply Z.div_pos; lia|].
      apply Z.div_lt_upper_bound; lia.
Qed.

(** A written numeral is read back. *)
Lemma u32_round_trip n : is_u32 n -> u32_from_str (u32_to_string n) = Some n.
Proof.
  intros [Hn Hle]. unfold u32_from_str. pose proof (decimal_digits_are 10 n Hn) as Hd.
  pose proof (decimal_digits_ne 10 n) as Hne. unfold u32_to_string.
  assert (decimal_value (decimal_digits 10 n) = Some n) as Hv.
  { apply decimal_value_digits. unfold u32_max in Hle. split; [done|]. simpl. lia. }
  destruct (decimal_digits 10 n) as [|c s]; [by destruct Hne|].
  apply Forall_cons in Hd as [Hc _]. unfold is_digit in Hc. destruct (Z.eqb_spec c 43); [lia|].
  rewrite Hv. simpl. unfold u32_try_from.
  destruct (Z.leb_spec 0 n), (Z.leb_spec n u32_max); simpl; try lia. done.
Qed.

Lemma u32_digits n : (0 <= n)%Z -> Forall is_digit (u32_to_string n).
Proof. apply decimal_digits_are. Qed.

Lemma u32_to_string_ne n : u32_to_string n <> [].
Proof. by apply decimal_digits_ne. Qed.

Lemma u32_from_str_range s n : u32_from_str s = Some n -> is_u32 n.
Proof.
  unfold u32_from_str. destruct (match s with c :: rest => _ | [] => s end) as [|c t]; [done|].
  destruct (decimal_value (c :: t)) as [v|]; simpl; [|done]. unfold u32_try_from, is_u32.
  destruct (Z.leb_spec 0 v), (Z.leb_spec v u32_max); simpl; intros; simplify_eq. lia.
Qed.

(** ** Paths *)

Abbreviation PathBuf := rstr (only parsing).

Inductive Component := RootDir | CurDir | ParentDir | Normal (name : rstr).

#[export] Instance Component_eq_dec : EqDecision Component.
Proof. solve_decision. Defined.

(** The separator. *)
Definition is_separator (c : Z) : bool := (c =? 47)%Z.

(** [Path::is_absolute]: there are no prefixes on Unix. *)
Definition is_absolute (p : PathBuf) : bool := match p with c :: _ => is_separator c | [] => false end.

Definition part_component (part : rstr) : option Component :=
  if str_is_empty part || bool_decide (part = str ".") then None
  else if bool_decide (part = str "..") then Some ParentDir
  else Some (Normal part).

(** [Path::components]: a dot is kept only in front of a relative path. *)
Definition components (p : PathBuf) : list Component :=
  let parts := str_split 47 p in
  (if is_absolute p then [RootDir]
   else match parts with first :: _ => if bool_decide (first = str ".") then [CurDir] else [] | [] => [] end)
  ++ omap part_component parts.

(** [Path::eq]. *)
Definition path_eqb (p q : PathBuf) : bool := bool_decide (components p = components q).

(** [Path::starts_with]. *)
Fixpoint components_prefix (base p : list Component) : bool :=
  match base, p with
  | [], _ => true
  | c :: base, d :: p => bool_decide (c = d) && components_prefix base p
  | _ :: _, [] => false
  end.

Definition path_starts_with (p base : PathBuf) : bool := components_prefix (components base) (components p).

(** [Path::join]. *)
Definition path_join (p q : PathBuf) : PathBuf :=
  if is_absolute q then q
  else match last p with
       | None => q
       | Some c => if is_separator c then p ++ q else p ++ str "/" ++ q
       end.

(** ** Lemmas *)

Lemma components_prefix_spec base p : components_prefix base p = true <-> base `prefix_of` p.
Proof.
  revert p. induction base as [|c base IH]; intros p; simpl; [split; [intros _; apply prefix_nil|done]|].
  destruct p as [|d p]; [split; [done|]; by intros ?%prefix_nil_not|].
  rewrite andb_true_iff, bool_decide_eq_true, IH. split.
  - intros [-> Hp]. by apply prefix_cons.
  - intros [k Hk]. injection Hk as -> ->. split; [done|]. by exists k.
Qed.

#[export] Instance path_eqb_equivalence : Equivalence (fun p q => path_eqb p q = true).
Proof.
  unfold path_eqb. split.
  - intros p. by apply bool_decide_eq_true.
  - intros p q H%bool_decide_eq_true. by apply bool_decide_eq_true.
  - intros p q r H%bool_decide_eq_true K%bool_decide_eq_true. apply bool_decide_eq_true. congruence.
Qed.
