(* ===== verification/Sha2.v ===== *)
(** * The digest functions the services use

    [sha2::Sha256], third-party code, by its documented output: 32 bytes. *)

From Stdlib Require Import ZArith.
From stdpp Require Import base list.

Class Sha256 : Type := {
  sha256 : list Z -> list Z;
  sha256_length : forall b, length (sha256 b) = 32;
  sha256_bytes : forall b, Forall (fun x => 0 <= x < 256)%Z (sha256 b)
}.
