(* ===== verification/AgentTypes.v ===== *)
(** * Shared vocabulary: [crates/agent-types/src/lib.rs]

    Protocol and schema versions, entity identifiers, the typed identifiers of
    the [typed_ids!] macro, the monotonic counters of [monotonic_counter!],
    timestamps and time-zone names.  The [ulid] crate is a parameter: the class
    [Ulid] holds the two functions [EntityId] calls and the documented law that
    relates them. *)

From Stdlib Require Import ZArith Lia String.
From stdpp Require Import base decidable countable gmap option list.
From S2P Require Import Prelude RustStd.

(** ** Versions *)

Record ProtocolVersion := MkProtocolVersion { pv_major : Z; pv_minor : Z }.

Definition is_major_compatible_with (self other : ProtocolVersion) : bool :=
  (pv_major self =? pv_major other)%Z.

Definition common_minor (self other : ProtocolVersion) : option ProtocolVersion :=
  if is_major_compatible_with self other
  then Some (MkProtocolVersion (pv_major self)
               (if (pv_minor self <? pv_minor other)%Z then pv_minor self else pv_minor other))
  else None.

Record SchemaVersion := MkSchemaVersion { sv_major : Z; sv_minor : Z }.

Definition CURRENT_PROTOCOL_VERSION : ProtocolVersion := MkProtocolVersion 1 1.
Definition CURRENT_SCHEMA_VERSION : SchemaVersion := MkSchemaVersion 1 0.

#[export] Instance SchemaVersion_eq_dec : EqDecision SchemaVersion.
Proof. solve_decision. Defined.
#[export] Instance ProtocolVersion_eq_dec : EqDecision ProtocolVersion.
Proof. solve_decision. Defined.

(** ** Identifiers *)

Record EntityId := MkEntityId { as_str : rstr }.

#[export] Instance EntityId_eq_dec : EqDecision EntityId.
Proof. solve_decision. Defined.
#[export] Instance EntityId_countable : Countable EntityId.
Proof. apply (inj_countable' as_str MkEntityId). by intros []. Defined.
#[export] Instance as_str_inj : Inj (=) (=) as_str.
Proof. intros [] []; simpl; congruence. Qed.
#[export] Instance EntityId_ord : RustOrd EntityId := ord_by as_str.

Inductive EntityIdError := EntityIdInvalid.

(** The [ulid] crate: rendering a 128-bit value and reading it back. *)
Class Ulid : Type := {
  ulid_to_string : Z -> rstr;
  ulid_from_string : rstr -> option Z;
  ulid_from_to : forall v, (0 <= v < 2 ^ 128)%Z -> ulid_from_string (ulid_to_string v) = Some v;
  ulid_from_range : forall s v, ulid_from_string s = Some v -> (0 <= v < 2 ^ 128)%Z
}.

Section entity_id.
Context `{Ulid}.

Definition entity_id_from_u128 (value : Z) : EntityId := MkEntityId (ulid_to_string value).

Definition entity_id_parse (value : rstr) : result EntityIdError EntityId :=
  parsed ← ok_or (ulid_from_string value) EntityIdInvalid;
  if bool_decide (value = ulid_to_string parsed) then Ok (MkEntityId value)
  else Err EntityIdInvalid.
End entity_id.

(** The newtypes of [typed_ids!] (and of [contract_ids!] in
    [crates/platform-contracts]): one phantom tag per name. *)
Record TypedId (name : String.string) := MkTypedId { as_entity_id : EntityId }.
Global Arguments MkTypedId {name} as_entity_id.
Global Arguments as_entity_id {name} _.

#[export] Instance TypedId_eq_dec {name} : EqDecision (TypedId name).
Proof. solve_decision. Defined.
#[export] Instance TypedId_countable {name} : Countable (TypedId name).
Proof. apply (inj_countable' as_entity_id MkTypedId). by intros []. Defined.
#[export] Instance as_entity_id_inj {name} : Inj (=) (=) (@as_entity_id name).
Proof. intros [] []; simpl; congruence. Qed.
#[export] Instance TypedId_ord {name} : RustOrd (TypedId name) := ord_by as_entity_id.

Abbreviation ActionId := (TypedId "ActionId").
Abbreviation ArtifactId := (TypedId "ArtifactId").
Abbreviation ChildId := (TypedId "ChildId").
Abbreviation ClientId := (TypedId "ClientId").
Abbreviation CommitmentId := (TypedId "CommitmentId").
Abbreviation DeliveryId := (TypedId "DeliveryId").
Abbreviation EntryId := (TypedId "EntryId").
Abbreviation GoalId := (TypedId "GoalId").
Abbreviation JobId := (TypedId "JobId").
Abbreviation MessageId := (TypedId "MessageId").
Abbreviation ProfileId := (TypedId "ProfileId").
Abbreviation RootTreeId := (TypedId "RootTreeId").
Abbreviation SessionId := (TypedId "SessionId").
Abbreviation TurnId := (TypedId "TurnId").
Abbreviation WorkspaceId := (TypedId "WorkspaceId").

(** ** Counters *)

(** [Revision], an instance of [monotonic_counter!]. *)
Record Revision := MkRevision { revision_get : Z }.

#[export] Instance Revision_eq_dec : EqDecision Revision.
Proof. solve_decision. Defined.

Definition Revision_ZERO : Revision := MkRevision 0.

Definition checked_next (r : Revision) : option Revision :=
  match u64_checked_add (revision_get r) 1 with
  | Some value => Some (MkRevision value)
  | None => None
  end.

(** ** Time *)

(** [UtcTimestamp]: signed milliseconds since the Unix epoch. *)
Record UtcTimestamp := MkUtcTimestamp { unix_millis : Z }.

#[export] Instance UtcTimestamp_eq_dec : EqDecision UtcTimestamp.
Proof. solve_decision. Defined.
#[export] Instance unix_millis_inj : Inj (=) (=) unix_millis.
Proof. intros [] []; simpl; congruence. Qed.
#[export] Instance UtcTimestamp_ord : RustOrd UtcTimestamp := ord_by unix_millis.

Lemma rleb_millis (a b : UtcTimestamp) : rleb a b = true <-> (unix_millis a <= unix_millis b)%Z.
Proof.
  unfold rleb, rcmp. simpl. destruct (Z.compare_spec (unix_millis a) (unix_millis b)); split; done || lia.
Qed.

Definition UNIX_EPOCH : UtcTimestamp := MkUtcTimestamp 0.

Inductive TimestampError := TimestampOutOfRange.

(** A [SystemTime] is its signed distance in nanoseconds from [UNIX_EPOCH];
    [duration_since] yields the distance, on the error side when it is
    negative, and [as_millis] drops the sub-millisecond part. *)
Definition from_system_time (time : Z) : result TimestampError UtcTimestamp :=
  if (0 <=? time)%Z
  then ok_or (MkUtcTimestamp <$> i64_try_from (time / 1000000)) TimestampOutOfRange
  else ok_or (MkUtcTimestamp <$> (i64_try_from ((- time) / 1000000) ≫= i64_checked_neg))
             TimestampOutOfRange.

(** [TimeZoneName::parse]. *)
Record TimeZoneName := MkTimeZoneName { time_zone_as_str : rstr }.

Inductive TimeZoneNameError := TimeZoneInvalid.

Definition is_ascii_alphanumeric (c : Z) : bool :=
  ((48 <=? c) && (c <=? 57) || (65 <=? c) && (c <=? 90) || (97 <=? c) && (c <=? 122))%Z%bool.

(** ['_'], ['-'] and ['+']. *)
Definition zone_char (c : Z) : bool :=
  (is_ascii_alphanumeric c || (c =? 95) || (c =? 45) || (c =? 43))%Z%bool.

Definition time_zone_parse (value : rstr) : result TimeZoneNameError TimeZoneName :=
  let valid :=
    (bool_decide (value = str "UTC")
     || (str_contains 47 value
         && forallb (fun part => negb (str_is_empty part) && forallb zone_char part)
                    (str_split 47 value)))%bool in
  if valid then Ok (MkTimeZoneName value) else Err TimeZoneInvalid.

(** ** Properties *)

Lemma checked_next_Some r r' :
  checked_next r = Some r' <->
  revision_get r' = (revision_get r + 1)%Z /\ (revision_get r + 1 <= u64_max)%Z.
Proof.
  unfold checked_next. destruct (u64_checked_add (revision_get r) 1) as [v|] eqn:E.
  - apply u64_checked_add_Some in E as [-> ?]. split.
    + intros [= <-]. done.
    + intros [Hr _]. destruct r'; simpl in *. by subst.
  - split; [done|]. intros [_ Hle]. unfold u64_checked_add in E.
    apply Z.leb_le in Hle. by rewrite Hle in E.
Qed.

Lemma i64_try_from_Some z w : i64_try_from z = Some w <-> w = z /\ is_i64 z.
Proof.
  unfold i64_try_from, is_i64.
  destruct (Z.leb_spec i64_min z), (Z.leb_spec z i64_max); simpl;
    split; intros; destruct_and?; simplify_eq; auto; lia.
Qed.

Section entity_id_properties.
Context `{Ulid}.

Lemma parse_Ok value id :
  entity_id_parse value = Ok id <->
  as_str id = value /\ exists v, (0 <= v < 2 ^ 128)%Z /\ id = entity_id_from_u128 v.
Proof.
  unfold entity_id_parse, entity_id_from_u128. split.
  - destruct (ulid_from_string value) as [v|] eqn:Hv; simpl; [|done].
    case_bool_decide as Heq; intros Hp; res_inv. split; [done|]. exists v.
    split; [by eapply ulid_from_range|]. by f_equal.
  - intros [<- (v & Hv & ->)]. simpl. rewrite ulid_from_to by done. simpl.
    by rewrite bool_decide_eq_true_2.
Qed.
End entity_id_properties.

(** ** The ULID text format

    Crockford's base 32: 26 digits, most significant first, letters in either
    case on input.  It instantiates [Ulid] in closed examples. *)

Definition crockford : rstr := str "0123456789ABCDEFGHJKMNPQRSTVWXYZ".

Fixpoint to_digits (k : nat) (v : Z) : list Z :=
  match k with
  | O => []
  | S k => to_digits k (v / 32) ++ [v mod 32]%Z
  end.

Definition of_digits (ds : list Z) : Z := fold_left (fun a d => 32 * a + d)%Z ds 0%Z.

Definition digit_char (d : Z) : Z := nth (Z.to_nat d) crockford 0%Z.

Definition to_upper (c : Z) : Z := if ((97 <=? c) && (c <=? 122))%Z then (c - 32)%Z else c.

Definition char_digit (c : Z) : option Z :=
  (fun p => Z.of_nat p.1) <$> list_find (fun d => d = to_upper c) crockford.

Definition crockford_to_string (v : Z) : rstr := digit_char <$> to_digits 26 v.

Definition crockford_from_string (s : rstr) : option Z :=
  if (length s =? 26)%nat
  then ds ← mapM char_digit s; Some (of_digits ds mod 2 ^ 128)%Z
  else None.

Lemma to_digits_length k v : length (to_digits k v) = k.
Proof. revert v. induction k as [|k IH]; intros v; simpl; [done|]. rewrite length_app, IH. simpl. lia. Qed.

Lemma to_digits_range k v : Forall (fun d => 0 <= d < 32)%Z (to_digits k v).
Proof.
  revert v. induction k as [|k IH]; intros v; simpl; [constructor|].
  apply Forall_app. split; [apply IH|]. constructor; [|constructor]. apply Z.mod_pos_bound. lia.
Qed.

Lemma of_to_digits k v : (0 <= v)%Z -> of_digits (to_digits k v) = (v mod 32 ^ Z.of_nat k)%Z.
Proof.
  revert v. induction k as [|k IH]; intros v Hv; [by rewrite Z.mod_1_r|].
  simpl to_digits. unfold of_digits. rewrite fold_left_app. fold (of_digits (to_digits k (v / 32))).
  rewrite IH by (apply Z.div_pos; lia). simpl fold_left.
  rewrite Nat2Z.inj_succ, Z.pow_succ_r by lia. rewrite Z.rem_mul_r by lia. lia.
Qed.

Lemma char_digit_char d : (0 <= d < 32)%Z -> char_digit (digit_char d) = Some d.
Proof.
  intros Hd. cut (Forall (fun n => char_digit (digit_char (Z.of_nat n)) = Some (Z.of_nat n)) (seq 0 32)).
  { rewrite Forall_forall. intros Hall. rewrite <- (Z2Nat.id d) by lia. apply Hall.
    apply elem_of_seq. lia. }
  repeat constructor.
Qed.

Lemma crockford_round_trip v :
  (0 <= v < 2 ^ 128)%Z -> crockford_from_string (crockford_to_string v) = Some v.
Proof.
  intros Hv. unfold crockford_from_string, crockford_to_string.
  rewrite length_fmap, to_digits_length. simpl (_ =? _)%nat. cbv iota.
  replace (mapM char_digit _) with (Some (to_digits 26 v)).
  - cbn [mbind option_bind]. rewrite of_to_digits by lia. f_equal.
    rewrite (Z.mod_small v); [by apply Z.mod_small|]. change (32 ^ Z.of_nat 26)%Z with (2 ^ 130)%Z. lia.
  - symmetry. apply mapM_Some. apply Forall2_fmap_l, Forall_Forall2_diag.
    eapply Forall_impl; [apply to_digits_range|]. intros d Hd. by apply char_digit_char.
Qed.

Definition crockford_ulid : Ulid.
Proof.
  refine {| ulid_to_string := crockford_to_string; ulid_from_string := crockford_from_string |}.
  - apply crockford_round_trip.
  - intros s v. unfold crockford_from_string. destruct (length s =? 26)%nat; [|done].
    destruct (mapM char_digit s); simpl; [|done]. intros [= <-]. by apply Z.mod_pos_bound.
Defined.

(** ** Claims *)

(** [EntityId::parse] accepts a string exactly when it is the rendering of a
    128-bit value, keeps the string as it is, and distinct values have distinct
    identifiers: an identifier is a faithful name of its value. *)
Theorem entity_id_faithful `{Ulid} (value : rstr) (id : EntityId) :
  (entity_id_parse value = Ok id <->
   as_str id = value /\ exists v, (0 <= v < 2 ^ 128)%Z /\ id = entity_id_from_u128 v)
  /\ (forall v w, (0 <= v < 2 ^ 128)%Z -> (0 <= w < 2 ^ 128)%Z ->
      entity_id_from_u128 v = entity_id_from_u128 w -> v = w).
Proof.
  split; [apply parse_Ok|]. intros v w Hv Hw [= Heq].
  apply ulid_from_to in Hv, Hw. congruence.
Qed.

Lemma entity_id_faithful_witness :
  entity_id_parse (H := crockford_ulid) (crockford_to_string 7) = Ok (MkEntityId (crockford_to_string 7)).
Proof.
  apply (proj2 (proj1 (@entity_id_faithful crockford_ulid (crockford_to_string 7) (MkEntityId (crockford_to_string 7))))).
  split; [reflexivity|]. exists 7%Z. split; [lia|reflexivity].
Defined.

(** [UtcTimestamp::from_system_time] is truncation towards the epoch to
    whole milliseconds, and fails exactly when the result is outside
    [-i64::MAX, i64::MAX]: [i64::MIN] milliseconds, which would fit, is refused
    too. *)
Theorem from_system_time_truncates (time : Z) :
  from_system_time time =
  let millis := Z.quot time 1000000 in
  if bool_decide (- i64_max <= millis <= i64_max)%Z then Ok (MkUtcTimestamp millis)
  else Err TimestampOutOfRange.
Proof.
  unfold from_system_time, i64_try_from, i64_checked_neg. simpl.
  destruct (Z.leb_spec 0 time).
  - rewrite Z.quot_div_nonneg by lia. pose proof (Z.div_pos time 1000000 ltac:(lia) ltac:(lia)).
    unfold i64_max, i64_min in *. case_bool_decide;
      destruct (Z.leb_spec (-9223372036854775808) (time / 1000000)),
               (Z.leb_spec (time / 1000000) 9223372036854775807); simpl; try done; lia.
  - assert (Z.quot time 1000000 = - (- time / 1000000))%Z as ->.
    { rewrite <- (Z.opp_involutive time) at 1. rewrite Z.quot_opp_l by lia.
      by rewrite Z.quot_div_nonneg by lia. }
    pose proof (Z.div_pos (- time) 1000000 ltac:(lia) ltac:(lia)).
    unfold i64_max, i64_min in *. case_bool_decide;
      destruct (Z.leb_spec (-9223372036854775808) (- time / 1000000)),
               (Z.leb_spec (- time / 1000000) 9223372036854775807); simpl; try done; try lia.
    destruct (Z.eqb_spec (- time / 1000000) (-9223372036854775808)); simpl; [lia|done].
Qed.
