(* ===== verification/Json.v ===== *)
(** * Canonical JSON: [canonical_json_bytes] and [sort_json_value] of
    [crates/agent-types/src/lib.rs]

    A [serde_json::Value] whose objects keep their keys in insertion order (the
    workspace builds [serde_json] with an index map), the recursive key sort, and
    the canonical encoding.  The byte serializer is a parameter, the class
    [SerdeJson]. *)

From Stdlib Require Import ZArith Lia String.
From stdpp Require Import base decidable countable sorting option list.
From S2P Require Import Prelude RustStd.

Inductive Number :=
| PosInt (n : Z)
| NegInt (n : Z)
| Float (bits : Z).

Inductive Value :=
| Null
| Bool (b : bool)
| Num (n : Number)
| Str (s : rstr)
| Array (values : list Value)
| Object (entries : list (rstr * Value)).

Definition key_cmp (l r : rstr * Value) : comparison := rcmp l.1 r.1.

(** [Map::insert]: replaces the value of a present key in place, appends a new one. *)
Fixpoint map_insert (key : rstr) (value : Value) (m : list (rstr * Value)) : list (rstr * Value) :=
  match m with
  | [] => [(key, value)]
  | (k, v) :: m =>
      if bool_decide (k = key) then (k, value) :: m else (k, v) :: map_insert key value m
  end.

Definition map_insert_all (entries : list (rstr * Value)) : list (rstr * Value) :=
  foldl (fun m p => map_insert p.1 p.2 m) [] entries.

(** [Map::get]. *)
Fixpoint map_get (key : rstr) (m : list (rstr * Value)) : option Value :=
  match m with
  | [] => None
  | (k, v) :: m => if bool_decide (k = key) then Some v else map_get key m
  end.

(** [Number::eq]: floating-point zeros of both signs are equal. *)
Definition number_eqb (m n : Number) : bool :=
  match m, n with
  | PosInt m, PosInt n | NegInt m, NegInt n => (m =? n)%Z
  | Float m, Float n => (m =? n)%Z || ((m mod 2 ^ 63 =? 0)%Z && (n mod 2 ^ 63 =? 0)%Z)
  | _, _ => false
  end.

(** [Value::eq]: objects are equal whatever the order of their keys. *)
Fixpoint value_eqb (v w : Value) : bool :=
  match v, w with
  | Null, Null => true
  | Bool b, Bool c => Bool.eqb b c
  | Num m, Num n => number_eqb m n
  | Str s, Str t => bool_decide (s = t)
  | Array vs, Array ws =>
      (fix all_eq (vs ws : list Value) :=
         match vs, ws with
         | [], [] => true
         | v :: vs, w :: ws => value_eqb v w && all_eq vs ws
         | _, _ => false
         end) vs ws
  | Object kvs, Object kws =>
      (length kvs =? length kws)%nat
      && forallb (fun p => match map_get p.1 kws with Some w => value_eqb p.2 w | None => false end) kvs
  | _, _ => false
  end.

(** The values of an object are sorted as its entries are collected; the source
    sorts each one right before it is inserted. *)
Fixpoint sort_json_value (value : Value) : Value :=
  match value with
  | Array values => Array (List.map sort_json_value values)
  | Object entries =>
      Object (map_insert_all
                (sort_by key_cmp
                   (List.map (fun p => (p.1, sort_json_value p.2)) entries)))
  | _ => value
  end.

Inductive JsonError := JsonErr.

(** Documents that [serde_json] reads back exactly as it wrote them: at most 127
    nested containers (the parser's recursion limit is 128) and no floating-point
    number (which is only read back exactly under the feature
    [float_roundtrip], which the workspace does not enable). *)
Fixpoint readable_at (value : Value) (depth : nat) : bool :=
  match value with
  | Num (Float _) => false
  | Array values =>
      match depth with
      | 0 => false
      | S depth => forallb (fun v => readable_at v depth) values
      end
  | Object entries =>
      match depth with
      | 0 => false
      | S depth => forallb (fun p => readable_at p.2 depth) entries
      end
  | _ => true
  end.

Definition readable (value : Value) : bool := readable_at value 127.

(** The [serde_json] byte encoder and decoder: decoding a canonical document
    gives back the value that was encoded. *)
Class SerdeJson : Type := {
  to_vec : Value -> result JsonError (list Z);
  from_slice : list Z -> result JsonError Value;
  from_to_canonical : forall v bytes,
    sort_json_value v = v -> readable v = true -> to_vec v = Ok bytes -> from_slice bytes = Ok v
}.

Definition canonical_json_bytes `{SerdeJson} (value : Value) : result JsonError (list Z) :=
  to_vec (sort_json_value value).

(** ** Well-formed documents and equality up to key order *)

(** Every object of a [serde_json::Value] has pairwise distinct keys. *)
Fixpoint distinct_keys (value : Value) : Prop :=
  match value with
  | Array values => foldr (fun v P => distinct_keys v /\ P) True values
  | Object entries =>
      NoDup entries.*1 /\ foldr (fun p P => distinct_keys p.2 /\ P) True entries
  | _ => True
  end.

(** Every object has its keys in strictly increasing order. *)
Fixpoint sorted_keys (value : Value) : Prop :=
  match value with
  | Array values => foldr (fun v P => sorted_keys v /\ P) True values
  | Object entries =>
      StronglySorted (fun k l => rcmp k l = Lt) entries.*1
      /\ foldr (fun p P => sorted_keys p.2 /\ P) True entries
  | _ => True
  end.

(** Equality up to the order of object keys. *)
Inductive json_equiv : Value -> Value -> Prop :=
| equiv_null : json_equiv Null Null
| equiv_bool b : json_equiv (Bool b) (Bool b)
| equiv_num n : json_equiv (Num n) (Num n)
| equiv_str s : json_equiv (Str s) (Str s)
| equiv_array vs ws : Forall2 json_equiv vs ws -> json_equiv (Array vs) (Array ws)
| equiv_object kvs kvs' kws :
    kvs ≡ₚ kvs' ->
    Forall2 (fun p q => p.1 = q.1 /\ json_equiv p.2 q.2) kvs' kws ->
    json_equiv (Object kvs) (Object kws).

(** ** Induction on documents *)

Lemma Value_ind' (P : Value -> Prop) :
  P Null -> (forall b, P (Bool b)) -> (forall n, P (Num n)) -> (forall s, P (Str s)) ->
  (forall vs, Forall P vs -> P (Array vs)) ->
  (forall kvs, Forall (fun p => P p.2) kvs -> P (Object kvs)) ->
  forall v, P v.
Proof.
  intros Hn Hb Hnum Hs Ha Ho. fix IH 1. intros [| | | |vs|kvs].
  - exact Hn.
  - apply Hb.
  - apply Hnum.
  - apply Hs.
  - apply Ha. induction vs as [|v vs IHvs]; constructor; [apply IH|apply IHvs].
  - apply Ho. induction kvs as [|[k v] kvs IHkvs]; constructor; [apply IH|apply IHkvs].
Qed.

Lemma foldr_and_Forall {A} (Q : A -> Prop) l : foldr (fun x P => Q x /\ P) True l <-> Forall Q l.
Proof.
  induction l as [|x l IH]; simpl; [by split|].
  by rewrite Forall_cons, IH.
Qed.

(** ** Sorting entries *)

Lemma key_cmp_total p q : key_cmp p q = Gt -> key_cmp q p <> Gt.
Proof. unfold key_cmp. rewrite (rcmp_opp p.1 q.1). by destruct (rcmp p.1 q.1). Qed.

Lemma key_cmp_trans p q r : key_cmp p q <> Gt -> key_cmp q r <> Gt -> key_cmp p r <> Gt.
Proof. unfold key_cmp. apply rle_trans. Qed.

Lemma sort_entries_sorted kvs :
  StronglySorted (fun p q => key_cmp p q <> Gt) (sort_by key_cmp kvs).
Proof. apply sort_by_sorted; [apply key_cmp_total|apply key_cmp_trans]. Qed.

(** Distinct keys make the result of the sort unique. *)
Lemma sort_entries_unique kvs kws :
  kvs ≡ₚ kws -> NoDup kvs.*1 -> sort_by key_cmp kvs = sort_by key_cmp kws.
Proof.
  intros Hp Hnd. eapply (StronglySorted_unique_strong (fun p q => key_cmp p q <> Gt)).
  - intros p q. rewrite !sort_by_perm, <- Hp. intros Hi Hj Hpq Hqp.
    assert (p.1 = q.1) as Hk by by apply rle_antisym.
    apply list_elem_of_lookup in Hi as [i Hi]. apply list_elem_of_lookup in Hj as [j Hj].
    assert (i = j) as ->.
    { eapply NoDup_lookup; [exact Hnd| |].
      - rewrite list_lookup_fmap, Hi. done.
      - rewrite list_lookup_fmap, Hj. simpl. by rewrite Hk. }
    congruence.
  - apply sort_entries_sorted.
  - apply sort_entries_sorted.
  - by rewrite !sort_by_perm.
Qed.

Lemma map_insert_fresh k v m : k ∉ m.*1 -> map_insert k v m = m ++ [(k, v)].
Proof.
  induction m as [|[k' v'] m IH]; simpl; [done|]. intros [Hne Hni]%not_elem_of_cons.
  case_bool_decide; [done|]. by rewrite IH.
Qed.

Lemma map_insert_all_nodup kvs : NoDup kvs.*1 -> map_insert_all kvs = kvs.
Proof.
  unfold map_insert_all.
  cut (forall acc, NoDup (acc ++ kvs).*1 ->
         foldl (fun m p => map_insert p.1 p.2 m) acc kvs = acc ++ kvs).
  { intros H ?. by rewrite (H []). }
  induction kvs as [|[k v] kvs IH]; intros acc Hnd; simpl; [by rewrite app_nil_r|].
  rewrite map_insert_fresh.
  - rewrite IH; [by rewrite <- app_assoc|]. by rewrite <- app_assoc.
  - rewrite fmap_app in Hnd. apply NoDup_app in Hnd as (_ & Hdis & _).
    intros Hin. apply (Hdis _ Hin). by left.
Qed.

Lemma keys_map_values (f : Value -> Value) (kvs : list (rstr * Value)) :
  (List.map (fun p => (p.1, f p.2)) kvs).*1 = kvs.*1 :> list rstr.
Proof. induction kvs as [|[k v] kvs IH]; csimpl; [done|]. f_equal. exact IH. Qed.

Lemma sort_object kvs :
  NoDup kvs.*1 ->
  sort_json_value (Object kvs) =
  Object (sort_by key_cmp (List.map (fun p => (p.1, sort_json_value p.2)) kvs)).
Proof.
  intros Hnd. simpl. rewrite map_insert_all_nodup; [done|].
  by rewrite sort_by_perm, keys_map_values.
Qed.

(** ** What the canonical form is *)

Lemma sorted_distinct_lt kvs :
  NoDup kvs.*1 -> StronglySorted (fun p q => key_cmp p q <> Gt) kvs ->
  StronglySorted (fun k l => rcmp k l = Lt) kvs.*1.
Proof.
  induction kvs as [|[k v] kvs IH]; csimpl; intros Hnd Hs; [constructor|].
  apply NoDup_cons in Hnd as [Hni Hnd]. apply StronglySorted_inv in Hs as [Hs Hk].
  constructor; [by apply IH|]. rewrite Forall_forall in Hk. rewrite Forall_forall.
  intros l ([l' w] & -> & Hin)%list_elem_of_fmap. simpl.
  destruct (proj1 (rle_lt_or_eq k l') (Hk _ Hin)) as [?| ->]; [done|].
  destruct Hni. apply list_elem_of_fmap. by exists (l', w).
Qed.

Lemma sort_json_sorted v : distinct_keys v -> sorted_keys (sort_json_value v).
Proof.
  induction v as [| | | |vs IH|kvs IH] using Value_ind'; try done.
  - simpl. rewrite !foldr_and_Forall, Forall_map. rewrite !Forall_forall in *. auto.
  - intros [Hnd Hwf]. rewrite sort_object by done. simpl. split.
    + apply sorted_distinct_lt; [|apply sort_entries_sorted].
      by rewrite sort_by_perm, keys_map_values.
    + rewrite foldr_and_Forall in Hwf. rewrite foldr_and_Forall, sort_by_perm, Forall_map. csimpl.
      rewrite !Forall_forall in *. auto.
Qed.

Lemma sort_by_sorted_id kvs :
  NoDup kvs.*1 -> StronglySorted (fun p q => key_cmp p q <> Gt) kvs -> sort_by key_cmp kvs = kvs.
Proof.
  intros Hnd Hs. induction kvs as [|p kvs IH]; [done|]. simpl.
  apply StronglySorted_inv in Hs as [Hs Hp]. apply NoDup_cons in Hnd as [_ Hnd].
  rewrite IH by done. destruct kvs as [|q kvs]; [done|]. simpl.
  apply Forall_inv in Hp. by destruct (key_cmp p q).
Qed.

Lemma lt_sorted_nodup (ks : list rstr) :
  StronglySorted (fun k l => rcmp k l = Lt) ks -> NoDup ks.
Proof.
  induction 1 as [|k ks Hs IH Hk]; constructor; [|done].
  intros Hin. rewrite Forall_forall in Hk. specialize (Hk _ Hin).
  by rewrite rcmp_refl in Hk.
Qed.

Lemma lt_sorted_le_sorted kvs :
  StronglySorted (fun k l => rcmp k l = Lt) kvs.*1 ->
  StronglySorted (fun p q => key_cmp p q <> Gt) kvs.
Proof.
  induction kvs as [|p kvs IH]; csimpl; intros Hs; [constructor|].
  apply StronglySorted_inv in Hs as [Hs Hp]. constructor; [by apply IH|].
  rewrite Forall_fmap in Hp. eapply Forall_impl; [exact Hp|]. unfold key_cmp. simpl. congruence.
Qed.

Lemma sort_json_fixpoint v : sorted_keys v -> sort_json_value v = v.
Proof.
  induction v as [| | | |vs IH|kvs IH] using Value_ind'; try done.
  - simpl. rewrite foldr_and_Forall. intros Hs. f_equal.
    rewrite <- (map_id vs) at 2. apply map_ext_in. intros v Hin%list_elem_of_In.
    rewrite Forall_forall in IH, Hs. auto.
  - intros [Hlt Hs]. rewrite foldr_and_Forall in Hs. rewrite sort_object by by apply lt_sorted_nodup.
    f_equal. replace (List.map _ kvs) with kvs.
    + apply sort_by_sorted_id; [by apply lt_sorted_nodup|by apply lt_sorted_le_sorted].
    + symmetry. rewrite <- (map_id kvs) at 2. apply map_ext_in.
      intros [k v] Hin%list_elem_of_In. rewrite Forall_forall in IH, Hs. simpl. f_equal.
      by apply (IH (k, v)), (Hs (k, v)).
Qed.

Lemma sorted_keys_distinct v : sorted_keys v -> distinct_keys v.
Proof.
  induction v as [| | | |vs IH|kvs IH] using Value_ind'; try done; simpl.
  - rewrite !foldr_and_Forall, !Forall_forall in *. auto.
  - intros [Hlt Hs]. split; [by apply lt_sorted_nodup|].
    rewrite foldr_and_Forall in Hs. rewrite foldr_and_Forall.
    rewrite Forall_forall in IH, Hs. rewrite Forall_forall. auto.
Qed.

Lemma sort_json_distinct v : distinct_keys v -> distinct_keys (sort_json_value v).
Proof. intros Hd. by apply sorted_keys_distinct, sort_json_sorted. Qed.

Lemma sort_json_idemp v : distinct_keys v -> sort_json_value (sort_json_value v) = sort_json_value v.
Proof. intros Hd. by apply sort_json_fixpoint, sort_json_sorted. Qed.

Lemma forallb_perm {A} (f : A -> bool) l k : l ≡ₚ k -> forallb f l = forallb f k.
Proof.
  induction 1; simpl; [done|by f_equal| |by etransitivity].
  by rewrite !andb_assoc, (andb_comm (f y)).
Qed.

Lemma sort_json_readable_at v n : distinct_keys v -> readable_at (sort_json_value v) n = readable_at v n.
Proof.
  revert n. induction v as [| |[]| |vs IH|kvs IH] using Value_ind'; intros [|m] Hd; try done.
  - simpl in *. rewrite foldr_and_Forall in Hd. clear -IH Hd.
    induction IH as [|v vs Hv _ IHvs]; inversion Hd; subst; simpl; [done|]. f_equal; auto.
  - destruct Hd as [Hnd Hd]. rewrite sort_object by done. simpl.
    rewrite (forallb_perm _ _ _ (sort_by_perm _ _)). rewrite foldr_and_Forall in Hd. clear -IH Hd.
    induction IH as [|v vs Hv _ IHvs]; inversion Hd; subst; simpl; [done|]. f_equal; auto.
Qed.

Lemma sort_json_readable v : distinct_keys v -> readable (sort_json_value v) = readable v.
Proof. apply sort_json_readable_at. Qed.

(** Sorting reorders keys and changes nothing else. *)
Lemma sort_json_equiv v : distinct_keys v -> json_equiv (sort_json_value v) v.
Proof.
  induction v as [| | | |vs IH|kvs IH] using Value_ind'; try (constructor; done).
  - simpl. rewrite foldr_and_Forall. intros Hd. constructor.
    induction vs as [|v vs IHvs]; [constructor|]. inversion IH; inversion Hd; subst.
    constructor; auto.
  - intros [Hnd Hd]. rewrite foldr_and_Forall in Hd. rewrite sort_object by done.
    econstructor; [apply sort_by_perm|]. clear Hnd.
    induction kvs as [|[k v] kvs IHk]; [constructor|]. inversion IH; inversion Hd; subst.
    constructor; [split; auto|auto].
Qed.

(** Documents that differ in key order have the same canonical form. *)
Lemma sort_json_complete v w :
  distinct_keys v -> json_equiv v w -> sort_json_value v = sort_json_value w.
Proof.
  revert w. induction v as [| | | |vs IH|kvs IH] using Value_ind'; intros w Hd Hw;
    inversion Hw as [| | | |? ws Hws|? kvs' kws Hp Hkws]; subst; try done.
  - simpl in *. rewrite foldr_and_Forall in Hd. f_equal. clear Hw.
    induction Hws as [|v w vs ws Hvw Hws IHws]; [done|]. inversion IH; inversion Hd; subst.
    simpl. f_equal; auto.
  - destruct Hd as [Hnd Hd]. rewrite foldr_and_Forall in Hd.
    assert (kvs'.*1 = kws.*1) as Hkeys.
    { clear -Hkws. induction Hkws as [|p q ps qs [Hpq _] _ IHp]; csimpl; [done|].
      by rewrite Hpq, IHp. }
    assert (NoDup kvs'.*1) as Hnd' by by rewrite <- Hp.
    rewrite sort_object, sort_object by (try done; by rewrite <- Hkeys). f_equal.
    transitivity (sort_by key_cmp (List.map (fun p => (p.1, sort_json_value p.2)) kvs')).
    { apply sort_entries_unique; [by rewrite Hp|by rewrite keys_map_values]. }
    f_equal. rewrite Hp in IH, Hd. clear -IH Hd Hkws.
    induction Hkws as [|[k v] [l w] ps qs [Hk Hvw] _ IHp]; simpl in *; [done|].
    inversion IH; inversion Hd; subst. simpl in *. subst. f_equal; [|auto]. f_equal. auto.
Qed.

(** ** An encoder for closed examples

    Documents are countable through generic trees; the encoder below writes the
    code of a document as a single token. *)

Definition Number_code (n : Number) : nat * Z :=
  match n with PosInt z => (0, z) | NegInt z => (1, z) | Float z => (2, z) end.
Definition Number_decode (c : nat * Z) : Number :=
  match c with (0, z) => PosInt z | (1, z) => NegInt z | (_, z) => Float z end.

#[export] Instance Number_eq_dec : EqDecision Number.
Proof. solve_decision. Defined.
#[export] Instance Number_countable : Countable Number.
Proof. apply (inj_countable' Number_code Number_decode). by intros []. Defined.

Abbreviation json_leaf := (bool + (Number + rstr))%type.

Fixpoint Value_tree (v : Value) : gen_tree json_leaf :=
  match v with
  | Null => GenNode 0 []
  | Bool b => GenLeaf (inl b)
  | Num n => GenLeaf (inr (inl n))
  | Str s => GenLeaf (inr (inr s))
  | Array vs => GenNode 1 (List.map Value_tree vs)
  | Object kvs =>
      GenNode 2 (List.map (fun p => GenNode 3 [GenLeaf (inr (inr p.1)); Value_tree p.2]) kvs)
  end.

Fixpoint Value_of_tree (t : gen_tree json_leaf) : Value :=
  match t with
  | GenLeaf (inl b) => Bool b
  | GenLeaf (inr (inl n)) => Num n
  | GenLeaf (inr (inr s)) => Str s
  | GenNode 1 ts => Array (List.map Value_of_tree ts)
  | GenNode 2 ts =>
      Object (List.map (fun t =>
        match t with
        | GenNode _ [GenLeaf (inr (inr k)); t'] => (k, Value_of_tree t')
        | _ => ([], Null)
        end) ts)
  | _ => Null
  end.

Lemma Value_of_to_tree v : Value_of_tree (Value_tree v) = v.
Proof.
  induction v as [| | | |vs IH|kvs IH] using Value_ind'; simpl; try done; f_equal.
  - induction IH as [|v vs Hv _ IHvs]; simpl; [done|]. by rewrite Hv, IHvs.
  - induction IH as [|[k v] kvs Hv _ IHk]; simpl in *; [done|]. by rewrite Hv, IHk.
Qed.

#[export] Instance Value_eq_dec : EqDecision Value.
Proof. refine (inj_eq_dec Value_tree). intros v w Heq.
  rewrite <- (Value_of_to_tree v), <- (Value_of_to_tree w). by rewrite Heq.
Defined.
#[export] Instance Value_countable : Countable Value.
Proof. apply (inj_countable' Value_tree Value_of_tree). apply Value_of_to_tree. Defined.

Definition token_to_vec (v : Value) : result JsonError (list Z) := Ok [Zpos (encode v)].
Definition token_from_slice (bytes : list Z) : result JsonError Value :=
  match bytes with
  | [Zpos p] => ok_or (decode p) JsonErr
  | _ => Err JsonErr
  end.

Program Definition token_json : SerdeJson :=
  {| to_vec := token_to_vec; from_slice := token_from_slice |}.
Next Obligation.
  intros v bytes _ _ [= <-]. simpl. by rewrite decode_encode.
Qed.

(** Numbers and strings of the concrete codecs. *)
Abbreviation jnum z := (Num (PosInt z)).
Definition dec_str (v : Value) : rstr := match v with Str s => s | _ => [] end.
Definition dec_num (v : Value) : Z := match v with Num (PosInt z) => z | _ => 0%Z end.

Definition sample_document : Value :=
  Object [(str "z", Num (PosInt 1));
          (str "a", Object [(str "d", Num (PosInt 4)); (str "b", Num (PosInt 2))])].

Definition sample_reordered : Value :=
  Object [(str "a", Object [(str "b", Num (PosInt 2)); (str "d", Num (PosInt 4))]);
          (str "z", Num (PosInt 1))].

Lemma sample_distinct : distinct_keys sample_document.
Proof. repeat split; apply (bool_decide_eq_true_1 (NoDup _)); vm_compute; reflexivity. Qed.

Lemma sample_equiv : json_equiv sample_document sample_reordered.
Proof.
  eapply equiv_object; [apply Permutation_swap|].
  constructor; [split; [done|]|repeat constructor].
  eapply equiv_object; [apply Permutation_swap|]. repeat constructor.
Qed.

(** Canonical JSON does not depend on the order in which the keys of an
    object, at any depth, were inserted: documents equal up to key order have
    the same canonical bytes. *)
Theorem canonical_json_key_order `{SerdeJson} v w :
  distinct_keys v -> json_equiv v w -> canonical_json_bytes v = canonical_json_bytes w.
Proof. intros Hd Hw. unfold canonical_json_bytes. by rewrite (sort_json_complete v w). Qed.

Lemma canonical_json_key_order_witness :
  @canonical_json_bytes token_json sample_document = @canonical_json_bytes token_json sample_reordered.
Proof.
  apply (@canonical_json_key_order token_json); [apply sample_distinct|apply sample_equiv].
Defined.

(** C39: decoding the canonical bytes of a document within the parser's limits
    gives a document whose keys are strictly sorted at every level and that equals the encoded one up to key order; no
    key and no value is lost or changed. *)
Theorem canonical_json_round_trip `{SerdeJson} v bytes :
  distinct_keys v -> readable v = true -> canonical_json_bytes v = Ok bytes ->
  exists v', from_slice bytes = Ok v' /\ sorted_keys v' /\ json_equiv v' v.
Proof.
  intros Hd Hread Hb. exists (sort_json_value v). split; [|split].
  - apply from_to_canonical; [by apply sort_json_idemp|by rewrite sort_json_readable|done].
  - by apply sort_json_sorted.
  - by apply sort_json_equiv.
Qed.

Lemma canonical_json_round_trip_witness :
  exists v', @from_slice token_json [Zpos (encode (sort_json_value sample_document))] = Ok v'
             /\ sorted_keys v' /\ json_equiv v' sample_document.
Proof.
  apply (@canonical_json_round_trip token_json); [apply sample_distinct|reflexivity..].
Defined.
