(* ===== verification/Framing.v ===== *)
(** * Length-delimited framing: [crates/framing/src/lib.rs]

    The codec that carries every daemon, worker and client message.  A reader is
    the sequence of outcomes its successive [read] calls can have: chunks of
    bytes of any size and I/O failures; [read_exact] is the standard library's
    loop over [read], which retries interrupted reads.  A writer is any type with
    the [Write] operations. *)

From Stdlib Require Import ZArith Lia.
From stdpp Require Import base decidable option list.
From S2P Require Import Prelude RustStd.

(** ** I/O *)

Inductive ErrorKind := UnexpectedEof | Interrupted | OtherKind (code : nat).

#[export] Instance ErrorKind_eq_dec : EqDecision ErrorKind.
Proof. solve_decision. Defined.

Inductive read_event :=
| Chunk (bytes : list Z)
| Fail (kind : ErrorKind).

Abbreviation reader := (list read_event).

(** [Read::read] into a buffer of [n] bytes; [Ok []] is the end of the stream. *)
Definition read (n : nat) (r : reader) : result ErrorKind (list Z) * reader :=
  match r with
  | [] => (Ok [], [])
  | Fail k :: r => (Err k, r)
  | Chunk bytes :: r =>
      if (n <? length bytes)%nat then (Ok (take n bytes), Chunk (drop n bytes) :: r)
      else (Ok bytes, r)
  end.

(** [Read::read_exact]. *)
Fixpoint read_exact (n : nat) (r : reader) : result ErrorKind (list Z) * reader :=
  match n with
  | O => (Ok [], r)
  | _ =>
      match r with
      | [] => (Err UnexpectedEof, [])
      | Fail k :: r => if bool_decide (k = Interrupted) then read_exact n r else (Err k, r)
      | Chunk bytes :: r =>
          if (length bytes =? 0)%nat then (Err UnexpectedEof, r)
          else if (n <? length bytes)%nat then (Ok (take n bytes), Chunk (drop n bytes) :: r)
          else match read_exact (n - length bytes) r with
               | (Ok more, r') => (Ok (bytes ++ more), r')
               | (Err k, r') => (Err k, r')
               end
      end
  end.

Class Write (W : Type) : Type := {
  write_all : W -> list Z -> result ErrorKind unit * W;
  flush : W -> result ErrorKind unit * W
}.

(** [impl Write for Vec<u8>]. *)
#[export] Instance vec_write : Write (list Z) := {|
  write_all w bytes := (Ok tt, w ++ bytes);
  flush w := (Ok tt, w)
|}.

(** [u32::to_be_bytes] and [u32::from_be_bytes]. *)
Definition to_be_bytes (z : Z) : list Z :=
  [Z.land (Z.shiftr z 24) 255; Z.land (Z.shiftr z 16) 255;
   Z.land (Z.shiftr z 8) 255; Z.land z 255].

Definition from_be_bytes (bytes : list Z) : Z :=
  foldl (fun acc b => Z.lor (Z.shiftl acc 8) b) 0%Z bytes.

Definition usize_max : Z := u64_max.
Definition usize_try_from (z : Z) : option Z :=
  if (z <=? usize_max)%Z then Some z else None.

(** ** The codec *)

Record LengthDelimitedCodec := MkCodec { max_frame_bytes : Z }.

Definition DEFAULT_MAX_FRAME_BYTES : Z := 16 * 1024 * 1024.

Inductive FrameContext := FrameHeader | FramePayload.

Inductive FrameError :=
| FrameIo (kind : ErrorKind)
| FrameTooLarge (length limit : Z)
| FrameInvalidLimit (limit : Z)
| FrameUnsupportedPlatformLength (length : Z)
| FrameTruncated (context : FrameContext) (source : ErrorKind).

#[export] Instance FrameContext_eq_dec : EqDecision FrameContext.
Proof. solve_decision. Defined.
#[export] Instance FrameError_eq_dec : EqDecision FrameError.
Proof. solve_decision. Defined.

Definition codec_new (max_frame_bytes : Z) : result FrameError LengthDelimitedCodec :=
  if ((max_frame_bytes =? 0)%Z || bool_decide (u32_try_from max_frame_bytes = None))%bool
  then Err (FrameInvalidLimit max_frame_bytes)
  else Ok (MkCodec max_frame_bytes).

Definition codec_default : LengthDelimitedCodec := MkCodec DEFAULT_MAX_FRAME_BYTES.

Definition truncated (error : ErrorKind) (context : FrameContext) : FrameError :=
  if bool_decide (error = UnexpectedEof) then FrameTruncated context error else FrameIo error.

Definition write_frame {W} `{Write W} (self : LengthDelimitedCodec) (writer : W) (payload : list Z)
  : result FrameError unit * W :=
  let len := Z.of_nat (length payload) in
  if (max_frame_bytes self <? len)%Z
  then (Err (FrameTooLarge len (max_frame_bytes self)), writer)
  else match u32_try_from len with
       | None => (Err (FrameTooLarge len (max_frame_bytes self)), writer)
       | Some length =>
           match write_all writer (to_be_bytes length) with
           | (Err k, writer) => (Err (FrameIo k), writer)
           | (Ok _, writer) =>
               match write_all writer payload with
               | (Err k, writer) => (Err (FrameIo k), writer)
               | (Ok _, writer) =>
                   match flush writer with
                   | (Err k, writer) => (Err (FrameIo k), writer)
                   | (Ok _, writer) => (Ok tt, writer)
                   end
               end
           end
       end.

Definition read_payload (self : LengthDelimitedCodec) (header : list Z) (r : reader)
  : result FrameError (option (list Z)) * reader :=
  let wire_length := from_be_bytes header in
  match usize_try_from wire_length with
  | None => (Err (FrameUnsupportedPlatformLength wire_length), r)
  | Some length =>
      if (max_frame_bytes self <? length)%Z
      then (Err (FrameTooLarge length (max_frame_bytes self)), r)
      else match read_exact (Z.to_nat length) r with
           | (Err k, r) => (Err (truncated k FramePayload), r)
           | (Ok payload, r) => (Ok (Some payload), r)
           end
  end.

(** The [unreachable!] arm of the source is the case of a one-byte read that
    returns more than one byte, which [read] never does. *)
Definition read_frame (self : LengthDelimitedCodec) (r : reader)
  : result FrameError (option (list Z)) * reader :=
  match read 1 r with
  | (Err k, r) => (Err (FrameIo k), r)
  | (Ok [], r) => (Ok None, r)
  | (Ok (first :: _), r) =>
      match read_exact 3 r with
      | (Err k, r) => (Err (truncated k FrameHeader), r)
      | (Ok rest, r) => read_payload self (first :: rest) r
      end
  end.

(** ** Specification vocabulary *)

Definition is_byte (b : Z) : Prop := (0 <= b < 256)%Z.

(** The bytes a reader will still deliver. *)
Definition data (r : reader) : list Z :=
  mjoin ((fun e => match e with Chunk bytes => bytes | Fail _ => [] end) <$> r).

(** A live reader delivers non-empty chunks, possibly with interruptions. *)
Definition live_event (e : read_event) : Prop :=
  match e with Chunk bytes => bytes <> [] | Fail k => k = Interrupted end.
Definition live (r : reader) : Prop := Forall live_event r.

(** The same, with no interruption. *)
Definition chunk_event (e : read_event) : Prop :=
  match e with Chunk bytes => bytes <> [] | Fail _ => False end.
Definition chunked (r : reader) : Prop := Forall chunk_event r.

(** The wire image of one frame. *)
Definition frame (payload : list Z) : list Z :=
  to_be_bytes (Z.of_nat (length payload)) ++ payload.

(** Writing a list of payloads, and reading [n] frames. *)
Fixpoint write_frames {W} `{Write W} (c : LengthDelimitedCodec) (w : W) (ps : list (list Z))
  : result FrameError unit * W :=
  match ps with
  | [] => (Ok tt, w)
  | p :: ps => match write_frame c w p with
               | (Ok _, w) => write_frames c w ps
               | (Err e, w) => (Err e, w)
               end
  end.

Fixpoint read_frames (n : nat) (c : LengthDelimitedCodec) (r : reader)
  : list (result FrameError (option (list Z))) * reader :=
  match n with
  | O => ([], r)
  | S n => let (x, r) := read_frame c r in
           let (xs, r) := read_frames n c r in (x :: xs, r)
  end.

(** ** Lemmas *)

Lemma data_chunk bytes r : data (Chunk bytes :: r) = bytes ++ data r.
Proof. done. Qed.

Lemma data_fail k r : data (Fail k :: r) = data r.
Proof. done. Qed.

Lemma live_app_chunk n bytes r :
  live r -> (n < length bytes)%nat -> live (Chunk (drop n bytes) :: r).
Proof.
  intros Hr Hn. constructor; [|done]. simpl. intros Hd%(f_equal length).
  rewrite length_drop in Hd. simpl in Hd. lia.
Qed.

Lemma read_exact_live n r :
  live r -> (n <= length (data r))%nat ->
  exists r', read_exact n r = (Ok (take n (data r)), r') /\ live r' /\ data r' = drop n (data r).
Proof.
  revert n. induction r as [|[bytes|k] r IH]; intros n Hr Hn.
  - simpl in Hn. assert (n = 0)%nat as -> by lia. by exists [].
  - apply Forall_cons in Hr as [Hb Hr]. simpl in Hb.
    destruct n as [|n]; [by exists (Chunk bytes :: r); repeat constructor|].
    rewrite data_chunk in Hn |- *. cbn [read_exact].
    destruct (Nat.eqb_spec (length bytes) 0) as [Hz|_]; [by destruct bytes|].
    destruct (Nat.ltb_spec (S n) (length bytes)) as [Hlt|Hge].
    + exists (Chunk (drop (S n) bytes) :: r). rewrite data_chunk, take_app_le, drop_app_le by lia.
      split; [done|]. split; [by apply live_app_chunk|done].
    + rewrite length_app in Hn. destruct (IH (S n - length bytes)%nat) as (r' & -> & Hr' & Hd); [done|lia|].
      exists r'. rewrite take_app_ge, drop_app_ge by lia. done.
  - apply Forall_cons in Hr as [Hk Hr]. simpl in Hk. subst k.
    rewrite data_fail in Hn |- *. destruct n as [|n].
    + exists (Fail Interrupted :: r). split; [done|]. split; [by constructor|done].
    + cbn [read_exact]. rewrite bool_decide_eq_true_2 by done. by apply IH.
Qed.

Lemma read_exact_short n r :
  live r -> (length (data r) < n)%nat -> exists r', read_exact n r = (Err UnexpectedEof, r').
Proof.
  revert n. induction r as [|[bytes|k] r IH]; intros [|n] Hr Hn; try (simpl in Hn; lia).
  - by exists [].
  - apply Forall_cons in Hr as [Hb Hr]. simpl in Hb. rewrite data_chunk, length_app in Hn.
    cbn [read_exact]. destruct (Nat.eqb_spec (length bytes) 0) as [Hz|_]; [by destruct bytes|].
    destruct (Nat.ltb_spec (S n) (length bytes)) as [Hlt|Hge]; [lia|].
    destruct (IH (S n - length bytes)%nat) as [r' ->]; [done|lia|]. by exists r'.
  - apply Forall_cons in Hr as [Hk Hr]. simpl in Hk. subst k. cbn [read_exact].
    rewrite bool_decide_eq_true_2 by done. by apply IH.
Qed.

Lemma read_exact_length n r bytes r' : read_exact n r = (Ok bytes, r') -> length bytes = n.
Proof.
  revert n bytes r'. induction r as [|[bs|k] r IH]; intros [|n] bytes r' Hr; cbn [read_exact] in Hr;
    simplify_eq/=; try done.
  - destruct (Nat.eqb_spec (length bs) 0); [done|].
    destruct (Nat.ltb_spec (S n) (length bs)); simplify_eq/=; [rewrite length_take; lia|].
    destruct (read_exact (S n - length bs) r) as [[more|] r''] eqn:E; simplify_eq/=.
    apply IH in E. rewrite length_app. lia.
  - case_bool_decide; [by eapply IH|done].
Qed.

Lemma lor_shift_byte a b : is_byte b -> Z.lor (Z.shiftl a 8) b = (a * 256 + b)%Z.
Proof.
  intros Hb. rewrite Z.shiftl_mul_pow2 by lia. change (2 ^ 8)%Z with 256%Z.
  assert (Z.land (a * 256) b = 0)%Z as Hland.
  { change 256%Z with (2 ^ 8)%Z. rewrite <- Z.shiftl_mul_pow2 by lia.
    apply Z.bits_inj'. intros n Hn. rewrite Z.land_spec, Z.bits_0.
    destruct (Z.ltb_spec n 8).
    - by rewrite Z.shiftl_spec_low.
    - apply andb_false_iff. right. apply Z.testbit_false; [done|].
      rewrite Z.div_small; [done|]. unfold is_byte in Hb.
      pose proof (Z.pow_le_mono_r 2 8 n). lia. }
  rewrite <- Z.add_lor_land, Hland. lia.
Qed.

Lemma land_255_mod z : Z.land z 255 = (z mod 256)%Z.
Proof. change 255%Z with (Z.ones 8). by rewrite Z.land_ones. Qed.

Lemma be_bytes_round_trip z : (0 <= z <= u32_max)%Z -> from_be_bytes (to_be_bytes z) = z.
Proof.
  intros Hz. unfold from_be_bytes, to_be_bytes. cbn [foldl].
  rewrite !land_255_mod, !lor_shift_byte by (apply Z.mod_pos_bound; lia).
  rewrite !Z.shiftr_div_pow2 by lia. unfold u32_max in Hz.
  change (2 ^ 8)%Z with 256%Z. change (2 ^ 16)%Z with (256 * 256)%Z.
  change (2 ^ 24)%Z with (256 * 256 * 256)%Z.
  rewrite <- !Z.div_div by lia.
  pose proof (Z.div_mod z 256). pose proof (Z.div_mod (z / 256) 256).
  pose proof (Z.div_mod (z / 256 / 256) 256).
  assert (z / 256 / 256 / 256 < 256)%Z.
  { rewrite !Z.div_div by lia. apply Z.div_lt_upper_bound; lia. }
  assert (0 <= z / 256 / 256 / 256)%Z by (repeat apply Z.div_pos; lia).
  rewrite (Z.mod_small (z / 256 / 256 / 256) 256) by lia. lia.
Qed.

Lemma length_to_be_bytes z : length (to_be_bytes z) = 4%nat.
Proof. done. Qed.

Lemma write_frame_vec c w payload :
  (Z.of_nat (length payload) <= max_frame_bytes c <= u32_max)%Z ->
  write_frame c w payload = (Ok tt, w ++ frame payload).
Proof.
  intros Hlen. unfold write_frame. cbn zeta.
  destruct (Z.ltb_spec (max_frame_bytes c) (Z.of_nat (length payload))); [lia|].
  unfold u32_try_from. destruct (Z.leb_spec 0 (Z.of_nat (length payload))); [|lia].
  destruct (Z.leb_spec (Z.of_nat (length payload)) u32_max); [|lia]. simpl.
  unfold frame. by rewrite app_assoc.
Qed.

Lemma usize_try_from_u32 z : (z <= u32_max)%Z -> usize_try_from z = Some z.
Proof.
  intros Hz. unfold usize_try_from, usize_max, u64_max. unfold u32_max in Hz.
  destruct (Z.leb_spec z 18446744073709551615); [done|lia].
Qed.

Lemma read_one_live r b d :
  live r -> (forall k r', r <> Fail k :: r') -> data r = b :: d ->
  exists r', read 1 r = (Ok [b], r') /\ live r' /\ data r' = d.
Proof.
  intros Hr Hfst Hd. destruct r as [|[bytes|k] r]; [done| |by destruct (Hfst k r)].
  apply Forall_cons in Hr as [Hb Hr]. simpl in Hb. rewrite data_chunk in Hd. cbn [read].
  destruct bytes as [|b' bytes]; [done|]. simpl in Hd. injection Hd as -> Hd.
  destruct (Nat.ltb_spec 1 (length (b :: bytes))) as [Hlt|Hge].
  - exists (Chunk bytes :: r). split; [simpl; by rewrite take_0, drop_0|].
    split; [by apply (live_app_chunk 1 (b :: bytes))|done].
  - exists r. destruct bytes; [done|simpl in Hge; lia].
Qed.

(** The header of a frame as its first byte and the other three. *)
Lemma frame_cons payload :
  exists b0 t, frame payload = b0 :: t ++ payload /\ length t = 3%nat
               /\ b0 :: t = to_be_bytes (Z.of_nat (length payload)).
Proof. unfold frame, to_be_bytes. do 2 eexists. by split. Qed.

(** A reader whose first outcome is a chunk delivers a whole frame. *)
Lemma read_frame_live c r payload rest :
  (Z.of_nat (length payload) <= max_frame_bytes c <= u32_max)%Z ->
  live r -> (forall k r', r <> Fail k :: r') -> data r = frame payload ++ rest ->
  exists r', read_frame c r = (Ok (Some payload), r') /\ live r' /\ data r' = rest.
Proof.
  intros Hlen Hr Hfst Hd. destruct (frame_cons payload) as (b0 & t & Hf & Ht & Hh).
  rewrite Hf in Hd. simpl in Hd. rewrite <- app_assoc in Hd.
  destruct (read_one_live r b0 (t ++ payload ++ rest)) as (r1 & Hread & Hr1 & Hd1); try done.
  unfold read_frame. rewrite Hread.
  destruct (read_exact_live 3 r1) as (r2 & -> & Hr2 & Hd2); [done| |].
  { rewrite Hd1, length_app. lia. }
  rewrite Hd1, drop_app_length' in Hd2 by done. rewrite Hd1, take_app_length' by done.
  unfold read_payload. rewrite Hh, be_bytes_round_trip by lia. cbn zeta.
  rewrite usize_try_from_u32 by lia.
  destruct (Z.ltb_spec (max_frame_bytes c) (Z.of_nat (length payload))); [lia|].
  rewrite Nat2Z.id.
  destruct (read_exact_live (length payload) r2) as (r3 & -> & Hr3 & Hd3); [done| |].
  { rewrite Hd2, length_app. lia. }
  rewrite Hd2, drop_app_length in Hd3. rewrite Hd2, take_app_length. by exists r3.
Qed.

(** A reader that ends inside a frame is reported as truncated. *)
Lemma read_frame_cut c r payload cut :
  (Z.of_nat (length payload) <= max_frame_bytes c <= u32_max)%Z ->
  live r -> (forall k r', r <> Fail k :: r') ->
  (0 < cut < length (frame payload))%nat -> data r = take cut (frame payload) ->
  fst (read_frame c r) =
  Err (FrameTruncated (if (cut <? 4)%nat then FrameHeader else FramePayload) UnexpectedEof).
Proof.
  intros Hlen Hr Hfst Hcut Hd. destruct (frame_cons payload) as (b0 & t & Hf & Ht & Hh).
  rewrite Hf in Hd, Hcut. simpl in Hcut. rewrite length_app in Hcut.
  destruct cut as [|cut]; [lia|]. simpl in Hd.
  destruct (read_one_live r b0 (take cut (t ++ payload))) as (r1 & Hread & Hr1 & Hd1); try done.
  unfold read_frame. rewrite Hread. destruct (Nat.ltb_spec (S cut) 4) as [Hlt|Hge].
  - destruct (read_exact_short 3 r1) as [r2 ->]; [done| |done].
    rewrite Hd1, length_take, length_app. lia.
  - destruct (read_exact_live 3 r1) as (r2 & -> & Hr2 & Hd2); [done| |].
    { rewrite Hd1, length_take, length_app. lia. }
    rewrite Hd1 in Hd2. rewrite Hd1.
    rewrite take_take, Nat.min_l, take_app_length' by lia.
    unfold read_payload. rewrite Hh, be_bytes_round_trip by lia. cbn zeta.
    rewrite usize_try_from_u32 by lia.
    destruct (Z.ltb_spec (max_frame_bytes c) (Z.of_nat (length payload))); [lia|].
    rewrite Nat2Z.id. destruct (read_exact_short (length payload) r2) as [r3 ->]; [done| |done].
    rewrite Hd2, length_drop, length_take, length_app. lia.
Qed.

Definition no_fail (r : reader) : Prop := Forall (fun e => exists bytes, e = Chunk bytes) r.

Lemma read_no_fail n r x r' : no_fail r -> read n r = (x, r') -> no_fail r'.
Proof.
  intros Hr. destruct r as [|[bytes|k] r]; simpl; [by intros [= <- <-]| |].
  - apply Forall_cons in Hr as [_ Hr]. case_match; intros [= <- <-]; [|done].
    constructor; eauto.
  - apply Forall_cons in Hr as [[? ?] _]. done.
Qed.

Lemma read_exact_no_fail n r x r' : no_fail r -> read_exact n r = (x, r') -> no_fail r'.
Proof.
  revert n x r'. induction r as [|[bytes|k] r IH]; intros [|n] x r' Hr Hread; cbn [read_exact] in Hread;
    simplify_eq; try done; apply Forall_cons in Hr as [He Hr].
  - repeat case_match; simplify_eq; try done; [by constructor; eauto|by eapply IH|by eapply IH].
  - by destruct He.
Qed.

Lemma read_frame_no_fail c r x r' : no_fail r -> read_frame c r = (x, r') -> no_fail r'.
Proof.
  unfold read_frame, read_payload. intros Hr Hread.
  destruct (read 1 r) as [[[|b bs]|] r1] eqn:E1; simplify_eq; try by eapply read_no_fail.
  destruct (read_exact 3 r1) as [[rest|] r2] eqn:E2; simplify_eq;
    try by eapply read_exact_no_fail; [eapply read_no_fail|].
  assert (no_fail r2) by by eapply read_exact_no_fail; [eapply read_no_fail|].
  repeat case_match; simplify_eq; try done; by eapply read_exact_no_fail.
Qed.

Lemma chunked_live r : chunked r <-> live r /\ no_fail r.
Proof.
  unfold chunked, live, no_fail. rewrite <- Forall_and. apply Forall_iff.
  intros [bytes|k]; simpl; naive_solver.
Qed.

Lemma chunked_head r k r' : chunked r -> r <> Fail k :: r'.
Proof. intros Hr ->. by apply Forall_cons in Hr as [? _]. Qed.

Lemma read_frame_chunked c r payload rest :
  (Z.of_nat (length payload) <= max_frame_bytes c <= u32_max)%Z ->
  chunked r -> data r = frame payload ++ rest ->
  exists r', read_frame c r = (Ok (Some payload), r') /\ chunked r' /\ data r' = rest.
Proof.
  intros Hlen Hr Hd.
  destruct (read_frame_live c r payload rest) as (r' & Hread & Hlive & Hrest); try done.
  - by apply chunked_live.
  - intros k r'. by apply chunked_head.
  - exists r'. split; [done|]. split; [|done]. apply chunked_live. split; [done|].
    eapply read_frame_no_fail; [|exact Hread]. by apply chunked_live.
Qed.

Lemma chunked_empty r : chunked r -> data r = [] -> r = [].
Proof.
  intros Hr Hd. destruct r as [|[bytes|k] r]; [done| |].
  - apply Forall_cons in Hr as [Hb _]. simpl in Hb.
    rewrite data_chunk in Hd. by apply app_nil in Hd as [-> _].
  - by apply Forall_cons in Hr as [? _].
Qed.

Lemma read_frames_chunked c payloads r :
  Forall (fun p => (Z.of_nat (length p) <= max_frame_bytes c <= u32_max)%Z) payloads ->
  chunked r -> data r = mjoin (frame <$> payloads) ->
  read_frames (S (length payloads)) c r = (((fun p => Ok (Some p)) <$> payloads) ++ [Ok None], []).
Proof.
  intros Hps. revert r. induction Hps as [|p ps Hp Hps IH]; intros r Hr Hd.
  - apply chunked_empty in Hd as ->; done.
  - csimpl in Hd. destruct (read_frame_chunked c r p (mjoin (frame <$> ps))) as (r' & Hread & Hr' & Hd'); try done.
    change (length (p :: ps)) with (S (length ps)).
    change (read_frames (S (S (length ps))) c r) with
      (let (x, r0) := read_frame c r in let (xs, r1) := read_frames (S (length ps)) c r0 in (x :: xs, r1)).
    rewrite Hread, (IH r') by done. done.
Qed.

Lemma write_frames_vec c w payloads :
  Forall (fun p => (Z.of_nat (length p) <= max_frame_bytes c <= u32_max)%Z) payloads ->
  write_frames c w payloads = (Ok tt, w ++ mjoin (frame <$> payloads)).
Proof.
  intros Hps. revert w. induction Hps as [|p ps Hp Hps IH]; intros w; [by rewrite app_nil_r|].
  cbn [write_frames]. rewrite write_frame_vec by done. rewrite IH, <- app_assoc. done.
Qed.

Lemma codec_new_Ok m c : codec_new m = Ok c -> c = MkCodec m /\ (0 < m <= u32_max)%Z.
Proof.
  unfold codec_new, u32_try_from. intros Hc. res_inv. bool_inv.
  destruct (Z.leb_spec 0 m), (Z.leb_spec m u32_max); simpl in *; try done.
  split; [done|lia].
Qed.

(** ** Properties *)

(** C38: frames written one after the other are read back as the same payloads in
    order, then as a clean end of stream, however the transport cuts the bytes
    into chunks. *)
Theorem frame_stream_round_trip limit c payloads r :
  codec_new limit = Ok c ->
  Forall (fun p => Z.of_nat (length p) <= limit)%Z payloads ->
  chunked r -> data r = snd (write_frames c [] payloads) ->
  fst (write_frames c [] payloads) = Ok tt /\
  read_frames (S (length payloads)) c r = (((fun p => Ok (Some p)) <$> payloads) ++ [Ok None], []).
Proof.
  intros [-> Hl]%codec_new_Ok Hps Hr Hd.
  assert (Forall (fun p => (Z.of_nat (length p) <= max_frame_bytes (MkCodec limit) <= u32_max)%Z) payloads).
  { eapply Forall_impl; [exact Hps|]. intros p Hp. simpl in *. lia. }
  rewrite write_frames_vec in Hd |- * by done. split; [done|]. by apply read_frames_chunked.
Qed.

Definition sample_chunks : reader :=
  [Chunk [0]; Chunk [0; 0; 2; 7]; Chunk [8; 0; 0]; Chunk [0; 0]]%Z.

Lemma frame_stream_round_trip_witness :
  fst (write_frames (MkCodec 4) [] [[7; 8]; []]%Z) = Ok tt /\
  read_frames 3 (MkCodec 4) sample_chunks = ([Ok (Some [7; 8]%Z); Ok (Some []); Ok None], []).
Proof.
  apply (frame_stream_round_trip 4 (MkCodec 4) [[7; 8]; []]%Z sample_chunks).
  - reflexivity.
  - repeat constructor; simpl; lia.
  - repeat constructor; discriminate.
  - reflexivity.
Defined.

(** A stream that ends inside a frame is reported as truncated, in the header
    or in the payload; it is never read as a shorter frame and never as a clean
    end of stream. *)
Theorem frame_cut_is_truncated limit c payload r cut :
  codec_new limit = Ok c -> (Z.of_nat (length payload) <= limit)%Z ->
  chunked r -> (0 < cut < length (frame payload))%nat -> data r = take cut (frame payload) ->
  fst (read_frame c r) =
  Err (FrameTruncated (if (cut <? 4)%nat then FrameHeader else FramePayload) UnexpectedEof).
Proof.
  intros [-> Hl]%codec_new_Ok Hp Hr Hcut Hd.
  apply (read_frame_cut _ _ payload cut); [simpl; lia|by apply chunked_live| |done|done].
  intros k r'. by apply chunked_head.
Qed.

Lemma frame_cut_is_truncated_witness :
  fst (read_frame (MkCodec 4) [Chunk [0; 0; 0; 2; 1]%Z]) = Err (FrameTruncated FramePayload UnexpectedEof).
Proof.
  apply (frame_cut_is_truncated 4 (MkCodec 4) [1; 2]%Z [Chunk [0; 0; 0; 2; 1]%Z] 5).
  - reflexivity.
  - simpl; lia.
  - repeat constructor; discriminate.
  - simpl; lia.
  - reflexivity.
Defined.

Lemma read_one_single r b bs r' : read 1 r = (Ok (b :: bs), r') -> bs = [].
Proof.
  destruct r as [|[bytes|k] r]; simpl; try done.
  destruct bytes as [|x [|y bytes]]; simpl; intros [=]; subst; done.
Qed.

(** Whatever a peer sends, an accepted frame is at most as long as the
    configured limit, and a longer announced length is refused right after the
    four header bytes, with nothing of the payload read. *)
Theorem read_frame_bounded limit c r :
  codec_new limit = Ok c ->
  match read_frame c r with
  | (Ok (Some payload), _) => (Z.of_nat (length payload) <= limit)%Z
  | (Err (FrameTooLarge len bound), r') =>
      bound = limit /\ (limit < len)%Z
      /\ exists b rest r1, read 1 r = (Ok [b], r1) /\ read_exact 3 r1 = (Ok rest, r')
         /\ len = from_be_bytes (b :: rest)
  | _ => True
  end.
Proof.
  intros [-> Hl]%codec_new_Ok. unfold read_frame.
  destruct (read 1 r) as [[[|b bs]|k] r1] eqn:E1; [done| |done].
  apply read_one_single in E1 as ?. subst bs.
  destruct (read_exact 3 r1) as [[rest|k] r2] eqn:E2;
    [|unfold truncated; by case_bool_decide].
  unfold read_payload. cbn zeta. unfold usize_try_from.
  destruct (Z.leb_spec (from_be_bytes (b :: rest)) usize_max); [|done]. cbn [max_frame_bytes].
  destruct (Z.ltb_spec limit (from_be_bytes (b :: rest))) as [Hlt|Hge].
  - split; [done|]. split; [done|]. by exists b, rest, r1.
  - destruct (read_exact _ r2) as [[payload|k] r3] eqn:E3;
      [|unfold truncated; by case_bool_decide].
    apply read_exact_length in E3. lia.
Qed.

Lemma read_frame_bounded_witness :
  match read_frame (MkCodec 4) [Chunk [0; 0; 0; 5; 1]%Z] with
  | (Ok (Some payload), _) => (Z.of_nat (length payload) <= 4)%Z
  | (Err (FrameTooLarge len bound), r') =>
      bound = 4%Z /\ (4 < len)%Z
      /\ exists b rest r1, read 1 [Chunk [0; 0; 0; 5; 1]%Z] = (Ok [b], r1)
         /\ read_exact 3 r1 = (Ok rest, r') /\ len = from_be_bytes (b :: rest)
  | _ => True
  end.
Proof. apply (read_frame_bounded 4 (MkCodec 4) [Chunk [0; 0; 0; 5; 1]%Z]). reflexivity. Defined.
