(* ===== verification/StateStoreCore.v ===== *)
(** * Storage contracts: [crates/state-store-core/src/lib.rs]

    Collections, versioned records, write preconditions and mutations; the
    contract of an atomic repository as an abstract specification over finite
    maps, and the interface through which the services use a repository: a
    class of operations ([AtomicStateRepository] with the read operations of
    [repository_trait!]) and a class of the laws they rely on. *)

From Stdlib Require Import ZArith Lia String.
From stdpp Require Import base decidable countable gmap sorting option list.
From S2P Require Import Prelude RustStd AgentTypes Json.

(** ** Data *)

Inductive Collection :=
| WorkerLeases
| WorkerGenerations
| SessionCatalog
| PromptIngress
| Profiles
| PendingActions
| Children
| ChildMessages
| Goals
| Plans
| Commitments
| WaitingConditions
| ScheduledJobs
| JobAttempts
| RoutingRules
| ResourceGovernance
| ChannelAccounts
| ChannelOffsets
| Deliveries
| AcpSessions
| PluginRegistry
| ConnectedApps
| ComputerSessions
| ControlLeases
| Demonstrations
| TaskRecipes
| HarnessRepairs
| IntegrationOperations
| IntegrationAudit
| AttentionCandidates
| InitiativeHistory
| EvolutionTransactions
| EvolutionLedger
| EvolutionLedgerHead
| ToolExperience
| KernelMetadata
| ActiveOperations
| SchemaMigrations.

Definition collection_as_str (c : Collection) : rstr :=
  match c with
  | WorkerLeases => str "worker_leases"
  | WorkerGenerations => str "worker_generations"
  | SessionCatalog => str "session_catalog"
  | PromptIngress => str "prompt_ingress"
  | Profiles => str "profiles"
  | PendingActions => str "pending_actions"
  | Children => str "children"
  | ChildMessages => str "child_messages"
  | Goals => str "goals"
  | Plans => str "plans"
  | Commitments => str "commitments"
  | WaitingConditions => str "waiting_conditions"
  | ScheduledJobs => str "scheduled_jobs"
  | JobAttempts => str "job_attempts"
  | RoutingRules => str "routing_rules"
  | ResourceGovernance => str "resource_governance"
  | ChannelAccounts => str "channel_accounts"
  | ChannelOffsets => str "channel_offsets"
  | Deliveries => str "deliveries"
  | AcpSessions => str "acp_sessions"
  | PluginRegistry => str "plugin_registry"
  | ConnectedApps => str "connected_apps"
  | ComputerSessions => str "computer_sessions"
  | ControlLeases => str "control_leases"
  | Demonstrations => str "demonstrations"
  | TaskRecipes => str "task_recipes"
  | HarnessRepairs => str "harness_repairs"
  | IntegrationOperations => str "integration_operations"
  | IntegrationAudit => str "integration_audit"
  | AttentionCandidates => str "attention_candidates"
  | InitiativeHistory => str "initiative_history"
  | EvolutionTransactions => str "evolution_transactions"
  | EvolutionLedger => str "evolution_ledger"
  | EvolutionLedgerHead => str "evolution_ledger_head"
  | ToolExperience => str "tool_experience"
  | KernelMetadata => str "kernel_metadata"
  | ActiveOperations => str "active_operations"
  | SchemaMigrations => str "schema_migrations"
  end.

Global Arguments collection_as_str : simpl never.

Definition all_collections : list Collection :=
  [WorkerLeases; WorkerGenerations; SessionCatalog; PromptIngress;
   Profiles; PendingActions; Children; ChildMessages;
   Goals; Plans; Commitments; WaitingConditions;
   ScheduledJobs; JobAttempts; RoutingRules; ResourceGovernance;
   ChannelAccounts; ChannelOffsets; Deliveries; AcpSessions;
   PluginRegistry; ConnectedApps; ComputerSessions; ControlLeases;
   Demonstrations; TaskRecipes; HarnessRepairs; IntegrationOperations;
   IntegrationAudit; AttentionCandidates; InitiativeHistory; EvolutionTransactions;
   EvolutionLedger; EvolutionLedgerHead; ToolExperience; KernelMetadata;
   ActiveOperations; SchemaMigrations].

Definition collection_of_str (s : rstr) : option Collection :=
  List.find (fun c => bool_decide (collection_as_str c = s)) all_collections.

#[export] Instance Collection_eq_dec : EqDecision Collection.
Proof. solve_decision. Defined.
#[export] Instance Collection_countable : Countable Collection.
Proof. apply (inj_countable collection_as_str collection_of_str). by intros []. Defined.

Record VersionedRecord := MkVersionedRecord {
  rec_version : SchemaVersion;
  rec_id : EntityId;
  rec_revision : Revision;
  rec_updated_at : UtcTimestamp;
  rec_payload : Value
}.

Inductive WritePrecondition :=
| PreAny
| PreMissing
| PreExact (revision : Revision).

#[export] Instance VersionedRecord_eq_dec : EqDecision VersionedRecord.
Proof. solve_decision. Defined.
#[export] Instance WritePrecondition_eq_dec : EqDecision WritePrecondition.
Proof. solve_decision. Defined.

Inductive RecordMutation :=
| Put (collection : Collection) (record : VersionedRecord) (precondition : WritePrecondition)
| Delete (collection : Collection) (id : EntityId) (precondition : WritePrecondition).

Record CommitReceipt := MkCommitReceipt { applied_mutations : nat }.

Record EvolutionLedgerErasureReport := MkErasureReport {
  deleted_records : nat;
  deleted_heads : nat;
  remaining_records : nat;
  remaining_heads : nat
}.

(** ** The contract of an atomic repository *)

Abbreviation Records := (gmap (Collection * EntityId) VersionedRecord).

(** The append-only collections, which generic mutations may not touch. *)
Definition is_ledger (c : Collection) : bool :=
  match c with EvolutionLedger | EvolutionLedgerHead => true | _ => false end.

Definition precondition_holds (current : option Revision) (p : WritePrecondition) : bool :=
  match p with
  | PreAny => true
  | PreMissing => bool_decide (current = None)
  | PreExact expected => bool_decide (current = Some expected)
  end.

(** A stored record carries its payload in canonical form. *)
Definition canonical_record (r : VersionedRecord) : VersionedRecord :=
  MkVersionedRecord (rec_version r) (rec_id r) (rec_revision r) (rec_updated_at r)
    (sort_json_value (rec_payload r)).

(** A put is admitted when its precondition holds and it moves the revision of a
    present record forward. *)
Definition put_admitted (current : option Revision) (r : VersionedRecord) (p : WritePrecondition) : bool :=
  precondition_holds current p &&
  match current with
  | Some revision => (revision_get revision <? revision_get (rec_revision r))%Z
  | None => true
  end.

Definition mutation_collection (m : RecordMutation) : Collection :=
  match m with Put c _ _ | Delete c _ _ => c end.

(** A mutation without the protection of the append-only collections. *)
Definition spec_write (recs : Records) (m : RecordMutation) : option Records :=
  match m with
  | Put c r p =>
      if put_admitted (rec_revision <$> recs !! (c, rec_id r)) r p
      then Some (<[(c, rec_id r) := canonical_record r]> recs) else None
  | Delete c id p =>
      if precondition_holds (rec_revision <$> recs !! (c, id)) p
      then Some (delete (c, id) recs) else None
  end.

Definition spec_mutation (recs : Records) (m : RecordMutation) : option Records :=
  if is_ledger (mutation_collection m) then None else spec_write recs m.

Fixpoint spec_mutations (recs : Records) (ms : list RecordMutation) : option Records :=
  match ms with
  | [] => Some recs
  | m :: ms => recs' ← spec_mutation recs m; spec_mutations recs' ms
  end.

(** What the Rust types of a record guarantee, and that its payload is one that
    [serde_json] reads back as written. *)
Definition id_canonical `{Ulid} (id : EntityId) : Prop :=
  exists v, (0 <= v < 2 ^ 128)%Z /\ id = entity_id_from_u128 v.

Definition wf_record `{Ulid} (r : VersionedRecord) : Prop :=
  id_canonical (rec_id r)
  /\ (0 <= sv_major (rec_version r) <= u16_max)%Z /\ (0 <= sv_minor (rec_version r) <= u16_max)%Z
  /\ is_u64 (revision_get (rec_revision r)) /\ is_i64 (unix_millis (rec_updated_at r))
  /\ distinct_keys (rec_payload r) /\ readable (rec_payload r) = true.

Definition wf_mutation `{Ulid} (m : RecordMutation) : Prop :=
  match m with Put _ r _ => wf_record r | Delete _ _ _ => True end.

(** [rs] lists the records of a collection in the order of their identifiers. *)
Definition lists_collection (recs : Records) (c : Collection) (rs : list VersionedRecord) : Prop :=
  StronglySorted (fun r q => rcmp (rec_id r) (rec_id q) = Lt) rs
  /\ forall r, r ∈ rs <-> recs !! (c, rec_id r) = Some r.

(** ** The interface *)

Class Repository (S : Type) : Type := {
  repo_error : Type;
  is_conflict : repo_error -> bool;
  transact : S -> list RecordMutation -> result repo_error CommitReceipt * S;
  list_records : S -> Collection -> result repo_error (list VersionedRecord);
  get_by_id : S -> Collection -> EntityId -> result repo_error (option VersionedRecord)
}.

(** The laws: [repo_view] relates a repository to the records it holds.  A
    committed batch applied every mutation of the specification; a refused batch
    left the records alone, unless the acknowledgement of a commit was lost,
    which is never reported as a conflict. *)
Class RepositoryLaws `{Ulid} (S : Type) `{Repository S} : Type := {
  repo_view : S -> Records -> Prop;
  view_keys : forall s recs c id r,
    repo_view s recs -> recs !! (c, id) = Some r ->
    rec_id r = id /\ wf_record r /\ canonical_record r = r;
  view_inj : forall s recs recs', repo_view s recs -> repo_view s recs' -> recs = recs';
  transact_ok : forall s recs ms receipt s',
    repo_view s recs -> Forall wf_mutation ms -> transact s ms = (Ok receipt, s') ->
    exists recs', spec_mutations recs ms = Some recs' /\ repo_view s' recs';
  transact_err : forall s recs ms e s',
    repo_view s recs -> Forall wf_mutation ms -> transact s ms = (Err e, s') ->
    repo_view s' recs
    \/ is_conflict e = false /\ exists recs', spec_mutations recs ms = Some recs' /\ repo_view s' recs';
  transact_conflict : forall s recs ms e s',
    repo_view s recs -> Forall wf_mutation ms -> transact s ms = (Err e, s') ->
    is_conflict e = true -> spec_mutations recs ms = None;
  list_ok : forall s recs c rs,
    repo_view s recs -> list_records s c = Ok rs -> lists_collection recs c rs;
  get_ok : forall s recs c id found,
    repo_view s recs -> get_by_id s c id = Ok found -> found = recs !! (c, id)
}.
