(* ===== verification/Sqlite.v ===== *)
(** * The SQL engine under the state store

    [crates/state-store/src/lib.rs] executes a handful of statements on the
    table [records] through [rusqlite].  The engine is a parameter: the class
    [Sqlite] has one operation per statement, and [SqliteLaws] says what each
    does to the rows of the table when it succeeds; any of them may fail
    instead.  A transaction works on a copy that a commit publishes and a drop
    discards.  The last part is an engine over finite maps, which shows that the
    laws can hold and evaluates the closed examples. *)

From Stdlib Require Import ZArith Lia String.
From stdpp Require Import base decidable countable gmap sorting option list.
From S2P Require Import Prelude RustStd.

(** ** The engine *)

Record RawRecord := MkRawRecord {
  raw_id : rstr;
  raw_schema_major : Z;
  raw_schema_minor : Z;
  raw_revision : Z;
  raw_updated_at : Z;
  raw_payload : list Z
}.

Class Sqlite : Type := {
  Db : Type;
  SqliteError : Type;
  (** [BEGIN IMMEDIATE] and [COMMIT]. *)
  begin_immediate : Db -> result SqliteError Db;
  sql_commit : Db -> Db -> result SqliteError Db;
  (** [INSERT INTO records ... ON CONFLICT(collection, id) DO UPDATE]. *)
  sql_upsert : Db -> rstr -> RawRecord -> result SqliteError Db;
  (** [DELETE FROM records WHERE collection = ?1 AND id = ?2]. *)
  sql_delete : Db -> rstr -> rstr -> result SqliteError Db;
  (** [DELETE FROM records WHERE collection = ?1], with the count of deleted rows. *)
  sql_delete_collection : Db -> rstr -> result SqliteError (nat * Db);
  (** [SELECT revision FROM records WHERE collection = ?1 AND id = ?2]. *)
  sql_revision : Db -> rstr -> rstr -> result SqliteError (option Z);
  (** [SELECT ... FROM records WHERE collection = ?1 AND id = ?2]. *)
  sql_get : Db -> rstr -> rstr -> result SqliteError (option RawRecord);
  (** [SELECT ... FROM records WHERE collection = ?1 ORDER BY id]. *)
  sql_list : Db -> rstr -> result SqliteError (list RawRecord);
  (** [SELECT COUNT( * ) FROM records WHERE collection = ?1]. *)
  sql_count : Db -> rstr -> result SqliteError Z
}.

Abbreviation Rows := (gmap (rstr * rstr) RawRecord).

Definition in_collection (c : rstr) (rows : Rows) : Rows := filter (fun p => p.1.1 = c) rows.

Class SqliteLaws `{Sqlite} : Type := {
  rows : Db -> Rows;
  rows_key : forall d c i r, rows d !! (c, i) = Some r -> raw_id r = i;
  begin_rows : forall d t, begin_immediate d = Ok t -> rows t = rows d;
  commit_rows : forall d t d', sql_commit d t = Ok d' -> rows d' = rows t;
  upsert_rows : forall t c r t',
    sql_upsert t c r = Ok t' -> rows t' = <[(c, raw_id r) := r]> (rows t);
  delete_rows : forall t c i t', sql_delete t c i = Ok t' -> rows t' = delete (c, i) (rows t);
  delete_collection_rows : forall t c n t',
    sql_delete_collection t c = Ok (n, t') ->
    n = size (in_collection c (rows t)) /\ rows t' = filter (fun p => p.1.1 <> c) (rows t);
  revision_rows : forall t c i o,
    sql_revision t c i = Ok o -> o = raw_revision <$> rows t !! (c, i);
  get_rows : forall t c i o, sql_get t c i = Ok o -> o = rows t !! (c, i);
  list_rows : forall t c l,
    sql_list t c = Ok l ->
    StronglySorted (fun r q => rcmp (raw_id r) (raw_id q) = Lt) l
    /\ forall r, r ∈ l <-> rows t !! (c, raw_id r) = Some r;
  count_rows : forall t c n,
    sql_count t c = Ok n -> n = Z.of_nat (size (in_collection c (rows t)))
}.

(** ** An engine over finite maps *)

(** The columns of a row other than its key. *)
Record MemoryRow := MkMemoryRow { mem_columns : Z * Z * Z * Z; mem_payload : list Z }.

Definition memory_row (key : rstr * rstr) (row : MemoryRow) : RawRecord :=
  let '(major, minor, revision, updated_at) := mem_columns row in
  MkRawRecord key.2 major minor revision updated_at (mem_payload row).

Definition memory_of (r : RawRecord) : MemoryRow :=
  MkMemoryRow (raw_schema_major r, raw_schema_minor r, raw_revision r, raw_updated_at r) (raw_payload r).

Abbreviation Memory := (gmap (rstr * rstr) MemoryRow).

Definition memory_rows (d : Memory) : Rows := map_imap (fun k r => Some (memory_row k r)) d.

Definition memory_sqlite : Sqlite := {|
  Db := Memory;
  SqliteError := unit;
  begin_immediate d := Ok d;
  sql_commit _ t := Ok t;
  sql_upsert t c r := Ok (<[(c, raw_id r) := memory_of r]> t);
  sql_delete t c i := Ok (delete (c, i) t);
  sql_delete_collection t c :=
    Ok (size (in_collection c (memory_rows t)), filter (fun p => p.1.1 <> c) t);
  sql_revision t c i := Ok (raw_revision <$> memory_rows t !! (c, i));
  sql_get t c i := Ok (memory_rows t !! (c, i));
  sql_list t c := Ok (btree_values (in_collection c (memory_rows t)));
  sql_count t c := Ok (Z.of_nat (size (in_collection c (memory_rows t))))
|}.

Lemma memory_lookup d c i : memory_rows d !! (c, i) = memory_row (c, i) <$> d !! (c, i).
Proof. unfold memory_rows. rewrite map_lookup_imap. by destruct (d !! (c, i)). Qed.

Lemma memory_key d c i r : memory_rows d !! (c, i) = Some r -> raw_id r = i.
Proof.
  rewrite memory_lookup. destruct (d !! (c, i)) as [[[[[? ?] ?] ?] ?]|]; simpl; [|done].
  intros [= <-]. done.
Qed.

Lemma memory_row_of c r : memory_row (c, raw_id r) (memory_of r) = r.
Proof. by destruct r. Qed.

Lemma memory_list d c :
  let l := btree_values (in_collection c (memory_rows d)) in
  StronglySorted (fun r q => rcmp (raw_id r) (raw_id q) = Lt) l
  /\ forall r, r ∈ l <-> memory_rows d !! (c, raw_id r) = Some r.
Proof.
  assert (forall k r, in_collection c (memory_rows d) !! k = Some r <->
                      k = (c, raw_id r) /\ memory_rows d !! (c, raw_id r) = Some r) as Hin.
  { intros [c' i] r. unfold in_collection. rewrite map_lookup_filter_Some. simpl. split.
    - intros [Hl ->]. pose proof (memory_key _ _ _ _ Hl) as ->. done.
    - intros [[= -> ->] Hl]. done. }
  simpl. split.
  - eapply (Forall2_StronglySorted (fun p r => p = ((c, raw_id r), r))), btree_iter_lt.
    + intros p q r r' -> ->.
      change (cmp_then (rcmp c c) (rcmp (raw_id r) (raw_id r')) = Lt -> rcmp (raw_id r) (raw_id r') = Lt).
      by rewrite rcmp_refl.
    + unfold btree_values. apply Forall2_fmap_r, Forall_Forall2_diag, Forall_forall.
      intros [k r] Hkr%elem_of_btree_iter. apply Hin in Hkr as [-> _]. done.
  - intros r. rewrite elem_of_btree_values. split.
    + intros [k Hk]. by apply Hin in Hk as [_ ?].
    + intros Hl. exists (c, raw_id r). by apply Hin.
Qed.

Lemma memory_laws : @SqliteLaws memory_sqlite.
Proof.
  refine {| rows := (memory_rows : @Db memory_sqlite -> Rows) |}; simpl.
  - apply memory_key.
  - by intros d t [= ->].
  - by intros d t d' [= ->].
  - intros t c r t' [= <-]. unfold memory_rows. erewrite map_imap_insert_Some; [|done].
    by rewrite memory_row_of.
  - intros t c i t' [= <-]. unfold memory_rows. by rewrite map_imap_delete.
  - intros t c n t' [= <- <-]. split; [done|]. apply map_eq. intros [c' i].
    rewrite memory_lookup, !map_lookup_filter, memory_lookup.
    destruct (t !! (c', i)) as [row|]; simpl; [|done]. by case_guard.
  - by intros t c i o [= <-].
  - by intros t c i o [= <-].
  - intros t c l [= <-]. apply memory_list.
  - by intros t c n [= <-].
Defined.
