(* ===== verification/StateStore.v ===== *)
(** * The embedded state store: [crates/state-store/src/lib.rs]

    [EmbeddedStore] over the engine of [Sqlite]: the transactions, the
    append-only protection of the evolution ledger, the fault points, the
    decoding of rows; that the store implements the contract of
    [StateStoreCore]; and what its transactions guarantee. *)

From Stdlib Require Import ZArith Lia String.
From stdpp Require Import base decidable countable gmap sorting option list.
From S2P Require Import Prelude RustStd AgentTypes Json StateStoreCore Sqlite.

(** ** The store *)

Inductive FaultPoint := BeforeTransaction | BeforeCommit | AfterCommit.

Definition fault_code (p : FaultPoint) : Z :=
  match p with BeforeTransaction => 1 | BeforeCommit => 2 | AfterCommit => 3 end.

Inductive CorruptReason :=
| UnsupportedRecordSchema (version : SchemaVersion)
| NegativeRevision
| InvalidRecordId
| InvalidSchemaMajor
| InvalidSchemaMinor
| InvalidRevision
| InvalidJson (error : JsonError).

Section store.
Context `{Ulid, SerdeJson, Sqlite}.

Inductive StoreError :=
| StSqlite (error : SqliteError)
| StLockPoisoned
| StConflict (collection : Collection) (id : EntityId)
| StCorruptRecord (collection : Collection) (id : rstr) (reason : CorruptReason)
| StNumericRange
| StInjected (point : FaultPoint)
| StUnknownOutcome
| StAppendOnlyViolation (collection : Collection)
| StErasureIncomplete (remaining_records remaining_heads : nat).

Definition store_is_conflict (e : StoreError) : bool :=
  match e with StConflict _ _ => true | _ => false end.

Record EmbeddedStore := MkStore {
  connection : Db;
  poisoned : bool;
  fault_once : Z
}.

Abbreviation store_m := (stateT EmbeddedStore StoreError).

Definition from_connection (c : Db) : EmbeddedStore := MkStore c false 0.

Definition set_connection (d : Db) : store_m unit :=
  modify (fun s => MkStore d (poisoned s) (fault_once s)).

Definition inject_fault_once (point : FaultPoint) (s : EmbeddedStore) : EmbeddedStore :=
  MkStore (connection s) (poisoned s) (fault_code point).

Definition lock : store_m Db :=
  fun s => if poisoned s then (Err StLockPoisoned, s) else (Ok (connection s), s).

Definition take_fault (point : FaultPoint) : store_m bool :=
  fun s => if (fault_once s =? fault_code point)%Z
           then (Ok true, MkStore (connection s) (poisoned s) 0)
           else (Ok false, s).

Definition fail_if (point : FaultPoint) : store_m unit :=
  hit ← take_fault point;
  if hit : bool then throw (StInjected point) else mret tt.

Definition corrupt (c : Collection) (id : rstr) (reason : CorruptReason) : StoreError :=
  StCorruptRecord c id reason.

Definition validate_record (c : Collection) (r : VersionedRecord) : result StoreError unit :=
  reject_if
    (negb (sv_major (rec_version r) =? sv_major CURRENT_SCHEMA_VERSION)
     || (sv_minor CURRENT_SCHEMA_VERSION <? sv_minor (rec_version r)))%Z%bool
    (corrupt c (as_str (rec_id r)) (UnsupportedRecordSchema (rec_version r))).

Definition current_revision (tx : Db) (c : Collection) (id : EntityId)
  : result StoreError (option Revision) :=
  revision ← map_err StSqlite (sql_revision tx (collection_as_str c) (as_str id));
  match revision with
  | None => Ok None
  | Some value =>
      match u64_try_from value with
      | Some v => Ok (Some (MkRevision v))
      | None => Err (corrupt c (as_str id) NegativeRevision)
      end
  end.

Definition check_precondition (c : Collection) (id : EntityId) (current : option Revision)
    (p : WritePrecondition) : result StoreError unit :=
  let accepted :=
    match p with
    | PreAny => true
    | PreMissing => bool_decide (current = None)
    | PreExact expected => bool_decide (current = Some expected)
    end in
  if accepted : bool then Ok tt else Err (StConflict c id).

(** The guard of [apply_mutation_inner] on the append-only collections. *)
Definition append_only_guard (m : RecordMutation) (evolution_append : bool) : result StoreError unit :=
  match m with
  | Put EvolutionLedger _ PreMissing =>
      if evolution_append then Ok tt else Err (StAppendOnlyViolation EvolutionLedger)
  | Put EvolutionLedgerHead _ (PreMissing | PreExact _) =>
      if evolution_append then Ok tt else Err (StAppendOnlyViolation EvolutionLedger)
  | Put (EvolutionLedger | EvolutionLedgerHead) _ _
  | Delete (EvolutionLedger | EvolutionLedgerHead) _ _ =>
      Err (StAppendOnlyViolation EvolutionLedger)
  | _ => Ok tt
  end.

Definition apply_mutation_inner (tx : Db) (m : RecordMutation) (evolution_append : bool)
  : result StoreError Db :=
  append_only_guard m evolution_append ;;
  match m with
  | Put c r p =>
      validate_record c r ;;
      current ← current_revision tx c (rec_id r);
      check_precondition c (rec_id r) current p ;;
      reject_if (match current with
                 | Some revision => (revision_get (rec_revision r) <=? revision_get revision)%Z
                 | None => false
                 end) (StConflict c (rec_id r)) ;;
      revision ← ok_or (i64_try_from (revision_get (rec_revision r))) StNumericRange;
      payload ← map_err (fun e => corrupt c (as_str (rec_id r)) (InvalidJson e))
                        (canonical_json_bytes (rec_payload r));
      map_err StSqlite
        (sql_upsert tx (collection_as_str c)
           (MkRawRecord (as_str (rec_id r)) (sv_major (rec_version r)) (sv_minor (rec_version r))
              revision (unix_millis (rec_updated_at r)) payload))
  | Delete c id p =>
      current ← current_revision tx c id;
      check_precondition c id current p ;;
      map_err StSqlite (sql_delete tx (collection_as_str c) (as_str id))
  end.

Definition apply_mutation (tx : Db) (m : RecordMutation) : result StoreError Db :=
  apply_mutation_inner tx m false.

(** [transaction.commit()?] followed by the check of the last fault point. *)
Definition commit_and_acknowledge {A} (conn tx : Db) (receipt : A) : store_m A :=
  fail_if BeforeCommit ;;
  db ← lift (map_err StSqlite (sql_commit conn tx));
  set_connection db ;;
  lost ← take_fault AfterCommit;
  if lost : bool then throw StUnknownOutcome else mret receipt.

Definition transact_records (ms : list RecordMutation) : store_m CommitReceipt :=
  fail_if BeforeTransaction ;;
  conn ← lock;
  tx ← lift (map_err StSqlite (begin_immediate conn));
  tx ← lift (try_fold apply_mutation tx ms);
  commit_and_acknowledge conn tx (MkCommitReceipt (length ms)).

Definition put_record (c : Collection) (r : VersionedRecord) (p : WritePrecondition)
  : store_m CommitReceipt := transact_records [Put c r p].

Definition delete_record (c : Collection) (id : EntityId) (p : WritePrecondition)
  : store_m CommitReceipt := transact_records [Delete c id p].

(** The writes of [transact_evolution_append] inside its transaction. *)
Definition evolution_append_body (record head : VersionedRecord)
    (head_precondition : WritePrecondition) (tx : Db) : result StoreError Db :=
  tx ← apply_mutation_inner tx (Put EvolutionLedger record PreMissing) true;
  apply_mutation_inner tx (Put EvolutionLedgerHead head head_precondition) true.

Definition transact_evolution_append (record head : VersionedRecord)
    (head_precondition : WritePrecondition) : store_m CommitReceipt :=
  if negb (bool_decide (rec_id head = entity_id_from_u128 0))
  then throw (StAppendOnlyViolation EvolutionLedgerHead)
  else
    fail_if BeforeTransaction ;;
    conn ← lock;
    tx ← lift (map_err StSqlite (begin_immediate conn));
    tx ← lift (evolution_append_body record head head_precondition tx);
    commit_and_acknowledge conn tx (MkCommitReceipt 2).

Definition collection_record_count (tx : Db) (c : Collection) : result StoreError nat :=
  count ← map_err StSqlite (sql_count tx (collection_as_str c));
  ok_or (if (0 <=? count)%Z then Some (Z.to_nat count) else None) StNumericRange.

(** The deletions and the recount of [transact_evolution_ledger_erasure] inside
    its transaction. *)
Definition ledger_erasure_body (tx : Db) : result StoreError (Db * EvolutionLedgerErasureReport) :=
  '(deleted_records, tx) ← map_err StSqlite
      (sql_delete_collection tx (collection_as_str EvolutionLedger));
  '(deleted_heads, tx) ← map_err StSqlite
      (sql_delete_collection tx (collection_as_str EvolutionLedgerHead));
  remaining_records ← collection_record_count tx EvolutionLedger;
  remaining_heads ← collection_record_count tx EvolutionLedgerHead;
  reject_if (negb (remaining_records =? 0)%nat || negb (remaining_heads =? 0)%nat)
    (StErasureIncomplete remaining_records remaining_heads) ;;
  Ok (tx, MkErasureReport deleted_records deleted_heads remaining_records remaining_heads).

Definition transact_evolution_ledger_erasure : store_m EvolutionLedgerErasureReport :=
  fail_if BeforeTransaction ;;
  conn ← lock;
  tx ← lift (map_err StSqlite (begin_immediate conn));
  x ← lift (ledger_erasure_body tx);
  commit_and_acknowledge conn x.1 x.2.

Definition decode_record (c : Collection) (raw : RawRecord) : result StoreError VersionedRecord :=
  id ← map_err (fun _ => corrupt c (raw_id raw) InvalidRecordId) (entity_id_parse (raw_id raw));
  schema_major ← ok_or (u16_try_from (raw_schema_major raw)) (corrupt c (raw_id raw) InvalidSchemaMajor);
  schema_minor ← ok_or (u16_try_from (raw_schema_minor raw)) (corrupt c (raw_id raw) InvalidSchemaMinor);
  revision ← ok_or (u64_try_from (raw_revision raw)) (corrupt c (raw_id raw) InvalidRevision);
  payload ← map_err (fun e => corrupt c (raw_id raw) (InvalidJson e)) (from_slice (raw_payload raw));
  let record := MkVersionedRecord (MkSchemaVersion schema_major schema_minor) id
                  (MkRevision revision) (MkUtcTimestamp (raw_updated_at raw)) payload in
  validate_record c record ;;
  Ok record.

Definition read_record (conn : Db) (c : Collection) (id : EntityId)
  : result StoreError (option VersionedRecord) :=
  raw ← map_err StSqlite (sql_get conn (collection_as_str c) (as_str id));
  match raw with
  | None => Ok None
  | Some raw => Some <$> decode_record c raw
  end.

Definition get_record (s : EmbeddedStore) (c : Collection) (id : EntityId)
  : result StoreError (option VersionedRecord) :=
  if poisoned s then Err StLockPoisoned else read_record (connection s) c id.

Definition store_list_records (s : EmbeddedStore) (c : Collection)
  : result StoreError (list VersionedRecord) :=
  if poisoned s then Err StLockPoisoned
  else raws ← map_err StSqlite (sql_list (connection s) (collection_as_str c));
       try_map (decode_record c) raws.

Definition get_evolution_head (s : EmbeddedStore) : result StoreError (option VersionedRecord) :=
  get_record s EvolutionLedgerHead (entity_id_from_u128 0).

Definition get_evolution_record (s : EmbeddedStore) (id : EntityId)
  : result StoreError (option VersionedRecord) := get_record s EvolutionLedger id.

Definition list_evolution_records (s : EmbeddedStore) : result StoreError (list VersionedRecord) :=
  store_list_records s EvolutionLedger.

(** The impls of [implement_repository!]: each trait is the four generic
    operations at one collection. *)
Inductive TypedRepository :=
| LeaseRepository | GenerationRepository | CatalogRepository | ActionRepository
| ProfileRepository | ChildRepository | ChildMessageRepository | GoalRepository
| PlanRepository | CommitmentRepository | WaitRepository | ScheduleRepository
| JobAttemptRepository | RouteRepository | ResourceRepository | ChannelOffsetRepository
| DeliveryRepository | AttentionRepository | InitiativeRepository | RefinementRepository
| ToolExperienceRepository | MigrationRepository.

Definition implement_repository (t : TypedRepository) : Collection :=
  match t with
  | LeaseRepository => WorkerLeases
  | GenerationRepository => WorkerGenerations
  | CatalogRepository => SessionCatalog
  | ActionRepository => PendingActions
  | ProfileRepository => Profiles
  | ChildRepository => Children
  | ChildMessageRepository => ChildMessages
  | GoalRepository => Goals
  | PlanRepository => Plans
  | CommitmentRepository => Commitments
  | WaitRepository => WaitingConditions
  | ScheduleRepository => ScheduledJobs
  | JobAttemptRepository => JobAttempts
  | RouteRepository => RoutingRules
  | ResourceRepository => ResourceGovernance
  | ChannelOffsetRepository => ChannelOffsets
  | DeliveryRepository => Deliveries
  | AttentionRepository => AttentionCandidates
  | InitiativeRepository => InitiativeHistory
  | RefinementRepository => EvolutionTransactions
  | ToolExperienceRepository => ToolExperience
  | MigrationRepository => SchemaMigrations
  end.

Definition repository_get (t : TypedRepository) (s : EmbeddedStore) (id : EntityId) :=
  get_record s (implement_repository t) id.
Definition repository_list (t : TypedRepository) (s : EmbeddedStore) :=
  store_list_records s (implement_repository t).
Definition repository_put (t : TypedRepository) (r : VersionedRecord) (p : WritePrecondition) :=
  put_record (implement_repository t) r p.
Definition repository_delete (t : TypedRepository) (id : EntityId) (p : WritePrecondition) :=
  delete_record (implement_repository t) id p.

#[export] Instance embedded_repository : Repository EmbeddedStore := {|
  repo_error := StoreError;
  is_conflict := store_is_conflict;
  transact s ms := transact_records ms s;
  list_records := store_list_records;
  get_by_id := get_record
|}.
End store.

(** ** Refinement: the store implements the contract of [StateStoreCore] *)

Section refinement.
Context `{HU : Ulid, HJ : SerdeJson, HS : Sqlite, !SqliteLaws}.

Abbreviation store_m := (stateT EmbeddedStore StoreError).

(** The row a record is stored as. *)
Definition row_of (r : VersionedRecord) : result JsonError RawRecord :=
  payload ← canonical_json_bytes (rec_payload r);
  Ok (MkRawRecord (as_str (rec_id r)) (sv_major (rec_version r)) (sv_minor (rec_version r))
        (revision_get (rec_revision r)) (unix_millis (rec_updated_at r)) payload).

Definition schema_supported (r : VersionedRecord) : Prop :=
  sv_major (rec_version r) = sv_major CURRENT_SCHEMA_VERSION
  /\ (sv_minor (rec_version r) <= sv_minor CURRENT_SCHEMA_VERSION)%Z.

Definition stored (id : EntityId) (raw : RawRecord) (r : VersionedRecord) : Prop :=
  rec_id r = id /\ row_of r = Ok raw /\ wf_record r /\ canonical_record r = r
  /\ schema_supported r /\ (revision_get (rec_revision r) <= i64_max)%Z.

(** The abstraction relation between the rows of the table and the records. *)
Definition represents (rw : Rows) (recs : Records) : Prop :=
  forall c id, option_Forall2 (stored id) (rw !! (collection_as_str c, as_str id)) (recs !! (c, id)).

Definition store_view (s : EmbeddedStore) (recs : Records) : Prop :=
  represents (rows (connection s)) recs.

Lemma collection_as_str_inj c d : collection_as_str c = collection_as_str d -> c = d.
Proof.
  intros Heq. assert (Some c = Some d) as [= ->]; [|done].
  transitivity (collection_of_str (collection_as_str c)); [by destruct c|].
  rewrite Heq. by destruct d.
Qed.

Lemma row_key_inj c id d id' :
  (collection_as_str c, as_str id) = (collection_as_str d, as_str id') -> (c, id) = (d, id').
Proof. intros [= Hc Hid]. apply collection_as_str_inj in Hc as ->. apply (inj as_str) in Hid as ->. done. Qed.

Lemma validate_record_ok c r : validate_record c r = Ok tt <-> schema_supported r.
Proof.
  unfold validate_record, schema_supported, reject_if. split.
  - intros Hv. res_inv. bool_inv. bool_inv. done.
  - intros [-> Hm]. rewrite Z.eqb_refl. simpl in *.
    destruct (Z.ltb_spec 0 (sv_minor (rec_version r))); [lia|done].
Qed.

Lemma wf_canonical r : wf_record r -> wf_record (canonical_record r).
Proof.
  intros (?&?&?&?&?&?&?). do 5 (split; [done|]). simpl.
  rewrite sort_json_readable by done. split; [by apply sort_json_distinct|done].
Qed.

Lemma canonical_idemp r : wf_record r -> canonical_record (canonical_record r) = canonical_record r.
Proof. intros (_&_&_&_&_&Hd&_). unfold canonical_record. simpl. by rewrite sort_json_idemp. Qed.

Lemma row_of_canonical r raw : wf_record r -> row_of r = Ok raw -> row_of (canonical_record r) = Ok raw.
Proof.
  intros (_&_&_&_&_&Hd&_) Hr. unfold row_of in *. unfold canonical_json_bytes in *. simpl.
  by rewrite sort_json_idemp.
Qed.

Lemma decode_stored c id raw r : stored id raw r -> decode_record c raw = Ok r.
Proof.
  intros (<- & Hrow & (Hid & Hmaj & Hmin & Hrev & Hts & Hd & Hread) & Hc & Hs & Hle).
  unfold row_of in Hrow. res_inv. unfold decode_record. simpl.
  rewrite (proj2 (parse_Ok (as_str (rec_id r)) (rec_id r))) by done. simpl.
  unfold u16_try_from, u64_try_from, is_u64 in *.
  assert (forall a b z, a <= z <= b -> ((a <=? z) && (z <=? b) = true))%Z as Hin.
  { intros a0 b0 z ?. apply andb_true_iff. rewrite !Z.leb_le. lia. }
  rewrite !Hin by done. simpl.
  assert (sort_json_value (rec_payload r) = rec_payload r) as Hsort.
  { apply (f_equal rec_payload) in Hc. done. }
  unfold canonical_json_bytes in E. rewrite Hsort in E.
  rewrite (from_to_canonical _ _ Hsort Hread E). simpl.
  destruct r as [[maj min] i [rev] [ts] pl]. simpl in *.
  by rewrite (proj2 (validate_record_ok _ _)).
Qed.

Lemma represents_lookup rw recs c id raw :
  represents rw recs -> rw !! (collection_as_str c, as_str id) = Some raw ->
  exists r, recs !! (c, id) = Some r /\ stored id raw r.
Proof. intros Hr Hl. specialize (Hr c id). rewrite Hl in Hr. inversion Hr; subst. eauto. Qed.

Lemma represents_lookup_recs rw recs c id r :
  represents rw recs -> recs !! (c, id) = Some r ->
  exists raw, rw !! (collection_as_str c, as_str id) = Some raw /\ stored id raw r.
Proof. intros Hr Hl. specialize (Hr c id). rewrite Hl in Hr. inversion Hr; subst. eauto. Qed.

Lemma represents_inj rw recs recs' : represents rw recs -> represents rw recs' -> recs = recs'.
Proof.
  intros H1 H2. apply map_eq. intros [c id]. specialize (H1 c id). specialize (H2 c id).
  destruct H1 as [raw r Hr|]; inversion H2 as [? r' Hr'|]; subst; [|done].
  apply (decode_stored c) in Hr, Hr'. congruence.
Qed.

Lemma represents_insert rw recs c r raw :
  represents rw recs -> row_of r = Ok raw -> wf_record r -> schema_supported r ->
  (revision_get (rec_revision r) <= i64_max)%Z ->
  represents (<[(collection_as_str c, as_str (rec_id r)) := raw]> rw)
             (<[(c, rec_id r) := canonical_record r]> recs).
Proof.
  intros Hr Hrow Hwf Hs Hrev d id.
  destruct (decide ((c, rec_id r) = (d, id))) as [Heq|Hne].
  - injection Heq as <- <-. rewrite !lookup_insert_eq. constructor.
    split; [done|]. split; [by apply row_of_canonical|]. split; [by apply wf_canonical|].
    split; [by apply canonical_idemp|]. done.
  - rewrite !lookup_insert_ne; [apply Hr|done|]. intros ?%row_key_inj. done.
Qed.

Lemma represents_delete rw recs c id :
  represents rw recs ->
  represents (delete (collection_as_str c, as_str id) rw) (delete (c, id) recs).
Proof.
  intros Hr d id'. destruct (decide ((c, id) = (d, id'))) as [Heq|Hne].
  - injection Heq as <- <-. rewrite !lookup_delete_eq. constructor.
  - rewrite !lookup_delete_ne; [apply Hr|done|]. intros ?%row_key_inj. done.
Qed.

Lemma current_revision_spec tx recs c id :
  represents (rows tx) recs ->
  match current_revision tx c id with
  | Ok current => current = rec_revision <$> recs !! (c, id)
  | Err e => store_is_conflict e = false
  end.
Proof.
  intros Hr. unfold current_revision.
  destruct (sql_revision tx _ _) as [o|e] eqn:Eq; simpl; [|done].
  apply revision_rows in Eq as ->. specialize (Hr c id).
  destruct Hr as [raw r (_ & Hrow & Hwf & _ & _ & Hle)|]; simpl; [|done].
  unfold row_of in Hrow. res_inv. simpl. destruct Hwf as (_&_&_&Hrev&_).
  unfold u64_try_from, is_u64 in *.
  destruct (Z.leb_spec 0 (revision_get (rec_revision r))); [|lia].
  destruct (Z.leb_spec (revision_get (rec_revision r)) u64_max); [|lia].
  simpl. by destruct (rec_revision r).
Qed.

Lemma check_precondition_spec c id current p :
  check_precondition c id current p =
  if precondition_holds current p then Ok tt else Err (StConflict c id).
Proof. by destruct p. Qed.

Lemma append_only_guard_generic m :
  append_only_guard m false =
  if is_ledger (mutation_collection m) then Err (StAppendOnlyViolation EvolutionLedger) else Ok tt.
Proof. destruct m as [[] r []|[] id []]; reflexivity. Qed.

Lemma append_only_guard_err m b e : append_only_guard m b = Err e -> store_is_conflict e = false.
Proof. destruct m as [[] r []|[] id []], b; simpl; intros ?; res_inv; done. Qed.

Lemma i64_try_from_u64 z : is_u64 z -> forall y, i64_try_from z = Some y -> y = z /\ (z <= i64_max)%Z.
Proof. intros Hz y Hy. apply i64_try_from_Some in Hy as [-> []]. done. Qed.

(** A write of a transaction refines the write of the specification. *)
Lemma apply_inner_ok tx recs m b tx' :
  represents (rows tx) recs -> wf_mutation m -> apply_mutation_inner tx m b = Ok tx' ->
  append_only_guard m b = Ok tt
  /\ exists recs', spec_write recs m = Some recs' /\ represents (rows tx') recs'.
Proof.
  intros Hr Hwf Ha. unfold apply_mutation_inner in Ha.
  destruct (append_only_guard m b) as [[]|]; [|done]. split; [done|]. simpl in Ha.
  destruct m as [c r p|c id p]; simpl in *.
  - pose proof (current_revision_spec tx recs c (rec_id r) Hr) as Hcur.
    destruct (validate_record c r) as [[]|] eqn:Ev; simpl in Ha; [|done].
    apply validate_record_ok in Ev.
    destruct (current_revision tx c (rec_id r)) as [cur|]; simpl in Ha; [|done]. subst cur.
    rewrite check_precondition_spec in Ha. unfold put_admitted.
    destruct (precondition_holds _ p); simpl in *; [|done].
    destruct (i64_try_from _) as [rev|] eqn:Erev; simpl in Ha; [|res_inv].
    apply i64_try_from_u64 in Erev as [-> Hle]; [|apply Hwf].
    destruct (canonical_json_bytes _) as [bytes|] eqn:Eb; simpl in Ha; [|res_inv].
    assert (row_of r = Ok (MkRawRecord (as_str (rec_id r)) (sv_major (rec_version r))
      (sv_minor (rec_version r)) (revision_get (rec_revision r)) (unix_millis (rec_updated_at r)) bytes))
      as Hrow by (unfold row_of; by rewrite Eb).
    destruct (reject_if _ _) as [[]|] eqn:Ej; simpl in Ha; [|done].
    destruct (sql_upsert tx _ _) as [tx1|] eqn:E; simpl in Ha; [|done]. injection Ha as ->.
    apply upsert_rows in E. rewrite E. eexists. split; [|by apply represents_insert].
    unfold reject_if in Ej. destruct (recs !! _) as [old|]; simpl in *; [|done].
    rewrite Z.ltb_antisym. by destruct (_ <=? _)%Z.
  - pose proof (current_revision_spec tx recs c id Hr) as Hcur.
    destruct (current_revision tx c id) as [cur|]; simpl in Ha; [|done]. subst cur.
    rewrite check_precondition_spec in Ha.
    destruct (precondition_holds _ p); simpl in *; [|done].
    res_inv. apply delete_rows in E as ->. eexists. split; [done|]. by apply represents_delete.
Qed.

Lemma apply_inner_conflict tx recs m b e :
  represents (rows tx) recs -> apply_mutation_inner tx m b = Err e ->
  store_is_conflict e = true -> spec_write recs m = None.
Proof.
  intros Hr Ha Hc. unfold apply_mutation_inner in Ha.
  destruct (append_only_guard m b) as [[]|e0] eqn:Eg; simpl in Ha.
  2:{ apply append_only_guard_err in Eg. congruence. }
  destruct m as [c r p|c id p]; simpl in *.
  - pose proof (current_revision_spec tx recs c (rec_id r) Hr) as Hcur.
    destruct (validate_record c r) as [[]|] eqn:Ev; simpl in Ha.
    2:{ unfold validate_record in Ev. by res_inv. }
    destruct (current_revision tx c (rec_id r)) as [cur|]; simpl in Ha; [|res_inv; congruence].
    subst cur. rewrite check_precondition_spec in Ha. unfold put_admitted.
    destruct (precondition_holds _ p); simpl in *; [|done].
    destruct (reject_if _ _) as [[]|] eqn:Ej; simpl in Ha; [res_inv; done|].
    destruct (recs !! _) as [old|]; simpl in *; [|res_inv].
    rewrite Z.ltb_antisym. unfold reject_if in Ej. by destruct (_ <=? _)%Z.
  - pose proof (current_revision_spec tx recs c id Hr) as Hcur.
    destruct (current_revision tx c id) as [cur|]; simpl in Ha; [|res_inv; congruence]. subst cur.
    rewrite check_precondition_spec in Ha.
    destruct (precondition_holds _ p); simpl in *; [res_inv; done|done].
Qed.

Lemma apply_mutation_ok tx recs m tx' :
  represents (rows tx) recs -> wf_mutation m -> apply_mutation tx m = Ok tx' ->
  exists recs', spec_mutation recs m = Some recs' /\ represents (rows tx') recs'.
Proof.
  intros Hr Hwf Ha. destruct (apply_inner_ok _ _ _ _ _ Hr Hwf Ha) as [Hg Hs].
  rewrite append_only_guard_generic in Hg. unfold spec_mutation. by destruct (is_ledger _).
Qed.

Lemma apply_mutation_conflict tx recs m e :
  represents (rows tx) recs -> apply_mutation tx m = Err e ->
  store_is_conflict e = true -> spec_mutation recs m = None.
Proof.
  intros Hr Ha Hc. unfold spec_mutation. rewrite (apply_inner_conflict _ _ _ _ _ Hr Ha Hc).
  by destruct (is_ledger _).
Qed.

Lemma apply_mutations_ok ms tx recs tx' :
  represents (rows tx) recs -> Forall wf_mutation ms -> try_fold apply_mutation tx ms = Ok tx' ->
  exists recs', spec_mutations recs ms = Some recs' /\ represents (rows tx') recs'.
Proof.
  revert tx recs. induction ms as [|m ms IH]; intros tx recs Hr Hwf Hf; simpl in *; [res_inv; eauto|].
  apply Forall_cons in Hwf as [Hm Hms]. destruct (apply_mutation tx m) as [tx1|] eqn:Em; [|done].
  destruct (apply_mutation_ok _ _ _ _ Hr Hm Em) as (recs1 & -> & Hr1). simpl. eauto.
Qed.

Lemma apply_mutations_conflict ms tx recs e :
  represents (rows tx) recs -> Forall wf_mutation ms -> try_fold apply_mutation tx ms = Err e ->
  store_is_conflict e = true -> spec_mutations recs ms = None.
Proof.
  revert tx recs. induction ms as [|m ms IH]; intros tx recs Hr Hwf Hf Hc; simpl in *; [res_inv|].
  apply Forall_cons in Hwf as [Hm Hms]. destruct (apply_mutation tx m) as [tx1|] eqn:Em.
  - destruct (apply_mutation_ok _ _ _ _ Hr Hm Em) as (recs1 & -> & Hr1). simpl. eauto.
  - res_inv. by rewrite (apply_mutation_conflict _ _ _ _ Hr Em Hc).
Qed.

Lemma apply_inner_err tx m b e : apply_mutation_inner tx m b = Err e -> e <> StUnknownOutcome.
Proof.
  unfold apply_mutation_inner, validate_record, current_revision, check_precondition, corrupt.
  intros Ha. destruct (append_only_guard m b) as [[]|e0] eqn:Eg.
  - destruct m; res_inv; done.
  - destruct m as [[] r []|[] id []], b; simpl in *; res_inv; done.
Qed.

Lemma apply_mutations_err ms tx e : try_fold apply_mutation tx ms = Err e -> e <> StUnknownOutcome.
Proof.
  revert tx. induction ms as [|m ms IH]; intros tx Hf; simpl in Hf; [done|].
  destruct (apply_mutation tx m) as [tx1|] eqn:Em; [eauto|]. res_inv. by eapply apply_inner_err.
Qed.

(** What a transaction does: [tx] is the state the commit publishes.  Either the
    call failed and the connection is the one before, or it committed and was
    acknowledged, or it committed and the acknowledgement was lost. *)
Definition commits {A} (s s' : EmbeddedStore) (r : result StoreError A) (receipt : A) (tx : Db) : Prop :=
  rows (connection s') = rows tx /\ (r = Ok receipt \/ r = Err StUnknownOutcome).

Lemma fail_if_spec p s r s' :
  fail_if p s = (r, s') ->
  connection s' = connection s
  /\ match r with Ok _ => True | Err e => e = StInjected p /\ fault_once s = fault_code p end.
Proof.
  unfold fail_if, take_fault. rewrite stateT_bind_unfold.
  destruct (Z.eqb_spec (fault_once s) (fault_code p)); intros ?; res_inv; auto.
Qed.

Lemma commit_spec {A} conn tx (receipt : A) s r s' :
  commit_and_acknowledge conn tx receipt s = (r, s') ->
  connection s' = connection s
    /\ (exists e, r = Err e /\ store_is_conflict e = false /\ e <> StUnknownOutcome)
  \/ commits s s' r receipt tx.
Proof.
  unfold commit_and_acknowledge, set_connection, take_fault. intros Hc.
  res_step; apply fail_if_spec in E as [Hcn Hf].
  - rewrite stateT_bind_unfold in Hc. unfold lift in Hc.
    destruct (sql_commit conn tx) as [db|] eqn:Ec; simpl in Hc; [|res_inv; left; by eauto].
    apply commit_rows in Ec. right. res_inv; unfold commits; simpl; auto.
  - destruct Hf as [-> _]. res_inv. left. by eauto.
Qed.

(** The common shape of the three transactions: a body over a copy of the
    connection between the fault points. *)
Lemma transaction_spec {A B} (body : Db -> result StoreError A) (commit : Db -> A -> store_m B)
    s r s' :
  (fail_if BeforeTransaction ;;
   conn ← lock;
   tx ← lift (map_err StSqlite (begin_immediate conn));
   x ← lift (body tx);
   commit conn x) s = (r, s') ->
  connection s' = connection s
    /\ (exists e, r = Err e
        /\ (store_is_conflict e = true \/ e = StUnknownOutcome ->
            exists tx, rows tx = rows (connection s) /\ body tx = Err e))
  \/ exists tx x s1, rows tx = rows (connection s) /\ connection s1 = connection s
      /\ body tx = Ok x /\ commit (connection s) x s1 = (r, s').
Proof.
  intros Ht. res_step; apply fail_if_spec in E as [Hcn Hf].
  2:{ destruct Hf as [-> _]. res_inv. left. split; [done|]. eexists. split; [done|]. by intros []. }
  rewrite stateT_bind_unfold in Ht. unfold lock in Ht.
  destruct (poisoned _); [res_inv; left; split; [done|]; eexists; split; [done|]; by intros []|].
  rewrite stateT_bind_unfold in Ht. unfold lift at 1 in Ht. rewrite Hcn in Ht.
  destruct (begin_immediate _) as [tx|] eqn:Eb; simpl in Ht;
    [|res_inv; left; split; [done|]; eexists; split; [done|]; by intros []].
  apply begin_rows in Eb. rewrite stateT_bind_unfold in Ht. unfold lift in Ht.
  destruct (body tx) as [x|] eqn:Ex; [right; eauto 10|].
  res_inv. left. split; [done|]. eauto 10.
Qed.

Lemma transact_spec ms s r s' :
  transact_records ms s = (r, s') ->
  connection s' = connection s
    /\ (exists e, r = Err e /\ e <> StUnknownOutcome
        /\ (store_is_conflict e = true ->
            exists tx, rows tx = rows (connection s) /\ try_fold apply_mutation tx ms = Err e))
  \/ exists tx0 tx, rows tx0 = rows (connection s) /\ try_fold apply_mutation tx0 ms = Ok tx
      /\ commits s s' r (MkCommitReceipt (length ms)) tx.
Proof.
  intros Ht. apply transaction_spec in Ht as [(Hc & e & -> & Hb)|(tx0 & tx & s1 & Hr & Hc & Hb & Ht)].
  - left. split; [done|]. exists e. split; [done|]. split; [|auto].
    intros Hu. destruct Hb as (tx & _ & Hf); [by right|]. by eapply apply_mutations_err in Hf.
  - apply commit_spec in Ht as [(Hc1 & e & -> & Hne & Hnu)|Hcm].
    + left. split; [congruence|]. exists e. split; [done|]. split; [done|]. congruence.
    + right. by exists tx0, tx.
Qed.

(** [list_records] returns the records of the collection in the order of their identifiers. *)
Lemma store_list_ok s recs c rs :
  store_view s recs -> store_list_records s c = Ok rs -> lists_collection recs c rs.
Proof.
  intros Hv Hl. unfold store_list_records in Hl. destruct (poisoned s); [done|]. simpl in Hl.
  destruct (sql_list _ _) as [raws|] eqn:El; simpl in Hl; [|done].
  apply list_rows in El as [Hsort Hin]. apply try_map_Forall2 in Hl.
  assert (Forall2 (fun x y => raw_id x = as_str (rec_id y) /\ recs !! (c, rec_id y) = Some y) raws rs)
    as Hrel.
  { pose proof (proj1 (Forall2_same_length_lookup _ _ _) Hl) as [Hlen Hdec].
    apply Forall2_same_length_lookup. split; [done|]. intros i x y Hx Hy.
    pose proof (Hdec i x y Hx Hy) as Hd. apply list_elem_of_lookup_2, Hin in Hx.
    destruct (represents_lookup _ _ c (MkEntityId (raw_id x)) _ Hv Hx) as (r & Hrec & Hst).
    pose proof (decode_stored c _ _ _ Hst) as Hd'. rewrite Hd in Hd'. injection Hd' as ->.
    destruct Hst as [Hid _]. rewrite Hid. done. }
  split.
  - eapply Forall2_StronglySorted, Hsort; [|exact Hrel].
    intros x x' y y' [Hx _] [Hx' _] Hlt. simpl. by rewrite <- Hx, <- Hx'.
  - intros r. split; intros Hr.
    + apply list_elem_of_lookup in Hr as [i Hi].
      destruct (Forall2_lookup_r _ _ _ _ _ Hrel Hi) as (x & _ & _ & Hrec). done.
    + destruct (represents_lookup_recs _ _ _ _ _ Hv Hr) as (raw & Hraw & Hst).
      assert (raw ∈ raws) as Hx by (apply Hin; by rewrite (rows_key _ _ _ _ Hraw)).
      apply list_elem_of_lookup in Hx as [i Hi].
      destruct (Forall2_lookup_l _ _ _ _ _ Hl Hi) as (y & Hy & Hd).
      rewrite (decode_stored c _ _ _ Hst) in Hd. injection Hd as ->. by eapply list_elem_of_lookup_2.
Qed.

(** [get_record] returns the record of the view. *)
Lemma store_get_ok s recs c id found :
  store_view s recs -> get_record s c id = Ok found -> found = recs !! (c, id).
Proof.
  intros Hv Hg. unfold get_record, read_record in Hg. destruct (poisoned s); [done|].
  destruct (sql_get _ _ _) as [o|] eqn:Eq; simpl in Hg; [|done]. apply get_rows in Eq as ->.
  pose proof (Hv c id) as Hr. destruct Hr as [raw r Hst|]; simpl in Hg; [|by res_inv].
  rewrite (decode_stored c _ _ _ Hst) in Hg. simpl in Hg. by res_inv.
Qed.

(** The embedded store discharges the interface of [StateStoreCore]. *)
#[export] Instance embedded_laws : RepositoryLaws EmbeddedStore.
Proof.
  refine {| repo_view := store_view |}.
  - intros s recs c id r Hv Hl.
    destruct (represents_lookup_recs _ _ _ _ _ Hv Hl) as (raw & _ & Hid & _ & Hwf & Hc & _).
    done.
  - intros s. apply represents_inj.
  - intros s recs ms receipt s' Hv Hwf Ht.
    apply transact_spec in Ht as [(_ & e & ? & _)|(tx0 & tx & Hr & Hf & Hrows & _)]; [done|].
    destruct (apply_mutations_ok ms tx0 recs tx) as (recs' & Hs & Hrep); [by rewrite Hr|done..|].
    exists recs'. split; [done|]. unfold store_view. by rewrite Hrows.
  - intros s recs ms e s' Hv Hwf Ht.
    apply transact_spec in Ht as [(Hc & _)|(tx0 & tx & Hr & Hf & Hrows & [?|[= ->]])]; [|done|].
    + left. unfold store_view. by rewrite Hc.
    + right. split; [done|].
      destruct (apply_mutations_ok ms tx0 recs tx) as (recs' & Hs & Hrep); [by rewrite Hr|done..|].
      exists recs'. split; [done|]. unfold store_view. by rewrite Hrows.
  - intros s recs ms e s' Hv Hwf Ht Hc.
    apply transact_spec in Ht as [(_ & e' & [= <-] & _ & Hconf)|(_ & _ & _ & _ & _ & [?|[= ->]])]; [|done..].
    destruct (Hconf Hc) as (tx & Hr & Hf). eapply (apply_mutations_conflict ms tx); eauto. by rewrite Hr.
  - apply store_list_ok.
  - intros s recs c id found Hv Hg. by eapply store_get_ok.
Defined.
End refinement.
