(* ===== verification/StoreProperties.v ===== *)
(** * Guarantees of the embedded state store

    What callers of [crates/state-store/src/lib.rs] rely on: batches are atomic
    and implement the contract of [StateStoreCore], an accepted batch always
    commits on a working engine, revisions only move forward, the evolution
    ledger is append-only under every operation but the explicit erasure, and a
    record that was written is read back. *)

From Stdlib Require Import ZArith Lia String.
From stdpp Require Import base decidable countable gmap sorting option list relations.
From S2P Require Import Prelude RustStd AgentTypes Json StateStoreCore Sqlite StateStore.

(** ** Facts about the specification *)

Lemma spec_write_frame recs m recs' c id :
  spec_write recs m = Some recs' ->
  (c, id) <> (mutation_collection m, match m with Put _ r _ => rec_id r | Delete _ i _ => i end) ->
  recs' !! (c, id) = recs !! (c, id).
Proof.
  destruct m as [d r p|d i p]; simpl; intros Hs Hne; res_inv.
  - by rewrite lookup_insert_ne.
  - by rewrite lookup_delete_ne.
Qed.

Lemma spec_mutation_ledger recs m recs' c id :
  spec_mutation recs m = Some recs' -> is_ledger c = true -> recs' !! (c, id) = recs !! (c, id).
Proof.
  unfold spec_mutation. destruct (is_ledger (mutation_collection m)) eqn:El; [done|].
  intros Hs Hc. eapply spec_write_frame; [done|]. intros [= -> _]. congruence.
Qed.

Lemma spec_mutations_ledger ms recs recs' c id :
  spec_mutations recs ms = Some recs' -> is_ledger c = true -> recs' !! (c, id) = recs !! (c, id).
Proof.
  revert recs. induction ms as [|m ms IH]; intros recs Hs Hc; simpl in Hs; [by res_inv|].
  destruct (spec_mutation recs m) as [recs1|] eqn:Em; simpl in Hs; [|done].
  rewrite (IH _ Hs Hc). by eapply spec_mutation_ledger.
Qed.

(** [ms] holds no deletion of the record. *)
Definition keeps (c : Collection) (id : EntityId) (ms : list RecordMutation) : Prop :=
  Forall (fun m => match m with Put _ _ _ => True | Delete d i _ => (d, i) <> (c, id) end) ms.

(** The record is as it was, or has a larger revision. *)
Definition moved_forward (before after : VersionedRecord) : Prop :=
  after = before
  \/ (revision_get (rec_revision before) < revision_get (rec_revision after))%Z.

Lemma spec_mutations_forward ms recs recs' c id r :
  spec_mutations recs ms = Some recs' -> keeps c id ms -> recs !! (c, id) = Some r ->
  exists r', recs' !! (c, id) = Some r' /\ moved_forward r r'.
Proof.
  revert recs r. induction ms as [|m ms IH]; intros recs r Hs Hk Hr; simpl in Hs.
  { res_inv. exists r. split; [done|by left]. }
  apply Forall_cons in Hk as [Hm Hk].
  destruct (spec_mutation recs m) as [recs1|] eqn:Em; simpl in Hs; [|done].
  unfold spec_mutation in Em. destruct (is_ledger _); [done|].
  destruct (decide ((c, id) = (mutation_collection m,
    match m with Put _ q _ => rec_id q | Delete _ i _ => i end))) as [Heq|Hne].
  - destruct m as [d q p|d i p]; simpl in *; injection Heq as -> ->; [|done].
    rewrite Hr in Em. unfold put_admitted in Em. simpl in Em.
    destruct (precondition_holds _ p); simpl in Em; [|done].
    destruct (Z.ltb_spec (revision_get (rec_revision r)) (revision_get (rec_revision q))); [|done].
    res_inv. destruct (IH _ (canonical_record q) Hs Hk) as (r' & Hr' & [->|Hlt]);
      [by rewrite lookup_insert_eq|..].
    + exists (canonical_record q). split; [done|]. by right.
    + exists r'. split; [done|]. right. simpl in Hlt. lia.
  - rewrite <- (spec_write_frame _ _ _ _ _ Em Hne) in Hr. by eapply IH.
Qed.

(** ** The engine at work

    An engine none of whose statements fails, and the mutations the store can
    write: supported schema, a revision SQLite can hold, an encodable payload. *)

Record SqliteWorks `{Sqlite} : Prop := {
  begin_works : forall d, is_ok (begin_immediate d) = true;
  commit_works : forall d t, is_ok (sql_commit d t) = true;
  upsert_works : forall t c r, is_ok (sql_upsert t c r) = true;
  delete_works : forall t c i, is_ok (sql_delete t c i) = true;
  revision_works : forall t c i, is_ok (sql_revision t c i) = true
}.

Definition writable `{SerdeJson} (m : RecordMutation) : Prop :=
  match m with
  | Put _ r _ => schema_supported r /\ (revision_get (rec_revision r) <= i64_max)%Z
                 /\ is_ok (canonical_json_bytes (rec_payload r)) = true
  | Delete _ _ _ => True
  end.

Lemma is_ok_Ok {E A} (r : result E A) : is_ok r = true -> exists a, r = Ok a.
Proof. destruct r; [eauto|done]. Qed.

(** Maps whose keys correspond under an injection have the same size. *)
Lemma map_size_bij {K L A B} `{Countable K, Countable L} (f : L -> K) `{!Inj (=) (=) f}
    (m : gmap K A) (n : gmap L B) :
  (forall k, is_Some (m !! k) <-> exists l, k = f l /\ is_Some (n !! l)) -> size m = size n.
Proof.
  intros Hmn. rewrite <- !length_map_to_list.
  rewrite <- (length_fmap fst (map_to_list m)), <- (length_fmap fst (map_to_list n)).
  rewrite <- (length_fmap f (map_to_list n).*1). apply Permutation_length.
  apply NoDup_Permutation.
  - apply NoDup_fst_map_to_list.
  - apply (NoDup_fmap_2 f), NoDup_fst_map_to_list.
  - intros k. rewrite !list_elem_of_fmap. split.
    + intros ([k' a] & -> & Ha). apply elem_of_map_to_list in Ha.
      destruct (proj1 (Hmn k')) as (l & -> & [b Hb]); [by eexists|].
      exists l. split; [done|]. apply list_elem_of_fmap. exists (l, b).
      split; [done|]. by apply elem_of_map_to_list.
    + intros (l & -> & ([l' b] & -> & Hb)%list_elem_of_fmap). apply elem_of_map_to_list in Hb.
      destruct (proj2 (Hmn (f l'))) as [a Ha]; [exists l'; eauto|].
      exists (f l', a). split; [done|]. by apply elem_of_map_to_list.
Qed.

Definition row_key (k : Collection * EntityId) : rstr * rstr := (collection_as_str k.1, as_str k.2).

#[export] Instance row_key_injective : Inj (=) (=) row_key.
Proof. intros [c id] [d id'] Heq. by apply row_key_inj. Qed.

(** The records of one collection. *)
Definition collection_of (c : Collection) (recs : Records) : Records := filter (fun p => p.1.1 = c) recs.

Section properties.
Context `{HU : Ulid, HJ : SerdeJson, HS : Sqlite, HL : !SqliteLaws}.

Lemma current_revision_works tx recs c id :
  SqliteWorks -> represents (rows tx) recs ->
  current_revision tx c id = Ok (rec_revision <$> recs !! (c, id)).
Proof.
  intros Hw Hr. pose proof (current_revision_spec tx recs c id Hr) as Hc.
  destruct (current_revision tx c id) as [cur|e] eqn:Ec; [by subst|].
  unfold current_revision in Ec.
  destruct (is_ok_Ok _ (revision_works Hw tx (collection_as_str c) (as_str id))) as [o Ho].
  rewrite Ho in Ec. simpl in Ec. apply revision_rows in Ho as ->. specialize (Hr c id).
  destruct Hr as [raw r (_ & Hrow & Hwf & _)|]; simpl in Ec; [|done].
  unfold row_of in Hrow. destruct (canonical_json_bytes _); [|done]. injection Hrow as <-.
  destruct Hwf as (_&_&_&[H0 H1]&_). unfold u64_try_from in Ec. simpl in Ec.
  by rewrite (proj2 (Z.leb_le _ _) H0), (proj2 (Z.leb_le _ _) H1) in Ec.
Qed.

Lemma apply_mutation_works tx recs m recs' :
  SqliteWorks -> represents (rows tx) recs -> wf_mutation m -> writable m ->
  spec_mutation recs m = Some recs' -> exists tx', apply_mutation tx m = Ok tx'.
Proof.
  intros Hw Hr Hwf Hm Hs. unfold apply_mutation, apply_mutation_inner.
  rewrite append_only_guard_generic. unfold spec_mutation in Hs.
  destruct (is_ledger _); [done|]. simpl. destruct m as [c r p|c id p]; simpl in Hs.
  - destruct Hm as (Hsup & Hle & Henc). apply (validate_record_ok c) in Hsup as ->. simpl.
    rewrite (current_revision_works tx recs) by done. simpl.
    rewrite check_precondition_spec. unfold put_admitted in Hs.
    destruct (precondition_holds _ p); simpl in *; [|done].
    apply is_ok_Ok in Henc as [bytes ->]. destruct Hwf as (_&_&_&[H0 _]&_).
    rewrite (proj2 (i64_try_from_Some _ (revision_get (rec_revision r)))).
    2:{ split; [done|]. split; [unfold i64_min; lia|done]. }
    destruct (is_ok_Ok _ (upsert_works Hw tx (collection_as_str c)
      (MkRawRecord (as_str (rec_id r)) (sv_major (rec_version r)) (sv_minor (rec_version r))
         (revision_get (rec_revision r)) (unix_millis (rec_updated_at r)) bytes))) as [t Ht].
    destruct (recs !! _) as [old|]; simpl in *; [|rewrite Ht; by eauto].
    rewrite Z.ltb_antisym in Hs. destruct (_ <=? _)%Z; simpl in *; [done|]. rewrite Ht. by eauto.
  - rewrite (current_revision_works tx recs) by done. simpl.
    rewrite check_precondition_spec. destruct (precondition_holds _ p); simpl in *; [|done].
    destruct (is_ok_Ok _ (delete_works Hw tx (collection_as_str c) (as_str id))) as [t ->]. by eauto.
Qed.

Lemma apply_mutations_works ms tx recs recs' :
  SqliteWorks -> represents (rows tx) recs -> Forall wf_mutation ms -> Forall writable ms ->
  spec_mutations recs ms = Some recs' -> exists tx', try_fold apply_mutation tx ms = Ok tx'.
Proof.
  intros Hw. revert tx recs. induction ms as [|m ms IH]; intros tx recs Hr Hwf Hm Hs; simpl in *; [eauto|].
  apply Forall_cons in Hwf as [? ?], Hm as [? ?].
  destruct (spec_mutation recs m) as [recs1|] eqn:Em; simpl in Hs; [|done].
  destruct (apply_mutation_works tx recs m recs1) as [tx1 Ht]; [done..|]. rewrite Ht.
  destruct (apply_mutation_ok _ _ _ _ Hr H Ht) as (recs2 & Hs2 & Hr2).
  rewrite Em in Hs2. injection Hs2 as <-. eauto.
Qed.

(** ** The evolution ledger *)

(** The commits of an append: one new ledger record, and a head that replaces
    exactly the head its precondition names. *)
Definition appended (recs recs' : Records) (record head : VersionedRecord) (p : WritePrecondition) : Prop :=
  rec_id head = entity_id_from_u128 0
  /\ recs !! (EvolutionLedger, rec_id record) = None
  /\ p <> PreAny
  /\ put_admitted (rec_revision <$> recs !! (EvolutionLedgerHead, rec_id head)) head p = true
  /\ recs' = <[(EvolutionLedgerHead, rec_id head) := canonical_record head]>
               (<[(EvolutionLedger, rec_id record) := canonical_record record]> recs).

Lemma append_body_ok tx recs record head p tx' :
  represents (rows tx) recs -> wf_record record -> wf_record head ->
  rec_id head = entity_id_from_u128 0 -> evolution_append_body record head p tx = Ok tx' ->
  exists recs', appended recs recs' record head p /\ represents (rows tx') recs'.
Proof.
  intros Hr Hwr Hwh Hid Hb. unfold evolution_append_body in Hb.
  destruct (apply_mutation_inner tx _ true) as [tx1|] eqn:E1; simpl in Hb; [|done].
  apply (apply_inner_ok _ recs) in E1 as (_ & recs1 & Hs1 & Hr1); [|done..].
  apply (apply_inner_ok _ recs1) in Hb as (Hg & recs2 & Hs2 & Hr2); [|done..].
  simpl in Hs1, Hs2, Hg. exists recs2. split; [|done]. unfold put_admitted in Hs1. simpl in Hs1.
  destruct (recs !! (EvolutionLedger, rec_id record)) eqn:El; simpl in Hs1; [done|].
  injection Hs1 as <-. rewrite lookup_insert_ne in Hs2 by done.
  destruct (put_admitted _ head p) eqn:Ep; [|done]. injection Hs2 as <-.
  repeat split; try done. by intros ->.
Qed.

Lemma append_spec record head p s r s' recs :
  store_view s recs -> wf_record record -> wf_record head ->
  transact_evolution_append record head p s = (r, s') ->
  (connection s' = connection s /\ exists e, r = Err e /\ e <> StUnknownOutcome)
  \/ exists recs', appended recs recs' record head p /\ store_view s' recs'
      /\ (r = Ok (MkCommitReceipt 2) \/ r = Err StUnknownOutcome).
Proof.
  intros Hv Hwr Hwh Ht. unfold transact_evolution_append in Ht. case_bool_decide as Hid; simpl in Ht.
  2:{ res_inv. left. split; [done|]. by eexists. }
  apply transaction_spec in Ht as [(Hc & e & -> & Hb)|(tx0 & tx & s1 & Hr & Hc & Hb & Ht)].
  - left. split; [done|]. exists e. split; [done|]. intros ->.
    destruct Hb as (tx & _ & Hf); [by right|]. unfold evolution_append_body in Hf.
    destruct (apply_mutation_inner tx _ true) eqn:E1; simpl in Hf; [|injection Hf as ->];
      by eapply apply_inner_err.
  - destruct (append_body_ok tx0 recs record head p tx) as (recs' & Ha & Hrep); [by rewrite Hr|done..|].
    apply commit_spec in Ht as [(Hc1 & e & -> & _ & Hnu)|[Hrows Hor]].
    + left. split; [congruence|]. by exists e.
    + right. exists recs'. split; [done|]. split; [|done]. unfold store_view. by rewrite Hrows.
Qed.

(** ** Erasure *)

Lemma represents_count rw recs c :
  represents rw recs -> size (in_collection (collection_as_str c) rw) = size (collection_of c recs).
Proof.
  intros Hr. apply (map_size_bij row_key). intros [k i]. unfold in_collection, collection_of. split.
  - intros [raw [Hraw Hk]%map_lookup_filter_Some]. simpl in Hk. subst k.
    destruct (represents_lookup _ _ c (MkEntityId i) _ Hr Hraw) as (r & Hrec & _).
    exists (c, MkEntityId i). split; [done|]. exists r. by apply map_lookup_filter_Some.
  - intros ([d id] & [= -> ->] & [r [Hrec Hd]%map_lookup_filter_Some]). simpl in Hd. subst d.
    destruct (represents_lookup_recs _ _ _ _ _ Hr Hrec) as (raw & Hraw & _).
    exists raw. by apply map_lookup_filter_Some.
Qed.

Lemma represents_delete_collection rw recs c :
  represents rw recs ->
  represents (filter (fun p => p.1.1 <> collection_as_str c) rw) (filter (fun p => p.1.1 <> c) recs).
Proof.
  intros Hr d id. specialize (Hr d id). rewrite !map_lookup_filter.
  destruct Hr as [raw r Hst|]; simpl; [|constructor].
  destruct (decide (d = c)) as [->|Hne].
  - rewrite !option_guard_False by naive_solver. constructor.
  - rewrite !option_guard_True; [by constructor|naive_solver|].
    simpl. by intros ?%collection_as_str_inj.
Qed.

(** The records without the ledger and its head. *)
Definition without_ledger (recs : Records) : Records := filter (fun p => is_ledger p.1.1 = false) recs.

Lemma is_ledger_false c : is_ledger c = false <-> c <> EvolutionLedger /\ c <> EvolutionLedgerHead.
Proof. destruct c; simpl; split; try done; by intros [? ?]. Qed.

Lemma erasure_body_ok tx recs tx' report :
  represents (rows tx) recs -> ledger_erasure_body tx = Ok (tx', report) ->
  represents (rows tx') (without_ledger recs)
  /\ report = MkErasureReport (size (collection_of EvolutionLedger recs))
                (size (collection_of EvolutionLedgerHead recs)) 0 0.
Proof.
  intros Hr Hb. unfold ledger_erasure_body in Hb.
  destruct (sql_delete_collection tx _) as [[n tx1]|] eqn:E1; simpl in Hb; [|done].
  apply delete_collection_rows in E1 as [-> Hrows1].
  pose proof (represents_delete_collection _ _ EvolutionLedger Hr) as Hr1. rewrite <- Hrows1 in Hr1.
  destruct (sql_delete_collection tx1 _) as [[n' tx2]|] eqn:E2; simpl in Hb; [|done].
  apply delete_collection_rows in E2 as [-> Hrows2].
  pose proof (represents_delete_collection _ _ EvolutionLedgerHead Hr1) as Hr2. rewrite <- Hrows2 in Hr2.
  destruct (collection_record_count tx2 EvolutionLedger) as [a|]; simpl in Hb; [|done].
  destruct (collection_record_count tx2 EvolutionLedgerHead) as [b|]; simpl in Hb; [|done].
  destruct (Nat.eqb_spec a 0); simpl in Hb; [|done].
  destruct (Nat.eqb_spec b 0); simpl in Hb; [|done]. res_inv. split.
  - replace (without_ledger recs) with
      (filter (fun p => p.1.1 <> EvolutionLedgerHead) (filter (fun p => p.1.1 <> EvolutionLedger) recs));
      [done|].
    unfold without_ledger. rewrite map_filter_filter. apply map_filter_ext. intros [c i] r _. simpl.
    rewrite is_ledger_false. tauto.
  - rewrite (represents_count _ _ EvolutionLedger Hr), (represents_count _ _ EvolutionLedgerHead Hr1).
    f_equal. unfold collection_of. rewrite map_filter_filter. f_equal.
    apply map_filter_ext. intros [c i] r _. simpl. naive_solver.
Qed.
End properties.

(** ** Steps of a store

    Every operation that may write, other than the explicit erasure. *)
Inductive ledger_step `{Ulid, SerdeJson, Sqlite} : EmbeddedStore -> EmbeddedStore -> Prop :=
| step_transact ms r s s' :
    Forall wf_mutation ms -> transact_records ms s = (r, s') -> ledger_step s s'
| step_append record head p r s s' :
    wf_record record -> wf_record head ->
    transact_evolution_append record head p s = (r, s') -> ledger_step s s'
| step_fault point s : ledger_step s (inject_fault_once point s).

(** Every ledger record is kept and no head moves back. *)
Definition ledger_extends (recs recs' : Records) : Prop :=
  (forall id r, recs !! (EvolutionLedger, id) = Some r -> recs' !! (EvolutionLedger, id) = Some r)
  /\ (forall id h, recs !! (EvolutionLedgerHead, id) = Some h ->
      exists h', recs' !! (EvolutionLedgerHead, id) = Some h' /\ moved_forward h h').

#[export] Instance moved_forward_preorder : PreOrder moved_forward.
Proof.
  split; [by left|]. intros r1 r2 r3 [->|H12] [->|H23]; try (by left); right; lia.
Qed.

#[export] Instance ledger_extends_preorder : PreOrder ledger_extends.
Proof.
  split.
  - intros recs. split; [done|]. intros id h Hh. exists h. split; [done|reflexivity].
  - intros r1 r2 r3 [Hl1 Hh1] [Hl2 Hh2]. split; [auto|]. intros id h Hh.
    destruct (Hh1 id h Hh) as (h1 & Hl & Hm). destruct (Hh2 id h1 Hl) as (h2 & Hl' & Hm').
    exists h2. split; [done|]. by etransitivity.
Qed.

Lemma spec_mutations_extends ms recs recs' :
  spec_mutations recs ms = Some recs' -> ledger_extends recs recs'.
Proof.
  intros Hs. split.
  - intros id r Hr. by rewrite (spec_mutations_ledger ms recs recs').
  - intros id h Hh. exists h. split; [by rewrite (spec_mutations_ledger ms recs recs')|reflexivity].
Qed.

Lemma appended_extends `{Ulid} recs recs' record head p :
  appended recs recs' record head p -> ledger_extends recs recs'.
Proof.
  intros (Hid & Hnew & Hp & Hadm & ->). split.
  - intros id r Hr. rewrite lookup_insert_ne by done.
    rewrite lookup_insert_ne; [done|]. intros [= <-]. congruence.
  - intros id h Hh. destruct (decide (id = rec_id head)) as [->|Hne].
    + rewrite lookup_insert_eq. eexists. split; [done|]. right. unfold put_admitted in Hadm.
      rewrite Hh in Hadm. simpl in *. bool_inv. done.
    + rewrite !lookup_insert_ne by congruence. exists h. split; [done|reflexivity].
Qed.

Section claims.
Context `{HU : Ulid, HJ : SerdeJson, HS : Sqlite, HL : !SqliteLaws}.

Lemma store_view_unchanged s s' recs :
  store_view s recs -> connection s' = connection s -> store_view s' recs.
Proof. unfold store_view. by intros ? ->. Qed.

Lemma transact_committed ms s s' r recs :
  store_view s recs -> Forall wf_mutation ms -> transact_records ms s = (r, s') ->
  match r with
  | Ok receipt =>
      applied_mutations receipt = length ms
      /\ exists recs', spec_mutations recs ms = Some recs' /\ store_view s' recs'
  | Err StUnknownOutcome => exists recs', spec_mutations recs ms = Some recs' /\ store_view s' recs'
  | Err e =>
      connection s' = connection s
      /\ (store_is_conflict e = true -> spec_mutations recs ms = None)
  end.
Proof.
  intros Hv Hwf Ht.
  apply transact_spec in Ht as [(Hc & e & -> & Hne & Hconf)|(tx0 & tx & Hr & Hf & Hrows & Hor)].
  - assert (store_is_conflict e = true -> spec_mutations recs ms = None) as Hnone.
    { intros Hcf. destruct (Hconf Hcf) as (tx & Hr & Hf).
      eapply (apply_mutations_conflict ms tx); eauto. by rewrite Hr. }
    destruct e; try done; by split.
  - destruct (apply_mutations_ok ms tx0 recs tx) as (recs' & Hs & Hrep); [by rewrite Hr|done..|].
    assert (store_view s' recs') by (unfold store_view; by rewrite Hrows).
    destruct Hor as [->| ->]; eauto.
Qed.

Lemma ledger_step_extends s s' recs :
  ledger_step s s' -> store_view s recs ->
  exists recs', store_view s' recs' /\ ledger_extends recs recs'.
Proof.
  destruct 1 as [ms r s s' Hwf Ht|record head p r s s' Hwr Hwh Ht|point s]; intros Hv.
  - pose proof (transact_committed ms s s' r recs Hv Hwf Ht) as Hc. destruct r as [receipt|e].
    + destruct Hc as (_ & recs' & Hs & Hv'). exists recs'. split; [done|by eapply spec_mutations_extends].
    + destruct e; try (exists recs; split; [by eapply store_view_unchanged, Hc|reflexivity]).
      destruct Hc as (recs' & Hs & Hv'). exists recs'. split; [done|by eapply spec_mutations_extends].
  - apply (append_spec _ _ _ _ _ _ recs) in Ht as [[Hc _]|(recs' & Ha & Hv' & _)]; [..|done|done|done].
    + exists recs. split; [by eapply store_view_unchanged|reflexivity].
    + exists recs'. split; [done|by eapply appended_extends].
  - exists recs. split; [done|reflexivity].
Qed.

(** C3: [transact_records] is atomic and implements the contract: when it
    returns a receipt, or reports that the outcome of the commit is unknown,
    every mutation of the batch was applied in order; on every other error the
    database is the one before the call, and a reported conflict means that the
    contract refuses the batch. *)
Theorem transact_refines_contract ms s s' r recs :
  store_view s recs -> Forall wf_mutation ms -> transact_records ms s = (r, s') ->
  match r with
  | Ok receipt =>
      applied_mutations receipt = length ms
      /\ exists recs', spec_mutations recs ms = Some recs' /\ store_view s' recs'
  | Err StUnknownOutcome => exists recs', spec_mutations recs ms = Some recs' /\ store_view s' recs'
  | Err e =>
      connection s' = connection s
      /\ (store_is_conflict e = true -> spec_mutations recs ms = None)
  end.
Proof. apply transact_committed. Qed.

(** On an engine that works, with no armed fault, a batch that the contract
    accepts commits: the store refuses nothing the contract allows. *)
Theorem transact_accepts_contract ms s recs recs' :
  SqliteWorks -> poisoned s = false -> fault_once s = 0%Z -> store_view s recs ->
  Forall wf_mutation ms -> Forall writable ms -> spec_mutations recs ms = Some recs' ->
  exists s', transact_records ms s = (Ok (MkCommitReceipt (length ms)), s') /\ store_view s' recs'.
Proof.
  intros Hw Hp Hf Hv Hwf Hm Hs.
  destruct (is_ok_Ok _ (begin_works Hw (connection s))) as [tx0 Hb].
  assert (represents (rows tx0) recs) as Hr0 by by rewrite (begin_rows _ _ Hb).
  destruct (apply_mutations_works ms tx0 recs recs' Hw Hr0 Hwf Hm Hs) as [tx Ht].
  destruct (is_ok_Ok _ (commit_works Hw (connection s) tx)) as [db Hc].
  assert (exists s', transact_records ms s = (Ok (MkCommitReceipt (length ms)), s')) as [s' Hs'].
  { unfold transact_records, fail_if, take_fault, lock, commit_and_acknowledge, set_connection, lift.
    rewrite !stateT_bind_unfold, Hf. simpl. rewrite !stateT_bind_unfold. rewrite Hp.
    rewrite !stateT_bind_unfold, Hb. simpl. rewrite !stateT_bind_unfold, Ht. simpl.
    rewrite !stateT_bind_unfold. unfold fail_if, take_fault. rewrite !stateT_bind_unfold, Hf. simpl.
    rewrite !stateT_bind_unfold, Hc. simpl. rewrite !stateT_bind_unfold. unfold modify.
    rewrite !stateT_bind_unfold. simpl. rewrite Hf. simpl. by eexists. }
  exists s'. split; [done|].
  destruct (transact_committed ms s s' _ recs Hv Hwf Hs') as (_ & recs2 & Hs2 & Hv2).
  rewrite Hs in Hs2. by injection Hs2 as ->.
Qed.

(** C4: The evolution ledger is append-only: whatever sequence of transactions,
    ledger appends and faults runs, every ledger record that was present stays
    as it is and the ledger head is unchanged or has moved to a larger
    revision. *)
Theorem ledger_append_only s s' recs :
  rtc ledger_step s s' -> store_view s recs ->
  exists recs', store_view s' recs' /\ ledger_extends recs recs'.
Proof.
  intros Hrtc. revert recs. induction Hrtc as [s|s1 s2 s3 Hstep _ IH]; intros recs Hv.
  { exists recs. split; [done|reflexivity]. }
  destruct (ledger_step_extends _ _ _ Hstep Hv) as (recs1 & Hv1 & He1).
  destruct (IH _ Hv1) as (recs2 & Hv2 & He2). exists recs2. split; [done|]. by etransitivity.
Qed.

(** Revisions move forward: a record that a committed batch does not delete
    is unchanged or has a larger revision afterwards. *)
Theorem revisions_move_forward ms s s' receipt recs c id r :
  store_view s recs -> Forall wf_mutation ms -> transact_records ms s = (Ok receipt, s') ->
  keeps c id ms -> recs !! (c, id) = Some r ->
  exists recs' r', store_view s' recs' /\ recs' !! (c, id) = Some r' /\ moved_forward r r'.
Proof.
  intros Hv Hwf Ht Hk Hr.
  destruct (transact_committed ms s s' _ recs Hv Hwf Ht) as (_ & recs' & Hs & Hv').
  destruct (spec_mutations_forward ms recs recs' c id r Hs Hk Hr) as (r' & Hr' & Hm). eauto.
Qed.

(** What was written is read back: after [put_record] returned a receipt,
    [get_record] gives the record with its payload in canonical form; it can
    only fail because the lock is poisoned or the engine fails, never because
    the row does not decode. *)
Theorem put_then_get c r p s s' receipt recs :
  store_view s recs -> wf_record r -> put_record c r p s = (Ok receipt, s') ->
  match get_record s' c (rec_id r) with
  | Ok found => found = Some (canonical_record r)
  | Err e => e = StLockPoisoned \/ exists x, e = StSqlite x
  end.
Proof.
  intros Hv Hwf Hput. unfold put_record in Hput.
  apply (transact_committed [Put c r p] s s' _ recs Hv) in Hput as (_ & recs' & Hs & Hv');
    [|by apply Forall_singleton].
  simpl in Hs. unfold spec_mutation in Hs. simpl in Hs. destruct (is_ledger c); [done|].
  destruct (put_admitted _ r p); simpl in Hs; [|done]. injection Hs as <-.
  destruct (represents_lookup_recs _ _ c (rec_id r) _ Hv' (lookup_insert_eq _ _ _)) as (raw & Hraw & Hst).
  unfold get_record, read_record. destruct (poisoned s'); [by left|].
  destruct (sql_get _ _ _) as [o|x] eqn:Eg; simpl; [|right; by eexists].
  apply get_rows in Eg as ->. rewrite Hraw. by rewrite (decode_stored c _ _ _ Hst).
Qed.

(** Erasing the ledger removes exactly the ledger and its heads and reports
    how many of each there were; when it fails with anything but an unknown
    outcome, the database is the one before the call. *)
Theorem erasure_exact s s' r recs :
  store_view s recs -> transact_evolution_ledger_erasure s = (r, s') ->
  match r with
  | Ok report =>
      store_view s' (without_ledger recs)
      /\ report = MkErasureReport (size (collection_of EvolutionLedger recs))
                    (size (collection_of EvolutionLedgerHead recs)) 0 0
  | Err StUnknownOutcome => store_view s' (without_ledger recs)
  | Err _ => connection s' = connection s
  end.
Proof.
  intros Hv Ht. unfold transact_evolution_ledger_erasure in Ht.
  apply transaction_spec in Ht as [(Hc & e & -> & Hb)|(tx0 & [tx report] & s1 & Hr & Hc & Hb & Ht)].
  - destruct e; try done. destruct Hb as (tx & _ & Hf); [by right|].
    unfold ledger_erasure_body, collection_record_count in Hf. res_inv; done.
  - destruct (erasure_body_ok tx0 recs tx report) as [Hrep ->]; [by rewrite Hr|done|]. simpl in Ht.
    apply commit_spec in Ht as [(Hc1 & e & -> & _ & Hnu)|[Hrows Hor]].
    + destruct e; congruence.
    + assert (store_view s' (without_ledger recs)) by (unfold store_view; by rewrite Hrows).
      destruct Hor as [->| ->]; auto.
Qed.

(** The typed repositories are isolated from each other and from the ledger:
    a put or delete through one of them changes no record that another one, or
    the ledger, holds. *)
Theorem typed_repositories_isolated t u s s' m receipt recs :
  store_view s recs -> wf_mutation m -> mutation_collection m = implement_repository t ->
  transact_records [m] s = (Ok receipt, s') ->
  exists recs', store_view s' recs'
    /\ (u <> t -> forall id, recs' !! (implement_repository u, id) = recs !! (implement_repository u, id))
    /\ (forall c id, is_ledger c = true -> recs' !! (c, id) = recs !! (c, id)).
Proof.
  intros Hv Hwf Hm Ht.
  apply (transact_committed [m] s s' _ recs Hv) in Ht as (_ & recs' & Hs & Hv'); [|by apply Forall_singleton].
  exists recs'. split; [done|]. split.
  - intros Hne id. simpl in Hs. destruct (spec_mutation recs m) as [recs1|] eqn:Em; [|done].
    simpl in Hs. injection Hs as <-. unfold spec_mutation in Em. destruct (is_ledger _); [done|].
    eapply spec_write_frame; [done|]. rewrite Hm. intros [= Hu _]. by destruct t, u.
  - intros c id. by eapply spec_mutations_ledger.
Qed.
End claims.

(** ** Closed examples, over the engine of finite maps *)

#[local] Existing Instance crockford_ulid.
#[local] Existing Instance token_json.
#[local] Existing Instance memory_sqlite.
#[local] Existing Instance memory_laws.

Definition ok_with {S E A} (holds : A -> bool) (p : result E A * S) : bool :=
  match p.1 with Ok a => holds a | Err _ => false end.

Lemma ok_with_receipt {S E} (p : result E CommitReceipt * S) n :
  ok_with (fun receipt => applied_mutations receipt =? n)%nat p = true ->
  p = (Ok (MkCommitReceipt n), p.2).
Proof.
  destruct p as [[[m]|e] s]; unfold ok_with; simpl; [|done].
  by intros ->%Nat.eqb_eq.
Qed.

Lemma ok_with_report {S E} (p : result E EvolutionLedgerErasureReport * S) a b c d :
  ok_with (fun r => (deleted_records r =? a) && (deleted_heads r =? b)
                    && (remaining_records r =? c) && (remaining_heads r =? d))%nat p = true ->
  p = (Ok (MkErasureReport a b c d), p.2).
Proof.
  destruct p as [[[a' b' c' d']|e] s]; unfold ok_with; simpl; [|done].
  intros H. bool_inv. by repeat match goal with H : (_ =? _)%nat = true |- _ => apply Nat.eqb_eq in H as -> end.
Qed.

Definition empty_store : EmbeddedStore := from_connection (∅ : Memory).

Definition sample_record (id revision : Z) : VersionedRecord :=
  MkVersionedRecord CURRENT_SCHEMA_VERSION (entity_id_from_u128 id) (MkRevision revision)
    (MkUtcTimestamp 0) sample_document.

Lemma empty_store_view : store_view empty_store ∅.
Proof. intros c id. rewrite lookup_empty. constructor. Qed.

Lemma memory_works : SqliteWorks.
Proof. by split. Qed.

Lemma sample_record_wf id revision :
  (0 <= id < 2 ^ 128)%Z -> is_u64 revision -> wf_record (sample_record id revision).
Proof.
  intros Hid Hrev. split; [by exists id|]. do 2 (split; [simpl; unfold u16_max; lia|]). split; [done|].
  split; [simpl; unfold is_i64, i64_min, i64_max; lia|]. split; [apply sample_distinct|reflexivity].
Qed.

Lemma sample_record_writable c id revision p :
  (revision <= i64_max)%Z -> writable (Put c (sample_record id revision) p).
Proof. intros Hle. split; [split; simpl; [done|lia]|]. split; [done|reflexivity]. Qed.

Definition sample_batch : list RecordMutation :=
  [Put Goals (sample_record 1 1) PreMissing; Put Plans (sample_record 2 4) PreAny;
   Put Goals (sample_record 1 2) (PreExact (MkRevision 1)); Delete Plans (entity_id_from_u128 2) PreAny].

Lemma sample_batch_wf : Forall wf_mutation sample_batch.
Proof.
  repeat (apply Forall_cons; split; [try done; apply sample_record_wf; unfold is_u64, u64_max; lia|]).
  by apply Forall_nil.
Qed.

Lemma transact_refines_contract_witness :
  exists recs', spec_mutations ∅ sample_batch = Some recs'
    /\ store_view (transact_records sample_batch empty_store).2 recs'.
Proof.
  destruct (transact_refines_contract sample_batch empty_store
    (transact_records sample_batch empty_store).2 (Ok (MkCommitReceipt 4)) ∅) as [_ H].
  - apply empty_store_view.
  - apply sample_batch_wf.
  - apply ok_with_receipt. vm_compute. reflexivity.
  - exact H.
Defined.

Lemma transact_accepts_contract_witness :
  exists s', transact_records sample_batch empty_store = (Ok (MkCommitReceipt 4), s')
    /\ store_view s' {[(Goals, entity_id_from_u128 1) := canonical_record (sample_record 1 2)]}.
Proof.
  apply (transact_accepts_contract sample_batch empty_store ∅).
  - apply memory_works.
  - reflexivity.
  - reflexivity.
  - apply empty_store_view.
  - apply sample_batch_wf.
  - repeat (apply Forall_cons; split; [try done; apply sample_record_writable; unfold i64_max; lia|]).
    by apply Forall_nil.
  - refine (bool_decide_eq_true_1 _ _). vm_compute. reflexivity.
Defined.

Definition appended_store : EmbeddedStore :=
  (transact_evolution_append (sample_record 7 0) (sample_record 0 1) PreMissing empty_store).2.

Lemma appended_step : ledger_step empty_store appended_store.
Proof.
  eapply (step_append (sample_record 7 0) (sample_record 0 1) PreMissing (Ok (MkCommitReceipt 2))).
  - apply sample_record_wf; unfold is_u64, u64_max; lia.
  - apply sample_record_wf; unfold is_u64, u64_max; lia.
  - apply ok_with_receipt. vm_compute. reflexivity.
Qed.

Lemma ledger_append_only_witness :
  exists recs', store_view (inject_fault_once AfterCommit appended_store) recs'
    /\ ledger_extends ∅ recs'.
Proof.
  apply (ledger_append_only empty_store).
  - eapply rtc_l; [apply appended_step|]. eapply rtc_l; [apply step_fault|]. apply rtc_refl.
  - apply empty_store_view.
Defined.

Definition goal_store : EmbeddedStore :=
  (put_record Goals (sample_record 1 1) PreMissing empty_store).2.

Lemma goal_store_view :
  store_view goal_store {[(Goals, entity_id_from_u128 1) := canonical_record (sample_record 1 1)]}.
Proof.
  destruct (transact_committed [Put Goals (sample_record 1 1) PreMissing] empty_store goal_store
    (Ok (MkCommitReceipt 1)) ∅) as (_ & recs' & Hs & Hv).
  - apply empty_store_view.
  - apply Forall_singleton, sample_record_wf; unfold is_u64, u64_max; lia.
  - apply ok_with_receipt. vm_compute. reflexivity.
  - replace {[_ := _]} with recs'; [exact Hv|]. apply (inj Some). rewrite <- Hs.
    refine (bool_decide_eq_true_1 _ _). vm_compute. reflexivity.
Qed.

Lemma revisions_move_forward_witness :
  exists recs' r',
    store_view (put_record Goals (sample_record 1 5) (PreExact (MkRevision 1)) goal_store).2 recs'
    /\ recs' !! (Goals, entity_id_from_u128 1) = Some r'
    /\ moved_forward (canonical_record (sample_record 1 1)) r'.
Proof.
  eapply (revisions_move_forward [Put Goals (sample_record 1 5) (PreExact (MkRevision 1))] goal_store
    _ (MkCommitReceipt 1)).
  - apply goal_store_view.
  - apply Forall_singleton, sample_record_wf; unfold is_u64, u64_max; lia.
  - apply ok_with_receipt. vm_compute. reflexivity.
  - by apply Forall_singleton.
  - apply lookup_singleton_eq.
Defined.

Lemma put_then_get_witness :
  get_record goal_store Goals (entity_id_from_u128 1) = Ok (Some (canonical_record (sample_record 1 1))).
Proof.
  assert (forall found, Ok found = get_record goal_store Goals (rec_id (sample_record 1 1)) ->
          found = Some (canonical_record (sample_record 1 1))) as H.
  { intros found Hf. pose proof (put_then_get Goals (sample_record 1 1) PreMissing empty_store goal_store
      (MkCommitReceipt 1) ∅) as H. rewrite <- Hf in H. apply H.
    - apply empty_store_view.
    - apply sample_record_wf; unfold is_u64, u64_max; lia.
    - apply ok_with_receipt. vm_compute. reflexivity. }
  destruct (get_record goal_store Goals (rec_id (sample_record 1 1))) as [found|] eqn:Hg.
  - rewrite (H found eq_refl) in Hg. exact Hg.
  - exfalso. apply (f_equal is_ok) in Hg. vm_compute in Hg. discriminate Hg.
Defined.

Lemma erasure_exact_witness :
  exists recs, store_view appended_store recs
    /\ store_view (transact_evolution_ledger_erasure appended_store).2 (without_ledger recs)
    /\ size (collection_of EvolutionLedger recs) = 1.
Proof.
  destruct (append_spec (sample_record 7 0) (sample_record 0 1) PreMissing empty_store
    (Ok (MkCommitReceipt 2)) appended_store ∅) as [(_ & e & He & _)|(recs & _ & Hv & _)].
  - apply empty_store_view.
  - apply sample_record_wf; unfold is_u64, u64_max; lia.
  - apply sample_record_wf; unfold is_u64, u64_max; lia.
  - apply ok_with_receipt. vm_compute. reflexivity.
  - discriminate He.
  - destruct (erasure_exact appended_store (transact_evolution_ledger_erasure appended_store).2
      (Ok (MkErasureReport 1 1 0 0)) recs Hv) as [Hv' Hr].
    { apply ok_with_report. vm_compute. reflexivity. }
    exists recs. split; [exact Hv|]. split; [exact Hv'|]. congruence.
Defined.

Lemma typed_repositories_isolated_witness :
  exists recs', store_view (repository_put PlanRepository (sample_record 1 5) PreAny goal_store).2 recs'
    /\ recs' !! (Goals, entity_id_from_u128 1) = Some (canonical_record (sample_record 1 1)).
Proof.
  destruct (typed_repositories_isolated PlanRepository GoalRepository goal_store
    (repository_put PlanRepository (sample_record 1 5) PreAny goal_store).2
    (Put Plans (sample_record 1 5) PreAny) (MkCommitReceipt 1)
    {[(Goals, entity_id_from_u128 1) := canonical_record (sample_record 1 1)]}) as (recs' & Hv & Hu & _).
  - apply goal_store_view.
  - apply sample_record_wf; unfold is_u64, u64_max; lia.
  - reflexivity.
  - apply ok_with_receipt. vm_compute. reflexivity.
  - exists recs'. split; [exact Hv|]. rewrite (Hu ltac:(discriminate)). apply lookup_singleton_eq.
Defined.
