(* ===== verification/ItemStore.v ===== *)
(** * Services that keep one record per item

    The shape the services of [crates/delivery], [crates/action-store],
    [crates/waiting], [crates/goals], [crates/commitments], [crates/planner],
    [crates/scheduler], [crates/profile] and [crates/routing] share: a typed
    repository of [crates/state-store-core], mostly behind a mutex, reads that
    decode every record, and writes that are conditional on the revision read.
    Other processes may write between two repository calls: what they do is the
    list [others], one function per call.

    The second half is the logic the services are verified in.  [R] is what the
    others may do to the records (the rely), [T] what happens to the records
    overall (the guarantee), and a [Machine] says how one record may evolve. *)

From Stdlib Require Import ZArith Lia String.
From stdpp Require Import base decidable countable relations gmap sorting option list.
From S2P Require Import Prelude RustStd AgentTypes Json StateStoreCore.

(** ** The world of a service *)

(** [locks] are the services, by their collection, whose mutex is poisoned;
    [drawn] counts the calls of [EntityId::new]. *)
Record World (S : Type) := MkWorld {
  store : S;
  poisoned_locks : list Collection;
  others : list (S -> S);
  drawn : nat
}.
Global Arguments MkWorld {S}.
Global Arguments store {S}.
Global Arguments poisoned_locks {S}.
Global Arguments others {S}.
Global Arguments drawn {S}.

(** The world when other processes come. *)
Definition with_others {S} (w : World S) (fs : list (S -> S)) : World S := MkWorld (store w) (poisoned_locks w) fs (drawn w).

(** An item as read, with the revision of its record. *)
Record Stored (I : Type) := MkStored { item : I; storage_revision : Revision }.
Global Arguments MkStored {I}.
Global Arguments item {I}.
Global Arguments storage_revision {I}.

Section calls.
Context {S : Type} `{HR : Repository S}.
(** The values of successive calls of [EntityId::new]. *)
Context (new_id : nat -> EntityId).

(** The writes of other processes that land before the next repository call. *)
Definition others_write (w : World S) : World S :=
  match others w with
  | [] => w
  | e :: es => MkWorld (e (store w)) (poisoned_locks w) es (drawn w)
  end.

Definition call_get (c : Collection) (id : EntityId) : stateT (World S) repo_error (option VersionedRecord) :=
  fun w => let w := others_write w in (get_by_id (store w) c id, w).

Definition call_list (c : Collection) : stateT (World S) repo_error (list VersionedRecord) :=
  fun w => let w := others_write w in (list_records (store w) c, w).

Definition call_put (c : Collection) (r : VersionedRecord) (p : WritePrecondition)
  : stateT (World S) repo_error CommitReceipt :=
  fun w => let w := others_write w in
           let '(res, s) := transact (store w) [Put c r p] in
           (res, MkWorld s (poisoned_locks w) (others w) (drawn w)).

(** [self.repository.transact(&mutations)]. *)
Definition call_transact (ms : list RecordMutation) : stateT (World S) repo_error CommitReceipt :=
  fun w => let w := others_write w in
           let '(res, s) := transact (store w) ms in
           (res, MkWorld s (poisoned_locks w) (others w) (drawn w)).

(** [self.repository.delete(id, precondition)]. *)
Definition call_delete (c : Collection) (id : EntityId) (p : WritePrecondition) : stateT (World S) repo_error CommitReceipt :=
  call_transact [Delete c id p].

(** [EntityId::new()]. *)
Definition draw_id {E} : stateT (World S) E EntityId :=
  fun w => (Ok (new_id (drawn w)),
            MkWorld (store w) (poisoned_locks w) (others w) (Datatypes.S (drawn w))).

(** [self.serial.lock().map_err(...)]. *)
Definition lock_serial {E} (c : Collection) (poisoned : E) : stateT (World S) E unit :=
  fun w => (if bool_decide (c ∈ poisoned_locks w) then Err poisoned else Ok tt, w).

(** [self.repository.get(id).map_err(repository_error)?.map(decode).transpose()]. *)
Definition load_item {E I} (c : Collection) (failed : repo_error -> E)
    (decode : VersionedRecord -> result E (Stored I)) (id : EntityId)
  : stateT (World S) E (option (Stored I)) :=
  found ← map_err_m failed (call_get c id);
  match found with
  | None => mret None
  | Some r => x ← lift (decode r); mret (Some x)
  end.

(** [self.repository.list().map_err(repository_error)?.into_iter().map(decode).collect()]. *)
Definition load_items {E I} (c : Collection) (failed : repo_error -> E)
    (decode : VersionedRecord -> result E (Stored I)) : stateT (World S) E (list (Stored I)) :=
  rs ← map_err_m failed (call_list c);
  lift (try_map decode rs).
End calls.

(** ** The documents of the items *)

(** The derived [serde] codec of an item type. *)
Class Document (I : Type) : Type := {
  to_value : I -> result JsonError Value;
  from_value : Value -> result JsonError I
}.

(** The law of a derived codec: what was written is read back from the canonical
    form, and the document has distinct keys and is within the parser's limits. *)
Definition document_lawful (I : Type) `{Document I} : Prop :=
  forall (x : I) v, to_value x = Ok v ->
    distinct_keys v /\ readable v = true /\ from_value (sort_json_value v) = Ok x.

(** Why a record is corrupt. *)
Inductive ItemCorrupt := CorruptDocument (error : JsonError) | CorruptEnvelope.

(** ** How a record may evolve *)

Record Machine (I : Type) := MkMachine {
  m_collection : Collection;
  m_decode : VersionedRecord -> option (Stored I);
  m_init : I -> Prop;
  m_step : I -> I -> Prop
}.
Global Arguments MkMachine {I}.
Global Arguments m_collection {I}.
Global Arguments m_decode {I}.
Global Arguments m_init {I}.
Global Arguments m_step {I}.

Section machine.
Context {I : Type} (M : Machine I).

Inductive key_step : option VersionedRecord -> option VersionedRecord -> Prop :=
| key_new r x :
    m_decode M r = Some x -> m_init M (item x) -> key_step None (Some r)
| key_update r r' x x' :
    m_decode M r = Some x -> m_decode M r' = Some x' -> m_step M (item x) (item x') ->
    revision_get (rec_revision r') = (revision_get (rec_revision r) + 1)%Z ->
    key_step (Some r) (Some r').

(** Every record of the collection took steps of the machine, none was deleted. *)
Definition follows (recs recs' : Records) : Prop :=
  forall id, rtc key_step (recs !! (m_collection M, id)) (recs' !! (m_collection M, id)).

(** The item of a key. *)
Definition holds_item (recs : Records) (id : EntityId) (x : Stored I) : Prop :=
  exists r, recs !! (m_collection M, id) = Some r /\ m_decode M r = Some x.

Definition all_items (P : I -> Prop) (recs : Records) : Prop :=
  forall id x, holds_item recs id x -> P (item x).

#[export] Instance follows_preorder : PreOrder follows.
Proof.
  split; [intros recs id; apply rtc_refl|]. intros a b c Hab Hbc id. transitivity (b !! (m_collection M, id)); [apply Hab|apply Hbc].
Qed.

Lemma key_step_revision o o' :
  rtc key_step o o' ->
  forall r, o = Some r -> exists r', o' = Some r'
    /\ (r' = r \/ (revision_get (rec_revision r) < revision_get (rec_revision r'))%Z).
Proof.
  induction 1 as [o|o o1 o' Hstep Hrtc IH]; intros r Hr; [by eauto|].
  destruct Hstep as [|r0 r1 x x' Hx Hx' Hs Hrev]; simplify_eq.
  destruct (IH r1 eq_refl) as (r' & -> & [->|Hlt]); eexists; split; try done; right; lia.
Qed.

(** A revision names one state of a record. *)
Lemma follows_same_revision recs recs' id r r' :
  follows recs recs' -> recs !! (m_collection M, id) = Some r -> recs' !! (m_collection M, id) = Some r' ->
  rec_revision r' = rec_revision r -> r' = r.
Proof.
  intros Hf Hr Hr' Hrev. destruct (key_step_revision _ _ (Hf id) r Hr) as (r1 & Hr1 & Hcase).
  rewrite Hr' in Hr1. injection Hr1 as <-. destruct Hcase as [->|Hlt]; [done|]. rewrite Hrev in Hlt. lia.
Qed.

Lemma follows_insert recs id r' :
  key_step (recs !! (m_collection M, id)) (Some r') -> follows recs (<[(m_collection M, id) := r']> recs).
Proof.
  intros Hs i. destruct (decide (i = id)) as [->|Hne].
  - rewrite lookup_insert_eq. by apply rtc_once.
  - rewrite lookup_insert_ne by congruence. done.
Qed.

Lemma follows_other recs k r' : k.1 <> m_collection M -> follows recs (<[k := r']> recs).
Proof. intros Hk i. rewrite lookup_insert_ne; [done|]. by intros ->. Qed.

(** Induction over the history of one record. *)
Lemma history_ind (P : I -> Prop) o o' :
  (forall x, m_init M x -> P x) -> (forall x x', P x -> m_step M x x' -> P x') ->
  rtc key_step o o' -> (forall r x, o = Some r -> m_decode M r = Some x -> P (item x)) ->
  forall r' x', o' = Some r' -> m_decode M r' = Some x' -> P (item x').
Proof.
  intros Hinit Hstep. induction 1 as [o|o o1 o' Hks Hrtc IH]; intros HP r' x' Hr' Hx'; [eauto|].
  eapply IH; [|done|done]. intros r y -> Hy. inversion Hks as [? x Hx Hi|r0 ? x x1 Hx Hx1 Hs]; subst.
  - assert (x = y) as -> by congruence. by apply Hinit.
  - assert (x1 = y) as -> by congruence. eapply Hstep, Hs. by eapply HP.
Qed.

Lemma follows_ind (P : I -> Prop) recs recs' id :
  (forall x, m_init M x -> P x) -> (forall x x', P x -> m_step M x x' -> P x') ->
  follows recs recs' -> (forall x, holds_item recs id x -> P (item x)) ->
  forall x', holds_item recs' id x' -> P (item x').
Proof.
  intros Hinit Hstep Hf HP x' (r' & Hr' & Hx'). eapply (history_ind P); [done|done|apply (Hf id)| |exact Hr'|exact Hx'].
  intros r x Hr Hx. apply HP. by exists r.
Qed.

Lemma follows_all_items (P : I -> Prop) recs recs' :
  (forall x, m_init M x -> P x) -> (forall x x', P x -> m_step M x x' -> P x') ->
  follows recs recs' -> all_items P recs -> all_items P recs'.
Proof. intros Hi Hs Hf HP id. eapply follows_ind; eauto. Qed.

(** The steps a held item has taken. *)
Lemma follows_steps recs recs' id x :
  follows recs recs' -> holds_item recs id x ->
  exists x', holds_item recs' id x' /\ rtc (m_step M) (item x) (item x').
Proof.
  intros Hf. specialize (Hf id). unfold holds_item.
  revert Hf. generalize (recs !! (m_collection M, id)) (recs' !! (m_collection M, id)).
  intros o o' Hrtc. revert x. induction Hrtc as [o|o o1 o' Hks Hrtc IH]; intros x (r & Hr & Hx).
  { exists x. split; [by eauto|apply rtc_refl]. }
  destruct Hks as [|r0 r1 y y' Hy Hy' Hs]; simplify_eq.
  destruct (IH y') as (x' & Hx' & Hsteps); [by eauto|]. exists x'. split; [done|]. by econstructor.
Qed.

(** A record whose item can take no step stays as it is. *)
Lemma follows_stuck recs recs' id x :
  follows recs recs' -> holds_item recs id x -> (forall y, ~ m_step M (item x) y) ->
  recs' !! (m_collection M, id) = recs !! (m_collection M, id).
Proof.
  intros Hf (r & Hr & Hx) Hstuck. specialize (Hf id). rewrite Hr in *.
  inversion Hf as [|? o1 ? Hks]; subst; [done|]. inversion Hks; subst. simplify_eq. by edestruct Hstuck.
Qed.
End machine.

(** ** Records that may be deleted *)

(** Records of the keys in [retired] may be deleted, when [ended] holds of the
    item, and those keys are not used again meanwhile: a revision then still
    names one state of a record. *)
Section mortal.
Context {I : Type} (M : Machine I) (retired : EntityId -> Prop) (ended : I -> Prop).

Definition key_life (id : EntityId) (o o' : option VersionedRecord) : Prop :=
  match o, o' with
  | Some _, Some _ => rtc (key_step M) o o'
  | None, Some _ => ~ retired id /\ rtc (key_step M) o o'
  | Some _, None =>
      retired id /\ exists r x, rtc (key_step M) o (Some r) /\ m_decode M r = Some x /\ ended (item x)
  | None, None => True
  end.

Lemma key_life_refl id o : key_life id o o.
Proof. destruct o; simpl; [apply rtc_refl|done]. Qed.

Lemma key_life_trans id o1 o2 o3 : key_life id o1 o2 -> key_life id o2 o3 -> key_life id o1 o3.
Proof.
  unfold key_life. destruct o1, o2, o3; intros H1 H2; destruct_and?; try done; try (split; [done|]); try (by etrans).
  destruct_and?. destruct H0 as (r & x & Hr & Hx). exists r, x. split; [by etrans|done].
Qed.

(** A record that is the same again was the same in between. *)
Lemma key_life_same id r o : key_life id (Some r) o -> key_life id o (Some r) -> o = Some r.
Proof.
  destruct o as [r'|]; simpl; [|by intros [? _] [? _]]. intros H1 H2.
  destruct (key_step_revision M _ _ H1 r eq_refl) as (q & [= <-] & [->|Hlt]); [done|].
  destruct (key_step_revision M _ _ H2 r' eq_refl) as (q & [= <-] & [->|Hlt']); [done|lia].
Qed.

Definition lives (recs recs' : Records) : Prop :=
  forall id, key_life id (recs !! (m_collection M, id)) (recs' !! (m_collection M, id)).

#[export] Instance lives_preorder : PreOrder lives.
Proof. split; [intros recs id; apply key_life_refl|]. intros a b c Hab Hbc id. by eapply key_life_trans. Qed.

Lemma lives_same_revision recs recs' id r r' :
  lives recs recs' -> recs !! (m_collection M, id) = Some r -> recs' !! (m_collection M, id) = Some r' ->
  rec_revision r' = rec_revision r -> r' = r.
Proof.
  intros Hf Hr Hr' Hrev. specialize (Hf id). rewrite Hr, Hr' in Hf. simpl in Hf.
  destruct (key_step_revision M _ _ Hf r eq_refl) as (q & [= <-] & [->|Hlt]); [done|]. rewrite Hrev in Hlt. lia.
Qed.

Lemma untouched_lives recs recs' :
  (forall id, recs !! (m_collection M, id) = recs' !! (m_collection M, id)) -> lives recs recs'.
Proof. intros Hu id. rewrite (Hu id). apply key_life_refl. Qed.

Lemma lives_insert recs id r' :
  key_step M (recs !! (m_collection M, id)) (Some r') -> (recs !! (m_collection M, id) = None -> ~ retired id) ->
  lives recs (<[(m_collection M, id) := r']> recs).
Proof.
  intros Hs Hnew i. destruct (decide (i = id)) as [->|Hne].
  - rewrite lookup_insert_eq. destruct (recs !! (m_collection M, id)); simpl; [by apply rtc_once|].
    split; [by apply Hnew|by apply rtc_once].
  - rewrite lookup_insert_ne by congruence. apply key_life_refl.
Qed.

Lemma lives_delete recs id r x :
  recs !! (m_collection M, id) = Some r -> m_decode M r = Some x -> ended (item x) -> retired id ->
  lives recs (delete (m_collection M, id) recs).
Proof.
  intros Hr Hx He Hret i. destruct (decide (i = id)) as [->|Hne].
  - rewrite lookup_delete_eq, Hr. simpl. split; [done|]. exists r, x. split; [apply rtc_refl|done].
  - rewrite lookup_delete_ne by congruence. apply key_life_refl.
Qed.

Lemma lives_all_items (P : I -> Prop) recs recs' :
  (forall x, m_init M x -> P x) -> (forall x x', P x -> m_step M x x' -> P x') ->
  lives recs recs' -> all_items M P recs -> all_items M P recs'.
Proof.
  intros Hi Hs Hf HP id x' (r' & Hr' & Hx'). specialize (Hf id). rewrite Hr' in Hf.
  assert (rtc (key_step M) (recs !! (m_collection M, id)) (Some r')) as Hrtc.
  { destruct (recs !! (m_collection M, id)); simpl in Hf; [done|apply Hf]. }
  eapply (history_ind M P); [done|done|exact Hrtc| |done|exact Hx'].
  intros r x Hr Hx. eapply HP. exists r. done.
Qed.

(** A held item has taken steps and is still there, or was deleted at its end. *)
Lemma lives_steps recs recs' id x :
  lives recs recs' -> holds_item M recs id x ->
  (exists x', holds_item M recs' id x' /\ rtc (m_step M) (item x) (item x'))
  \/ recs' !! (m_collection M, id) = None /\ retired id /\ exists x', rtc (m_step M) (item x) x' /\ ended x'.
Proof.
  intros Hf Hh. pose proof Hh as (r & Hr & Hx). specialize (Hf id). rewrite Hr in Hf.
  assert (forall q, rtc (key_step M) (Some r) (Some q) -> exists y, m_decode M q = Some y /\ rtc (m_step M) (item x) (item y)) as Hgo.
  { intros q Hq. destruct (follows_steps M recs (<[(m_collection M, id) := q]> recs) id x) as (y & (q' & Hq' & Hy) & Hsteps);
      [|done|].
    - intros i. destruct (decide (i = id)) as [->|Hne]; [by rewrite lookup_insert_eq, Hr|].
      rewrite lookup_insert_ne by congruence. apply rtc_refl.
    - rewrite lookup_insert_eq in Hq'. injection Hq' as <-. by exists y. }
  destruct (recs' !! (m_collection M, id)) as [r'|] eqn:Hr'.
  - left. destruct (Hgo r' Hf) as (y & Hy & Hsteps). exists y. split; [by exists r'|done].
  - right. destruct Hf as (Hret & q & z & Hq & Hz & He). split; [done|]. split; [done|].
    destruct (Hgo q Hq) as (y & Hy & Hsteps). assert (y = z) as -> by congruence. by exists (item z).
Qed.
End mortal.

(** The records of a collection are written by nobody. *)
Definition untouched (c : Collection) (recs recs' : Records) : Prop :=
  forall id, recs !! (c, id) = recs' !! (c, id).

#[export] Instance untouched_preorder c : PreOrder (untouched c).
Proof. split; [by intros recs id|]. intros x y z Hxy Hyz id. by rewrite Hxy. Qed.

Lemma untouched_follows {I} (M : Machine I) recs recs' :
  untouched (m_collection M) recs recs' -> follows M recs recs'.
Proof. intros Hu id. by rewrite (Hu id). Qed.

(** ** The logic *)

(** What the other writers may do to the records between two calls ([rely]), and
    what may happen to the records overall ([guarantee]). *)
Record Contract := MkContract {
  rely : relation Records;
  guarantee : relation Records;
  rely_preorder : PreOrder rely;
  guarantee_preorder : PreOrder guarantee;
  rely_guarantee : forall recs recs', rely recs recs' -> guarantee recs recs'
}.
#[export] Existing Instance rely_preorder.
#[export] Existing Instance guarantee_preorder.

Section logic.
Context {S : Type} `{HU : Ulid, HR : Repository S, HL : !RepositoryLaws S}.
Context (new_id : nat -> EntityId).
Context (G : Contract).

Abbreviation R := (rely G).
Abbreviation T := (guarantee G).
Abbreviation svc E := (stateT (World S) E).

Implicit Types (recs : Records) (P : Records -> Prop) (w : World S).

(** What another process may do to the repository. *)
Definition relies (f : S -> S) : Prop :=
  forall s recs, repo_view s recs -> exists recs', repo_view (f s) recs' /\ R recs recs'.

Definition sees (w : World S) (recs : Records) : Prop :=
  repo_view (store w) recs /\ Forall relies (others w).

(** The world holds records that satisfy [P] and that [recs0] became under [T]. *)
Definition since (recs0 : Records) (P : Records -> Prop) (w : World S) : Prop :=
  exists recs, sees w recs /\ T recs0 recs /\ P recs.

(** [P] at some moment, then writes of the others. *)
Definition later (P : Records -> Prop) (recs : Records) : Prop := exists recs1, P recs1 /\ R recs1 recs.

(** [m] leads from [P] to [Q] of its result; it changes the records within [T],
    when it fails too. *)
Definition spec {E A : Type} (P : Records -> Prop) (m : svc E A) (Q : A -> Records -> Prop) : Prop :=
  forall recs0, triple (since recs0 P) m (fun a => since recs0 (Q a)) (since recs0 (fun _ => True)).

Definition stable (P : Records -> Prop) : Prop := forall recs recs', P recs -> T recs recs' -> P recs'.

Lemma later_stable P recs : stable P -> later P recs -> P recs.
Proof. intros Hs (recs1 & HP & HR1). eapply Hs; [done|]. by apply rely_guarantee. Qed.

(** Facts that only the other writers must leave alone. *)
Definition rely_stable (P : Records -> Prop) : Prop := forall recs recs', P recs -> R recs recs' -> P recs'.

Lemma stable_rely P : stable P -> rely_stable P.
Proof. intros Hs recs recs' HP HR1. eapply Hs; [done|]. by apply rely_guarantee. Qed.

Lemma later_rely P recs : rely_stable P -> later P recs -> P recs.
Proof. intros Hs (recs1 & HP & HR1). by eapply Hs. Qed.

Lemma since_now P w recs : sees w recs -> P recs -> since recs P w.
Proof. intros Hw HP. exists recs. split; [done|]. split; [reflexivity|done]. Qed.

Lemma since_weaken recs0 (P Q : Records -> Prop) w : (forall recs, P recs -> Q recs) -> since recs0 P w -> since recs0 Q w.
Proof. intros HPQ (recs & Hs & HT & HP). exists recs. auto. Qed.

Lemma spec_weaken {E A : Type} P P' (m : svc E A) Q Q' :
  spec P m Q -> (forall recs, P' recs -> P recs) -> (forall a recs, Q a recs -> Q' a recs) -> spec P' m Q'.
Proof.
  intros Hm HP HQ recs0. eapply triple_weaken; [apply Hm|..].
  - intros w. by apply since_weaken.
  - intros a w. apply since_weaken, HQ.
  - done.
Qed.

Lemma spec_given {E A : Type} P P' (m : svc E A) Q : (forall recs, P' recs -> P recs) -> spec P m Q -> spec P' m Q.
Proof. intros HP Hm. by eapply spec_weaken. Qed.

Lemma spec_bind {E A B : Type} P (m : svc E A) Q (f : A -> svc E B) Q' :
  spec P m Q -> (forall a, spec (Q a) (f a) Q') -> spec P (x ← m; f x) Q'.
Proof. intros Hm Hf recs0. eapply triple_bind; [apply Hm|]. intros a. apply Hf. Qed.

Lemma spec_pre {E A : Type} P (m : svc E A) Q : (forall recs, P recs -> spec (eq recs) m Q) -> spec P m Q.
Proof.
  intros Hm recs0 w r w' (recs & Hs & HT & HP). apply (Hm recs HP recs0). by exists recs.
Qed.

(** A fact that does not depend on the records. *)
Lemma spec_pure {E A : Type} (X : Prop) P (m : svc E A) Q : (X -> spec P m Q) -> spec (fun recs => X /\ P recs) m Q.
Proof.
  intros Hm recs0 w r w' (recs & Hs & HT & HX & HP). apply (Hm HX recs0). by exists recs.
Qed.

Lemma spec_ret {E A : Type} P (a : A) (Q : A -> Records -> Prop) : (forall recs, P recs -> Q a recs) -> spec P (mret a : svc E A) Q.
Proof. intros HQ recs0. apply triple_ret. intros w. by apply since_weaken. Qed.

Lemma spec_throw {E A : Type} P (e : E) (Q : A -> Records -> Prop) : spec P (throw e) Q.
Proof. intros recs0. apply triple_throw. intros w. by apply since_weaken. Qed.

Lemma spec_lift {E A : Type} P (x : result E A) (Q : A -> Records -> Prop) :
  (forall a recs, x = Ok a -> P recs -> Q a recs) -> spec P (lift x) Q.
Proof.
  intros HQ recs0. apply triple_lift; intros; [|by eapply since_weaken].
  eapply since_weaken; [|done]. eauto.
Qed.

Lemma spec_lift_bind {E A B : Type} P (x : result E A) (f : A -> svc E B) Q :
  (forall a, x = Ok a -> spec P (f a) Q) -> spec P (a ← lift x; f a) Q.
Proof.
  intros Hf. eapply spec_bind; [apply (spec_lift P x (fun a recs => x = Ok a /\ P recs)); auto|].
  intros a. apply spec_pure. auto.
Qed.

Lemma spec_map_err {E F A : Type} P (f : E -> F) (m : svc E A) Q : spec P m Q -> spec P (map_err_m f m) Q.
Proof. intros Hm recs0. apply triple_map_err, Hm. Qed.

Lemma spec_map_m {E A B : Type} P (f : A -> svc E B) (F : A -> B -> Prop) xs :
  (forall x, x ∈ xs -> spec P (f x) (fun y recs => F x y /\ P recs)) ->
  spec P (map_m f xs) (fun ys recs => Forall2 F xs ys /\ P recs).
Proof.
  induction xs as [|x xs IH]; intros Hf; simpl; [by apply spec_ret|].
  eapply spec_bind; [apply Hf; by left|]. intros y. apply spec_pure. intros Hy.
  eapply spec_bind; [apply IH; intros; apply Hf; by right|]. intros ys. apply spec_pure. intros Hys.
  apply spec_ret. by repeat constructor.
Qed.

(** A stable fact that the precondition implies survives. *)
Lemma spec_retain {E A : Type} P P0 (m : svc E A) Q :
  stable P0 -> (forall recs, P recs -> P0 recs) -> spec P m Q -> spec P m (fun a recs => P0 recs /\ Q a recs).
Proof.
  intros Hs HP0 Hm recs0 w r w' (recs & Hw & HT & HP) Hr.
  specialize (Hm recs w r w' (since_now P w recs Hw HP) Hr).
  destruct r as [a|e]; destruct Hm as (recs' & Hw' & HT' & HQ); exists recs'; (split; [done|]);
    (split; [by etrans|]); [|done]. split; [|done]. eapply Hs; [|done]. auto.
Qed.

Lemma spec_keep {E A : Type} P (m : svc E A) Q :
  stable P -> spec P m Q -> spec P m (fun a recs => P recs /\ Q a recs).
Proof. intros Hs Hm. by apply spec_retain. Qed.

(** A loop whose invariant speaks of the elements still to come. *)
Lemma spec_for {E A B : Type} (f : A -> svc E B) (Inv : list A -> Records -> Prop) xs :
  (forall x rest, spec (Inv (x :: rest)) (f x) (fun _ => Inv rest)) ->
  spec (Inv xs) (map_m f xs) (fun _ => Inv []).
Proof.
  intros Hf. induction xs as [|x xs IH]; simpl; [by apply spec_ret|].
  eapply spec_bind; [apply Hf|]. intros y. eapply spec_bind; [apply IH|]. intros ys. by apply spec_ret.
Qed.

(** Running [m] and going on with its result, an error included. *)
Lemma spec_catch {E F A B : Type} P (m : svc E A) Q (k : result E A -> svc F B) Z :
  stable P -> spec P m Q -> (forall a, spec (fun recs => P recs /\ Q a recs) (k (Ok a)) Z) ->
  (forall e, spec P (k (Err e)) Z) ->
  spec P (fun w => let '(r, w') := m w in k r w') Z.
Proof.
  intros Hst Hm Hok Herr recs0 w r w' (recs & Hw & HT & HP) Hr.
  destruct (m w) as [r1 w1] eqn:Em. pose proof (Hm recs w r1 w1 (since_now P w recs Hw HP) Em) as Hm1.
  destruct r1 as [a|e]; destruct Hm1 as (recs1 & Hw1 & HT1 & HQ).
  - apply (Hok a recs0 w1 r w'); [|done]. exists recs1. split; [done|]. split; [by etrans|].
    split; [by eapply Hst|done].
  - apply (Herr e recs0 w1 r w'); [|done]. exists recs1. split; [done|]. split; [by etrans|]. by eapply Hst.
Qed.

(** A loop that leaves a stable fact behind for every element. *)
Lemma spec_map_m_each {E A B : Type} P (f : A -> svc E B) (D : A -> Records -> Prop) xs :
  stable P -> (forall x, stable (D x)) ->
  (forall x, x ∈ xs -> spec P (f x) (fun _ recs => D x recs)) ->
  spec P (map_m f xs) (fun _ recs => P recs /\ Forall (fun x => D x recs) xs).
Proof.
  intros HP HD. induction xs as [|x xs IH]; intros Hf; simpl; [by apply spec_ret|].
  eapply spec_bind; [apply spec_keep; [done|]; apply Hf; by left|]. intros y. cbn beta.
  apply (spec_bind _ _ (fun _ recs => D x recs /\ P recs /\ Forall (fun x => D x recs) xs)).
  - eapply spec_weaken; [apply (spec_keep (fun recs => P recs /\ D x recs))| |].
    + intros recs recs' [H1 H2] HT. split; [by eapply HP|by eapply HD].
    + eapply spec_given; [|apply IH; intros; apply Hf; by right]. by intros recs [].
    + done.
    + naive_solver.
  - intros ys. apply spec_ret. intros recs (Hx & HPr & Hxs). split; [done|]. by constructor.
Qed.

Lemma spec_same {E A : Type} P (m : svc E A) (Q : A -> Records -> Prop) :
  (forall w r w', m w = (r, w') ->
     store w' = store w /\ others w' = others w
     /\ match r with Ok a => forall recs, P recs -> Q a recs | Err _ => True end) ->
  spec P m Q.
Proof.
  intros Hm recs0 w r w' (recs & [Hv Ho] & HT & HP) Hr. destruct (Hm _ _ _ Hr) as (Hs & Hw & HQ).
  assert (sees w' recs) by (unfold sees; by rewrite Hs, Hw).
  destruct r; exists recs; auto.
Qed.

Lemma spec_lock {E : Type} P c (e : E) : spec P (lock_serial c e) (fun _ => P).
Proof. apply spec_same. intros w r w' Hr. unfold lock_serial in Hr. injection Hr as <- <-. by case_bool_decide. Qed.

Lemma spec_draw {E : Type} P : spec P (draw_id new_id : svc E EntityId) (fun id recs => (exists n, id = new_id n) /\ P recs).
Proof. apply spec_same. intros w r w' Hr. unfold draw_id in Hr. injection Hr as <- <-. eauto. Qed.

(** ** Repository calls *)

Lemma sees_others w recs :
  sees w recs -> exists recs', sees (others_write w) recs' /\ R recs recs'.
Proof.
  intros [Hv Ho]. unfold others_write, sees. destruct (others w) as [|f fs] eqn:E.
  - exists recs. rewrite E. by repeat constructor.
  - apply Forall_cons in Ho as [Hf Hfs]. destruct (Hf _ _ Hv) as (recs' & Hv' & HR'). by exists recs'.
Qed.

(** A read sees the records of one moment. *)
Lemma spec_read {E A : Type} P (m : svc E A) (read : S -> result E A) (Q : A -> Records -> Prop) :
  (forall w, m w = (read (store (others_write w)), others_write w)) ->
  (forall s recs a, repo_view s recs -> later P recs -> read s = Ok a -> Q a recs) ->
  spec P m Q.
Proof.
  intros Hm HQ recs0 w r w' (recs & Hs & HT & HP) Hr. rewrite Hm in Hr. injection Hr as <- <-.
  destruct (sees_others w recs Hs) as (recs' & Hs' & HR').
  assert (T recs0 recs') by (etrans; [done|by apply rely_guarantee]).
  destruct (read _) as [a|] eqn:Er; exists recs'; (split; [done|]); (split; [done|]); [|done].
  eapply HQ; [apply Hs'| |done]. by exists recs.
Qed.

Lemma spec_get P c id :
  spec P (call_get c id) (fun found recs => later P recs /\ found = recs !! (c, id)
                                             /\ forall r, found = Some r -> wf_record r /\ rec_id r = id).
Proof.
  apply spec_read with (fun s => get_by_id s c id); [done|]. intros s recs found Hv HP Hg.
  pose proof (get_ok _ _ _ _ _ Hv Hg) as ->. split; [done|]. split; [done|].
  intros r Hr. by destruct (view_keys _ _ _ _ _ Hv Hr) as (? & ? & _).
Qed.

Lemma spec_list P c :
  spec P (call_list c) (fun rs recs => later P recs /\ lists_collection recs c rs /\ Forall wf_record rs).
Proof.
  apply spec_read with (fun s => list_records s c); [done|]. intros s recs rs Hv HP Hl.
  pose proof (list_ok _ _ _ _ Hv Hl) as Hlist. split; [done|]. split; [done|].
  apply Forall_forall. intros r Hr. apply Hlist in Hr. by destruct (view_keys _ _ _ _ _ Hv Hr) as (_ & ? & _).
Qed.

(** A transaction that may have happened must stay within [T]. *)
Lemma spec_transact P ms :
  Forall wf_mutation ms ->
  (forall recs recs', later P recs -> spec_mutations recs ms = Some recs' -> T recs recs') ->
  spec P (call_transact ms) (fun _ recs' => exists recs, later P recs /\ spec_mutations recs ms = Some recs').
Proof.
  intros Hms HT recs0 w res w' (recs & Hs & HT0 & HP) Hr.
  destruct (sees_others w recs Hs) as (recs1 & [Hv1 Ho1] & HR1). unfold call_transact in Hr.
  assert (later P recs1) as Hlater by by exists recs.
  assert (T recs0 recs1) as HT1 by (etrans; [done|by apply rely_guarantee]).
  destruct (transact _ _) as [res1 s1] eqn:Et. injection Hr as <- <-. destruct res1 as [receipt|e].
  - destruct (transact_ok _ _ _ _ _ Hv1 Hms Et) as (recs2 & Hm & Hv2). exists recs2.
    split; [split; [exact Hv2|exact Ho1]|]. split; [etrans; eauto|]. by exists recs1.
  - destruct (transact_err _ _ _ _ _ Hv1 Hms Et) as [Hv2|(_ & recs2 & Hm & Hv2)].
    + exists recs1. split; [split; [exact Hv2|exact Ho1]|]. done.
    + exists recs2. split; [split; [exact Hv2|exact Ho1]|]. split; [etrans; eauto|done].
Qed.

Lemma spec_mutations_put recs c r p recs' :
  is_ledger c = false -> spec_mutations recs [Put c r p] = Some recs' <->
  put_admitted (rec_revision <$> recs !! (c, rec_id r)) r p = true
  /\ recs' = <[(c, rec_id r) := canonical_record r]> recs.
Proof.
  intros Hl. simpl. unfold spec_mutation. simpl. rewrite Hl. destruct (put_admitted _ r p); simpl; naive_solver.
Qed.

(** A write that may have happened must stay within [T]. *)
Lemma spec_put P c r p :
  wf_record r -> is_ledger c = false ->
  (forall recs, later P recs -> put_admitted (rec_revision <$> recs !! (c, rec_id r)) r p = true ->
     T recs (<[(c, rec_id r) := canonical_record r]> recs)) ->
  spec P (call_put c r p) (fun _ recs' => exists recs, later P recs
     /\ put_admitted (rec_revision <$> recs !! (c, rec_id r)) r p = true
     /\ recs' = <[(c, rec_id r) := canonical_record r]> recs).
Proof.
  intros Hwf Hl HT. eapply spec_weaken; [apply (spec_transact P [Put c r p]); [by apply Forall_singleton|]|done|].
  - intros recs recs' HP [Ha ->]%spec_mutations_put; auto.
  - intros a recs' (recs & HP & [Ha ->]%spec_mutations_put); eauto.
Qed.
(** *** Runs *)

(** A run of operations that goes on after an error keeps to the contract when
    each operation does. *)
Lemma spec_run {E A : Type} P (m : svc E A) Q w recs :
  spec P m Q -> sees w recs -> P recs -> exists recs', sees (m w).2 recs' /\ T recs recs'.
Proof.
  intros Hm Hw HP. destruct (m w) as [r w'] eqn:Er. pose proof (Hm recs w r w' (since_now P w recs Hw HP) Er) as Hq.
  destruct r; destruct Hq as (recs' & Hw' & HT & _); by exists recs'.
Qed.

Lemma run_keeps {Op : Type} (ok : Op -> Prop) (run : Op -> World S -> World S) P :
  stable P ->
  (forall op w recs, ok op -> sees w recs -> P recs -> exists recs', sees (run op w) recs' /\ T recs recs') ->
  forall ops w recs, sees w recs -> Forall ok ops -> P recs ->
    exists recs', sees (fold_left (fun w op => run op w) ops w) recs' /\ T recs recs'.
Proof.
  intros Hst Hrun ops. induction ops as [|op ops IH]; intros w recs Hw Hok HP; simpl.
  { exists recs. split; [done|reflexivity]. }
  apply Forall_cons in Hok as [Hop Hok]. destruct (Hrun op w recs Hop Hw HP) as (recs1 & Hw1 & HT1).
  destruct (IH _ recs1 Hw1 Hok) as (recs' & Hw' & HT'); [by eapply Hst|]. exists recs'. split; [done|by etrans].
Qed.
End logic.

(** ** Reading and writing items *)

Definition result_ok {E A} (r : result E A) : option A := match r with Ok a => Some a | Err _ => None end.

Lemma readd_subseteq `{Countable K} (b : bool) (k : K) (X : gset K) :
  (b = true -> k ∈ X) -> (if b then {[k]} else ∅) ∪ (X ∖ {[k]}) ⊆ X.
Proof. destruct b; set_solver. Qed.

Lemma readd_size `{Countable K} (b : bool) (k : K) (X : gset K) :
  (size ((if b then {[k]} else ∅) ∪ (X ∖ {[k]})) <= size X + if b then 1 else 0)%nat.
Proof.
  assert (size (X ∖ {[k]}) <= size X)%nat by (apply subseteq_size; set_solver).
  destruct b.
  - rewrite size_union by set_solver. rewrite size_singleton. lia.
  - rewrite size_union by set_solver. rewrite size_empty. lia.
Qed.

Section items.
Context {S : Type} `{HU : Ulid, HR : Repository S, HL : !RepositoryLaws S}.
Context (G : Contract).

Abbreviation R := (rely G).
Abbreviation T := (guarantee G).

Context {I E : Type} (c : Collection) (decode : VersionedRecord -> result E (Stored I)).
Context (item_id : I -> EntityId) (init : I -> Prop) (step : I -> I -> Prop) (failed : repo_error -> E).

Implicit Types (recs : Records) (P : Records -> Prop).

Definition item_machine : Machine I := MkMachine c (fun r => result_ok (decode r)) init step.

(** Decoding checks the identity and takes the revision of the record. *)
Definition decode_faithful : Prop :=
  forall r x, decode r = Ok x -> rec_id r = item_id (item x) /\ rec_revision r = storage_revision x.

Context (Hfaithful : decode_faithful) (HT : forall recs recs', T recs recs' -> follows item_machine recs recs').

(** What the types of a stored record guarantee of its key and revision. *)
Definition wf_stored (x : Stored I) : Prop :=
  id_canonical (item_id (item x)) /\ is_u64 (revision_get (storage_revision x)).

Definition holds (recs : Records) (x : Stored I) : Prop := holds_item item_machine recs (item_id (item x)) x.

(** [x] was the item of its key at some moment. *)
Definition seen (x : Stored I) (recs : Records) : Prop := exists recs0, T recs0 recs /\ holds recs0 x.

(** The items of the collection, in the order of their identifiers. *)
Definition lists_items (recs : Records) (xs : list (Stored I)) : Prop :=
  StronglySorted (fun x y => rcmp (item_id (item x)) (item_id (item y)) = Lt) xs
  /\ forall x, x ∈ xs <-> holds recs x.

Lemma seen_stable x : stable G (seen x).
Proof. intros recs recs' (recs0 & H0 & Hx) Hr. exists recs0. split; [by etrans|done]. Qed.

Lemma holds_seen recs x : holds recs x -> seen x recs.
Proof. intros Hx. exists recs. split; [reflexivity|done]. Qed.

Lemma holds_inj recs x y : holds recs x -> holds recs y -> item_id (item x) = item_id (item y) -> x = y.
Proof. unfold holds. intros (r & Hr & Hx) (q & Hq & Hy) Heq. rewrite Heq in Hr. simplify_eq. congruence. Qed.

Lemma holds_lookup recs x :
  holds recs x <-> exists r, recs !! (c, item_id (item x)) = Some r /\ decode r = Ok x.
Proof.
  unfold holds, holds_item. simpl. split; intros (r & Hr & Hx); exists r; (split; [done|]).
  - destruct (decode r); simpl in Hx; congruence.
  - by rewrite Hx.
Qed.

(** The item under a key that was written, and the others. *)
Lemma holds_insert_ne recs k r x : k <> (c, item_id (item x)) -> holds (<[k := r]> recs) x <-> holds recs x.
Proof. intros Hk. rewrite !holds_lookup. by rewrite lookup_insert_ne by done. Qed.

Lemma holds_insert_eq recs r x : decode r = Ok x -> holds (<[(c, item_id (item x)) := r]> recs) x.
Proof. intros Hx. apply holds_lookup. exists r. by rewrite lookup_insert_eq. Qed.

Lemma holds_insert recs id r y :
  holds (<[(c, id) := r]> recs) y ->
  decode r = Ok y /\ item_id (item y) = id \/ holds recs y /\ item_id (item y) <> id.
Proof.
  rewrite !holds_lookup. intros (q & Hq & Hy). destruct (decide (item_id (item y) = id)) as [<-|Hne].
  - rewrite lookup_insert_eq in Hq. simplify_eq. by left.
  - right. split; [|done]. exists q. split; [|done]. rewrite lookup_insert_ne in Hq by congruence. done.
Qed.

Lemma untouched_holds recs recs' x : untouched c recs recs' -> holds recs x <-> holds recs' x.
Proof. intros Hu. rewrite !holds_lookup. by rewrite Hu. Qed.

(** The keys of the items that satisfy [p]. *)
Definition item_entry (p : Stored I -> bool) (kr : (Collection * EntityId) * VersionedRecord) : bool :=
  bool_decide (kr.1 = (c, rec_id kr.2)) && match decode kr.2 with Ok x => p x | Err _ => false end.

Definition item_keys (p : Stored I -> bool) (recs : Records) : gset (Collection * EntityId) :=
  dom (filter (fun kr => item_entry p kr = true) recs).

Lemma elem_of_item_keys p recs k :
  k ∈ item_keys p recs <-> exists x, k = (c, item_id (item x)) /\ holds recs x /\ p x = true.
Proof.
  unfold item_keys. rewrite elem_of_dom. unfold is_Some. setoid_rewrite map_lookup_filter_Some. split.
  - intros (r & Hr & [Hk Hp]%andb_true_iff). apply bool_decide_eq_true in Hk. simpl in *. subst k.
    destruct (decode r) as [x|] eqn:Ex; [|done]. destruct (Hfaithful r x Ex) as [Hid _]. rewrite Hid in *.
    exists x. split; [done|]. split; [|done]. apply holds_lookup. eauto.
  - intros (x & -> & (r & Hr & Hx)%holds_lookup & Hp). exists r. split; [done|].
    destruct (Hfaithful r x Hx) as [Hid _]. unfold item_entry. simpl. rewrite Hx, Hp, Hid.
    by rewrite bool_decide_eq_true_2.
Qed.

Lemma item_keys_insert p recs id r s :
  decode r = Ok s -> item_id (item s) = id ->
  item_keys p (<[(c, id) := r]> recs)
  ⊆ (if p s then {[(c, id)]} else ∅) ∪ (item_keys p recs ∖ {[(c, id)]}).
Proof.
  intros Hs Hid k (y & -> & Hy & Hp)%elem_of_item_keys. apply elem_of_union.
  destruct (holds_insert _ _ _ _ Hy) as [[Hd Hk]|[Hh Hne]].
  - assert (y = s) as -> by congruence. rewrite Hp. left. rewrite Hid. by apply elem_of_singleton.
  - right. apply elem_of_difference. split; [apply elem_of_item_keys; eauto|].
    rewrite elem_of_singleton. congruence.
Qed.

(** One written item adds at most itself. *)
Lemma item_keys_insert_size p recs id r s :
  decode r = Ok s -> item_id (item s) = id ->
  (size (item_keys p (<[(c, id) := r]> recs)) <= size (item_keys p recs) + if p s then 1 else 0)%nat.
Proof.
  intros Hs Hid. etrans; [apply subseteq_size, item_keys_insert; eassumption|]. apply readd_size.
Qed.

(** A written item that only takes itself out of the set, or leaves it there. *)
Lemma item_keys_update_size p recs x r s :
  holds recs x -> decode r = Ok s -> item_id (item s) = item_id (item x) -> (p s = true -> p x = true) ->
  (size (item_keys p (<[(c, item_id (item x)) := r]> recs)) <= size (item_keys p recs))%nat.
Proof.
  intros Hx Hs Hid Hp. apply subseteq_size. etrans; [apply item_keys_insert; eassumption|].
  apply readd_subseteq. intros Hps. apply elem_of_item_keys. exists x. split; [done|]. split; [done|by apply Hp].
Qed.

Lemma item_keys_untouched p recs recs' : untouched c recs recs' -> item_keys p recs = item_keys p recs'.
Proof.
  intros Hu. apply set_eq. intros k. rewrite !elem_of_item_keys.
  split; intros (x & Hk & Hx & Hp); exists x; (split; [done|]); (split; [|done]); by apply (untouched_holds recs recs').
Qed.

(** The listed items are all of them. *)
Lemma item_keys_listed p recs xs :
  lists_items recs xs -> (size (item_keys p recs) <= length (List.filter p xs))%nat.
Proof.
  intros [_ Hin].
  assert (item_keys p recs ⊆ list_to_set ((fun x => (c, item_id (item x))) <$> List.filter p xs)) as Hsub.
  { intros k (x & -> & Hx & Hp)%elem_of_item_keys. apply elem_of_list_to_set, list_elem_of_fmap.
    exists x. split; [done|]. apply list_elem_of_In, filter_In. split; [|done]. by apply list_elem_of_In, Hin. }
  etrans; [apply subseteq_size; exact Hsub|]. etrans; [apply size_list_to_set_le|]. by rewrite length_fmap.
Qed.

Lemma spec_load_item P id :
  spec G P (load_item c failed decode id) (fun found recs =>
    (forall x, found = Some x -> item_id (item x) = id /\ wf_stored x)
    /\ later G P recs
    /\ match found with Some x => holds recs x | None => recs !! (c, id) = None end).
Proof.
  unfold load_item. eapply spec_bind; [apply spec_map_err, spec_get|]. intros [r|]; cbn beta iota.
  - apply spec_lift_bind. intros x Hx. apply spec_ret. intros recs (HP & Hr & Hwf).
    destruct (Hwf r eq_refl) as [Hwfr Hid]. destruct (Hfaithful r x Hx) as [Hi Hrev].
    split; [|split; [done|]].
    + intros y [= <-]. split; [congruence|]. unfold wf_stored. rewrite <- Hi, <- Hrev.
      split; apply Hwfr.
    + apply holds_lookup. exists r. by rewrite <- Hi, Hid.
  - apply spec_ret. intros recs (HP & Hr & _). done.
Qed.

Lemma spec_load_items P :
  spec G P (load_items c failed decode) (fun xs recs => Forall wf_stored xs /\ later G P recs /\ lists_items recs xs).
Proof.
  unfold load_items. eapply spec_bind; [apply spec_map_err, spec_list|]. intros rs. cbn beta.
  apply spec_lift. intros xs recs Hxs (HP & [Hsort Hin] & Hwf). apply try_map_Forall2 in Hxs.
  assert (Forall2 (fun r x => rec_id r = item_id (item x) /\ wf_stored x /\ holds recs x) rs xs) as Hrel.
  { pose proof (proj1 (Forall2_same_length_lookup _ _ _) Hxs) as [Hlen Hdec].
    apply Forall2_same_length_lookup. split; [done|]. intros i r x Hr Hx.
    pose proof (Hdec i r x Hr Hx) as Hd. destruct (Hfaithful r x Hd) as [Hi Hrev].
    apply list_elem_of_lookup_2 in Hr. rewrite list.Forall_forall in Hwf. specialize (Hwf r Hr).
    apply Hin in Hr. split; [done|]. split; [|apply holds_lookup; exists r; by rewrite <- Hi].
    unfold wf_stored. rewrite <- Hi, <- Hrev. split; apply Hwf. }
  split; [|split; [done|split]].
  - clear -Hrel. induction Hrel as [|r x rs xs (_ & Hwf & _) _ IH]; by constructor.
  - eapply Forall2_StronglySorted, Hsort; [|exact Hrel].
    intros r r' x x' (Hx & _) (Hx' & _) Hlt. by rewrite <- Hx, <- Hx'.
  - intros x. split.
    + intros [i Hi]%list_elem_of_lookup. by destruct (Forall2_lookup_r _ _ _ _ _ Hrel Hi) as (r & _ & _ & _ & ?).
    + intros (r & Hr & Hd)%holds_lookup. destruct (Hfaithful r x Hd) as [Hid _].
      assert (r ∈ rs) as [i Hi]%list_elem_of_lookup by (apply Hin; by rewrite Hid).
      destruct (Forall2_lookup_l _ _ _ _ _ Hxs Hi) as (y & Hy & Hd').
      assert (x = y) as -> by congruence. by eapply list_elem_of_lookup_2.
Qed.

(** The step of the machine that a write of an item makes. *)
Lemma update_key_step recs x r' x' :
  holds recs x -> decode (canonical_record r') = Ok x' -> step (item x) (item x') ->
  revision_get (rec_revision r') = (revision_get (storage_revision x) + 1)%Z ->
  follows item_machine recs (<[(c, item_id (item x)) := canonical_record r']> recs).
Proof.
  intros (r & Hr & Hx)%holds_lookup Hx' Hs Hrev. apply (follows_insert item_machine). simpl. rewrite Hr.
  destruct (Hfaithful r x Hx) as [_ Hrx].
  eapply (key_update item_machine); simpl; [by rewrite Hx|by rewrite Hx'|done|]. by rewrite Hrx.
Qed.

Lemma create_key_step recs id r' x' :
  recs !! (c, id) = None -> decode (canonical_record r') = Ok x' -> init (item x') ->
  follows item_machine recs (<[(c, id) := canonical_record r']> recs).
Proof.
  intros Hr Hx' Hi. apply (follows_insert item_machine). simpl. rewrite Hr.
  eapply (key_new item_machine); simpl; [by rewrite Hx'|done].
Qed.

(** A revision names one state of a record of the collection. *)
Definition revisions_name : Prop :=
  forall recs recs' id r r', T recs recs' -> recs !! (c, id) = Some r -> recs' !! (c, id) = Some r' ->
    rec_revision r' = rec_revision r -> r' = r.

Lemma follows_revisions_name : revisions_name.
Proof. intros recs recs' id r r' Hr. apply (follows_same_revision item_machine). by apply HT. Qed.

(** The item that was seen is still there when its record has the revision it was
    read with. *)
Lemma exact_holds recs x :
  revisions_name -> seen x recs ->
  rec_revision <$> recs !! (c, item_id (item x)) = Some (storage_revision x) -> holds recs x.
Proof.
  intros Hname (recs0 & H0 & (r & Hr & Hx)%holds_lookup) Hrev. destruct (recs !! _) as [q|] eqn:Hq; [|done].
  injection Hrev as Hrev. destruct (Hfaithful r x Hx) as [_ Hrx].
  pose proof (Hname _ _ _ _ _ H0 Hr Hq ltac:(congruence)) as ->. apply holds_lookup. eauto.
Qed.

(** A conditional write of an item that was seen replaces exactly that item. *)
Lemma spec_update_named P x r' :
  revisions_name -> is_ledger c = false -> wf_record r' -> rec_id r' = item_id (item x) ->
  (forall recs, P recs -> seen x recs) ->
  (forall recs, later G P recs -> holds recs x -> T recs (<[(c, item_id (item x)) := canonical_record r']> recs)) ->
  spec G P (map_err_m failed (call_put c r' (PreExact (storage_revision x)))) (fun _ recs' =>
    exists recs, later G P recs /\ holds recs x
      /\ recs' = <[(c, item_id (item x)) := canonical_record r']> recs).
Proof.
  intros Hname Hc Hwf Hid HP Hown.
  assert (forall recs, later G P recs ->
    put_admitted (rec_revision <$> recs !! (c, rec_id r')) r' (PreExact (storage_revision x)) = true ->
    holds recs x) as Hholds.
  { intros recs Hl Ha. unfold put_admitted in Ha. apply andb_true_iff in Ha as [Ha _]. simpl in Ha.
    apply bool_decide_eq_true_1 in Ha. rewrite Hid in Ha. apply exact_holds; [done| |done].
    apply (later_stable G); [apply seen_stable|]. destruct Hl as (recs1 & H1 & H2). exists recs1. auto. }
  apply spec_map_err. eapply (spec_weaken G P); [apply spec_put; [done|done|]|done|].
  - intros recs Hl Ha. rewrite Hid. auto.
  - intros _ recs' (recs & Hl & Ha & ->). rewrite Hid. eauto.
Qed.

Lemma spec_update P x r' :
  is_ledger c = false -> wf_record r' -> rec_id r' = item_id (item x) ->
  (forall recs, P recs -> seen x recs) ->
  (forall recs, later G P recs -> holds recs x -> T recs (<[(c, item_id (item x)) := canonical_record r']> recs)) ->
  spec G P (map_err_m failed (call_put c r' (PreExact (storage_revision x)))) (fun _ recs' =>
    exists recs, later G P recs /\ holds recs x
      /\ recs' = <[(c, item_id (item x)) := canonical_record r']> recs).
Proof. apply spec_update_named, follows_revisions_name. Qed.

(** [recs'] is [recs] with the item [x] replaced by [s]. *)
Definition replaces (recs recs' : Records) (x s : Stored I) : Prop :=
  holds recs x /\ holds recs' s /\ item_id (item s) = item_id (item x)
  /\ exists r, recs' = <[(c, item_id (item x)) := r]> recs.

Lemma spec_replace P x r s :
  is_ledger c = false -> wf_record r -> rec_id r = item_id (item x) -> decode (canonical_record r) = Ok s ->
  (forall recs, P recs -> seen x recs) ->
  (forall recs, later G P recs -> holds recs x -> T recs (<[(c, item_id (item x)) := canonical_record r]> recs)) ->
  spec G P (map_err_m failed (call_put c r (PreExact (storage_revision x)))) (fun _ recs' =>
    exists recs, later G P recs /\ replaces recs recs' x s).
Proof.
  intros Hc Hwf Hid Hdec HP Hown. eapply (spec_weaken G P); [by apply spec_update|done|].
  intros a recs' (recs & Hl & Hx & ->). exists recs. split; [done|]. split; [done|].
  destruct (Hfaithful _ _ Hdec) as [Hs _]. simpl in Hs. split; [|split; [congruence|by eexists]].
  apply holds_lookup. exists (canonical_record r). by rewrite <- Hs, Hid, lookup_insert_eq.
Qed.

(** A conditional deletion of an item that was seen deletes exactly that item. *)
Lemma spec_delete P x :
  revisions_name -> is_ledger c = false ->
  (forall recs, P recs -> seen x recs) ->
  (forall recs, later G P recs -> holds recs x -> T recs (delete (c, item_id (item x)) recs)) ->
  spec G P (map_err_m failed (call_delete c (item_id (item x)) (PreExact (storage_revision x)))) (fun _ recs' =>
    exists recs, later G P recs /\ holds recs x /\ recs' = delete (c, item_id (item x)) recs).
Proof.
  intros Hname Hc HP Hown.
  assert (forall recs recs', later G P recs ->
    spec_mutations recs [Delete c (item_id (item x)) (PreExact (storage_revision x))] = Some recs' ->
    holds recs x /\ recs' = delete (c, item_id (item x)) recs) as Hdel.
  { intros recs recs' Hl Hm. simpl in Hm. unfold spec_mutation in Hm. simpl in Hm. rewrite Hc in Hm.
    case_bool_decide as Hrev; simpl in Hm; [|done]. injection Hm as <-. split; [|done]. apply exact_holds; [done| |done].
    apply (later_stable G); [apply seen_stable|]. destruct Hl as (recs1 & H1 & H2). exists recs1. auto. }
  apply spec_map_err. eapply (spec_weaken G P); [apply spec_transact; [by apply Forall_singleton|]|done|].
  - intros recs recs' Hl Hm. destruct (Hdel _ _ Hl Hm) as [Hx ->]. auto.
  - intros _ recs' (recs & Hl & Hm). destruct (Hdel _ _ Hl Hm) as [Hx ->]. eauto.
Qed.

(** A write of a new item finds its key free. *)
Lemma spec_create P r' :
  is_ledger c = false -> wf_record r' ->
  (forall recs, later G P recs -> recs !! (c, rec_id r') = None ->
     T recs (<[(c, rec_id r') := canonical_record r']> recs)) ->
  spec G P (map_err_m failed (call_put c r' PreMissing)) (fun _ recs' =>
    exists recs, later G P recs /\ recs !! (c, rec_id r') = None
      /\ recs' = <[(c, rec_id r') := canonical_record r']> recs).
Proof.
  intros Hc Hwf Hown.
  assert (forall recs, put_admitted (rec_revision <$> recs !! (c, rec_id r')) r' PreMissing = true ->
    recs !! (c, rec_id r') = None) as Hnone.
  { intros recs Ha. unfold put_admitted in Ha. apply andb_true_iff in Ha as [Ha _]. simpl in Ha.
    apply bool_decide_eq_true_1 in Ha. by destruct (recs !! _). }
  apply spec_map_err. eapply (spec_weaken G P); [apply spec_put; [done|done|]|done|].
  - intros recs Hl Ha. auto.
  - intros _ recs' (recs & Hl & Ha & ->). eauto.
Qed.
End items.

(** ** Transactions over several records *)

Definition puts (c : Collection) (ws : list (VersionedRecord * WritePrecondition)) : list RecordMutation :=
  (fun w => Put c w.1 w.2) <$> ws.

Lemma spec_mutation_put recs c r p recs' :
  is_ledger c = false -> spec_mutation recs (Put c r p) = Some recs' <->
  put_admitted (rec_revision <$> recs !! (c, rec_id r)) r p = true
  /\ recs' = <[(c, rec_id r) := canonical_record r]> recs.
Proof. intros Hl. unfold spec_mutation. simpl. rewrite Hl. destruct (put_admitted _ r p); naive_solver. Qed.

Lemma spec_mutations_cons recs m ms recs' :
  spec_mutations recs (m :: ms) = Some recs' <->
  exists recs1, spec_mutation recs m = Some recs1 /\ spec_mutations recs1 ms = Some recs'.
Proof. simpl. destruct (spec_mutation recs m) as [recs1|]; simpl; naive_solver. Qed.

Lemma spec_puts_other recs c ws recs' k :
  is_ledger c = false -> k.1 <> c -> spec_mutations recs (puts c ws) = Some recs' -> recs' !! k = recs !! k.
Proof.
  intros Hl Hk. revert recs. induction ws as [|w ws IH]; intros recs Hm; [by injection Hm as <-|].
  unfold puts in Hm. rewrite fmap_cons in Hm. apply spec_mutations_cons in Hm as (recs1 & [_ ->]%spec_mutation_put & Hm); [|done].
  rewrite (IH _ Hm). apply lookup_insert_ne. by intros <-.
Qed.

(** Records under different keys are written independently. *)
Lemma spec_puts recs c ws recs' :
  is_ledger c = false -> NoDup ((fun w => rec_id w.1) <$> ws) -> spec_mutations recs (puts c ws) = Some recs' ->
  Forall (fun w => put_admitted (rec_revision <$> recs !! (c, rec_id w.1)) w.1 w.2 = true) ws
  /\ (forall w, w ∈ ws -> recs' !! (c, rec_id w.1) = Some (canonical_record w.1))
  /\ (forall k, (forall w, w ∈ ws -> k <> (c, rec_id w.1)) -> recs' !! k = recs !! k).
Proof.
  intros Hl. revert recs. induction ws as [|w ws IH]; intros recs Hnd Hm.
  { simpl in Hm. injection Hm as <-. split; [done|]. split; [by intros w ?%elem_of_nil|done]. }
  rewrite fmap_cons in Hnd. apply NoDup_cons in Hnd as [Hw Hnd].
  unfold puts in Hm. rewrite fmap_cons in Hm. apply spec_mutations_cons in Hm as (recs1 & H1 & Hm).
  apply spec_mutation_put in H1 as [Ha ->]; [|done]. destruct (IH _ Hnd Hm) as (Hall & Hin & Hout).
  assert (forall v, v ∈ ws -> (c, rec_id v.1) <> (c, rec_id w.1)) as Hne.
  { intros v Hv [= Heq]. apply Hw. apply list_elem_of_fmap. by exists v. }
  split; [|split].
  - constructor; [done|]. apply list.Forall_forall. intros v Hv. rewrite list.Forall_forall in Hall.
    specialize (Hall v Hv). rewrite lookup_insert_ne in Hall by (symmetry; by apply Hne). done.
  - intros v [->|Hv]%elem_of_cons; [|by apply Hin]. rewrite Hout; [by rewrite lookup_insert_eq|].
    intros v Hv. intros Heq. by apply (Hne v Hv).
  - intros k Hk. rewrite Hout; [|intros v Hv; apply Hk; by right]. apply lookup_insert_ne.
    intros <-. apply (Hk w); [by left|done].
Qed.

(** New records are written under different free keys. *)
Lemma spec_puts_missing recs c rs recs' :
  is_ledger c = false -> spec_mutations recs (puts c ((fun r => (r, PreMissing)) <$> rs)) = Some recs' ->
  NoDup (rec_id <$> rs) /\ Forall (fun r => recs !! (c, rec_id r) = None) rs.
Proof.
  intros Hl. revert recs. induction rs as [|r rs IH]; intros recs Hm; [split; constructor|].
  unfold puts in Hm. rewrite !fmap_cons in Hm. apply spec_mutations_cons in Hm as (recs1 & H1 & Hm). simpl in H1.
  apply spec_mutation_put in H1 as [Ha ->]; [|done]. destruct (IH _ Hm) as [Hnd Hall].
  apply andb_true_iff in Ha as [Ha _]. apply bool_decide_eq_true_1 in Ha.
  assert (recs !! (c, rec_id r) = None) as Hnone by by destruct (recs !! _).
  rewrite list.Forall_forall in Hall.
  assert (forall q, q ∈ rs -> rec_id q <> rec_id r) as Hne.
  { intros q Hq Heq. specialize (Hall q Hq). rewrite Heq, lookup_insert_eq in Hall. done. }
  split.
  - rewrite fmap_cons. apply NoDup_cons. split; [|done]. intros (q & Heq & Hq)%list_elem_of_fmap. by apply (Hne q Hq).
  - constructor; [done|]. apply list.Forall_forall. intros q Hq. specialize (Hall q Hq).
    rewrite lookup_insert_ne in Hall; [done|]. intros [= Heq]. by apply (Hne q Hq).
Qed.
