(* ===== verification/Serial.v ===== *)
(** * A concrete codec

    Values as sequences of numbers, read back from the front of any input.  The
    closed examples of the services use it in the place of the codecs that
    [serde] derives: the document of an item is the string of its numbers. *)

From Stdlib Require Import ZArith Lia String.
From stdpp Require Import base decidable countable relations gmap sorting option list.
From S2P Require Import Prelude RustStd AgentTypes Json StateStoreCore ItemStore.

(** A serializer whose output is read back from the front of any input. *)
Class Serial (A : Type) : Type := {
  ser : A -> list Z;
  de : list Z -> option (A * list Z);
  de_ser : forall a rest, de (ser a ++ rest) = Some (a, rest)
}.

Definition de_head (l : list Z) : option (Z * list Z) := match l with [] => None | z :: l => Some (z, l) end.

#[export] Program Instance Serial_Z : Serial Z := {| ser z := [z]; de := de_head |}.
Next Obligation. done. Qed.

#[export] Program Instance Serial_pair {A B} `{Serial A, Serial B} : Serial (A * B) := {|
  ser p := ser p.1 ++ ser p.2;
  de l := '(a, l) ← de l; '(b, l) ← de l; Some ((a, b), l) |}.
Next Obligation.
  intros A B HA HB [a b] rest. cbn [fst snd]. rewrite <-app_assoc, de_ser. cbn [mbind option_bind]. by rewrite de_ser.
Qed.

Section lists.
Context {A : Type} `{Serial A}.

Fixpoint de_many (n : nat) (l : list Z) : option (list A * list Z) :=
  match n with
  | 0 => Some ([], l)
  | S n => '(a, l) ← de l; '(xs, l) ← de_many n l; Some (a :: xs, l)
  end.

Lemma de_many_ser xs rest : de_many (length xs) ((xs ≫= ser) ++ rest) = Some (xs, rest).
Proof.
  induction xs as [|x xs IH]; [done|]. cbn [length de_many]. rewrite bind_cons, <-app_assoc, de_ser.
  cbn [mbind option_bind]. by rewrite IH.
Qed.

#[export] Program Instance Serial_list : Serial (list A) := {|
  ser xs := Z.of_nat (length xs) :: (xs ≫= ser);
  de l := '(n, l) ← de_head l; de_many (Z.to_nat n) l |}.
Next Obligation. intros xs rest. cbn. by rewrite Nat2Z.id, de_many_ser. Qed.

End lists.
#[export] Existing Instance Serial_list.

(** Through a type with a serializer. *)
Definition de_via {A B} `{Serial A} (g : A -> option B) (l : list Z) : option (B * list Z) :=
  '(a, l) ← de l; b ← g a; Some (b, l).

Lemma de_via_ser {A B} `{Serial A} (f : B -> A) (g : A -> option B) (Hgf : forall b, g (f b) = Some b) b rest :
  de_via g (ser (f b) ++ rest) = Some (b, rest).
Proof. unfold de_via. rewrite de_ser. simpl. by rewrite Hgf. Qed.

Definition Serial_via {A B} `{Serial A} (f : B -> A) (g : A -> option B) (Hgf : forall b, g (f b) = Some b) : Serial B :=
  {| ser b := ser (f b); de := de_via g; de_ser := de_via_ser f g Hgf |}.

#[export] Program Instance Serial_option {A} `{Serial A} : Serial (option A) :=
  Serial_via (A := list A) (fun o => match o with Some a => [a] | None => [] end) (fun l => Some (head l)) _.
Next Obligation. by intros A H []. Qed.
#[export] Program Instance Serial_gmap {K V} `{Countable K, Serial K, Serial V} : Serial (gmap K V) :=
  Serial_via (A := list (K * V)) (fun m : gmap K V => map_to_list m) (fun l => Some (list_to_map l)) _.
Next Obligation. intros. simpl. by rewrite list_to_map_to_list. Qed.
#[export] Program Instance Serial_gset {K} `{Countable K, Serial K} : Serial (gset K) :=
  Serial_via (A := list K) elements (fun l => Some (list_to_set l)) _.
Next Obligation. intros. simpl. by rewrite list_to_set_elements_L. Qed.
#[export] Program Instance Serial_enum {A} `{Enumerated A} : Serial A :=
  Serial_via (A := Z) variant_index (fun z => variants !! Z.to_nat z) _.
Next Obligation. intros. apply variant_index_lookup. Qed.
#[export] Program Instance Serial_bool : Serial bool := Serial_via (A := Z) Z.b2z (fun z => Some (z =? 1)%Z) _.
Next Obligation. by intros []. Qed.
#[export] Program Instance Serial_entity : Serial EntityId := Serial_via (A := list Z) as_str (fun s => Some (MkEntityId s)) _.
Next Obligation. by intros []. Qed.
#[export] Program Instance Serial_typed {name} : Serial (TypedId name) :=
  Serial_via (A := EntityId) as_entity_id (fun s => Some (MkTypedId s)) _.
Next Obligation. by intros name []. Qed.
#[export] Program Instance Serial_time : Serial UtcTimestamp := Serial_via (A := Z) unix_millis (fun s => Some (MkUtcTimestamp s)) _.
Next Obligation. by intros []. Qed.

#[export] Program Instance Serial_revision : Serial Revision := Serial_via (A := Z) revision_get (fun z => Some (MkRevision z)) _.
Next Obligation. by intros []. Qed.
#[export] Program Instance Serial_version : Serial SchemaVersion :=
  Serial_via (fun v => (sv_major v, sv_minor v)) (fun p => Some (MkSchemaVersion p.1 p.2)) _.
Next Obligation. by intros []. Qed.
#[export] Program Instance Serial_value : Serial Value :=
  Serial_via (A := Z) (fun v => Zpos (encode v)) (fun z => decode (Z.to_pos z)) _.
Next Obligation. intros v. apply decode_encode. Qed.

(** ** Tagged unions: a number and the fields of the variant *)

Definition de_all {A} `{Serial A} (l : list Z) : option A := fst <$> de l.

Lemma de_all_ser {A} `{Serial A} (a : A) : de_all (ser a) = Some a.
Proof. unfold de_all. pose proof (de_ser a []) as Hd. rewrite app_nil_r in Hd. by rewrite Hd. Qed.

(** ** Documents *)

(** The document of an item of which [valid] holds. *)
Definition serial_document {A} `{Serial A} (valid : A -> bool) : Document A := {|
  to_value a := if valid a then Ok (Str (ser a)) else Err JsonErr;
  from_value v :=
    match v with
    | Str l => match de_all l with Some a => if valid a then Ok a else Err JsonErr | None => Err JsonErr end
    | _ => Err JsonErr
    end
|}.

Lemma serial_document_lawful {A} `{Serial A} (valid : A -> bool) : @document_lawful A (serial_document valid).
Proof.
  intros x v. cbn [to_value serial_document]. destruct (valid x) eqn:Ev; [|done]. intros [= <-].
  split; [done|]. split; [done|]. cbn. by rewrite de_all_ser, Ev.
Qed.

Lemma serial_document_valid {A} `{Serial A} (valid : A -> bool) v x :
  @from_value A (serial_document valid) v = Ok x -> valid x = true.
Proof.
  cbn [from_value serial_document]. destruct v; try done. destruct (de_all s) as [a|]; [|done].
  destruct (valid a) eqn:Ev; [|done]. by intros [= <-].
Qed.
