(* ===== verification/ServiceExample.v ===== *)
(** * A concrete repository for the item services

    The embedded store on the engine of finite maps, the identifiers of the
    Crockford alphabet, and a world in which a service starts: an empty
    repository, no poisoned lock and no other writer. *)

From Stdlib Require Import ZArith Lia String.
From stdpp Require Import base decidable countable relations gmap sorting option list.
From S2P Require Import Prelude RustStd AgentTypes Json StateStoreCore Sqlite StateStore StoreProperties ItemStore Serial.

#[export] Existing Instance crockford_ulid.
#[export] Existing Instance token_json.
#[export] Existing Instance memory_sqlite.
#[export] Existing Instance memory_laws.

Abbreviation SampleWorld := (World EmbeddedStore).

Definition fresh_world : SampleWorld := MkWorld empty_store [] [] 0.

Lemma fresh_sees G : sees G fresh_world ∅.
Proof. split; [apply empty_store_view|constructor]. Qed.

Definition nth_id (n : nat) : EntityId := entity_id_from_u128 (2 ^ 80 + Z.of_nat n mod 2 ^ 64).

Lemma nth_id_canonical n : id_canonical (nth_id n).
Proof.
  exists (2 ^ 80 + Z.of_nat n mod 2 ^ 64)%Z. split; [|done].
  pose proof (Z.mod_pos_bound (Z.of_nat n) (2 ^ 64)). lia.
Qed.

(** Identifiers of the inputs, apart from the drawn ones. *)
Definition named_id (n : Z) : EntityId := entity_id_from_u128 n.

Lemma named_id_canonical n : (0 <= n < 2 ^ 128)%Z -> id_canonical (named_id n).
Proof. intros Hn. by exists n. Qed.

Definition canonicalb (id : EntityId) : bool :=
  match crockford_from_string (as_str id) with
  | Some v => (0 <=? v)%Z && (v <? 2 ^ 128)%Z && bool_decide (id = entity_id_from_u128 v)
  | None => false
  end.

Lemma canonicalb_sound id : canonicalb id = true -> id_canonical id.
Proof.
  unfold canonicalb. destruct (crockford_from_string _) as [v|]; [|done].
  intros [[H1 H2]%andb_true_iff H3]%andb_true_iff. exists v. split; [lia|]. by apply bool_decide_eq_true in H3.
Qed.

Definition moment (n : Z) : UtcTimestamp := MkUtcTimestamp n.

Lemma moment_i64 n : (0 <= n < 2 ^ 62)%Z -> is_i64 (unix_millis (moment n)).
Proof. unfold is_i64, i64_min, i64_max. simpl. lia. Qed.

(** The items of an empty repository. *)
Lemma empty_all_items {I} (M : Machine I) P : all_items M P ∅.
Proof. intros id x (r & Hr & _). by rewrite lookup_empty in Hr. Qed.

Lemma empty_holds {I E} c (decode : VersionedRecord -> result E (Stored I)) item_id init step x :
  ~ holds c decode item_id init step ∅ x.
Proof. intros (r & Hr & _). by rewrite lookup_empty in Hr. Qed.

Lemma empty_item_keys {I E} c (decode : VersionedRecord -> result E (Stored I)) p : size (item_keys c decode p ∅) = 0.
Proof. unfold item_keys. by rewrite map_filter_empty, dom_empty_L, size_empty. Qed.

(** A repository with one record. *)
Definition world_with (c : Collection) (r : VersionedRecord) : SampleWorld :=
  MkWorld (transact empty_store [Put c r PreMissing]).2 [] [] 0.

Lemma world_with_sees G c r :
  wf_record r -> is_ledger c = false -> is_ok (transact empty_store [Put c r PreMissing]).1 = true ->
  sees G (world_with c r) (<[(c, rec_id r) := canonical_record r]> ∅).
Proof.
  intros Hwf Hl Hok. unfold world_with.
  destruct (ok_pair (transact empty_store [Put c r PreMissing])) as [receipt Hr]; [done|].
  destruct (transact_ok empty_store ∅ [Put c r PreMissing] receipt (transact empty_store [Put c r PreMissing]).2)
    as (recs & Hm & Hv); [apply empty_store_view|by apply Forall_singleton|exact Hr|].
  split; [|constructor]. simpl in Hm. unfold spec_mutation in Hm. simpl in Hm. rewrite Hl in Hm.
  destruct (put_admitted _ r PreMissing); simpl in Hm; [|done]. injection Hm as <-. exact Hv.
Qed.
