(* ===== verification/Delivery.v ===== *)
(** * The delivery outbox: [crates/delivery/src/lib.rs]

    Outbound messages as durable items: enqueued once per stable key, claimed by
    one worker at a time under a lease, acknowledged, retried with backoff or
    given up.  The repository is the interface of [StateStoreCore]; the derived
    codec of an item and the identifiers [EntityId::new] draws are parameters.
    The data of a message is that of [crates/channel-core/src/lib.rs]. *)

From Stdlib Require Import ZArith Lia String.
From stdpp Require Import base decidable countable relations gmap sorting option list.
From S2P Require Import Prelude RustStd AgentTypes Json StateStoreCore ItemStore.

(** ** Messages of [crates/channel-core] *)

Record ReplyRoute := MkReplyRoute {
  route_channel : rstr;
  route_external_account : rstr;
  route_conversation : rstr;
  route_thread : option rstr;
  route_reply_to_message : option rstr
}.

Record OutboundMessage := MkOutbound {
  out_route : ReplyRoute;
  out_idempotency_key : rstr;
  out_text : rstr;
  out_artifacts : list ArtifactId
}.

Record SendReceipt := MkSendReceipt {
  platform_message_id : rstr;
  accepted_at : UtcTimestamp;
  duplicate_possible : bool
}.

Inductive RetryClass := Retryable | RateLimited | Reconnect | Permanent.

Record AdapterFailure := MkAdapterFailure {
  failure_class : RetryClass;
  failure_safe_message : rstr;
  failure_retry_after_ms : option Z
}.

#[export] Instance ReplyRoute_eq_dec : EqDecision ReplyRoute.
Proof. solve_decision. Defined.
#[export] Instance SendReceipt_eq_dec : EqDecision SendReceipt.
Proof. solve_decision. Defined.
#[export] Instance RetryClass_eq_dec : EqDecision RetryClass.
Proof. solve_decision. Defined.

(** ** Items *)

Inductive DeliverySource :=
| SourceInteractive (id : EntityId)
| SourceScheduled (id : JobId)
| SourceChild (id : EntityId)
| SourceCommitment (id : CommitmentId)
| SourceAttention (id : EntityId)
| SourceRefinement (id : EntityId)
| SourceGoal (id : GoalId).

Inductive DeliveryState := DPending | Claimed | RetryScheduled | Sent | PermanentFailure | DCancelled.

#[export] Instance DeliverySource_eq_dec : EqDecision DeliverySource.
Proof. solve_decision. Defined.
#[export] Instance DeliveryState_eq_dec : EqDecision DeliveryState.
Proof. solve_decision. Defined.

Definition is_terminal (s : DeliveryState) : bool :=
  match s with Sent | PermanentFailure | DCancelled => true | _ => false end.

Record DeliveryItem := MkDelivery {
  d_id : DeliveryId;
  d_stable_key : rstr;
  d_profile_id : ProfileId;
  d_session_id : SessionId;
  d_turn_id : option TurnId;
  d_final_id : option EntryId;
  d_source : DeliverySource;
  d_route : ReplyRoute;
  d_text : rstr;
  d_artifacts : list ArtifactId;
  d_state : DeliveryState;
  d_attempt_count : Z;
  d_not_before : UtcTimestamp;
  d_safe_error : option rstr;
  d_receipt : option SendReceipt;
  d_platform_idempotency : bool;
  d_possible_duplicate : bool;
  d_claim_token : option EntityId;
  d_claim_expires_at : option UtcTimestamp;
  d_created_at : UtcTimestamp;
  d_updated_at : UtcTimestamp;
  d_revision : Revision
}.

#[export] Instance DeliveryItem_eq_dec : EqDecision DeliveryItem.
Proof. solve_decision. Defined.

Definition delivery_state_name (s : DeliveryState) : rstr :=
  match s with
  | DPending => str "pending"
  | Claimed => str "claimed"
  | RetryScheduled => str "retry_scheduled"
  | Sent => str "sent"
  | PermanentFailure => str "permanent_failure"
  | DCancelled => str "cancelled"
  end.

Record DeliveryProjection := MkDeliveryProjection {
  proj_delivery_id : DeliveryId;
  proj_state : rstr;
  proj_terminal : bool;
  proj_turn_id : option TurnId;
  proj_final_id : option EntryId;
  proj_acknowledged : bool
}.

Definition projection (x : DeliveryItem) : DeliveryProjection :=
  MkDeliveryProjection (d_id x) (delivery_state_name (d_state x)) (is_terminal (d_state x))
    (d_turn_id x) (d_final_id x) (bool_decide (d_state x = Sent)).

Record NewDelivery := MkNewDelivery {
  n_stable_key : rstr;
  n_profile_id : ProfileId;
  n_session_id : SessionId;
  n_turn_id : option TurnId;
  n_final_id : option EntryId;
  n_source : DeliverySource;
  n_route : ReplyRoute;
  n_text : rstr;
  n_artifacts : list ArtifactId;
  n_platform_idempotency : bool;
  n_not_before : UtcTimestamp
}.

Record DeliveryClaim := MkClaim { claim_item : DeliveryItem; claim_token : EntityId }.

Record DeliveryConfig := MkDeliveryConfig {
  max_pending : Z;
  max_text_bytes : Z;
  max_artifacts : Z;
  max_attempts : Z;
  initial_backoff_ms : Z;
  max_backoff_ms : Z;
  claim_lease_ms : Z
}.

Definition default_delivery_config : DeliveryConfig :=
  MkDeliveryConfig 1024 (256 * 1024) 32 8 1000 (15 * 60 * 1000) 60000.

Inductive DeliveryError (E : Type) :=
| DeInvalid
| DeFull
| DeNotFound
| DeStableKeyConflict
| DeStaleClaim
| DeIllegalTransition
| DeRevisionOverflow
| DeRepository (error : E)
| DeCorrupt (reason : ItemCorrupt)
| DeLockPoisoned.
Global Arguments DeInvalid {E}.
Global Arguments DeFull {E}.
Global Arguments DeNotFound {E}.
Global Arguments DeStableKeyConflict {E}.
Global Arguments DeStaleClaim {E}.
Global Arguments DeIllegalTransition {E}.
Global Arguments DeRevisionOverflow {E}.
Global Arguments DeRepository {E}.
Global Arguments DeCorrupt {E}.
Global Arguments DeLockPoisoned {E}.

(** The fields of an item that its life changes. *)
Definition with_state (x : DeliveryItem) (state : DeliveryState) (attempts : Z) (not_before : UtcTimestamp)
    (safe_error : option rstr) (receipt : option SendReceipt) (possible_duplicate : bool)
    (token : option EntityId) (expires_at : option UtcTimestamp) : DeliveryItem :=
  MkDelivery (d_id x) (d_stable_key x) (d_profile_id x) (d_session_id x) (d_turn_id x) (d_final_id x)
    (d_source x) (d_route x) (d_text x) (d_artifacts x) state attempts not_before safe_error receipt
    (d_platform_idempotency x) possible_duplicate token expires_at (d_created_at x) (d_updated_at x)
    (d_revision x).

Definition stamped (x : DeliveryItem) (revision : Revision) (now : UtcTimestamp) : DeliveryItem :=
  MkDelivery (d_id x) (d_stable_key x) (d_profile_id x) (d_session_id x) (d_turn_id x) (d_final_id x)
    (d_source x) (d_route x) (d_text x) (d_artifacts x) (d_state x) (d_attempt_count x) (d_not_before x)
    (d_safe_error x) (d_receipt x) (d_platform_idempotency x) (d_possible_duplicate x) (d_claim_token x)
    (d_claim_expires_at x) (d_created_at x) now revision.

(** ** Checks *)

Definition bounded_error (value : rstr) : rstr :=
  let value := trim value in
  if (str_len value <=? 512)%Z then value
  else str_slice_to value (Z.of_nat (back_to_boundary value 512)).

Global Arguments bounded_error : simpl never.

Definition same_delivery (x : DeliveryItem) (n : NewDelivery) : bool :=
  bool_decide (d_profile_id x = n_profile_id n)
  && bool_decide (d_session_id x = n_session_id n)
  && bool_decide (d_turn_id x = n_turn_id n)
  && bool_decide (d_final_id x = n_final_id n)
  && bool_decide (d_source x = n_source n)
  && bool_decide (d_route x = n_route n)
  && bool_decide (d_text x = n_text n)
  && bool_decide (d_artifacts x = n_artifacts n)
  && bool_decide (d_platform_idempotency x = n_platform_idempotency n).

(** ** The outbox *)

Section outbox.
Context {S : Type} `{HR : Repository S, HD : Document DeliveryItem}.
Context (new_id : nat -> EntityId) (config : DeliveryConfig).

Abbreviation Error := (DeliveryError repo_error).
Abbreviation outbox_m := (stateT (World S) Error).
Abbreviation StoredDelivery := (Stored DeliveryItem).

Definition outbox_new : result Error DeliveryConfig :=
  reject_if ((max_pending config =? 0) || (max_text_bytes config =? 0) || (max_artifacts config =? 0)
             || (max_attempts config =? 0) || (initial_backoff_ms config <=? 0)
             || (max_backoff_ms config <? initial_backoff_ms config) || (claim_lease_ms config <=? 0))%Z%bool
    DeInvalid ;;
  Ok config.

Definition validate_new (n : NewDelivery) : result Error unit :=
  reject_if (str_blank (n_stable_key n)
             || (256 <? str_len (n_stable_key n))%Z
             || str_blank (n_text n)
             || (max_text_bytes config <? str_len (n_text n))%Z
             || (max_artifacts config <? Z.of_nat (length (n_artifacts n)))%Z
             || str_blank (route_channel (n_route n))
             || str_blank (route_external_account (n_route n))
             || str_blank (route_conversation (n_route n)))%bool
    DeInvalid.

Definition verify_claim (x : DeliveryItem) (claim : DeliveryClaim) : result Error unit :=
  reject_if (negb (bool_decide (d_state x = Claimed))
             || negb (bool_decide (d_claim_token x = Some (claim_token claim))))%bool
    DeStaleClaim.

Definition encode (x : DeliveryItem) : result Error VersionedRecord :=
  payload ← map_err (fun e => DeCorrupt (CorruptDocument e)) (to_value x);
  Ok (MkVersionedRecord CURRENT_SCHEMA_VERSION (as_entity_id (d_id x)) (d_revision x) (d_updated_at x) payload).

Definition decode (r : VersionedRecord) : result Error StoredDelivery :=
  x ← map_err (fun e => DeCorrupt (CorruptDocument e)) (from_value (rec_payload r));
  reject_if (negb (bool_decide (as_entity_id (d_id x) = rec_id r))
             || negb (bool_decide (d_revision x = rec_revision r)))%bool
    (DeCorrupt CorruptEnvelope) ;;
  Ok (MkStored x (rec_revision r)).

Definition lock : outbox_m unit := lock_serial Deliveries DeLockPoisoned.

Definition load (id : DeliveryId) : outbox_m (option StoredDelivery) :=
  load_item Deliveries DeRepository decode (as_entity_id id).

Definition load_all : outbox_m (list StoredDelivery) := load_items Deliveries DeRepository decode.

Definition required (id : DeliveryId) : outbox_m StoredDelivery :=
  found ← load id;
  lift (ok_or found DeNotFound).

Definition put_existing (stored : StoredDelivery) (now : UtcTimestamp) : outbox_m StoredDelivery :=
  next ← lift (ok_or (checked_next (storage_revision stored)) DeRevisionOverflow);
  let x := stamped (item stored) next now in
  r ← lift (encode x);
  map_err_m DeRepository (call_put Deliveries r (PreExact (storage_revision stored))) ;;
  mret (MkStored x next).

Definition new_item (n : NewDelivery) (id : DeliveryId) (now : UtcTimestamp) : DeliveryItem :=
  MkDelivery id (n_stable_key n) (n_profile_id n) (n_session_id n) (n_turn_id n) (n_final_id n)
    (n_source n) (n_route n) (n_text n) (n_artifacts n) DPending 0 (n_not_before n) None None
    (n_platform_idempotency n) false None None now now Revision_ZERO.

Definition enqueue (n : NewDelivery) (now : UtcTimestamp) : outbox_m DeliveryItem :=
  lift (validate_new n) ;;
  lock ;;
  records ← load_all;
  match List.find (fun x => bool_decide (d_stable_key (item x) = n_stable_key n)) records with
  | Some existing =>
      if same_delivery (item existing) n then mret (item existing) else throw DeStableKeyConflict
  | None =>
      if (max_pending config <=?
          Z.of_nat (length (List.filter (fun x => negb (is_terminal (d_state (item x)))) records)))%Z
      then throw DeFull
      else
        id ← draw_id new_id;
        let x := new_item n (MkTypedId id) now in
        r ← lift (encode x);
        map_err_m DeRepository (call_put Deliveries r PreMissing) ;;
        mret x
  end.

(** [sort_by_key(|stored| (not_before, created_at))]. *)
Definition due_cmp (x y : StoredDelivery) : comparison :=
  rcmp (d_not_before (item x), d_created_at (item x)) (d_not_before (item y), d_created_at (item y)).

Definition is_due (matches_route : DeliveryItem -> bool) (now : UtcTimestamp) (x : StoredDelivery) : bool :=
  (bool_decide (d_state (item x) = DPending \/ d_state (item x) = RetryScheduled)
   && rleb (d_not_before (item x)) now && matches_route (item x))%bool.

Definition claimed_item (x : DeliveryItem) (token : EntityId) (now : UtcTimestamp) : DeliveryItem :=
  with_state x Claimed (u32_saturating_add (d_attempt_count x) 1) (d_not_before x) None (d_receipt x)
    (d_possible_duplicate x) (Some token)
    (Some (MkUtcTimestamp (i64_saturating_add (unix_millis now) (claim_lease_ms config)))).

Definition claim_next_matching (matches_route : DeliveryItem -> bool) (now : UtcTimestamp)
  : outbox_m (option DeliveryClaim) :=
  lock ;;
  records ← load_all;
  match List.find (is_due matches_route now) (sort_by due_cmp records) with
  | None => mret None
  | Some stored =>
      token ← draw_id new_id;
      stored ← put_existing (MkStored (claimed_item (item stored) token now) (storage_revision stored)) now;
      mret (Some (MkClaim (item stored) token))
  end.

Definition claim_next (now : UtcTimestamp) : outbox_m (option DeliveryClaim) :=
  claim_next_matching (fun _ => true) now.

Definition claim_next_for_account (channel external_account : rstr) (now : UtcTimestamp)
  : outbox_m (option DeliveryClaim) :=
  lift (reject_if (str_blank channel || str_blank external_account)%bool DeInvalid) ;;
  claim_next_matching
    (fun x => bool_decide (route_channel (d_route x) = channel)
              && bool_decide (route_external_account (d_route x) = external_account))%bool
    now.

Definition outbound (claim : DeliveryClaim) : OutboundMessage :=
  let x := claim_item claim in MkOutbound (d_route x) (d_stable_key x) (d_text x) (d_artifacts x).

Definition acknowledged_item (x : DeliveryItem) (receipt : SendReceipt) : DeliveryItem :=
  let receipt := MkSendReceipt (platform_message_id receipt) (accepted_at receipt)
                   (duplicate_possible receipt || d_possible_duplicate x) in
  with_state x Sent (d_attempt_count x) (d_not_before x) None (Some receipt) (d_possible_duplicate x) None None.

Definition acknowledge (claim : DeliveryClaim) (receipt : SendReceipt) (now : UtcTimestamp)
  : outbox_m DeliveryItem :=
  lock ;;
  stored ← required (d_id (claim_item claim));
  lift (verify_claim (item stored) claim) ;;
  stored ← put_existing (MkStored (acknowledged_item (item stored) receipt) (storage_revision stored)) now;
  mret (item stored).

Definition backoff_ms (attempt : Z) : Z :=
  let exponent := Z.min (Z.max 0 (attempt - 1)) 62 in
  Z.min (i64_saturating_mul (initial_backoff_ms config)
           (match i64_checked_shl 1 exponent with Some v => v | None => i64_max end))
        (max_backoff_ms config).

Definition failed_item (x : DeliveryItem) (failure : AdapterFailure) (now : UtcTimestamp) : DeliveryItem :=
  let retryable := (negb (bool_decide (failure_class failure = Permanent))
                    && (d_attempt_count x <? max_attempts config)%Z)%bool in
  let backoff := match failure_retry_after_ms failure ≫= i64_try_from with
                 | Some v => v
                 | None => backoff_ms (d_attempt_count x)
                 end in
  with_state x (if retryable then RetryScheduled else PermanentFailure) (d_attempt_count x)
    (if retryable
     then MkUtcTimestamp (i64_saturating_add (unix_millis now) (Z.min backoff (max_backoff_ms config)))
     else d_not_before x)
    (Some (bounded_error (failure_safe_message failure))) (d_receipt x) (d_possible_duplicate x) None None.

Definition fail (claim : DeliveryClaim) (failure : AdapterFailure) (now : UtcTimestamp)
  : outbox_m DeliveryItem :=
  lock ;;
  stored ← required (d_id (claim_item claim));
  lift (verify_claim (item stored) claim) ;;
  stored ← put_existing (MkStored (failed_item (item stored) failure now) (storage_revision stored)) now;
  mret (item stored).

Definition is_expired (now : UtcTimestamp) (x : StoredDelivery) : bool :=
  (bool_decide (d_state (item x) = Claimed)
   && match d_claim_expires_at (item x) with Some expiry => rleb expiry now | None => false end)%bool.

Definition recovered_item (x : DeliveryItem) (now : UtcTimestamp) : DeliveryItem :=
  with_state x (if (max_attempts config <=? d_attempt_count x)%Z then PermanentFailure else RetryScheduled)
    (d_attempt_count x) now (Some (str "delivery claim expired before acknowledgement")) (d_receipt x)
    (d_possible_duplicate x || negb (d_platform_idempotency x)) None None.

Definition recover_expired (now : UtcTimestamp) : outbox_m (list DeliveryItem) :=
  lock ;;
  records ← load_all;
  map_m (fun stored =>
           stored ← put_existing (MkStored (recovered_item (item stored) now) (storage_revision stored)) now;
           mret (item stored))
        (List.filter (is_expired now) records).

Definition cancelled_item (x : DeliveryItem) (reason : rstr) : DeliveryItem :=
  with_state x DCancelled (d_attempt_count x) (d_not_before x) (Some (bounded_error reason)) (d_receipt x)
    (d_possible_duplicate x) None None.

Definition cancel (id : DeliveryId) (reason : rstr) (now : UtcTimestamp) : outbox_m DeliveryItem :=
  lock ;;
  stored ← required id;
  lift (reject_if (is_terminal (d_state (item stored)) || str_blank reason)%bool DeIllegalTransition) ;;
  stored ← put_existing (MkStored (cancelled_item (item stored) reason) (storage_revision stored)) now;
  mret (item stored).

Definition get (id : DeliveryId) : outbox_m (option DeliveryItem) :=
  lock ;;
  found ← load id;
  mret (item <$> found).

Definition list_all : outbox_m (list DeliveryItem) :=
  lock ;;
  records ← load_all;
  mret (item <$> records).
End outbox.
