(* ===== verification/DeliveryMachine.v ===== *)
(** * The life of a delivery

    What may happen to one delivery item, as a step relation; the invariant of
    its states; and that every operation of the outbox of [Delivery] moves the
    records of the repository only along these steps, whatever other outboxes
    over the same repository do and whether or not acknowledgements of commits
    are lost. *)

From Stdlib Require Import ZArith Lia String.
From stdpp Require Import base decidable countable relations gmap sorting option list.
From S2P Require Import Prelude RustStd AgentTypes Json StateStoreCore ItemStore Delivery.

Definition delivery_key (x : DeliveryItem) : EntityId := as_entity_id (d_id x).

Lemma delivery_key_stamped x revision now : delivery_key (stamped x revision now) = delivery_key x.
Proof. done. Qed.

(** ** Steps *)

Section steps.
Context (config : DeliveryConfig).

Inductive delivery_step : DeliveryItem -> DeliveryItem -> Prop :=
| step_claim x token now revision :
    d_state x = DPending \/ d_state x = RetryScheduled -> rle (d_not_before x) now ->
    delivery_step x (stamped (claimed_item config x token now) revision now)
| step_acknowledge x token receipt now revision :
    d_state x = Claimed -> d_claim_token x = Some token ->
    delivery_step x (stamped (acknowledged_item x receipt) revision now)
| step_fail x token failure now revision :
    d_state x = Claimed -> d_claim_token x = Some token ->
    delivery_step x (stamped (failed_item config x failure now) revision now)
| step_recover x expiry now revision :
    d_state x = Claimed -> d_claim_expires_at x = Some expiry -> rle expiry now ->
    delivery_step x (stamped (recovered_item config x now) revision now)
| step_cancel x reason now revision :
    is_terminal (d_state x) = false -> str_blank reason = false ->
    delivery_step x (stamped (cancelled_item x reason) revision now).

Definition delivery_init (x : DeliveryItem) : Prop := exists n id now, x = new_item n id now.

(** What an item is about never changes. *)
Definition content (x : DeliveryItem) :=
  (d_id x, d_stable_key x, d_profile_id x, d_session_id x, d_turn_id x, d_final_id x, d_source x, d_route x,
   d_text x, d_artifacts x, d_platform_idempotency x, d_created_at x).

Lemma step_content x y : delivery_step x y -> content y = content x.
Proof. by destruct 1. Qed.

Lemma steps_content x y : rtc delivery_step x y -> content y = content x.
Proof. induction 1 as [|x y z Hs _ IH]; [done|]. rewrite IH. by apply step_content. Qed.

Lemma terminal_stuck x y : is_terminal (d_state x) = true -> ~ delivery_step x y.
Proof.
  intros Ht Hs. destruct Hs as [x t n r [Hd|Hd] Hn|x t rc n r Hd Hk|x t f n r Hd Hk|x e n r Hd He Hle|x rs n r Hd Hb];
    rewrite Hd in Ht; done.
Qed.

(** Attempts, claims and receipts agree with the state of an item. *)
Definition delivery_ok (x : DeliveryItem) : Prop :=
  match d_state x with
  | DPending => d_attempt_count x = 0%Z /\ d_claim_token x = None /\ d_receipt x = None
  | Claimed => (1 <= d_attempt_count x <= max_attempts config)%Z /\ is_Some (d_claim_token x)
               /\ is_Some (d_claim_expires_at x) /\ d_receipt x = None
  | RetryScheduled => (1 <= d_attempt_count x < max_attempts config)%Z /\ d_claim_token x = None
                      /\ d_receipt x = None
  | Sent => (1 <= d_attempt_count x <= max_attempts config)%Z /\ d_claim_token x = None
            /\ exists rc, d_receipt x = Some rc /\ (d_possible_duplicate x = true -> duplicate_possible rc = true)
  | PermanentFailure => (1 <= d_attempt_count x <= max_attempts config)%Z /\ d_claim_token x = None
                        /\ d_receipt x = None
  | DCancelled => (0 <= d_attempt_count x <= max_attempts config)%Z /\ d_claim_token x = None
                  /\ d_receipt x = None
  end.

Lemma init_ok x : delivery_init x -> delivery_ok x.
Proof. intros (n & id & now & ->). done. Qed.

Lemma step_ok x y :
  (1 <= max_attempts config <= u32_max)%Z -> delivery_ok x -> delivery_step x y -> delivery_ok y.
Proof.
  unfold delivery_ok. intros Hmax Hok Hs. destruct Hs as [x t n r Hd Hn|x t rc n r Hd Hk|x t f n r Hd Hk|x e n r Hd He Hle|x rs n r Hd Hb]; simpl.
  - unfold u32_saturating_add.
    assert (0 <= d_attempt_count x < max_attempts config /\ d_receipt x = None)%Z as [Ha Hr].
    { destruct Hd as [Hd|Hd]; rewrite Hd in *; destruct_and!; (split; [lia|done]). }
    split; [lia|]. by repeat split.
  - rewrite Hd in *. destruct_and!. split; [done|]. split; [done|]. eexists. split; [done|]. simpl.
    intros ->. apply orb_true_r.
  - rewrite Hd in *. destruct_and!. destruct (_ && _)%bool eqn:Eb; [bool_inv|]; by repeat split; try lia.
  - rewrite Hd in *. destruct_and!. destruct (Z.leb_spec (max_attempts config) (d_attempt_count x));
      by repeat split; try lia.
  - destruct (d_state x); destruct_and!; repeat split; try lia; done.
Qed.

(** A claim uses up one attempt and nothing gives attempts back. *)
Lemma step_attempts x y :
  (1 <= max_attempts config <= u32_max)%Z -> delivery_ok x -> delivery_step x y ->
  d_attempt_count y = if bool_decide (d_state y = Claimed) then (d_attempt_count x + 1)%Z else d_attempt_count x.
Proof.
  intros Hmax Hok Hs. destruct Hs as [x t n r Hd Hn|x t rc n r Hd Hk|x t f n r Hd Hk|x e n r Hd He Hle|x rs n r Hd Hb];
    unfold delivery_ok in Hok; simpl; try (by repeat case_match).
  unfold u32_saturating_add. destruct Hd as [Hd|Hd]; rewrite Hd in *; destruct_and!; lia.
Qed.

(** A possible duplicate stays one. *)
Lemma step_duplicate x y : delivery_step x y -> d_possible_duplicate x = true -> d_possible_duplicate y = true.
Proof. destruct 1; simpl; intros Hp; rewrite ?Hp; done. Qed.
End steps.

(** ** The operations *)

Section operations.
Context {S : Type} `{HU : Ulid, HR : Repository S, HL : !RepositoryLaws S, HD : Document DeliveryItem}.
Context (new_id : nat -> EntityId) (config : DeliveryConfig).

Abbreviation dholds := (holds Deliveries decode delivery_key delivery_init (delivery_step config)).

Definition deliveries : Machine DeliveryItem :=
  item_machine Deliveries decode delivery_init (delivery_step config).

Lemma decode_delivery r x :
  decode r = Ok x <->
  from_value (rec_payload r) = Ok (item x) /\ delivery_key (item x) = rec_id r
  /\ d_revision (item x) = rec_revision r /\ storage_revision x = rec_revision r.
Proof.
  unfold decode, delivery_key. destruct (from_value _) as [y|]; simpl; [|naive_solver].
  split.
  - intros Hd. res_inv. bool_inv. bool_inv. done.
  - intros ([= ->] & Hi & Hr & Hs). rewrite !bool_decide_eq_true_2 by done. simpl. destruct x. simpl in *. by subst.
Qed.

Lemma decode_delivery_faithful : decode_faithful decode delivery_key.
Proof. intros r x (_ & Hi & _ & Hs)%decode_delivery. done. Qed.

(** What is written is read back. *)
Lemma encode_delivery x r :
  document_lawful DeliveryItem -> encode x = Ok r -> id_canonical (delivery_key x) ->
  is_u64 (revision_get (d_revision x)) -> is_i64 (unix_millis (d_updated_at x)) ->
  wf_record r /\ rec_id r = delivery_key x /\ rec_revision r = d_revision x
  /\ decode (canonical_record r) = Ok (MkStored x (d_revision x)).
Proof.
  intros Hlaw He Hid Hrev Hnow. unfold encode in He. destruct (to_value x) as [v|] eqn:Ev; simpl in He; [|done].
  destruct (Hlaw _ _ Ev) as (Hd & Hread & Hback). injection He as <-.
  split; [|split; [done|split; [done|by apply decode_delivery]]].
  split; [done|]. do 2 (split; [simpl; unfold u16_max; lia|]). done.
Qed.

Context (Hcodec : document_lawful DeliveryItem) (G : Contract).
Context (Hfollows : forall recs recs', guarantee G recs recs' -> follows deliveries recs recs').
(** The contract allows the steps of a delivery. *)
Context (Hupdate : forall recs x r s,
  dholds recs x -> decode (canonical_record r) = Ok s -> delivery_step config (item x) (item s) ->
  revision_get (rec_revision r) = (revision_get (storage_revision x) + 1)%Z ->
  guarantee G recs (<[(Deliveries, delivery_key (item x)) := canonical_record r]> recs)).

Abbreviation dseen := (seen G Deliveries decode delivery_key delivery_init (delivery_step config)).

Abbreviation replaced := (replaces Deliveries decode delivery_key delivery_init (delivery_step config)).

Lemma spec_put_existing P x y now :
  wf_stored delivery_key x -> is_i64 (unix_millis now) -> delivery_key y = delivery_key (item x) ->
  (forall recs, P recs -> dseen x recs) ->
  (forall revision, delivery_step config (item x) (stamped y revision now)) ->
  spec G P (put_existing (MkStored y (storage_revision x)) now) (fun s recs' =>
    item s = stamped y (storage_revision s) now
    /\ exists recs, later G P recs /\ replaced recs recs' x s).
Proof.
  intros [Hid Hrev] Hnow Hkey HP Hstep. unfold put_existing. cbn [storage_revision item].
  apply spec_lift_bind. intros next Hnext. apply ok_or_Ok, checked_next_Some in Hnext as [Hn Hle].
  apply spec_lift_bind. intros r He.
  destruct (encode_delivery _ _ Hcodec He) as (Hwf & Hri & Hrr & Hdec); [by rewrite delivery_key_stamped, Hkey| |done|].
  { simpl. unfold is_u64 in *. lia. }
  rewrite delivery_key_stamped, Hkey in Hri. simpl in Hrr.
  eapply spec_bind.
  { apply (spec_replace G Deliveries decode delivery_key delivery_init (delivery_step config) DeRepository
             decode_delivery_faithful Hfollows P x r (MkStored (stamped y next now) next)); [done|done|done|done|done|].
    intros recs _ Hx. eapply Hupdate; [done|exact Hdec|apply Hstep|]. by rewrite Hrr. }
  intros receipt. cbn beta. apply spec_ret. intros recs' Hrep. by split.
Qed.

Lemma spec_required P id :
  spec G P (required id) (fun x recs => (d_id (item x) = id /\ wf_stored delivery_key x) /\ later G P recs /\ dholds recs x).
Proof.
  unfold required, load. eapply spec_bind.
  { apply (spec_load_item G Deliveries decode delivery_key delivery_init (delivery_step config) DeRepository
             decode_delivery_faithful). }
  intros found. cbn beta. apply spec_lift. intros x recs Hx (Hf & Hl & Hh). apply ok_or_Ok in Hx as ->.
  destruct (Hf x eq_refl) as [Hid Hwf]. split; [|done]. split; [|done].
  by apply (inj as_entity_id).
Qed.

Lemma spec_load_all P :
  spec G P load_all (fun xs recs => Forall (wf_stored delivery_key) xs
    /\ later G P recs
    /\ lists_items Deliveries decode delivery_key delivery_init (delivery_step config) recs xs).
Proof.
  apply (spec_load_items G Deliveries decode delivery_key delivery_init (delivery_step config) DeRepository
           decode_delivery_faithful).
Qed.

(** Reading one item, checking it and writing it back changed. *)
Lemma spec_modify P id (check : DeliveryItem -> result (DeliveryError repo_error) unit) f now :
  stable G P -> is_i64 (unix_millis now) -> (forall x, delivery_key (f x) = delivery_key x) ->
  (forall x, check x = Ok tt -> forall revision, delivery_step config x (stamped (f x) revision now)) ->
  spec G P
    (lock ;;
     stored ← required id;
     lift (check (item stored)) ;;
     stored ← put_existing (MkStored (f (item stored)) (storage_revision stored)) now;
     mret (item stored))
    (fun y recs' => exists recs x s, P recs /\ replaced recs recs' x s /\ d_id (item x) = id
       /\ check (item x) = Ok tt /\ y = item s /\ y = stamped (f (item x)) (storage_revision s) now).
Proof.
  intros Hst Hnow Hkey Hstep. eapply spec_bind; [apply spec_lock|]. intros []. cbn beta.
  eapply spec_bind; [apply spec_required|]. intros x. cbn beta. apply spec_pure. intros [Hid Hwf].
  apply spec_lift_bind. intros [] Hc.
  eapply spec_bind; [apply spec_put_existing; [done|done|apply Hkey| |auto]|].
  { intros recs [_ Hx]. by apply holds_seen. }
  intros s. cbn beta. apply spec_pure. intros Hs. apply spec_ret. intros recs' (recs & Hl & Hrep).
  exists recs, x, s. split; [|done].
  destruct Hl as (recs1 & [Hl _] & HR1). apply (later_stable G P) in Hl; [|done].
  eapply Hst; [done|]. by apply rely_guarantee.
Qed.

Lemma verify_claim_ok x claim :
  verify_claim x claim = Ok (E := DeliveryError repo_error) tt <->
  d_state x = Claimed /\ d_claim_token x = Some (claim_token claim).
Proof.
  unfold verify_claim. rewrite reject_if_ok, orb_false_iff, !negb_false_iff, !bool_decide_eq_true. done.
Qed.

Lemma spec_acknowledge P claim receipt now :
  stable G P -> is_i64 (unix_millis now) ->
  spec G P (acknowledge claim receipt now) (fun y recs' => exists recs x s,
    P recs /\ replaced recs recs' x s /\ d_id (item x) = d_id (claim_item claim)
    /\ (d_state (item x) = Claimed /\ d_claim_token (item x) = Some (claim_token claim))
    /\ y = item s /\ y = stamped (acknowledged_item (item x) receipt) (storage_revision s) now).
Proof.
  intros Hst Hnow. eapply spec_weaken.
  - apply (spec_modify P (d_id (claim_item claim)) (fun x => verify_claim x claim)
             (fun x => acknowledged_item x receipt)); [done..|].
    intros x [Hs Ht]%verify_claim_ok revision. by eapply step_acknowledge.
  - done.
  - intros y recs' (recs & x & s & HP & Hr & Hid & Hc & Hy). apply verify_claim_ok in Hc. by exists recs, x, s.
Qed.

Lemma spec_fail P claim failure now :
  stable G P -> is_i64 (unix_millis now) ->
  spec G P (fail config claim failure now) (fun y recs' => exists recs x s,
    P recs /\ replaced recs recs' x s /\ d_id (item x) = d_id (claim_item claim)
    /\ (d_state (item x) = Claimed /\ d_claim_token (item x) = Some (claim_token claim))
    /\ y = item s /\ y = stamped (failed_item config (item x) failure now) (storage_revision s) now).
Proof.
  intros Hst Hnow. eapply spec_weaken.
  - apply (spec_modify P (d_id (claim_item claim)) (fun x => verify_claim x claim)
             (fun x => failed_item config x failure now)); [done..|].
    intros x [Hs Ht]%verify_claim_ok revision. by eapply step_fail.
  - done.
  - intros y recs' (recs & x & s & HP & Hr & Hid & Hc & Hy). apply verify_claim_ok in Hc. by exists recs, x, s.
Qed.

Lemma spec_cancel P id reason now :
  stable G P -> is_i64 (unix_millis now) ->
  spec G P (cancel id reason now) (fun y recs' => exists recs x s,
    P recs /\ replaced recs recs' x s /\ d_id (item x) = id /\ is_terminal (d_state (item x)) = false
    /\ y = item s /\ y = stamped (cancelled_item (item x) reason) (storage_revision s) now).
Proof.
  intros Hst Hnow. eapply spec_weaken.
  - apply (spec_modify P id (fun x => reject_if (is_terminal (d_state x) || str_blank reason)%bool DeIllegalTransition)
             (fun x => cancelled_item x reason)); [done..|].
    intros x [Ht Hb]%reject_if_ok%orb_false_iff revision. by apply step_cancel.
  - done.
  - intros y recs' (recs & x & s & HP & Hr & Hid & [Ht _]%reject_if_ok%orb_false_iff & Hy). by exists recs, x, s.
Qed.

Lemma spec_recover P now :
  stable G P -> is_i64 (unix_millis now) -> spec G P (recover_expired config now) (fun _ recs' => P recs').
Proof.
  intros Hst Hnow. unfold recover_expired. eapply spec_bind; [apply spec_lock|]. intros []. cbn beta.
  eapply spec_bind; [apply spec_load_all|]. intros xs. cbn beta. apply spec_pure. intros Hwf.
  set (I := fun recs => P recs /\ Forall (fun x => dseen x recs) xs).
  eapply (spec_weaken G I); [apply (spec_map_m G I _ (fun _ _ => True)) | |].
  - intros x [Hx Hex]%list_elem_of_In%filter_In. apply list_elem_of_In in Hx.
    unfold is_expired in Hex. bool_inv. destruct (d_claim_expires_at _) as [expiry|] eqn:Ee; [|done].
    eapply spec_bind.
    { apply (spec_keep G I).
      { intros recs recs' [HP Hs] HT. split; [by eapply Hst|]. eapply Forall_impl; [apply Hs|].
        intros y Hy. exact (seen_stable G _ _ _ _ _ y recs recs' Hy HT). }
      apply (spec_put_existing I x).
      - by eapply list.Forall_forall in Hwf.
      - done.
      - done.
      - intros recs [_ Hs]. by eapply list.Forall_forall in Hs.
      - intros revision. eapply step_recover; [done|done|]. unfold rle, rleb in *. by destruct (rcmp _ _). }
    intros s. cbn beta. apply spec_ret. intros recs (HI & _). done.
  - intros recs [Hl [_ Hin]]. split; [by apply (later_stable G P) in Hl|].
    apply list.Forall_forall. intros x Hx. apply holds_seen. by apply Hin.
  - intros ys recs [_ [HP _]]. done.
Qed.

(** A claim takes the oldest due item of the list it read, and none is due when
    it takes none. *)
Lemma spec_claim P matches_route now :
  is_i64 (unix_millis now) ->
  spec G P (claim_next_matching new_id config matches_route now) (fun o recs' =>
    match o with
    | None => later G P recs' /\ forall x, dholds recs' x -> is_due matches_route now x = false
    | Some claim => exists listed recs x s,
        later G P listed /\ dholds listed x /\ rely G listed recs
        /\ (forall y, dholds listed y -> is_due matches_route now y = true -> due_cmp x y <> Gt)
        /\ is_due matches_route now x = true
        /\ replaced recs recs' x s /\ claim_item claim = item s
        /\ item s = stamped (claimed_item config (item x) (claim_token claim) now) (storage_revision s) now
    end).
Proof.
  intros Hnow. unfold claim_next_matching. eapply spec_bind; [apply spec_lock|]. intros []. cbn beta.
  eapply spec_bind; [apply spec_load_all|]. intros xs. cbn beta. apply spec_pure. intros Hwf.
  destruct (List.find _ _) as [x|] eqn:Ef.
  - apply (find_sorted (fun x y => due_cmp x y <> Gt)) in Ef as (Hx & Hdue & Hmin).
    2:{ intros y. unfold due_cmp. by rewrite rcmp_refl. }
    2:{ apply (sort_by_key_sorted (fun x : Stored DeliveryItem => (d_not_before (item x), d_created_at (item x)))). }
    rewrite sort_by_perm in Hx.
    eapply spec_bind; [apply spec_draw|]. intros token. cbn beta. apply spec_pure. intros _.
    eapply spec_bind; [apply (spec_put_existing _ x)|].
    + by eapply list.Forall_forall in Hwf.
    + done.
    + done.
    + intros recs [_ [_ Hin]]. apply holds_seen. by apply Hin.
    + intros revision. unfold is_due in Hdue. bool_inv. apply step_claim; [done|].
      unfold rle, rleb in *. by destruct (rcmp _ _).
    + intros s. cbn beta. apply spec_pure. intros Hs. apply spec_ret.
      intros recs' (recs & (listed & [Hl [Hsort Hin]] & HR1) & Hrep).
      exists listed, recs, x, s. split; [done|].
      split; [by apply Hin|]. split; [done|]. split; [|done].
      intros y Hy%Hin Hd. apply Hmin; [by rewrite sort_by_perm|done].
  - apply spec_ret. intros recs [Hl [_ Hin]]. split; [done|].
    intros x Hx%Hin. eapply find_none; [exact Ef|]. apply list_elem_of_In. by rewrite sort_by_perm.
Qed.

Lemma spec_get_item P id :
  stable G P -> spec G P (get id) (fun o recs => P recs
    /\ match o with
       | Some y => exists x, dholds recs x /\ y = item x /\ d_id y = id
       | None => recs !! (Deliveries, as_entity_id id) = None
       end).
Proof.
  intros Hst. unfold get, load. eapply spec_bind; [apply spec_lock|]. intros []. cbn beta.
  eapply spec_bind.
  { apply (spec_load_item G Deliveries decode delivery_key delivery_init (delivery_step config) DeRepository
             decode_delivery_faithful). }
  intros found. cbn beta. apply spec_ret. intros recs (Hf & Hl & Hx).
  split; [by apply (later_stable G P) in Hl|]. destruct found as [x|]; simpl; [|done].
  exists x. split; [done|]. split; [done|]. apply (inj as_entity_id). by apply Hf.
Qed.

Lemma spec_list_all P :
  stable G P -> spec G P list_all (fun ys recs => P recs
    /\ forall y, y ∈ ys <-> exists x, dholds recs x /\ y = item x).
Proof.
  intros Hst. unfold list_all. eapply spec_bind; [apply spec_lock|]. intros []. cbn beta.
  eapply spec_bind; [apply spec_load_all|]. intros xs. cbn beta. apply spec_ret.
  intros recs (_ & Hl & [_ Hin]). split; [by apply (later_stable G P) in Hl|].
  intros y. rewrite list_elem_of_fmap.
  split; intros (x & H1 & H2); exists x; [split; [by apply Hin|done]|split; [done|by apply Hin]].
Qed.

(** The items that are not settled, by their keys. *)
Definition unsettled (x : Stored DeliveryItem) : bool := negb (is_terminal (d_state (item x))).
Definition active (recs : Records) : gset (Collection * EntityId) := item_keys Deliveries decode unsettled recs.

Abbreviation dlists := (lists_items Deliveries decode delivery_key delivery_init (delivery_step config)).

(** [r] is the record of a new item for [n], and the list [listed] has no item
    with its key and room for one more. *)
Definition creates (n : NewDelivery) (listed : Records) (r : VersionedRecord) (s : Stored DeliveryItem) : Prop :=
  decode (canonical_record r) = Ok s /\ rec_id r = delivery_key (item s) /\ rec_revision r = Revision_ZERO
  /\ (exists id now, item s = new_item n id now)
  /\ (forall x, dholds listed x -> d_stable_key (item x) <> n_stable_key n)
  /\ (Z.of_nat (size (active listed)) < max_pending config)%Z.

Lemma spec_enqueue P n now :
  stable G P -> is_i64 (unix_millis now) -> (forall k, id_canonical (new_id k)) ->
  (forall listed recs r s, P listed -> rely G listed recs -> creates n listed r s ->
     recs !! (Deliveries, rec_id r) = None ->
     guarantee G recs (<[(Deliveries, rec_id r) := canonical_record r]> recs)) ->
  spec G P (enqueue new_id config n now) (fun y recs' =>
    (P recs' /\ exists x, dholds recs' x /\ y = item x /\ same_delivery y n = true
       /\ d_stable_key y = n_stable_key n)
    \/ exists listed recs r s, P listed /\ rely G listed recs /\ creates n listed r s
       /\ recs !! (Deliveries, rec_id r) = None
       /\ recs' = <[(Deliveries, rec_id r) := canonical_record r]> recs
       /\ dholds recs' s /\ y = item s).
Proof.
  intros Hst Hnow Hids Hown. unfold enqueue. apply spec_lift_bind. intros [] _.
  eapply spec_bind; [apply spec_lock|]. intros []. cbn beta.
  eapply spec_bind; [apply spec_load_all|]. intros xs. cbn beta. apply spec_pure. intros Hwf.
  destruct (List.find _ xs) as [x|] eqn:Ef.
  { apply find_some in Ef as [Hx Hk]. bool_inv. destruct (same_delivery _ n) eqn:Es; [|apply spec_throw].
    apply spec_ret. intros recs [Hl [_ Hin]]. left. split; [by apply (later_stable G P) in Hl|].
    exists x. split; [apply Hin; by apply list_elem_of_In|]. done. }
  destruct (Z.leb_spec (max_pending config)
    (Z.of_nat (length (List.filter (fun x => negb (is_terminal (d_state (item x)))) xs)))) as [|Hroom];
    [apply spec_throw|].
  eapply spec_bind; [apply spec_draw|]. intros id. cbn beta. apply spec_pure. intros [k ->].
  apply spec_lift_bind. intros r He.
  destruct (encode_delivery _ _ Hcodec He) as (Hwfr & Hri & Hrr & Hdec); [apply Hids|done|done|].
  assert (forall listed, dlists listed xs -> creates n listed r
    (MkStored (new_item n (MkTypedId (new_id k)) now) Revision_ZERO)) as Hcr.
  { intros listed Hlist. repeat split; [done|done|done|by repeat eexists| |].
    - intros x Hx Heq. pose proof (find_none _ _ Ef x) as Hnone. simpl in Hnone.
      rewrite bool_decide_eq_true_2 in Hnone by done. discriminate Hnone.
      apply list_elem_of_In. by apply Hlist.
    - pose proof (item_keys_listed _ _ _ _ _ decode_delivery_faithful unsettled _ _ Hlist). unfold active, unsettled in *. lia. }
  eapply spec_bind.
  { apply (spec_create G Deliveries DeRepository); [done|done|].
    intros recs (listed & [Hl Hlist] & HR1) Hnone. eapply Hown; [|exact HR1|by apply Hcr|done].
    by apply (later_stable G P) in Hl. }
  intros receipt. cbn beta. apply spec_ret. intros recs' (recs & (listed & [Hl Hlist] & HR1) & Hnone & ->).
  right. exists listed, recs, r, (MkStored (new_item n (MkTypedId (new_id k)) now) Revision_ZERO).
  split; [by apply (later_stable G P) in Hl|]. do 2 (split; [by auto|]). split; [done|]. split; [done|].
  split; [|done]. apply holds_lookup. exists (canonical_record r). rewrite Hri, lookup_insert_eq. done.
Qed.
End operations.
