(* ===== verification/DeliveryProperties.v ===== *)
(** * Correctness of the delivery outbox

    Runs of arbitrary operations of the outbox of [Delivery] over a repository:
    with other outboxes writing at the same time (the contract [shared]), and as
    the only writer of deliveries (the contract [exclusive]). *)

From Stdlib Require Import ZArith Lia String.
From stdpp Require Import base decidable countable relations gmap sorting option list.
From S2P Require Import Prelude RustStd AgentTypes Json StateStoreCore ItemStore Delivery DeliveryMachine.

Inductive outbox_op :=
| OEnqueue (n : NewDelivery)
| OClaim
| OClaimAccount (channel account : rstr)
| OAcknowledge (claim : DeliveryClaim) (receipt : SendReceipt)
| OFail (claim : DeliveryClaim) (failure : AdapterFailure)
| ORecover
| OCancel (id : DeliveryId) (reason : rstr)
| OGet (id : DeliveryId)
| OList.

Section runs.
Context {S : Type} `{HU : Ulid, HR : Repository S, HL : !RepositoryLaws S, HD : Document DeliveryItem}.
Context (new_id : nat -> EntityId) (config : DeliveryConfig).

Abbreviation dholds := (holds Deliveries decode delivery_key delivery_init (delivery_step config)).
Abbreviation deliveries := (deliveries config).

(** One operation, with the claims it hands out. *)
Definition outbox_do (op : outbox_op) (now : UtcTimestamp)
  : stateT (World S) (DeliveryError repo_error) (list DeliveryClaim) :=
  match op with
  | OEnqueue n => enqueue new_id config n now ;; mret []
  | OClaim => claim ← claim_next new_id config now; mret (option_list claim)
  | OClaimAccount channel account =>
      claim ← claim_next_for_account new_id config channel account now; mret (option_list claim)
  | OAcknowledge claim receipt => acknowledge claim receipt now ;; mret []
  | OFail claim failure => fail config claim failure now ;; mret []
  | ORecover => recover_expired config now ;; mret []
  | OCancel id reason => cancel id reason now ;; mret []
  | OGet id => get id ;; mret []
  | OList => list_all ;; mret []
  end.

(** A run goes on after an error. *)
Fixpoint outbox_run (ops : list (outbox_op * UtcTimestamp)) (w : World S) : list DeliveryClaim * World S :=
  match ops with
  | [] => ([], w)
  | (op, now) :: ops =>
      let '(r, w) := outbox_do op now w in
      let '(claims, w) := outbox_run ops w in
      (default [] (result_ok r) ++ claims, w)
  end.

Definition timely (ops : list (outbox_op * UtcTimestamp)) : Prop :=
  Forall (fun p => is_i64 (unix_millis p.2)) ops.

(** ** Contracts *)

(** Other outboxes run over the same repository. *)
Definition shared : Contract :=
  MkContract (follows deliveries) (follows deliveries) _ _ (fun _ _ H => H).

(** Stable keys name one item, and there is room for the items not settled. *)
Definition distinct_stable_keys (recs : Records) : Prop :=
  forall x y, dholds recs x -> dholds recs y -> d_stable_key (item x) = d_stable_key (item y) -> x = y.

Definition within_capacity (recs : Records) : Prop := (Z.of_nat (size (active recs)) <= max_pending config)%Z.

Definition tidy (recs : Records) : Prop := distinct_stable_keys recs /\ within_capacity recs.

Definition tidy_follows (recs recs' : Records) : Prop :=
  follows deliveries recs recs' /\ (tidy recs -> tidy recs').

#[export] Instance tidy_follows_preorder : PreOrder tidy_follows.
Proof.
  split; [intros recs; split; [reflexivity|done]|].
  intros a b c [Hab Tab] [Hbc Tbc]. split; [by etrans|auto].
Qed.

Lemma untouched_active recs recs' : untouched Deliveries recs recs' -> active recs = active recs'.
Proof.
  apply (item_keys_untouched Deliveries decode delivery_key delivery_init (delivery_step config)
           decode_delivery_faithful).
Qed.

Lemma untouched_tidy recs recs' : untouched Deliveries recs recs' -> tidy recs -> tidy recs'.
Proof.
  intros Hu [Hk Hc]. split.
  - intros x y Hx Hy. apply Hk; by eapply untouched_holds.
  - unfold within_capacity. by rewrite <- (untouched_active _ _ Hu).
Qed.

(** No other process writes deliveries. *)
Program Definition exclusive : Contract :=
  MkContract (untouched Deliveries) tidy_follows _ _ _.
Next Obligation.
  intros recs recs' Hu. split; [by apply untouched_follows|by apply untouched_tidy].
Qed.

(** ** The contracts allow the steps *)

Lemma shared_update recs x r s :
  dholds recs x -> decode (canonical_record r) = Ok s -> delivery_step config (item x) (item s) ->
  revision_get (rec_revision r) = (revision_get (storage_revision x) + 1)%Z ->
  follows deliveries recs (<[(Deliveries, delivery_key (item x)) := canonical_record r]> recs).
Proof. intros. eapply update_key_step; eauto. apply decode_delivery_faithful. Qed.

Lemma exclusive_update recs x r s :
  dholds recs x -> decode (canonical_record r) = Ok s -> delivery_step config (item x) (item s) ->
  revision_get (rec_revision r) = (revision_get (storage_revision x) + 1)%Z ->
  tidy_follows recs (<[(Deliveries, delivery_key (item x)) := canonical_record r]> recs).
Proof.
  intros Hx Hs Hstep Hrev. split; [by eapply shared_update|]. intros [Hk Hc].
  pose proof (step_content _ _ _ Hstep) as Hcont. unfold content in Hcont. injection Hcont; intros.
  assert (forall y, dholds (<[(Deliveries, delivery_key (item x)) := canonical_record r]> recs) y ->
    exists z, dholds recs z /\ d_stable_key (item z) = d_stable_key (item y)
      /\ delivery_key (item z) = delivery_key (item y)
      /\ (delivery_key (item y) = delivery_key (item x) /\ y = s \/ y = z)) as Hback.
  { intros y [[Hy Hid]|[Hy Hne]]%holds_insert; [|by exists y; auto].
    assert (y = s) as -> by congruence. exists x. repeat split; [done|congruence|done|by left]. }
  split.
  - intros y z Hy Hz Heq. destruct (Hback y Hy) as (y0 & Hy0 & Hky & Hiy & Ey).
    destruct (Hback z Hz) as (z0 & Hz0 & Hkz & Hiz & Ez).
    assert (y0 = z0) as -> by (apply Hk; congruence).
    eapply holds_inj; [exact Hy|exact Hz|congruence].
  - unfold within_capacity, active in *.
    pose proof (item_keys_update_size Deliveries decode delivery_key delivery_init (delivery_step config) decode_delivery_faithful unsettled _ _ _ _ Hx Hs) as Hle.
    cut (size (item_keys Deliveries decode unsettled
      (<[(Deliveries, delivery_key (item x)) := canonical_record r]> recs)) <= size (item_keys Deliveries decode unsettled recs))%nat;
      [lia|]. apply Hle; [by unfold delivery_key; congruence|]. intros _. unfold unsettled.
    destruct (is_terminal _) eqn:Et; [|done]. by destruct (terminal_stuck _ _ _ Et Hstep).
Qed.

Lemma shared_create n listed recs r s :
  creates config n listed r s -> recs !! (Deliveries, rec_id r) = None ->
  follows deliveries recs (<[(Deliveries, rec_id r) := canonical_record r]> recs).
Proof.
  intros (Hdec & Hid & Hrev & (id & now & Hs) & _) Hnone. eapply create_key_step; [done|done|].
  rewrite Hs. by exists n, id, now.
Qed.

Lemma exclusive_create n listed recs r s :
  untouched Deliveries listed recs -> creates config n listed r s -> recs !! (Deliveries, rec_id r) = None ->
  tidy_follows recs (<[(Deliveries, rec_id r) := canonical_record r]> recs).
Proof.
  intros Hu Hcr Hnone. split; [by eapply shared_create|]. intros [Hk Hc].
  destruct Hcr as (Hdec & Hid & Hrev & (id & now & Hs) & Hfresh & Hroom).
  assert (d_stable_key (item s) = n_stable_key n) as Hkey by by rewrite Hs.
  split.
  - assert (forall y, dholds recs y -> d_stable_key (item y) <> n_stable_key n) as Hno.
    { intros y Hy. apply Hfresh. by eapply untouched_holds. }
    intros y z [[Hy Hiy]|[Hy Hny]]%holds_insert [[Hz Hiz]|[Hz Hnz]]%holds_insert Heq; [congruence| | |auto].
    + destruct (Hno z Hz). congruence.
    + destruct (Hno y Hy). congruence.
  - unfold within_capacity in *. rewrite (untouched_active _ _ Hu) in Hroom. unfold active in *.
    pose proof (item_keys_insert_size Deliveries decode delivery_key delivery_init (delivery_step config) decode_delivery_faithful unsettled recs _ _ _ Hdec (eq_sym Hid)) as Hle.
    destruct (unsettled s); lia.
Qed.

(** ** Runs *)

Section contract.
Context (Hcodec : document_lawful DeliveryItem) (Hids : forall k, id_canonical (new_id k)) (G : Contract).
Context (Hfollows : forall recs recs', guarantee G recs recs' -> follows deliveries recs recs').
Context (Hupdate : forall recs x r s,
  dholds recs x -> decode (canonical_record r) = Ok s -> delivery_step config (item x) (item s) ->
  revision_get (rec_revision r) = (revision_get (storage_revision x) + 1)%Z ->
  guarantee G recs (<[(Deliveries, delivery_key (item x)) := canonical_record r]> recs)).
Context (Hcreate : forall n listed recs r s, rely G listed recs -> creates config n listed r s ->
  recs !! (Deliveries, rec_id r) = None ->
  guarantee G recs (<[(Deliveries, rec_id r) := canonical_record r]> recs)).

(** A claim [claim] of the item [x] was handed out. *)
Definition hands_out (P : Records -> Prop) (claim : DeliveryClaim) (recs' : Records) : Prop :=
  exists recs x s, P recs /\ dholds recs x /\ dholds recs' s /\ claim_item claim = item s
    /\ delivery_key (item x) = delivery_key (claim_item claim)
    /\ (d_state (item x) = DPending \/ d_state (item x) = RetryScheduled)
    /\ d_attempt_count (item s) = u32_saturating_add (d_attempt_count (item x)) 1.

Lemma spec_outbox_do P op now :
  stable G P -> is_i64 (unix_millis now) ->
  spec G P (outbox_do op now) (fun claims recs =>
    (length claims <= 1)%nat /\ P recs /\ Forall (fun c => hands_out P c recs) claims).
Proof.
  intros Hst Hnow.
  assert (forall A (m : stateT (World S) (DeliveryError repo_error) A) Q, spec G P m Q ->
    spec G P (m ;; mret []) (fun claims recs =>
      (length claims <= 1)%nat /\ P recs /\ Forall (fun c => hands_out P c recs) claims)) as Hno.
  { intros A m Q Hm. eapply spec_bind; [by apply spec_keep|]. intros a. cbn beta.
    apply spec_ret. intros recs [HP _]. split; [simpl; lia|]. split; [done|by apply Forall_nil]. }
  assert (forall matches_route,
    spec G P (claim ← claim_next_matching new_id config matches_route now; mret (option_list claim))
      (fun claims recs => (length claims <= 1)%nat /\ P recs /\ Forall (fun c => hands_out P c recs) claims)) as Hclaim.
  { intros matches_route. eapply spec_bind; [apply spec_keep; [done|]; eapply spec_claim; eauto|].
    intros [claim|]; cbn beta; apply spec_ret; simpl; [|intros recs [HP _]; split; [lia|by split]].
    intros recs' [HP (listed & recs & x & s & Hl & _ & HR1 & _ & Hd & (Hx & Hs & _) & Hc & Heq)].
    split; [lia|]. split; [done|]. apply Forall_singleton. exists recs, x, s.
    split; [apply (later_stable G P) in Hl; [|done]; eapply Hst; [done|by apply rely_guarantee]|]. unfold is_due in Hd. bool_inv.
    rewrite Hc, Heq. done. }
  destruct op; simpl.
  - eapply Hno, spec_enqueue; eauto.
  - apply Hclaim.
  - intros recs0 w r w' Hw Hr. unfold claim_next_for_account in Hr. rewrite !stateT_bind_unfold in Hr.
    unfold lift in Hr. destruct (reject_if _ _) as [[]|]; [by eapply Hclaim|].
    injection Hr as <- <-. by eapply since_weaken.
  - eapply Hno, spec_acknowledge; eauto.
  - eapply Hno, spec_fail; eauto.
  - eapply Hno, spec_recover; eauto.
  - eapply Hno, spec_cancel; eauto.
  - eapply Hno, (spec_get_item config); eauto.
  - eapply Hno, (spec_list_all config); eauto.
Qed.

(** How often a delivery was handed out. *)
Definition handed (id : EntityId) (claims : list DeliveryClaim) : Z :=
  Z.of_nat (length (List.filter (fun c => bool_decide (delivery_key (claim_item c) = id)) claims)).

Lemma handed_app id cs ds : handed id (cs ++ ds) = (handed id cs + handed id ds)%Z.
Proof. unfold handed. rewrite List.filter_app, length_app. lia. Qed.

(** Induction over a run, counting the claims of one delivery. *)
Lemma outbox_run_ind (id : EntityId) (F : Z -> Records -> Prop) :
  (forall n, stable G (F n)) ->
  (forall n c recs, F n recs -> hands_out (F n) c recs -> delivery_key (claim_item c) = id -> F (n + 1)%Z recs) ->
  forall ops w recs n, sees G w recs -> timely ops -> F n recs ->
    exists recs', sees G (outbox_run ops w).2 recs' /\ guarantee G recs recs'
      /\ F (n + handed id (outbox_run ops w).1)%Z recs'.
Proof.
  intros Hst Hhand ops. induction ops as [|[op now] ops IH]; intros w recs n Hw Ht HF; simpl.
  { exists recs. split; [done|]. split; [reflexivity|]. by rewrite Z.add_0_r. }
  apply Forall_cons in Ht as [Hnow Ht]. destruct (outbox_do op now w) as [r w1] eqn:Edo.
  pose proof (spec_outbox_do (F n) op now (Hst n) Hnow recs w r w1 (since_now G _ w recs Hw HF) Edo) as Hdo.
  assert (exists recs1, sees G w1 recs1 /\ guarantee G recs recs1 /\ F (n + handed id (default [] (result_ok r)))%Z recs1)
    as (recs1 & Hw1 & HT1 & HF1).
  { destruct r as [claims|e]; simpl; destruct Hdo as (recs1 & Hw1 & HT1 & HQ); exists recs1; (split; [done|]); (split; [done|]).
    - destruct HQ as (Hlen & HFn & Hall). destruct claims as [|c [|c' cs]]; simpl in *; [by rewrite Z.add_0_r| |lia].
      apply Forall_cons in Hall as [Hc _]. unfold handed. simpl.
      case_bool_decide; simpl; [by eapply Hhand|by rewrite Z.add_0_r].
    - rewrite Z.add_0_r. by eapply Hst. }
  destruct (IH w1 recs1 _ Hw1 Ht HF1) as (recs' & Hw' & HT' & HF'). destruct (outbox_run ops w1) as [cs w2]. simpl in *.
  exists recs'. split; [done|]. split; [by etrans|]. rewrite handed_app, Z.add_assoc. done.
Qed.

Lemma outbox_run_guarantee ops w recs :
  sees G w recs -> timely ops -> exists recs', sees G (outbox_run ops w).2 recs' /\ guarantee G recs recs'.
Proof.
  intros Hw Ht. destruct (outbox_run_ind (MkEntityId []) (fun _ _ => True) ltac:(done) ltac:(done) ops w recs 0)
    as (recs' & Hw' & HT & _); [done..|]. by exists recs'.
Qed.
End contract.

(** ** The life of deliveries *)

Context (Hmax : (1 <= max_attempts config <= u32_max)%Z).

Lemma follows_ok recs recs' :
  follows deliveries recs recs' -> all_items deliveries (delivery_ok config) recs ->
  all_items deliveries (delivery_ok config) recs'.
Proof.
  intros Hf. apply follows_all_items; [apply init_ok| |done]. intros x x'. by apply step_ok.
Qed.

Lemma steps_attempts x y :
  delivery_ok config x -> rtc (delivery_step config) x y -> (d_attempt_count x <= d_attempt_count y)%Z.
Proof.
  intros Hok Hs. induction Hs as [|x y z Hxy Hyz IH]; [lia|].
  pose proof (step_attempts _ _ _ Hmax Hok Hxy). pose proof (step_ok _ _ _ Hmax Hok Hxy) as Hoky.
  specialize (IH Hoky). case_bool_decide; lia.
Qed.

Lemma steps_duplicate x y :
  rtc (delivery_step config) x y -> d_possible_duplicate x = true -> d_possible_duplicate y = true.
Proof. induction 1 as [|x y z Hxy Hyz IH]; [done|]. intros Hx. eapply IH, step_duplicate; eauto. Qed.

Lemma steps_terminal x y : rtc (delivery_step config) x y -> is_terminal (d_state x) = true -> y = x.
Proof. destruct 1 as [|x y z Hxy Hyz]; [done|]. intros Ht. by destruct (terminal_stuck _ _ _ Ht Hxy). Qed.

Lemma content_key x y : content x = content y -> delivery_key x = delivery_key y.
Proof. unfold content, delivery_key. congruence. Qed.

(** What a held item became. *)
Lemma follows_held recs recs' x :
  follows deliveries recs recs' -> dholds recs x ->
  exists y, dholds recs' y /\ rtc (delivery_step config) (item x) (item y) /\ content (item y) = content (item x).
Proof.
  intros Hf Hx. destruct (follows_steps deliveries _ _ _ _ Hf Hx) as (y & Hy & Hs).
  pose proof (steps_content _ _ _ Hs) as Hc. exists y. split; [|done].
  unfold holds. by rewrite (content_key _ _ Hc).
Qed.

Definition attempted (id : EntityId) (n : Z) (recs : Records) : Prop :=
  (0 <= n)%Z /\ all_items deliveries (delivery_ok config) recs
  /\ ((0 < n)%Z -> exists x, dholds recs x /\ delivery_key (item x) = id /\ (n <= d_attempt_count (item x))%Z).

Lemma attempted_follows id n recs recs' :
  attempted id n recs -> follows deliveries recs recs' -> attempted id n recs'.
Proof.
  intros (Hn & Hok & Hx) Hf. split; [done|]. split; [by eapply follows_ok|]. intros H0.
  destruct (Hx H0) as (x & Hh & Hid & Ha). destruct (follows_held _ _ _ Hf Hh) as (y & Hy & Hs & Hc).
  exists y. split; [done|]. split; [by rewrite (content_key _ _ Hc)|].
  assert (delivery_ok config (item x)) as Hokx by (by eapply Hok). pose proof (steps_attempts _ _ Hokx Hs). lia.
Qed.

Lemma ok_attempts x : delivery_ok config x -> (0 <= d_attempt_count x <= max_attempts config)%Z.
Proof. unfold delivery_ok. destruct (d_state x); lia. Qed.

Lemma attempted_hand id n c recs :
  attempted id n recs -> hands_out (attempted id n) c recs -> delivery_key (claim_item c) = id ->
  attempted id (n + 1) recs.
Proof.
  intros (Hn & Hok & _) (recs0 & x & s & (_ & Hok0 & Hatt) & Hx & Hs & Hc & Hk & Hd & Ha) Hid.
  split; [lia|]. split; [done|]. intros _. exists s. split; [done|]. rewrite Hc in *. split; [done|].
  assert (delivery_ok config (item x)) as Hokx by (by eapply Hok0).
  pose proof (ok_attempts _ Hokx). unfold delivery_ok in Hokx.
  assert (d_attempt_count (item x) < u32_max)%Z by (destruct Hd as [Hd|Hd]; rewrite Hd in Hokx; lia).
  unfold u32_saturating_add in Ha. rewrite Z.min_r in Ha by lia.
  destruct (decide (0 < n)%Z) as [Hp|Hp]; [|lia].
  destruct (Hatt Hp) as (x' & Hx' & Hid' & Hle).
  assert (x' = x) as -> by (eapply holds_inj; [exact Hx'|exact Hx|congruence]). lia.
Qed.

Context (Hcodec : document_lawful DeliveryItem) (Hids : forall k, id_canonical (new_id k)).

Lemma shared_run ops w recs :
  sees shared w recs -> timely ops ->
  exists recs', sees shared (outbox_run ops w).2 recs' /\ follows deliveries recs recs'.
Proof.
  apply (outbox_run_guarantee Hcodec Hids shared (fun _ _ H => H) shared_update).
  intros n listed rs r s _. apply shared_create.
Qed.

Lemma shared_run_ind (id : EntityId) (F : Z -> Records -> Prop) ops w recs n :
  (forall n, stable shared (F n)) ->
  (forall n c recs, F n recs -> hands_out (F n) c recs -> delivery_key (claim_item c) = id -> F (n + 1)%Z recs) ->
  sees shared w recs -> timely ops -> F n recs ->
  exists recs', F (n + handed id (outbox_run ops w).1)%Z recs'.
Proof.
  intros Hst Hhand Hw Ht HF.
  assert (exists recs', sees shared (outbox_run ops w).2 recs' /\ guarantee shared recs recs'
    /\ F (n + handed id (outbox_run ops w).1)%Z recs') as (recs' & _ & _ & HF').
  { apply (outbox_run_ind Hcodec Hids shared (fun _ _ H => H) shared_update); [|done..].
    intros m listed rs r s _. apply shared_create. }
  by exists recs'.
Qed.

(** C21: whatever operations an outbox runs, and whatever other outboxes over the
    same repository do between its calls, with commits whose acknowledgement is
    lost: attempts, claim tokens and receipts stay consistent with the state of
    every delivery and within [max_attempts]; no delivery disappears or changes
    its content; attempts are never given back; a delivery that was sent, failed
    for good or cancelled is never written again; and a possible duplicate stays
    marked, in its receipt too. *)
Theorem outbox_lifecycle ops w recs :
  sees shared w recs -> timely ops -> all_items deliveries (delivery_ok config) recs ->
  exists recs', sees shared (outbox_run ops w).2 recs'
    /\ all_items deliveries (delivery_ok config) recs'
    /\ forall x, dholds recs x -> exists y, dholds recs' y
      /\ content (item y) = content (item x)
      /\ (d_attempt_count (item x) <= d_attempt_count (item y))%Z
      /\ (is_terminal (d_state (item x)) = true ->
          recs' !! (Deliveries, delivery_key (item x)) = recs !! (Deliveries, delivery_key (item x)))
      /\ (d_possible_duplicate (item x) = true -> d_possible_duplicate (item y) = true).
Proof.
  intros Hw Ht Hok.
  destruct (shared_run ops w recs Hw Ht) as (recs' & Hw' & Hf).
  exists recs'. split; [done|]. split; [by eapply follows_ok|]. intros x Hx.
  destruct (follows_held _ _ _ Hf Hx) as (y & Hy & Hs & Hc). exists y. split; [done|]. split; [done|].
  split; [eapply steps_attempts; [by eapply Hok|done]|]. split; [|by apply steps_duplicate].
  intros Hterm. eapply (follows_stuck deliveries); [done|exact Hx|]. intros z. by apply terminal_stuck.
Qed.

(** C22: a delivery is handed to workers for sending at most [max_attempts] times,
    counting the attempts made before the run, and never again once it is
    settled, also when several outboxes share the repository and claims expire. *)
Theorem delivery_attempts_bounded ops w recs id :
  sees shared w recs -> timely ops -> all_items deliveries (delivery_ok config) recs ->
  (handed id (outbox_run ops w).1 <= max_attempts config)%Z
  /\ forall x, dholds recs x -> delivery_key (item x) = id ->
     (d_attempt_count (item x) + handed id (outbox_run ops w).1 <= max_attempts config)%Z
     /\ (is_terminal (d_state (item x)) = true -> handed id (outbox_run ops w).1 = 0%Z).
Proof.
  intros Hw Ht Hok.
  assert (forall n, attempted id n recs -> (n + handed id (outbox_run ops w).1 <= max_attempts config)%Z) as Hcount.
  { intros n Hn. destruct (shared_run_ind id (attempted id) ops w recs n) as (recs' & H0 & Hok' & Hx); [..|done|done|done|].
    - intros k a b. apply attempted_follows.
    - intros k c b. apply attempted_hand.
    - destruct (decide (0 < n + handed id (outbox_run ops w).1)%Z) as [Hp|]; [|lia].
      destruct (Hx Hp) as (x & Hxh & _ & Hle). pose proof (ok_attempts _ (Hok' _ _ Hxh)). lia. }
  split; [specialize (Hcount 0%Z); apply Hcount; split; [done|]; split; [done|]; lia|].
  intros x Hx Hid. split.
  { apply Hcount. pose proof (ok_attempts _ (Hok _ _ Hx)). split; [lia|]. split; [done|]. intros _. by exists x. }
  intros Hterm.
  destruct (shared_run_ind id (fun n recs => n = 0%Z /\ dholds recs x) ops w recs 0%Z) as (recs' & H0 & _);
    [..|done|done|done|lia].
  - intros n a b [-> Ha] Hf. split; [done|]. unfold holds, holds_item in *.
    assert (b !! (Deliveries, delivery_key (item x)) = a !! (Deliveries, delivery_key (item x))) as Heq.
    { eapply (follows_stuck deliveries); [done|exact Ha|]. intros z. by apply terminal_stuck. }
    simpl in *. by rewrite Heq.
  - intros n c b [-> Hb] (r0 & x' & s & [_ Hr0] & Hx' & _ & _ & Hk & Hd & _) Hc. exfalso.
    assert (x' = x) as -> by (eapply holds_inj; [exact Hx'|exact Hr0|congruence]).
    destruct Hd as [Hd|Hd]; by rewrite Hd in Hterm.
Qed.

(** ** Claims are fenced *)

(** Nobody writes deliveries. *)
Definition quiet : Contract :=
  MkContract (untouched Deliveries) (untouched Deliveries) _ _ (fun _ _ H => H).

Definition live_claim (claim : DeliveryClaim) (x : Stored DeliveryItem) : Prop :=
  d_id (item x) = d_id (claim_item claim) /\ d_state (item x) = Claimed
  /\ d_claim_token (item x) = Some (claim_token claim).

(** A settlement that needs a live claim writes nothing without one. *)
Lemma stale_settle claim f now :
  spec quiet (fun recs => forall x, dholds recs x -> ~ live_claim claim x)
    (lock ;;
     stored ← required (d_id (claim_item claim));
     lift (verify_claim (item stored) claim) ;;
     stored ← put_existing (MkStored (f (item stored)) (storage_revision stored)) now;
     mret (item stored))
    (fun _ _ => False).
Proof.
  eapply spec_bind; [apply spec_lock|]. intros []. cbn beta.
  eapply spec_bind; [apply (spec_required config)|]. intros x. cbn beta.
  apply spec_pure. intros [Hid _]. apply spec_lift_bind. intros [] Hv. apply verify_claim_ok in Hv as [Hs Ht].
  intros recs0 w r w' (recs & _ & _ & (recs1 & Hno & Hu) & Hx) _. exfalso.
  apply (Hno x); [|done]. by apply (untouched_holds Deliveries _ _ _ _ recs1 recs).
Qed.

Lemma stored_again (s : Stored DeliveryItem) y now :
  item s = stamped y (storage_revision s) now -> MkStored (item s) (d_revision (item s)) = s.
Proof. destruct s as [x revision]. simpl. by intros ->. Qed.

(** C23: a worker can settle a delivery only while it holds the claim: an
    acknowledgement or a failure is recorded only over the item that is claimed
    under its token, at the moment of the write; and under a claim that expired,
    was settled or belongs to another worker both are refused and no delivery
    changes. *)
Theorem claim_token_fences claim receipt failure now w :
  is_i64 (unix_millis now) ->
  (forall recs y w', sees shared w recs -> acknowledge claim receipt now w = (Ok y, w') ->
     exists before after x, follows deliveries recs before /\ dholds before x /\ live_claim claim x
       /\ sees shared w' after /\ holds_item deliveries after (delivery_key y) (MkStored y (d_revision y))
       /\ d_state y = Sent /\ content y = content (item x))
  /\ (forall recs y w', sees shared w recs -> fail config claim failure now w = (Ok y, w') ->
     exists before after x, follows deliveries recs before /\ dholds before x /\ live_claim claim x
       /\ sees shared w' after /\ holds_item deliveries after (delivery_key y) (MkStored y (d_revision y))
       /\ (d_state y = RetryScheduled \/ d_state y = PermanentFailure) /\ content y = content (item x))
  /\ (forall recs, sees quiet w recs -> (forall x, dholds recs x -> ~ live_claim claim x) ->
     forall r w', acknowledge claim receipt now w = (r, w') \/ fail config claim failure now w = (r, w') ->
       is_ok r = false /\ exists recs', sees quiet w' recs' /\ untouched Deliveries recs recs').
Proof.
  intros Hnow. split; [|split].
  - intros recs y w' Hw Hr.
    destruct (spec_acknowledge config Hcodec shared (fun _ _ H => H) shared_update (follows deliveries recs) claim receipt now
      ltac:(intros a b Ha Hb; by etrans) Hnow recs w (Ok y) w' (since_now shared (follows deliveries recs) w recs Hw (reflexivity recs)) Hr)
      as (after & Hw' & _ & before & x & s & Hf & (Hx & Hs & _) & Hid & [Hst Htok] & -> & Hy).
    exists before, after, x. rewrite (stored_again _ _ _ Hy). do 5 (split; [done|]). by rewrite Hy.
  - intros recs y w' Hw Hr.
    destruct (spec_fail config Hcodec shared (fun _ _ H => H) shared_update (follows deliveries recs) claim failure now
      ltac:(intros a b Ha Hb; by etrans) Hnow recs w (Ok y) w' (since_now shared (follows deliveries recs) w recs Hw (reflexivity recs)) Hr)
      as (after & Hw' & _ & before & x & s & Hf & (Hx & Hs & _) & Hid & [Hst Htok] & -> & Hy).
    exists before, after, x. rewrite (stored_again _ _ _ Hy). do 5 (split; [done|]). rewrite Hy.
    split; [|done]. simpl. destruct (_ && _)%bool; auto.
  - intros recs Hw Hno r w' Hr.
    pose proof (since_now quiet (fun recs => forall x, dholds recs x -> ~ live_claim claim x) w recs Hw Hno) as Hsince.
    assert (match r with Ok _ => since quiet recs (fun _ => False) w' | Err _ => since quiet recs (fun _ => True) w' end) as Hs.
    { destruct Hr as [Hr|Hr]; [exact (stale_settle claim (fun x => acknowledged_item x receipt) now recs w r w' Hsince Hr)
        |exact (stale_settle claim (fun x => failed_item config x failure now) now recs w r w' Hsince Hr)]. }
    destruct r as [y|e]; destruct Hs as (recs' & Hw' & Hu & Hfalse); [done|]. split; [done|]. by exists recs'.
Qed.

(** ** One item per stable key *)

Lemma exclusive_run ops w recs :
  sees exclusive w recs -> timely ops ->
  exists recs', sees exclusive (outbox_run ops w).2 recs' /\ tidy_follows recs recs'.
Proof.
  apply (outbox_run_guarantee Hcodec Hids exclusive (fun _ _ H => proj1 H) exclusive_update exclusive_create).
Qed.

Lemma exclusive_enqueue n now w recs y w' :
  sees exclusive w recs -> is_i64 (unix_millis now) -> tidy recs -> enqueue new_id config n now w = (Ok y, w') ->
  exists recs', sees exclusive w' recs' /\ tidy_follows recs recs'
    /\ same_delivery y n = true /\ d_stable_key y = n_stable_key n /\ exists x, dholds recs' x /\ item x = y.
Proof.
  intros Hw Hnow Htidy Hr.
  destruct (spec_enqueue new_id config Hcodec exclusive (fun _ => True) n now ltac:(by intros ???) Hnow Hids
    ltac:(intros listed rs r s _; apply exclusive_create) recs w (Ok y) w'
    (since_now exclusive (fun _ => True) w recs Hw I) Hr) as (recs' & Hw' & HT & HQ).
  exists recs'. split; [done|]. split; [done|].
  destruct HQ as [(_ & x & Hx & -> & Hsame & Hkey)|(listed & rs & r & s & _ & _ & (_ & _ & _ & (id & t & Hs) & _) & _ & _ & Hh & ->)].
  - split; [done|]. split; [done|]. by exists x.
  - split; [|split; [by rewrite Hs|by exists s]]. rewrite Hs. unfold same_delivery. simpl.
    by rewrite !bool_decide_eq_true_2.
Qed.

(** C24: when one outbox is the only writer of deliveries, enqueueing is exactly
    once per stable key: after a successful enqueue and any further operations
    the item is there with the content asked for, it is the only one with its
    key, enqueueing the same delivery again returns this item, and no more than
    [max_pending] items are unsettled. *)
Theorem enqueue_exactly_once n now ops now' w recs y w1 :
  sees exclusive w recs -> tidy recs -> is_i64 (unix_millis now) -> is_i64 (unix_millis now') -> timely ops ->
  enqueue new_id config n now w = (Ok y, w1) ->
  let w2 := (outbox_run ops w1).2 in
  same_delivery y n = true /\ d_stable_key y = n_stable_key n
  /\ (exists recs2, sees exclusive w2 recs2 /\ (Z.of_nat (size (active recs2)) <= max_pending config)%Z
        /\ (exists x, dholds recs2 x /\ content (item x) = content y)
        /\ forall x, dholds recs2 x -> d_stable_key (item x) = n_stable_key n -> d_id (item x) = d_id y)
  /\ forall y' w3, enqueue new_id config n now' w2 = (Ok y', w3) -> d_id y' = d_id y.
Proof.
  intros Hw Ht Hnow Hnow' Hops Hr w2.
  destruct (exclusive_enqueue _ _ _ _ _ _ Hw Hnow Ht Hr) as (recs1 & Hw1 & [_ Ht1] & Hsame & Hkey & x & Hx & <-).
  specialize (Ht1 Ht). destruct (exclusive_run ops w1 recs1 Hw1 Hops) as (recs2 & Hw2 & [Hf2 Ht2]).
  specialize (Ht2 Ht1). split; [done|]. split; [done|].
  assert (forall recs3, follows deliveries recs1 recs3 -> tidy recs3 ->
    (exists z, dholds recs3 z /\ content (item z) = content (item x))
    /\ forall z, dholds recs3 z -> d_stable_key (item z) = n_stable_key n -> d_id (item z) = d_id (item x)) as Hone.
  { intros recs3 Hf Ht3. destruct (follows_held _ _ _ Hf Hx) as (z & Hz & _ & Hc). split; [by eauto|].
    intros z' Hz' Hk. assert (z' = z) as -> by (apply Ht3; [done|done|]; unfold content in Hc; congruence).
    unfold content in Hc. congruence. }
  split.
  - exists recs2. destruct (Hone recs2 Hf2 Ht2). split; [done|]. split; [apply Ht2|done].
  - intros y' w3 Hr'.
    destruct (exclusive_enqueue _ _ _ _ _ _ Hw2 Hnow' Ht2 Hr') as (recs3 & _ & [Hf3 Ht3] & _ & Hkey' & x' & Hx' & <-).
    apply (Hone recs3); [by etrans|by apply Ht3|done|done].
Qed.

(** As the only writer of deliveries, [claim_next] hands out a due delivery
    that no due delivery precedes in the order of due time and creation, and
    returns nothing only when nothing is due. *)
Theorem claim_next_oldest now w recs r w' :
  sees exclusive w recs -> is_i64 (unix_millis now) -> claim_next new_id config now w = (Ok r, w') ->
  match r with
  | Some claim => exists x, dholds recs x /\ is_due (fun _ => true) now x = true
      /\ claim_item claim = stamped (claimed_item config (item x) (claim_token claim) now)
                              (d_revision (claim_item claim)) now
      /\ forall y, dholds recs y -> is_due (fun _ => true) now y = true -> due_cmp x y <> Gt
  | None => forall x, dholds recs x -> is_due (fun _ => true) now x = false
  end.
Proof.
  intros Hw Hnow Hr.
  destruct (spec_claim new_id config Hcodec exclusive (fun _ _ H => proj1 H) exclusive_update (eq recs) (fun _ => true) now
    Hnow recs w (Ok r) w' (since_now exclusive (eq recs) w recs Hw eq_refl) Hr) as (recs' & _ & _ & HQ).
  assert (forall listed x, later exclusive (eq recs) listed -> dholds listed x <-> dholds recs x) as Hsame.
  { intros listed x (? & <- & Hu). symmetry. by apply untouched_holds. }
  destruct r as [claim|].
  - destruct HQ as (listed & rs & x & s & Hl & Hx & _ & Hmin & Hd & _ & Hc & Hs).
    exists x. split; [by apply (Hsame listed)|]. split; [done|].
    split; [rewrite Hc; rewrite Hs at 1; by rewrite Hs|]. intros y Hy. apply Hmin. by apply (Hsame listed).
  - destruct HQ as [Hl Hno]. intros x Hx. apply Hno. by apply (Hsame recs').
Qed.
End runs.

(** ** Backoff *)

(** For the configurations the outbox accepts, with a largest delay of at
    most 2^62 first delays, the delay doubles with every attempt up to the
    largest one: neither the shift nor the multiplication ever overflows. *)
Theorem backoff_doubles config attempt :
  (0 < initial_backoff_ms config <= max_backoff_ms config)%Z ->
  (max_backoff_ms config <= i64_max)%Z ->
  (max_backoff_ms config <= initial_backoff_ms config * 2 ^ 62)%Z ->
  (1 <= attempt)%Z ->
  backoff_ms config attempt = Z.min (initial_backoff_ms config * 2 ^ (attempt - 1)) (max_backoff_ms config).
Proof.
  intros Hinit Hmax H62 Ha. unfold backoff_ms.
  set (e := Z.min (Z.max 0 (attempt - 1)) 62).
  assert (0 <= e <= 62)%Z as He by lia.
  assert (0 < 2 ^ e <= 2 ^ 62)%Z as Hp by (split; [lia|apply Z.pow_le_mono_r; lia]).
  assert (i64_checked_shl 1 e = Some (2 ^ e)%Z) as ->.
  { unfold i64_checked_shl. destruct (Z.ltb_spec e 64); [|lia]. rewrite Z.shiftl_mul_pow2, Z.mul_1_l by lia.
    unfold i64_wrap. rewrite Z.mod_small by lia. f_equal. lia. }
  unfold i64_saturating_mul, i64_clamp. destruct (Z.le_gt_cases (attempt - 1) 62) as [Hle|Hgt].
  - replace e with (attempt - 1)%Z by lia. unfold i64_min, i64_max in *. nia.
  - replace e with 62%Z in * by lia.
    assert (2 ^ 62 <= 2 ^ (attempt - 1))%Z by (apply Z.pow_le_mono_r; lia).
    assert (initial_backoff_ms config * 2 ^ 62 <= initial_backoff_ms config * 2 ^ (attempt - 1))%Z by (apply Z.mul_le_mono_nonneg_l; lia).
    unfold i64_min, i64_max in *. lia.
Qed.

Lemma backoff_doubles_witness : backoff_ms default_delivery_config 4 = 8000%Z.
Proof.
  transitivity (Z.min (1000 * 2 ^ (4 - 1)) (15 * 60 * 1000)); [|reflexivity].
  apply (backoff_doubles default_delivery_config 4); unfold i64_max; simpl; lia.
Defined.
