(* ===== verification/DeliveryExample.v ===== *)
(** * A concrete delivery outbox

    Closed instances of the theorems about the outbox: a delivery that is
    enqueued, claimed and sent, over an empty repository. *)

From Stdlib Require Import ZArith Lia String.
From stdpp Require Import base decidable countable relations gmap sorting option list.
From S2P Require Import Prelude RustStd AgentTypes Json StateStoreCore StateStore ItemStore Serial ServiceExample.
From S2P Require Import Delivery DeliveryMachine DeliveryProperties.

(** ** Codec *)

#[local] Instance Serial_source : Serial DeliverySource.
Proof.
  refine (Serial_via (fun x => match x with
    | SourceInteractive id => (0, id) | SourceScheduled id => (1, as_entity_id id) | SourceChild id => (2, id)
    | SourceCommitment id => (3, as_entity_id id) | SourceAttention id => (4, id)
    | SourceRefinement id => (5, id) | SourceGoal id => (6, as_entity_id id) end%Z)
  (fun p => match p.1 with
    | 0 => Some (SourceInteractive p.2) | 1 => Some (SourceScheduled (MkTypedId p.2)) | 2 => Some (SourceChild p.2)
    | 3 => Some (SourceCommitment (MkTypedId p.2)) | 4 => Some (SourceAttention p.2)
    | 5 => Some (SourceRefinement p.2) | 6 => Some (SourceGoal (MkTypedId p.2)) | _ => None end%Z) _).
  by intros [|[]| |[]| | |[]].
Defined.
#[local] Program Instance DeliveryState_enumerated : Enumerated DeliveryState := {|
  variants := [DPending; Claimed; RetryScheduled; Sent; PermanentFailure; DCancelled] |}.
Next Obligation. intros []; repeat constructor. Qed.
#[local] Program Instance Serial_route : Serial ReplyRoute :=
  Serial_via (fun x => (route_channel x, route_external_account x, route_conversation x, route_thread x,
                        route_reply_to_message x))
    (fun t => let '(a, b, c, d, e) := t in Some (MkReplyRoute a b c d e)) _.
Next Obligation. by intros []. Qed.
#[local] Program Instance Serial_receipt : Serial SendReceipt :=
  Serial_via (fun x => (platform_message_id x, accepted_at x, duplicate_possible x))
    (fun t => let '(a, b, c) := t in Some (MkSendReceipt a b c)) _.
Next Obligation. by intros []. Qed.
#[local] Program Instance Serial_delivery : Serial DeliveryItem :=
  Serial_via (fun x => ((d_id x, d_stable_key x, d_profile_id x, d_session_id x, d_turn_id x, d_final_id x,
                         d_source x, d_route x, d_text x, d_artifacts x, d_state x),
                        (d_attempt_count x, d_not_before x, d_safe_error x, d_receipt x, d_platform_idempotency x,
                         d_possible_duplicate x, d_claim_token x, d_claim_expires_at x, d_created_at x,
                         d_updated_at x, d_revision x)))
    (fun t => let '((a, b, c, d, e, f, g, h, i, j, k), (l, m, n, o, p, q, r, s, u, v, w)) := t in
              Some (MkDelivery a b c d e f g h i j k l m n o p q r s u v w)) _.
Next Obligation. by intros []. Qed.

#[local] Instance delivery_document : Document DeliveryItem := serial_document (fun _ => true).

Lemma delivery_document_lawful : document_lawful DeliveryItem.
Proof. apply serial_document_lawful. Qed.

(** ** A run *)

Definition sample_new : NewDelivery :=
  MkNewDelivery (str "turn-1") (MkTypedId (named_id 1)) (MkTypedId (named_id 2)) None None
    (SourceInteractive (named_id 3)) (MkReplyRoute (str "mail") (str "me") (str "inbox") None None)
    (str "hello") [] false (moment 0).

Definition enqueued : result (DeliveryError repo_error) DeliveryItem * SampleWorld :=
  enqueue nth_id default_delivery_config sample_new (moment 1) fresh_world.

Definition claimed_run := claim_next nth_id default_delivery_config (moment 5) enqueued.2.

(** Enqueued, claimed by a worker that is late, recovered, claimed again and sent. *)
Definition sample_receipt : SendReceipt := MkSendReceipt (str "m1") (moment 200000) false.
Definition second_claim : DeliveryClaim :=
  default (MkClaim (new_item sample_new (MkTypedId (named_id 0)) (moment 0)) (named_id 0)) (
    (outbox_run nth_id default_delivery_config
       [(OEnqueue sample_new, moment 1); (OClaim, moment 5); (ORecover, moment 100000); (OClaim, moment 200000)]
       fresh_world).1 !! 1).
Definition sample_ops : list (outbox_op * UtcTimestamp) :=
  [(OEnqueue sample_new, moment 1); (OClaim, moment 5); (ORecover, moment 100000); (OClaim, moment 200000);
   (OAcknowledge second_claim sample_receipt, moment 200001); (OList, moment 200002)].

Definition sample_end : SampleWorld := (outbox_run nth_id default_delivery_config sample_ops fresh_world).2.

Lemma sample_timely : timely sample_ops.
Proof. unfold timely, sample_ops. repeat (apply Forall_cons; split; [apply moment_i64; simpl; lia|]). apply Forall_nil. done. Qed.

Lemma default_attempts : (1 <= max_attempts default_delivery_config <= u32_max)%Z.
Proof. unfold u32_max. simpl. lia. Qed.

Definition claim_text (claim : DeliveryClaim) : rstr := d_text (claim_item claim).

Lemma fresh_tidy : tidy default_delivery_config ∅.
Proof.
  split; [intros a b Ha; destruct (empty_holds _ _ _ _ _ a Ha)|].
  unfold within_capacity, active. rewrite empty_item_keys. simpl. lia.
Qed.

(** ** Instances *)

Lemma outbox_lifecycle_witness :
  exists recs', sees (shared default_delivery_config) sample_end recs'
    /\ all_items (deliveries default_delivery_config) (delivery_ok default_delivery_config) recs'.
Proof.
  destruct (outbox_lifecycle nth_id default_delivery_config default_attempts delivery_document_lawful nth_id_canonical
    sample_ops fresh_world ∅ (fresh_sees _) sample_timely (empty_all_items _ _)) as (recs' & Hs & Hok & _).
  exists recs'. exact (conj Hs Hok).
Defined.

Lemma delivery_attempts_bounded_witness :
  let handed_out := handed (as_entity_id (d_id (claim_item second_claim)))
    (outbox_run nth_id default_delivery_config sample_ops fresh_world).1 in
  handed_out = 2%Z /\ (handed_out <= 8)%Z.
Proof.
  split; [vm_compute; reflexivity|].
  exact (proj1 (delivery_attempts_bounded nth_id default_delivery_config default_attempts delivery_document_lawful
    nth_id_canonical sample_ops fresh_world ∅ (as_entity_id (d_id (claim_item second_claim)))
    (fresh_sees _) sample_timely (empty_all_items _ _))).
Defined.

(** The item is claimed, recovered from the worker that is late, and claimed again. *)
Definition claims_made : list (outbox_op * UtcTimestamp) :=
  [(OEnqueue sample_new, moment 1); (OClaim, moment 5); (ORecover, moment 100000); (OClaim, moment 200000)].
Definition claimed_twice : SampleWorld :=
  with_others (outbox_run nth_id default_delivery_config claims_made fresh_world).2 [].
Definition first_claim : DeliveryClaim :=
  default second_claim ((outbox_run nth_id default_delivery_config claims_made fresh_world).1 !! 0).
Definition gone : AdapterFailure := MkAdapterFailure Permanent (str "gone") None.

(** The claim that the outbox has on record for an item. *)
Definition claim_on_record (w : SampleWorld) (id : EntityId) : option (DeliveryState * option EntityId) :=
  match get_by_id (store w) Deliveries id with
  | Ok (Some r) => match decode r with Ok s => Some (d_state (item s), d_claim_token (item s)) | Err _ => None end
  | _ => None
  end.

Lemma claim_recorded w recs x :
  repo_view (store w) recs -> is_ok (get_by_id (store w) Deliveries (delivery_key (item x))) = true ->
  holds Deliveries decode delivery_key delivery_init (delivery_step default_delivery_config) recs x ->
  claim_on_record w (delivery_key (item x)) = Some (d_state (item x), d_claim_token (item x)).
Proof.
  intros Hv Hok (r & Hr & Hx)%holds_lookup. unfold claim_on_record.
  destruct (get_by_id (store w) Deliveries (delivery_key (item x))) as [found|] eqn:E; [|done].
  rewrite (get_ok _ _ _ _ _ Hv E), Hr, Hx. done.
Qed.

Lemma claimed_twice_seen : exists recs, repo_view (store claimed_twice) recs.
Proof.
  destruct (shared_run nth_id default_delivery_config delivery_document_lawful nth_id_canonical claims_made fresh_world ∅
    (fresh_sees _)) as (recs & [Hv _] & _); [|by exists recs].
  unfold timely, claims_made. repeat (apply Forall_cons; split; [apply moment_i64; simpl; lia|]). by apply Forall_nil.
Qed.

Lemma alone_sees G recs : repo_view (store claimed_twice) recs -> sees G claimed_twice recs.
Proof. intros Hv. split; [exact Hv|]. constructor. Qed.

(** The second worker may settle the item, one way or the other; the first one is
    refused. *)
Lemma claim_token_fences_witness :
  exists recs, repo_view (store claimed_twice) recs
  /\ (exists y w', acknowledge second_claim sample_receipt (moment 200001) claimed_twice = (Ok y, w') /\ d_state y = Sent)
  /\ (exists y w', fail default_delivery_config second_claim gone (moment 200001) claimed_twice = (Ok y, w')
       /\ (d_state y = RetryScheduled \/ d_state y = PermanentFailure))
  /\ is_ok (acknowledge first_claim sample_receipt (moment 200001) claimed_twice).1 = false
  /\ is_ok (fail default_delivery_config first_claim gone (moment 200001) claimed_twice).1 = false.
Proof.
  destruct claimed_twice_seen as [recs Hv]. exists recs. split; [exact Hv|].
  pose proof (claim_token_fences default_delivery_config delivery_document_lawful second_claim sample_receipt gone
    (moment 200001) claimed_twice ltac:(apply moment_i64; lia)) as (Hack & Hfail & _).
  pose proof (claim_token_fences default_delivery_config delivery_document_lawful first_claim sample_receipt gone
    (moment 200001) claimed_twice ltac:(apply moment_i64; lia)) as (_ & _ & Hstale).
  assert (is_ok (get_by_id (store claimed_twice) Deliveries (as_entity_id (d_id (claim_item first_claim)))) = true) as Hget
    by (vm_compute; reflexivity).
  assert (claim_on_record claimed_twice (as_entity_id (d_id (claim_item first_claim))) <> Some (Claimed, Some (claim_token first_claim))) as Hother
    by (apply (bool_decide_eq_false_1 _); vm_compute; reflexivity).
  assert (forall x, holds Deliveries decode delivery_key delivery_init (delivery_step default_delivery_config) recs x ->
    ~ live_claim first_claim x) as Hno.
  { intros x Hx (Hid & Hst & Htok). assert (delivery_key (item x) = as_entity_id (d_id (claim_item first_claim))) as Hk
      by (unfold delivery_key; rewrite Hid; reflexivity).
    rewrite <- Hk in Hget, Hother. apply Hother. rewrite (claim_recorded claimed_twice recs x Hv Hget Hx), Hst, Htok. reflexivity. }
  split; [|split; [|split]].
  - destruct (ok_pair (acknowledge second_claim sample_receipt (moment 200001) claimed_twice)) as [y Hy]; [vm_compute; reflexivity|].
    eexists y, _. split; [exact Hy|]. destruct (Hack recs y _ (alone_sees _ recs Hv) Hy) as (? & ? & ? & _ & _ & _ & _ & _ & Hs & _). exact Hs.
  - destruct (ok_pair (fail default_delivery_config second_claim gone (moment 200001) claimed_twice)) as [y Hy]; [vm_compute; reflexivity|].
    eexists y, _. split; [exact Hy|]. destruct (Hfail recs y _ (alone_sees _ recs Hv) Hy) as (? & ? & ? & _ & _ & _ & _ & _ & Hs & _). exact Hs.
  - exact (proj1 (Hstale recs (alone_sees _ recs Hv) Hno _ _ (or_introl (surjective_pairing _)))).
  - exact (proj1 (Hstale recs (alone_sees _ recs Hv) Hno _ _ (or_intror (surjective_pairing _)))).
Defined.

(** The refusal is that of a stale claim. *)
Definition refused_as_stale {E A} (r : result (DeliveryError E) A) : bool :=
  match r with Err DeStaleClaim => true | _ => false end.

Lemma first_claim_stale :
  refused_as_stale (acknowledge first_claim sample_receipt (moment 200001) claimed_twice).1 = true
  /\ refused_as_stale (fail default_delivery_config first_claim gone (moment 200001) claimed_twice).1 = true.
Proof. split; vm_compute; reflexivity. Qed.

Lemma enqueue_exactly_once_witness :
  exists y, enqueued = (Ok y, enqueued.2)
    /\ forall y' w3, enqueue nth_id default_delivery_config sample_new (moment 9)
         (outbox_run nth_id default_delivery_config [(OClaim, moment 5)] enqueued.2).2 = (Ok y', w3) -> d_id y' = d_id y.
Proof.
  destruct (ok_pair enqueued) as [y Hy]; [vm_compute; reflexivity|]. exists y. split; [exact Hy|].
  apply (enqueue_exactly_once nth_id default_delivery_config delivery_document_lawful nth_id_canonical
    sample_new (moment 1) [(OClaim, moment 5)] (moment 9) fresh_world ∅ y enqueued.2);
    [apply fresh_sees|apply fresh_tidy| | | |exact Hy].
  - apply moment_i64. lia.
  - apply moment_i64. lia.
  - apply Forall_singleton. apply moment_i64. simpl. lia.
Defined.

(** The enqueued item is the one that is due. *)
Lemma claim_next_oldest_witness :
  exists recs, sees (exclusive default_delivery_config) enqueued.2 recs
    /\ exists claim x, claimed_run.1 = Ok (Some claim) /\ claim_text claim = str "hello"
      /\ holds Deliveries decode delivery_key delivery_init (delivery_step default_delivery_config) recs x
      /\ is_due (fun _ => true) (moment 5) x = true.
Proof.
  destruct (ok_pair enqueued) as [y Hy]; [vm_compute; reflexivity|].
  destruct (exclusive_enqueue nth_id default_delivery_config delivery_document_lawful nth_id_canonical sample_new
    (moment 1) fresh_world ∅ y enqueued.2 (fresh_sees _) ltac:(apply moment_i64; lia) fresh_tidy Hy) as (recs & Hs & _).
  exists recs. split; [exact Hs|].
  destruct (ok_pair claimed_run) as [r Hr]; [vm_compute; reflexivity|].
  pose proof (claim_next_oldest nth_id default_delivery_config delivery_document_lawful (moment 5) enqueued.2 recs r
    claimed_run.2 Hs ltac:(apply moment_i64; lia) Hr) as H.
  assert (option_map claim_text (default None (result_ok claimed_run.1)) = Some (str "hello")) as Ht
    by (vm_compute; reflexivity).
  rewrite Hr in Ht |- *. cbn [fst result_ok default] in Ht |- *.
  destruct r as [claim|]; [|discriminate Ht]. injection Ht as Ht.
  destruct H as (x & Hx & Hd & _). exists claim, x. split; [reflexivity|]. split; [exact Ht|]. exact (conj Hx Hd).
Defined.
