(* ===== verification/ActionStore.v ===== *)
(** * The action inbox: [crates/action-store/src/lib.rs]

    Actions queued for a session as durable records: submitted within limits,
    admitted by priority and arrival, run one at a time, and followed to a
    terminal state.  The repository is the interface of [StateStoreCore]; the
    derived codec of a record is a parameter. *)

From Stdlib Require Import ZArith Lia String.
From stdpp Require Import base decidable countable relations gmap sorting option list.
From S2P Require Import Prelude RustStd AgentTypes Json StateStoreCore ItemStore.

(** ** Actions *)

Inductive ActionAncestorKind := AncestorOrdinary | AncestorEvolution.
Inductive EvolutionExecution := OrdinarySession | DedicatedChild.
Inductive EvolutionOperation :=
| EvaluateHypothesis | PrepareShadow | BuildCandidate | RunCanary | ObservePromotion | ReclaimResources.
Inductive DeliveryPolicy := Immediate | NextTurnBoundary | WhenIdle.
Inductive ActionPriority := Interrupt | PriorityUser | ChildResult | PriorityScheduled | PriorityBackground.

#[export] Instance ActionAncestorKind_eq_dec : EqDecision ActionAncestorKind.
Proof. solve_decision. Defined.
#[export] Instance EvolutionExecution_eq_dec : EqDecision EvolutionExecution.
Proof. solve_decision. Defined.
#[export] Instance EvolutionOperation_eq_dec : EqDecision EvolutionOperation.
Proof. solve_decision. Defined.
#[export] Instance DeliveryPolicy_eq_dec : EqDecision DeliveryPolicy.
Proof. solve_decision. Defined.
#[export] Instance ActionPriority_eq_dec : EqDecision ActionPriority.
Proof. solve_decision. Defined.

Inductive ActionSource :=
| FromInteractive (client_id : ClientId)
| FromChannel (channel message_id : rstr)
| FromSchedule (job_id : JobId) (attempt : Z)
| FromChild (child_id : ChildId) (message_id : MessageId)
| FromSteering (client_id : ClientId)
| FromFollowUp
| FromWaiting (wake_id : EntityId)
| FromAwareness (event_id : EntityId)
| FromRefinement (transaction_id : EntityId)
| FromAutonomousContinuation (goal_id : GoalId)
| FromEvolution (generation_id : EntityId) (ancestry : list ActionAncestorKind) (execution : EvolutionExecution).

Definition rank (p : ActionPriority) : Z :=
  match p with
  | Interrupt => 0
  | PriorityUser => 1
  | ChildResult => 2
  | PriorityScheduled => 3
  | PriorityBackground => 4
  end.

Record ActionLimits := MkActionLimits {
  max_turns : option Z;
  max_tokens : option Z;
  max_elapsed_ms : option Z;
  max_tool_calls : option Z;
  max_children : option Z
}.

Definition default_action_limits : ActionLimits := MkActionLimits None None None None None.

Inductive ReplyRoute :=
| RouteClient (client_id : ClientId)
| RouteChannel (channel : rstr) (external_account : option rstr) (conversation_id : rstr)
    (thread_id reply_to_message : option rstr)
| RouteSession (session_id : SessionId).

Inductive ActionPayload :=
| PayPrompt (text : rstr)
| PayChannelMessage (text : rstr) (attachments : list ArtifactId)
| PayScheduled (instruction : rstr)
| PayChildMessage (text : rstr) (artifacts : list ArtifactId)
| PaySteering (text : rstr)
| PayFollowUp (text : rstr)
| PayResumeWaiting (waiting_id : EntityId)
| PayContinueGoal (goal_id : GoalId)
| PayAwareness (event_id : EntityId) (summary : rstr)
| PayRefinement (transaction_id : EntityId)
| PaySystemMaintenance (operation : rstr)
| PayEvolution (operation : EvolutionOperation).

#[export] Instance ActionSource_eq_dec : EqDecision ActionSource.
Proof. solve_decision. Defined.
#[export] Instance ActionLimits_eq_dec : EqDecision ActionLimits.
Proof. solve_decision. Defined.
#[export] Instance ActionReplyRoute_eq_dec : EqDecision ReplyRoute.
Proof. solve_decision. Defined.
#[export] Instance ActionPayload_eq_dec : EqDecision ActionPayload.
Proof. solve_decision. Defined.

Definition payload_text (p : ActionPayload) : option rstr :=
  match p with
  | PayPrompt text | PayChannelMessage text _ | PayChildMessage text _ | PaySteering text | PayFollowUp text =>
      Some text
  | PayScheduled instruction => Some instruction
  | PayAwareness _ summary => Some summary
  | PayResumeWaiting _ | PayContinueGoal _ | PayRefinement _ => None
  | PaySystemMaintenance operation => Some operation
  | PayEvolution _ => None
  end.

Definition is_steering (p : ActionPayload) : bool := match p with PaySteering _ => true | _ => false end.

Record SessionAction := MkAction {
  act_id : ActionId;
  act_session_id : SessionId;
  act_source : ActionSource;
  act_delivery : DeliveryPolicy;
  act_priority : ActionPriority;
  act_created_at : UtcTimestamp;
  act_not_before : option UtcTimestamp;
  act_deadline : option UtcTimestamp;
  act_limits : ActionLimits;
  act_reply_route : option ReplyRoute;
  act_payload : ActionPayload
}.

Inductive ActionState := AQueued | AAdmitted | ARunning | AWaiting | ACompleted | AFailed | ACancelled | AExpired.

#[export] Instance SessionAction_eq_dec : EqDecision SessionAction.
Proof. solve_decision. Defined.
#[export] Instance ActionState_eq_dec : EqDecision ActionState.
Proof. solve_decision. Defined.

Definition action_is_terminal (s : ActionState) : bool :=
  match s with ACompleted | AFailed | ACancelled | AExpired => true | _ => false end.

Definition action_allows (self next : ActionState) : bool :=
  match self with
  | AQueued => match next with AAdmitted | ACancelled | AExpired => true | _ => false end
  | AAdmitted => match next with ARunning | ACompleted | ACancelled | AExpired => true | _ => false end
  | ARunning => match next with AWaiting | ACompleted | AFailed | ACancelled => true | _ => false end
  | AWaiting => match next with AAdmitted | ACompleted | AFailed | ACancelled | AExpired => true | _ => false end
  | ACompleted | AFailed | ACancelled | AExpired => false
  end.

Record ActionRecord := MkActionRecord {
  a_version : SchemaVersion;
  a_action : SessionAction;
  a_state : ActionState;
  a_enqueue_sequence : Z;
  a_revision : Revision;
  a_updated_at : UtcTimestamp;
  a_terminal_detail : option rstr
}.

#[export] Instance ActionRecord_eq_dec : EqDecision ActionRecord.
Proof. solve_decision. Defined.

Record ActionInboxConfig := MkInboxConfig {
  max_queued_per_session : Z;
  max_background_queued_per_session : Z
}.

Definition default_inbox_config : ActionInboxConfig := MkInboxConfig 1024 128.

Record PumpContext := MkPumpContext {
  active_action : option ActionId;
  at_turn_boundary : bool;
  session_idle : bool
}.

Inductive AdmissionKind := StartTurn | ApplySteering.

Record SelectedAction := MkSelected { selected_record : ActionRecord; selected_kind : AdmissionKind }.

Inductive ActionStoreError (E : Type) :=
| AeRepository (error : E)
| AeNotFound (id : ActionId)
| AeCorrupt (reason : ItemCorrupt)
| AeInvalid (message : rstr)
| AeQueueFull
| AeBackgroundQueueFull
| AeEvolutionScheduling
| AeRecursiveEvolution
| AeDedicatedEvolutionChild
| AeIllegalTransition (from to : ActionState)
| AeTurnAlreadyRunning
| AeRevisionOverflow
| AeSequenceOverflow
| AeLockPoisoned.
Global Arguments AeRepository {E}.
Global Arguments AeNotFound {E}.
Global Arguments AeCorrupt {E}.
Global Arguments AeInvalid {E}.
Global Arguments AeQueueFull {E}.
Global Arguments AeBackgroundQueueFull {E}.
Global Arguments AeEvolutionScheduling {E}.
Global Arguments AeRecursiveEvolution {E}.
Global Arguments AeDedicatedEvolutionChild {E}.
Global Arguments AeIllegalTransition {E}.
Global Arguments AeTurnAlreadyRunning {E}.
Global Arguments AeRevisionOverflow {E}.
Global Arguments AeSequenceOverflow {E}.
Global Arguments AeLockPoisoned {E}.

(** ** Checks *)

Definition reached (deadline : option UtcTimestamp) (now : UtcTimestamp) : bool :=
  match deadline with Some deadline => rleb deadline now | None => false end.

Definition validate_action {E} (a : SessionAction) : result (ActionStoreError E) unit :=
  reject_if (match payload_text (act_payload a) with Some text => str_blank text | None => false end)
    (AeInvalid (str "text-bearing payloads cannot be empty")) ;;
  reject_if (match act_not_before a, act_deadline a with
             | Some not_before, Some deadline => rleb deadline not_before
             | _, _ => false
             end)
    (AeInvalid (str "not-before must precede deadline")) ;;
  reject_if (bool_decide (act_delivery a = NextTurnBoundary) && negb (is_steering (act_payload a)))
    (AeInvalid (str "turn-boundary delivery is reserved for steering payloads")) ;;
  match act_source a, act_payload a with
  | FromEvolution _ ancestry execution, PayEvolution _ =>
      reject_if (negb (bool_decide (act_priority a = PriorityBackground))
                 || negb (bool_decide (act_delivery a = WhenIdle)))
        AeEvolutionScheduling ;;
      reject_if (bool_decide (execution = DedicatedChild)) AeDedicatedEvolutionChild ;;
      reject_if ((32 <? length ancestry)%nat || bool_decide (AncestorEvolution ∈ ancestry)) AeRecursiveEvolution
  | FromEvolution _ _ _, _ | _, PayEvolution _ =>
      Err (AeInvalid (str "evolution source and payload must be paired"))
  | _, _ => Ok tt
  end.

Definition eligibility (a : SessionAction) (context : PumpContext) : option AdmissionKind :=
  match act_delivery a with
  | Immediate =>
      if bool_decide (act_priority a = Interrupt) && is_steering (act_payload a)
      then (fun _ => ApplySteering) <$> active_action context
      else if bool_decide (active_action context = None) then Some StartTurn
      else None
  | NextTurnBoundary =>
      if bool_decide (is_Some (active_action context)) && at_turn_boundary context then Some ApplySteering
      else if bool_decide (active_action context = None) then Some StartTurn
      else None
  | WhenIdle =>
      if bool_decide (active_action context = None) && session_idle context then Some StartTurn else None
  end.

Definition action_order (left right : ActionRecord) : comparison :=
  cmp_then (rcmp (rank (act_priority (a_action left))) (rank (act_priority (a_action right))))
    (cmp_then (rcmp (a_enqueue_sequence left) (a_enqueue_sequence right))
       (rcmp (act_id (a_action left)) (act_id (a_action right)))).

(** ** The inbox *)

Section inbox.
Context {S : Type} `{HR : Repository S, HD : Document ActionRecord}.
Context (config : ActionInboxConfig).

Abbreviation Error := (ActionStoreError repo_error).
Abbreviation inbox_m := (stateT (World S) Error).
Abbreviation StoredAction := (Stored ActionRecord).

Definition inbox_new : result Error ActionInboxConfig :=
  reject_if ((max_queued_per_session config =? 0)
             || (max_queued_per_session config <? max_background_queued_per_session config))%Z%bool
    (AeInvalid (str "queue limits must be non-zero and background cannot exceed total")) ;;
  Ok config.

Definition encode (x : ActionRecord) : result Error VersionedRecord :=
  payload ← map_err (fun e => AeCorrupt (CorruptDocument e)) (to_value x);
  Ok (MkVersionedRecord (a_version x) (as_entity_id (act_id (a_action x))) (a_revision x) (a_updated_at x) payload).

Definition decode (r : VersionedRecord) : result Error StoredAction :=
  x ← map_err (fun e => AeCorrupt (CorruptDocument e)) (from_value (rec_payload r));
  reject_if (negb (sv_major (a_version x) =? sv_major CURRENT_SCHEMA_VERSION)%Z
             || (sv_minor CURRENT_SCHEMA_VERSION <? sv_minor (a_version x))%Z
             || negb (bool_decide (as_entity_id (act_id (a_action x)) = rec_id r))
             || negb (bool_decide (a_revision x = rec_revision r)))%bool
    (AeCorrupt CorruptEnvelope) ;;
  Ok (MkStored x (rec_revision r)).

Definition lock : inbox_m unit := lock_serial PendingActions AeLockPoisoned.

Definition load (id : ActionId) : inbox_m (option StoredAction) :=
  load_item PendingActions AeRepository decode (as_entity_id id).

Definition load_all : inbox_m (list StoredAction) := load_items PendingActions AeRepository decode.

Definition required (id : ActionId) : inbox_m StoredAction :=
  found ← load id;
  lift (ok_or found (AeNotFound id)).

Definition put_new (x : ActionRecord) : inbox_m unit :=
  r ← lift (encode x);
  map_err_m AeRepository (call_put PendingActions r PreMissing) ;;
  mret tt.

Definition moved_record (x : ActionRecord) (next : ActionState) (revision : Revision) (now : UtcTimestamp)
    (detail : option rstr) : ActionRecord :=
  MkActionRecord (a_version x) (a_action x) next (a_enqueue_sequence x) revision now detail.

Definition transition_stored (stored : StoredAction) (next : ActionState) (now : UtcTimestamp)
    (detail : option rstr) : inbox_m StoredAction :=
  lift (reject_if (negb (action_allows (a_state (item stored)) next))
          (AeIllegalTransition (a_state (item stored)) next)) ;;
  next_revision ← lift (ok_or (checked_next (storage_revision stored)) AeRevisionOverflow);
  let x := moved_record (item stored) next next_revision now detail in
  r ← lift (encode x);
  map_err_m AeRepository (call_put PendingActions r (PreExact (storage_revision stored))) ;;
  mret (MkStored x next_revision).

Definition transition (id : ActionId) (next : ActionState) (now : UtcTimestamp) (detail : option rstr)
  : inbox_m ActionRecord :=
  lock ;;
  stored ← required id;
  stored ← transition_stored stored next now detail;
  mret (item stored).

Definition of_session (session : SessionId) (x : StoredAction) : bool :=
  bool_decide (act_session_id (a_action (item x)) = session).

Definition is_queued (x : StoredAction) : bool := negb (action_is_terminal (a_state (item x))).

Definition is_background (x : StoredAction) : bool :=
  is_queued x && bool_decide (act_priority (a_action (item x)) = PriorityBackground).

Definition new_record (a : SessionAction) (sequence : Z) (now : UtcTimestamp) : ActionRecord :=
  let expired := reached (act_deadline a) now in
  MkActionRecord CURRENT_SCHEMA_VERSION a (if expired then AExpired else AQueued) sequence Revision_ZERO now
    (if expired then Some (str "deadline elapsed before admission") else None).

Definition submit (a : SessionAction) (now : UtcTimestamp) : inbox_m ActionRecord :=
  lift (validate_action a) ;;
  lock ;;
  records ← load_all;
  if existsb (fun x => bool_decide (act_id (a_action (item x)) = act_id a)) records
  then throw (AeInvalid (str "action ID already exists"))
  else
    let session_records := List.filter (of_session (act_session_id a)) records in
    let queued := Z.of_nat (length (List.filter is_queued session_records)) in
    if (max_queued_per_session config <=? queued)%Z then throw AeQueueFull
    else
      let background := Z.of_nat (length (List.filter is_background session_records)) in
      if bool_decide (act_priority a = PriorityBackground)
         && (max_background_queued_per_session config <=? background)%Z
      then throw AeBackgroundQueueFull
      else
        sequence ← lift (ok_or
          (u64_checked_add (default 0%Z (max_of ((fun x => a_enqueue_sequence (item x)) <$> session_records))) 1)
          AeSequenceOverflow);
        let x := new_record a sequence now in
        put_new x ;;
        mret x.

Definition get (id : ActionId) : inbox_m (option ActionRecord) :=
  lock ;;
  found ← load id;
  mret (item <$> found).

Definition list_session (session : SessionId) : inbox_m (list ActionRecord) :=
  lock ;;
  records ← load_all;
  mret (sort_by action_order (item <$> List.filter (of_session session) records)).

(** The first loop of [select_next]: the overdue actions of the session are expired. *)
Definition is_overdue (session : SessionId) (now : UtcTimestamp) (x : StoredAction) : bool :=
  of_session session x
  && bool_decide (a_state (item x) = AQueued \/ a_state (item x) = AWaiting)
  && reached (act_deadline (a_action (item x))) now.

Definition expire_overdue (session : SessionId) (now : UtcTimestamp) (records : list StoredAction)
  : inbox_m (list StoredAction) :=
  map_m (fun x => if is_overdue session now x
                  then transition_stored x AExpired now (Some (str "deadline elapsed"))
                  else mret x) records.

Definition is_eligible (session : SessionId) (now : UtcTimestamp) (context : PumpContext) (x : StoredAction) : bool :=
  of_session session x
  && bool_decide (a_state (item x) = AQueued)
  && match act_not_before (a_action (item x)) with Some not_before => rleb not_before now | None => true end
  && bool_decide (is_Some (eligibility (a_action (item x)) context)).

Definition select_next (session : SessionId) (now : UtcTimestamp) (context : PumpContext)
  : inbox_m (option SelectedAction) :=
  lock ;;
  records ← load_all;
  records ← expire_overdue session now records;
  let eligible := sort_by (fun x y => action_order (item x) (item y))
                    (List.filter (is_eligible session now context) records) in
  match eligible with
  | [] => mret None
  | selected :: _ =>
      kind ← lift (ok_or (eligibility (a_action (item selected)) context)
                     (AeInvalid (str "selected action became ineligible")));
      selected ← transition_stored selected AAdmitted now None;
      mret (Some (MkSelected (item selected) kind))
  end.

Definition mark_running (id : ActionId) (now : UtcTimestamp) : inbox_m ActionRecord :=
  lock ;;
  stored ← required id;
  records ← load_all;
  if existsb (fun x => of_session (act_session_id (a_action (item stored))) x
                       && negb (bool_decide (act_id (a_action (item x)) = id))
                       && bool_decide (a_state (item x) = ARunning)) records
  then throw AeTurnAlreadyRunning
  else
    stored ← transition_stored stored ARunning now None;
    mret (item stored).

Definition mark_waiting (id : ActionId) (now : UtcTimestamp) : inbox_m ActionRecord :=
  transition id AWaiting now None.

Definition resume_waiting (id : ActionId) (now : UtcTimestamp) : inbox_m ActionRecord :=
  transition id AAdmitted now None.

Definition complete (id : ActionId) (now : UtcTimestamp) : inbox_m ActionRecord :=
  transition id ACompleted now None.

Definition fail (id : ActionId) (now : UtcTimestamp) (detail : rstr) : inbox_m ActionRecord :=
  transition id AFailed now (Some detail).

Definition cancel (id : ActionId) (now : UtcTimestamp) (detail : rstr) : inbox_m ActionRecord :=
  transition id ACancelled now (Some detail).
End inbox.
