(* ===== verification/ActionMachine.v ===== *)
(** * The life of an action

    What may happen to one action record, as a step relation, and the
    specification of every operation of the inbox of [ActionStore]: which record
    it writes, over which one, and what its answer says about the records. *)

From Stdlib Require Import ZArith Lia String.
From stdpp Require Import base decidable countable relations gmap sorting option list.
From S2P Require Import Prelude RustStd AgentTypes Json StateStoreCore ItemStore ActionStore.

Definition action_key (x : ActionRecord) : EntityId := as_entity_id (act_id (a_action x)).

(** ** Steps *)

Inductive action_step : ActionRecord -> ActionRecord -> Prop :=
| step_move x next revision now detail :
    action_allows (a_state x) next = true -> action_step x (moved_record x next revision now detail).

Definition accepted (a : SessionAction) : Prop := validate_action (E := unit) a = Ok tt.

Definition action_init (x : ActionRecord) : Prop :=
  exists a sequence now, accepted a /\ x = new_record a sequence now.

(** Which error a check reports does not matter for whether it passes. *)
Lemma reject_then_ok {E F} b (e : E) (f : F) (m : result E unit) (n : result F unit) :
  (m = Ok tt <-> n = Ok tt) -> (reject_if b e ;; m) = Ok tt <-> (reject_if b f ;; n) = Ok tt.
Proof. by destruct b. Qed.

Lemma validate_action_accepted {E} a : validate_action (E := E) a = Ok tt <-> accepted a.
Proof.
  unfold accepted, validate_action. do 3 apply reject_then_ok.
  destruct (act_source a); destruct (act_payload a); try done.
  do 2 apply reject_then_ok. by destruct (_ || _)%bool.
Qed.

Lemma step_same_action x y :
  action_step x y -> a_action y = a_action x /\ a_enqueue_sequence y = a_enqueue_sequence x
                     /\ a_version y = a_version x.
Proof. by destruct 1. Qed.

Lemma steps_same_action x y :
  rtc action_step x y -> a_action y = a_action x /\ a_enqueue_sequence y = a_enqueue_sequence x
                         /\ a_version y = a_version x.
Proof.
  induction 1 as [|x y z Hs _ (-> & -> & ->)]; [done|]. by apply step_same_action.
Qed.

Lemma steps_states x y :
  rtc action_step x y -> rtc (fun s t => action_allows s t = true) (a_state x) (a_state y).
Proof.
  induction 1 as [|x y z Hs _ IH]; [apply rtc_refl|]. destruct Hs as [x next r n d Ha].
  econstructor; [exact Ha|exact IH].
Qed.

Lemma terminal_allows s next : action_is_terminal s = true -> action_allows s next = false.
Proof. by destruct s. Qed.

Lemma terminal_action_stuck x y : action_is_terminal (a_state x) = true -> ~ action_step x y.
Proof. intros Ht Hs. destruct Hs as [x next r n d Ha]. by rewrite terminal_allows in Ha. Qed.

(** The order of a session's queue. *)
Definition order_key (x : ActionRecord) :=
  (rank (act_priority (a_action x)), (a_enqueue_sequence x, act_id (a_action x))).

Lemma action_order_key x y : action_order x y = rcmp (order_key x) (order_key y).
Proof. done. Qed.

(** ** The operations *)

Section operations.
Context {S : Type} `{HU : Ulid, HR : Repository S, HL : !RepositoryLaws S, HD : Document ActionRecord}.
Context (config : ActionInboxConfig).

Abbreviation aholds := (holds PendingActions decode action_key action_init action_step).
Abbreviation alists := (lists_items PendingActions decode action_key action_init action_step).
Abbreviation replaced := (replaces PendingActions decode action_key action_init action_step).

Definition actions : Machine ActionRecord := item_machine PendingActions decode action_init action_step.

Lemma decode_action r x :
  decode r = Ok x <->
  from_value (rec_payload r) = Ok (item x) /\ action_key (item x) = rec_id r
  /\ (sv_major (a_version (item x)) = sv_major CURRENT_SCHEMA_VERSION
      /\ sv_minor (a_version (item x)) <= sv_minor CURRENT_SCHEMA_VERSION)%Z
  /\ a_revision (item x) = rec_revision r /\ storage_revision x = rec_revision r.
Proof.
  unfold decode, action_key. destruct (from_value _) as [y|]; cbn [mbind result_bind map_err]; [|naive_solver].
  split.
  - intros Hd. res_inv. bool_inv. bool_inv. done.
  - intros ([= ->] & Hi & [Hm Hn] & Hr & Hs). rewrite !bool_decide_eq_true_2 by done.
    rewrite Hm, Z.eqb_refl. destruct (Z.ltb_spec (sv_minor CURRENT_SCHEMA_VERSION) (sv_minor (a_version (item x)))); [lia|].
    destruct x. simpl in *. by subst.
Qed.

Lemma decode_action_faithful : decode_faithful decode action_key.
Proof. intros r x (_ & Hi & _ & _ & Hs)%decode_action. done. Qed.

(** The derived codec: what is written is read back, and a version has two [u16]s. *)
Definition action_codec : Prop :=
  document_lawful ActionRecord
  /\ forall v (x : ActionRecord), from_value v = Ok x -> (0 <= sv_minor (a_version x))%Z.

Lemma encode_action x r :
  document_lawful ActionRecord -> encode x = Ok r -> id_canonical (action_key x) ->
  a_version x = CURRENT_SCHEMA_VERSION ->
  is_u64 (revision_get (a_revision x)) -> is_i64 (unix_millis (a_updated_at x)) ->
  wf_record r /\ rec_id r = action_key x /\ rec_revision r = a_revision x
  /\ decode (canonical_record r) = Ok (MkStored x (a_revision x)).
Proof.
  intros Hlaw He Hid Hv Hrev Hnow. unfold encode in He. destruct (to_value x) as [v|] eqn:Ev; simpl in He; [|done].
  destruct (Hlaw _ _ Ev) as (Hd & Hread & Hback). injection He as <-.
  split; [|split; [done|split; [done|apply decode_action; simpl; by rewrite Hv]]].
  split; [done|]. simpl. rewrite Hv. do 2 (split; [simpl; unfold u16_max; lia|]). done.
Qed.

Lemma holds_version recs x : action_codec -> aholds recs x -> a_version (item x) = CURRENT_SCHEMA_VERSION.
Proof.
  intros [_ Hu] (r & _ & (Hf & _ & [Hm Hn] & _)%decode_action)%holds_lookup. apply Hu in Hf.
  destruct (a_version (item x)) as [major minor]. simpl in *. unfold CURRENT_SCHEMA_VERSION. f_equal; lia.
Qed.

Context (Hcodec : action_codec) (G : Contract).
Context (Hfollows : forall recs recs', guarantee G recs recs' -> follows actions recs recs').

(** [r] is the record of [s], a successor of [x]. *)
Definition succeeds (x : Stored ActionRecord) (r : VersionedRecord) (s : Stored ActionRecord) : Prop :=
  decode (canonical_record r) = Ok s /\ action_step (item x) (item s)
  /\ action_key (item s) = action_key (item x)
  /\ revision_get (rec_revision r) = (revision_get (storage_revision x) + 1)%Z.

(** The contract allows the steps of an action, other than to run it. *)
Context (Hupdate : forall recs x r s,
  aholds recs x -> succeeds x r s -> a_state (item s) <> ARunning ->
  guarantee G recs (<[(PendingActions, action_key (item x)) := canonical_record r]> recs)).

Abbreviation aseen := (seen G PendingActions decode action_key action_init action_step).

Lemma spec_transition_stored P x next now detail :
  wf_stored action_key x -> is_i64 (unix_millis now) -> (forall recs, P recs -> aseen x recs) ->
  (next = ARunning -> forall recs r s, later G P recs -> aholds recs x -> succeeds x r s ->
     a_state (item s) = ARunning ->
     guarantee G recs (<[(PendingActions, action_key (item x)) := canonical_record r]> recs)) ->
  spec G P (transition_stored x next now detail) (fun s recs' =>
    (action_allows (a_state (item x)) next = true
     /\ item s = moved_record (item x) next (storage_revision s) now detail)
    /\ exists recs, later G P recs /\ replaced recs recs' x s).
Proof.
  intros [Hid Hrev] Hnow HP Hrun. unfold transition_stored.
  apply spec_lift_bind. intros [] Ha%reject_if_ok%negb_false_iff.
  apply spec_lift_bind. intros rev Hnext. apply ok_or_Ok, checked_next_Some in Hnext as [Hn Hle].
  apply spec_lift_bind. intros r He.
  apply spec_pre. intros recs1 HP1.
  assert (a_version (item x) = CURRENT_SCHEMA_VERSION) as Hv.
  { destruct (HP recs1 HP1) as (recs0 & _ & Hx). by eapply holds_version. }
  destruct (encode_action _ _ (proj1 Hcodec) He) as (Hwf & Hri & Hrr & Hdec); [done|done| |done|].
  { simpl. unfold is_u64 in *. lia. }
  set (y := moved_record (item x) next rev now detail) in *.
  assert (succeeds x r (MkStored y rev)) as Hsucc.
  { split; [done|]. split; [by constructor|]. split; [done|]. by rewrite Hrr. }
  eapply spec_bind.
  { apply (spec_replace G PendingActions decode action_key action_init action_step AeRepository
             decode_action_faithful Hfollows (eq recs1) x r (MkStored y rev)); [done|done|done|done| |].
    - intros recs <-. by apply HP.
    - intros recs (recs2 & <- & HR2) Hx. destruct (decide (next = ARunning)) as [->|Hne].
      + eapply Hrun; [done|by exists recs1|done|done|done].
      + by eapply Hupdate. }
  intros receipt. cbn beta. apply spec_ret. intros recs' (recs & (recs2 & <- & HR2) & Hrep).
  split; [done|]. exists recs. split; [by exists recs1|done].
Qed.

Lemma spec_required_action P id :
  spec G P (required id) (fun x recs =>
    (act_id (a_action (item x)) = id /\ wf_stored action_key x) /\ later G P recs /\ aholds recs x).
Proof.
  unfold required, load. eapply spec_bind.
  { apply (spec_load_item G PendingActions decode action_key action_init action_step AeRepository
             decode_action_faithful). }
  intros found. cbn beta. apply spec_lift. intros x recs Hx (Hf & Hl & Hh). apply ok_or_Ok in Hx as ->.
  destruct (Hf x eq_refl) as [Hid Hwf]. split; [|done]. split; [|done].
  by apply (inj as_entity_id).
Qed.

Lemma spec_load_actions P :
  spec G P load_all (fun xs recs => Forall (wf_stored action_key) xs /\ later G P recs /\ alists recs xs).
Proof.
  apply (spec_load_items G PendingActions decode action_key action_init action_step AeRepository
           decode_action_faithful).
Qed.

(** A plain transition. *)
Lemma spec_transition P id next now detail :
  rely_stable G P -> is_i64 (unix_millis now) -> next <> ARunning ->
  spec G P (transition id next now detail) (fun y recs' => exists recs x s,
    P recs /\ replaced recs recs' x s /\ act_id (a_action (item x)) = id
    /\ action_allows (a_state (item x)) next = true
    /\ y = item s /\ y = moved_record (item x) next (storage_revision s) now detail).
Proof.
  intros Hst Hnow Hne. unfold transition. eapply spec_bind; [apply spec_lock|]. intros []. cbn beta.
  eapply spec_bind; [apply spec_required_action|]. intros x. cbn beta. apply spec_pure. intros [Hid Hwf].
  eapply spec_bind; [apply spec_transition_stored; [done|done| |done]|].
  { intros recs [_ Hx]. by apply holds_seen. }
  intros s. cbn beta. apply spec_pure. intros [Ha Hs]. apply spec_ret. intros recs' (recs & Hl & Hrep).
  exists recs, x, s. split; [|done].
  destruct Hl as (recs1 & [Hl _] & HR1). apply (later_rely G P) in Hl; [|done].
  by eapply Hst.
Qed.

(** ** Submitting *)

Definition queued_in (session : SessionId) (x : Stored ActionRecord) : bool := of_session session x && is_queued x.
Definition background_in (session : SessionId) (x : Stored ActionRecord) : bool :=
  of_session session x && is_background x.

Abbreviation akeys := (item_keys PendingActions decode).

(** [r] is the record of the new action [a], behind every action that [listed]
    has for its session, and the queues of [listed] have room for it. *)
Definition submits (a : SessionAction) (listed : Records) (r : VersionedRecord) (s : Stored ActionRecord) : Prop :=
  decode (canonical_record r) = Ok s /\ rec_id r = action_key (item s) /\ rec_revision r = Revision_ZERO
  /\ accepted a
  /\ (exists sequence now, item s = new_record a sequence now
       /\ forall y, aholds listed y -> act_session_id (a_action (item y)) = act_session_id a ->
          (a_enqueue_sequence (item y) < sequence)%Z)
  /\ (Z.of_nat (size (akeys (queued_in (act_session_id a)) listed)) < max_queued_per_session config)%Z
  /\ (act_priority a = PriorityBackground ->
      (Z.of_nat (size (akeys (background_in (act_session_id a)) listed)) < max_background_queued_per_session config)%Z).

Lemma spec_put_new P x :
  id_canonical (action_key x) -> a_version x = CURRENT_SCHEMA_VERSION -> a_revision x = Revision_ZERO ->
  is_i64 (unix_millis (a_updated_at x)) ->
  (forall recs r, later G P recs -> recs !! (PendingActions, rec_id r) = None ->
     decode (canonical_record r) = Ok (MkStored x Revision_ZERO) -> rec_id r = action_key x ->
     rec_revision r = Revision_ZERO ->
     guarantee G recs (<[(PendingActions, rec_id r) := canonical_record r]> recs)) ->
  spec G P (put_new x) (fun _ recs' => exists recs r, later G P recs
    /\ recs !! (PendingActions, rec_id r) = None
    /\ decode (canonical_record r) = Ok (MkStored x Revision_ZERO) /\ rec_id r = action_key x
    /\ rec_revision r = Revision_ZERO
    /\ recs' = <[(PendingActions, rec_id r) := canonical_record r]> recs).
Proof.
  intros Hid Hv Hz Hnow Hown. unfold put_new. apply spec_lift_bind. intros r He.
  destruct (encode_action _ _ (proj1 Hcodec) He) as (Hwfr & Hri & Hrr & Hdec); [done|done|by rewrite Hz|done|].
  rewrite Hz in Hrr, Hdec.
  eapply spec_bind; [apply (spec_create G PendingActions AeRepository); [done|done|]|].
  { intros recs Hl Hnone. by apply Hown. }
  intros receipt. cbn beta. apply spec_ret. intros recs' (recs & Hl & Hnone & ->). by exists recs, r.
Qed.

Lemma spec_submit P a now :
  rely_stable G P -> is_i64 (unix_millis now) -> id_canonical (as_entity_id (act_id a)) ->
  (forall listed recs r s, P listed -> rely G listed recs -> submits a listed r s ->
     recs !! (PendingActions, rec_id r) = None ->
     guarantee G recs (<[(PendingActions, rec_id r) := canonical_record r]> recs)) ->
  spec G P (submit config a now) (fun y recs' => exists listed recs r s,
    P listed /\ rely G listed recs /\ submits a listed r s
    /\ recs !! (PendingActions, rec_id r) = None
    /\ recs' = <[(PendingActions, rec_id r) := canonical_record r]> recs
    /\ aholds recs' s /\ y = item s).
Proof.
  intros Hst Hnow Hid Hown. unfold submit. apply spec_lift_bind. intros [] Hval. apply validate_action_accepted in Hval.
  eapply spec_bind; [apply spec_lock|]. intros []. cbn beta.
  eapply spec_bind; [apply spec_load_actions|]. intros xs. cbn beta. apply spec_pure. intros Hwf.
  destruct (existsb _ xs); [apply spec_throw|]. rewrite !filter_filter_and.
  set (queued := List.filter _ xs). destruct (Z.leb_spec (max_queued_per_session config) (Z.of_nat (length queued)));
    [apply spec_throw|]. unfold queued in *. clear queued.
  set (background := length _). destruct (bool_decide (act_priority a = PriorityBackground) && _)%bool eqn:Ebg;
    [apply spec_throw|].
  apply spec_lift_bind. intros sequence Hseq. apply ok_or_Ok, u64_checked_add_Some in Hseq as [-> _].
  set (seq := (default 0%Z _ + 1)%Z).
  assert (forall listed r, alists listed xs -> decode (canonical_record r) = Ok (MkStored (new_record a seq now) Revision_ZERO) ->
    rec_id r = as_entity_id (act_id a) -> rec_revision r = Revision_ZERO ->
    submits a listed r (MkStored (new_record a seq now) Revision_ZERO)) as Hsub.
  { intros listed r Hlist Hdec Hri Hrr. do 4 (split; [done|]). split; [|split].
    - exists seq, now. split; [done|]. intros y Hy Hsess.
      assert (a_enqueue_sequence (item y) <= default 0 (max_of ((fun x => a_enqueue_sequence (item x)) <$>
        List.filter (of_session (act_session_id a)) xs)))%Z; [|unfold seq; lia].
      apply max_of_le, list_elem_of_fmap. exists y. split; [done|]. apply list_elem_of_In, filter_In.
      split; [by apply list_elem_of_In, Hlist|]. by apply bool_decide_eq_true.
    - pose proof (item_keys_listed _ _ _ _ _ decode_action_faithful (queued_in (act_session_id a)) _ _ Hlist).
      unfold queued_in in *. lia.
    - intros Hbg. rewrite bool_decide_eq_true_2 in Ebg by done. simpl in Ebg. bool_inv.
      pose proof (item_keys_listed _ _ _ _ _ decode_action_faithful (background_in (act_session_id a)) _ _ Hlist).
      unfold background_in in *. unfold background in Ebg. lia. }
  eapply spec_bind.
  { apply spec_put_new; [done..|]. intros recs r (listed & [Hl Hlist] & HR1) Hnone Hdec Hri Hrr.
    eapply Hown; [by apply (later_rely G P) in Hl|done|by apply Hsub|done]. }
  intros []. cbn beta. apply spec_ret.
  intros recs' (recs & r & (listed & [Hl Hlist] & HR1) & Hnone & Hdec & Hri & Hrr & ->).
  exists listed, recs, r, (MkStored (new_record a seq now) Revision_ZERO).
  split; [by apply (later_rely G P) in Hl|]. split; [done|]. split; [by apply Hsub|]. split; [done|]. split; [done|].
  split; [|done]. apply holds_lookup. exists (canonical_record r). by rewrite Hri, lookup_insert_eq.
Qed.

(** ** Running *)

(** No other action of the session of [x] runs. *)
Definition no_other_running (listed : Records) (x : Stored ActionRecord) : Prop :=
  forall y, aholds listed y -> act_session_id (a_action (item y)) = act_session_id (a_action (item x)) ->
    action_key (item y) <> action_key (item x) -> a_state (item y) <> ARunning.

Lemma spec_mark_running P id now :
  rely_stable G P -> is_i64 (unix_millis now) ->
  (forall listed recs x r s, rely G listed recs -> no_other_running listed x -> aholds recs x -> succeeds x r s ->
     a_state (item s) = ARunning ->
     guarantee G recs (<[(PendingActions, action_key (item x)) := canonical_record r]> recs)) ->
  spec G P (mark_running id now) (fun y recs' => exists recs x s,
    P recs /\ replaced recs recs' x s /\ act_id (a_action (item x)) = id
    /\ action_allows (a_state (item x)) ARunning = true
    /\ y = item s /\ y = moved_record (item x) ARunning (storage_revision s) now None).
Proof.
  intros Hst Hnow Hrun. unfold mark_running. eapply spec_bind; [apply spec_lock|]. intros []. cbn beta.
  eapply spec_bind; [apply spec_required_action|]. intros x. cbn beta. apply spec_pure. intros [Hid Hwf].
  apply (spec_given G (fun recs => P recs /\ aseen x recs)).
  { intros recs [Hl Hx]. split; [by apply (later_rely G P) in Hl|by apply holds_seen]. }
  eapply spec_bind; [apply spec_load_actions|]. intros xs. cbn beta. apply spec_pure. intros _.
  destruct (existsb _ xs) eqn:Ex; [apply spec_throw|].
  assert (forall listed, alists listed xs -> no_other_running listed x) as Hno.
  { intros listed [_ Hin] y Hy Hsess Hne Hr. apply Hin, list_elem_of_In in Hy.
    assert (existsb (fun y => of_session (act_session_id (a_action (item x))) y
      && negb (bool_decide (act_id (a_action (item y)) = id)) && bool_decide (a_state (item y) = ARunning)) xs = true); [|congruence].
    apply existsb_exists. exists y. split; [done|]. unfold of_session.
    rewrite (bool_decide_eq_true_2 _ Hsess), (bool_decide_eq_true_2 _ Hr), bool_decide_eq_false_2; [done|]. intros Heq. apply Hne. unfold action_key. congruence. }
  eapply spec_bind; [apply (spec_transition_stored _ x); [done|done| |]|].
  - intros recs [Hl _]. apply (later_stable G (aseen x)); [apply seen_stable|].
    destruct Hl as (recs1 & [_ Hs] & HR1). by exists recs1.
  - intros _ recs r s (listed & [_ Hlist] & HR1) Hx Hsucc Hs. eapply Hrun; [exact HR1|by apply Hno|done..].
  - intros s. cbn beta. apply spec_pure. intros [Ha Hs]. apply spec_ret. intros recs' (recs & Hl & Hrep).
    exists recs, x, s. split; [|done].
    destruct Hl as (listed & [(recs1 & [HP _] & HR1) _] & HR2).
    eapply Hst; [by eapply Hst|done].
Qed.

(** ** Selecting *)

(** Eligible, and not overdue. *)
Definition is_ready (session : SessionId) (now : UtcTimestamp) (context : PumpContext) (x : Stored ActionRecord) : bool :=
  is_eligible session now context x && negb (is_overdue session now x).

Lemma spec_expire P session now xs :
  stable G P -> is_i64 (unix_millis now) -> Forall (wf_stored action_key) xs ->
  (forall recs, P recs -> Forall (fun x => aseen x recs) xs) ->
  spec G P (expire_overdue session now xs) (fun ys recs =>
    Forall2 (fun x y => if is_overdue session now x then a_state (item y) = AExpired else y = x) xs ys /\ P recs).
Proof.
  intros Hst Hnow Hwf Hseen. unfold expire_overdue. apply spec_map_m. intros x Hx.
  destruct (is_overdue session now x) eqn:Eo; [|by apply spec_ret].
  eapply spec_weaken; [apply (spec_keep G P); [done|]; apply (spec_transition_stored P x)|done|].
  - by eapply list.Forall_forall in Hwf.
  - done.
  - intros recs HP. specialize (Hseen recs HP). by eapply list.Forall_forall in Hseen.
  - done.
  - intros s recs [HP [[_ Hs] _]]. split; [by rewrite Hs|done].
Qed.

(** The head of the sorted eligible records. *)
Lemma expired_eligible session now context xs ys y :
  Forall2 (fun x y => if is_overdue session now x then a_state (item y) = AExpired else y = x) xs ys ->
  y ∈ List.filter (is_eligible session now context) ys <-> y ∈ xs /\ is_ready session now context y = true.
Proof.
  intros Hxy. rewrite list_elem_of_In, filter_In, <- list_elem_of_In. unfold is_ready.
  assert (forall x, a_state (item x) = AExpired -> is_eligible session now context x = false) as Hex.
  { intros x Hx. unfold is_eligible. rewrite Hx. by rewrite andb_false_r. }
  induction Hxy as [|x z xs ys Hxz Hxy IH]; [rewrite !elem_of_nil; naive_solver|].
  rewrite !elem_of_cons. destruct (is_overdue session now x) eqn:Eo.
  - split.
    + intros [[->|Hy] He]; [by rewrite Hex in He|]. destruct (proj1 IH (conj Hy He)). auto.
    + intros [[->|Hy] He]; [by rewrite Eo, andb_false_r in He|]. destruct (proj2 IH (conj Hy He)). auto.
  - subst z. split.
    + intros [[->|Hy] He]; [rewrite He, Eo; auto|]. destruct (proj1 IH (conj Hy He)). auto.
    + intros [[->|Hy] He]; [apply andb_true_iff in He as [He _]; auto|]. destruct (proj2 IH (conj Hy He)). auto.
Qed.

(** [select_next] admits a ready action of the list it read that no ready action
    precedes, and nothing is ready when it admits none. *)
Lemma spec_select P session now context :
  is_i64 (unix_millis now) ->
  spec G P (select_next session now context) (fun o recs' => exists listed, later G P listed /\
    match o with
    | None => forall x, aholds listed x -> is_ready session now context x = false
    | Some sel => exists recs x s, aholds listed x /\ is_ready session now context x = true
        /\ (forall y, aholds listed y -> is_ready session now context y = true ->
             action_order (item x) (item y) <> Gt)
        /\ eligibility (a_action (item x)) context = Some (selected_kind sel)
        /\ guarantee G listed recs /\ replaced recs recs' x s
        /\ selected_record sel = item s /\ item s = moved_record (item x) AAdmitted (storage_revision s) now None
    end).
Proof.
  intros Hnow. unfold select_next. eapply spec_bind; [apply spec_lock|]. intros []. cbn beta.
  eapply spec_bind; [apply spec_load_actions|]. intros xs. cbn beta. apply spec_pure. intros Hwf.
  apply spec_pre. intros listed [Hl [_ Hin]].
  apply (spec_given G (guarantee G listed)); [by intros recs <-|].
  assert (stable G (guarantee G listed)) as Hst by (intros a b Ha Hb; by etrans).
  eapply spec_bind.
  { apply spec_expire; [done|done|done|]. intros recs HT. apply list.Forall_forall. intros x Hx%Hin.
    by exists listed. }
  intros ys. cbn beta. apply spec_pure. intros Hxy.
  pose proof (fun y => expired_eligible session now context xs ys y Hxy) as Hel.
  destruct (sort_by _ _) as [|x zs] eqn:Es.
  { apply spec_ret. intros recs _. exists listed. split; [done|]. intros x Hx%Hin.
    destruct (is_ready session now context x) eqn:Er; [|done]. exfalso.
    assert (x ∈ List.filter (is_eligible session now context) ys) as Hf by (by apply Hel).
    rewrite <- (sort_by_perm (fun x y => action_order (item x) (item y))), Es in Hf. by apply elem_of_nil in Hf. }
  assert (forall y, y ∈ x :: zs <-> y ∈ xs /\ is_ready session now context y = true) as Hmem.
  { intros y. rewrite <- Es, sort_by_perm. apply Hel. }
  destruct (proj1 (Hmem x)) as [Hx Hr]; [by left|].
  assert (forall y, y ∈ x :: zs -> action_order (item x) (item y) <> Gt) as Hmin.
  { pose proof (sort_by_key_sorted (fun x : Stored ActionRecord => order_key (item x))
      (List.filter (is_eligible session now context) ys)) as Hs.
    change (StronglySorted (fun x y => action_order (item x) (item y) <> Gt) (sort_by
      (fun x y => action_order (item x) (item y)) (List.filter (is_eligible session now context) ys))) in Hs.
    rewrite Es in Hs. inversion Hs as [|? ? _ Hall]; subst. intros y [->|Hy]%elem_of_cons.
    - rewrite action_order_key. by rewrite rcmp_refl.
    - by eapply list.Forall_forall in Hall. }
  apply spec_lift_bind. intros kind Hkind%ok_or_Ok.
  eapply spec_bind; [apply (spec_transition_stored _ x); [| done | |done]|].
  - by eapply list.Forall_forall in Hwf.
  - intros recs HT. exists listed. split; [done|by apply Hin].
  - intros s. cbn beta. apply spec_pure. intros [Ha Hs]. apply spec_ret. intros recs' (recs & Hlt & Hrep).
    exists listed. split; [done|]. exists recs, x, s. split; [by apply Hin|]. split; [done|].
    split; [intros y Hy%Hin Hry; apply Hmin, Hmem; done|]. split; [done|].
    split; [by apply (later_stable G (guarantee G listed)) in Hlt|]. done.
Qed.

Lemma spec_get_action P id :
  rely_stable G P -> spec G P (get id) (fun o recs => P recs
    /\ match o with
       | Some y => exists x, aholds recs x /\ y = item x /\ act_id (a_action y) = id
       | None => recs !! (PendingActions, as_entity_id id) = None
       end).
Proof.
  intros Hst. unfold get, load. eapply spec_bind; [apply spec_lock|]. intros []. cbn beta.
  eapply spec_bind.
  { apply (spec_load_item G PendingActions decode action_key action_init action_step AeRepository
             decode_action_faithful). }
  intros found. cbn beta. apply spec_ret. intros recs (Hf & Hl & Hx).
  split; [by apply (later_rely G P) in Hl|]. destruct found as [x|]; simpl; [|done].
  exists x. split; [done|]. split; [done|]. apply (inj as_entity_id). by apply Hf.
Qed.

Lemma spec_list_session P session :
  rely_stable G P -> spec G P (list_session session) (fun ys recs => P recs
    /\ StronglySorted (fun x y => action_order x y <> Gt) ys
    /\ forall y, y ∈ ys <-> act_session_id (a_action y) = session /\ exists x, aholds recs x /\ y = item x).
Proof.
  intros Hst. unfold list_session. eapply spec_bind; [apply spec_lock|]. intros []. cbn beta.
  eapply spec_bind; [apply spec_load_actions|]. intros xs. cbn beta. apply spec_ret.
  intros recs (_ & Hl & [_ Hin]). split; [by apply (later_rely G P) in Hl|].
  split; [exact (sort_by_key_sorted order_key (item <$> List.filter (of_session session) xs))|]. intros y. rewrite sort_by_perm, list_elem_of_fmap. split.
  - intros (x & -> & [Hx Hs%bool_decide_eq_true]%list_elem_of_In%filter_In). split; [done|]. exists x.
    split; [by apply Hin, list_elem_of_In|done].
  - intros [Hs (x & Hx & ->)]. exists x. split; [done|]. apply list_elem_of_In, filter_In.
    split; [by apply list_elem_of_In, Hin|]. by apply bool_decide_eq_true.
Qed.
End operations.
