(* ===== verification/ActionProperties.v ===== *)
(** * Correctness of the action inbox

    Runs of arbitrary operations of the inbox of [ActionStore] over a repository:
    with other inboxes writing at the same time (the contract [shared_inbox]), and
    as the only writer of actions (the contract [exclusive_inbox]). *)

From Stdlib Require Import ZArith Lia String.
From stdpp Require Import base decidable countable relations gmap sorting option list.
From S2P Require Import Prelude RustStd AgentTypes Json StateStoreCore ItemStore ActionStore ActionMachine.

Inductive inbox_op :=
| ISubmit (a : SessionAction)
| ISelect (session : SessionId) (context : PumpContext)
| IMarkRunning (id : ActionId)
| IMarkWaiting (id : ActionId)
| IResumeWaiting (id : ActionId)
| IComplete (id : ActionId)
| IFail (id : ActionId) (detail : rstr)
| ICancel (id : ActionId) (detail : rstr)
| IGet (id : ActionId)
| IListSession (session : SessionId).

Section runs.
Context {S : Type} `{HU : Ulid, HR : Repository S, HL : !RepositoryLaws S, HD : Document ActionRecord}.
Context (config : ActionInboxConfig).

Abbreviation aholds := (holds PendingActions decode action_key action_init action_step).
Abbreviation akeys := (item_keys PendingActions decode).

Definition inbox_do (op : inbox_op) (now : UtcTimestamp) : stateT (World S) (ActionStoreError repo_error) unit :=
  match op with
  | ISubmit a => submit config a now ;; mret tt
  | ISelect session context => select_next session now context ;; mret tt
  | IMarkRunning id => mark_running id now ;; mret tt
  | IMarkWaiting id => mark_waiting id now ;; mret tt
  | IResumeWaiting id => resume_waiting id now ;; mret tt
  | IComplete id => complete id now ;; mret tt
  | IFail id detail => fail id now detail ;; mret tt
  | ICancel id detail => cancel id now detail ;; mret tt
  | IGet id => get id ;; mret tt
  | IListSession session => list_session session ;; mret tt
  end.

(** A run goes on after an error. *)
Definition inbox_run (ops : list (inbox_op * UtcTimestamp)) (w : World S) : World S :=
  fold_left (fun w p => (inbox_do p.1 p.2 w).2) ops w.

(** Times and identifiers are values of their Rust types. *)
Definition well_typed (p : inbox_op * UtcTimestamp) : Prop :=
  is_i64 (unix_millis p.2)
  /\ match p.1 with ISubmit a => id_canonical (as_entity_id (act_id a)) | _ => True end.

(** ** Contracts *)

Definition shared_inbox : Contract := MkContract (follows actions) (follows actions) _ _ (fun _ _ H => H).

(** At most one action of a session runs, its actions are numbered apart, and
    its queues are within their limits. *)
Definition one_running (recs : Records) : Prop :=
  forall x y, aholds recs x -> aholds recs y ->
    act_session_id (a_action (item x)) = act_session_id (a_action (item y)) ->
    a_state (item x) = ARunning -> a_state (item y) = ARunning -> x = y.

Definition numbered (recs : Records) : Prop :=
  forall x y, aholds recs x -> aholds recs y ->
    act_session_id (a_action (item x)) = act_session_id (a_action (item y)) ->
    a_enqueue_sequence (item x) = a_enqueue_sequence (item y) -> x = y.

Definition within_limits (recs : Records) : Prop :=
  forall session,
    (Z.of_nat (size (akeys (queued_in session) recs)) <= max_queued_per_session config)%Z
    /\ (Z.of_nat (size (akeys (background_in session) recs)) <= max_background_queued_per_session config)%Z.

Definition orderly (recs : Records) : Prop := one_running recs /\ numbered recs /\ within_limits recs.

Definition orderly_follows (recs recs' : Records) : Prop :=
  follows actions recs recs' /\ (orderly recs -> orderly recs').

#[export] Instance orderly_follows_preorder : PreOrder orderly_follows.
Proof.
  split; [intros recs; split; [reflexivity|done]|].
  intros a b c [Hab Tab] [Hbc Tbc]. split; [by etrans|auto].
Qed.

Lemma untouched_aholds recs recs' x : untouched PendingActions recs recs' -> aholds recs x <-> aholds recs' x.
Proof. apply untouched_holds. Qed.

Lemma untouched_akeys p recs recs' : untouched PendingActions recs recs' -> akeys p recs = akeys p recs'.
Proof.
  apply (item_keys_untouched PendingActions decode action_key action_init action_step decode_action_faithful).
Qed.

Lemma untouched_orderly recs recs' : untouched PendingActions recs recs' -> orderly recs -> orderly recs'.
Proof.
  intros Hu (Hr & Hn & Hl). split; [|split].
  - intros x y Hx Hy. apply Hr; by apply (untouched_aholds recs recs').
  - intros x y Hx Hy. apply Hn; by apply (untouched_aholds recs recs').
  - intros session. rewrite <- !(untouched_akeys _ _ _ Hu). apply Hl.
Qed.

Program Definition exclusive_inbox : Contract := MkContract (untouched PendingActions) orderly_follows _ _ _.
Next Obligation.
  intros recs recs' Hu. split; [by apply (untouched_follows actions)|by apply untouched_orderly].
Qed.

(** ** The contracts allow the steps *)

Lemma succeeds_follows recs x r s :
  aholds recs x -> succeeds x r s ->
  follows actions recs (<[(PendingActions, action_key (item x)) := canonical_record r]> recs).
Proof. intros Hx (Hdec & Hs & _ & Hrev). eapply update_key_step; eauto. apply decode_action_faithful. Qed.

(** What is held after a step was held before, or is its result. *)
Lemma succeeds_back recs x r s y :
  aholds recs x -> succeeds x r s ->
  aholds (<[(PendingActions, action_key (item x)) := canonical_record r]> recs) y ->
  exists z, aholds recs z /\ action_key (item z) = action_key (item y)
    /\ act_session_id (a_action (item z)) = act_session_id (a_action (item y))
    /\ a_enqueue_sequence (item z) = a_enqueue_sequence (item y)
    /\ (y = s /\ z = x \/ y = z).
Proof.
  intros Hx (Hdec & Hs & Hk & _) [[Hy Hid]|[Hy Hne]]%holds_insert; [|exists y; split_and!; auto].
  assert (y = s) as -> by congruence. destruct (step_same_action _ _ Hs) as (Ha & Hq & _).
  exists x. rewrite Ha, Hq. split_and!; auto.
Qed.

Lemma succeeds_queued x r s : succeeds x r s -> is_queued x = true.
Proof.
  intros (_ & Hs & _). unfold is_queued. destruct (action_is_terminal _) eqn:Et; [|done].
  by destruct (terminal_action_stuck _ _ Et Hs).
Qed.

Lemma succeeds_limits recs x r s :
  aholds recs x -> succeeds x r s -> within_limits recs ->
  within_limits (<[(PendingActions, action_key (item x)) := canonical_record r]> recs).
Proof.
  intros Hx Hsucc Hl session. pose proof (succeeds_queued _ _ _ Hsucc) as Hq.
  destruct Hsucc as (Hdec & Hs & Hk & _). destruct (step_same_action _ _ Hs) as (Ha & _).
  pose proof (fun p => item_keys_update_size PendingActions decode action_key action_init action_step
    decode_action_faithful p recs x _ s Hx Hdec Hk) as Hsize.
  destruct (Hl session) as [Hlq Hlb]. split.
  - assert (queued_in session s = true -> queued_in session x = true) as Hp.
    { unfold queued_in, of_session. rewrite Ha, Hq, andb_true_r. by intros [? _]%andb_true_iff. }
    specialize (Hsize _ Hp). lia.
  - assert (background_in session s = true -> background_in session x = true) as Hp.
    { unfold background_in, is_background, of_session. rewrite Ha, Hq.
      intros [? [_ ?]%andb_true_iff]%andb_true_iff. by repeat (apply andb_true_iff; split). }
    specialize (Hsize _ Hp). lia.
Qed.

Lemma succeeds_numbered recs x r s :
  aholds recs x -> succeeds x r s -> numbered recs ->
  numbered (<[(PendingActions, action_key (item x)) := canonical_record r]> recs).
Proof.
  intros Hx Hsucc Hn y z Hy Hz Hs Hq.
  destruct (succeeds_back _ _ _ _ _ Hx Hsucc Hy) as (y0 & Hy0 & Hky & Hsy & Hqy & _).
  destruct (succeeds_back _ _ _ _ _ Hx Hsucc Hz) as (z0 & Hz0 & Hkz & Hsz & Hqz & _).
  assert (y0 = z0) as -> by (apply Hn; congruence).
  eapply holds_inj; [exact Hy|exact Hz|congruence].
Qed.

Lemma exclusive_move recs x r s :
  aholds recs x -> succeeds x r s -> a_state (item s) <> ARunning ->
  orderly_follows recs (<[(PendingActions, action_key (item x)) := canonical_record r]> recs).
Proof.
  intros Hx Hsucc Hne. split; [by eapply succeeds_follows|]. intros (Hr & Hn & Hl).
  split; [|split; [by eapply succeeds_numbered|by eapply succeeds_limits]].
  intros y z Hy Hz Hs Hry Hrz.
  destruct (succeeds_back _ _ _ _ _ Hx Hsucc Hy) as (y0 & Hy0 & Hky & Hsy & _ & [[-> ->]|<-]); [done|].
  destruct (succeeds_back _ _ _ _ _ Hx Hsucc Hz) as (z0 & Hz0 & Hkz & Hsz & _ & [[-> ->]|<-]); [done|].
  by apply Hr.
Qed.

Lemma exclusive_running listed recs x r s :
  untouched PendingActions listed recs -> no_other_running listed x -> aholds recs x -> succeeds x r s ->
  a_state (item s) = ARunning ->
  orderly_follows recs (<[(PendingActions, action_key (item x)) := canonical_record r]> recs).
Proof.
  intros Hu Hno Hx Hsucc Hst. split; [by eapply succeeds_follows|]. intros (Hr & Hn & Hl).
  split; [|split; [by eapply succeeds_numbered|by eapply succeeds_limits]].
  assert (forall z, aholds recs z -> act_session_id (a_action (item z)) = act_session_id (a_action (item x)) ->
    a_state (item z) = ARunning -> action_key (item z) = action_key (item x)) as Honly.
  { intros z Hz Hs Hrz. destruct (decide (action_key (item z) = action_key (item x))); [done|].
    exfalso. eapply (Hno z); [by eapply untouched_aholds|done..]. }
  intros y z Hy Hz Hs Hry Hrz. eapply holds_inj; [exact Hy|exact Hz|].
  destruct (succeeds_back _ _ _ _ _ Hx Hsucc Hy) as (y0 & Hy0 & Hky & Hsy & _ & Ey).
  destruct (succeeds_back _ _ _ _ _ Hx Hsucc Hz) as (z0 & Hz0 & Hkz & Hsz & _ & Ez).
  destruct Ey as [[-> ->]|<-], Ez as [[-> ->]|<-]; [done| | |].
  - rewrite <- Hky. symmetry. apply Honly; [done|congruence|done].
  - rewrite <- Hkz. apply Honly; [done|congruence|done].
  - f_equal. f_equal. by apply Hr.
Qed.

Lemma submits_follows a listed recs r s :
  submits config a listed r s -> recs !! (PendingActions, rec_id r) = None ->
  follows actions recs (<[(PendingActions, rec_id r) := canonical_record r]> recs).
Proof.
  intros (Hdec & Hid & Hrev & Hacc & (seq & now & Hs & _) & _) Hnone. eapply create_key_step; [done|done|].
  rewrite Hs. by exists a, seq, now.
Qed.

Lemma exclusive_submit a listed recs r s :
  untouched PendingActions listed recs -> submits config a listed r s ->
  recs !! (PendingActions, rec_id r) = None ->
  orderly_follows recs (<[(PendingActions, rec_id r) := canonical_record r]> recs).
Proof.
  intros Hu Hsub Hnone. split; [by eapply submits_follows|]. intros (Hr & Hn & Hl).
  destruct Hsub as (Hdec & Hid & Hrev & Hacc & (seq & now & Hs & Hseq) & Hq & Hb).
  assert (a_state (item s) <> ARunning) as Hnr by (rewrite Hs; simpl; by destruct (reached _ _)).
  assert (forall y, aholds recs y -> act_session_id (a_action (item y)) = act_session_id (a_action (item s)) ->
    (a_enqueue_sequence (item y) < a_enqueue_sequence (item s))%Z) as Hlast.
  { intros y Hy. rewrite Hs. apply Hseq. by apply (untouched_aholds listed recs). }
  pose proof (fun p => item_keys_insert_size PendingActions decode action_key action_init action_step
    decode_action_faithful p recs _ _ _ Hdec (eq_sym Hid)) as Hsize.
  rewrite !(untouched_akeys _ _ _ Hu) in Hq. setoid_rewrite (untouched_akeys _ _ _ Hu) in Hb.
  split; [|split].
  - intros y z [[Hy _]|[Hy _]]%holds_insert [[Hz _]|[Hz _]]%holds_insert Hss Hry Hrz; [congruence..|by apply Hr].
  - intros y z [[Hy _]|[Hy _]]%holds_insert [[Hz _]|[Hz _]]%holds_insert Hss Hqq; [congruence| | |by apply Hn].
    + assert (y = s) as -> by congruence. specialize (Hlast z Hz (eq_sym Hss)). lia.
    + assert (z = s) as -> by congruence. specialize (Hlast y Hy Hss). lia.
  - intros session. destruct (Hl session) as [Hlq Hlb].
    pose proof (Hsize (queued_in session)) as Hsq. pose proof (Hsize (background_in session)) as Hsb. split.
    + destruct (queued_in session s) eqn:Eq; [|lia].
      apply andb_true_iff in Eq as [Es%bool_decide_eq_true _]. rewrite Hs in Es. simpl in Es. subst session. lia.
    + destruct (background_in session s) eqn:Eb; [|lia].
      apply andb_true_iff in Eb as [Es%bool_decide_eq_true [_ Ep%bool_decide_eq_true]%andb_true_iff].
      rewrite Hs in Es, Ep. simpl in Es, Ep. subst session. specialize (Hb Ep). lia.
Qed.

(** ** Runs *)

Section contract.
Context (Hcodec : action_codec) (G : Contract).
Context (Hfollows : forall recs recs', guarantee G recs recs' -> follows actions recs recs').
Context (Hupdate : forall recs x r s,
  aholds recs x -> succeeds x r s -> a_state (item s) <> ARunning ->
  guarantee G recs (<[(PendingActions, action_key (item x)) := canonical_record r]> recs)).
Context (Hrun : forall listed recs x r s,
  rely G listed recs -> no_other_running listed x -> aholds recs x -> succeeds x r s ->
  a_state (item s) = ARunning ->
  guarantee G recs (<[(PendingActions, action_key (item x)) := canonical_record r]> recs)).

(** The contract allows the submission of [a]. *)
Definition submission_allowed (a : SessionAction) : Prop := forall listed recs r s,
  rely G listed recs -> submits config a listed r s -> recs !! (PendingActions, rec_id r) = None ->
  guarantee G recs (<[(PendingActions, rec_id r) := canonical_record r]> recs).

Lemma spec_ignore {A} (m : stateT (World S) (ActionStoreError repo_error) A) Q :
  spec G (fun _ => True) m Q -> spec G (fun _ => True) (m ;; mret tt) (fun _ _ => True).
Proof. intros Hm. eapply spec_bind; [exact Hm|]. intros a. by apply spec_ret. Qed.

Lemma spec_inbox_do op now :
  well_typed (op, now) -> (forall a, op = ISubmit a -> submission_allowed a) ->
  spec G (fun _ => True) (inbox_do op now) (fun _ _ => True).
Proof.
  intros [Hnow Hop] Hcreate. assert (rely_stable G (fun _ => True)) as Hst by by intros ???.
  destruct op; simpl in *; eapply spec_ignore.
  - eapply spec_submit; eauto. intros listed recs r s _. by apply Hcreate.
  - eapply spec_select; eauto.
  - eapply spec_mark_running; eauto.
  - eapply spec_transition; eauto.
  - eapply spec_transition; eauto.
  - eapply spec_transition; eauto.
  - eapply spec_transition; eauto.
  - eapply spec_transition; eauto.
  - eapply spec_get_action; eauto.
  - eapply spec_list_session; eauto.
Qed.

Lemma inbox_run_guarantee ops w recs :
  (forall a, submission_allowed a) -> sees G w recs -> Forall well_typed ops ->
  exists recs', sees G (inbox_run ops w) recs' /\ guarantee G recs recs'.
Proof.
  intros Hcreate Hw Ht. apply (run_keeps G well_typed (fun p w => (inbox_do p.1 p.2 w).2) (fun _ => True)); try done.
  intros [op now] w1 recs1 Hop Hw1 _. eapply spec_run; [by apply spec_inbox_do|done..].
Qed.
End contract.

(** ** Handing an action over *)

(** The inbox has the action, in whatever state. *)
Definition delivered (id : ActionId) (recs : Records) : Prop :=
  exists x, aholds recs x /\ act_id (a_action (item x)) = id.

Lemma delivered_follows id recs recs' : follows actions recs recs' -> delivered id recs -> delivered id recs'.
Proof.
  intros Hf (x & Hx & <-). destruct (follows_steps actions _ _ _ _ Hf Hx) as (y & Hy & Hs).
  destruct (steps_same_action _ _ Hs) as (Ha & _). exists y. split; [|by rewrite Ha].
  unfold holds, action_key in *. by rewrite Ha.
Qed.

Lemma delivered_stable G :
  (forall recs recs', guarantee G recs recs' -> follows actions recs recs') -> forall id, stable G (delivered id).
Proof. intros HG id recs recs' Hd HT. eapply delivered_follows; [by apply HG|done]. Qed.

(** Looking for the action in the inbox. *)
Lemma spec_find_action {A} G id (e : ActionStoreError repo_error -> rstr) (k : option ActionRecord -> stateT (World S) rstr A) Q :
  (forall y, spec G (delivered id) (k (Some y)) Q) -> spec G (fun _ => True) (k None) Q ->
  spec G (fun _ => True) (found ← map_err_m e (ActionStore.get id); k found) Q.
Proof.
  intros Hsome Hnone. eapply spec_bind; [apply spec_map_err, spec_get_action; by intros ???|].
  intros [y|]; cbn beta iota.
  - eapply spec_given; [|apply Hsome]. intros recs [_ (x & Hx & -> & Hact)]. by exists x.
  - by eapply spec_given; [|exact Hnone].
Qed.

(** The sinks of the other services submit an action unless it is there, and look
    again when the inbox refuses it: one that answers without an error has it. *)
Lemma spec_ensure {A} (Hcodec : action_codec) G (e : ActionStoreError repo_error -> rstr) (added present : A) action now :
  (forall recs k r, follows actions recs (<[(PendingActions, k) := r]> recs) ->
     guarantee G recs (<[(PendingActions, k) := r]> recs)) ->
  is_i64 (unix_millis now) -> id_canonical (as_entity_id (act_id action)) ->
  spec G (fun _ => True)
    (found ← map_err_m e (ActionStore.get (act_id action));
     match found with
     | Some _ => mret present
     | None => fun w =>
         match submit config action now w with
         | (Ok _, w) => (Ok added, w)
         | (Err error, w) =>
             (found ← map_err_m e (ActionStore.get (act_id action));
              match found with Some _ => mret present | None => throw (e error) end) w
         end
     end) (fun _ recs => delivered (act_id action) recs).
Proof.
  intros Hinbox Hnow Hid. apply spec_find_action; [by intros y; apply spec_ret|].
  intros recs0 w r w' Hsince Hr.
  apply (spec_catch G (fun _ => True) (submit config action now)
    (fun _ recs => delivered (act_id action) recs)
    (fun res => match res with
       | Ok _ => mret added
       | Err error =>
           found ← map_err_m e (ActionStore.get (act_id action));
           match found with Some _ => mret present | None => throw (e error) end
       end) (fun _ recs => delivered (act_id action) recs)) with (recs0 := recs0) (s := w) (r := r) (s' := w');
    [by intros ???| | | |done|].
  - eapply spec_weaken; [eapply (spec_submit config Hcodec G (fun _ => True)); [by intros ???|done|done|]|done|].
    + intros listed recs q s _ _ Hsub Hnone. apply Hinbox. by eapply submits_follows.
    + intros y recs' (listed & recs & q & s & _ & _ & Hsub & _ & _ & Hs & _). exists s. split; [done|].
      destruct Hsub as (_ & _ & _ & _ & (seq & n & -> & _) & _). done.
  - intros y. apply spec_ret. by intros recs [].
  - intros err. apply spec_find_action; [intros y; by apply spec_ret|apply spec_throw].
  - rewrite <- Hr. by destruct (submit config action now w) as [[y|err] w1].
Qed.

Context (Hcodec : action_codec).

Lemma exclusive_inbox_run ops w recs :
  sees exclusive_inbox w recs -> Forall well_typed ops ->
  exists recs', sees exclusive_inbox (inbox_run ops w) recs' /\ orderly_follows recs recs'.
Proof.
  apply (inbox_run_guarantee Hcodec exclusive_inbox (fun _ _ H => proj1 H) exclusive_move exclusive_running).
  intros a listed rs r s. apply exclusive_submit.
Qed.

(** Whatever operations inboxes over one repository run, with conflicting
    writers and lost acknowledgements: no action disappears or changes, only
    actions that passed validation enter, so none of an evolution source outside
    background and idle scheduling or with an evolution ancestor; the state of an
    action moves along the allowed transitions; and a completed, failed,
    cancelled or expired action is never written again. *)
Theorem inbox_lifecycle ops w recs :
  sees shared_inbox w recs -> Forall well_typed ops -> all_items actions (fun x => accepted (a_action x)) recs ->
  exists recs', sees shared_inbox (inbox_run ops w) recs'
    /\ all_items actions (fun x => accepted (a_action x)) recs'
    /\ forall x, aholds recs x -> exists y, aholds recs' y
      /\ a_action (item y) = a_action (item x) /\ a_enqueue_sequence (item y) = a_enqueue_sequence (item x)
      /\ rtc (fun s t => action_allows s t = true) (a_state (item x)) (a_state (item y))
      /\ (action_is_terminal (a_state (item x)) = true ->
          recs' !! (PendingActions, action_key (item x)) = recs !! (PendingActions, action_key (item x))).
Proof.
  intros Hw Ht Hok.
  destruct (inbox_run_guarantee Hcodec shared_inbox) with ops w recs as (recs' & Hw' & Hf); try done.
  - intros rs x r s Hx Hs _. by eapply succeeds_follows.
  - intros listed rs x r s _ _ Hx Hs _. by eapply succeeds_follows.
  - intros a listed rs r s _. apply submits_follows.
  - exists recs'. split; [done|]. split.
    { eapply follows_all_items; [| |exact Hf|done].
      - intros x (a & seq & now & Ha & ->). done.
      - intros x y Hx (-> & _)%step_same_action. done. }
    intros x Hx. destruct (follows_steps actions _ _ _ _ Hf Hx) as (y & Hy & Hs).
    destruct (steps_same_action _ _ Hs) as (Ha & Hq & _). exists y. split.
    { unfold holds, action_key in *. by rewrite Ha. }
    split; [done|]. split; [done|]. split.
    + by apply steps_states.
    + intros Hterm. eapply (follows_stuck actions); [done|exact Hx|]. intros z. by apply terminal_action_stuck.
Qed.

(** C25: as the only writer of actions, an inbox never lets two actions of one
    session run at the same time, never exceeds the limits of a session's queue
    and of its background queue, and numbers the actions of a session apart. *)
Theorem inbox_orderly ops w recs :
  sees exclusive_inbox w recs -> Forall well_typed ops -> orderly recs ->
  exists recs', sees exclusive_inbox (inbox_run ops w) recs' /\ orderly recs'.
Proof.
  intros Hw Ht Ho. destruct (exclusive_inbox_run ops w recs Hw Ht) as (recs' & Hw' & _ & Hf). exists recs'. auto.
Qed.

(** As the only writer of actions, [select_next] admits an action that is
    ready (queued, due, not overdue and eligible in the context), that no ready
    action of the session precedes by priority and then arrival, and returns
    nothing only when no action is ready. *)
Theorem select_next_first session now context w recs r w' :
  sees exclusive_inbox w recs -> is_i64 (unix_millis now) -> select_next session now context w = (Ok r, w') ->
  match r with
  | Some sel => exists x, aholds recs x /\ is_ready session now context x = true
      /\ selected_record sel = moved_record (item x) AAdmitted (a_revision (selected_record sel)) now None
      /\ eligibility (a_action (item x)) context = Some (selected_kind sel)
      /\ forall y, aholds recs y -> is_ready session now context y = true -> action_order (item x) (item y) <> Gt
  | None => forall x, aholds recs x -> is_ready session now context x = false
  end.
Proof.
  intros Hw Hnow Hr.
  destruct (spec_select Hcodec exclusive_inbox (fun _ _ H => proj1 H) exclusive_move (eq recs) session now context
    Hnow recs w (Ok r) w' (since_now exclusive_inbox (eq recs) w recs Hw eq_refl) Hr)
    as (recs' & _ & _ & listed & Hl & HQ).
  assert (forall x, aholds listed x <-> aholds recs x) as Hsame.
  { intros x. destruct Hl as (? & <- & Hu). symmetry. by apply untouched_aholds. }
  destruct r as [sel|].
  - destruct HQ as (rs & x & s & Hx & Hrd & Hmin & Hk & _ & _ & Hsel & Hs).
    exists x. split; [by apply Hsame|]. split; [done|].
    split; [rewrite Hsel; rewrite Hs at 1; by rewrite Hs|]. split; [done|].
    intros y Hy. apply Hmin. by apply Hsame.
  - intros x Hx. apply HQ. by apply Hsame.
Qed.
End runs.
