(* ===== verification/ActionExample.v ===== *)
(** * A concrete action inbox

    Closed instances of the theorems about the inbox: two actions of a session,
    of which the prompt of the user is admitted before the background work. *)

From Stdlib Require Import ZArith Lia String.
From stdpp Require Import base decidable countable relations gmap sorting option list.
From S2P Require Import Prelude RustStd AgentTypes Json StateStoreCore StateStore ItemStore Serial ServiceExample.
From S2P Require Import ActionStore ActionMachine ActionProperties.

(** ** Codec *)

#[export] Program Instance ActionAncestorKind_enumerated : Enumerated ActionAncestorKind := {|
  variants := [AncestorOrdinary; AncestorEvolution] |}.
Next Obligation. intros []; repeat constructor. Qed.
#[export] Program Instance EvolutionExecution_enumerated : Enumerated EvolutionExecution := {|
  variants := [OrdinarySession; DedicatedChild] |}.
Next Obligation. intros []; repeat constructor. Qed.
#[export] Program Instance EvolutionOperation_enumerated : Enumerated EvolutionOperation := {|
  variants := [EvaluateHypothesis; PrepareShadow; BuildCandidate; RunCanary; ObservePromotion; ReclaimResources] |}.
Next Obligation. intros []; repeat constructor. Qed.
#[export] Program Instance DeliveryPolicy_enumerated : Enumerated DeliveryPolicy := {|
  variants := [Immediate; NextTurnBoundary; WhenIdle] |}.
Next Obligation. intros []; repeat constructor. Qed.
#[export] Program Instance ActionPriority_enumerated : Enumerated ActionPriority := {|
  variants := [Interrupt; PriorityUser; ChildResult; PriorityScheduled; PriorityBackground] |}.
Next Obligation. intros []; repeat constructor. Qed.
#[export] Program Instance ActionState_enumerated : Enumerated ActionState := {|
  variants := [AQueued; AAdmitted; ARunning; AWaiting; ACompleted; AFailed; ACancelled; AExpired] |}.
Next Obligation. intros []; repeat constructor. Qed.

#[export] Instance Serial_action_source : Serial ActionSource.
Proof.
  refine (Serial_via (fun x => match x with
    | FromInteractive id => (0, ser id)
    | FromChannel channel message => (1, ser (channel, message))
    | FromSchedule job attempt => (2, ser (job, attempt))
    | FromChild child message => (3, ser (child, message))
    | FromSteering id => (4, ser id)
    | FromFollowUp => (5, [])
    | FromWaiting id => (6, ser id)
    | FromAwareness id => (7, ser id)
    | FromRefinement id => (8, ser id)
    | FromAutonomousContinuation id => (9, ser id)
    | FromEvolution id ancestry execution => (10, ser (id, ancestry, execution))
    end%Z)
  (fun p => match p.1 with
    | 0 => FromInteractive <$> de_all p.2
    | 1 => '(a, b) ← de_all p.2; Some (FromChannel a b)
    | 2 => '(a, b) ← de_all p.2; Some (FromSchedule a b)
    | 3 => '(a, b) ← de_all p.2; Some (FromChild a b)
    | 4 => FromSteering <$> de_all p.2
    | 5 => Some FromFollowUp
    | 6 => FromWaiting <$> de_all p.2
    | 7 => FromAwareness <$> de_all p.2
    | 8 => FromRefinement <$> de_all p.2
    | 9 => FromAutonomousContinuation <$> de_all p.2
    | 10 => '(a, b, c) ← de_all p.2; Some (FromEvolution a b c)
    | _ => None
    end%Z) _).
  intros []; cbn [fst snd]; rewrite ?de_all_ser; reflexivity.
Defined.

#[export] Instance Serial_payload : Serial ActionPayload.
Proof.
  refine (Serial_via (fun x => match x with
    | PayPrompt text => (0, ser text)
    | PayChannelMessage text attachments => (1, ser (text, attachments))
    | PayScheduled instruction => (2, ser instruction)
    | PayChildMessage text artifacts => (3, ser (text, artifacts))
    | PaySteering text => (4, ser text)
    | PayFollowUp text => (5, ser text)
    | PayResumeWaiting id => (6, ser id)
    | PayContinueGoal id => (7, ser id)
    | PayAwareness id summary => (8, ser (id, summary))
    | PayRefinement id => (9, ser id)
    | PaySystemMaintenance operation => (10, ser operation)
    | PayEvolution operation => (11, ser operation)
    end%Z)
  (fun p => match p.1 with
    | 0 => PayPrompt <$> de_all p.2
    | 1 => '(a, b) ← de_all p.2; Some (PayChannelMessage a b)
    | 2 => PayScheduled <$> de_all p.2
    | 3 => '(a, b) ← de_all p.2; Some (PayChildMessage a b)
    | 4 => PaySteering <$> de_all p.2
    | 5 => PayFollowUp <$> de_all p.2
    | 6 => PayResumeWaiting <$> de_all p.2
    | 7 => PayContinueGoal <$> de_all p.2
    | 8 => '(a, b) ← de_all p.2; Some (PayAwareness a b)
    | 9 => PayRefinement <$> de_all p.2
    | 10 => PaySystemMaintenance <$> de_all p.2
    | 11 => PayEvolution <$> de_all p.2
    | _ => None
    end%Z) _).
  intros []; cbn [fst snd]; rewrite de_all_ser; reflexivity.
Defined.

#[export] Instance Serial_action_route : Serial ReplyRoute.
Proof.
  refine (Serial_via (fun x => match x with
    | RouteClient id => (0, ser id)
    | RouteChannel channel account conversation thread reply => (1, ser (channel, account, conversation, thread, reply))
    | RouteSession id => (2, ser id)
    end%Z)
  (fun p => match p.1 with
    | 0 => RouteClient <$> de_all p.2
    | 1 => '(a, b, c, d, e) ← de_all p.2; Some (RouteChannel a b c d e)
    | 2 => RouteSession <$> de_all p.2
    | _ => None
    end%Z) _).
  intros []; cbn [fst snd]; rewrite de_all_ser; reflexivity.
Defined.

#[export] Program Instance Serial_limits : Serial ActionLimits :=
  Serial_via (fun x => (max_turns x, max_tokens x, max_elapsed_ms x, max_tool_calls x, max_children x))
    (fun t => let '(a, b, c, d, e) := t in Some (MkActionLimits a b c d e)) _.
Next Obligation. by intros []. Qed.
#[export] Program Instance Serial_action : Serial SessionAction :=
  Serial_via (fun x => (act_id x, act_session_id x, act_source x, act_delivery x, act_priority x, act_created_at x,
                        act_not_before x, act_deadline x, act_limits x, act_reply_route x, act_payload x))
    (fun t => let '(a, b, c, d, e, f, g, h, i, j, k) := t in Some (MkAction a b c d e f g h i j k)) _.
Next Obligation. by intros []. Qed.
#[export] Program Instance Serial_action_record : Serial ActionRecord :=
  Serial_via (fun x => (a_version x, a_action x, a_state x, a_enqueue_sequence x, a_revision x, a_updated_at x,
                        a_terminal_detail x))
    (fun t => let '(a, b, c, d, e, f, g) := t in Some (MkActionRecord a b c d e f g)) _.
Next Obligation. by intros []. Qed.

Definition versioned (x : ActionRecord) : bool := (0 <=? sv_minor (a_version x))%Z.

#[export] Instance action_document : Document ActionRecord := serial_document versioned.

Lemma action_document_codec : action_codec.
Proof.
  split; [apply serial_document_lawful|]. intros v x Hx%serial_document_valid. unfold versioned in Hx. lia.
Qed.

(** ** A run *)

Definition sample_session : SessionId := MkTypedId (named_id 2).
Definition background_work : SessionAction :=
  MkAction (MkTypedId (named_id 10)) sample_session FromFollowUp Immediate PriorityBackground (moment 0) None None
    default_action_limits None (PayFollowUp (str "tidy up")).
Definition user_prompt : SessionAction :=
  MkAction (MkTypedId (named_id 11)) sample_session (FromInteractive (MkTypedId (named_id 3))) Immediate PriorityUser
    (moment 0) None None default_action_limits None (PayPrompt (str "hello")).
Definition idle : PumpContext := MkPumpContext None true true.

Definition submit_both : list (inbox_op * UtcTimestamp) :=
  [(ISubmit background_work, moment 1); (ISubmit user_prompt, moment 2)].
Definition run_prompt : list (inbox_op * UtcTimestamp) :=
  [(ISelect sample_session idle, moment 3); (IMarkRunning (act_id user_prompt), moment 4);
   (IMarkRunning (act_id background_work), moment 5); (IComplete (act_id user_prompt), moment 6)].

Lemma sample_typed : Forall well_typed (submit_both ++ run_prompt).
Proof.
  repeat (apply Forall_cons; split; [split; [apply moment_i64; simpl; lia|simpl]|]); try apply Forall_nil; try done;
    apply named_id_canonical; lia.
Qed.

Definition submitted : SampleWorld := inbox_run default_inbox_config submit_both fresh_world.
Definition selection := select_next sample_session (moment 3) idle submitted.

Lemma fresh_orderly : orderly default_inbox_config ∅.
Proof.
  split; [|split].
  - intros x y Hx. by destruct (empty_holds _ _ _ _ _ x Hx).
  - intros x y Hx. by destruct (empty_holds _ _ _ _ _ x Hx).
  - intros session. rewrite !empty_item_keys. simpl. lia.
Qed.

(** ** Instances *)

Definition states_in (w : SampleWorld) : list (rstr * ActionState) :=
  match (list_session sample_session w).1 with
  | Ok xs => (fun x => (default [] (payload_text (act_payload (a_action x))), a_state x)) <$> xs
  | Err _ => []
  end.

Lemma inbox_lifecycle_witness :
  states_in (inbox_run default_inbox_config (submit_both ++ run_prompt) fresh_world)
    = [(str "hello", ACompleted); (str "tidy up", AQueued)]
  /\ exists recs', sees shared_inbox (inbox_run default_inbox_config (submit_both ++ run_prompt) fresh_world) recs'
    /\ all_items actions (fun x => accepted (a_action x)) recs'.
Proof.
  split; [vm_compute; reflexivity|].
  destruct (inbox_lifecycle default_inbox_config action_document_codec (submit_both ++ run_prompt) fresh_world ∅
    (fresh_sees _) sample_typed (empty_all_items _ _)) as (recs' & Hs & Hok & _).
  exists recs'. exact (conj Hs Hok).
Defined.

Lemma inbox_orderly_witness :
  exists recs', sees (exclusive_inbox default_inbox_config)
      (inbox_run default_inbox_config (submit_both ++ run_prompt) fresh_world) recs'
    /\ orderly default_inbox_config recs'.
Proof.
  exact (inbox_orderly default_inbox_config action_document_codec (submit_both ++ run_prompt) fresh_world ∅
    (fresh_sees _) sample_typed fresh_orderly).
Defined.

(** The prompt of the user is selected before the background work. *)
Lemma select_next_first_witness :
  exists recs sel x, sees (exclusive_inbox default_inbox_config) submitted recs /\ selection.1 = Ok (Some sel)
    /\ act_id (a_action (selected_record sel)) = act_id user_prompt
    /\ holds PendingActions decode action_key action_init action_step recs x
    /\ is_ready sample_session (moment 3) idle x = true.
Proof.
  destruct (exclusive_inbox_run default_inbox_config action_document_codec submit_both fresh_world ∅ (fresh_sees _))
    as (recs & Hs & _); [exact (proj1 (proj1 (Forall_app _ _ _) sample_typed))|].
  destruct (ok_pair selection) as [r Hr]; [vm_compute; reflexivity|].
  pose proof (select_next_first default_inbox_config action_document_codec sample_session (moment 3) idle submitted recs r
    selection.2 Hs ltac:(apply moment_i64; lia) Hr) as H.
  assert (option_map (fun sel => act_id (a_action (selected_record sel))) (default None (result_ok selection.1))
    = Some (act_id user_prompt)) as Hid by (vm_compute; reflexivity).
  rewrite Hr in Hid |- *. cbn [fst result_ok default] in Hid |- *.
  destruct r as [sel|]; [|discriminate Hid]. injection Hid as Hid.
  destruct H as (x & Hx & Hd & _). exists recs, sel, x. split; [exact Hs|]. split; [reflexivity|].
  split; [exact Hid|]. exact (conj Hx Hd).
Defined.
