(* ===== verification/Waiting.v ===== *)
(** * Waits and wakes: [crates/waiting/src/lib.rs]

    A session waits for a trigger as a durable item; a matching event fires it and
    queues a resume action in an action inbox, once, however often the process
    stops in between.  The sink is an interface with the inbox of [ActionStore] as
    its instance.  The repository is the interface of [StateStoreCore]; the
    derived codec of an item, the identifiers [EntityId::new] draws, the texts of
    the inbox's errors and the Unicode table behind [str::to_lowercase] are
    parameters. *)

From Stdlib Require Import ZArith Lia String.
From stdpp Require Import base decidable countable relations gmap sorting option list.
From S2P Require Import Prelude RustStd AgentTypes Json StateStoreCore ItemStore ActionStore.

(** ** Data *)

Inductive WakeTrigger :=
| TriggerAt (at_ : UtcTimestamp)
| TriggerSchedule (job_id : JobId)
| TriggerChildTerminal (child_id : ChildId)
| TriggerProcessExit (process_id : EntityId)
| TriggerFileChanged (workspace_id : WorkspaceId) (pattern : rstr)
| TriggerRepositoryChanged (workspace_id : WorkspaceId) (reference : rstr)
| TriggerChannelMessage (route_id : EntityId) (filter : option rstr)
| TriggerExternalCondition (connector : rstr) (query : Value)
| TriggerUserResponse (session_id : SessionId).

Inductive WakeEventKind :=
| EventTime
| EventSchedule (job_id : JobId)
| EventChildTerminal (child_id : ChildId)
| EventProcessExit (process_id : EntityId)
| EventFileChanged (workspace_id : WorkspaceId) (path : rstr)
| EventRepositoryChanged (workspace_id : WorkspaceId) (reference : rstr)
| EventChannelMessage (route_id : EntityId) (text : rstr)
| EventExternalCondition (connector : rstr) (query : Value)
| EventUserResponse (session_id : SessionId).

Record WakeEvent := MkWakeEvent {
  event_id : EntityId;
  event_occurred_at : UtcTimestamp;
  event_kind : WakeEventKind
}.

Inductive WaitingState := Armed | Fired | Resumed | WCancelled | WExpired.

#[export] Instance WaitingState_eq_dec : EqDecision WaitingState.
Proof. solve_decision. Defined.

Record WaitingItem := MkWaiting {
  w_version : SchemaVersion;
  w_id : EntityId;
  w_profile_id : ProfileId;
  w_session_id : SessionId;
  w_trigger : WakeTrigger;
  w_wake_id : EntityId;
  w_action_id : ActionId;
  w_reply_route : option ReplyRoute;
  w_state : WaitingState;
  w_expires_at : option UtcTimestamp;
  w_fired_by : option EntityId;
  w_created_at : UtcTimestamp;
  w_updated_at : UtcTimestamp;
  w_safe_error : option rstr
}.

Record NewWaitingItem := MkNewWaiting {
  new_profile_id : ProfileId;
  new_session_id : SessionId;
  new_trigger : WakeTrigger;
  new_reply_route : option ReplyRoute;
  new_expires_at : option UtcTimestamp
}.

Record ReleaseDirective := MkRelease {
  release_model_turn : bool;
  kernel_evictable : bool;
  worker_evictable : bool
}.

Definition RELEASE_WAITING : ReleaseDirective := MkRelease true true true.

Inductive WakeEnqueueStatus := Accepted | AlreadyPresent.

Inductive WaitingError (E : Type) :=
| WeRepository (error : E)
| WeCorrupt (reason : ItemCorrupt)
| WeInvalidTrigger
| WeNotFound
| WeInvalidTransition
| WeLockPoisoned
| WeRevisionOverflow.
Global Arguments WeRepository {E}.
Global Arguments WeCorrupt {E}.
Global Arguments WeInvalidTrigger {E}.
Global Arguments WeNotFound {E}.
Global Arguments WeInvalidTransition {E}.
Global Arguments WeLockPoisoned {E}.
Global Arguments WeRevisionOverflow {E}.

(** ** Triggers *)

(** ['*']. *)
Definition STAR : Z := 42.

Definition is_null (v : Value) : bool := match v with Null => true | _ => false end.

Definition validate_trigger {E} (trigger : WakeTrigger) : result (WaitingError E) unit :=
  let valid :=
    match trigger with
    | TriggerAt _ | TriggerSchedule _ | TriggerChildTerminal _ | TriggerProcessExit _ | TriggerUserResponse _ => true
    | TriggerFileChanged _ pattern => negb (str_blank pattern) && negb (str_contains_str (str "..") pattern)
    | TriggerRepositoryChanged _ reference => negb (str_blank reference)
    | TriggerChannelMessage _ filter => match filter with Some filter => negb (str_blank filter) | None => true end
    | TriggerExternalCondition connector query => negb (str_blank connector) && negb (is_null query)
    end in
  if valid : bool then Ok tt else Err WeInvalidTrigger.

(** The loop of [wildcard_match]: [None] is its early [return false]. *)
Fixpoint match_parts (pattern value : rstr) (index : nat) (offset : Z) (parts : list rstr) : option Z :=
  match parts with
  | [] => Some offset
  | part :: parts =>
      if str_is_empty part then match_parts pattern value (S index) offset parts
      else
        match str_find part (str_slice_from value offset) with
        | None => None
        | Some found =>
            if ((index =? 0)%nat && negb (starts_with [STAR] pattern) && negb (found =? 0)%Z)%bool then None
            else match_parts pattern value (S index) (offset + (found + str_len part))%Z parts
        end
  end.

Definition wildcard_match (pattern value : rstr) : bool :=
  let parts := str_split STAR pattern in
  if (length parts =? 1)%nat then bool_decide (pattern = value)
  else
    match match_parts pattern value 0 0 parts with
    | None => false
    | Some _ =>
        ends_with [STAR] pattern
        || match last parts with Some part => ends_with part value | None => false end
    end.

Section triggers.
Context (to_lowercase : rstr -> rstr).

Definition trigger_matches (trigger : WakeTrigger) (event : WakeEvent) : bool :=
  match trigger, event_kind event with
  | TriggerAt at_, EventTime => rleb at_ (event_occurred_at event)
  | TriggerSchedule job_id, EventSchedule actual => bool_decide (job_id = actual)
  | TriggerChildTerminal child_id, EventChildTerminal actual => bool_decide (child_id = actual)
  | TriggerProcessExit process_id, EventProcessExit actual => bool_decide (process_id = actual)
  | TriggerFileChanged workspace_id pattern, EventFileChanged actual path =>
      bool_decide (workspace_id = actual) && wildcard_match pattern path
  | TriggerRepositoryChanged workspace_id reference, EventRepositoryChanged actual actual_reference =>
      bool_decide (workspace_id = actual) && bool_decide (reference = actual_reference)
  | TriggerChannelMessage route_id filter, EventChannelMessage actual text =>
      bool_decide (route_id = actual)
      && match filter with
         | Some filter => str_contains_str (to_lowercase filter) (to_lowercase text)
         | None => true
         end
  | TriggerExternalCondition connector query, EventExternalCondition actual actual_query =>
      bool_decide (connector = actual) && value_eqb query actual_query
  | TriggerUserResponse session_id, EventUserResponse actual => bool_decide (session_id = actual)
  | _, _ => false
  end.
End triggers.

(** ** The sink *)

(** [WakeActionSink]. *)
Class WakeActionSink (S : Type) : Type := {
  enqueue_wake : SessionAction -> UtcTimestamp -> stateT (World S) rstr WakeEnqueueStatus
}.

Section inbox_sink.
Context {S : Type} `{HR : Repository S, HA : Document ActionRecord}.
Context (inbox : ActionInboxConfig) (error_to_string : ActionStoreError repo_error -> rstr).

Definition inbox_enqueue_wake (action : SessionAction) (now : UtcTimestamp)
  : stateT (World S) rstr WakeEnqueueStatus :=
  found ← map_err_m error_to_string (ActionStore.get (act_id action));
  match found with
  | Some _ => mret AlreadyPresent
  | None =>
      fun w =>
        match submit inbox action now w with
        | (Ok _, w) => (Ok Accepted, w)
        | (Err error, w) =>
            (found ← map_err_m error_to_string (ActionStore.get (act_id action));
             match found with
             | Some _ => mret AlreadyPresent
             | None => throw (error_to_string error)
             end) w
        end
  end.

#[export] Instance inbox_sink : WakeActionSink S := {| enqueue_wake := inbox_enqueue_wake |}.
End inbox_sink.

(** ** The service *)

Definition safe_error (error : rstr) : rstr := take 512 error.

Global Arguments safe_error : simpl never.

(** The fields of an item that its life changes. *)
Definition with_waiting_state (x : WaitingItem) (state : WaitingState) (fired_by : option EntityId)
    (updated_at : UtcTimestamp) (error : option rstr) : WaitingItem :=
  MkWaiting (w_version x) (w_id x) (w_profile_id x) (w_session_id x) (w_trigger x) (w_wake_id x) (w_action_id x)
    (w_reply_route x) state (w_expires_at x) fired_by (w_created_at x) updated_at error.

Section service.
Context {S : Type} `{HR : Repository S, HD : Document WaitingItem, HW : WakeActionSink S}.
Context (new_id : nat -> EntityId) (to_lowercase : rstr -> rstr).

Abbreviation Error := (WaitingError repo_error).
Abbreviation waiting_m := (stateT (World S) Error).
Abbreviation StoredWaiting := (Stored WaitingItem).

Definition wait_record (x : WaitingItem) (revision : Revision) : result Error VersionedRecord :=
  payload ← map_err (fun e => WeCorrupt (CorruptDocument e)) (to_value x);
  Ok (MkVersionedRecord CURRENT_SCHEMA_VERSION (w_id x) revision (w_updated_at x) payload).

Definition decode_wait (r : VersionedRecord) : result Error StoredWaiting :=
  x ← map_err (fun e => WeCorrupt (CorruptDocument e)) (from_value (rec_payload r));
  reject_if (negb (bool_decide (w_id x = rec_id r))
             || negb (sv_major (w_version x) =? sv_major CURRENT_SCHEMA_VERSION)%Z)%bool
    (WeCorrupt CorruptEnvelope) ;;
  Ok (MkStored x (rec_revision r)).

Definition lock : waiting_m unit := lock_serial WaitingConditions WeLockPoisoned.

Definition required (id : EntityId) : waiting_m StoredWaiting :=
  found ← load_item WaitingConditions WeRepository decode_wait id;
  lift (ok_or found WeNotFound).

Definition load_all : waiting_m (list StoredWaiting) := load_items WaitingConditions WeRepository decode_wait.

Definition put (stored : StoredWaiting) : waiting_m StoredWaiting :=
  revision ← lift (ok_or (checked_next (storage_revision stored)) WeRevisionOverflow);
  r ← lift (wait_record (item stored) revision);
  map_err_m WeRepository (call_put WaitingConditions r (PreExact (storage_revision stored))) ;;
  mret (MkStored (item stored) revision).

Definition register (request : NewWaitingItem) (now : UtcTimestamp) : waiting_m (WaitingItem * ReleaseDirective) :=
  lift (validate_trigger (new_trigger request)) ;;
  lift (reject_if (match new_expires_at request with Some expiry => rleb expiry now | None => false end)
          WeInvalidTrigger) ;;
  id ← draw_id new_id;
  wake_id ← draw_id new_id;
  action_id ← draw_id new_id;
  let x := MkWaiting CURRENT_SCHEMA_VERSION id (new_profile_id request) (new_session_id request)
             (new_trigger request) wake_id (MkTypedId action_id) (new_reply_route request) Armed
             (new_expires_at request) None now now None in
  r ← lift (wait_record x Revision_ZERO);
  map_err_m WeRepository (call_put WaitingConditions r PreMissing) ;;
  mret (x, RELEASE_WAITING).

Definition resume_action (x : WaitingItem) (now : UtcTimestamp) : SessionAction :=
  MkAction (w_action_id x) (w_session_id x) (FromWaiting (w_wake_id x)) Immediate PriorityScheduled now None None
    default_action_limits (w_reply_route x) (PayResumeWaiting (w_id x)).

Definition enqueue_fired (stored : StoredWaiting) (now : UtcTimestamp) : waiting_m WaitingItem :=
  fun w =>
    let x := item stored in
    let '(status, w) := enqueue_wake (resume_action x now) now w in
    let x := match status with
             | Ok (Accepted | AlreadyPresent) => with_waiting_state x Resumed (w_fired_by x) now None
             | Err error => with_waiting_state x (w_state x) (w_fired_by x) now (Some (safe_error error))
             end in
    (stored ← put (MkStored x (storage_revision stored));
     mret (item stored)) w.

Definition is_due_expiry (now : UtcTimestamp) (x : StoredWaiting) : bool :=
  bool_decide (w_state (item x) = Armed)
  && match w_expires_at (item x) with Some expiry => rleb expiry now | None => false end.

Definition expire_due_locked (now : UtcTimestamp) : waiting_m (list WaitingItem) :=
  records ← load_all;
  map_m (fun stored =>
           let x := item stored in
           stored ← put (MkStored (with_waiting_state x WExpired (w_fired_by x) now (w_safe_error x))
                           (storage_revision stored));
           mret (item stored))
        (List.filter (is_due_expiry now) records).

Definition is_woken (event : WakeEvent) (x : StoredWaiting) : bool :=
  bool_decide (w_state (item x) = Armed) && trigger_matches to_lowercase (w_trigger (item x)) event.

(** The loop of [signal]: a wait that cannot be marked is left for later. *)
Fixpoint fire_all (event : WakeEvent) (records : list StoredWaiting) : waiting_m (list WaitingItem) :=
  match records with
  | [] => mret []
  | stored :: records =>
      fun w =>
        let x := item stored in
        match put (MkStored (with_waiting_state x Fired (Some (event_id event)) (event_occurred_at event)
                               (w_safe_error x)) (storage_revision stored)) w with
        | (Err _, w) => fire_all event records w
        | (Ok stored, w) =>
            (y ← enqueue_fired stored (event_occurred_at event);
             ys ← fire_all event records;
             mret (y :: ys)) w
        end
  end.

Definition signal (event : WakeEvent) : waiting_m (list WaitingItem) :=
  lock ;;
  expire_due_locked (event_occurred_at event) ;;
  waiting ← load_all;
  fire_all event (List.filter (is_woken event) waiting).

Definition recover (now : UtcTimestamp) : waiting_m (list WaitingItem) :=
  lock ;;
  expire_due_locked now ;;
  records ← load_all;
  map_m (fun stored => enqueue_fired stored now)
        (List.filter (fun x => bool_decide (w_state (item x) = Fired)) records).

Definition transition_allowed (from next : WaitingState) : bool :=
  match from, next with (Armed | Fired), WCancelled => true | _, _ => false end.

Definition transition (id : EntityId) (next : WaitingState) (now : UtcTimestamp) : waiting_m WaitingItem :=
  lock ;;
  stored ← required id;
  let x := item stored in
  lift (reject_if (negb (transition_allowed (w_state x) next)) WeInvalidTransition) ;;
  stored ← put (MkStored (with_waiting_state x next (w_fired_by x) now (w_safe_error x)) (storage_revision stored));
  mret (item stored).

Definition cancel (id : EntityId) (now : UtcTimestamp) : waiting_m WaitingItem := transition id WCancelled now.

Definition expire_due (now : UtcTimestamp) : waiting_m (list WaitingItem) :=
  lock ;;
  expire_due_locked now.

Definition list_session (session : SessionId) : waiting_m (list WaitingItem) :=
  records ← load_all;
  mret (sort_by (fun x y => rcmp (w_created_at x) (w_created_at y))
          (item <$> List.filter (fun x => bool_decide (w_session_id (item x) = session)) records)).
End service.
