(* ===== verification/Wildcard.v ===== *)
(** * Wildcard patterns

    [wildcard_match] of [crates/waiting/src/lib.rs] looks for the parts of a
    pattern greedily, from left to right, by byte offsets.  It decides the usual
    meaning of a pattern, in which a star stands for any text. *)

From Stdlib Require Import ZArith Lia String.
From stdpp Require Import base decidable option list.
From S2P Require Import Prelude RustStd Waiting.

(** The meaning of a pattern. *)
Inductive glob : rstr -> rstr -> Prop :=
| glob_nil : glob [] []
| glob_char c p s : c <> STAR -> glob p s -> glob (c :: p) (c :: s)
| glob_star p t s : glob p s -> glob (STAR :: p) (t ++ s).

(** ** Searching *)

Lemma starts_with_iff p s : starts_with p s = true <-> exists t, s = p ++ t.
Proof.
  revert s. induction p as [|x p IH]; intros [|y s]; simpl.
  - split; [by exists []|done].
  - split; [by exists (y :: s)|done].
  - split; [done|by intros [t [=]]].
  - rewrite andb_true_iff, Z.eqb_eq, IH. split.
    + intros [-> [t ->]]. by exists t.
    + intros [t [= -> ->]]. eauto.
Qed.

Lemma ends_with_iff p s : ends_with p s = true <-> exists t, s = t ++ p.
Proof.
  unfold ends_with. rewrite starts_with_iff. split; intros [t Ht]; exists (reverse t).
  - by rewrite <- (reverse_involutive s), Ht, reverse_app, reverse_involutive.
  - by rewrite Ht, reverse_app.
Qed.

Lemma str_find_Some p s i :
  str_find p s = Some i ->
  exists u v, s = u ++ p ++ v /\ str_len u = i
    /\ forall u' v', s = u' ++ p ++ v' -> exists w, v = w ++ v'.
Proof.
  revert i. induction s as [|c s IH]; intros i; cbn [str_find].
  - destruct (starts_with p []) eqn:Ep; [|done]. intros [= <-].
    apply starts_with_iff in Ep as [t Ht]. symmetry in Ht. apply app_eq_nil in Ht as [-> ->].
    exists [], []. split; [done|]. split; [done|]. intros u' v' Hu.
    symmetry in Hu. apply app_eq_nil in Hu as [-> Hu]. simpl in Hu. subst v'. by exists [].
  - destruct (starts_with p (c :: s)) eqn:Ep.
    + intros [= <-]. apply starts_with_iff in Ep as [t Ht]. exists [], t. split; [done|]. split; [done|].
      intros u' v' Hu. rewrite Hu in Ht.
      exists (take (length t - length v') t).
      assert (length v' <= length t) as Hle.
      { apply (f_equal length) in Ht. rewrite !length_app in Ht. lia. }
      rewrite <- (take_drop (length t - length v') t) at 1. f_equal.
      assert (drop (length p + (length t - length v')) (u' ++ p ++ v') = v') as Hd.
      { assert (length u' = length t - length v') as <-.
        { apply (f_equal length) in Ht. rewrite !length_app in Ht. lia. }
        rewrite (Nat.add_comm (length p)), <- drop_drop, drop_app_length, drop_app_length. done. }
      rewrite Ht, <- drop_drop, drop_app_length in Hd. done.
    + destruct (str_find p s) as [j|] eqn:Ef; [|done]. intros [= <-].
      destruct (IH j eq_refl) as (u & v & -> & <- & Hmin). exists (c :: u), v. split; [done|]. split; [done|].
      intros [|c' u'] v' Hu.
      * exfalso. assert (starts_with p (c :: u ++ p ++ v) = true); [|congruence].
        apply starts_with_iff. by exists v'.
      * injection Hu as <- Hu. by apply (Hmin u').
Qed.

Lemma str_find_None p s u v : str_find p s = None -> s <> u ++ p ++ v.
Proof.
  revert u. induction s as [|c s IH]; intros u; cbn [str_find];
    (destruct (starts_with p _) eqn:Ep; [done|]).
  - intros _ Hu. symmetry in Hu. apply app_eq_nil in Hu as [_ Hu]. apply app_eq_nil in Hu as [-> _]. done.
  - destruct (str_find p s); [done|]. intros _ Hu. destruct u as [|c' u].
    + assert (starts_with p (c :: s) = true); [|congruence]. apply starts_with_iff. by exists v.
    + injection Hu as _ Hu. by apply (IH u eq_refl).
Qed.

Lemma str_slice_from_app u v : str_slice_from (u ++ v) (str_len u) = v.
Proof.
  induction u as [|c u IH]; simpl.
  - by destruct v.
  - pose proof (char_len_utf8_pos c). pose proof (str_len_nonneg u).
    destruct (Z.leb_spec (char_len_utf8 c + str_len u) 0); [lia|].
    replace (char_len_utf8 c + str_len u - char_len_utf8 c)%Z with (str_len u) by lia. done.
Qed.

(** ** The parts of a pattern *)

(** The parts after a star, the last of them at the end. *)
Fixpoint anchored (ps : list rstr) (t : rstr) : Prop :=
  match ps with
  | [] => t = []
  | p :: ps => exists u v, t = u ++ p ++ v /\ anchored ps v
  end.

(** The parts in order, anywhere. *)
Fixpoint floating (ps : list rstr) (t : rstr) : Prop :=
  match ps with
  | [] => True
  | p :: ps => exists u v, t = u ++ p ++ v /\ floating ps v
  end.

Lemma str_split_cons c s : exists p ps, str_split c s = p :: ps.
Proof.
  induction s as [|d s (p & ps & IH)]; simpl; [by exists [], []|]. rewrite IH. destruct (d =? c)%Z; eauto.
Qed.

Lemma glob_parts pattern value p ps :
  str_split STAR pattern = p :: ps ->
  glob pattern value <-> exists v, value = p ++ v /\ anchored ps v.
Proof.
  revert value p ps. induction pattern as [|c pat IH]; intros value p ps; cbn [str_split].
  { intros [= <- <-]. split; [inversion 1; subst; by exists []|]. intros (v & -> & ->). constructor. }
  destruct (str_split_cons STAR pat) as (q & qs & Eq). specialize (IH) with (1 := Eq). rewrite Eq.
  destruct (Z.eqb_spec c STAR) as [->|Hc]; intros [= <- <-]; split.
  - inversion 1 as [|? ? ? Hne|? t s Hg]; subst; [done|]. exists (t ++ s). split; [done|].
    apply IH in Hg as (v & -> & Hv). by exists t, v.
  - intros (v & -> & u & w & -> & Hw). simpl. constructor. apply IH. eauto.
  - inversion 1 as [|? ? s ? Hg|]; subst; [|done]. apply IH in Hg as (v & -> & Hv). by exists v.
  - intros (v & -> & Hv). simpl. constructor; [done|]. apply IH. eauto.
Qed.

Lemma floating_app ps u v : floating ps v -> floating ps (u ++ v).
Proof.
  destruct ps as [|p ps]; [done|]. intros (u' & v' & -> & Hv). exists (u ++ u'), v'. by rewrite <- !app_assoc.
Qed.

Lemma floating_length ps t p : floating ps t -> last ps = Some p -> length p <= length t.
Proof.
  revert t. induction ps as [|q ps IH]; intros t; [done|]. intros (u & v & -> & Hv) Hl. rewrite !length_app.
  destruct ps as [|q' ps]; [injection Hl as ->; lia|]. specialize (IH v Hv Hl). lia.
Qed.

Lemma suffix_of_app (u v t p : rstr) : u ++ v = t ++ p -> length p <= length v -> exists w, v = w ++ p.
Proof.
  intros Heq Hle. exists (drop (length u) t).
  assert (length u <= length t) as Hut by (apply (f_equal length) in Heq; rewrite !length_app in Heq; lia).
  apply (f_equal (drop (length u))) in Heq. rewrite drop_app_length in Heq. rewrite Heq.
  by rewrite drop_app_le.
Qed.

(** Anchoring is to end with the last part. *)
Lemma anchored_iff ps t p :
  last ps = Some p -> anchored ps t <-> floating ps t /\ exists u, t = u ++ p.
Proof.
  revert t. induction ps as [|q ps IH]; intros t Hl; [done|]. destruct ps as [|q' ps].
  - injection Hl as ->. simpl. split.
    + intros (u & v & -> & ->). split; [by exists u, []|]. exists u. by rewrite app_nil_r.
    + intros [_ [u ->]]. exists u, []. by rewrite app_nil_r.
  - change (last (q' :: ps) = Some p) in Hl. pose proof (fun t => IH t Hl) as IHt. split.
    + intros (u & v & -> & [Hf [w ->]]%IHt). split; [by exists u, (w ++ p)|]. exists (u ++ q ++ w).
      by rewrite <- !app_assoc.
    + intros [(u & v & -> & Hf) [w Hw]]. exists u, v. split; [done|]. apply IHt. split; [done|].
      rewrite app_assoc in Hw. eapply suffix_of_app; [exact Hw|]. by eapply floating_length.
Qed.

(** ** The loop *)

Lemma match_parts_rest pattern pre rest i ps :
  is_Some (match_parts pattern (pre ++ rest) (S i) (str_len pre) ps) <-> floating ps rest.
Proof.
  revert pre rest i. induction ps as [|p ps IH]; intros pre rest i; simpl; [by split; eauto|].
  destruct (str_is_empty p) eqn:Ep.
  - destruct p; [|done]. rewrite IH. split; [by exists [], rest|]. intros (u & v & -> & Hv). by apply floating_app.
  - rewrite str_slice_from_app. destruct (str_find p rest) as [found|] eqn:Ef.
    + destruct (str_find_Some _ _ _ Ef) as (u & v & -> & <- & Hmin).
      replace (str_len pre + (str_len u + str_len p))%Z with (str_len (pre ++ u ++ p)) by (rewrite !str_len_app; lia).
      replace (pre ++ u ++ p ++ v) with ((pre ++ u ++ p) ++ v) by (by rewrite <- !app_assoc).
      rewrite IH. split; [by exists u, v|]. intros (u' & v' & Hu & Hv).
      destruct (Hmin u' v' Hu) as [w ->]. by apply floating_app.
    + split; [by intros []|]. intros (u & v & Hu & _). by destruct (str_find_None _ _ u v Ef).
Qed.

Lemma split_star_head pattern p ps :
  str_split STAR pattern = p :: ps -> p <> [] -> starts_with [STAR] pattern = false.
Proof.
  destruct pattern as [|c pat]; cbn [str_split]; [by intros [= <- <-]|].
  destruct (str_split_cons STAR pat) as (q & qs & ->). destruct (Z.eqb_spec c STAR); intros [= <- <-] Hne; [done|].
  cbn [starts_with]. by destruct (Z.eqb_spec STAR c).
Qed.

Lemma split_star_last pattern p ps :
  str_split STAR pattern = p :: ps -> ends_with [STAR] pattern = true -> last (p :: ps) = Some [].
Proof.
  intros Hs [t ->]%ends_with_iff. revert p ps Hs. induction t as [|c t IH]; intros p ps; simpl.
  { by intros [= <- <-]. }
  destruct (str_split_cons STAR (t ++ [STAR])) as (q & qs & Eq). rewrite Eq. specialize (IH _ _ Eq).
  destruct qs as [|q' qs].
  - exfalso. clear -Eq. revert q Eq. induction t as [|c t IH]; intros q; simpl; [done|].
    destruct (str_split_cons STAR (t ++ [STAR])) as (p & ps & Eq). rewrite Eq.
    destruct (c =? STAR)%Z; intros [= <- ->]. by eapply IH.
  - destruct (c =? STAR)%Z; by intros [= <- <-].
Qed.

(** The first part is at the front, the others follow in order. *)
Lemma match_parts_first pattern value p ps :
  str_split STAR pattern = p :: ps ->
  is_Some (match_parts pattern value 0 0 (p :: ps)) <-> exists v, value = p ++ v /\ floating ps v.
Proof.
  intros Hs. cbn [match_parts]. destruct (str_is_empty p) eqn:Ep.
  - destruct p; [|done]. change 0%Z with (str_len []). change value with ([] ++ value) at 1.
    rewrite match_parts_rest. split; [by exists value|by intros (v & -> & Hv)].
  - assert (p <> []) as Hne by by destruct p. rewrite (split_star_head _ _ _ Hs Hne).
    change (str_slice_from value 0) with (str_slice_from ([] ++ value) (str_len [])). rewrite str_slice_from_app.
    destruct (str_find p value) as [found|] eqn:Ef.
    + destruct (str_find_Some _ _ _ Ef) as (u & v & -> & <- & Hmin). simpl.
      destruct (Z.eqb_spec (str_len u) 0) as [Hz|Hz]; simpl.
      * apply str_len_zero in Hz as ->. simpl. rewrite match_parts_rest.
        split; [by exists v|]. by intros (w & Hw%app_inv_head & Hf); subst w.
      * split; [by intros []|]. intros (w & Hw & _). destruct (Hmin [] w Hw) as [x Hx]. exfalso. apply Hz.
        apply (f_equal length) in Hw. rewrite Hx, !length_app in Hw. assert (u = []) as -> by (destruct u; simpl in *; [done|lia]).
        done.
    + split; [by intros []|]. intros (v & Hv & _). by destruct (str_find_None _ _ [] v Ef).
Qed.

(** C32: a file pattern matches a path exactly when the path is the pattern with
    each star replaced by some text: the greedy search by byte offsets neither
    misses a match nor accepts more. *)
Theorem wildcard_match_glob pattern value : wildcard_match pattern value = true <-> glob pattern value.
Proof.
  destruct (str_split_cons STAR pattern) as (p & ps & Hs). rewrite (glob_parts _ _ _ _ Hs).
  unfold wildcard_match. rewrite Hs. destruct ps as [|q qs]; cbn [length Nat.eqb].
  - rewrite bool_decide_eq_true. assert (pattern = p) as ->.
    { clear -Hs. revert p Hs. induction pattern as [|c pat IH]; intros p; simpl; [by intros [= <-]|].
      destruct (str_split_cons STAR pat) as (q & qs & Eq). rewrite Eq. destruct (c =? STAR)%Z; [done|].
      intros [= <- ->]. f_equal. by apply IH. }
    split; [intros ->; exists []; by rewrite app_nil_r|]. intros (v & -> & ->). by rewrite app_nil_r.
  - assert (exists l, last (q :: qs) = Some l) as [l Hl].
    { destruct (last (q :: qs)) eqn:El; [by eauto|]. by apply last_None in El. }
    change (last (p :: q :: qs)) with (last (q :: qs)). rewrite Hl.
    pose proof (match_parts_first pattern value p (q :: qs) Hs) as Hfirst.
    assert ((ends_with [STAR] pattern || ends_with l value)%bool = true <-> exists t, value = t ++ l) as Hend.
    { rewrite orb_true_iff, (ends_with_iff l). split; [|by right]. intros [He|?]; [|done].
      apply (split_star_last _ _ _ Hs) in He. change (last (q :: qs) = Some []) in He.
      assert (l = []) as -> by congruence. exists value. by rewrite app_nil_r. }
    setoid_rewrite (anchored_iff _ _ _ Hl). destruct (match_parts _ _ _ _ _) as [off|].
    + rewrite Hend. destruct (proj1 Hfirst) as (v & -> & Hf); [by eauto|]. split.
      * intros [t Ht]. exists v. split; [done|]. split; [done|]. eapply suffix_of_app; [exact Ht|]. by eapply floating_length.
      * intros (w & Hw%app_inv_head & _ & u & Hu). subst w. exists (p ++ u). by rewrite <- app_assoc, <- Hu.
    + split; [done|]. intros (v & -> & Hf & _). by destruct (proj2 Hfirst) as [? ?]; [eauto|].
Qed.
