(* ===== verification/WaitingMachine.v ===== *)
(** * The life of a wait

    What may happen to one waiting item, as a step relation, and the operations of
    the service of [Waiting] against the interface of its sink: after a wake is
    accepted, its action is delivered for good. *)

From Stdlib Require Import ZArith Lia String.
From stdpp Require Import base decidable countable relations gmap sorting option list.
From S2P Require Import Prelude RustStd AgentTypes Json StateStoreCore ItemStore ActionStore Waiting.

(** ** Steps *)

Section steps.
Context (to_lowercase : rstr -> rstr).

Inductive waiting_step : WaitingItem -> WaitingItem -> Prop :=
| step_fire x event :
    w_state x = Armed -> trigger_matches to_lowercase (w_trigger x) event = true ->
    waiting_step x (with_waiting_state x Fired (Some (event_id event)) (event_occurred_at event) (w_safe_error x))
| step_expire x expiry now :
    w_state x = Armed -> w_expires_at x = Some expiry -> rle expiry now ->
    waiting_step x (with_waiting_state x WExpired (w_fired_by x) now (w_safe_error x))
| step_cancel_wait x now :
    w_state x = Armed \/ w_state x = Fired ->
    waiting_step x (with_waiting_state x WCancelled (w_fired_by x) now (w_safe_error x))
| step_resume x now :
    w_state x = Fired -> waiting_step x (with_waiting_state x Resumed (w_fired_by x) now None)
| step_defer x now error :
    w_state x = Fired -> waiting_step x (with_waiting_state x Fired (w_fired_by x) now (Some error)).

(** A new item is armed, with a valid trigger and a deadline still to come. *)
Definition waiting_init (x : WaitingItem) : Prop :=
  w_state x = Armed /\ w_fired_by x = None /\ validate_trigger (E := unit) (w_trigger x) = Ok tt
  /\ match w_expires_at x with Some expiry => rcmp (w_created_at x) expiry = Lt | None => True end.

(** What an item waits for never changes. *)
Definition wait_content (x : WaitingItem) :=
  (w_version x, w_id x, w_profile_id x, w_session_id x, w_trigger x, w_wake_id x, w_action_id x, w_reply_route x,
   w_expires_at x, w_created_at x).

Lemma step_wait_content x y : waiting_step x y -> wait_content y = wait_content x.
Proof. by destruct 1. Qed.

Lemma steps_wait_content x y : rtc waiting_step x y -> wait_content y = wait_content x.
Proof. induction 1 as [|x y z Hs _ IH]; [done|]. rewrite IH. by apply step_wait_content. Qed.

Definition wait_settled (s : WaitingState) : bool :=
  match s with Resumed | WCancelled | WExpired => true | _ => false end.

Lemma settled_stuck x y : wait_settled (w_state x) = true -> ~ waiting_step x y.
Proof. intros Ht Hs. destruct Hs as [x e Hx _|x e n Hx _ _|x n [Hx|Hx]|x n Hx|x n e Hx]; by rewrite Hx in Ht. Qed.

(** Which event fired it is known exactly of the items that fired. *)
Definition waiting_ok (x : WaitingItem) : Prop :=
  validate_trigger (E := unit) (w_trigger x) = Ok tt
  /\ match w_state x with
     | Armed | WExpired => w_fired_by x = None
     | Fired | Resumed => is_Some (w_fired_by x)
     | WCancelled => True
     end.

Lemma waiting_init_ok x : waiting_init x -> waiting_ok x.
Proof. intros (Hs & Hf & Hv & _). split; [done|]. by rewrite Hs. Qed.

Lemma waiting_step_ok x y : waiting_ok x -> waiting_step x y -> waiting_ok y.
Proof.
  intros [Hv Hok] Hs. destruct Hs as [x e Hx _|x e n Hx _ _|x n _|x n Hx|x n e Hx]; (split; [done|]); simpl;
    try rewrite Hx in Hok; done.
Qed.
End steps.

Lemma validate_trigger_unit {E} trigger :
  validate_trigger (E := E) trigger = Ok tt -> validate_trigger (E := unit) trigger = Ok tt.
Proof. unfold validate_trigger. by destruct (match trigger with TriggerAt _ => true | _ => _ end). Qed.

(** ** The operations *)

Section operations.
Context {S : Type} `{HU : Ulid, HR : Repository S, HL : !RepositoryLaws S, HD : Document WaitingItem, HW : WakeActionSink S}.
Context (new_id : nat -> EntityId) (to_lowercase : rstr -> rstr).

Abbreviation wholds := (holds WaitingConditions decode_wait w_id waiting_init (waiting_step to_lowercase)).
Abbreviation wlists := (lists_items WaitingConditions decode_wait w_id waiting_init (waiting_step to_lowercase)).
Abbreviation replaced := (replaces WaitingConditions decode_wait w_id waiting_init (waiting_step to_lowercase)).

Definition waits : Machine WaitingItem :=
  item_machine WaitingConditions decode_wait waiting_init (waiting_step to_lowercase).

Lemma decode_waiting r x :
  decode_wait r = Ok x <->
  from_value (rec_payload r) = Ok (item x) /\ w_id (item x) = rec_id r
  /\ sv_major (w_version (item x)) = sv_major CURRENT_SCHEMA_VERSION /\ storage_revision x = rec_revision r.
Proof.
  unfold decode_wait. destruct (from_value _) as [y|]; cbn [mbind result_bind map_err]; [|naive_solver].
  split.
  - intros Hd. res_inv. bool_inv. bool_inv. done.
  - intros ([= ->] & Hi & Hv & Hs). rewrite Hv, bool_decide_eq_true_2 by done. simpl. destruct x. simpl in *. by subst.
Qed.

Lemma decode_wait_faithful : decode_faithful decode_wait w_id.
Proof. intros r x (_ & Hi & _ & Hs)%decode_waiting. done. Qed.

Lemma encode_wait x revision r :
  document_lawful WaitingItem -> wait_record x revision = Ok r -> id_canonical (w_id x) ->
  sv_major (w_version x) = sv_major CURRENT_SCHEMA_VERSION ->
  is_u64 (revision_get revision) -> is_i64 (unix_millis (w_updated_at x)) ->
  wf_record r /\ rec_id r = w_id x /\ rec_revision r = revision
  /\ decode_wait (canonical_record r) = Ok (MkStored x revision).
Proof.
  intros Hlaw He Hid Hv Hrev Hnow. unfold wait_record in He. destruct (to_value x) as [v|] eqn:Ev; simpl in He; [|done].
  destruct (Hlaw _ _ Ev) as (Hd & Hread & Hback). injection He as <-.
  split; [|split; [done|split; [done|by apply decode_waiting]]].
  split; [done|]. do 2 (split; [simpl; unfold u16_max; lia|]). done.
Qed.

Lemma wholds_version recs x : wholds recs x -> sv_major (w_version (item x)) = sv_major CURRENT_SCHEMA_VERSION.
Proof. intros (r & _ & (_ & _ & Hv & _)%decode_waiting)%holds_lookup. done. Qed.

(** The derived codec: what is written is read back, and identifiers are parsed. *)
Definition waiting_codec : Prop :=
  document_lawful WaitingItem
  /\ forall v (x : WaitingItem), from_value v = Ok x -> id_canonical (as_entity_id (w_action_id x)).

Lemma wholds_action_id recs x :
  waiting_codec -> wholds recs x -> id_canonical (as_entity_id (w_action_id (item x))).
Proof. intros [_ Hc] (r & _ & (Hf & _)%decode_waiting)%holds_lookup. by eapply Hc. Qed.

Context (Hcodec : waiting_codec) (G : Contract).
Context (Hfollows : forall recs recs', guarantee G recs recs' -> follows waits recs recs').

(** The interface of the sink: an action whose wake was accepted is delivered. *)
Context (delivered : ActionId -> Records -> Prop) (Hdelivered : forall id, stable G (delivered id)).
Context (Hsink : forall action now, is_i64 (unix_millis now) -> id_canonical (as_entity_id (act_id action)) ->
  spec G (fun _ => True) (enqueue_wake action now) (fun _ recs => delivered (act_id action) recs)).

(** [r] is the record of [s], a successor of [x]. *)
Definition wait_succeeds (x : Stored WaitingItem) (r : VersionedRecord) (s : Stored WaitingItem) : Prop :=
  decode_wait (canonical_record r) = Ok s /\ waiting_step to_lowercase (item x) (item s)
  /\ w_id (item s) = w_id (item x)
  /\ revision_get (rec_revision r) = (revision_get (storage_revision x) + 1)%Z.

(** The contract allows the steps of a wait: it is resumed once its action is
    delivered, and where nothing may fire it is fired only with the error of its sink. *)
Context (may_fire : Prop).
Context (Hupdate : forall recs x r s,
  wholds recs x -> wait_succeeds x r s ->
  (w_state (item s) = Resumed -> delivered (w_action_id (item x)) recs) ->
  (w_state (item s) = Fired -> is_Some (w_safe_error (item s)) \/ may_fire) ->
  guarantee G recs (<[(WaitingConditions, w_id (item x)) := canonical_record r]> recs)).

Abbreviation wseen := (seen G WaitingConditions decode_wait w_id waiting_init (waiting_step to_lowercase)).

Lemma spec_put_wait P x y :
  wf_stored w_id x -> is_i64 (unix_millis (w_updated_at y)) ->
  (forall recs, P recs -> wseen x recs) -> waiting_step to_lowercase (item x) y ->
  (w_state y = Resumed -> forall recs, P recs -> delivered (w_action_id (item x)) recs) ->
  (w_state y = Fired -> is_Some (w_safe_error y) \/ may_fire) ->
  spec G P (put (MkStored y (storage_revision x))) (fun s recs' =>
    (item s = y /\ wf_stored w_id s)
    /\ exists recs, later G P recs /\ replaced recs recs' x s
       /\ (revision_get (storage_revision x) < revision_get (storage_revision s))%Z).
Proof.
  intros [Hid Hrev] Hnow HP Hstep Hres Hfire. unfold put. cbn [item storage_revision].
  apply spec_lift_bind. intros rev Hnext. apply ok_or_Ok, checked_next_Some in Hnext as [Hn Hle].
  apply spec_lift_bind. intros r He. apply spec_pre. intros recs1 HP1.
  pose proof (step_wait_content _ _ _ Hstep) as Hc. unfold wait_content in Hc. injection Hc as Hv Hi _ _ _ _ _ _ _ _.
  assert (is_u64 (revision_get rev)) as Hu by (unfold is_u64 in *; lia).
  destruct (encode_wait _ _ _ (proj1 Hcodec) He) as (Hwf & Hri & Hrr & Hdec); [by rewrite Hi| |done|done|].
  { rewrite Hv. destruct (HP recs1 HP1) as (recs0 & _ & Hx). by eapply wholds_version. }
  assert (wait_succeeds x r (MkStored y rev)) as Hsucc.
  { split; [done|]. split; [done|]. split; [done|]. by rewrite Hrr. }
  eapply spec_bind.
  { apply (spec_replace G WaitingConditions decode_wait w_id waiting_init (waiting_step to_lowercase) WeRepository
             decode_wait_faithful Hfollows (eq recs1) x r (MkStored y rev)); [done|done|by rewrite Hri|done| |].
    - intros recs <-. by apply HP.
    - intros recs (recs2 & <- & HR2) Hx. eapply Hupdate; [done|done| |done]. intros Hy.
      eapply Hdelivered; [by apply Hres|]. by apply rely_guarantee. }
  intros receipt. cbn beta. apply spec_ret. intros recs' (recs & (recs2 & <- & HR2) & Hrep).
  split; [split; [done|]; split; [simpl; by rewrite Hi|done]|]. exists recs. split; [by exists recs1|].
  split; [done|]. simpl. lia.
Qed.

Lemma spec_load_waits P :
  spec G P load_all (fun xs recs => Forall (wf_stored w_id) xs /\ later G P recs /\ wlists recs xs).
Proof.
  apply (spec_load_items G WaitingConditions decode_wait w_id waiting_init (waiting_step to_lowercase) WeRepository
           decode_wait_faithful).
Qed.

Lemma spec_enqueue_fired P x now :
  stable G P -> is_i64 (unix_millis now) -> wf_stored w_id x ->
  (forall recs, P recs -> wseen x recs) -> w_state (item x) = Fired ->
  spec G P (enqueue_fired x now) (fun y recs' =>
    (w_state y = Resumed \/ w_state y = Fired /\ is_Some (w_safe_error y))
    /\ exists recs s, P recs /\ replaced recs recs' x s /\ y = item s
       /\ (revision_get (storage_revision x) < revision_get (storage_revision s))%Z).
Proof.
  intros Hst Hnow Hwf Hseen Hfired. unfold enqueue_fired.
  apply (spec_given G (fun recs => id_canonical (as_entity_id (w_action_id (item x))) /\ P recs)).
  { intros recs HP. split; [|done]. destruct (Hseen recs HP) as (recs0 & _ & Hx). by eapply wholds_action_id. }
  apply spec_pure. intros Hact.
  assert (forall P' y, (forall recs, P' recs -> P recs) -> is_i64 (unix_millis (w_updated_at y)) ->
    waiting_step to_lowercase (item x) y ->
    (w_state y = Resumed -> forall recs, P' recs -> delivered (w_action_id (item x)) recs) ->
    (w_state y = Resumed \/ w_state y = Fired /\ is_Some (w_safe_error y)) ->
    spec G P' (stored ← put (MkStored y (storage_revision x)); mret (item stored)) (fun y recs' =>
      (w_state y = Resumed \/ w_state y = Fired /\ is_Some (w_safe_error y))
      /\ exists recs s, P recs /\ replaced recs recs' x s /\ y = item s
         /\ (revision_get (storage_revision x) < revision_get (storage_revision s))%Z)) as Hput.
  { intros P' y HP' Hn Hstep Hd Hy. eapply spec_bind; [apply spec_put_wait; auto|].
    { destruct Hy as [Hy|[_ ?]]; [congruence|auto]. }
    intros s. cbn beta. apply spec_pure. intros [Hs _]. apply spec_ret. intros recs' (recs & Hl & Hrep & Hlt).
    split; [by rewrite Hs|]. exists recs, s. split; [|done].
    apply (later_stable G P); [done|]. destruct Hl as (recs1 & H1 & H2). exists recs1. auto. }
  apply (spec_catch G P (enqueue_wake (resume_action (item x) now) now)
    (fun _ recs => delivered (w_action_id (item x)) recs)
    (fun status => stored ← put (MkStored match status with
       | Ok (Accepted | AlreadyPresent) => with_waiting_state (item x) Resumed (w_fired_by (item x)) now None
       | Err error => with_waiting_state (item x) (w_state (item x)) (w_fired_by (item x)) now (Some (safe_error error))
       end (storage_revision x)); mret (item stored))); [done| | |].
  - eapply spec_given; [|by apply (Hsink (resume_action (item x) now))]. done.
  - intros status. apply Hput; [by intros recs []|by destruct status| | |by destruct status; left].
    + destruct status; by apply step_resume.
    + by intros _ recs [].
  - intros e. apply Hput; [done|done| |by simpl; rewrite Hfired|by right].
    rewrite Hfired. by apply step_defer.
Qed.

(** ** Loops *)

Lemma rleb_rle (a b : UtcTimestamp) : rleb a b = true -> rle a b.
Proof. unfold rleb, rle. by destruct (rcmp a b). Qed.

Lemma spec_expire_due P now :
  stable G P -> is_i64 (unix_millis now) -> spec G P (expire_due_locked now) (fun _ recs => P recs).
Proof.
  intros Hst Hnow. unfold expire_due_locked. eapply spec_bind; [apply spec_load_waits|]. intros xs. cbn beta.
  apply spec_pure. intros Hwf. apply spec_pre. intros listed [Hl [_ Hin]]. apply (later_stable G P) in Hl; [|done].
  set (J := fun recs => P recs /\ guarantee G listed recs).
  assert (stable G J) as HJ by (intros a b [Ha Hb] HT; split; [by eapply Hst|by etrans]).
  eapply (spec_weaken G J); [apply (spec_map_m_each G J _ (fun _ _ => True)); [done|done|]| |].
  - intros x [Hx [Harm Hexp]%andb_true_iff]%list_elem_of_In%filter_In. apply list_elem_of_In in Hx.
    bool_inv. destruct (w_expires_at (item x)) as [expiry|] eqn:Ee; [|done].
    eapply spec_bind; [apply spec_put_wait|by intros s; apply spec_ret].
    + by eapply list.Forall_forall in Hwf.
    + done.
    + intros recs [_ HT]. exists listed. split; [done|by apply Hin].
    + eapply step_expire; [done|done|by apply rleb_rle].
    + done.
    + done.
  - intros recs <-. split; [done|reflexivity].
  - by intros ys recs [[HP _] _].
Qed.

Lemma spec_fire_all P event xs :
  may_fire -> stable G P -> is_i64 (unix_millis (event_occurred_at event)) -> Forall (wf_stored w_id) xs ->
  (forall recs, P recs -> Forall (fun x => wseen x recs) xs) ->
  Forall (fun x => is_woken to_lowercase event x = true) xs ->
  spec G P (fire_all event xs) (fun _ recs => P recs).
Proof.
  intros Hmay Hst Hnow. induction xs as [|x xs IH]; intros Hwf Hseen Hw; simpl; [by apply spec_ret|].
  apply Forall_cons in Hwf as [Hx Hxs]. apply Forall_cons in Hw as [[Harm Htr]%andb_true_iff Hws]. bool_inv.
  assert (forall recs, P recs -> Forall (fun y => wseen y recs) xs) as Hseen'.
  { intros recs HP. specialize (Hseen recs HP). by apply Forall_cons in Hseen as [_ ?]. }
  set (y := with_waiting_state (item x) Fired (Some (event_id event)) (event_occurred_at event) (w_safe_error (item x))).
  intros recs0 w r w' Hsince Hr.
  apply (spec_catch G P (put (MkStored y (storage_revision x)))
    (fun s recs => (item s = y /\ wf_stored w_id s) /\ exists recs0, later G P recs0 /\ replaced recs0 recs x s
       /\ (revision_get (storage_revision x) < revision_get (storage_revision s))%Z)
    (fun res => match res with
                | Ok stored => z ← enqueue_fired stored (event_occurred_at event); zs ← fire_all event xs; mret (z :: zs)
                | Err _ => fire_all event xs
                end) (fun _ recs => P recs)) with (recs0 := recs0) (s := w) (r := r) (s' := w'); [done| | | |done|].
  - apply spec_put_wait; [done|done| |by apply step_fire|done|by right].
    intros recs HP. specialize (Hseen recs HP). by apply Forall_cons in Hseen as [? _].
  - intros s. apply (spec_given G (fun recs => (item s = y /\ wf_stored w_id s) /\ P recs /\ wseen s recs)).
    { intros recs (HP & Hs & recs1 & _ & (_ & Hh & _) & _). split; [done|]. split; [done|by apply holds_seen]. }
    apply spec_pure. intros [Hs Hwfs].
    eapply spec_bind.
    { apply (spec_keep G (fun recs => P recs /\ wseen s recs)).
      - intros a b [Ha Hb] HT. split; [by eapply Hst|by eapply seen_stable].
      - apply spec_enqueue_fired; [|done|done|by intros recs []|by rewrite Hs].
        intros a b [Ha Hb] HT. split; [by eapply Hst|by eapply seen_stable]. }
    intros z. cbn beta. eapply spec_bind.
    { eapply spec_given; [|by apply IH]. by intros recs [[HP _] _]. }
    intros zs. cbn beta. by apply spec_ret.
  - intros e. by apply IH.
  - rewrite <- Hr. cbn [fire_all]. unfold y. by destruct (put _ w) as [[s|e] w1].
Qed.

Lemma spec_signal P event :
  may_fire -> stable G P -> is_i64 (unix_millis (event_occurred_at event)) ->
  spec G P (signal to_lowercase event) (fun _ recs => P recs).
Proof.
  intros Hmay Hst Hnow. unfold signal. eapply spec_bind; [apply spec_lock|]. intros []. cbn beta.
  eapply spec_bind; [by apply spec_expire_due|]. intros ys. cbn beta.
  eapply spec_bind; [apply spec_load_waits|]. intros xs. cbn beta.
  apply spec_pure. intros Hwf. apply spec_pre. intros listed [Hl [_ Hin]]. apply (later_stable G P) in Hl; [|done].
  eapply (spec_weaken G (fun recs => P recs /\ guarantee G listed recs)); [apply spec_fire_all; [done|..]| |].
  - intros a b [Ha Hb] HT. split; [by eapply Hst|by etrans].
  - done.
  - apply list.Forall_forall. intros x [Hx _]%list_elem_of_In%filter_In. apply list_elem_of_In in Hx.
    by eapply list.Forall_forall in Hwf.
  - intros recs [_ HT]. apply list.Forall_forall. intros x [Hx _]%list_elem_of_In%filter_In.
    exists listed. split; [done|]. by apply Hin, list_elem_of_In.
  - apply list.Forall_forall. by intros x [_ Hx]%list_elem_of_In%filter_In.
  - intros recs <-. split; [done|reflexivity].
  - by intros zs recs [].
Qed.

(** A later state of the record of [x]. *)
Definition moved_past (x : Stored WaitingItem) (recs : Records) : Prop :=
  exists s, wholds recs s /\ w_id (item s) = w_id (item x)
    /\ (revision_get (storage_revision x) < revision_get (storage_revision s))%Z.

Lemma moved_past_stable x : stable G (moved_past x).
Proof.
  intros recs recs' (s & (r & Hr & Hs)%holds_lookup & Hid & Hlt) HT. apply Hfollows in HT.
  destruct (key_step_revision waits _ _ (HT (w_id (item s))) r Hr) as (r' & Hr' & Hcase).
  assert (exists s', wholds recs' s' /\ w_id (item s') = w_id (item s) /\ storage_revision s' = rec_revision r')
    as (s' & Hs' & Hid' & Hrev').
  { assert (holds_item waits recs (w_id (item s)) s) as Hh by (apply holds_lookup; eauto).
    destruct (follows_steps waits _ _ _ _ HT Hh) as (s' & Hh' & Hsteps). pose proof (steps_wait_content _ _ _ Hsteps) as Hc.
    unfold wait_content in Hc. injection Hc as _ Hi _ _ _ _ _ _ _ _. exists s'. split; [unfold holds; by rewrite Hi|].
    split; [done|]. destruct Hh' as (q & Hq & Hd). simpl in *. rewrite Hr' in Hq. injection Hq as <-.
    destruct (decode_wait r') as [z|] eqn:Ez; [|done]. injection Hd as <-. by destruct (decode_wait_faithful r' z Ez). }
  destruct (decode_wait_faithful r s Hs) as [_ Hrs]. exists s'. split; [done|]. split; [congruence|].
  rewrite Hrev'. destruct Hcase as [->|Hlt']; [by rewrite Hrs|]. rewrite Hrs in Hlt'. lia.
Qed.

(** A successful recovery moves every item it found fired. *)
Lemma spec_recover_waits P now :
  stable G P -> is_i64 (unix_millis now) ->
  spec G P (recover now) (fun _ recs => P recs /\ exists listed, P listed /\ guarantee G listed recs
    /\ forall x, wholds listed x -> w_state (item x) = Fired -> moved_past x recs).
Proof.
  intros Hst Hnow. unfold recover. eapply spec_bind; [apply spec_lock|]. intros []. cbn beta.
  eapply spec_bind; [by apply spec_expire_due|]. intros ys. cbn beta.
  eapply spec_bind; [apply spec_load_waits|]. intros xs. cbn beta.
  apply spec_pure. intros Hwf. apply spec_pre. intros listed [Hl [_ Hin]]. apply (later_stable G P) in Hl; [|done].
  set (J := fun recs => P recs /\ guarantee G listed recs).
  assert (stable G J) as HJ by (intros a b [Ha Hb] HT; split; [by eapply Hst|by etrans]).
  eapply (spec_weaken G J); [apply (spec_map_m_each G J _ moved_past); [done|apply moved_past_stable|]| |].
  - intros x [Hx Hf]%list_elem_of_In%filter_In. apply list_elem_of_In in Hx. bool_inv.
    eapply spec_weaken; [apply (spec_enqueue_fired J x now)|done|].
    + done.
    + done.
    + by eapply list.Forall_forall in Hwf.
    + intros recs [_ HT]. exists listed. split; [done|by apply Hin].
    + done.
    + intros y recs' [_ (recs & s & _ & (_ & Hs & Hk & _) & _ & Hlt)]. by exists s.
  - intros recs <-. split; [done|reflexivity].
  - intros zs recs [[HP HT] Hall]. split; [done|]. exists listed. split; [done|]. split; [done|].
    intros x Hx Hf. rewrite list.Forall_forall in Hall. apply Hall, list_elem_of_In, filter_In.
    split; [by apply list_elem_of_In, Hin|]. by apply bool_decide_eq_true.
Qed.
(** ** Single waits *)

Lemma spec_required_wait P id :
  spec G P (required id) (fun x recs =>
    (w_id (item x) = id /\ wf_stored w_id x) /\ later G P recs /\ wholds recs x).
Proof.
  unfold required. eapply spec_bind.
  { apply (spec_load_item G WaitingConditions decode_wait w_id waiting_init (waiting_step to_lowercase) WeRepository
             decode_wait_faithful). }
  intros found. cbn beta. apply spec_lift. intros x recs Hx (Hf & Hl & Hh). apply ok_or_Ok in Hx as ->.
  by destruct (Hf x eq_refl).
Qed.

(** A cancelled wait was armed or fired. *)
Lemma spec_cancel_wait P id now :
  stable G P -> is_i64 (unix_millis now) ->
  spec G P (cancel id now) (fun y recs' => exists recs x s,
    P recs /\ replaced recs recs' x s /\ w_id (item x) = id /\ wait_settled (w_state (item x)) = false
    /\ y = item s /\ y = with_waiting_state (item x) WCancelled (w_fired_by (item x)) now (w_safe_error (item x))).
Proof.
  intros Hst Hnow. unfold cancel, transition. eapply spec_bind; [apply spec_lock|]. intros []. cbn beta.
  eapply spec_bind; [apply spec_required_wait|]. intros x. cbn beta. apply spec_pure. intros [Hid Hwf].
  apply spec_lift_bind. intros [] Ha%reject_if_ok%negb_false_iff.
  eapply spec_bind; [apply spec_put_wait; [done|done| | |done|done]|].
  { intros recs [_ Hx]. by apply holds_seen. }
  { apply step_cancel_wait. destruct (w_state (item x)); auto; done. }
  intros s. cbn beta. apply spec_pure. intros [Hs _]. apply spec_ret. intros recs' (recs & Hl & Hrep & _).
  exists recs, x, s. split.
  { destruct Hl as (recs1 & [Hl _] & HR1). apply (later_stable G P) in Hl; [|done].
    eapply Hst; [done|]. by apply rely_guarantee. }
  split; [done|]. split; [done|]. split; [by destruct (w_state (item x))|]. by rewrite Hs.
Qed.

Lemma spec_list_waits P session :
  stable G P -> spec G P (list_session session) (fun ys recs => P recs
    /\ StronglySorted (fun x y => rcmp (w_created_at x) (w_created_at y) <> Gt) ys
    /\ forall y, y ∈ ys <-> w_session_id y = session /\ exists x, wholds recs x /\ y = item x).
Proof.
  intros Hst. unfold list_session. eapply spec_bind; [apply spec_load_waits|]. intros xs. cbn beta. apply spec_ret.
  intros recs (_ & Hl & [_ Hin]). split; [by apply (later_stable G P) in Hl|].
  split; [apply (sort_by_key_sorted w_created_at)|]. intros y. rewrite sort_by_perm, list_elem_of_fmap. split.
  - intros (x & -> & [Hx Hs%bool_decide_eq_true]%list_elem_of_In%filter_In). split; [done|]. exists x.
    split; [by apply Hin, list_elem_of_In|done].
  - intros [Hs (x & Hx & ->)]. exists x. split; [done|]. apply list_elem_of_In, filter_In.
    split; [by apply list_elem_of_In, Hin|]. by apply bool_decide_eq_true.
Qed.

(** [r] is the record of a new wait. *)
Definition registers (r : VersionedRecord) (s : Stored WaitingItem) : Prop :=
  decode_wait (canonical_record r) = Ok s /\ rec_id r = w_id (item s) /\ rec_revision r = Revision_ZERO
  /\ waiting_init (item s).

(** What an item was registered for. *)
Definition requested (x : WaitingItem) : NewWaitingItem :=
  MkNewWaiting (w_profile_id x) (w_session_id x) (w_trigger x) (w_reply_route x) (w_expires_at x).

Lemma spec_register P request now :
  stable G P -> is_i64 (unix_millis now) -> (forall k, id_canonical (new_id k)) ->
  (forall recs r s, registers r s -> recs !! (WaitingConditions, rec_id r) = None ->
     guarantee G recs (<[(WaitingConditions, rec_id r) := canonical_record r]> recs)) ->
  spec G P (register new_id request now) (fun a recs' => a.2 = RELEASE_WAITING /\ exists recs r s,
    P recs /\ registers r s /\ recs !! (WaitingConditions, rec_id r) = None
    /\ recs' = <[(WaitingConditions, rec_id r) := canonical_record r]> recs
    /\ wholds recs' s /\ a.1 = item s /\ requested (item s) = request).
Proof.
  intros Hst Hnow Hids Hown. unfold register.
  apply spec_lift_bind. intros [] Hval%validate_trigger_unit.
  apply spec_lift_bind. intros [] Hexp%reject_if_ok.
  eapply spec_bind; [apply spec_draw|]. intros id. cbn beta. apply spec_pure. intros [n ->].
  eapply spec_bind; [apply spec_draw|]. intros wake. cbn beta. apply spec_pure. intros _.
  eapply spec_bind; [apply spec_draw|]. intros act. cbn beta. apply spec_pure. intros _. cbn zeta.
  set (x := MkWaiting _ _ _ _ _ _ _ _ _ _ _ _ _ _). apply spec_lift_bind. intros r He.
  destruct (encode_wait _ _ _ (proj1 Hcodec) He) as (Hwf & Hri & Hrr & Hdec); [apply Hids|done|done|done|].
  assert (registers r (MkStored x Revision_ZERO)) as Hreg.
  { split; [done|]. split; [done|]. split; [done|]. split; [done|]. split; [done|]. split; [done|]. simpl.
    destruct (new_expires_at request) as [e|]; [|done]. unfold rleb in Hexp.
    change (rcmp now e = Lt). apply rcmp_Gt. by destruct (rcmp e now). }
  eapply spec_bind; [apply (spec_create G WaitingConditions WeRepository); [done|done|]|].
  { intros recs Hl Hnone. by eapply Hown. }
  intros receipt. cbn beta. apply spec_ret. intros recs' (recs & Hl & Hnone & ->). split; [done|].
  exists recs, r, (MkStored x Revision_ZERO). split; [by apply (later_stable G P) in Hl|].
  split; [done|]. split; [done|]. split; [done|]. split; [|split; [done|by destruct request]].
  apply holds_lookup. exists (canonical_record r). simpl in *. by rewrite Hri, lookup_insert_eq.
Qed.
End operations.
