(* ===== verification/WaitingProperties.v ===== *)
(** * Correctness of waits and their wakes

    The waiting service of [Waiting] together with the action inbox of
    [ActionStore] that is its sink: runs of arbitrary operations of both, in any
    order, with other processes writing waits and actions in between. *)

From Stdlib Require Import ZArith Lia String.
From stdpp Require Import base decidable countable relations gmap sorting option list.
From S2P Require Import Prelude RustStd AgentTypes Json StateStoreCore ItemStore.
From S2P Require Import ActionStore ActionMachine ActionProperties Waiting WaitingMachine.

Inductive wait_op :=
| WRegister (request : NewWaitingItem)
| WSignal (event : WakeEvent)
| WRecover
| WCancel (id : EntityId)
| WExpireDue
| WListSession (session : SessionId)
| WInbox (op : inbox_op).

Section runs.
Context {S : Type} `{HU : Ulid, HR : Repository S, HL : !RepositoryLaws S}.
Context `{HA : Document ActionRecord, HD : Document WaitingItem}.
Context (inbox : ActionInboxConfig) (error_to_string : ActionStoreError repo_error -> rstr).
Context (new_id : nat -> EntityId) (to_lowercase : rstr -> rstr).

#[local] Instance sink : WakeActionSink S := inbox_sink inbox error_to_string.

Abbreviation aholds := (holds PendingActions ActionStore.decode action_key action_init action_step).
Abbreviation wholds := (holds WaitingConditions decode_wait w_id waiting_init (waiting_step to_lowercase)).
Abbreviation waits := (waits to_lowercase).

Definition wait_do (op : wait_op) (now : UtcTimestamp) (w : World S) : World S :=
  match op with
  | WRegister request => (register new_id request now w).2
  | WSignal event => (signal to_lowercase event w).2
  | WRecover => (recover now w).2
  | WCancel id => (Waiting.cancel id now w).2
  | WExpireDue => (expire_due now w).2
  | WListSession session => (Waiting.list_session session w).2
  | WInbox op => (inbox_do inbox op now w).2
  end.

(** A run goes on after an error. *)
Definition wait_run (ops : list (wait_op * UtcTimestamp)) (w : World S) : World S :=
  fold_left (fun w p => wait_do p.1 p.2 w) ops w.

(** Times and identifiers are values of their Rust types. *)
Definition wait_typed (p : wait_op * UtcTimestamp) : Prop :=
  is_i64 (unix_millis p.2)
  /\ match p.1 with
     | WSignal event => is_i64 (unix_millis (event_occurred_at event))
     | WInbox op => well_typed (op, p.2)
     | _ => True
     end.

(** ** Contracts *)

(** The action of every resumed wait is in the inbox. *)
Definition linked (recs : Records) : Prop :=
  forall x, wholds recs x -> w_state (item x) = Resumed -> delivered (w_action_id (item x)) recs.

Definition linked_follows (recs recs' : Records) : Prop :=
  follows waits recs recs' /\ follows actions recs recs' /\ (linked recs -> linked recs').

#[export] Instance linked_follows_preorder : PreOrder linked_follows.
Proof.
  split; [by intros recs|]. intros a b c (Hw & Ha & Hl) (Hw' & Ha' & Hl').
  split; [by etrans|]. split; [by etrans|auto].
Qed.

Definition shared_waits : Contract := MkContract linked_follows linked_follows _ _ (fun _ _ H => H).

(** Fired, with neither an action in the inbox nor the error that explains it. *)
Definition interrupted (x : Stored WaitingItem) : Prop :=
  w_state (item x) = Fired /\ w_safe_error (item x) = None.

(** Nothing fires. *)
Definition silent (recs recs' : Records) : Prop :=
  linked_follows recs recs' /\ forall x, wholds recs' x -> interrupted x -> wholds recs x.

#[export] Instance silent_preorder : PreOrder silent.
Proof.
  split; [by intros recs|]. intros a b c [Hl Hs] [Hl' Hs']. split; [by etrans|auto].
Qed.

Definition silent_waits : Contract := MkContract silent silent _ _ (fun _ _ H => H).

(** Writes of the inbox. *)
Lemma actions_silent recs k r :
  follows actions recs (<[(PendingActions, k) := r]> recs) -> silent recs (<[(PendingActions, k) := r]> recs).
Proof.
  intros Hf. assert (untouched WaitingConditions recs (<[(PendingActions, k) := r]> recs)) as Hu.
  { intros id. by rewrite lookup_insert_ne. }
  split; [split; [by apply (untouched_follows waits)|split; [done|]]|].
  - intros Hl x Hx Hr. eapply delivered_follows; [done|]. apply Hl; [|done]. by eapply untouched_holds.
  - intros x Hx _. by eapply untouched_holds.
Qed.

(** Writes of the waiting service. *)
Lemma waits_linked recs k r s :
  follows waits recs (<[(WaitingConditions, k) := r]> recs) -> decode_wait r = Ok s ->
  (w_state (item s) = Resumed -> delivered (w_action_id (item s)) recs) ->
  linked_follows recs (<[(WaitingConditions, k) := r]> recs).
Proof.
  intros Hf Hs Hd. assert (follows actions recs (<[(WaitingConditions, k) := r]> recs)) as Ha.
  { by apply follows_other. }
  split; [done|]. split; [done|]. intros Hl x [[Hx _]|[Hx _]]%holds_insert Hr; eapply delivered_follows; try done.
  - assert (x = s) as -> by congruence. auto.
  - auto.
Qed.

Lemma succeeds_follows_wait recs x r s :
  wholds recs x -> wait_succeeds to_lowercase x r s ->
  follows waits recs (<[(WaitingConditions, w_id (item x)) := canonical_record r]> recs).
Proof. intros Hx (Hdec & Hs & _ & Hrev). eapply update_key_step; eauto. apply decode_wait_faithful. Qed.

Lemma shared_wait_update recs x r s :
  wholds recs x -> wait_succeeds to_lowercase x r s ->
  (w_state (item s) = Resumed -> delivered (w_action_id (item x)) recs) ->
  linked_follows recs (<[(WaitingConditions, w_id (item x)) := canonical_record r]> recs).
Proof.
  intros Hx Hsucc Hd. eapply waits_linked; [by eapply succeeds_follows_wait|apply Hsucc|].
  destruct Hsucc as (_ & Hs & _). apply step_wait_content in Hs. unfold wait_content in Hs.
  injection Hs as _ _ _ _ _ _ -> _ _ _. done.
Qed.

Lemma silent_wait_update recs x r s :
  wholds recs x -> wait_succeeds to_lowercase x r s ->
  (w_state (item s) = Resumed -> delivered (w_action_id (item x)) recs) ->
  (w_state (item s) = Fired -> is_Some (w_safe_error (item s)) \/ False) ->
  silent recs (<[(WaitingConditions, w_id (item x)) := canonical_record r]> recs).
Proof.
  intros Hx Hsucc Hd Hf. split; [by eapply shared_wait_update|].
  intros y [[Hy _]|[Hy _]]%holds_insert [Hfy Hey]; [|done]. destruct Hsucc as (Hdec & _).
  assert (y = s) as -> by congruence. destruct (Hf Hfy) as [[e He]|[]]. congruence.
Qed.

Lemma shared_register recs r s :
  registers r s -> recs !! (WaitingConditions, rec_id r) = None ->
  linked_follows recs (<[(WaitingConditions, rec_id r) := canonical_record r]> recs).
Proof.
  intros (Hdec & Hid & Hrev & Hinit) Hnone. eapply waits_linked; [|exact Hdec|].
  - eapply (create_key_step WaitingConditions decode_wait waiting_init (waiting_step to_lowercase)); eauto.
  - destruct Hinit as (-> & _). done.
Qed.

(** ** The inbox as the sink *)

(** An accepted wake is in the inbox. *)
Lemma spec_sink (Hacodec : action_codec) (G : Contract) :
  (forall recs k r, follows actions recs (<[(PendingActions, k) := r]> recs) ->
     guarantee G recs (<[(PendingActions, k) := r]> recs)) ->
  forall action now, is_i64 (unix_millis now) -> id_canonical (as_entity_id (act_id action)) ->
  spec G (fun _ => True) (enqueue_wake action now) (fun _ recs => delivered (act_id action) recs).
Proof. intros. by apply spec_ensure. Qed.

(** ** Runs *)

Context (Hacodec : action_codec) (Hwcodec : waiting_codec) (Hids : forall k, id_canonical (new_id k)).

Section contract.
Context (G : Contract).
Context (Hwaits : forall recs recs', guarantee G recs recs' -> follows waits recs recs').
Context (Hactions : forall recs recs', guarantee G recs recs' -> follows actions recs recs').
Context (Hinbox : forall recs k r,
  follows actions recs (<[(PendingActions, k) := r]> recs) -> guarantee G recs (<[(PendingActions, k) := r]> recs)).
Context (Hupdate : forall recs x r s,
  wholds recs x -> wait_succeeds to_lowercase x r s ->
  (w_state (item s) = Resumed -> delivered (w_action_id (item x)) recs) ->
  guarantee G recs (<[(WaitingConditions, w_id (item x)) := canonical_record r]> recs)).
Context (Hregister : forall recs r s,
  registers r s -> recs !! (WaitingConditions, rec_id r) = None ->
  guarantee G recs (<[(WaitingConditions, rec_id r) := canonical_record r]> recs)).

(** Every operation keeps to the contract, whether it succeeds or fails. *)
Lemma wait_do_keeps op now w recs :
  sees G w recs -> wait_typed (op, now) -> exists recs', sees G (wait_do op now w) recs' /\ guarantee G recs recs'.
Proof.
  intros Hw [Hnow Hop]. assert (stable G (fun _ => True)) as Hst by by intros ???.
  pose proof (delivered_stable G Hactions) as Hds. pose proof (spec_sink Hacodec G Hinbox) as Hsk.
  assert (forall recs x r s, wholds recs x -> wait_succeeds to_lowercase x r s ->
    (w_state (item s) = Resumed -> delivered (w_action_id (item x)) recs) ->
    (w_state (item s) = Fired -> is_Some (w_safe_error (item s)) \/ True) ->
    guarantee G recs (<[(WaitingConditions, w_id (item x)) := canonical_record r]> recs)) as Hup by eauto.
  destruct op; simpl in *; (eapply (spec_run G (fun _ => True)); [|done|done]).
  - eapply spec_register with (to_lowercase := to_lowercase); eauto.
  - eapply spec_signal with (may_fire := True); eauto.
  - eapply spec_recover_waits with (may_fire := True); eauto.
  - eapply spec_cancel_wait with (may_fire := True); eauto.
  - eapply spec_bind; [apply spec_lock|]. intros []. eapply spec_expire_due with (may_fire := True); eauto.
  - eapply spec_list_waits with (to_lowercase := to_lowercase); eauto.
  - eapply spec_inbox_do; eauto.
    + intros rs x r s Hx Hs _. apply Hinbox. by eapply succeeds_follows.
    + intros listed rs x r s _ _ Hx Hs _. apply Hinbox. by eapply succeeds_follows.
    + intros a _ listed rs r s _ Hs Hn. apply Hinbox. by eapply submits_follows.
Qed.
End contract.

Lemma wait_run_shared ops w recs :
  sees shared_waits w recs -> Forall wait_typed ops ->
  exists recs', sees shared_waits (wait_run ops w) recs' /\ linked_follows recs recs'.
Proof.
  intros Hw Ht. apply (run_keeps shared_waits wait_typed (fun p w => wait_do p.1 p.2 w) (fun _ => True)); try done.
  intros [op now] w1 recs1 Hop Hw1 _. apply wait_do_keeps; try done.
  - by intros a b (? & _).
  - by intros a b (_ & ? & _).
  - intros a k r Hf. by apply actions_silent.
  - exact shared_wait_update.
  - exact shared_register.
Qed.

(** Whatever the waiting service and the inbox do, in any order and with other
    processes writing in between: no wait disappears or changes what it waits
    for; its trigger is valid and which event fired it is recorded exactly of the
    waits that fired; and a wait that was resumed, cancelled or expired is never
    written again. *)
Theorem waiting_lifecycle ops w recs :
  sees shared_waits w recs -> Forall wait_typed ops -> all_items waits waiting_ok recs ->
  exists recs', sees shared_waits (wait_run ops w) recs' /\ all_items waits waiting_ok recs'
    /\ forall x, wholds recs x -> exists y, wholds recs' y /\ wait_content (item y) = wait_content (item x)
      /\ (wait_settled (w_state (item x)) = true ->
          recs' !! (WaitingConditions, w_id (item x)) = recs !! (WaitingConditions, w_id (item x))).
Proof.
  intros Hw Ht Hok. destruct (wait_run_shared ops w recs Hw Ht) as (recs' & Hw' & Hf & _).
  exists recs'. split; [done|]. split.
  { eapply follows_all_items; [apply waiting_init_ok|apply waiting_step_ok|exact Hf|done]. }
  intros x Hx. destruct (follows_steps waits _ _ _ _ Hf Hx) as (y & Hy & Hs). apply steps_wait_content in Hs.
  exists y. split; [|split; [done|]].
  - unfold wait_content in Hs. injection Hs as _ Hi _ _ _ _ _ _ _ _. unfold holds. by rewrite Hi.
  - intros Hset. eapply (follows_stuck waits); [done|exact Hx|]. intros z. by apply settled_stuck.
Qed.

(** C11: a wait is marked resumed only once its action is durably in the inbox:
    at every moment of every interleaving of the service, the inbox and other
    processes, each resumed wait has its action. *)
Theorem resumed_delivered ops w recs :
  sees shared_waits w recs -> Forall wait_typed ops -> linked recs ->
  exists recs', sees shared_waits (wait_run ops w) recs' /\ linked recs'.
Proof.
  intros Hw Ht Hl. destruct (wait_run_shared ops w recs Hw Ht) as (recs' & Hw' & _ & _ & HT). exists recs'. auto.
Qed.

(** C20: a wake interrupted by a stop of the process is not lost: after a
    successful [recover] no wait is left fired without an error, so each one that
    was found fired is resumed with its action in the inbox, or shows why the
    inbox refused it. *)
Theorem recover_settles now w recs ys w' :
  sees silent_waits w recs -> is_i64 (unix_millis now) -> linked recs -> recover now w = (Ok ys, w') ->
  exists recs', sees silent_waits w' recs' /\ linked recs' /\ forall x, wholds recs' x -> ~ interrupted x.
Proof.
  intros Hw Hnow Hl Hr. assert (stable silent_waits (fun _ => True)) as Hst by by intros ???.
  pose proof (spec_recover_waits to_lowercase Hwcodec silent_waits (fun _ _ H => proj1 (proj1 H)) delivered) as Hspec.
  specialize (Hspec (delivered_stable silent_waits (fun _ _ H => proj1 (proj2 (proj1 H))))).
  specialize (Hspec (spec_sink Hacodec silent_waits actions_silent)).
  specialize (Hspec False silent_wait_update (fun _ => True) now Hst Hnow).
  destruct (Hspec recs w _ w' (since_now silent_waits (fun _ => True) w recs Hw I) Hr)
    as (recs' & Hw' & [(_ & _ & HT) _] & _ & listed & _ & [_ Hback] & Hmoved).
  exists recs'. split; [done|]. split; [auto|]. intros x Hx Hi.
  destruct (Hmoved x (Hback x Hx Hi) (proj1 Hi)) as (s & Hs & Hid & Hlt).
  assert (s = x) as -> by (eapply holds_inj; [exact Hs|exact Hx|done]). lia.
Qed.
End runs.
