(* ===== verification/WaitingExample.v ===== *)
(** * A concrete waiting service

    Closed instances of the theorems about waits: a wait for the user's answer
    that fires and is resumed through the inbox, and one that a stopped process
    left fired. *)

From Stdlib Require Import ZArith Lia String.
From stdpp Require Import base decidable countable relations gmap sorting option list.
From S2P Require Import Prelude RustStd AgentTypes Json StateStoreCore StateStore ItemStore Serial ServiceExample.
From S2P Require Import ActionStore ActionMachine ActionProperties ActionExample.
From S2P Require Import Waiting WaitingMachine WaitingProperties.

(** ** Codec *)

#[export] Program Instance WaitingState_enumerated : Enumerated WaitingState := {|
  variants := [Armed; Fired; Resumed; WCancelled; WExpired] |}.
Next Obligation. intros []; repeat constructor. Qed.

#[export] Instance Serial_trigger : Serial WakeTrigger.
Proof.
  refine (Serial_via (fun x => match x with
    | TriggerAt t => (0, ser t)
    | TriggerSchedule id => (1, ser id)
    | TriggerChildTerminal id => (2, ser id)
    | TriggerProcessExit id => (3, ser id)
    | TriggerFileChanged id pattern => (4, ser (id, pattern))
    | TriggerRepositoryChanged id reference => (5, ser (id, reference))
    | TriggerChannelMessage id filter => (6, ser (id, filter))
    | TriggerExternalCondition connector query => (7, ser (connector, query))
    | TriggerUserResponse id => (8, ser id)
    end%Z)
  (fun p => match p.1 with
    | 0 => TriggerAt <$> de_all p.2
    | 1 => TriggerSchedule <$> de_all p.2
    | 2 => TriggerChildTerminal <$> de_all p.2
    | 3 => TriggerProcessExit <$> de_all p.2
    | 4 => '(a, b) ← de_all p.2; Some (TriggerFileChanged a b)
    | 5 => '(a, b) ← de_all p.2; Some (TriggerRepositoryChanged a b)
    | 6 => '(a, b) ← de_all p.2; Some (TriggerChannelMessage a b)
    | 7 => '(a, b) ← de_all p.2; Some (TriggerExternalCondition a b)
    | 8 => TriggerUserResponse <$> de_all p.2
    | _ => None
    end%Z) _).
  intros []; cbn [fst snd]; rewrite de_all_ser; reflexivity.
Defined.

#[export] Program Instance Serial_waiting : Serial WaitingItem :=
  Serial_via (fun x => (w_version x, w_id x, w_profile_id x, w_session_id x, w_trigger x, w_wake_id x, w_action_id x,
                        w_reply_route x, w_state x, w_expires_at x, w_fired_by x, w_created_at x, w_updated_at x,
                        w_safe_error x))
    (fun t => let '(a, b, c, d, e, f, g, h, i, j, k, l, m, n) := t in Some (MkWaiting a b c d e f g h i j k l m n)) _.
Next Obligation. by intros []. Qed.

Definition resumable (x : WaitingItem) : bool := canonicalb (as_entity_id (w_action_id x)).

#[export] Instance waiting_document : Document WaitingItem := serial_document resumable.

Lemma waiting_document_codec : waiting_codec.
Proof.
  split; [apply serial_document_lawful|]. intros v x Hx%serial_document_valid. by apply canonicalb_sound.
Qed.

(** ** A run *)

Definition error_text (e : ActionStoreError repo_error) : rstr := str "inbox".
Definition lower (s : rstr) : rstr := s.

Abbreviation run := (wait_run default_inbox_config error_text nth_id lower).

Definition await_user : NewWaitingItem :=
  MkNewWaiting (MkTypedId (named_id 1)) sample_session (TriggerUserResponse sample_session) None (Some (moment 1000)).
Definition user_answers : WakeEvent := MkWakeEvent (named_id 40) (moment 20) (EventUserResponse sample_session).

Definition wait_ops : list (wait_op * UtcTimestamp) :=
  [(WRegister await_user, moment 10); (WSignal user_answers, moment 20); (WRecover, moment 30);
   (WInbox (ISelect sample_session idle), moment 40); (WExpireDue, moment 2000)].

Lemma wait_ops_typed : Forall wait_typed wait_ops.
Proof.
  repeat (apply Forall_cons; split; [split; [apply moment_i64; simpl; lia|simpl]|]); try apply Forall_nil; try done.
Qed.

Definition wait_states (w : SampleWorld) : list WaitingState :=
  match (Waiting.list_session sample_session w).1 with Ok xs => w_state <$> xs | Err _ => [] end.

Definition action_states (w : SampleWorld) : list ActionState :=
  match (ActionStore.list_session sample_session w).1 with Ok xs => a_state <$> xs | Err _ => [] end.

Lemma fresh_linked : linked lower ∅.
Proof. intros x Hx. destruct (empty_holds _ _ _ _ _ x Hx). Qed.

(** ** Instances *)

Lemma waiting_lifecycle_witness :
  wait_states (run wait_ops fresh_world) = [Resumed]
  /\ exists recs', sees (shared_waits lower) (run wait_ops fresh_world) recs'
    /\ all_items (waits lower) waiting_ok recs'.
Proof.
  split; [vm_compute; reflexivity|].
  destruct (waiting_lifecycle default_inbox_config error_text nth_id lower action_document_codec waiting_document_codec
    nth_id_canonical wait_ops fresh_world ∅ (fresh_sees _) wait_ops_typed (empty_all_items _ _)) as (recs' & Hs & Hok & _).
  exists recs'. exact (conj Hs Hok).
Defined.

Lemma resumed_delivered_witness :
  action_states (run wait_ops fresh_world) = [AAdmitted]
  /\ exists recs', sees (shared_waits lower) (run wait_ops fresh_world) recs' /\ linked lower recs'.
Proof.
  split; [vm_compute; reflexivity|].
  exact (resumed_delivered default_inbox_config error_text nth_id lower action_document_codec waiting_document_codec
    nth_id_canonical wait_ops fresh_world ∅ (fresh_sees _) wait_ops_typed fresh_linked).
Defined.

(** The process stopped after it marked the wait and before it queued the action. *)
Definition stopped_wait : WaitingItem :=
  MkWaiting CURRENT_SCHEMA_VERSION (named_id 50) (MkTypedId (named_id 1)) sample_session
    (TriggerUserResponse sample_session) (named_id 51) (MkTypedId (named_id 52)) None Fired None
    (Some (named_id 40)) (moment 10) (moment 20) None.
Definition stopped_record : VersionedRecord :=
  MkVersionedRecord CURRENT_SCHEMA_VERSION (w_id stopped_wait) Revision_ZERO (moment 20) (Str (ser stopped_wait)).
Definition stopped_world : SampleWorld := world_with WaitingConditions stopped_record.

Lemma stopped_encoded : wait_record stopped_wait Revision_ZERO = Ok stopped_record.
Proof.
  assert (resumable stopped_wait = true) as Hr by (vm_compute; reflexivity).
  unfold wait_record. cbn [to_value waiting_document serial_document]. by rewrite Hr.
Qed.

Lemma stopped_sees G : exists recs, sees G stopped_world recs /\ linked lower recs.
Proof.
  destruct (encode_wait _ _ _ (proj1 waiting_document_codec) stopped_encoded) as (Hwf & _ & _ & Hdec);
    [apply named_id_canonical; lia|done|done|apply moment_i64; lia|].
  eexists. split; [apply world_with_sees; [exact Hwf|done|vm_compute; reflexivity]|].
  intros x [[Hx _]|[Hx _]]%holds_insert Hres; [|by destruct (empty_holds _ _ _ _ _ x Hx)].
  rewrite Hdec in Hx. injection Hx as <-. discriminate Hres.
Qed.

Definition recovered := recover (HW := sink default_inbox_config error_text) (moment 30) stopped_world.

Lemma recover_settles_witness :
  wait_states stopped_world = [Fired] /\ wait_states recovered.2 = [Resumed] /\ action_states recovered.2 = [AQueued]
  /\ exists recs', sees (silent_waits lower) recovered.2 recs'
    /\ forall x, holds WaitingConditions decode_wait w_id waiting_init (waiting_step lower) recs' x -> ~ interrupted x.
Proof.
  do 3 (split; [vm_compute; reflexivity|]).
  destruct (stopped_sees (silent_waits lower)) as (recs & Hs & Hl).
  destruct (ok_pair recovered) as [ys Hr]; [vm_compute; reflexivity|].
  destruct (recover_settles default_inbox_config error_text lower action_document_codec waiting_document_codec
    (moment 30) stopped_world recs ys recovered.2 Hs ltac:(apply moment_i64; lia) Hl Hr) as (recs' & Hs' & _ & Hno).
  exists recs'. exact (conj Hs' Hno).
Defined.
