(* ===== verification/Goals.v ===== *)
(** * Goals: [crates/goals/src/model.rs] and [crates/goals/src/service.rs]

    Objectives that a session pursues on its own, under limits on what they use.
    A goal is a durable record behind the service's mutex; work on it continues
    through actions in the inbox of [ActionStore], and a goal that ends cancels
    the ones still queued.  The repository is the interface of [StateStoreCore];
    the derived codecs and the identifiers [EntityId::new] draws are parameters. *)

From Stdlib Require Import ZArith Lia String.
From stdpp Require Import base decidable countable relations gmap sorting option list.
From S2P Require Import Prelude RustStd AgentTypes Json StateStoreCore ItemStore ActionStore.

(** ** Data *)

Inductive GoalState :=
| GDraft | GReady | GRunning | GWaiting | GReviewing | GPaused | GBlocked | GComplete | GFailed | GCancelled.

#[export] Instance GoalState_eq_dec : EqDecision GoalState.
Proof. solve_decision. Defined.

Definition goal_is_terminal (s : GoalState) : bool :=
  match s with GComplete | GFailed | GCancelled => true | _ => false end.

Definition goal_allows (self next : GoalState) : bool :=
  match self with
  | GDraft => match next with GReady | GCancelled => true | _ => false end
  | GReady => match next with GRunning | GPaused | GCancelled => true | _ => false end
  | GRunning =>
      match next with
      | GWaiting | GReviewing | GPaused | GBlocked | GComplete | GFailed | GCancelled => true
      | _ => false
      end
  | GWaiting => match next with GRunning | GPaused | GBlocked | GFailed | GCancelled => true | _ => false end
  | GReviewing =>
      match next with
      | GRunning | GPaused | GBlocked | GComplete | GFailed | GCancelled => true
      | _ => false
      end
  | GPaused => match next with GReady | GRunning | GWaiting | GReviewing | GCancelled => true | _ => false end
  | GBlocked => match next with GRunning | GPaused | GFailed | GCancelled => true | _ => false end
  | GComplete | GFailed | GCancelled => false
  end.

Record GoalLimits := MkGoalLimits {
  gl_turns : Z;
  gl_tokens : Z;
  gl_elapsed_ms : Z;
  gl_reviews : Z;
  gl_children : Z;
  gl_retries : Z;
  gl_processes : Z;
  gl_storage_bytes : Z;
  gl_cost_microunits : Z
}.

Definition default_goal_limits : GoalLimits :=
  MkGoalLimits 100 1000000 (24 * 60 * 60 * 1000) 20 16 20 64 (1024 * 1024 * 1024) 100000000.

Record GoalUsage := MkGoalUsage {
  gu_turns : Z;
  gu_tokens : Z;
  gu_elapsed_ms : Z;
  gu_reviews : Z;
  gu_children : Z;
  gu_retries : Z;
  gu_processes : Z;
  gu_storage_bytes : Z;
  gu_cost_microunits : Z
}.

Definition default_goal_usage : GoalUsage := MkGoalUsage 0 0 0 0 0 0 0 0 0.

Record GoalUsageDelta := MkGoalDelta {
  gd_turns : Z;
  gd_tokens : Z;
  gd_reviews : Z;
  gd_children : Z;
  gd_retries : Z;
  gd_processes : Z;
  gd_storage_bytes : Z;
  gd_cost_microunits : Z
}.

Inductive GoalLimitKind :=
| LimitTurns | LimitTokens | LimitElapsedTime | LimitReviews | LimitChildren | LimitRetries | LimitProcesses
| LimitStorage | LimitCost.

Inductive GoalStopReason := LimitReached (limit : GoalLimitKind) | UserBlocked (summary : rstr).

Record GoalTerminalSummary := MkGoalSummary {
  gs_state : GoalState;
  gs_summary : rstr;
  gs_finished_at : UtcTimestamp;
  gs_final_usage : GoalUsage
}.

Record Goal := MkGoal {
  g_id : GoalId;
  g_session_id : SessionId;
  g_objective : rstr;
  g_state : GoalState;
  g_limits : GoalLimits;
  g_usage : GoalUsage;
  g_plan_id : option EntityId;
  g_waiting_condition_id : option EntityId;
  g_created_at : UtcTimestamp;
  g_updated_at : UtcTimestamp;
  g_started_at : option UtcTimestamp;
  g_terminal_summary : option GoalTerminalSummary;
  g_last_stop : option GoalStopReason;
  g_archived_at : option UtcTimestamp;
  g_revision : Revision;
  g_resume_state : option GoalState
}.

Inductive LinkUpdate := LinkKeep | LinkSet (id : EntityId) | LinkClear.

Record GoalEdit := MkGoalEdit {
  ge_objective : option rstr;
  ge_limits : option GoalLimits;
  ge_plan : LinkUpdate;
  ge_waiting_condition : LinkUpdate
}.

Record GoalProjection := MkGoalProjection {
  gp_id : GoalId;
  gp_session_id : SessionId;
  gp_objective : rstr;
  gp_state : GoalState;
  gp_limits : GoalLimits;
  gp_usage : GoalUsage;
  gp_plan_id : option EntityId;
  gp_waiting_condition_id : option EntityId;
  gp_terminal_summary : option GoalTerminalSummary;
  gp_last_stop : option GoalStopReason;
  gp_archived : bool;
  gp_updated_at : UtcTimestamp
}.

Definition goal_projection (g : Goal) : GoalProjection :=
  MkGoalProjection (g_id g) (g_session_id g) (g_objective g) (g_state g) (g_limits g) (g_usage g) (g_plan_id g)
    (g_waiting_condition_id g) (g_terminal_summary g) (g_last_stop g) (match g_archived_at g with Some _ => true | None => false end) (g_updated_at g).

Inductive GoalError (E : Type) :=
| GeRepository (error : E)
| GeAction (error : ActionStoreError E)
| GeNotFound (id : GoalId)
| GeCorrupt (reason : ItemCorrupt)
| GeInvalid (message : rstr)
| GeIllegalTransition (from to : GoalState)
| GeArchived
| GeNotActive
| GeBudgetExceeded (limit : GoalLimitKind)
| GeRevisionOverflow
| GeLockPoisoned.
Global Arguments GeRepository {E}.
Global Arguments GeAction {E}.
Global Arguments GeNotFound {E}.
Global Arguments GeCorrupt {E}.
Global Arguments GeInvalid {E}.
Global Arguments GeIllegalTransition {E}.
Global Arguments GeArchived {E}.
Global Arguments GeNotActive {E}.
Global Arguments GeBudgetExceeded {E}.
Global Arguments GeRevisionOverflow {E}.
Global Arguments GeLockPoisoned {E}.

(** Assignments to the fields of a goal. *)
Definition set_objective (v : rstr) (g : Goal) : Goal :=
  MkGoal (g_id g) (g_session_id g) v (g_state g) (g_limits g) (g_usage g) (g_plan_id g)
    (g_waiting_condition_id g) (g_created_at g) (g_updated_at g) (g_started_at g) (g_terminal_summary g)
    (g_last_stop g) (g_archived_at g) (g_revision g) (g_resume_state g).
Definition set_goal_state (v : GoalState) (g : Goal) : Goal :=
  MkGoal (g_id g) (g_session_id g) (g_objective g) v (g_limits g) (g_usage g) (g_plan_id g)
    (g_waiting_condition_id g) (g_created_at g) (g_updated_at g) (g_started_at g) (g_terminal_summary g)
    (g_last_stop g) (g_archived_at g) (g_revision g) (g_resume_state g).
Definition set_limits (v : GoalLimits) (g : Goal) : Goal :=
  MkGoal (g_id g) (g_session_id g) (g_objective g) (g_state g) v (g_usage g) (g_plan_id g)
    (g_waiting_condition_id g) (g_created_at g) (g_updated_at g) (g_started_at g) (g_terminal_summary g)
    (g_last_stop g) (g_archived_at g) (g_revision g) (g_resume_state g).
Definition set_usage (v : GoalUsage) (g : Goal) : Goal :=
  MkGoal (g_id g) (g_session_id g) (g_objective g) (g_state g) (g_limits g) v (g_plan_id g)
    (g_waiting_condition_id g) (g_created_at g) (g_updated_at g) (g_started_at g) (g_terminal_summary g)
    (g_last_stop g) (g_archived_at g) (g_revision g) (g_resume_state g).
Definition set_plan (v : option EntityId) (g : Goal) : Goal :=
  MkGoal (g_id g) (g_session_id g) (g_objective g) (g_state g) (g_limits g) (g_usage g) v
    (g_waiting_condition_id g) (g_created_at g) (g_updated_at g) (g_started_at g) (g_terminal_summary g)
    (g_last_stop g) (g_archived_at g) (g_revision g) (g_resume_state g).
Definition set_waiting_condition (v : option EntityId) (g : Goal) : Goal :=
  MkGoal (g_id g) (g_session_id g) (g_objective g) (g_state g) (g_limits g) (g_usage g) (g_plan_id g) v
    (g_created_at g) (g_updated_at g) (g_started_at g) (g_terminal_summary g) (g_last_stop g)
    (g_archived_at g) (g_revision g) (g_resume_state g).
Definition set_started (v : option UtcTimestamp) (g : Goal) : Goal :=
  MkGoal (g_id g) (g_session_id g) (g_objective g) (g_state g) (g_limits g) (g_usage g) (g_plan_id g)
    (g_waiting_condition_id g) (g_created_at g) (g_updated_at g) v (g_terminal_summary g) (g_last_stop g)
    (g_archived_at g) (g_revision g) (g_resume_state g).
Definition set_summary (v : option GoalTerminalSummary) (g : Goal) : Goal :=
  MkGoal (g_id g) (g_session_id g) (g_objective g) (g_state g) (g_limits g) (g_usage g) (g_plan_id g)
    (g_waiting_condition_id g) (g_created_at g) (g_updated_at g) (g_started_at g) v (g_last_stop g)
    (g_archived_at g) (g_revision g) (g_resume_state g).
Definition set_last_stop (v : option GoalStopReason) (g : Goal) : Goal :=
  MkGoal (g_id g) (g_session_id g) (g_objective g) (g_state g) (g_limits g) (g_usage g) (g_plan_id g)
    (g_waiting_condition_id g) (g_created_at g) (g_updated_at g) (g_started_at g) (g_terminal_summary g) v
    (g_archived_at g) (g_revision g) (g_resume_state g).
Definition set_archived (v : option UtcTimestamp) (g : Goal) : Goal :=
  MkGoal (g_id g) (g_session_id g) (g_objective g) (g_state g) (g_limits g) (g_usage g) (g_plan_id g)
    (g_waiting_condition_id g) (g_created_at g) (g_updated_at g) (g_started_at g) (g_terminal_summary g)
    (g_last_stop g) v (g_revision g) (g_resume_state g).
Definition set_resume (v : option GoalState) (g : Goal) : Goal :=
  MkGoal (g_id g) (g_session_id g) (g_objective g) (g_state g) (g_limits g) (g_usage g) (g_plan_id g)
    (g_waiting_condition_id g) (g_created_at g) (g_updated_at g) (g_started_at g) (g_terminal_summary g)
    (g_last_stop g) (g_archived_at g) (g_revision g) v.
Definition goal_stamped (revision : Revision) (now : UtcTimestamp) (g : Goal) : Goal :=
  MkGoal (g_id g) (g_session_id g) (g_objective g) (g_state g) (g_limits g) (g_usage g) (g_plan_id g)
    (g_waiting_condition_id g) (g_created_at g) now (g_started_at g) (g_terminal_summary g) (g_last_stop g)
    (g_archived_at g) revision (g_resume_state g).

(** ** Limits *)

Definition limits_valid (l : GoalLimits) : bool :=
  negb ((gl_turns l =? 0) || (gl_tokens l =? 0) || (gl_elapsed_ms l =? 0) || (gl_reviews l =? 0)
        || (gl_children l =? 0) || (gl_retries l =? 0) || (gl_processes l =? 0) || (gl_storage_bytes l =? 0)
        || (gl_cost_microunits l =? 0))%Z.

Definition limits_validate {E} (l : GoalLimits) : result (GoalError E) unit :=
  reject_if (negb (limits_valid l)) (GeInvalid (str "every autonomous goal limit must be non-zero")).

Definition usage_limit_pairs (u : GoalUsage) (l : GoalLimits) : list (GoalLimitKind * Z * Z) :=
  [(LimitTurns, gu_turns u, gl_turns l);
   (LimitTokens, gu_tokens u, gl_tokens l);
   (LimitElapsedTime, gu_elapsed_ms u, gl_elapsed_ms l);
   (LimitReviews, gu_reviews u, gl_reviews l);
   (LimitChildren, gu_children u, gl_children l);
   (LimitRetries, gu_retries u, gl_retries l);
   (LimitProcesses, gu_processes u, gl_processes l);
   (LimitStorage, gu_storage_bytes u, gl_storage_bytes l);
   (LimitCost, gu_cost_microunits u, gl_cost_microunits l)].

Definition ensure_usage_within {E} (u : GoalUsage) (l : GoalLimits) : result (GoalError E) unit :=
  match List.find (fun '(_, used, limit) => limit <? used)%Z (usage_limit_pairs u l) with
  | Some (kind, _, _) => Err (GeBudgetExceeded kind)
  | None => Ok tt
  end.

Definition reached_limit (u : GoalUsage) (l : GoalLimits) : option GoalLimitKind :=
  match List.find (fun '(_, used, limit) => limit <=? used)%Z (usage_limit_pairs u l) with
  | Some (kind, _, _) => Some kind
  | None => None
  end.

Definition elapsed_ms (started_at : option UtcTimestamp) (now : UtcTimestamp) : Z :=
  match started_at with
  | Some started => default 0%Z (u64_try_from (i64_saturating_sub (unix_millis now) (unix_millis started)))
  | None => 0
  end.

Definition bounded_usage (u : GoalUsage) (d : GoalUsageDelta) (l : GoalLimits) (now : UtcTimestamp)
    (started_at : option UtcTimestamp) : GoalUsage :=
  MkGoalUsage
    (Z.min (u32_saturating_add (gu_turns u) (gd_turns d)) (gl_turns l))
    (Z.min (u64_saturating_add (gu_tokens u) (gd_tokens d)) (gl_tokens l))
    (Z.min (Z.max (gu_elapsed_ms u) (elapsed_ms started_at now)) (gl_elapsed_ms l))
    (Z.min (u32_saturating_add (gu_reviews u) (gd_reviews d)) (gl_reviews l))
    (Z.min (u32_saturating_add (gu_children u) (gd_children d)) (gl_children l))
    (Z.min (u32_saturating_add (gu_retries u) (gd_retries d)) (gl_retries l))
    (Z.min (u32_saturating_add (gu_processes u) (gd_processes d)) (gl_processes l))
    (Z.min (u64_saturating_add (gu_storage_bytes u) (gd_storage_bytes d)) (gl_storage_bytes l))
    (Z.min (u64_saturating_add (gu_cost_microunits u) (gd_cost_microunits d)) (gl_cost_microunits l)).

Definition refresh_elapsed (g : Goal) (now : UtcTimestamp) : Goal :=
  let u := g_usage g in
  set_usage (MkGoalUsage (gu_turns u) (gu_tokens u)
    (Z.min (Z.max (gu_elapsed_ms u) (elapsed_ms (g_started_at g) now)) (gl_elapsed_ms (g_limits g)))
    (gu_reviews u) (gu_children u) (gu_retries u) (gu_processes u) (gu_storage_bytes u) (gu_cost_microunits u)) g.

Definition elapsed_deadline (started_at : option UtcTimestamp) (max_elapsed_ms : Z) : option UtcTimestamp :=
  started ← started_at;
  duration ← i64_try_from max_elapsed_ms;
  Some (MkUtcTimestamp (i64_saturating_add (unix_millis started) duration)).

Definition goal_action_limits (l : GoalLimits) (u : GoalUsage) : ActionLimits :=
  MkActionLimits
    (Some (u32_saturating_sub (gl_turns l) (gu_turns u)))
    (Some (u64_saturating_sub (gl_tokens l) (gu_tokens u)))
    (Some (u64_saturating_sub (gl_elapsed_ms l) (gu_elapsed_ms u)))
    (Some (u32_saturating_sub (gl_processes l) (gu_processes u)))
    (Some (default u16_max (u16_try_from (u32_saturating_sub (gl_children l) (gu_children u))))).

(** ** Checks and changes *)

Definition validate_objective {E} (objective : rstr) : result (GoalError E) unit :=
  reject_if (str_blank objective) (GeInvalid (str "goal objective cannot be empty")).

Definition ensure_not_archived {E} (g : Goal) : result (GoalError E) unit :=
  match g_archived_at g with Some _ => Err GeArchived | None => Ok tt end.

Definition apply_link (target : option EntityId) (update : LinkUpdate) : option EntityId :=
  match update with LinkKeep => target | LinkSet id => Some id | LinkClear => None end.

Definition is_none {A} (o : option A) : bool := match o with None => true | Some _ => false end.

Definition edited_limits {E} (g : Goal) (limits : GoalLimits) : result (GoalError E) Goal :=
  limits_validate limits ;;
  ensure_usage_within (g_usage g) limits ;;
  let lifted := bool_decide (g_state g = GBlocked)
                && (match g_last_stop g with Some (LimitReached _) => true | _ => false end)
                && is_none (reached_limit (g_usage g) limits) in
  Ok (set_last_stop (if lifted then None else g_last_stop g) (set_limits limits g)).

(** [edit], between reading the goal and persisting it. *)
Definition edited_goal {E} (g : Goal) (edit : GoalEdit) : result (GoalError E) Goal :=
  ensure_not_archived g ;;
  reject_if (negb (bool_decide (g_state g = GDraft \/ g_state g = GReady \/ g_state g = GPaused
                                \/ g_state g = GBlocked))) GeNotActive ;;
  g ← match ge_objective edit with
      | Some objective => validate_objective objective ;; Ok (set_objective objective g)
      | None => Ok g
      end;
  g ← match ge_limits edit with Some limits => edited_limits g limits | None => Ok g end;
  Ok (set_waiting_condition (apply_link (g_waiting_condition_id g) (ge_waiting_condition edit))
        (set_plan (apply_link (g_plan_id g) (ge_plan edit)) g)).

(** [if next == Running && started_at.is_none() { started_at = Some(now) }]. *)
Definition started_if_running (next : GoalState) (now : UtcTimestamp) (g : Goal) : Goal :=
  if bool_decide (next = GRunning) && is_none (g_started_at g) then set_started (Some now) g else g.

Definition transitioned_goal {E} (g : Goal) (next : GoalState) (summary : option rstr) (now : UtcTimestamp)
  : result (GoalError E) Goal :=
  reject_if (negb (goal_allows (g_state g) next)) (GeIllegalTransition (g_state g) next) ;;
  reject_if (bool_decide (next = GWaiting) && is_none (g_waiting_condition_id g))
    (GeInvalid (str "waiting goals require a waiting-condition link")) ;;
  g ← (if goal_is_terminal next then
         summary ← ok_or summary (GeInvalid (str "terminal goals require a completion/failure summary"));
         reject_if (str_blank summary) (GeInvalid (str "terminal goal summary cannot be empty")) ;;
         Ok (set_summary (Some (MkGoalSummary next summary now (g_usage g))) g)
       else
         reject_if (negb (is_none summary)) (GeInvalid (str "summaries are reserved for terminal transitions")) ;;
         Ok g);
  Ok (started_if_running next now (set_resume None (set_last_stop None (set_goal_state next g)))).

Definition paused_goal {E} (g : Goal) : result (GoalError E) Goal :=
  ensure_not_archived g ;;
  reject_if (negb (goal_allows (g_state g) GPaused)) (GeIllegalTransition (g_state g) GPaused) ;;
  resume ← match g_state g with
           | GReady => Ok GReady
           | GWaiting => Ok GWaiting
           | GReviewing => Ok GReviewing
           | GRunning | GBlocked => Ok GRunning
           | _ => Err GeNotActive
           end;
  Ok (set_goal_state GPaused (set_resume (Some resume) g)).

Definition resumed_goal {E} (g : Goal) (now : UtcTimestamp) : result (GoalError E) Goal :=
  ensure_not_archived g ;;
  match reached_limit (g_usage g) (g_limits g) with
  | Some limit => Err (GeBudgetExceeded limit)
  | None => Ok tt
  end ;;
  '(next, g) ← match g_state g with
               | GPaused => Ok (default GReady (g_resume_state g), set_resume None g)
               | GBlocked => Ok (GRunning, g)
               | state => Err (GeIllegalTransition state GRunning)
               end;
  reject_if (bool_decide (next = GWaiting) && is_none (g_waiting_condition_id g))
    (GeInvalid (str "waiting goals require a waiting-condition link")) ;;
  Ok (started_if_running next now (set_last_stop None (set_goal_state next g))).

(** The goal at its first reached limit. *)
Definition blocked_at (limit : GoalLimitKind) (g : Goal) : Goal :=
  set_last_stop (Some (LimitReached limit)) (set_goal_state GBlocked g).

Definition charged_goal {E} (g : Goal) (delta : GoalUsageDelta) (now : UtcTimestamp) : result (GoalError E) Goal :=
  ensure_not_archived g ;;
  reject_if (negb (bool_decide (g_state g = GRunning \/ g_state g = GWaiting \/ g_state g = GReviewing)))
    GeNotActive ;;
  let usage := bounded_usage (g_usage g) delta (g_limits g) now (g_started_at g) in
  let g := set_usage usage g in
  Ok (match reached_limit usage (g_limits g) with Some limit => blocked_at limit g | None => g end).

Definition user_blocked_goal {E} (g : Goal) (summary : rstr) : result (GoalError E) Goal :=
  ensure_not_archived g ;;
  reject_if (negb (goal_allows (g_state g) GBlocked)) (GeIllegalTransition (g_state g) GBlocked) ;;
  Ok (set_last_stop (Some (UserBlocked summary)) (set_goal_state GBlocked g)).

Definition archived_goal {E} (g : Goal) (now : UtcTimestamp) : result (GoalError E) Goal :=
  ensure_not_archived g ;;
  reject_if (negb (goal_is_terminal (g_state g))) GeNotActive ;;
  Ok (set_archived (Some now) g).

Definition new_goal (id : GoalId) (session : SessionId) (objective : rstr) (limits : GoalLimits)
    (now : UtcTimestamp) : Goal :=
  MkGoal id session objective GDraft limits default_goal_usage None None now now None None None None
    Revision_ZERO None.

(** The action that goes on with a goal. *)
Definition continuation_of (id : GoalId) (x : ActionRecord) : bool :=
  negb (action_is_terminal (a_state x))
  && match act_payload (a_action x) with PayContinueGoal goal_id => bool_decide (goal_id = id) | _ => false end.

Definition continuation (id : ActionId) (g : Goal) (goal_id : GoalId) (now : UtcTimestamp) : SessionAction :=
  MkAction id (g_session_id g) (FromAutonomousContinuation goal_id) WhenIdle PriorityBackground now None
    (elapsed_deadline (g_started_at g) (gl_elapsed_ms (g_limits g)))
    (goal_action_limits (g_limits g) (g_usage g)) None (PayContinueGoal goal_id).

(** ** The service *)

Section service.
Context {S : Type} `{HR : Repository S, HA : Document ActionRecord, HD : Document Goal}.
Context (new_id : nat -> EntityId) (inbox : ActionInboxConfig).

Abbreviation Error := (GoalError repo_error).
Abbreviation goal_m := (stateT (World S) Error).
Abbreviation StoredGoal := (Stored Goal).

Definition encode (g : Goal) : result Error VersionedRecord :=
  payload ← map_err (fun e => GeCorrupt (CorruptDocument e)) (to_value g);
  Ok (MkVersionedRecord CURRENT_SCHEMA_VERSION (as_entity_id (g_id g)) (g_revision g) (g_updated_at g) payload).

Definition decode (r : VersionedRecord) : result Error StoredGoal :=
  g ← map_err (fun e => GeCorrupt (CorruptDocument e)) (from_value (rec_payload r));
  reject_if (negb (sv_major (rec_version r) =? sv_major CURRENT_SCHEMA_VERSION)%Z
             || (sv_minor CURRENT_SCHEMA_VERSION <? sv_minor (rec_version r))%Z
             || negb (bool_decide (as_entity_id (g_id g) = rec_id r))
             || negb (bool_decide (g_revision g = rec_revision r)))%bool
    (GeCorrupt CorruptEnvelope) ;;
  Ok (MkStored g (rec_revision r)).

Definition lock : goal_m unit := lock_serial Goals GeLockPoisoned.

Definition load (id : GoalId) : goal_m (option StoredGoal) :=
  load_item Goals GeRepository decode (as_entity_id id).

Definition load_all : goal_m (list StoredGoal) := load_items Goals GeRepository decode.

Definition required (id : GoalId) : goal_m StoredGoal :=
  found ← load id;
  lift (ok_or found (GeNotFound id)).

Definition persist (stored : StoredGoal) (now : UtcTimestamp) : goal_m StoredGoal :=
  revision ← lift (ok_or (checked_next (storage_revision stored)) GeRevisionOverflow);
  let g := goal_stamped revision now (item stored) in
  r ← lift (encode g);
  map_err_m GeRepository (call_put Goals r (PreExact (storage_revision stored))) ;;
  mret (MkStored g revision).

Definition create (session : SessionId) (objective : rstr) (limits : GoalLimits) (now : UtcTimestamp) : goal_m Goal :=
  lift (limits_validate limits) ;;
  lift (validate_objective objective) ;;
  lock ;;
  id ← draw_id new_id;
  let g := new_goal (MkTypedId id) session objective limits now in
  r ← lift (encode g);
  map_err_m GeRepository (call_put Goals r PreMissing) ;;
  mret g.

Definition get (id : GoalId) : goal_m (option Goal) :=
  lock ;;
  found ← load id;
  mret (item <$> found).

Definition list_session (session : SessionId) : goal_m (list Goal) :=
  lock ;;
  goals ← load_all;
  mret (sort_by (fun x y => rcmp (g_created_at x, g_id x) (g_created_at y, g_id y))
          (List.filter (fun g => bool_decide (g_session_id g = session) && is_none (g_archived_at g))
             (item <$> goals))).

Definition projection (id : GoalId) : goal_m GoalProjection :=
  lock ;;
  stored ← required id;
  mret (goal_projection (item stored)).

(** Read, change and persist one goal. *)
Definition modify_goal (id : GoalId) (change : Goal -> result Error Goal) (now : UtcTimestamp) : goal_m Goal :=
  lock ;;
  stored ← required id;
  g ← lift (change (item stored));
  stored ← persist (MkStored g (storage_revision stored)) now;
  mret (item stored).

Definition edit (id : GoalId) (e : GoalEdit) (now : UtcTimestamp) : goal_m Goal :=
  modify_goal id (fun g => edited_goal g e) now.

Definition pause (id : GoalId) (now : UtcTimestamp) : goal_m Goal := modify_goal id paused_goal now.

Definition resume (id : GoalId) (now : UtcTimestamp) : goal_m Goal := modify_goal id (fun g => resumed_goal g now) now.

Definition record_usage (id : GoalId) (delta : GoalUsageDelta) (now : UtcTimestamp) : goal_m Goal :=
  modify_goal id (fun g => charged_goal g delta now) now.

Definition block (id : GoalId) (summary : rstr) (now : UtcTimestamp) : goal_m Goal :=
  lift (reject_if (str_blank summary) (GeInvalid (str "blocked summary cannot be empty"))) ;;
  modify_goal id (fun g => user_blocked_goal g summary) now.

Definition archive (id : GoalId) (now : UtcTimestamp) : goal_m Goal := modify_goal id (fun g => archived_goal g now) now.

Definition cancel_continuations (g : Goal) (now : UtcTimestamp) : goal_m unit :=
  records ← map_err_m GeAction (ActionStore.list_session (g_session_id g));
  map_m (fun x =>
           if continuation_of (g_id g) x
           then map_err_m GeAction (ActionStore.cancel (act_id (a_action x)) now (str "owning goal became terminal")) ;;
                mret tt
           else mret tt) records ;;
  mret tt.

Definition transition_stored (stored : StoredGoal) (next : GoalState) (summary : option rstr) (now : UtcTimestamp)
  : goal_m StoredGoal :=
  g ← lift (transitioned_goal (item stored) next summary now);
  persist (MkStored g (storage_revision stored)) now.

Definition transition (id : GoalId) (next : GoalState) (summary : option rstr) (now : UtcTimestamp) : goal_m Goal :=
  lock ;;
  stored ← required id;
  lift (ensure_not_archived (item stored)) ;;
  (if goal_is_terminal next then cancel_continuations (item stored) now else mret tt) ;;
  stored ← transition_stored stored next summary now;
  mret (item stored).

Definition cancel (id : GoalId) (summary : rstr) (now : UtcTimestamp) : goal_m Goal :=
  transition id GCancelled (Some summary) now.

Definition enqueue_continuation (id : GoalId) (now : UtcTimestamp) : goal_m ActionRecord :=
  lock ;;
  stored ← required id;
  lift (ensure_not_archived (item stored)) ;;
  lift (reject_if (negb (bool_decide (g_state (item stored) = GRunning))) GeNotActive) ;;
  let g := refresh_elapsed (item stored) now in
  match reached_limit (g_usage g) (g_limits g) with
  | Some limit =>
      persist (MkStored (blocked_at limit g) (storage_revision stored)) now ;;
      throw (GeBudgetExceeded limit)
  | None =>
      records ← map_err_m GeAction (ActionStore.list_session (g_session_id g));
      match List.find (continuation_of id) records with
      | Some existing => mret existing
      | None =>
          action_id ← draw_id new_id;
          map_err_m GeAction (submit inbox (continuation (MkTypedId action_id) g id now) now)
      end
  end.
End service.
