(* ===== verification/GoalMachine.v ===== *)
(** * The life of a goal

    What may happen to one goal record, as a step relation over the changes of
    [Goals]; the invariant of its states and its budget; and the operations of
    the service against a contract on the records. *)

From Stdlib Require Import ZArith Lia String.
From stdpp Require Import base decidable countable relations gmap sorting option list.
From S2P Require Import Prelude RustStd AgentTypes Json StateStoreCore ItemStore ActionStore ActionMachine Goals.

Definition goal_key (g : Goal) : EntityId := as_entity_id (g_id g).

(** ** Widths *)

Definition limits_typed (l : GoalLimits) : Prop :=
  is_u32 (gl_turns l) /\ is_u64 (gl_tokens l) /\ is_u64 (gl_elapsed_ms l) /\ is_u32 (gl_reviews l)
  /\ is_u32 (gl_children l) /\ is_u32 (gl_retries l) /\ is_u32 (gl_processes l) /\ is_u64 (gl_storage_bytes l)
  /\ is_u64 (gl_cost_microunits l).

Definition delta_typed (d : GoalUsageDelta) : Prop :=
  is_u32 (gd_turns d) /\ is_u64 (gd_tokens d) /\ is_u32 (gd_reviews d) /\ is_u32 (gd_children d)
  /\ is_u32 (gd_retries d) /\ is_u32 (gd_processes d) /\ is_u64 (gd_storage_bytes d) /\ is_u64 (gd_cost_microunits d).

Definition edit_typed (e : GoalEdit) : Prop := match ge_limits e with Some l => limits_typed l | None => True end.

(** ** Budgets *)

(** Every resource is used within its limit. *)
Definition within_budget (u : GoalUsage) (l : GoalLimits) : Prop :=
  (0 <= gu_turns u <= gl_turns l /\ 0 <= gu_tokens u <= gl_tokens l /\ 0 <= gu_elapsed_ms u <= gl_elapsed_ms l
   /\ 0 <= gu_reviews u <= gl_reviews l /\ 0 <= gu_children u <= gl_children l /\ 0 <= gu_retries u <= gl_retries l
   /\ 0 <= gu_processes u <= gl_processes l /\ 0 <= gu_storage_bytes u <= gl_storage_bytes l
   /\ 0 <= gu_cost_microunits u <= gl_cost_microunits l)%Z.

Definition usage_le (u v : GoalUsage) : Prop :=
  (gu_turns u <= gu_turns v /\ gu_tokens u <= gu_tokens v /\ gu_elapsed_ms u <= gu_elapsed_ms v
   /\ gu_reviews u <= gu_reviews v /\ gu_children u <= gu_children v /\ gu_retries u <= gu_retries v
   /\ gu_processes u <= gu_processes v /\ gu_storage_bytes u <= gu_storage_bytes v
   /\ gu_cost_microunits u <= gu_cost_microunits v)%Z.

#[export] Instance usage_le_preorder : PreOrder usage_le.
Proof. split; [intros u|intros u v w]; unfold usage_le; intros; destruct_and?; split_and!; lia. Qed.

Lemma elapsed_nonneg started now : (0 <= elapsed_ms started now)%Z.
Proof.
  unfold elapsed_ms, u64_try_from. destruct started; [|done].
  destruct (_ && _)%bool eqn:E; simpl; [|done]. apply andb_true_iff in E as [E _]. lia.
Qed.

Lemma bounded_usage_within u d l now started :
  within_budget u l -> limits_typed l -> delta_typed d ->
  within_budget (bounded_usage u d l now started) l /\ usage_le u (bounded_usage u d l now started).
Proof.
  pose proof (elapsed_nonneg started now).
  unfold within_budget, limits_typed, delta_typed, usage_le, is_u32, is_u64, bounded_usage, u32_saturating_add,
    u64_saturating_add. simpl. intros. destruct_and!. split_and!; lia.
Qed.

Lemma refresh_elapsed_within g now :
  within_budget (g_usage g) (g_limits g) ->
  within_budget (g_usage (refresh_elapsed g now)) (g_limits g)
  /\ usage_le (g_usage g) (g_usage (refresh_elapsed g now)).
Proof.
  pose proof (elapsed_nonneg (g_started_at g) now). unfold within_budget, usage_le, refresh_elapsed. simpl.
  intros. destruct_and!. split_and!; lia.
Qed.

Lemma ensure_usage_within_ok {E} u l :
  ensure_usage_within (E := E) u l = Ok tt ->
  Forall (fun '(_, used, limit) => used <= limit)%Z (usage_limit_pairs u l).
Proof.
  unfold ensure_usage_within. destruct (List.find _ _) as [[[]]|] eqn:Ef; [done|]. intros _.
  apply List.Forall_forall. intros [[k a] b] Hin. pose proof (find_none _ _ Ef _ Hin) as Hn. simpl in Hn. lia.
Qed.

Lemma budget_edit {E} u l l' :
  within_budget u l -> ensure_usage_within (E := E) u l' = Ok tt -> within_budget u l'.
Proof.
  intros Hb He%ensure_usage_within_ok. unfold usage_limit_pairs in He. rewrite !Forall_cons in He.
  unfold within_budget in *. destruct_and!. split_and!; lia.
Qed.

(** The limit reported is the first of the list that is used up. *)
Lemma reached_limit_none u l :
  reached_limit u l = None <-> Forall (fun '(_, used, limit) => used < limit)%Z (usage_limit_pairs u l).
Proof.
  unfold reached_limit. rewrite List.Forall_forall. split.
  - destruct (List.find _ _) as [[[]]|] eqn:Ef; [done|]. intros _ [[k a] b] Hin.
    pose proof (find_none _ _ Ef _ Hin) as Hn. simpl in Hn. lia.
  - intros Hall. destruct (List.find _ _) as [[[k a] b]|] eqn:Ef; [|done]. apply find_some in Ef as [Hin Hn].
    specialize (Hall _ Hin). simpl in Hall. lia.
Qed.

(** Sums that stay below a limit of the type do not saturate. *)
Definition exact_usage (u : GoalUsage) (d : GoalUsageDelta) (l : GoalLimits) (elapsed : Z) : GoalUsage :=
  MkGoalUsage
    (Z.min (gu_turns u + gd_turns d) (gl_turns l)) (Z.min (gu_tokens u + gd_tokens d) (gl_tokens l))
    (Z.min (Z.max (gu_elapsed_ms u) elapsed) (gl_elapsed_ms l))
    (Z.min (gu_reviews u + gd_reviews d) (gl_reviews l)) (Z.min (gu_children u + gd_children d) (gl_children l))
    (Z.min (gu_retries u + gd_retries d) (gl_retries l)) (Z.min (gu_processes u + gd_processes d) (gl_processes l))
    (Z.min (gu_storage_bytes u + gd_storage_bytes d) (gl_storage_bytes l))
    (Z.min (gu_cost_microunits u + gd_cost_microunits d) (gl_cost_microunits l)).

Lemma bounded_usage_exact u d l now started :
  limits_typed l -> bounded_usage u d l now started = exact_usage u d l (elapsed_ms started now).
Proof.
  unfold limits_typed, is_u32, is_u64, bounded_usage, exact_usage, u32_saturating_add, u64_saturating_add.
  intros. destruct_and!. f_equal; lia.
Qed.

Lemma exact_usage_below u d l elapsed :
  Forall (fun '(_, used, limit) => used <= limit)%Z (usage_limit_pairs (exact_usage u d l elapsed) l).
Proof. unfold usage_limit_pairs, exact_usage. repeat constructor; simpl; lia. Qed.

Lemma reached_limit_some u l k :
  reached_limit u l = Some k <-> exists pre used limit post, usage_limit_pairs u l = pre ++ (k, used, limit) :: post
    /\ (limit <= used)%Z /\ Forall (fun '(_, used, limit) => used < limit)%Z pre.
Proof.
  unfold reached_limit. generalize (usage_limit_pairs u l). intros ps. induction ps as [|[[k' a] b] ps IH]; simpl.
  { split; [done|]. by intros ([] & ? & ? & ? & ? & _). }
  destruct (b <=? a)%Z eqn:E.
  - split.
    + intros [= ->]. exists [], a, b, ps. split_and!; [done|lia|done].
    + intros (pre & used & limit & post & Hp & Hl & Hpre). destruct pre as [|p pre]; simpl in Hp; simplify_eq; [done|].
      apply Forall_cons in Hpre as [Hp _]. simpl in Hp. lia.
  - rewrite IH. split.
    + intros (pre & used & limit & post & -> & Hl & Hpre). exists ((k', a, b) :: pre), used, limit, post.
      split_and!; [done|done|]. constructor; [lia|done].
    + intros (pre & used & limit & post & Hp & Hl & Hpre). destruct pre as [|p pre]; simpl in Hp; simplify_eq; [lia|].
      apply Forall_cons in Hpre as [_ Hpre]. by exists pre, used, limit, post.
Qed.

(** The limits of a continuation are what is left of the goal's. *)
Lemma action_limits_left u l :
  within_budget u l -> reached_limit u l = None ->
  exists turns tokens elapsed processes children,
    goal_action_limits l u = MkActionLimits (Some turns) (Some tokens) (Some elapsed) (Some processes) (Some children)
    /\ (0 < turns /\ gu_turns u + turns = gl_turns l /\ 0 < tokens /\ gu_tokens u + tokens = gl_tokens l
        /\ 0 < elapsed /\ gu_elapsed_ms u + elapsed = gl_elapsed_ms l
        /\ 0 < processes /\ gu_processes u + processes = gl_processes l
        /\ 0 < children /\ gu_children u + children <= gl_children l)%Z.
Proof.
  intros Hb Hr%reached_limit_none. unfold usage_limit_pairs in Hr. rewrite !Forall_cons in Hr.
  unfold within_budget in Hb. unfold goal_action_limits. do 5 eexists. split; [done|].
  unfold u32_saturating_sub, u64_saturating_sub, u16_try_from, u16_max. destruct_and!.
  split_and!; try lia; destruct (_ && _)%bool eqn:E; simpl; lia.
Qed.

(** ** Steps *)

Section steps.
Context (E : Type).

Inductive goal_change : Goal -> Goal -> Prop :=
| change_edit g e g' : edit_typed e -> edited_goal (E := E) g e = Ok g' -> goal_change g g'
| change_transition g next summary now g' :
    g_archived_at g = None -> transitioned_goal (E := E) g next summary now = Ok g' -> goal_change g g'
| change_pause g g' : paused_goal (E := E) g = Ok g' -> goal_change g g'
| change_resume g now g' : resumed_goal (E := E) g now = Ok g' -> goal_change g g'
| change_charge g d now g' : delta_typed d -> charged_goal (E := E) g d now = Ok g' -> goal_change g g'
| change_limit g limit now :
    g_archived_at g = None -> g_state g = GRunning ->
    reached_limit (g_usage (refresh_elapsed g now)) (g_limits g) = Some limit ->
    goal_change g (blocked_at limit (refresh_elapsed g now))
| change_block g summary g' : user_blocked_goal (E := E) g summary = Ok g' -> goal_change g g'
| change_archive g now g' : archived_goal (E := E) g now = Ok g' -> goal_change g g'.

Definition goal_step (g h : Goal) : Prop :=
  exists g' revision now, goal_change g g' /\ h = goal_stamped revision now g'.

Definition goal_init (g : Goal) : Prop :=
  exists id session objective limits now, limits_typed limits /\ limits_valid limits = true
    /\ g = new_goal id session objective limits now.

(** Summaries, links, resume states and archival agree with the state of a goal,
    and it is within its budget. *)
Definition goal_ok (g : Goal) : Prop :=
  limits_typed (g_limits g) /\ limits_valid (g_limits g) = true /\ within_budget (g_usage g) (g_limits g)
  /\ (g_state g = GRunning -> is_Some (g_started_at g))
  /\ (g_state g = GWaiting -> is_Some (g_waiting_condition_id g))
  /\ (if goal_is_terminal (g_state g)
      then exists t, g_terminal_summary g = Some t /\ gs_state t = g_state g /\ gs_final_usage t = g_usage g
      else g_terminal_summary g = None /\ g_archived_at g = None)
  /\ (if decide (g_state g = GPaused)
      then forall r, g_resume_state g = Some r -> goal_allows GPaused r = true /\ goal_is_terminal r = false
      else g_resume_state g = None).

Lemma not_archived_ok g : ensure_not_archived (E := E) g = Ok tt <-> g_archived_at g = None.
Proof. unfold ensure_not_archived. by destruct (g_archived_at g). Qed.

Lemma not_archived_bind {A} g (k : result (GoalError E) A) x :
  (ensure_not_archived g ;; k) = Ok x <-> g_archived_at g = None /\ k = Ok x.
Proof. unfold ensure_not_archived. destruct (g_archived_at g); naive_solver. Qed.

(** What is kept of a goal, and how its state moves. *)
Definition moves (g h : Goal) : Prop :=
  g_id h = g_id g /\ g_session_id h = g_session_id g /\ g_created_at h = g_created_at g
  /\ usage_le (g_usage g) (g_usage h)
  /\ (g_state h = g_state g \/ goal_allows (g_state g) (g_state h) = true).

(** An edit changes the objective, the limits, the links and the reason of a stop. *)
Definition same_course (g h : Goal) : Prop :=
  g_id h = g_id g /\ g_session_id h = g_session_id g /\ g_created_at h = g_created_at g /\ g_state h = g_state g
  /\ g_usage h = g_usage g /\ g_started_at h = g_started_at g /\ g_terminal_summary h = g_terminal_summary g
  /\ g_archived_at h = g_archived_at g /\ g_resume_state h = g_resume_state g.

Lemma edited_course g e g' : edited_goal (E := E) g e = Ok g' -> same_course g g'.
Proof.
  intros He. unfold edited_goal, edited_limits in He. cbn zeta in He.
  apply not_archived_bind in He as [_ [_ He]%reject_if_bind]. res_inv; done.
Qed.

Lemma edited_limits_shape g l g' :
  within_budget (g_usage g) (g_limits g) -> edited_limits (E := E) g l = Ok g' ->
  same_course g g' /\ g_limits g' = l /\ limits_valid l = true /\ within_budget (g_usage g') l.
Proof.
  intros Hb He. unfold edited_limits, limits_validate in He. cbn zeta in He. res_inv. bool_inv. simpl.
  split; [done|]. split; [done|]. split; [done|]. destruct a0. by eapply budget_edit.
Qed.

Lemma edited_shape g e g' :
  limits_typed (g_limits g) -> limits_valid (g_limits g) = true -> within_budget (g_usage g) (g_limits g) ->
  edit_typed e -> edited_goal (E := E) g e = Ok g' ->
  same_course g g' /\ limits_typed (g_limits g') /\ limits_valid (g_limits g') = true
  /\ within_budget (g_usage g') (g_limits g') /\ g_archived_at g = None
  /\ (g_state g = GDraft \/ g_state g = GReady \/ g_state g = GPaused \/ g_state g = GBlocked).
Proof.
  intros Hl Hv Hb Hty He. unfold edited_goal, edit_typed in *.
  apply not_archived_bind in He as [Ea [Es He]%reject_if_bind]. bool_inv.
  destruct (match ge_objective e with Some _ => _ | None => _ end) as [h|] eqn:Eo; [|done].
  assert (same_course g h /\ g_limits h = g_limits g) as [Hh Hlh] by (destruct (ge_objective e); res_inv; done).
  clear Eo. cbn [mbind result_bind] in He. destruct (ge_limits e) as [l|].
  - destruct (edited_limits h l) as [k|] eqn:El; [|done]. cbn [mbind result_bind] in He. res_inv.
    apply edited_limits_shape in El as (Hk & Hlk & Hvk & Hbk); [|by destruct Hh as (_ & _ & _ & _ & -> & _); rewrite Hlh].
    unfold same_course in *. simpl. rewrite Hlk. intuition congruence.
  - res_inv. unfold same_course in *. simpl. rewrite Hlh. destruct_and!.
    split; [done|]. split; [done|]. split; [done|]. split; [congruence|done].
Qed.

Lemma edited_ok g e g' :
  goal_ok g -> edit_typed e -> edited_goal (E := E) g e = Ok g' -> goal_ok g' /\ moves g g'.
Proof.
  intros (Hl & Hv & Hb & Hr & Hw & Ht & Hp) Hty He.
  destruct (edited_shape g e g' Hl Hv Hb Hty He) as (Hc & Hl' & Hv' & Hb' & Ha & Hcase).
  destruct Hc as (Hi & Hse & Hc & Hs & Hu & Hst & Hsu & Har & Hre). unfold goal_ok, moves.
  rewrite Hs, Hst, Hsu, Har, Hre, Hu in *. split; [|split_and!; auto; reflexivity].
  split_and!; try done. intros Hx. by destruct Hcase as [Hy|[Hy|[Hy|Hy]]]; rewrite Hx in Hy.
Qed.

Lemma terminal_allows_none s next : goal_is_terminal s = true -> goal_allows s next = false.
Proof. by destruct s. Qed.

(** A move to a state in which the goal goes on. *)
Lemma moved_goal_ok g h :
  goal_ok g -> goal_allows (g_state g) (g_state h) = true -> goal_is_terminal (g_state h) = false ->
  g_id h = g_id g -> g_session_id h = g_session_id g -> g_created_at h = g_created_at g ->
  g_limits h = g_limits g -> g_terminal_summary h = g_terminal_summary g -> g_archived_at h = g_archived_at g ->
  within_budget (g_usage h) (g_limits g) /\ usage_le (g_usage g) (g_usage h) ->
  (g_state h = GRunning -> is_Some (g_started_at h)) ->
  (g_state h = GWaiting -> is_Some (g_waiting_condition_id h)) ->
  (if decide (g_state h = GPaused)
   then forall r, g_resume_state h = Some r -> goal_allows GPaused r = true /\ goal_is_terminal r = false
   else g_resume_state h = None) ->
  goal_ok h /\ moves g h.
Proof.
  intros (Hl & Hv & Hb & Hr & Hw & Ht & Hp) Ha Hn Hi Hse Hc Hli Hsu Har [Hb' Hu] Hr' Hw' Hp'.
  destruct (goal_is_terminal (g_state g)) eqn:Et; [by rewrite terminal_allows_none in Ha|].
  destruct Ht as [Hs0 Ha0]. unfold goal_ok, moves. rewrite Hn, Hli, Hsu, Har. split_and!; auto.
Qed.

Lemma kept_budget g : goal_ok g -> within_budget (g_usage g) (g_limits g) /\ usage_le (g_usage g) (g_usage g).
Proof. intros (_ & _ & Hb & _). split; [done|reflexivity]. Qed.

Lemma paused_ok g g' : goal_ok g -> paused_goal (E := E) g = Ok g' -> goal_ok g' /\ moves g g'.
Proof.
  intros Hok He. unfold paused_goal in He. res_inv; bool_inv.
  all: apply moved_goal_ok; simpl; try done; try by apply kept_budget.
  all: try (by rewrite E1). all: by intros r [= <-].
Qed.

Lemma started_running next now g : next = GRunning -> is_Some (g_started_at (started_if_running next now g)).
Proof. intros ->. unfold started_if_running. simpl. by destruct (g_started_at g) eqn:E0; simpl; rewrite ?E0. Qed.

(** What starting the clock leaves as it is. *)
Lemma started_keeps next now g :
  let h := started_if_running next now g in
  g_id h = g_id g /\ g_session_id h = g_session_id g /\ g_created_at h = g_created_at g /\ g_limits h = g_limits g
  /\ g_terminal_summary h = g_terminal_summary g /\ g_archived_at h = g_archived_at g /\ g_usage h = g_usage g
  /\ g_state h = g_state g /\ g_waiting_condition_id h = g_waiting_condition_id g
  /\ g_resume_state h = g_resume_state g /\ (next <> GRunning -> g_started_at h = g_started_at g).
Proof. unfold started_if_running. destruct (_ && _)%bool eqn:E0; simpl; split_and!; try done. bool_inv. by intros []. Qed.

Lemma resumed_ok g now g' :
  goal_ok g -> resumed_goal (E := E) g now = Ok g' ->
  (goal_ok g' /\ moves g g') /\ goal_is_terminal (g_state g') = false.
Proof.
  intros Hok He. unfold resumed_goal in He.
  apply not_archived_bind in He as [_ He]. destruct (reached_limit _ _); [done|]. cbn [mbind result_bind] in He.
  assert (exists next h, (g_state g = GPaused /\ next = default GReady (g_resume_state g) \/ g_state g = GBlocked /\ next = GRunning)
    /\ h = set_resume (if decide (g_state g = GPaused) then None else g_resume_state g) g
    /\ (next = GWaiting -> is_Some (g_waiting_condition_id g))
    /\ g' = started_if_running next now (set_last_stop None (set_goal_state next h))) as (next & h & Hn & -> & Hw & ->).
  { destruct (g_state g) eqn:Es; try done; cbn [mbind result_bind] in He;
      destruct (reject_if _ _) as [[]|] eqn:Er; try done; cbn [mbind result_bind] in He; injection He as <-;
      apply reject_if_ok in Er.
    - exists (default GReady (g_resume_state g)), (set_resume None g). split; [by left|]. split; [done|]. split; [|done].
      intros Hx. rewrite Hx in Er. simpl in Er. by destruct (g_waiting_condition_id g).
    - exists GRunning, g. split; [by right|]. split; [by destruct g|]. done. }
  pose proof (started_running next now (set_last_stop None (set_goal_state next
    (set_resume (if decide (g_state g = GPaused) then None else g_resume_state g) g)))) as Hrun.
  pose proof (started_keeps next now (set_last_stop None (set_goal_state next
    (set_resume (if decide (g_state g = GPaused) then None else g_resume_state g) g)))) as Hkeep.
  set (k := started_if_running _ _ _) in *. clearbody k. simpl in Hkeep.
  destruct Hkeep as (Hi & Hse & Hc & Hli & Hsu & Har & Hu & Hs & Hwc & Hre & _).
  pose proof Hok as (_ & _ & _ & _ & _ & _ & Hp).
  assert (goal_allows (g_state g) next = true /\ goal_is_terminal next = false /\ next <> GPaused
    /\ g_resume_state k = None) as (Ha & Hnt & Hnp & Hres).
  { rewrite Hre. destruct Hn as [[Hg ->]|[Hg ->]]; rewrite Hg in *; simpl in *.
    - destruct (g_resume_state g) as [r|]; [|done]. destruct (Hp r eq_refl) as [Hr1 Hr2]. simpl. split_and!; try done. intros Hr3. by rewrite Hr3 in Hr1.
    - by split_and!. }
  split; [|by rewrite Hs]. apply moved_goal_ok; rewrite ?Hs, ?Hu, ?Hwc; auto using kept_budget. by rewrite decide_False.
Qed.

Lemma transitioned_shape g next summary now g' :
  transitioned_goal (E := E) g next summary now = Ok g' ->
  goal_allows (g_state g) next = true /\ (next = GWaiting -> is_Some (g_waiting_condition_id g))
  /\ exists s, g' = started_if_running next now (set_resume None (set_last_stop None (set_goal_state next (set_summary s g))))
    /\ if goal_is_terminal next
       then exists t, s = Some t /\ gs_state t = next /\ gs_final_usage t = g_usage g
       else s = g_terminal_summary g.
Proof.
  intros He. unfold transitioned_goal in He.
  apply reject_if_bind in He as [Ea%negb_false_iff [Ew He]%reject_if_bind]. split; [done|]. split.
  { intros ->. simpl in Ew. by destruct (g_waiting_condition_id g). }
  destruct (goal_is_terminal next).
  - destruct summary as [summary|]; [|done]. cbn [ok_or mbind result_bind] in He.
    destruct (reject_if _ _) as [[]|]; [|done]. cbn [mbind result_bind] in He. injection He as <-.
    eexists. split; [done|]. by eexists.
  - destruct (reject_if _ _) as [[]|]; [|done]. cbn [mbind result_bind] in He. injection He as <-.
    exists (g_terminal_summary g). split; [|done]. by destruct g.
Qed.

Lemma transitioned_ok g next summary now g' :
  goal_ok g -> g_archived_at g = None -> transitioned_goal (E := E) g next summary now = Ok g' ->
  goal_ok g' /\ moves g g' /\ g_state g' = next.
Proof.
  intros Hok Har0 (Ha & Hw & s & -> & Hsum)%transitioned_shape.
  pose proof (started_running next now (set_resume None (set_last_stop None (set_goal_state next (set_summary s g))))) as Hrun.
  pose proof (started_keeps next now (set_resume None (set_last_stop None (set_goal_state next (set_summary s g))))) as Hkeep.
  set (k := started_if_running _ _ _) in *. clearbody k. simpl in Hkeep.
  destruct Hkeep as (Hi & Hse & Hc & Hli & Hsu & Har & Hu & Hs & Hwc & Hre & _).
  destruct (goal_is_terminal next) eqn:Et.
  - destruct Hok as (Hl & Hv & Hb & _). destruct Hsum as (t & -> & Ht & Hfu).
    unfold goal_ok, moves. rewrite Hi, Hse, Hc, Hli, Hsu, Hu, Hs, Hwc, Hre, Et.
    split; [|split; [split_and!; auto; reflexivity|done]].
    assert (next <> GRunning /\ next <> GWaiting /\ next <> GPaused) as (? & ? & ?) by (by destruct next).
    split_and!; try done; [by exists t|]. by rewrite decide_False.
  - cut (goal_ok k /\ moves g k); [by intros []|]. subst s.
    apply moved_goal_ok; rewrite ?Hs, ?Hu, ?Hwc; auto using kept_budget.
    destruct (decide (next = GPaused)); [|done]. rewrite Hre. by intros r [=].
Qed.

Lemma charged_ok g d now g' :
  goal_ok g -> delta_typed d -> charged_goal (E := E) g d now = Ok g' -> goal_ok g' /\ moves g g'.
Proof.
  intros Hok Hd He. unfold charged_goal in He.
  apply not_archived_bind in He as [_ [Es He]%reject_if_bind]. bool_inv. injection He as <-.
  pose proof Hok as (Hl & _ & Hb & _).
  pose proof (bounded_usage_within _ _ _ now (g_started_at g) Hb Hl Hd) as Hu.
  set (u := bounded_usage _ _ _ _ _) in *. clearbody u. destruct (reached_limit u _) as [limit|].
  - apply moved_goal_ok; simpl; try done; [by destruct Es as [->|[->| ->]]|].
    destruct Hok as (_ & _ & _ & _ & _ & _ & Hp). rewrite decide_False in Hp; [done|]. destruct Es as [->|[->| ->]]; done.
  - destruct Hok as (_ & Hv & _ & Hr & Hw & Ht & Hp). destruct Hu as [Hb' Hle]. split; [|split_and!; simpl; auto].
    unfold goal_ok. simpl. split_and!; try done. destruct Es as [Es|[Es|Es]]; rewrite Es in *; done.
Qed.

Lemma limit_ok g limit now :
  goal_ok g -> g_state g = GRunning ->
  goal_ok (blocked_at limit (refresh_elapsed g now)) /\ moves g (blocked_at limit (refresh_elapsed g now)).
Proof.
  intros Hok Hs. pose proof Hok as (Hl & _ & Hb & _ & _ & _ & Hp). rewrite decide_False in Hp by (by rewrite Hs).
  apply moved_goal_ok; simpl; try done; [by rewrite Hs|]. by apply refresh_elapsed_within.
Qed.

Lemma user_blocked_ok g summary g' :
  goal_ok g -> user_blocked_goal (E := E) g summary = Ok g' -> goal_ok g' /\ moves g g'.
Proof.
  intros Hok He. unfold user_blocked_goal in He.
  apply not_archived_bind in He as [_ [Es He]%reject_if_bind]. bool_inv. injection He as <-.
  apply moved_goal_ok; simpl; try done; [by apply kept_budget|].
  destruct Hok as (_ & _ & _ & _ & _ & _ & Hp). rewrite decide_False in Hp; [done|]. intros Hg. by rewrite Hg in Es.
Qed.

Lemma archived_shape g now g' :
  archived_goal (E := E) g now = Ok g' ->
  g_archived_at g = None /\ goal_is_terminal (g_state g) = true /\ g' = set_archived (Some now) g.
Proof.
  intros He. unfold archived_goal in He.
  apply not_archived_bind in He as [Ea [Es He]%reject_if_bind]. bool_inv. by injection He as <-.
Qed.

Lemma archived_ok g now g' : goal_ok g -> archived_goal (E := E) g now = Ok g' -> goal_ok g' /\ moves g g'.
Proof.
  intros (Hl & Hv & Hb & Hr & Hw & Ht & Hp) (_ & Hterm & ->)%archived_shape. rewrite Hterm in Ht.
  split; [|split_and!; simpl; auto; reflexivity]. unfold goal_ok. simpl. rewrite Hterm. split_and!; done.
Qed.

Lemma goal_change_ok g g' : goal_ok g -> goal_change g g' -> goal_ok g' /\ moves g g'.
Proof.
  intros Hok Hc. destruct Hc; eauto using edited_ok, paused_ok, charged_ok, limit_ok, user_blocked_ok, archived_ok.
  - destruct (transitioned_ok g next summary now g') as (? & ? & _); done.
  - by eapply resumed_ok.
Qed.

Lemma goal_step_ok g h : goal_ok g -> goal_step g h -> goal_ok h /\ moves g h.
Proof. intros Hok (g' & r & now & Hc & ->). by apply goal_change_ok in Hc as [? ?]. Qed.

Lemma goal_steps_ok g h :
  goal_ok g -> rtc goal_step g h ->
  goal_ok h /\ g_id h = g_id g /\ g_session_id h = g_session_id g /\ g_created_at h = g_created_at g
  /\ usage_le (g_usage g) (g_usage h) /\ rtc (fun s t => goal_allows s t = true) (g_state g) (g_state h).
Proof.
  intros Hok Hs. induction Hs as [g|g1 g2 h Hs Hrest IH]; [done|].
  destruct (goal_step_ok g1 g2 Hok Hs) as (Hok2 & Hi & Hss & Hc & Hu & Hst).
  destruct (IH Hok2) as (Hokh & Hi' & Hss' & Hc' & Hu' & Hst'). split_and!; [done|congruence..|by etrans|].
  destruct Hst as [<-|Ha]; [done|by eapply rtc_l].
Qed.

Lemma goal_init_ok g : goal_init g -> goal_ok g.
Proof.
  intros (id & session & objective & limits & now & Ht & Hv & ->). unfold goal_ok. simpl.
  unfold within_budget, limits_typed, is_u32, is_u64 in *. simpl. destruct_and!. split_and!; done || lia.
Qed.

(** A goal that ended can only be archived, and an archived one is not written. *)
Lemma goal_change_terminal g g' :
  goal_change g g' -> g_archived_at g = None /\
  (goal_is_terminal (g_state g) = true -> exists now, g' = set_archived (Some now) g).
Proof.
  intros Hc. destruct Hc as [g e g' _ He|g next summary now g' Ha He|g g' He|g now g' He|g d now g' _ He|
    g limit now Ha Hs _|g summary g' He|g now g' He].
  - apply not_archived_bind in He as [Ea [Es _]%reject_if_bind]. bool_inv.
    split; [done|]. intros Ht. by destruct Es as [Es|[Es|[Es|Es]]]; rewrite Es in Ht.
  - split; [done|]. intros Ht. apply transitioned_shape in He as (Hal & _). by rewrite terminal_allows_none in Hal.
  - apply not_archived_bind in He as [Ea [Es _]%reject_if_bind]. bool_inv.
    split; [done|]. intros Ht. by rewrite terminal_allows_none in Es.
  - apply not_archived_bind in He as [Ea He]. split; [done|]. intros Ht.
    destruct (reached_limit _ _); [done|]. by destruct (g_state g).
  - apply not_archived_bind in He as [Ea [Es _]%reject_if_bind]. bool_inv.
    split; [done|]. intros Ht. by destruct Es as [Es|[Es|Es]]; rewrite Es in Ht.
  - split; [done|]. intros Ht. by rewrite Hs in Ht.
  - apply not_archived_bind in He as [Ea [Es _]%reject_if_bind]. bool_inv.
    split; [done|]. intros Ht. by rewrite terminal_allows_none in Es.
  - apply archived_shape in He as (Ha & _ & ->). split; [done|]. by exists now.
Qed.

(** What an ended goal keeps. *)
Definition outcome (g : Goal) :=
  (g_objective g, g_state g, g_limits g, g_usage g, g_terminal_summary g, g_plan_id g, g_waiting_condition_id g).

Lemma terminal_steps g h : rtc goal_step g h -> goal_is_terminal (g_state g) = true -> outcome h = outcome g.
Proof.
  intros Hs. induction Hs as [g|g1 g2 h Hs _ IH]; [done|]. intros Ht. destruct Hs as (g' & r & now & Hc & ->).
  apply goal_change_terminal in Hc as [_ Hc]. destruct (Hc Ht) as [t ->]. rewrite IH; done.
Qed.

Lemma archived_stuck g h : is_Some (g_archived_at g) -> ~ goal_step g h.
Proof. intros [t Ht] (g' & r & now & Hc & _). apply goal_change_terminal in Hc as [Ha _]. congruence. Qed.
End steps.

(** ** The operations *)

Section operations.
Context {S : Type} `{HU : Ulid, HR : Repository S, HL : !RepositoryLaws S}.
Context `{HA : Document ActionRecord, HD : Document Goal}.
Context (new_id : nat -> EntityId) (inbox : ActionInboxConfig).

Abbreviation goal_step := (goal_step repo_error).
Abbreviation goal_change := (goal_change repo_error).
Abbreviation gholds := (holds Goals decode goal_key goal_init goal_step).
Abbreviation glists := (lists_items Goals decode goal_key goal_init goal_step).
Abbreviation replaced := (replaces Goals decode goal_key goal_init goal_step).
Abbreviation aholds := (holds PendingActions ActionStore.decode action_key action_init action_step).

Definition goals : Machine Goal := item_machine Goals decode goal_init goal_step.

Lemma decode_goal r x :
  decode r = Ok x <->
  from_value (rec_payload r) = Ok (item x) /\ goal_key (item x) = rec_id r
  /\ (sv_major (rec_version r) = sv_major CURRENT_SCHEMA_VERSION
      /\ sv_minor (rec_version r) <= sv_minor CURRENT_SCHEMA_VERSION)%Z
  /\ g_revision (item x) = rec_revision r /\ storage_revision x = rec_revision r.
Proof.
  unfold decode, goal_key. destruct (from_value _) as [y|]; cbn [mbind result_bind map_err]; [|naive_solver].
  split.
  - intros [He Hd]%reject_if_bind. bool_inv. injection Hd as <-. done.
  - intros ([= ->] & Hi & [Hm Hn] & Hr & Hs). rewrite !bool_decide_eq_true_2 by done.
    rewrite Hm, Z.eqb_refl. destruct (Z.ltb_spec (sv_minor CURRENT_SCHEMA_VERSION) (sv_minor (rec_version r))); [lia|].
    destruct x. simpl in *. by subst.
Qed.

Lemma decode_goal_faithful : decode_faithful decode goal_key.
Proof. intros r x (_ & Hi & _ & _ & Hs)%decode_goal. done. Qed.

Lemma encode_goal x r :
  document_lawful Goal -> encode x = Ok r -> id_canonical (goal_key x) ->
  is_u64 (revision_get (g_revision x)) -> is_i64 (unix_millis (g_updated_at x)) ->
  wf_record r /\ rec_id r = goal_key x /\ rec_revision r = g_revision x
  /\ decode (canonical_record r) = Ok (MkStored x (g_revision x)).
Proof.
  intros Hlaw He Hid Hrev Hnow. unfold encode in He. destruct (to_value x) as [v|] eqn:Ev; simpl in He; [|done].
  destruct (Hlaw _ _ Ev) as (Hd & Hread & Hback). injection He as <-.
  split; [|split; [done|split; [done|by apply decode_goal]]].
  split; [done|]. do 2 (split; [simpl; unfold u16_max; lia|]). done.
Qed.

Context (Hcodec : document_lawful Goal) (Hacodec : action_codec) (G : Contract).
Context (Hfollows : forall recs recs', guarantee G recs recs' -> follows goals recs recs').
Context (Hactions : forall recs recs', guarantee G recs recs' -> follows actions recs recs').

(** [r] is the record of [s], a successor of [x]. *)
Definition goal_succeeds (x : Stored Goal) (r : VersionedRecord) (s : Stored Goal) : Prop :=
  decode (canonical_record r) = Ok s /\ goal_step (item x) (item s) /\ goal_key (item s) = goal_key (item x)
  /\ revision_get (rec_revision r) = (revision_get (storage_revision x) + 1)%Z.

(** [s] ends the goal [x]. *)
Definition ends (x s : Stored Goal) : Prop :=
  goal_is_terminal (g_state (item s)) = true /\ goal_is_terminal (g_state (item x)) = false.

(** The contract allows the steps that end no goal, and the steps of actions that
    start none. *)
Context (Hupdate : forall recs x r s,
  gholds recs x -> goal_succeeds x r s -> ~ ends x s ->
  guarantee G recs (<[(Goals, goal_key (item x)) := canonical_record r]> recs)).
Context (Hmove : forall recs x r s,
  aholds recs x -> succeeds x r s -> a_state (item s) <> ARunning ->
  guarantee G recs (<[(PendingActions, action_key (item x)) := canonical_record r]> recs)).

Abbreviation gseen := (seen G Goals decode goal_key goal_init goal_step).

Lemma spec_persist P x y now :
  wf_stored goal_key x -> is_i64 (unix_millis now) -> goal_change (item x) y -> goal_key y = goal_key (item x) ->
  (forall recs, P recs -> gseen x recs) ->
  (forall recs r s, later G P recs -> gholds recs x -> goal_succeeds x r s -> ends x s ->
     g_state (item s) = g_state y ->
     guarantee G recs (<[(Goals, goal_key (item x)) := canonical_record r]> recs)) ->
  spec G P (persist (MkStored y (storage_revision x)) now) (fun s recs' =>
    item s = goal_stamped (storage_revision s) now y
    /\ exists recs, later G P recs /\ replaced recs recs' x s).
Proof.
  intros [Hid Hrev] Hnow Hc Hkey HP Hend. unfold persist. cbn [storage_revision item].
  apply spec_lift_bind. intros next Hnext. apply ok_or_Ok, checked_next_Some in Hnext as [Hn Hle].
  apply spec_lift_bind. intros r He.
  destruct (encode_goal _ _ Hcodec He) as (Hwf & Hri & Hrr & Hdec); [unfold goal_key in *; simpl; by rewrite Hkey| |done|].
  { simpl. unfold is_u64 in *. lia. }
  assert (rec_id r = goal_key (item x)) as Hri' by (rewrite Hri; unfold goal_key in *; done). simpl in Hrr.
  set (s := MkStored (goal_stamped next now y) next). change (decode (canonical_record r) = Ok s) in Hdec.
  assert (goal_succeeds x r s) as Hsucc.
  { split; [done|]. split; [by exists y, next, now|]. split; [done|]. by rewrite Hrr. }
  eapply spec_bind.
  { apply (spec_replace G Goals decode goal_key goal_init goal_step GeRepository decode_goal_faithful Hfollows P x r s);
      [done|done|done|done|done|].
    intros recs Hl Hx.
    destruct (decide (goal_is_terminal (g_state (item s)) = true)) as [Ht|Ht];
      [destruct (goal_is_terminal (g_state (item x))) eqn:Etx|].
    - eapply Hupdate; [done|done|]. intros [_ He']. congruence.
    - by eapply Hend.
    - eapply Hupdate; [done|done|]. by intros [He' _]. }
  intros receipt. cbn beta. apply spec_ret. intros recs' Hrep. by split.
Qed.

Lemma spec_required_goal P id :
  spec G P (required id) (fun x recs => (g_id (item x) = id /\ wf_stored goal_key x) /\ later G P recs /\ gholds recs x).
Proof.
  unfold required, load. eapply spec_bind.
  { apply (spec_load_item G Goals decode goal_key goal_init goal_step GeRepository decode_goal_faithful). }
  intros found. cbn beta. apply spec_lift. intros x recs Hx (Hf & Hl & Hh). apply ok_or_Ok in Hx as ->.
  destruct (Hf x eq_refl) as [Hid Hwf]. split; [|done]. split; [|done]. by apply (inj as_entity_id).
Qed.

Lemma spec_load_goals P :
  spec G P load_all (fun xs recs => Forall (wf_stored goal_key) xs /\ later G P recs /\ glists recs xs).
Proof. apply (spec_load_items G Goals decode goal_key goal_init goal_step GeRepository decode_goal_faithful). Qed.

Abbreviation all_ok := (all_items goals goal_ok).

Lemma all_ok_stable : stable G all_ok.
Proof.
  intros recs recs' Hok HT. eapply follows_all_items; [apply goal_init_ok| |by apply Hfollows|done].
  intros x x' Hx Hs. by destruct (goal_step_ok _ _ _ Hx Hs).
Qed.

(** Reading a goal, changing it and writing it back. *)
(** [change] is one of the changes of a goal, and does not end it. *)
Definition plain (change : Goal -> result (GoalError repo_error) Goal) : Prop :=
  forall g g', goal_ok g -> change g = Ok g' ->
    goal_change g g' /\ (goal_is_terminal (g_state g') = true -> goal_is_terminal (g_state g) = true).

Lemma spec_modify_goal P id change now :
  rely_stable G P -> (forall recs, P recs -> all_ok recs) -> is_i64 (unix_millis now) ->
  plain change ->
  spec G P (modify_goal id change now) (fun y recs' => exists recs x s g',
    P recs /\ replaced recs recs' x s /\ g_id (item x) = id /\ change (item x) = Ok g'
    /\ y = item s /\ y = goal_stamped (storage_revision s) now g').
Proof.
  intros Hst HPok Hnow Hch. unfold modify_goal. eapply spec_bind; [apply spec_lock|]. intros []. cbn beta.
  eapply spec_bind; [apply spec_required_goal|]. intros x. cbn beta.
  apply (spec_given G (fun recs => goal_ok (item x) /\ (g_id (item x) = id /\ wf_stored goal_key x)
    /\ later G P recs /\ gholds recs x)).
  { intros recs (Hx & Hl & Hh). split; [|done]. eapply (HPok recs); [by eapply later_rely|exact Hh]. }
  apply spec_pure. intros Hok. apply spec_pure. intros [Hid Hwf].
  apply spec_lift_bind. intros g' Hg. destruct (Hch _ _ Hok Hg) as (Hc & Ht).
  destruct (goal_change_ok _ _ _ Hok Hc) as (_ & Hi & _).
  eapply spec_bind; [apply spec_persist; [done|done|done|by unfold goal_key; rewrite Hi| |]|].
  - intros recs [_ Hx]. by apply holds_seen.
  - intros recs r s _ _ _ [H1 H2] Hs. rewrite Hs in H1. rewrite Ht in H2; done.
  - intros s. cbn beta. apply spec_pure. intros Hs. apply spec_ret. intros recs' (recs & Hl & Hrep).
    exists recs, x, s, g'. split; [|done].
    destruct Hl as (recs1 & [Hl _] & HR1). apply (later_rely G P) in Hl; [|done]. by eapply Hst.
Qed.

(** The changes but a transition end no goal. *)
Lemma plain_edit e : edit_typed e -> plain (fun g => edited_goal g e).
Proof.
  intros Ht g g' Hok He. split; [by econstructor|]. apply edited_course in He. by destruct He as (_ & _ & _ & -> & _).
Qed.

Lemma plain_pause : plain paused_goal.
Proof.
  intros g g' Hok He. split; [by constructor|]. unfold paused_goal in He.
  apply not_archived_bind in He as [_ [_ He]%reject_if_bind]. res_inv; done.
Qed.

Lemma plain_resume now : plain (fun g => resumed_goal g now).
Proof.
  intros g g' Hok He. split; [by econstructor|]. destruct (resumed_ok _ _ _ _ Hok He) as [_ ->]. done.
Qed.

Lemma plain_charge d now : delta_typed d -> plain (fun g => charged_goal g d now).
Proof.
  intros Ht g g' Hok He. split; [by econstructor|]. unfold charged_goal in He.
  apply not_archived_bind in He as [_ [Es He]%reject_if_bind]. bool_inv. injection He as <-.
  by destruct (reached_limit _ _).
Qed.

Lemma plain_block summary : plain (fun g => user_blocked_goal g summary).
Proof.
  intros g g' Hok He. split; [by econstructor|]. unfold user_blocked_goal in He.
  apply not_archived_bind in He as [_ [_ He]%reject_if_bind]. by injection He as <-.
Qed.

Lemma plain_archive now : plain (fun g => archived_goal g now).
Proof. intros g g' Hok He. split; [by econstructor|]. by apply archived_shape in He as (_ & _ & ->). Qed.
(** ** Continuations *)

(** What is true of the other writers when [quiet] holds. *)
Context (quiet : Prop) (Hquiet : quiet -> forall recs recs', rely G recs recs' ->
  untouched PendingActions recs recs' /\ untouched Goals recs recs').

Lemma continuation_before id recs recs' x y :
  follows actions recs recs' -> aholds recs x -> aholds recs' y -> action_key (item y) = action_key (item x) ->
  continuation_of id (item y) = true -> continuation_of id (item x) = true.
Proof.
  intros Hf Hx Hy Hk Hc. destruct (follows_steps actions _ _ _ _ Hf Hx) as (z & Hz & Hs).
  destruct (steps_same_action _ _ Hs) as (Ha & _).
  assert (z = y) as ->.
  { eapply holds_inj; [|exact Hy|unfold action_key in *; by rewrite Ha].
    unfold holds, action_key in *. by rewrite Ha. }
  unfold continuation_of in *. rewrite Ha in Hc. apply andb_true_iff in Hc as [Hn Hp]. apply andb_true_iff. split; [|done].
  destruct (action_is_terminal (a_state (item x))) eqn:Et; [|done].
  inversion Hs as [|? z' ? Hstep]; subst; [|by destruct (terminal_action_stuck _ _ Et Hstep)].
  match goal with H : item _ = item _ |- _ => rewrite <- H in Hn end. by rewrite Et in Hn.
Qed.

(** The live continuations of a goal that are among [rest]. *)
Definition remaining (id : GoalId) (rest : list ActionRecord) (recs : Records) : Prop :=
  quiet -> forall y, aholds recs y -> continuation_of id (item y) = true ->
    exists x, x ∈ rest /\ act_id (a_action x) = act_id (a_action (item y)).

Lemma remaining_rely id rest : rely_stable G (remaining id rest).
Proof.
  intros recs recs' Hr HR1 Hq y Hy. apply Hr; [done|]. eapply untouched_holds; [|exact Hy]. by apply Hquiet.
Qed.

Lemma spec_cancel_one P id listed x rest now :
  stable G P -> is_i64 (unix_millis now) ->
  (exists z, aholds listed z /\ x = item z) ->
  spec G (fun recs => (P recs /\ guarantee G listed recs) /\ remaining id (x :: rest) recs)
    (if continuation_of id x
     then map_err_m GeAction (ActionStore.cancel (act_id (a_action x)) now (str "owning goal became terminal")) ;; mret tt
     else mret tt)
    (fun _ recs => (P recs /\ guarantee G listed recs) /\ remaining id rest recs).
Proof.
  intros Hst Hnow (z & Hz & ->). destruct (continuation_of id (item z)) eqn:Ec.
  - eapply spec_bind.
    { apply (spec_retain G _ (fun recs => P recs /\ guarantee G listed recs)); [| |
        apply spec_map_err, (spec_transition Hacodec G Hactions Hmove
          (fun recs => (P recs /\ guarantee G listed recs) /\ remaining id (item z :: rest) recs)); [|done|done]].
      - intros a b [Ha Hb] HT. split; [by eapply Hst|by etrans].
      - by intros recs [].
      - intros a b [[Ha Hb] Hr] HT. split; [split|].
        + eapply Hst; [done|]. by apply rely_guarantee.
        + etrans; [done|]. by apply rely_guarantee.
        + by eapply remaining_rely. }
    intros y. cbn beta. apply spec_ret. intros recs' [HP (recs & xa & s & [_ Hr] & (Hxa & Hs & Hk & r & ->) & Hid & _ & Hys & Hy)].
    split; [done|]. intros Hq u [[Hu Hku]|[Hu Hku]]%holds_insert Hcu.
    + assert (u = s) as ->.
      { eapply holds_inj; [|exact Hs|congruence]. apply holds_lookup. exists r. by rewrite Hku, lookup_insert_eq. }
      assert (a_state (item s) = ACancelled) as Hst'. by by rewrite <- Hys, Hy.
      unfold continuation_of in Hcu. by rewrite Hst' in Hcu.
    + destruct (Hr Hq u Hu Hcu) as (v & [->|Hv]%elem_of_cons & Hidv); [|by exists v].
      destruct Hku. unfold action_key. congruence.
  - apply spec_ret. intros recs [[HP HT] Hr]. split; [done|]. intros Hq y Hy Hc.
    destruct (Hr Hq y Hy Hc) as (v & [->|Hv]%elem_of_cons & Hid); [|by exists v].
    rewrite (continuation_before id listed recs z y) in Ec; [done|by apply Hactions|done|done| |done].
    unfold action_key. by rewrite Hid.
Qed.

(** The live continuations of a goal are in its session. *)
Definition at_home (g : Goal) (recs : Records) : Prop :=
  forall y, aholds recs y -> continuation_of (g_id g) (item y) = true ->
    act_session_id (a_action (item y)) = g_session_id g.

Lemma spec_cancel_continuations P g now :
  stable G P -> is_i64 (unix_millis now) -> (quiet -> forall recs, P recs -> at_home g recs) ->
  spec G P (cancel_continuations g now) (fun _ recs => P recs /\ remaining (g_id g) [] recs).
Proof.
  intros Hst Hnow Hhome. unfold cancel_continuations.
  eapply spec_bind; [apply spec_map_err, (spec_list_session G P); by apply stable_rely|].
  intros records. cbn beta. apply spec_pre. intros listed (HP & _ & Hin).
  set (Inv := fun rest recs => Forall (fun x => exists z, aholds listed z /\ x = item z) rest
    /\ (P recs /\ guarantee G listed recs) /\ remaining (g_id g) rest recs).
  eapply spec_bind; [eapply (spec_given G (Inv records)); [|apply (spec_for G _ Inv)]|].
  - intros recs <-. split; [|split; [split; [done|reflexivity]|]].
    + apply list.Forall_forall. intros x [_ (z & Hz & ->)]%Hin. by exists z.
    + intros Hq y Hy Hc. exists (item y). split; [|done]. apply Hin. split; [by eapply Hhome|by exists y].
  - intros x rest. apply spec_pure. intros [Hx Hrest]%Forall_cons.
    eapply spec_weaken; [by apply (spec_cancel_one P (g_id g) listed x rest now)|done|]. intros a recs Hr. by split.
  - intros us. cbn beta. apply spec_ret. intros recs (_ & [HP' _] & Hr). done.
Qed.

(** ** Transitions *)

Lemma spec_transition_stored_goal P x next summary now :
  rely_stable G P -> goal_ok (item x) -> wf_stored goal_key x -> g_archived_at (item x) = None -> is_i64 (unix_millis now) ->
  (forall recs, P recs -> gseen x recs) ->
  (goal_is_terminal next = true -> forall recs r s, P recs -> gholds recs x -> goal_succeeds x r s -> ends x s ->
     guarantee G recs (<[(Goals, goal_key (item x)) := canonical_record r]> recs)) ->
  spec G P (transition_stored x next summary now) (fun s recs' =>
    (g_state (item s) = next /\ goal_allows (g_state (item x)) next = true)
    /\ exists recs, P recs /\ replaced recs recs' x s).
Proof.
  intros Hst Hok Hwf Har Hnow Hseen Hend. unfold transition_stored. apply spec_lift_bind. intros g' Hg.
  destruct (transitioned_ok _ _ _ _ _ _ Hok Har Hg) as (_ & Hm & Hs). pose proof (transitioned_shape _ _ _ _ _ _ Hg) as [Ha _].
  eapply spec_weaken; [apply (spec_persist P x g' now); [done|done|by eapply change_transition| |done|]|done|].
  - destruct Hm as (Hi & _). unfold goal_key. by rewrite Hi.
  - intros recs r s Hl Hx Hsucc He Hst'. eapply Hend; [|by eapply later_rely|done|done|done].
    destruct He as [He _]. by rewrite Hst', Hs in He.
  - intros s recs' [Hit (recs & Hl & Hrep)]. split; [split; [by rewrite Hit|done]|]. exists recs.
    split; [by eapply later_rely|done].
Qed.

Lemma spec_transition_goal P id next summary now :
  stable G P -> (forall recs, P recs -> all_ok recs) -> is_i64 (unix_millis now) ->
  (quiet -> forall x recs, P recs -> goal_ok (item x) -> gseen x recs -> at_home (item x) recs) ->
  (forall recs x r s, P recs -> remaining (g_id (item x)) [] recs -> gholds recs x -> goal_succeeds x r s -> ends x s ->
     guarantee G recs (<[(Goals, goal_key (item x)) := canonical_record r]> recs)) ->
  spec G P (transition id next summary now) (fun y recs' => exists recs x s,
    P recs /\ replaced recs recs' x s /\ g_id (item x) = id /\ goal_allows (g_state (item x)) next = true
    /\ y = item s /\ g_state y = next /\ (goal_is_terminal next = true -> remaining id [] recs)).
Proof.
  intros Hst HPok Hnow Hhome Hend. unfold transition. eapply spec_bind; [apply spec_lock|]. intros []. cbn beta.
  eapply spec_bind; [apply spec_required_goal|]. intros x. cbn beta.
  apply (spec_given G (fun recs => (goal_ok (item x) /\ g_id (item x) = id /\ wf_stored goal_key x)
    /\ P recs /\ gseen x recs)).
  { intros recs (Hx & Hl & Hh). apply (later_stable G P) in Hl; [|done].
    split; [split; [by eapply HPok|done]|]. split; [done|by apply holds_seen]. }
  apply spec_pure. intros (Hok & Hid & Hwf).
  apply spec_lift_bind. intros [] Har%not_archived_ok.
  assert (stable G (fun recs => P recs /\ gseen x recs)) as Hst'.
  { intros a b [Ha Hb] HT. split; [by eapply Hst|by eapply seen_stable]. }
  eapply (spec_bind G _ _ (fun _ recs => (P recs /\ gseen x recs)
    /\ (goal_is_terminal next = true -> remaining (g_id (item x)) [] recs))).
  { destruct (goal_is_terminal next); [|by apply spec_ret].
    eapply spec_weaken; [apply (spec_cancel_continuations (fun recs => P recs /\ gseen x recs) (item x) now); [done|done|]|done|].
    - intros Hq recs [HP Hx]. by apply Hhome.
    - intros _ recs [H1 H2]. auto. }
  intros []. cbn beta.
  eapply spec_bind; [apply spec_transition_stored_goal; [|done|done|done|done| |]|].
  - intros a b [Ha Hb] HR1. split; [by eapply (stable_rely G _ Hst')|]. intros Ht. eapply remaining_rely; [by apply Hb|done].
  - by intros recs [[_ ?] _].
  - intros Ht recs r s [[HP _] Hrem] Hx Hsucc He. eapply Hend; eauto.
  - intros s. cbn beta. apply spec_pure. intros [Hs Ha]. apply spec_ret.
    intros recs' (recs & [[HP _] Hrem] & Hrep). exists recs, x, s. rewrite <- Hid. split_and!; done.
Qed.
(** ** Continuing *)

(** The goal [g] runs under all its limits and, when nobody else writes, has no
    live continuation in its session. *)
Definition may_continue (g : Goal) (now : UtcTimestamp) : Prop :=
  g_state g = GRunning /\ g_archived_at g = None
  /\ reached_limit (g_usage (refresh_elapsed g now)) (g_limits g) = None.

Definition continuable (x : Stored Goal) (recs : Records) : Prop :=
  quiet -> gholds recs x /\ forall y, aholds recs y -> act_session_id (a_action (item y)) = g_session_id (item x) ->
    continuation_of (g_id (item x)) (item y) = false.

Lemma continuable_rely x : rely_stable G (continuable x).
Proof.
  intros recs recs' Hc HR1 Hq. destruct (Hc Hq) as [Hx Hno]. destruct (Hquiet Hq _ _ HR1) as [Ha Hg]. split.
  - by apply (untouched_holds _ _ _ _ _ _ _ x Hg).
  - intros y Hy. apply Hno. by apply (untouched_holds _ _ _ _ _ _ _ y Ha).
Qed.

Lemma spec_enqueue_continuation P id now :
  stable G P -> (forall recs, P recs -> all_ok recs) -> is_i64 (unix_millis now) -> (forall k, id_canonical (new_id k)) ->
  (forall action_id x listed recs r s, P listed -> may_continue (item x) now -> continuable x listed ->
     rely G listed recs ->
     submits inbox (continuation action_id (refresh_elapsed (item x) now) (g_id (item x)) now) listed r s ->
     recs !! (PendingActions, rec_id r) = None ->
     guarantee G recs (<[(PendingActions, rec_id r) := canonical_record r]> recs)) ->
  spec G P (enqueue_continuation new_id inbox id now) (fun y recs' => exists x z, gseen x recs' /\ goal_ok (item x) /\ g_id (item x) = id
    /\ may_continue (item x) now /\ aholds recs' z /\ y = item z
    /\ (continuation_of id y = true
        \/ exists action_id, a_action y = continuation action_id (refresh_elapsed (item x) now) id now)).
Proof.
  intros Hst HPok Hnow Hids Hown. unfold enqueue_continuation. eapply spec_bind; [apply spec_lock|]. intros []. cbn beta.
  eapply spec_bind; [apply spec_required_goal|]. intros x. cbn beta.
  apply (spec_given G (fun recs => goal_ok (item x) /\ (g_id (item x) = id /\ wf_stored goal_key x)
    /\ later G P recs /\ gholds recs x)).
  { intros recs (Hx & Hl & Hh). split; [|done]. eapply (HPok recs); [by apply (later_stable G P) in Hl|exact Hh]. }
  apply spec_pure. intros Hok. apply spec_pure. intros [Hid Hwf].
  apply spec_lift_bind. intros [] Har%not_archived_ok.
  apply spec_lift_bind. intros [] Hrun%reject_if_ok%negb_false_iff%bool_decide_eq_true. cbn zeta.
  destruct (reached_limit _ _) as [limit|] eqn:Elim.
  { eapply spec_bind; [apply spec_persist; [done|done|by eapply change_limit|done| |]|intros s; apply spec_throw].
    - intros recs [_ Hx]. by apply holds_seen.
    - intros recs r s _ _ _ [He _] Hs. by rewrite Hs in He. }
  set (Q := fun recs => P recs /\ gseen x recs).
  assert (stable G Q) as HQ by (intros a b [Ha Hb] HT; split; [by eapply Hst|by eapply seen_stable]).
  apply (spec_given G (fun recs => Q recs /\ (quiet -> gholds recs x))).
  { intros recs [Hl Hx]. split; [split; [by apply (later_stable G P) in Hl|by apply holds_seen]|done]. }
  eapply spec_bind.
  { apply spec_map_err, spec_list_session. intros a b [Ha Hb] HR1. split; [by eapply (stable_rely G _ HQ)|].
    intros Hq. destruct (Hquiet Hq _ _ HR1) as [_ Hu]. apply (untouched_holds _ _ _ _ _ _ _ x Hu); auto. }
  intros ys. cbn beta. destruct (List.find _ ys) as [y|] eqn:Ef.
  { apply spec_ret. intros recs ([[HP Hx] _] & _ & Hin). apply find_some in Ef as [Hy Hc].
    apply list_elem_of_In, Hin in Hy as [_ (z & Hz & ->)]. exists x, z. split_and!; auto; by split_and!. }
  apply (spec_given G (fun recs => Q recs /\ continuable x recs)).
  { intros recs ([HQr Hg] & _ & Hin). split; [done|]. intros Hq. split; [auto|]. intros y Hy Hs.
    rewrite Hid. apply (find_none _ _ Ef), list_elem_of_In, Hin. split; [done|by exists y]. }
  eapply spec_bind; [apply spec_draw|]. intros k. cbn beta. apply spec_pure. intros [n ->].
  apply spec_map_err. eapply spec_weaken; [|by intros recs Hr; apply Hr|].
  - apply (spec_retain G _ Q); [done|by intros recs []|].
    apply (spec_submit inbox Hacodec G (fun recs => Q recs /\ continuable x recs)); [|done|apply Hids|].
    + intros a b [Ha Hb] HR1. split; [by eapply (stable_rely G _ HQ)|by eapply continuable_rely].
    + intros listed recs r s [[HP _] Hc] HR1 Hsub Hnone. rewrite <- Hid in Hsub. eapply Hown; eauto. by split_and!.
  - intros y recs [[HP Hx] (listed & rs & r & s & _ & _ & Hsub & _ & _ & Hs & ->)]. exists x, s.
    do 3 (split; [done|]). split; [by split_and!|]. split; [done|]. split; [done|]. right.
    destruct Hsub as (_ & _ & _ & _ & (seq & t & -> & _) & _). by eexists.
Qed.

(** [r] is the record of a new goal. *)
Definition creates_goal (r : VersionedRecord) (s : Stored Goal) : Prop :=
  decode (canonical_record r) = Ok s /\ rec_id r = goal_key (item s) /\ rec_revision r = Revision_ZERO
  /\ goal_init (item s).

Lemma spec_create_goal P session objective limits now :
  rely_stable G P -> is_i64 (unix_millis now) -> limits_typed limits -> (forall k, id_canonical (new_id k)) ->
  (forall recs r s, P recs -> creates_goal r s -> recs !! (Goals, rec_id r) = None ->
     guarantee G recs (<[(Goals, rec_id r) := canonical_record r]> recs)) ->
  spec G P (create new_id session objective limits now) (fun y recs' => exists recs r s,
    P recs /\ creates_goal r s /\ recs !! (Goals, rec_id r) = None
    /\ recs' = <[(Goals, rec_id r) := canonical_record r]> recs /\ gholds recs' s /\ y = item s).
Proof.
  intros Hst Hnow Hty Hids Hown. unfold create. apply spec_lift_bind. intros [] Hval.
  apply reject_if_ok, negb_false_iff in Hval. apply spec_lift_bind. intros [] _.
  eapply spec_bind; [apply spec_lock|]. intros []. cbn beta.
  eapply spec_bind; [apply spec_draw|]. intros k. cbn beta. apply spec_pure. intros [n ->]. cbn zeta.
  apply spec_lift_bind. intros r He.
  destruct (encode_goal _ _ Hcodec He) as (Hwf & Hri & Hrr & Hdec); [apply Hids|done|done|].
  set (g := new_goal _ _ _ _ _) in *.
  assert (creates_goal r (MkStored g Revision_ZERO)) as Hcr.
  { split; [done|]. split; [done|]. split; [done|]. unfold goal_init. simpl. eauto 10. }
  eapply spec_bind; [apply (spec_create G Goals GeRepository); [done|done|]|].
  { intros recs Hl Hnone. eapply Hown; [by eapply later_rely|done|done]. }
  intros receipt. cbn beta. apply spec_ret. intros recs' (recs & Hl & Hnone & ->).
  exists recs, r, (MkStored g Revision_ZERO). split; [by eapply later_rely|]. do 3 (split; [done|]). split; [|done].
  apply holds_lookup. exists (canonical_record r). simpl in *. by rewrite Hri, lookup_insert_eq.
Qed.

Lemma spec_get_goal P id :
  rely_stable G P -> spec G P (get id) (fun found recs => P recs
    /\ match found with
       | Some y => exists x, gholds recs x /\ y = item x /\ g_id y = id
       | None => recs !! (Goals, as_entity_id id) = None
       end).
Proof.
  intros Hst. unfold get, load. eapply spec_bind; [apply spec_lock|]. intros []. cbn beta.
  eapply spec_bind.
  { apply (spec_load_item G Goals decode goal_key goal_init goal_step GeRepository decode_goal_faithful). }
  intros found. cbn beta. apply spec_ret. intros recs (Hf & Hl & Hh).
  split; [by eapply later_rely|]. destruct found as [x|]; simpl; [|done].
  exists x. split; [done|]. split; [done|]. apply (inj as_entity_id). by apply Hf.
Qed.

Lemma spec_project_goal P id :
  rely_stable G P -> spec G P (projection id) (fun p recs => P recs
    /\ exists x, gholds recs x /\ g_id (item x) = id /\ p = goal_projection (item x)).
Proof.
  intros Hst. unfold projection. eapply spec_bind; [apply spec_lock|]. intros []. cbn beta.
  eapply spec_bind; [apply spec_required_goal|]. intros x. cbn beta. apply spec_ret.
  intros recs ([Hid _] & Hl & Hx). split; [by eapply later_rely|by exists x].
Qed.

Lemma spec_list_goals P session :
  rely_stable G P -> spec G P (list_session session) (fun ys recs => P recs
    /\ forall y, y ∈ ys <-> g_session_id y = session /\ g_archived_at y = None /\ exists x, gholds recs x /\ y = item x).
Proof.
  intros Hst. unfold list_session. eapply spec_bind; [apply spec_lock|]. intros []. cbn beta.
  eapply spec_bind; [apply spec_load_goals|]. intros xs. cbn beta. apply spec_ret.
  intros recs (_ & Hl & [_ Hin]). split; [by eapply later_rely|]. intros y.
  rewrite sort_by_perm, list_elem_of_In, filter_In, <- list_elem_of_In, list_elem_of_fmap, andb_true_iff, bool_decide_eq_true.
  assert (is_none (g_archived_at y) = true <-> g_archived_at y = None) as -> by by destruct (g_archived_at y).
  setoid_rewrite Hin. naive_solver.
Qed.
End operations.
