(* ===== verification/GoalProperties.v ===== *)
(** * Correctness of goals and their continuations

    The goal service of [Goals] together with the inbox of [ActionStore] it
    submits continuations to: runs of arbitrary operations of both, with other
    processes writing goals and actions in between (the contract [shared_goals]),
    or as their only writer (the contract [exclusive_goals]). *)

From Stdlib Require Import ZArith Lia String.
From stdpp Require Import base decidable countable relations gmap sorting option list.
From S2P Require Import Prelude RustStd AgentTypes Json StateStoreCore ItemStore.
From S2P Require Import ActionStore ActionMachine ActionProperties Goals GoalMachine.

Inductive goal_op :=
| GCreate (session : SessionId) (objective : rstr) (limits : GoalLimits)
| GGet (id : GoalId)
| GListSession (session : SessionId)
| GProject (id : GoalId)
| GEdit (id : GoalId) (edit : GoalEdit)
| GTransition (id : GoalId) (next : GoalState) (summary : option rstr)
| GPause (id : GoalId)
| GResume (id : GoalId)
| GCancel (id : GoalId) (summary : rstr)
| GEnqueue (id : GoalId)
| GCharge (id : GoalId) (delta : GoalUsageDelta)
| GBlock (id : GoalId) (summary : rstr)
| GArchive (id : GoalId)
| GInbox (op : inbox_op).

Section runs.
Context {S : Type} `{HU : Ulid, HR : Repository S, HL : !RepositoryLaws S}.
Context `{HA : Document ActionRecord, HD : Document Goal}.
Context (new_id : nat -> EntityId) (inbox : ActionInboxConfig).

Abbreviation goal_step := (goal_step repo_error).
Abbreviation gholds := (holds Goals decode goal_key goal_init goal_step).
Abbreviation aholds := (holds PendingActions ActionStore.decode action_key action_init action_step).
Abbreviation all_ok := (all_items goals goal_ok).

Definition goal_do (op : goal_op) (now : UtcTimestamp) (w : World S) : World S :=
  match op with
  | GCreate session objective limits => (create new_id session objective limits now w).2
  | GGet id => (get id w).2
  | GListSession session => (list_session session w).2
  | GProject id => (projection id w).2
  | GEdit id e => (edit id e now w).2
  | GTransition id next summary => (transition id next summary now w).2
  | GPause id => (pause id now w).2
  | GResume id => (resume id now w).2
  | GCancel id summary => (cancel id summary now w).2
  | GEnqueue id => (enqueue_continuation new_id inbox id now w).2
  | GCharge id delta => (record_usage id delta now w).2
  | GBlock id summary => (block id summary now w).2
  | GArchive id => (archive id now w).2
  | GInbox op => (inbox_do inbox op now w).2
  end.

(** A run goes on after an error. *)
Definition goal_run (ops : list (goal_op * UtcTimestamp)) (w : World S) : World S :=
  fold_left (fun w p => goal_do p.1 p.2 w) ops w.

(** Times, counters and identifiers are values of their Rust types. *)
Definition goal_typed (p : goal_op * UtcTimestamp) : Prop :=
  is_i64 (unix_millis p.2)
  /\ match p.1 with
     | GCreate _ _ limits => limits_typed limits
     | GEdit _ e => edit_typed e
     | GCharge _ delta => delta_typed delta
     | GInbox op => well_typed (op, p.2)
     | _ => True
     end.

(** The continuations of goals come from the goal service. *)
Definition leaves_goals (p : goal_op * UtcTimestamp) : Prop :=
  match p.1 with
  | GInbox (ISubmit a) => match act_payload a with PayContinueGoal _ => False | _ => True end
  | _ => True
  end.

(** ** Contracts *)

Definition both_follow (recs recs' : Records) : Prop := follows goals recs recs' /\ follows actions recs recs'.

#[export] Instance both_follow_preorder : PreOrder both_follow.
Proof. split; [by intros recs|]. intros a b c [] []. split; by etrans. Qed.

Definition shared_goals : Contract := MkContract both_follow both_follow _ _ (fun _ _ H => H).

(** A live continuation belongs to a goal of its session that has not ended, and
    a goal has at most one. *)
Definition neat (recs : Records) : Prop :=
  forall id y, aholds recs y -> continuation_of id (item y) = true ->
    (exists x, gholds recs x /\ g_id (item x) = id /\ g_session_id (item x) = act_session_id (a_action (item y))
       /\ goal_is_terminal (g_state (item x)) = false)
    /\ forall z, aholds recs z -> continuation_of id (item z) = true -> z = y.

Definition neat_follows (recs recs' : Records) : Prop :=
  both_follow recs recs' /\ (all_ok recs -> neat recs -> neat recs').

Lemma follows_all_ok recs recs' : follows goals recs recs' -> all_ok recs -> all_ok recs'.
Proof.
  intros Hf. eapply follows_all_items; [apply goal_init_ok| |exact Hf]. intros g h Hok Hs.
  by eapply goal_step_ok in Hs as [].
Qed.

#[export] Instance neat_follows_preorder : PreOrder neat_follows.
Proof.
  split; [by intros recs|]. intros a b c [Hab Nab] [Hbc Nbc]. split; [by etrans|]. intros Ha Hn.
  apply Nbc; [|auto]. eapply follows_all_ok; [apply Hab|done].
Qed.

Definition both_untouched (recs recs' : Records) : Prop :=
  untouched PendingActions recs recs' /\ untouched Goals recs recs'.

#[export] Instance both_untouched_preorder : PreOrder both_untouched.
Proof. split; [by intros recs|]. intros a b c [] []. split; by etrans. Qed.

Lemma untouched_neat recs recs' : both_untouched recs recs' -> neat recs -> neat recs'.
Proof.
  intros [Ha Hg] Hn id y Hy Hc. apply (untouched_holds _ _ _ _ _ _ _ _ Ha) in Hy.
  destruct (Hn id y Hy Hc) as [(x & Hx & Hrest) Hone]. split.
  - exists x. split; [|done]. by apply (untouched_holds _ _ _ _ _ _ _ _ Hg).
  - intros z Hz. apply Hone. by apply (untouched_holds _ _ _ _ _ _ _ _ Ha).
Qed.

Program Definition exclusive_goals : Contract := MkContract both_untouched neat_follows _ _ _.
Next Obligation.
  intros recs recs' Hu. split; [|by intros _; apply untouched_neat].
  destruct Hu. split; [by apply (untouched_follows goals)|by apply (untouched_follows actions)].
Qed.

(** ** The contracts allow the steps *)

Lemma goal_write_both recs k r :
  follows goals recs (<[(Goals, k) := r]> recs) -> both_follow recs (<[(Goals, k) := r]> recs).
Proof. intros Hf. split; [done|by apply follows_other]. Qed.

Lemma action_write_both recs k r :
  follows actions recs (<[(PendingActions, k) := r]> recs) -> both_follow recs (<[(PendingActions, k) := r]> recs).
Proof. intros Hf. split; [by apply follows_other|done]. Qed.

Lemma goal_succeeds_both recs x r s :
  gholds recs x -> goal_succeeds x r s ->
  both_follow recs (<[(Goals, goal_key (item x)) := canonical_record r]> recs).
Proof.
  intros Hx (Hdec & Hs & _ & Hrev). apply goal_write_both. eapply update_key_step; eauto. apply decode_goal_faithful.
Qed.

Lemma creates_both recs r s :
  creates_goal r s -> recs !! (Goals, rec_id r) = None ->
  both_follow recs (<[(Goals, rec_id r) := canonical_record r]> recs).
Proof. intros (Hdec & Hid & Hrev & Hinit) Hnone. apply goal_write_both. eapply create_key_step; eauto. Qed.

(** A write of a goal under whose continuations its record stays a home. *)
Lemma goal_write_neat recs k r s :
  decode r = Ok s -> goal_key (item s) = k ->
  (forall x, gholds recs x -> goal_key (item x) = k ->
     g_id (item s) = g_id (item x) /\ g_session_id (item s) = g_session_id (item x)
     /\ (forall y, aholds recs y -> continuation_of (g_id (item x)) (item y) = true ->
           goal_is_terminal (g_state (item x)) = false -> goal_is_terminal (g_state (item s)) = false)) ->
  neat recs -> neat (<[(Goals, k) := r]> recs).
Proof.
  intros Hdec Hk Hkeep Hn id y Hy%holds_insert_ne Hc; [|done].
  destruct (Hn id y Hy Hc) as [(x & Hx & Hid & Hss & Ht) Hone].
  split; [|intros z Hz%holds_insert_ne; [by apply Hone|done]].
  destruct (decide (goal_key (item x) = k)) as [Hxk|Hne].
  - destruct (Hkeep x Hx Hxk) as (Hi & Hs & Hterm). exists s. split_and!; [|congruence..|].
    + subst k. by apply holds_insert_eq.
    + subst id. by eapply Hterm.
  - exists x. split; [|done]. apply holds_insert_ne; [congruence|done].
Qed.

(** Goal steps. *)
Lemma neat_goal_step recs x r s :
  gholds recs x -> goal_succeeds x r s ->
  (ends x s -> forall y, aholds recs y -> continuation_of (g_id (item x)) (item y) = false) ->
  neat_follows recs (<[(Goals, goal_key (item x)) := canonical_record r]> recs).
Proof.
  intros Hx Hsucc Hend. split; [by eapply goal_succeeds_both|]. intros Hok. destruct Hsucc as (Hdec & Hs & Hk & _).
  destruct (goal_step_ok _ _ _ (Hok _ _ Hx) Hs) as [_ (Hi & Hss & _)]. eapply goal_write_neat; [done|done|].
  intros z Hz Hzk. assert (z = x) as -> by (eapply holds_inj; [exact Hz|exact Hx|done]). split_and!; [done|done|].
  intros y Hy Hc Ht. destruct (goal_is_terminal (g_state (item s))) eqn:Es; [|done].
  rewrite (Hend (conj Es Ht) y Hy) in Hc. done.
Qed.

Lemma neat_create recs r s :
  creates_goal r s -> recs !! (Goals, rec_id r) = None ->
  neat_follows recs (<[(Goals, rec_id r) := canonical_record r]> recs).
Proof.
  intros Hcr Hnone. split; [by eapply creates_both|]. intros _. destruct Hcr as (Hdec & Hid & _).
  eapply goal_write_neat; [done|done|]. intros x (q & Hq & _)%holds_lookup Hk. rewrite Hk, Hnone in Hq. done.
Qed.

(** A write of an action that is no continuation, or was one of the same goal. *)
Lemma action_write_neat recs k r s :
  ActionStore.decode r = Ok s -> action_key (item s) = k ->
  (forall id, continuation_of id (item s) = true ->
     exists y, aholds recs y /\ action_key (item y) = k /\ continuation_of id (item y) = true
       /\ act_session_id (a_action (item y)) = act_session_id (a_action (item s))) ->
  neat recs -> neat (<[(PendingActions, k) := r]> recs).
Proof.
  intros Hdec Hk Hold Hn.
  assert (forall id y, aholds (<[(PendingActions, k) := r]> recs) y -> continuation_of id (item y) = true ->
    exists y0, aholds recs y0 /\ action_key (item y0) = action_key (item y) /\ continuation_of id (item y0) = true
      /\ act_session_id (a_action (item y0)) = act_session_id (a_action (item y))) as Hback.
  { intros id y [[Hy Hyk]|[Hy _]]%holds_insert Hc; [|by exists y]. assert (y = s) as -> by congruence.
    destruct (Hold id Hc) as (y0 & Hy0 & Hk0 & Hrest). exists y0. split_and!; [done|congruence|apply Hrest..]. }
  intros id y Hy Hc. destruct (Hback id y Hy Hc) as (y0 & Hy0 & Hk0 & Hc0 & Hs0).
  destruct (Hn id y0 Hy0 Hc0) as [(x & Hx & Hid & Hss & Ht) Hone]. split.
  - exists x. split_and!; [by apply holds_insert_ne|done|congruence|done].
  - intros z Hz Hcz. destruct (Hback id z Hz Hcz) as (z0 & Hz0 & Hkz & Hcz0 & _).
    eapply holds_inj; [exact Hz|exact Hy|]. rewrite <- Hkz, <- Hk0. by rewrite (Hone z0 Hz0 Hcz0).
Qed.

Lemma neat_action_step recs x r s :
  aholds recs x -> succeeds x r s ->
  neat_follows recs (<[(PendingActions, action_key (item x)) := canonical_record r]> recs).
Proof.
  intros Hx Hsucc. split; [apply action_write_both; by eapply succeeds_follows|]. intros _.
  destruct Hsucc as (Hdec & Hs & Hk & Hrev). eapply action_write_neat; [done|done|]. intros id Hc. exists x.
  destruct (step_same_action _ _ Hs) as (Ha & _). split_and!; [done|done| |by rewrite Ha].
  unfold continuation_of in *. rewrite <- Ha. apply andb_true_iff in Hc as [_ ->].
  destruct (action_is_terminal (a_state (item x))) eqn:Et; [|done]. by destruct (terminal_action_stuck _ _ Et Hs).
Qed.

Lemma neat_submit a listed recs r s :
  match act_payload a with PayContinueGoal _ => False | _ => True end ->
  submits inbox a listed r s -> recs !! (PendingActions, rec_id r) = None ->
  neat_follows recs (<[(PendingActions, rec_id r) := canonical_record r]> recs).
Proof.
  intros Hp Hsub Hnone. split; [apply action_write_both; by eapply submits_follows|]. intros _.
  destruct Hsub as (Hdec & Hid & _ & _ & (seq & t & Hs & _) & _). eapply action_write_neat; [done|done|].
  intros id Hc. unfold continuation_of in Hc. rewrite Hs in Hc. apply andb_true_iff in Hc as [_ Hc]. simpl in Hc.
  by destruct (act_payload a).
Qed.

(** The continuation of a goal that goes on and has none. *)
Lemma neat_continue action_id x now listed recs r s :
  may_continue (item x) now -> continuable True x listed -> both_untouched listed recs ->
  submits inbox (continuation action_id (refresh_elapsed (item x) now) (g_id (item x)) now) listed r s ->
  recs !! (PendingActions, rec_id r) = None ->
  neat_follows recs (<[(PendingActions, rec_id r) := canonical_record r]> recs).
Proof.
  intros (Hrun & _) Hcan Hu Hsub Hnone. split; [apply action_write_both; by eapply submits_follows|]. intros _ Hn.
  destruct (Hcan I) as [Hx Hno]. apply (untouched_holds _ _ _ _ _ _ _ _ (proj2 Hu)) in Hx.
  assert (forall y, aholds recs y -> continuation_of (g_id (item x)) (item y) = false) as Hnone'.
  { intros y Hy. destruct (continuation_of _ _) eqn:Hc; [|done].
    destruct (Hn _ y Hy Hc) as [(x' & Hx' & Hid & Hss & _) _].
    assert (x' = x) as -> by (eapply holds_inj; [exact Hx'|exact Hx|]; unfold goal_key; by rewrite Hid).
    rewrite Hno in Hc; [done| |done]. by apply (untouched_holds _ _ _ _ _ _ _ _ (proj1 Hu)). }
  destruct Hsub as (Hdec & Hk & _ & _ & (seq & t & Hs & _) & _). rewrite Hk in *.
  assert (forall id y, aholds (<[(PendingActions, action_key (item s)) := canonical_record r]> recs) y ->
    continuation_of id (item y) = true -> y = s /\ id = g_id (item x) \/ aholds recs y /\ id <> g_id (item x)) as Hcase.
  { intros id y [[Hy _]|[Hy Hne]]%holds_insert Hc.
    - assert (y = s) as -> by congruence. left. split; [done|]. unfold continuation_of in Hc. rewrite Hs in Hc.
      simpl in Hc. bool_inv. done.
    - right. split; [done|]. intros ->. by rewrite Hnone' in Hc. }
  intros id y Hy Hc. destruct (Hcase id y Hy Hc) as [[-> ->]|[Hy' Hne]].
  - split; [|intros z Hz Hcz; by destruct (Hcase _ z Hz Hcz) as [[-> _]|[_ ?]]].
    exists x. split_and!; [by apply holds_insert_ne|done|by rewrite Hs|by rewrite Hrun].
  - destruct (Hn id y Hy' Hc) as [(x' & Hx' & Hrest) Hone]. split.
    + exists x'. split; [by apply holds_insert_ne|done].
    + intros z Hz Hcz. destruct (Hcase _ z Hz Hcz) as [[_ ?]|[Hz' _]]; [done|by apply Hone].
Qed.

(** ** Operations *)

Section contract.
Context (Hcodec : document_lawful Goal) (Hacodec : action_codec) (Hids : forall k, id_canonical (new_id k)).
Context (G : Contract) (quiet : Prop) (P : Records -> Prop).
Context (Hfollows : forall recs recs', guarantee G recs recs' -> follows goals recs recs').
Context (Hactions : forall recs recs', guarantee G recs recs' -> follows actions recs recs').
Context (Hquiet : quiet -> forall recs recs', rely G recs recs' -> both_untouched recs recs').
Context (Hst : stable G P) (HPok : forall recs, P recs -> all_ok recs).
Context (Hhome : quiet -> forall recs, P recs -> neat recs).
Context (Hupdate : forall recs x r s,
  gholds recs x -> goal_succeeds x r s -> ~ ends x s ->
  guarantee G recs (<[(Goals, goal_key (item x)) := canonical_record r]> recs)).
Context (Hend : forall recs x r s, P recs -> remaining quiet (g_id (item x)) [] recs ->
  gholds recs x -> goal_succeeds x r s -> ends x s ->
  guarantee G recs (<[(Goals, goal_key (item x)) := canonical_record r]> recs)).
Context (Hnew : forall recs r s, creates_goal r s -> recs !! (Goals, rec_id r) = None ->
  guarantee G recs (<[(Goals, rec_id r) := canonical_record r]> recs)).
Context (Hmove : forall recs x r s, aholds recs x -> succeeds x r s ->
  guarantee G recs (<[(PendingActions, action_key (item x)) := canonical_record r]> recs)).
Context (Hcontinue : forall now action_id x listed recs r s,
  P listed -> may_continue (item x) now -> continuable quiet x listed -> rely G listed recs ->
  submits inbox (continuation action_id (refresh_elapsed (item x) now) (g_id (item x)) now) listed r s ->
  recs !! (PendingActions, rec_id r) = None ->
  guarantee G recs (<[(PendingActions, rec_id r) := canonical_record r]> recs)).

Lemma seen_at_home x recs :
  quiet -> P recs -> goal_ok (item x) -> seen G Goals decode goal_key goal_init goal_step x recs -> at_home (item x) recs.
Proof.
  intros Hq HP Hok (recs0 & HT & Hx) y Hy Hc. destruct (Hhome Hq recs HP _ y Hy Hc) as [(z & Hz & Hid & Hss & _) _].
  destruct (follows_steps goals _ _ _ _ (Hfollows _ _ HT) Hx) as (u & Hu & Hsteps).
  destruct (goal_steps_ok _ _ _ Hok Hsteps) as (_ & Hi & Hs & _).
  assert (z = u) as ->; [|congruence]. eapply holds_inj; [exact Hz| |].
  - unfold holds, goal_key in *. by rewrite Hi.
  - unfold goal_key. congruence.
Qed.

Lemma goal_do_keeps op now w recs :
  goal_typed (op, now) -> (forall a, op = GInbox (ISubmit a) -> submission_allowed inbox G a) ->
  sees G w recs -> P recs -> exists recs', sees G (goal_do op now w) recs' /\ guarantee G recs recs'.
Proof.
  intros [Hnow Hop] Hsub Hw HP. pose proof (stable_rely G _ Hst) as Hrst. pose proof seen_at_home as Hah.
  assert (forall recs x r s, aholds recs x -> succeeds x r s -> a_state (item s) <> ARunning ->
    guarantee G recs (<[(PendingActions, action_key (item x)) := canonical_record r]> recs)) as Hmove' by eauto.
  assert (forall id change, plain change -> spec G P (modify_goal id change now) (fun _ _ => True)) as Hmod.
  { intros id change Hc. eapply spec_weaken; [by eapply spec_modify_goal|done|done]. }
  destruct op; simpl in *; [..|eapply (spec_run G (fun _ => True)); [|exact Hw|done]];
    try (eapply (spec_run G P); [|exact Hw|exact HP]).
  - eapply spec_create_goal; eauto.
  - by eapply spec_get_goal.
  - eapply spec_list_goals; eauto.
  - by eapply spec_project_goal.
  - by apply Hmod, plain_edit.
  - eapply spec_transition_goal with (quiet := quiet); eauto.
  - apply Hmod, plain_pause.
  - apply Hmod, plain_resume.
  - eapply spec_transition_goal with (quiet := quiet); eauto.
  - eapply spec_enqueue_continuation with (quiet := quiet); eauto.
  - by apply Hmod, plain_charge.
  - apply spec_lift_bind. intros [] _. apply Hmod, plain_block.
  - apply Hmod, plain_archive.
  - apply spec_inbox_do; auto; [by eauto|]. intros a ->. by apply Hsub.
Qed.

Lemma goal_run_keeps ops w recs :
  Forall goal_typed ops -> (forall now a, (GInbox (ISubmit a), now) ∈ ops -> submission_allowed inbox G a) ->
  sees G w recs -> P recs -> exists recs', sees G (goal_run ops w) recs' /\ guarantee G recs recs'.
Proof.
  intros Ht Hsub Hw HP. set (ok p := goal_typed p /\ forall a, p.1 = GInbox (ISubmit a) -> submission_allowed inbox G a).
  apply (run_keeps G ok (fun p w => goal_do p.1 p.2 w) P); [done| |done| |done].
  - intros [op now] w1 recs1 [Hop Ha] Hw1 HP1. by apply goal_do_keeps.
  - apply Forall_forall. intros [op now] Hin. split; [by eapply Forall_forall in Ht|]. simpl. intros a ->. eauto.
Qed.
End contract.

Context (Hcodec : document_lawful Goal) (Hacodec : action_codec) (Hids : forall k, id_canonical (new_id k)).

Lemma shared_goal_run ops w recs :
  sees shared_goals w recs -> Forall goal_typed ops -> all_ok recs ->
  exists recs', sees shared_goals (goal_run ops w) recs' /\ both_follow recs recs'.
Proof.
  intros Hw Ht Hok.
  apply (goal_run_keeps Hcodec Hacodec Hids shared_goals False all_ok); try done.
  - by intros rs rs' [].
  - by intros rs rs' [].
  - intros rs rs' Ha [Hf _]. by eapply follows_all_ok.
  - intros rs x r s Hx Hs _. by eapply goal_succeeds_both.
  - intros rs x r s _ _ Hx Hs _. by eapply goal_succeeds_both.
  - intros rs r s. apply creates_both.
  - intros rs x r s Hx Hs. apply action_write_both. by eapply succeeds_follows.
  - intros now id x listed rs r s _ _ _ _ Hs Hn. apply action_write_both. by eapply submits_follows.
  - intros now a _ listed rs r s _ Hs Hn. apply action_write_both. by eapply submits_follows.
Qed.

Lemma exclusive_goal_run ops w recs :
  sees exclusive_goals w recs -> Forall goal_typed ops -> Forall leaves_goals ops -> all_ok recs -> neat recs ->
  exists recs', sees exclusive_goals (goal_run ops w) recs' /\ neat_follows recs recs'.
Proof.
  intros Hw Ht Hl Hok Hn.
  apply (goal_run_keeps Hcodec Hacodec Hids exclusive_goals True (fun recs => all_ok recs /\ neat recs)); try done.
  - by intros rs rs' [[] _].
  - by intros rs rs' [[] _].
  - intros rs rs' [Ha Hne] [[Hf _] HT]. split; [by eapply follows_all_ok|auto].
  - by intros rs [].
  - by intros _ rs [].
  - intros rs x r s Hx Hs Hne. by eapply neat_goal_step.
  - intros rs x r s _ Hrem Hx Hs He. eapply neat_goal_step; [done|done|]. intros _ y Hy.
    destruct (continuation_of _ _) eqn:Hc; [|done]. destruct (Hrem I y Hy Hc) as (? & ?%elem_of_nil & _). done.
  - intros rs r s. apply neat_create.
  - intros rs x r s. apply neat_action_step.
  - intros now id x listed rs r s _. apply neat_continue.
  - intros now a Hin listed rs r s _. apply neat_submit. eapply Forall_forall in Hl; [|exact Hin]. done.
Qed.

Lemma all_ok_stable_shared : stable shared_goals all_ok.
Proof. intros recs recs' Ha [Hf _]. by eapply follows_all_ok. Qed.

Lemma shared_goal_update recs x r s :
  gholds recs x -> goal_succeeds x r s -> ~ ends x s ->
  both_follow recs (<[(Goals, goal_key (item x)) := canonical_record r]> recs).
Proof. intros Hx Hs _. by eapply goal_succeeds_both. Qed.

Lemma shared_submit a listed recs r s :
  submits inbox a listed r s -> recs !! (PendingActions, rec_id r) = None ->
  both_follow recs (<[(PendingActions, rec_id r) := canonical_record r]> recs).
Proof. intros Hs Hn. apply action_write_both. by eapply submits_follows. Qed.

(** ** Theorems *)

(** C29: whatever the goal service and the inbox do, in any order and with other
    processes writing in between: every goal stays well formed, so no resource is
    used past its limit; it keeps its identity, session and creation time; its
    state moves along the allowed transitions and its usage never decreases; an
    ended goal keeps its outcome; and an archived goal is never written again. *)
Theorem goals_lifecycle ops w recs :
  sees shared_goals w recs -> Forall goal_typed ops -> all_ok recs ->
  exists recs', sees shared_goals (goal_run ops w) recs' /\ all_ok recs'
    /\ forall x, gholds recs x -> exists y, gholds recs' y
      /\ g_id (item y) = g_id (item x) /\ g_session_id (item y) = g_session_id (item x)
      /\ g_created_at (item y) = g_created_at (item x)
      /\ usage_le (g_usage (item x)) (g_usage (item y))
      /\ rtc (fun s t => goal_allows s t = true) (g_state (item x)) (g_state (item y))
      /\ (goal_is_terminal (g_state (item x)) = true -> outcome (item y) = outcome (item x))
      /\ (is_Some (g_archived_at (item x)) ->
          recs' !! (Goals, goal_key (item x)) = recs !! (Goals, goal_key (item x))).
Proof.
  intros Hw Ht Hok. destruct (shared_goal_run ops w recs Hw Ht Hok) as (recs' & Hw' & Hf & _).
  exists recs'. split; [done|]. split; [by eapply follows_all_ok|]. intros x Hx.
  destruct (follows_steps goals _ _ _ _ Hf Hx) as (y & Hy & Hs).
  destruct (goal_steps_ok _ _ _ (Hok _ _ Hx) Hs) as (_ & Hi & Hss & Hc & Hu & Hst).
  exists y. split_and!; try done.
  - unfold holds, goal_key in *. by rewrite Hi.
  - exact (terminal_steps _ _ _ Hs).
  - intros Ha. eapply (follows_stuck goals); [done|exact Hx|]. intros z. by eapply archived_stuck.
Qed.

(** C13: as the only writer of goals and actions, the goal service keeps
    continuations in order, whatever else is submitted to the inbox: a live
    continuation always belongs to a goal of its session that has not ended, so
    ending a goal cancels what was queued for it, and a goal never has two. *)
Theorem goal_continuations ops w recs :
  sees exclusive_goals w recs -> Forall goal_typed ops -> Forall leaves_goals ops -> all_ok recs -> neat recs ->
  exists recs', sees exclusive_goals (goal_run ops w) recs' /\ neat recs'.
Proof.
  intros Hw Ht Hl Hok Hn. destruct (exclusive_goal_run ops w recs Hw Ht Hl Hok Hn) as (recs' & Hw' & _ & HT).
  exists recs'. auto.
Qed.

(** [record_usage] charges a goal exactly: each counter becomes the sum, cut
    at its limit and not by the width of its type, and the goal goes on in its
    state while every counter is below its limit; otherwise it is blocked and
    names the first limit that is used up. *)
Theorem record_usage_charges id d now w recs y w' :
  sees shared_goals w recs -> all_ok recs -> is_i64 (unix_millis now) -> delta_typed d ->
  record_usage id d now w = (Ok y, w') ->
  exists recs1 recs' x s, both_follow recs recs1 /\ sees shared_goals w' recs'
    /\ replaces Goals decode goal_key goal_init goal_step recs1 recs' x s /\ g_id (item x) = id /\ y = item s
    /\ g_limits y = g_limits (item x)
    /\ g_usage y = exact_usage (g_usage (item x)) d (g_limits (item x)) (elapsed_ms (g_started_at (item x)) now)
    /\ ((g_state y = g_state (item x) /\ Forall (fun '(_, used, limit) => used < limit)%Z (usage_limit_pairs (g_usage y) (g_limits y)))
        \/ exists k pre limit post, g_state y = GBlocked /\ g_last_stop y = Some (LimitReached k)
             /\ usage_limit_pairs (g_usage y) (g_limits y) = pre ++ (k, limit, limit) :: post
             /\ Forall (fun '(_, used, limit) => used < limit)%Z pre).
Proof.
  intros Hw Hok Hnow Hd Hr. set (P rs := all_ok rs /\ both_follow recs rs).
  assert (stable shared_goals P) as Hst.
  { intros a b [Ha Hf] HT. split; [by eapply all_ok_stable_shared|by etrans]. }
  destruct (spec_modify_goal Hcodec shared_goals (fun _ _ H => proj1 H) shared_goal_update P id _ now
    (stable_rely _ _ Hst) (fun _ H => proj1 H) Hnow (plain_charge d now Hd) recs w (Ok y) w'
    (since_now shared_goals P w recs Hw (conj Hok (reflexivity _))) Hr)
    as (recs' & Hw' & _ & recs1 & x & s & g' & [Hok1 Hf] & Hrep & Hid & Hg & Hy & Hy').
  assert (gholds recs1 x) as Hx by apply Hrep. pose proof (Hok1 _ _ Hx) as (Hl & _ & Hb & _).
  exists recs1, recs', x, s. split; [done|]. split; [done|]. split; [done|]. split; [done|].
  split; [done|]. unfold charged_goal in Hg. apply not_archived_bind in Hg as [_ [_ Hg]%reject_if_bind].
  rewrite bounded_usage_exact in Hg by done. injection Hg as <-. rewrite Hy'.
  destruct (reached_limit _ _) as [k|] eqn:Er; simpl in *.
  - split; [done|]. split; [done|]. right.
    apply reached_limit_some in Er as (pre & used & limit & post & Hp & Hle & Hpre).
    assert (used <= limit)%Z as Hge.
    { pose proof (exact_usage_below (g_usage (item x)) d (g_limits (item x)) (elapsed_ms (g_started_at (item x)) now)) as Hb'.
      rewrite Hp, Forall_app, Forall_cons in Hb'. apply Hb'. }
    assert (used = limit) as -> by lia. by exists k, pre, limit, post.
  - split; [done|]. split; [done|]. left. split; [done|]. by apply reached_limit_none.
Qed.

(** [enqueue_continuation] returns an action that is in the inbox: the live
    continuation the goal already has, or a new one for a running goal below all
    its limits, whose own limits are exactly what is left of the goal's turns,
    tokens, time and processes, and no more than is left of its children, all of
    them positive. *)
Theorem continuation_budget id now w recs y w' :
  sees shared_goals w recs -> all_ok recs -> is_i64 (unix_millis now) ->
  enqueue_continuation new_id inbox id now w = (Ok y, w') ->
  exists recs' z, sees shared_goals w' recs' /\ aholds recs' z /\ y = item z
    /\ act_payload (a_action y) = PayContinueGoal id
    /\ (continuation_of id y = true \/ exists x turns tokens elapsed processes children,
      seen shared_goals Goals decode goal_key goal_init goal_step x recs' /\ g_id (item x) = id
      /\ g_state (item x) = GRunning /\ act_session_id (a_action y) = g_session_id (item x)
      /\ act_limits (a_action y) = MkActionLimits (Some turns) (Some tokens) (Some elapsed) (Some processes) (Some children)
      /\ (let u := g_usage (refresh_elapsed (item x) now) in let l := g_limits (item x) in
          0 < turns /\ gu_turns u + turns = gl_turns l /\ 0 < tokens /\ gu_tokens u + tokens = gl_tokens l
          /\ 0 < elapsed /\ gu_elapsed_ms u + elapsed = gl_elapsed_ms l
          /\ 0 < processes /\ gu_processes u + processes = gl_processes l
          /\ 0 < children /\ gu_children u + children <= gl_children l)%Z).
Proof.
  intros Hw Hok Hnow Hr. pose proof all_ok_stable_shared as Hst.
  destruct (spec_enqueue_continuation new_id inbox Hcodec Hacodec shared_goals (fun _ _ H => proj1 H)
    shared_goal_update False ltac:(done) all_ok id now Hst (fun _ H => H) Hnow Hids
    (fun _ _ listed rs r s _ _ _ _ => shared_submit _ listed rs r s)
    recs w (Ok y) w' (since_now shared_goals all_ok w recs Hw Hok) Hr)
    as (recs' & Hw' & _ & x & z & Hx & (_ & _ & Hb & _) & Hid & (Hrn & _ & Hlim) & Hz & -> & Hcase).
  exists recs', z. split; [done|]. split; [done|]. split; [done|]. destruct Hcase as [Hc|[action_id Ha]].
  { split; [|by left]. unfold continuation_of in Hc. apply andb_true_iff in Hc as [_ Hc].
    destruct (act_payload _); try done. by apply bool_decide_eq_true in Hc as ->. }
  split; [by rewrite Ha|]. right.
  destruct (action_limits_left _ _ (proj1 (refresh_elapsed_within (item x) now Hb)) Hlim)
    as (turns & tokens & elapsed & processes & children & Hl & Hleft).
  exists x, turns, tokens, elapsed, processes, children. rewrite Ha. split_and!; try done; apply Hleft.
Qed.
End runs.
