(* ===== verification/GoalExample.v ===== *)
(** * A concrete goal service

    Closed instances of the theorems about goals: a goal that runs, queues its
    continuation, uses up its turns, and is cancelled with what was queued for it. *)

From Stdlib Require Import ZArith Lia String.
From stdpp Require Import base decidable countable relations gmap sorting option list.
From S2P Require Import Prelude RustStd AgentTypes Json StateStoreCore StateStore ItemStore Serial ServiceExample.
From S2P Require Import ActionStore ActionMachine ActionProperties ActionExample.
From S2P Require Import Goals GoalMachine GoalProperties.

(** ** Codec *)

#[export] Program Instance GoalState_enumerated : Enumerated GoalState := {|
  variants := [GDraft; GReady; GRunning; GWaiting; GReviewing; GPaused; GBlocked; GComplete; GFailed; GCancelled] |}.
Next Obligation. intros []; repeat constructor. Qed.
#[export] Instance GoalLimitKind_eq_dec : EqDecision GoalLimitKind.
Proof. solve_decision. Defined.
#[export] Program Instance GoalLimitKind_enumerated : Enumerated GoalLimitKind := {|
  variants := [LimitTurns; LimitTokens; LimitElapsedTime; LimitReviews; LimitChildren; LimitRetries; LimitProcesses;
               LimitStorage; LimitCost] |}.
Next Obligation. intros []; repeat constructor. Qed.

#[export] Program Instance Serial_goal_limits : Serial GoalLimits :=
  Serial_via (fun x => (gl_turns x, gl_tokens x, gl_elapsed_ms x, gl_reviews x, gl_children x, gl_retries x,
                        gl_processes x, gl_storage_bytes x, gl_cost_microunits x))
    (fun t => let '(a, b, c, d, e, f, g, h, i) := t in Some (MkGoalLimits a b c d e f g h i)) _.
Next Obligation. by intros []. Qed.
#[export] Program Instance Serial_goal_usage : Serial GoalUsage :=
  Serial_via (fun x => (gu_turns x, gu_tokens x, gu_elapsed_ms x, gu_reviews x, gu_children x, gu_retries x,
                        gu_processes x, gu_storage_bytes x, gu_cost_microunits x))
    (fun t => let '(a, b, c, d, e, f, g, h, i) := t in Some (MkGoalUsage a b c d e f g h i)) _.
Next Obligation. by intros []. Qed.
#[export] Program Instance Serial_goal_summary : Serial GoalTerminalSummary :=
  Serial_via (fun x => (gs_state x, gs_summary x, gs_finished_at x, gs_final_usage x))
    (fun t => let '(a, b, c, d) := t in Some (MkGoalSummary a b c d)) _.
Next Obligation. by intros []. Qed.
#[export] Instance Serial_goal_stop : Serial GoalStopReason.
Proof.
  refine (Serial_via (fun x => match x with LimitReached k => (0, ser k) | UserBlocked s => (1, ser s) end%Z)
  (fun p => match p.1 with
    | 0 => LimitReached <$> de_all p.2
    | 1 => UserBlocked <$> de_all p.2
    | _ => None
    end%Z) _).
  intros []; cbn [fst snd]; rewrite de_all_ser; reflexivity.
Defined.
#[export] Program Instance Serial_goal : Serial Goal :=
  Serial_via (fun x => (g_id x, g_session_id x, g_objective x, g_state x, g_limits x, g_usage x, g_plan_id x,
                        g_waiting_condition_id x, g_created_at x, g_updated_at x, g_started_at x, g_terminal_summary x,
                        g_last_stop x, g_archived_at x, g_revision x, g_resume_state x))
    (fun t => let '(a, b, c, d, e, f, g, h, i, j, k, l, m, n, o, p) := t in
              Some (MkGoal a b c d e f g h i j k l m n o p)) _.
Next Obligation. by intros []. Qed.

#[export] Instance goal_document : Document Goal := serial_document (fun _ => true).

Lemma goal_document_lawful : document_lawful Goal.
Proof. apply serial_document_lawful. Qed.

(** ** A run *)

Abbreviation run_goals := (goal_run nth_id default_inbox_config).

(** The first identifier that is drawn. *)
Definition first_goal : GoalId := MkTypedId (nth_id 0).
Definition two_turns : GoalLimits := MkGoalLimits 2 1000 100000 5 5 5 5 1000 1000.
Definition one_turn : GoalUsageDelta := MkGoalDelta 1 10 0 0 0 0 0 0.

Definition start_goal : list (goal_op * UtcTimestamp) :=
  [(GCreate sample_session (str "ship it") two_turns, moment 1); (GTransition first_goal GReady None, moment 2);
   (GTransition first_goal GRunning None, moment 3)].
Definition work_on_goal : list (goal_op * UtcTimestamp) :=
  [(GEnqueue first_goal, moment 4); (GInbox (ISubmit user_prompt), moment 5); (GCharge first_goal one_turn, moment 6);
   (GEnqueue first_goal, moment 7)].
Definition end_goal : list (goal_op * UtcTimestamp) :=
  [(GCharge first_goal one_turn, moment 8); (GResume first_goal, moment 9); (GCancel first_goal (str "enough"), moment 10);
   (GArchive first_goal, moment 11)].

Definition started_world : SampleWorld := run_goals start_goal fresh_world.
Definition worked_world : SampleWorld := run_goals (start_goal ++ work_on_goal) fresh_world.

Lemma one_turn_typed : delta_typed one_turn.
Proof. by vm_compute. Qed.

Lemma goal_ops_typed : Forall goal_typed (start_goal ++ work_on_goal ++ end_goal).
Proof.
  repeat (apply Forall_cons; split; [split; [apply moment_i64; simpl; lia|simpl]|]); try apply Forall_nil; try done.
  split; [apply moment_i64; simpl; lia|]. apply named_id_canonical. lia.
Qed.

Lemma goal_ops_leave : Forall leaves_goals (start_goal ++ work_on_goal ++ end_goal).
Proof. repeat (apply Forall_cons; split; [done|]). apply Forall_nil; done. Qed.

Definition goal_states (w : SampleWorld) : option (GoalState * option GoalStopReason * bool) :=
  match (get first_goal w).1 with
  | Ok (Some g) => Some (g_state g, g_last_stop g, bool_decide (is_Some (g_archived_at g)))
  | _ => None
  end.

Definition queue (w : SampleWorld) : list (ActionPayload * ActionState) :=
  match (ActionStore.list_session sample_session w).1 with
  | Ok xs => (fun x => (act_payload (a_action x), a_state x)) <$> xs
  | Err _ => []
  end.

Lemma fresh_neat : neat ∅.
Proof. intros id y Hy. destruct (empty_holds _ _ _ _ _ y Hy). Qed.

(** ** Instances *)

Lemma goals_lifecycle_witness :
  goal_states (run_goals (start_goal ++ work_on_goal ++ end_goal) fresh_world) = Some (GCancelled, None, true)
  /\ exists recs', sees shared_goals (run_goals (start_goal ++ work_on_goal ++ end_goal) fresh_world) recs'
    /\ all_items goals goal_ok recs'.
Proof.
  split; [vm_compute; reflexivity|].
  destruct (goals_lifecycle nth_id default_inbox_config goal_document_lawful action_document_codec nth_id_canonical
    (start_goal ++ work_on_goal ++ end_goal) fresh_world ∅ (fresh_sees _) goal_ops_typed (empty_all_items _ _))
    as (recs' & Hs & Hok & _).
  exists recs'. exact (conj Hs Hok).
Defined.

Lemma goal_continuations_witness :
  queue worked_world = [(PayPrompt (str "hello"), AQueued); (PayContinueGoal first_goal, AQueued)]
  /\ queue (run_goals (start_goal ++ work_on_goal ++ end_goal) fresh_world)
     = [(PayPrompt (str "hello"), AQueued); (PayContinueGoal first_goal, ACancelled)]
  /\ exists recs', sees exclusive_goals (run_goals (start_goal ++ work_on_goal ++ end_goal) fresh_world) recs' /\ neat recs'.
Proof.
  do 2 (split; [vm_compute; reflexivity|]).
  exact (goal_continuations nth_id default_inbox_config goal_document_lawful action_document_codec nth_id_canonical
    (start_goal ++ work_on_goal ++ end_goal) fresh_world ∅ (fresh_sees _) goal_ops_typed goal_ops_leave
    (empty_all_items _ _) fresh_neat).
Defined.

Lemma worked_sees : exists recs, sees shared_goals worked_world recs /\ all_items goals goal_ok recs.
Proof.
  destruct (shared_goal_run nth_id default_inbox_config goal_document_lawful action_document_codec nth_id_canonical
    (start_goal ++ work_on_goal) fresh_world ∅ (fresh_sees _)) as (recs & Hs & Hf & _).
  - pose proof goal_ops_typed as Ht. rewrite app_assoc in Ht. by apply Forall_app in Ht as [Ht _].
  - apply empty_all_items.
  - exists recs. split; [done|]. eapply follows_all_ok; [done|apply empty_all_items].
Qed.

(** The second turn is the last of the goal. *)
Abbreviation last_turn := (record_usage first_goal one_turn (moment 8) worked_world).

Lemma record_usage_charges_witness :
  goal_states last_turn.2 = Some (GBlocked, Some (LimitReached LimitTurns), false)
  /\ exists recs' s, sees shared_goals last_turn.2 recs' /\ holds Goals decode goal_key goal_init (goal_step repo_error) recs' s
    /\ last_turn.1 = Ok (item s).
Proof.
  split; [vm_compute; reflexivity|]. destruct worked_sees as (recs & Hs & Hok).
  destruct (ok_pair last_turn) as [y Hr]; [vm_compute; reflexivity|].
  destruct (record_usage_charges goal_document_lawful first_goal one_turn (moment 8) worked_world recs y last_turn.2
    Hs Hok ltac:(apply moment_i64; lia) one_turn_typed Hr) as (recs1 & recs' & x & s & _ & Hs' & (_ & Hh & _) & _ & Hy & _).
  exists recs', s. split; [exact Hs'|]. split; [exact Hh|]. rewrite Hr, Hy. reflexivity.
Defined.

(** The first continuation of a goal that has just started. *)
Definition queued_turn := enqueue_continuation nth_id default_inbox_config first_goal (moment 4) (run_goals start_goal fresh_world).

Lemma continuation_budget_witness :
  option_map (fun y => max_turns (act_limits (a_action y))) (result_ok queued_turn.1) = Some (Some 2%Z)
  /\ exists recs' z, sees shared_goals queued_turn.2 recs' /\ queued_turn.1 = Ok (item z)
    /\ act_payload (a_action (item z)) = PayContinueGoal first_goal.
Proof.
  split; [vm_compute; reflexivity|].
  destruct (shared_goal_run nth_id default_inbox_config goal_document_lawful action_document_codec nth_id_canonical
    start_goal fresh_world ∅ (fresh_sees _) (proj1 (proj1 (Forall_app _ _ _) goal_ops_typed)) (empty_all_items _ _))
    as (recs & Hs & Hf & _).
  pose proof (follows_all_ok _ _ Hf (empty_all_items _ _)) as Hok.
  destruct (ok_pair queued_turn) as [y Hr]; [vm_compute; reflexivity|].
  destruct (continuation_budget nth_id default_inbox_config goal_document_lawful action_document_codec nth_id_canonical
    first_goal (moment 4) _ recs y queued_turn.2 Hs Hok ltac:(apply moment_i64; lia) Hr)
    as (recs' & z & Hs' & _ & Hy & Hp & _).
  exists recs', z. split; [exact Hs'|]. rewrite Hr, <- Hy. exact (conj eq_refl Hp).
Defined.
