(* ===== verification/Commitments.v ===== *)
(** * Commitments: [crates/commitments/src/lib.rs]

    What a user or the agent promised, as durable records: a commitment with a
    trigger is parked as a wait of [Waiting], and moving on cancels that wait.
    The repository is the interface of [StateStoreCore]; the derived codec of a
    commitment and the identifiers that are drawn are parameters. *)

From Stdlib Require Import ZArith Lia String.
From stdpp Require Import base decidable countable relations gmap sorting option list.
From S2P Require Import Prelude RustStd AgentTypes Json StateStoreCore ItemStore ActionStore Waiting.

(** ** Data *)

Inductive CommitmentOwner := OwnerUser | OwnerAgent | OwnerShared.

Inductive CommitmentState :=
| CCaptured | CScheduled | CActive | CWaiting | CFulfilled | CBlocked | CCancelled | CExpired.

#[export] Instance CommitmentState_eq_dec : EqDecision CommitmentState.
Proof. solve_decision. Defined.

Definition commitment_is_terminal (s : CommitmentState) : bool :=
  match s with CFulfilled | CCancelled | CExpired => true | _ => false end.

Definition commitment_allows (self next : CommitmentState) : bool :=
  match self with
  | CCaptured => match next with CScheduled | CActive | CCancelled | CExpired => true | _ => false end
  | CScheduled =>
      match next with CActive | CWaiting | CFulfilled | CBlocked | CCancelled | CExpired => true | _ => false end
  | CActive => match next with CWaiting | CFulfilled | CBlocked | CCancelled | CExpired => true | _ => false end
  | CWaiting => match next with CActive | CFulfilled | CBlocked | CCancelled | CExpired => true | _ => false end
  | CBlocked => match next with CActive | CCancelled | CExpired => true | _ => false end
  | CFulfilled | CCancelled | CExpired => false
  end.

Record Commitment := MkCommitment {
  c_version : SchemaVersion;
  c_id : CommitmentId;
  c_profile_id : ProfileId;
  c_session_id : SessionId;
  c_description : rstr;
  c_owner : CommitmentOwner;
  c_trigger : option WakeTrigger;
  c_state : CommitmentState;
  c_reply_route : option ReplyRoute;
  c_expires_at : option UtcTimestamp;
  c_waiting_id : option EntityId;
  c_created_at : UtcTimestamp;
  c_updated_at : UtcTimestamp;
  c_safe_detail : option rstr
}.

Record NewCommitment := MkNewCommitment {
  nc_profile_id : ProfileId;
  nc_session_id : SessionId;
  nc_description : rstr;
  nc_owner : CommitmentOwner;
  nc_trigger : option WakeTrigger;
  nc_reply_route : option ReplyRoute;
  nc_expires_at : option UtcTimestamp
}.

Record CommitmentUpdate := MkCommitmentUpdate {
  cu_description : option rstr;
  cu_owner : option CommitmentOwner;
  cu_trigger : option (option WakeTrigger);
  cu_reply_route : option (option ReplyRoute);
  cu_expires_at : option (option UtcTimestamp)
}.

(** [R] is the error of the repository. *)
Inductive CommitmentError (R : Type) :=
| CeRepository (error : R)
| CeCorrupt (reason : ItemCorrupt)
| CeInvalid
| CeNotFound
| CeInvalidTransition
| CeLockPoisoned
| CeRevisionOverflow
| CeWaiting (error : WaitingError R).
Global Arguments CeRepository {R}.
Global Arguments CeCorrupt {R}.
Global Arguments CeInvalid {R}.
Global Arguments CeNotFound {R}.
Global Arguments CeInvalidTransition {R}.
Global Arguments CeLockPoisoned {R}.
Global Arguments CeRevisionOverflow {R}.
Global Arguments CeWaiting {R}.

Record CommitmentSnapshot := MkCommitmentSnapshot { snap_commitment : Commitment; snap_revision : Revision }.

(** ** Field updates *)

Definition with_description (d : rstr) (c : Commitment) : Commitment :=
  MkCommitment (c_version c) (c_id c) (c_profile_id c) (c_session_id c) d (c_owner c) (c_trigger c) (c_state c)
    (c_reply_route c) (c_expires_at c) (c_waiting_id c) (c_created_at c) (c_updated_at c) (c_safe_detail c).
Definition with_owner (o : CommitmentOwner) (c : Commitment) : Commitment :=
  MkCommitment (c_version c) (c_id c) (c_profile_id c) (c_session_id c) (c_description c) o (c_trigger c) (c_state c)
    (c_reply_route c) (c_expires_at c) (c_waiting_id c) (c_created_at c) (c_updated_at c) (c_safe_detail c).
Definition with_trigger (t : option WakeTrigger) (s : CommitmentState) (c : Commitment) : Commitment :=
  MkCommitment (c_version c) (c_id c) (c_profile_id c) (c_session_id c) (c_description c) (c_owner c) t s
    (c_reply_route c) (c_expires_at c) (c_waiting_id c) (c_created_at c) (c_updated_at c) (c_safe_detail c).
Definition with_reply_route (r : option ReplyRoute) (c : Commitment) : Commitment :=
  MkCommitment (c_version c) (c_id c) (c_profile_id c) (c_session_id c) (c_description c) (c_owner c) (c_trigger c)
    (c_state c) r (c_expires_at c) (c_waiting_id c) (c_created_at c) (c_updated_at c) (c_safe_detail c).
Definition with_expiry (e : option UtcTimestamp) (c : Commitment) : Commitment :=
  MkCommitment (c_version c) (c_id c) (c_profile_id c) (c_session_id c) (c_description c) (c_owner c) (c_trigger c)
    (c_state c) (c_reply_route c) e (c_waiting_id c) (c_created_at c) (c_updated_at c) (c_safe_detail c).
Definition with_state (s : CommitmentState) (waiting : option EntityId) (detail : option rstr) (now : UtcTimestamp)
    (c : Commitment) : Commitment :=
  MkCommitment (c_version c) (c_id c) (c_profile_id c) (c_session_id c) (c_description c) (c_owner c) (c_trigger c)
    s (c_reply_route c) (c_expires_at c) waiting (c_created_at c) now detail.

(** ** Checks and changes *)

Definition validate_description {E} (description : rstr) : result (CommitmentError E) unit :=
  reject_if (str_blank description || (16 * 1024 <? str_len description)%Z)%bool CeInvalid.

Definition expired_at (expiry : option UtcTimestamp) (now : UtcTimestamp) : bool :=
  match expiry with Some expiry => rleb expiry now | None => false end.

Definition trigger_state (trigger : option WakeTrigger) : CommitmentState :=
  match trigger with Some _ => CScheduled | None => CCaptured end.

Definition new_commitment (id : CommitmentId) (request : NewCommitment) (now : UtcTimestamp) : Commitment :=
  MkCommitment CURRENT_SCHEMA_VERSION id (nc_profile_id request) (nc_session_id request) (nc_description request)
    (nc_owner request) (nc_trigger request) (trigger_state (nc_trigger request)) (nc_reply_route request)
    (nc_expires_at request) None now now None.

(** [update], between reading the commitment and writing it. *)
Definition updated_commitment {E} (c : Commitment) (update : CommitmentUpdate) (now : UtcTimestamp)
  : result (CommitmentError E) Commitment :=
  reject_if (commitment_is_terminal (c_state c)) CeInvalidTransition ;;
  c ← match cu_description update with
      | Some description => validate_description description ;; Ok (with_description description c)
      | None => Ok c
      end;
  let c := match cu_owner update with Some owner => with_owner owner c | None => c end in
  c ← match cu_trigger update with
      | Some trigger =>
          reject_if (bool_decide (c_state c = CWaiting)) CeInvalidTransition ;;
          Ok (with_trigger trigger (trigger_state trigger) c)
      | None => Ok c
      end;
  let c := match cu_reply_route update with Some route => with_reply_route route c | None => c end in
  c ← match cu_expires_at update with
      | Some expiry => reject_if (expired_at expiry now) CeInvalid ;; Ok (with_expiry expiry c)
      | None => Ok c
      end;
  Ok (with_state (c_state c) (c_waiting_id c) (c_safe_detail c) now c).

(** [begin_waiting], once the wait [id] is registered. *)
Definition parked (id : EntityId) (now : UtcTimestamp) (c : Commitment) : Commitment :=
  with_state CWaiting (Some id) (c_safe_detail c) now c.

(** [transition], once the wait is cancelled. *)
Definition moved_commitment (next : CommitmentState) (detail : option rstr) (now : UtcTimestamp) (c : Commitment)
  : Commitment :=
  with_state next (c_waiting_id c) (take 512 <$> detail) now c.

(** ** The service *)

Section service.
Context {S : Type} `{HR : Repository S, HW : Document WaitingItem, HC : Document Commitment}.
Context (new_id : nat -> EntityId).

Abbreviation Error := (CommitmentError repo_error).
Abbreviation commitment_m := (stateT (World S) Error).
Abbreviation StoredCommitment := (Stored Commitment).

Definition commitment_record (c : Commitment) (revision : Revision) : result Error VersionedRecord :=
  payload ← map_err (fun e => CeCorrupt (CorruptDocument e)) (to_value c);
  Ok (MkVersionedRecord CURRENT_SCHEMA_VERSION (as_entity_id (c_id c)) revision (c_updated_at c) payload).

Definition decode_commitment (r : VersionedRecord) : result Error StoredCommitment :=
  c ← map_err (fun e => CeCorrupt (CorruptDocument e)) (from_value (rec_payload r));
  reject_if (negb (bool_decide (as_entity_id (c_id c) = rec_id r))
             || negb (sv_major (c_version c) =? sv_major CURRENT_SCHEMA_VERSION)%Z)%bool
    (CeCorrupt CorruptEnvelope) ;;
  Ok (MkStored c (rec_revision r)).

Definition lock : commitment_m unit := lock_serial Commitments CeLockPoisoned.

Definition required (id : CommitmentId) : commitment_m StoredCommitment :=
  found ← load_item Commitments CeRepository decode_commitment (as_entity_id id);
  lift (ok_or found CeNotFound).

Definition load_all : commitment_m (list StoredCommitment) := load_items Commitments CeRepository decode_commitment.

Definition put (stored : StoredCommitment) : commitment_m StoredCommitment :=
  revision ← lift (ok_or (checked_next (storage_revision stored)) CeRevisionOverflow);
  r ← lift (commitment_record (item stored) revision);
  map_err_m CeRepository (call_put Commitments r (PreExact (storage_revision stored))) ;;
  mret (MkStored (item stored) revision).

Definition create (request : NewCommitment) (now : UtcTimestamp) : commitment_m Commitment :=
  lift (validate_description (nc_description request)) ;;
  lift (reject_if (expired_at (nc_expires_at request) now) CeInvalid) ;;
  id ← draw_id new_id;
  let c := new_commitment (MkTypedId id) request now in
  r ← lift (commitment_record c Revision_ZERO);
  map_err_m CeRepository (call_put Commitments r PreMissing) ;;
  mret c.

(** [let _ = m;] *)
Definition ignored {E A} (m : stateT (World S) E A) : commitment_m unit := fun w => (Ok tt, (m w).2).

(** A commitment that cannot be written gives its wait back. *)
Definition put_or_cancel (stored : StoredCommitment) (waiting : EntityId) (now : UtcTimestamp)
  : commitment_m StoredCommitment :=
  fun w => match put stored w with
           | (Err error, w) => (ignored (Waiting.cancel waiting now) ;; throw error) w
           | (Ok stored, w) => (Ok stored, w)
           end.

Definition begin_waiting (id : CommitmentId) (now : UtcTimestamp) : commitment_m (Commitment * ReleaseDirective) :=
  lock ;;
  stored ← required id;
  let c := item stored in
  lift (reject_if (negb (bool_decide (c_state c = CScheduled \/ c_state c = CActive))) CeInvalidTransition) ;;
  trigger ← lift (ok_or (c_trigger c) CeInvalid);
  registered ← map_err_m CeWaiting (register new_id
      (MkNewWaiting (c_profile_id c) (c_session_id c) trigger (c_reply_route c) (c_expires_at c)) now);
  stored ← put_or_cancel (MkStored (parked (w_id registered.1) now c) (storage_revision stored)) (w_id registered.1) now;
  mret (item stored, registered.2).

Definition update (id : CommitmentId) (u : CommitmentUpdate) (now : UtcTimestamp) : commitment_m Commitment :=
  lock ;;
  stored ← required id;
  c ← lift (updated_commitment (item stored) u now);
  stored ← put (MkStored c (storage_revision stored));
  mret (item stored).

(** [transition] cancels the wait of the commitment while it can be cancelled. *)
Definition release_wait (c : Commitment) (now : UtcTimestamp) : commitment_m unit :=
  match c_waiting_id c with
  | None => mret tt
  | Some waiting_id =>
      waits ← map_err_m CeWaiting (Waiting.list_session (c_session_id c));
      if existsb (fun x => bool_decide (w_id x = waiting_id) && bool_decide (w_state x = Armed \/ w_state x = Fired)) waits
      then ignored (Waiting.cancel waiting_id now) else mret tt
  end.

Definition transition (id : CommitmentId) (next : CommitmentState) (detail : option rstr) (now : UtcTimestamp)
  : commitment_m Commitment :=
  lock ;;
  stored ← required id;
  let c := item stored in
  lift (reject_if (negb (commitment_allows (c_state c) next)) CeInvalidTransition) ;;
  release_wait c now ;;
  stored ← put (MkStored (moved_commitment next detail now c) (storage_revision stored));
  mret (item stored).

Definition activate (id : CommitmentId) (now : UtcTimestamp) : commitment_m Commitment :=
  transition id CActive None now.

Definition fulfill (id : CommitmentId) (detail : option rstr) (now : UtcTimestamp) : commitment_m Commitment :=
  transition id CFulfilled detail now.

Definition block (id : CommitmentId) (detail : rstr) (now : UtcTimestamp) : commitment_m Commitment :=
  lift (reject_if (str_blank detail) CeInvalid) ;;
  transition id CBlocked (Some detail) now.

Definition cancel (id : CommitmentId) (now : UtcTimestamp) : commitment_m Commitment :=
  transition id CCancelled None now.

Definition is_overdue (now : UtcTimestamp) (x : StoredCommitment) : bool :=
  negb (commitment_is_terminal (c_state (item x))) && expired_at (c_expires_at (item x)) now.

Definition expire_due (now : UtcTimestamp) : commitment_m (list Commitment) :=
  records ← load_all;
  map_m (fun id => transition id CExpired None now)
        ((fun x => c_id (item x)) <$> List.filter (is_overdue now) records).

Definition list_profile (profile : ProfileId) : commitment_m (list Commitment) :=
  records ← load_all;
  mret (sort_by (fun x y => rcmp (c_created_at x) (c_created_at y))
          (item <$> List.filter (fun x => bool_decide (c_profile_id (item x) = profile)) records)).

Definition inspect (id : CommitmentId) : commitment_m Commitment :=
  stored ← required id;
  mret (item stored).

Definition inspect_scoped (profile : ProfileId) (id : CommitmentId) : commitment_m (option CommitmentSnapshot) :=
  found ← load_item Commitments CeRepository decode_commitment (as_entity_id id);
  match found with
  | None => mret None
  | Some stored =>
      if bool_decide (c_profile_id (item stored) = profile)
      then mret (Some (MkCommitmentSnapshot (item stored) (storage_revision stored)))
      else mret None
  end.
End service.
