(* ===== verification/CommitmentMachine.v ===== *)
(** * The life of a commitment

    What may happen to one commitment, as a step relation, and the operations of
    the service of [Commitments] in the logic of [ItemStore].  The waits it parks
    commitments as follow the machine of [WaitingMachine]. *)

From Stdlib Require Import ZArith Lia String.
From stdpp Require Import base decidable countable relations gmap sorting option list.
From S2P Require Import Prelude RustStd AgentTypes Json StateStoreCore ItemStore.
From S2P Require Import ActionStore Waiting WaitingMachine Commitments.

Definition commitment_key (c : Commitment) : EntityId := as_entity_id (c_id c).

(** ** Steps *)

(** The states the operations move a commitment to. *)
Definition move_target (s : CommitmentState) : Prop :=
  s = CActive \/ s = CFulfilled \/ s = CBlocked \/ s = CCancelled \/ s = CExpired.

Inductive commitment_step : Commitment -> Commitment -> Prop :=
| step_park c waiting now trigger :
    c_state c = CScheduled \/ c_state c = CActive -> c_trigger c = Some trigger ->
    commitment_step c (parked waiting now c)
| step_update c u now c' : updated_commitment (E := unit) c u now = Ok c' -> commitment_step c c'
| step_move c next detail now :
    commitment_allows (c_state c) next = true -> move_target next ->
    commitment_step c (moved_commitment next detail now c).

Definition commitment_init (c : Commitment) : Prop :=
  exists id request now, validate_description (E := unit) (nc_description request) = Ok tt
    /\ expired_at (nc_expires_at request) now = false /\ c = new_commitment id request now.

(** Triggers and waits agree with the state, and texts are within their bounds. *)
Definition commitment_ok (c : Commitment) : Prop :=
  str_blank (c_description c) = false /\ (str_len (c_description c) <= 16 * 1024)%Z
  /\ match c_safe_detail c with Some d => length d <= 512 | None => True end
  /\ (c_state c = CCaptured -> c_trigger c = None)
  /\ (c_state c = CScheduled -> is_Some (c_trigger c))
  /\ (c_state c = CWaiting -> is_Some (c_trigger c) /\ is_Some (c_waiting_id c)).

(** What never changes. *)
Definition commitment_identity (c : Commitment) :=
  (c_version c, c_id c, c_profile_id c, c_session_id c, c_created_at c).

(** An update, by the field it is about. *)
Lemma validate_description_ok {E} d :
  validate_description (E := E) d = Ok tt <-> str_blank d = false /\ (str_len d <= 16 * 1024)%Z.
Proof. unfold validate_description. rewrite reject_if_ok, orb_false_iff. destruct (Z.ltb_spec (16 * 1024) (str_len d)); naive_solver lia. Qed.

(** An update in one piece. *)
Definition update_allowed (c : Commitment) (u : CommitmentUpdate) (now : UtcTimestamp) : Prop :=
  commitment_is_terminal (c_state c) = false
  /\ (forall d, cu_description u = Some d -> str_blank d = false /\ (str_len d <= 16 * 1024)%Z)
  /\ (is_Some (cu_trigger u) -> c_state c <> CWaiting)
  /\ (forall e, cu_expires_at u = Some e -> expired_at e now = false).

Definition update_result (c : Commitment) (u : CommitmentUpdate) (now : UtcTimestamp) : Commitment :=
  MkCommitment (c_version c) (c_id c) (c_profile_id c) (c_session_id c)
    (default (c_description c) (cu_description u)) (default (c_owner c) (cu_owner u))
    (default (c_trigger c) (cu_trigger u))
    (match cu_trigger u with Some t => trigger_state t | None => c_state c end)
    (default (c_reply_route c) (cu_reply_route u)) (default (c_expires_at c) (cu_expires_at u))
    (c_waiting_id c) (c_created_at c) now (c_safe_detail c).

Lemma optional_field {E A B C} (o : option A) (check : A -> result E unit) (f : A -> B -> B) b (k : B -> result E C) x :
  (c ← match o with Some a => check a ;; Ok (f a b) | None => Ok b end; k c) = Ok x
  <-> (forall a, o = Some a -> check a = Ok tt) /\ k (match o with Some a => f a b | None => b end) = Ok x.
Proof.
  destruct o as [a|]; simpl; [|split; [done|by intros []]]. split.
  - destruct (check a) as [[]|] eqn:Ec; simpl; [|done]. intros Hk. split; [by intros a' [= <-]|done].
  - intros [Hc Hk]. by rewrite (Hc a eq_refl).
Qed.

Lemma updated_commitment_spec {E} c u now c' :
  updated_commitment (E := E) c u now = Ok c' <-> update_allowed c u now /\ c' = update_result c u now.
Proof.
  destruct u as [d o t rr e]. unfold updated_commitment, update_allowed. cbn [cu_description cu_owner cu_trigger cu_reply_route cu_expires_at].
  rewrite reject_if_bind, (optional_field d validate_description with_description).
  set (c1 := match d with Some _ => _ | None => c end). cbn zeta. set (c2 := match o with Some _ => _ | None => c1 end).
  rewrite (optional_field t (fun _ => reject_if (bool_decide (c_state c2 = CWaiting)) CeInvalidTransition)
    (fun t => with_trigger t (trigger_state t))).
  set (c3 := match t with Some _ => _ | None => c2 end). set (c4 := match rr with Some _ => _ | None => c3 end).
  rewrite (optional_field e (fun e => reject_if (expired_at e now) CeInvalid) with_expiry).
  set (c5 := match e with Some _ => _ | None => c4 end).
  assert (c_state c2 = c_state c) as Hs by (subst c1 c2; by destruct o, d).
  assert (with_state (c_state c5) (c_waiting_id c5) (c_safe_detail c5) now c5
    = update_result c (MkCommitmentUpdate d o t rr e) now) as ->.
  { subst c1 c2 c3 c4 c5. unfold update_result. by destruct d, o, t, rr, e. }
  rewrite Hs. setoid_rewrite validate_description_ok. setoid_rewrite reject_if_ok. setoid_rewrite bool_decide_eq_false.
  split.
  - intros (? & ? & Ht & ? & [= <-]). split_and!; try done. intros [t' ->]. by eapply Ht.
  - intros [(? & ? & Ht & ?) ->]. split_and!; try done. intros t' ->. eauto.
Qed.

Lemma step_identity c c' : commitment_step c c' -> commitment_identity c' = commitment_identity c.
Proof. destruct 1 as [| |]; [done| |done]. by apply updated_commitment_spec in H as [_ ->]. Qed.

Lemma steps_identity c c' : rtc commitment_step c c' -> commitment_identity c' = commitment_identity c.
Proof. induction 1 as [|x y z Hs _ IH]; [done|]. rewrite IH. by apply step_identity. Qed.

Lemma terminal_commitment_stuck c c' : commitment_is_terminal (c_state c) = true -> ~ commitment_step c c'.
Proof.
  intros Ht Hs. destruct Hs as [c w n t Hc _|c u n c' Hu|c next d n Ha _].
  - by destruct Hc as [Hc|Hc]; rewrite Hc in Ht.
  - apply updated_commitment_spec in Hu as [[Hu _] _]. congruence.
  - by destruct (c_state c).
Qed.

Lemma commitment_init_ok c : commitment_init c -> commitment_ok c.
Proof.
  intros (id & request & now & [Hb Hl]%validate_description_ok & _ & ->). unfold commitment_ok. simpl.
  split_and!; try done; by destruct (nc_trigger request).
Qed.

Lemma commitment_step_ok c c' : commitment_ok c -> commitment_step c c' -> commitment_ok c'.
Proof.
  intros (Hb & Hl & Hd & Hc & Hs & Hw) Hstep. destruct Hstep as [c w n t Hst Ht|c u n c' Hu|c next d n Ha Hm].
  - unfold commitment_ok. simpl. rewrite Ht. split_and!; done.
  - apply updated_commitment_spec in Hu as [(_ & Hud & Hut & _) ->]. unfold commitment_ok. simpl.
    split_and!; try done.
    + destruct (cu_description u) as [x|]; [|done]. by apply Hud.
    + destruct (cu_description u) as [x|]; [|done]. by apply Hud.
    + destruct (cu_trigger u) as [[t|]|]; done.
    + destruct (cu_trigger u) as [[t|]|]; done.
    + destruct (cu_trigger u) as [[t|]|]; done.
  - unfold commitment_ok. simpl. split_and!; try done.
    + destruct d as [d|]; simpl; [|done]. rewrite length_take. lia.
    + intros ->. by destruct Hm as [?|[?|[?|[?|?]]]].
    + intros ->. by destruct Hm as [?|[?|[?|[?|?]]]].
    + intros ->. by destruct Hm as [?|[?|[?|[?|?]]]].
Qed.

(** How its state may change: along [allows], or back to the start by a new trigger. *)
Definition commitment_course (s t : CommitmentState) : Prop :=
  t = s \/ commitment_allows s t = true
  \/ (commitment_is_terminal s = false /\ s <> CWaiting /\ (t = CCaptured \/ t = CScheduled)).

Lemma step_course c c' : commitment_step c c' -> commitment_course (c_state c) (c_state c').
Proof.
  unfold commitment_course. destruct 1 as [c w n t Hst Ht|c u n c' Hu|c next d n Ha Hm].
  - right. left. simpl. by destruct Hst as [-> | ->].
  - apply updated_commitment_spec in Hu as [(Ht & _ & Hut & _) ->]. simpl.
    destruct (cu_trigger u) as [[t|]|]; [|auto..]; right; right; (split; [done|]); split; eauto.
  - auto.
Qed.

Lemma steps_course c c' : rtc commitment_step c c' -> rtc commitment_course (c_state c) (c_state c').
Proof. induction 1 as [|x y z Hs _ IH]; [done|]. eapply rtc_l; [by apply step_course|done]. Qed.

(** ** The operations *)

Section operations.
Context {S : Type} `{HU : Ulid, HR : Repository S, HL : !RepositoryLaws S}.
Context `{HD : Document WaitingItem, HC : Document Commitment}.
Context (new_id : nat -> EntityId) (to_lowercase : rstr -> rstr).

Abbreviation wholds := (holds WaitingConditions decode_wait w_id waiting_init (waiting_step to_lowercase)).
Abbreviation cholds := (holds Commitments decode_commitment commitment_key commitment_init commitment_step).
Abbreviation clists := (lists_items Commitments decode_commitment commitment_key commitment_init commitment_step).
Abbreviation replaced := (replaces Commitments decode_commitment commitment_key commitment_init commitment_step).
Abbreviation waits := (waits to_lowercase).

Definition commitments : Machine Commitment :=
  item_machine Commitments decode_commitment commitment_init commitment_step.

Lemma decode_commitment_spec r x :
  decode_commitment r = Ok x <->
  from_value (rec_payload r) = Ok (item x) /\ commitment_key (item x) = rec_id r
  /\ sv_major (c_version (item x)) = sv_major CURRENT_SCHEMA_VERSION /\ storage_revision x = rec_revision r.
Proof.
  unfold decode_commitment, commitment_key. destruct (from_value _) as [y|]; cbn [mbind result_bind map_err]; [|naive_solver].
  split.
  - intros [He Hd]%reject_if_bind. bool_inv. injection Hd as <-. done.
  - intros ([= ->] & Hi & Hv & Hs). rewrite Hv, bool_decide_eq_true_2 by done. simpl. destruct x. simpl in *. by subst.
Qed.

Lemma decode_commitment_faithful : decode_faithful decode_commitment commitment_key.
Proof. intros r x (_ & Hi & _ & Hs)%decode_commitment_spec. done. Qed.

Lemma encode_commitment c revision r :
  document_lawful Commitment -> commitment_record c revision = Ok r -> id_canonical (commitment_key c) ->
  sv_major (c_version c) = sv_major CURRENT_SCHEMA_VERSION ->
  is_u64 (revision_get revision) -> is_i64 (unix_millis (c_updated_at c)) ->
  wf_record r /\ rec_id r = commitment_key c /\ rec_revision r = revision
  /\ decode_commitment (canonical_record r) = Ok (MkStored c revision).
Proof.
  intros Hlaw He Hid Hv Hrev Hnow. unfold commitment_record in He. destruct (to_value c) as [v|] eqn:Ev; simpl in He; [|done].
  destruct (Hlaw _ _ Ev) as (Hd & Hread & Hback). injection He as <-.
  split; [|split; [done|split; [done|by apply decode_commitment_spec]]].
  split; [done|]. do 2 (split; [simpl; unfold u16_max; lia|]). done.
Qed.

Lemma cholds_version recs x : cholds recs x -> sv_major (c_version (item x)) = sv_major CURRENT_SCHEMA_VERSION.
Proof. intros (r & _ & (_ & _ & Hv & _)%decode_commitment_spec)%holds_lookup. done. Qed.

Context (Hcodec : document_lawful Commitment) (G : Contract).
Context (Hfollows : forall recs recs', guarantee G recs recs' -> follows commitments recs recs').
Context (Hwaits : forall recs recs', guarantee G recs recs' -> follows waits recs recs').

(** The wait of a parked commitment: it waits for the commitment's trigger. *)
Definition has_wait (c : Commitment) (recs : Records) : Prop :=
  exists x, wholds recs x /\ c_waiting_id c = Some (w_id (item x)) /\ c_trigger c = Some (w_trigger (item x))
    /\ w_profile_id (item x) = c_profile_id c /\ w_session_id (item x) = c_session_id c.

Lemma has_wait_stable c : stable G (has_wait c).
Proof.
  intros recs recs' (x & Hx & Hw & Ht & Hp & Hs) HT.
  destruct (follows_steps waits _ _ _ _ (Hwaits _ _ HT) Hx) as (y & Hy & Hsteps).
  apply steps_wait_content in Hsteps. unfold wait_content in Hsteps. injection Hsteps as _ Hi Hp' Hs' Ht' _ _ _ _ _.
  exists y. rewrite Hi, Ht', Hp', Hs'. split_and!; try done. unfold holds. by rewrite Hi.
Qed.

(** What the service relies on of the waiting service: a registered wait is
    there for good, as it was requested. *)
Record waiting_promises : Prop := {
  promise_register : forall request now, is_i64 (unix_millis now) ->
    spec G (fun _ => True) (register new_id request now) (fun a recs =>
      exists x, wholds recs x /\ a.1 = item x /\ requested (item x) = request);
  promise_cancel : forall id now, is_i64 (unix_millis now) ->
    spec G (fun _ => True) (Waiting.cancel id now) (fun _ _ => True);
  promise_list : forall session, spec G (fun _ => True) (Waiting.list_session session) (fun _ _ => True)
}.
Context (Hpromises : waiting_promises).

(** [r] is the record of [s], a successor of [x]. *)
Definition commitment_succeeds (x : Stored Commitment) (r : VersionedRecord) (s : Stored Commitment) : Prop :=
  decode_commitment (canonical_record r) = Ok s /\ commitment_step (item x) (item s)
  /\ commitment_key (item s) = commitment_key (item x)
  /\ revision_get (rec_revision r) = (revision_get (storage_revision x) + 1)%Z.

(** The contract allows the steps of a commitment: it is parked with its wait. *)
Context (Hupdate : forall recs x r s,
  cholds recs x -> commitment_succeeds x r s ->
  (c_state (item s) = CWaiting -> c_state (item x) = CWaiting \/ has_wait (item s) recs) ->
  guarantee G recs (<[(Commitments, commitment_key (item x)) := canonical_record r]> recs)).

Abbreviation cseen := (seen G Commitments decode_commitment commitment_key commitment_init commitment_step).

Lemma spec_put_commitment P x c :
  stable G P -> wf_stored commitment_key x -> is_i64 (unix_millis (c_updated_at c)) ->
  (forall recs, P recs -> cseen x recs) -> commitment_step (item x) c ->
  (c_state c = CWaiting -> forall recs, P recs -> c_state (item x) = CWaiting \/ has_wait c recs) ->
  spec G P (put (MkStored c (storage_revision x))) (fun s recs' =>
    item s = c /\ exists recs, P recs /\ replaced recs recs' x s).
Proof.
  intros Hst [Hid Hrev] Hnow HP Hstep Hpark. unfold put. cbn [item storage_revision].
  apply spec_lift_bind. intros rev Hnext. apply ok_or_Ok, checked_next_Some in Hnext as [Hn Hle].
  apply spec_lift_bind. intros r He. apply spec_pre. intros recs1 HP1.
  pose proof (step_identity _ _ Hstep) as Hc. unfold commitment_identity in Hc. injection Hc as Hv Hi _ _ _.
  assert (is_u64 (revision_get rev)) as Hu by (unfold is_u64 in *; lia).
  destruct (encode_commitment _ _ _ Hcodec He) as (Hwf & Hri & Hrr & Hdec);
    [unfold commitment_key in *; by rewrite Hi| |done|done|].
  { rewrite Hv. destruct (HP recs1 HP1) as (recs0 & _ & Hx). by eapply cholds_version. }
  assert (commitment_succeeds x r (MkStored c rev)) as Hsucc.
  { split; [done|]. split; [done|]. split; [|by rewrite Hrr]. unfold commitment_key. simpl. by rewrite Hi. }
  eapply spec_bind.
  { apply (spec_replace G Commitments decode_commitment commitment_key commitment_init commitment_step CeRepository
             decode_commitment_faithful Hfollows (eq recs1) x r (MkStored c rev)); [done|done| |done| |].
    - rewrite Hri. unfold commitment_key. by rewrite Hi.
    - intros recs <-. by apply HP.
    - intros recs (recs2 & <- & HR2) Hx. eapply Hupdate; [done|done|]. intros Hc.
      apply Hpark; [done|]. eapply Hst; [done|]. by apply rely_guarantee. }
  intros receipt. cbn beta. apply spec_ret. intros recs' (recs & (recs2 & <- & HR2) & Hrep).
  split; [done|]. exists recs. split; [|done]. eapply Hst; [done|]. by apply rely_guarantee.
Qed.

Lemma spec_required_commitment P id :
  stable G P ->
  spec G P (required id) (fun x recs => (c_id (item x) = id /\ wf_stored commitment_key x) /\ P recs /\ cholds recs x).
Proof.
  intros Hst. unfold required. eapply spec_bind.
  { apply (spec_load_item G Commitments decode_commitment commitment_key commitment_init commitment_step CeRepository
             decode_commitment_faithful). }
  intros found. cbn beta. apply spec_lift. intros x recs Hx (Hf & Hl & Hh). apply ok_or_Ok in Hx as ->.
  destruct (Hf x eq_refl) as [Hid Hwf]. split; [|split; [by apply (later_stable G P)|done]].
  split; [|done]. by apply (inj as_entity_id).
Qed.

Lemma spec_load_commitments P :
  spec G P load_all (fun xs recs => Forall (wf_stored commitment_key) xs /\ later G P recs /\ clists recs xs).
Proof.
  apply (spec_load_items G Commitments decode_commitment commitment_key commitment_init commitment_step CeRepository
           decode_commitment_faithful).
Qed.

(** [P] survives a call whose result is thrown away. *)
Lemma spec_ignored {E A} P (m : stateT (World S) E A) Q :
  stable G P -> spec G (fun _ => True) m Q -> spec G P (ignored m) (fun _ => P).
Proof.
  intros Hst Hm. unfold ignored. intros recs0 w r w' Hs Hr.
  apply (spec_catch G P m Q (fun _ => mret tt) (fun _ => P)) with (recs0 := recs0) (s := w) (r := r) (s' := w'); try done.
  - by eapply spec_given; [|exact Hm].
  - intros a. apply spec_ret. by intros recs [].
  - intros e. by apply spec_ret.
  - by destruct (m w).
Qed.

Lemma spec_put_or_cancel P x c waiting now :
  stable G P -> wf_stored commitment_key x -> is_i64 (unix_millis (c_updated_at c)) -> is_i64 (unix_millis now) ->
  (forall recs, P recs -> cseen x recs) -> commitment_step (item x) c ->
  (c_state c = CWaiting -> forall recs, P recs -> c_state (item x) = CWaiting \/ has_wait c recs) ->
  spec G P (put_or_cancel (MkStored c (storage_revision x)) waiting now) (fun s recs' =>
    item s = c /\ exists recs, P recs /\ replaced recs recs' x s).
Proof.
  intros Hst Hwf Hc Hnow Hseen Hstep Hpark recs0 w r w' Hs Hr.
  apply (spec_catch G P (put (MkStored c (storage_revision x)))
    (fun s recs' => item s = c /\ exists recs, P recs /\ replaced recs recs' x s)
    (fun res => match res with
       | Ok stored => mret stored
       | Err error => ignored (Waiting.cancel waiting now) ;; throw error
       end)) with (recs0 := recs0) (s := w) (r := r) (s' := w'); try done.
  - by apply spec_put_commitment.
  - intros s. apply spec_ret. by intros recs [].
  - intros e. eapply spec_bind; [by eapply spec_ignored, (promise_cancel Hpromises)|]. intros []. apply spec_throw.
  - rewrite <- Hr. unfold put_or_cancel. by destruct (put _ w) as [[]].
Qed.

Lemma spec_begin_waiting P id now :
  stable G P -> is_i64 (unix_millis now) ->
  spec G P (begin_waiting new_id id now) (fun a recs' => exists recs x s, P recs /\ replaced recs recs' x s
    /\ c_id (item x) = id /\ a.1 = item s /\ c_state a.1 = CWaiting /\ has_wait a.1 recs).
Proof.
  intros Hst Hnow. unfold begin_waiting. eapply spec_bind; [apply spec_lock|]. intros []. cbn beta.
  eapply spec_bind; [by apply spec_required_commitment|]. intros x. cbn beta zeta. apply spec_pure. intros [Hid Hwf].
  apply spec_lift_bind. intros [] Hstate%reject_if_ok%negb_false_iff%bool_decide_eq_true.
  apply spec_lift_bind. intros trigger Ht%ok_or_Ok.
  set (P1 recs := P recs /\ cseen x recs).
  assert (stable G P1) as Hst1 by (intros a b [Ha Hb] HT; split; [by eapply Hst|by eapply seen_stable]).
  apply (spec_given G P1). { intros recs [HP Hx]. split; [done|by apply holds_seen]. }
  eapply spec_bind.
  { apply spec_map_err. apply (spec_retain G _ P1); [done|done|].
    eapply spec_given; [|by apply (promise_register Hpromises)]. done. }
  intros [y d]. cbn [fst snd].
  set (c := parked (w_id y) now (item x)).
  apply (spec_given G (fun recs => P1 recs /\ has_wait c recs)).
  { intros recs [HP1 (z & Hz & -> & Hreq)]. split; [done|]. unfold requested in Hreq. injection Hreq as Hp Hs Htr _ _.
    exists z. simpl. rewrite Ht, Htr. by split_and!. }
  eapply spec_bind; [apply spec_put_or_cancel|]; try done.
  - intros a b [Ha Hb] HT. split; [by eapply Hst1|by eapply has_wait_stable].
  - by intros recs [[_ ?] _].
  - by eapply step_park.
  - intros _ recs [_ Hh]. by right.
  - intros s. cbn beta. apply spec_pure. intros Hs. apply spec_ret. intros recs' (recs & [[HP _] Hh] & Hrep).
    exists recs, x, s. cbn [fst]. rewrite Hs. split_and!; done.
Qed.

Lemma spec_update_commitment P id u now :
  stable G P -> is_i64 (unix_millis now) ->
  spec G P (update id u now) (fun y recs' => exists recs x s, P recs /\ replaced recs recs' x s
    /\ c_id (item x) = id /\ update_allowed (item x) u now /\ y = item s /\ y = update_result (item x) u now).
Proof.
  intros Hst Hnow. unfold update. eapply spec_bind; [apply spec_lock|]. intros []. cbn beta.
  eapply spec_bind; [by apply spec_required_commitment|]. intros x. cbn beta. apply spec_pure. intros [Hid Hwf].
  apply spec_lift_bind. intros c Hu. apply updated_commitment_spec in Hu as [Hal ->].
  set (P1 recs := P recs /\ cseen x recs).
  apply (spec_given G P1). { intros recs [HP Hx]. split; [done|by apply holds_seen]. }
  eapply spec_bind; [apply (spec_put_commitment P1)|]; try done.
  - intros a b [Ha Hb] HT; split; [by eapply Hst|by eapply seen_stable].
  - by intros recs [].
  - apply step_update with u now. by apply updated_commitment_spec.
  - simpl. intros Hc recs _. left. by destruct (cu_trigger u) as [[t|]|].
  - intros s. cbn beta. apply spec_pure. intros Hs. apply spec_ret. intros recs' (recs & [HP _] & Hrep).
    exists recs, x, s. by split_and!.
Qed.

Lemma spec_release_wait P c now : stable G P -> is_i64 (unix_millis now) -> spec G P (release_wait c now) (fun _ => P).
Proof.
  intros Hst Hnow. unfold release_wait. destruct (c_waiting_id c) as [id|]; [|by apply spec_ret].
  eapply spec_bind.
  { apply spec_map_err. apply (spec_retain G _ P); [done|done|]. eapply spec_given; [|apply (promise_list Hpromises)]. done. }
  intros ys. cbn beta. apply (spec_given G P); [by intros recs []|].
  destruct (existsb _ ys); [|by apply spec_ret]. by eapply spec_ignored, (promise_cancel Hpromises).
Qed.

Lemma spec_move P id next detail now :
  stable G P -> is_i64 (unix_millis now) -> move_target next ->
  spec G P (transition id next detail now) (fun y recs' => exists recs x s, P recs /\ replaced recs recs' x s
    /\ c_id (item x) = id /\ commitment_allows (c_state (item x)) next = true
    /\ y = item s /\ y = moved_commitment next detail now (item x)).
Proof.
  intros Hst Hnow Hnext. unfold transition. eapply spec_bind; [apply spec_lock|]. intros []. cbn beta.
  eapply spec_bind; [by apply spec_required_commitment|]. intros x. cbn beta zeta. apply spec_pure. intros [Hid Hwf].
  apply spec_lift_bind. intros [] Hal%reject_if_ok%negb_false_iff.
  set (P1 recs := P recs /\ cseen x recs).
  assert (stable G P1) as Hst1 by (intros a b [Ha Hb] HT; split; [by eapply Hst|by eapply seen_stable]).
  apply (spec_given G P1). { intros recs [HP Hx]. split; [done|by apply holds_seen]. }
  eapply spec_bind; [by apply spec_release_wait|]. intros []. cbn beta.
  eapply spec_bind; [apply (spec_put_commitment P1)|]; try done.
  - by intros recs [].
  - by apply step_move.
  - simpl. intros ->. by destruct Hnext as [?|[?|[?|[?|?]]]].
  - intros s. cbn beta. apply spec_pure. intros Hs. apply spec_ret. intros recs' (recs & [HP _] & Hrep).
    exists recs, x, s. by split_and!.
Qed.

(** A commitment that expired stays so. *)
Definition has_expired (id : CommitmentId) (recs : Records) : Prop :=
  exists x, cholds recs x /\ c_id (item x) = id /\ c_state (item x) = CExpired.

Lemma has_expired_stable id : stable G (has_expired id).
Proof.
  intros recs recs' (x & Hx & Hid & Hs) HT. exists x. split; [|done].
  unfold holds in *. destruct Hx as (r & Hr & Hd). exists r. split; [|done]. rewrite <- Hr.
  eapply (follows_stuck commitments); [by apply Hfollows|by exists r|]. intros z. apply terminal_commitment_stuck. by rewrite Hs.
Qed.

Lemma spec_expire_commitments P now :
  stable G P -> is_i64 (unix_millis now) ->
  spec G P (expire_due now) (fun _ recs' => exists listed, P listed /\ guarantee G listed recs'
    /\ forall x, cholds listed x -> is_overdue now x = true -> has_expired (c_id (item x)) recs').
Proof.
  intros Hst Hnow. unfold expire_due. eapply spec_bind; [apply spec_load_commitments|]. intros xs. cbn beta.
  apply spec_pure. intros _. apply spec_pre. intros listed [Hl [_ Hin]]. apply (later_stable G P) in Hl; [|done].
  eapply spec_weaken; [apply (spec_map_m_each G (guarantee G listed) _ has_expired)|by intros recs <-|].
  - intros a b Ha Hb. by etrans.
  - intros id. apply has_expired_stable.
  - intros id _. eapply spec_given; [|eapply spec_weaken; [apply (spec_move (fun _ => True)); [done|done|by right; right; right; right]|done|]]; [done|].
    intros y recs' (recs & x & s & _ & Hrep & Hid & _ & Hy & Hm). exists s. split; [apply Hrep|].
    rewrite <- Hy, Hm. done.
  - intros ys recs' [HT Hall]. exists listed. split; [done|]. split; [done|]. intros x Hx Ho.
    rewrite Forall_forall in Hall. apply Hall. apply list_elem_of_fmap. exists x. split; [done|].
    apply list_elem_of_In, filter_In. split; [|done]. by apply list_elem_of_In, Hin.
Qed.

(** [r] is the record of a new commitment. *)
Definition creates_commitment (r : VersionedRecord) (s : Stored Commitment) : Prop :=
  decode_commitment (canonical_record r) = Ok s /\ rec_id r = commitment_key (item s) /\ rec_revision r = Revision_ZERO
  /\ commitment_init (item s).

Lemma spec_create_commitment P request now :
  stable G P -> is_i64 (unix_millis now) -> (forall k, id_canonical (new_id k)) ->
  (forall recs r s, creates_commitment r s -> recs !! (Commitments, rec_id r) = None ->
     guarantee G recs (<[(Commitments, rec_id r) := canonical_record r]> recs)) ->
  spec G P (create new_id request now) (fun y recs' => exists recs r s,
    P recs /\ creates_commitment r s /\ recs !! (Commitments, rec_id r) = None
    /\ recs' = <[(Commitments, rec_id r) := canonical_record r]> recs /\ cholds recs' s /\ y = item s).
Proof.
  intros Hst Hnow Hids Hown. unfold create. apply spec_lift_bind. intros [] Hval.
  apply spec_lift_bind. intros [] Hexp%reject_if_ok.
  eapply spec_bind; [apply spec_draw|]. intros k. cbn beta. apply spec_pure. intros [n ->]. cbn zeta.
  apply spec_lift_bind. intros r He.
  destruct (encode_commitment _ _ _ Hcodec He) as (Hwf & Hri & Hrr & Hdec); [apply Hids|done|done|done|].
  set (c := new_commitment _ _ _) in *.
  assert (creates_commitment r (MkStored c Revision_ZERO)) as Hcr.
  { split; [done|]. split; [done|]. split; [done|]. exists (MkTypedId (new_id n)), request, now. split_and!; try done.
    apply validate_description_ok. by apply validate_description_ok in Hval. }
  eapply spec_bind; [apply (spec_create G Commitments CeRepository); [done|done|]|].
  { intros recs Hl Hnone. by eapply Hown. }
  intros receipt. cbn beta. apply spec_ret. intros recs' (recs & Hl & Hnone & ->).
  exists recs, r, (MkStored c Revision_ZERO). split; [by apply (later_stable G P) in Hl|]. do 3 (split; [done|]).
  split; [|done]. rewrite Hri.
  exact (holds_insert_eq Commitments _ commitment_key _ _ recs (canonical_record r) (MkStored c Revision_ZERO) Hdec).
Qed.

Lemma spec_list_profile P profile :
  stable G P -> spec G P (list_profile profile) (fun ys recs => P recs
    /\ StronglySorted (fun x y => rcmp (c_created_at x) (c_created_at y) <> Gt) ys
    /\ forall y, y ∈ ys <-> c_profile_id y = profile /\ exists x, cholds recs x /\ y = item x).
Proof.
  intros Hst. unfold list_profile. eapply spec_bind; [apply spec_load_commitments|]. intros xs. cbn beta. apply spec_ret.
  intros recs (_ & Hl & [_ Hin]). split; [by apply (later_stable G P) in Hl|].
  split; [apply (sort_by_key_sorted c_created_at)|]. intros y. rewrite sort_by_perm, list_elem_of_fmap. split.
  - intros (x & -> & [Hx Hs%bool_decide_eq_true]%list_elem_of_In%filter_In). split; [done|]. exists x.
    split; [by apply Hin, list_elem_of_In|done].
  - intros [Hs (x & Hx & ->)]. exists x. split; [done|]. apply list_elem_of_In, filter_In.
    split; [by apply list_elem_of_In, Hin|]. by apply bool_decide_eq_true.
Qed.

Lemma spec_inspect P id :
  stable G P -> spec G P (inspect id) (fun y recs => P recs /\ exists x, cholds recs x /\ c_id (item x) = id /\ y = item x).
Proof.
  intros Hst. unfold inspect. eapply spec_bind; [by apply spec_required_commitment|]. intros x. cbn beta. apply spec_ret.
  intros recs ([Hid _] & HP & Hx). split; [done|by exists x].
Qed.

(** A commitment of another profile is not found. *)
Lemma spec_inspect_scoped P profile id :
  stable G P -> spec G P (inspect_scoped profile id) (fun found recs => P recs
    /\ forall s, found = Some s <-> exists x, cholds recs x /\ c_id (item x) = id /\ c_profile_id (item x) = profile
         /\ s = MkCommitmentSnapshot (item x) (storage_revision x)).
Proof.
  intros Hst. unfold inspect_scoped. eapply spec_bind.
  { apply (spec_load_item G Commitments decode_commitment commitment_key commitment_init commitment_step CeRepository
             decode_commitment_faithful). }
  intros [x|]; cbn beta iota.
  - assert (forall recs y, cholds recs x -> cholds recs y -> commitment_key (item x) = as_entity_id id -> c_id (item y) = id -> y = x)
      as Hone. { intros recs y Hx Hy Hk Hi. eapply holds_inj; [exact Hy|exact Hx|]. rewrite Hk. unfold commitment_key. by rewrite Hi. }
    case_bool_decide as Hp; apply spec_ret; intros recs (Hf & Hl & Hx); (split; [by apply (later_stable G P) in Hl|]);
      destruct (Hf x eq_refl) as [Hk _]; intros s.
    + split.
      * intros [= <-]. exists x. split_and!; try done. by apply (inj as_entity_id).
      * intros (y & Hy & Hi & _ & ->). by rewrite (Hone recs y).
    + split; [done|]. intros (y & Hy & Hi & Hpy & ->). rewrite (Hone recs y) in Hpy; done.
  - apply spec_ret. intros recs (_ & Hl & Hn). split; [by apply (later_stable G P) in Hl|]. intros s. split; [done|].
    intros (y & (r & Hr & _)%holds_lookup & Hi & _). unfold commitment_key in Hr. rewrite Hi, Hn in Hr. done.
Qed.
End operations.
