(* ===== verification/CommitmentProperties.v ===== *)
(** * Correctness of commitments, waits and wakes together

    The commitment service of [Commitments], the waiting service it parks
    commitments with and the inbox that wakes them: runs of arbitrary operations
    of the three, in any order, with other processes writing in between. *)

From Stdlib Require Import ZArith Lia String.
From stdpp Require Import base decidable countable relations gmap sorting option list.
From S2P Require Import Prelude RustStd AgentTypes Json StateStoreCore ItemStore.
From S2P Require Import ActionStore ActionMachine ActionProperties Waiting WaitingMachine WaitingProperties.
From S2P Require Import Commitments CommitmentMachine.

Inductive commitment_op :=
| CCreate (request : NewCommitment)
| CBeginWaiting (id : CommitmentId)
| CUpdate (id : CommitmentId) (u : CommitmentUpdate)
| CActivate (id : CommitmentId)
| CFulfill (id : CommitmentId) (detail : option rstr)
| CBlock (id : CommitmentId) (detail : rstr)
| CCancel (id : CommitmentId)
| CExpireDue
| CListProfile (profile : ProfileId)
| CInspect (id : CommitmentId)
| CInspectScoped (profile : ProfileId) (id : CommitmentId)
| CWait (op : wait_op).

Section runs.
Context {S : Type} `{HU : Ulid, HR : Repository S, HL : !RepositoryLaws S}.
Context `{HA : Document ActionRecord, HD : Document WaitingItem, HC : Document Commitment}.
Context (inbox : ActionInboxConfig) (error_to_string : ActionStoreError repo_error -> rstr).
Context (new_id : nat -> EntityId) (to_lowercase : rstr -> rstr).

Abbreviation wholds := (holds WaitingConditions decode_wait w_id waiting_init (waiting_step to_lowercase)).
Abbreviation cholds := (holds Commitments decode_commitment commitment_key commitment_init commitment_step).
Abbreviation waits := (waits to_lowercase).
Abbreviation has_wait := (has_wait to_lowercase).
Abbreviation linked := (linked to_lowercase).
Abbreviation linked_follows := (linked_follows to_lowercase).

Definition commitment_do (op : commitment_op) (now : UtcTimestamp) (w : World S) : World S :=
  match op with
  | CCreate request => (create new_id request now w).2
  | CBeginWaiting id => (begin_waiting new_id id now w).2
  | CUpdate id u => (update id u now w).2
  | CActivate id => (activate id now w).2
  | CFulfill id detail => (fulfill id detail now w).2
  | CBlock id detail => (block id detail now w).2
  | CCancel id => (cancel id now w).2
  | CExpireDue => (expire_due now w).2
  | CListProfile profile => (list_profile profile w).2
  | CInspect id => (inspect id w).2
  | CInspectScoped profile id => (inspect_scoped profile id w).2
  | CWait op => wait_do inbox error_to_string new_id to_lowercase op now w
  end.

(** A run goes on after an error. *)
Definition commitment_run (ops : list (commitment_op * UtcTimestamp)) (w : World S) : World S :=
  fold_left (fun w p => commitment_do p.1 p.2 w) ops w.

(** Times and identifiers are values of their Rust types. *)
Definition commitment_typed (p : commitment_op * UtcTimestamp) : Prop :=
  is_i64 (unix_millis p.2) /\ match p.1 with CWait op => wait_typed (op, p.2) | _ => True end.

(** ** Contract *)

(** Every waiting commitment has its wait. *)
Definition waits_backed (recs : Records) : Prop :=
  forall x, cholds recs x -> c_state (item x) = CWaiting -> has_wait (item x) recs.

Definition backed_follows (recs recs' : Records) : Prop :=
  follows commitments recs recs' /\ linked_follows recs recs' /\ (waits_backed recs -> waits_backed recs').

#[export] Instance backed_follows_preorder : PreOrder backed_follows.
Proof.
  split; [by intros recs|]. intros a b c (Hc & Hw & Hl) (Hc' & Hw' & Hl').
  split; [by etrans|]. split; [by etrans|auto].
Qed.

Definition shared_commitments : Contract := MkContract backed_follows backed_follows _ _ (fun _ _ H => H).

Lemma backed_commitments recs recs' : backed_follows recs recs' -> follows commitments recs recs'.
Proof. by intros []. Qed.

Lemma backed_waits recs recs' : backed_follows recs recs' -> follows waits recs recs'.
Proof. by intros (_ & [] & _). Qed.

Lemma backed_actions recs recs' : backed_follows recs recs' -> follows actions recs recs'.
Proof. by intros (_ & (_ & ? & _) & _). Qed.

(** Writes of waits and actions leave commitments alone. *)
Lemma other_backed recs k r :
  k.1 <> Commitments -> linked_follows recs (<[k := r]> recs) -> backed_follows recs (<[k := r]> recs).
Proof.
  intros Hk Hl. split; [by apply follows_other|]. split; [done|]. intros Hb x Hx%holds_insert_ne Hw; [|by intros ->].
  specialize (Hb x Hx Hw).
  assert (stable (MkContract linked_follows linked_follows _ _ (fun _ _ H => H)) (has_wait (item x))) as Hst.
  { apply has_wait_stable. by intros a b []. }
  eapply Hst; [exact Hb|exact Hl].
Qed.

Lemma backed_inbox recs k r :
  follows actions recs (<[(PendingActions, k) := r]> recs) -> backed_follows recs (<[(PendingActions, k) := r]> recs).
Proof. intros Hf. apply other_backed; [done|]. by apply actions_silent. Qed.

Lemma backed_wait_update recs x r s :
  wholds recs x -> wait_succeeds to_lowercase x r s ->
  (w_state (item s) = Resumed -> delivered (w_action_id (item x)) recs) ->
  backed_follows recs (<[(WaitingConditions, w_id (item x)) := canonical_record r]> recs).
Proof. intros Hx Hs Hd. apply other_backed; [done|]. by eapply shared_wait_update. Qed.

Lemma backed_register recs r s :
  registers r s -> recs !! (WaitingConditions, rec_id r) = None ->
  backed_follows recs (<[(WaitingConditions, rec_id r) := canonical_record r]> recs).
Proof. intros Hr Hn. apply other_backed; [done|]. by eapply shared_register. Qed.

(** Writes of commitments leave waits and actions alone. *)
Lemma commitment_write_linked recs k r : linked_follows recs (<[(Commitments, k) := r]> recs).
Proof.
  split; [by apply follows_other|]. assert (follows actions recs (<[(Commitments, k) := r]> recs)) as Ha by by apply follows_other.
  split; [done|]. intros Hl x Hx%holds_insert_ne Hr; [|done]. eapply delivered_follows; [done|]. by apply Hl.
Qed.

Lemma has_wait_insert c recs k r : has_wait c recs -> has_wait c (<[(Commitments, k) := r]> recs).
Proof. intros (x & Hx & Hrest). exists x. split; [by apply holds_insert_ne|done]. Qed.

(** The wait of a commitment that was waiting before and after a step. *)
Lemma step_keeps_wait c c' recs :
  commitment_step c c' -> c_state c = CWaiting -> c_state c' = CWaiting -> has_wait c recs -> has_wait c' recs.
Proof.
  intros Hs Hw Hw' Hh. destruct Hs as [c w n t Hc _|c u n c' Hu|c next d n Ha Hm].
  - rewrite Hw in Hc. by destruct Hc.
  - apply updated_commitment_spec in Hu as [(_ & _ & Ht & _) ->]. destruct Hh as (x & Hx & Hrest). exists x.
    split; [done|]. simpl. destruct (cu_trigger u); [|done]. by destruct Ht.
  - simpl in Hw'. subst next. by destruct Hm as [?|[?|[?|[?|?]]]].
Qed.

Lemma backed_update recs x r s :
  cholds recs x -> commitment_succeeds x r s ->
  (c_state (item s) = CWaiting -> c_state (item x) = CWaiting \/ has_wait (item s) recs) ->
  backed_follows recs (<[(Commitments, commitment_key (item x)) := canonical_record r]> recs).
Proof.
  intros Hx (Hdec & Hs & Hk & Hrev) Hw. split; [|split; [apply commitment_write_linked|]].
  - eapply update_key_step; eauto. apply decode_commitment_faithful.
  - intros Hb y [[Hy _]|[Hy _]]%holds_insert Hyw; apply has_wait_insert; [|by apply Hb].
    assert (y = s) as -> by congruence. destruct (Hw Hyw) as [Hxw|Hh]; [|done].
    eapply step_keeps_wait; [exact Hs|done|done|]. by apply Hb.
Qed.

Lemma backed_create recs r s :
  creates_commitment r s -> recs !! (Commitments, rec_id r) = None ->
  backed_follows recs (<[(Commitments, rec_id r) := canonical_record r]> recs).
Proof.
  intros (Hdec & Hid & Hrev & Hinit) Hnone. split; [|split; [apply commitment_write_linked|]].
  - eapply create_key_step; eauto.
  - intros Hb y [[Hy _]|[Hy _]]%holds_insert Hyw; apply has_wait_insert; [|by apply Hb].
    assert (y = s) as -> by congruence. destruct Hinit as (id & request & now & _ & _ & Hs). rewrite Hs in Hyw.
    simpl in Hyw. by destruct (nc_trigger request).
Qed.

(** ** Runs *)

Context (Hacodec : action_codec) (Hwcodec : waiting_codec) (Hcodec : document_lawful Commitment).
Context (Hids : forall k, id_canonical (new_id k)).

(** The waiting service keeps what commitments rely on. *)
Lemma waiting_service_promises : waiting_promises new_id to_lowercase shared_commitments.
Proof.
  assert (stable shared_commitments (fun _ => True)) as Hst by by intros ???. split.
  - intros request now Hnow. eapply spec_weaken.
    + by apply (spec_register new_id to_lowercase Hwcodec shared_commitments (fun _ => True) request now Hst Hnow Hids backed_register).
    + done.
    + intros a recs' (_ & recs & r & s & _ & _ & _ & _ & Hs & Ha & Hreq). by exists s.
  - intros id now Hnow. eapply (spec_weaken shared_commitments (fun _ => True)); [|done|by intros].
    apply (spec_cancel_wait to_lowercase Hwcodec shared_commitments backed_waits delivered
      (delivered_stable shared_commitments backed_actions) True (fun recs x r s Hx Hs Hd _ => backed_wait_update recs x r s Hx Hs Hd)
      (fun _ => True)); done.
  - intros session. eapply spec_weaken; [by apply (spec_list_waits to_lowercase shared_commitments (fun _ => True) session Hst)|done|by intros].
Qed.

Lemma commitment_do_keeps op now w recs :
  sees shared_commitments w recs -> commitment_typed (op, now) ->
  exists recs', sees shared_commitments (commitment_do op now w) recs' /\ backed_follows recs recs'.
Proof.
  intros Hw [Hnow Hop]. assert (stable shared_commitments (fun _ => True)) as Hst by by intros ???.
  assert (forall id next detail, move_target next ->
    spec shared_commitments (fun _ => True) (transition id next detail now) (fun _ _ => True)) as Hmove.
  { intros id next detail Hn. eapply (spec_weaken shared_commitments (fun _ => True)); [|done|by intros].
    by apply (spec_move new_id to_lowercase Hcodec shared_commitments backed_commitments waiting_service_promises backed_update). }
  unfold move_target in Hmove.
  destruct op; simpl in *; try (eapply (spec_run shared_commitments (fun _ => True)); [|exact Hw|done]).
  - eapply spec_create_commitment; eauto. exact backed_create.
  - apply (spec_begin_waiting new_id to_lowercase Hcodec shared_commitments backed_commitments backed_waits
      waiting_service_promises backed_update); done.
  - apply (spec_update_commitment to_lowercase Hcodec shared_commitments backed_commitments backed_update); done.
  - apply Hmove. auto.
  - apply Hmove. auto.
  - apply spec_lift_bind. intros [] _. apply Hmove. auto.
  - apply Hmove. auto.
  - apply (spec_expire_commitments new_id to_lowercase Hcodec shared_commitments backed_commitments
      waiting_service_promises backed_update); done.
  - by apply spec_list_profile.
  - by apply spec_inspect.
  - by apply spec_inspect_scoped.
  - by apply (wait_do_keeps inbox error_to_string new_id to_lowercase Hacodec Hwcodec Hids shared_commitments backed_waits backed_actions
      backed_inbox backed_wait_update backed_register).
Qed.

Lemma commitment_run_keeps ops w recs :
  sees shared_commitments w recs -> Forall commitment_typed ops ->
  exists recs', sees shared_commitments (commitment_run ops w) recs' /\ backed_follows recs recs'.
Proof.
  intros Hw Ht.
  apply (run_keeps shared_commitments commitment_typed (fun p w => commitment_do p.1 p.2 w) (fun _ => True)); try done.
  intros [op now] w1 recs1 Hop Hw1 _. by apply commitment_do_keeps.
Qed.

(** Whatever the commitment service, the waiting service and the inbox do, in
    any order and with other processes writing in between: every commitment stays
    well formed, so one that is scheduled or waiting has a trigger; it keeps its
    identity, profile, session and creation time; its state moves along the
    allowed transitions or is set back by a new trigger, never out of waiting that
    way; and a fulfilled, cancelled or expired commitment is never written again. *)
Theorem commitments_lifecycle ops w recs :
  sees shared_commitments w recs -> Forall commitment_typed ops -> all_items commitments commitment_ok recs ->
  exists recs', sees shared_commitments (commitment_run ops w) recs' /\ all_items commitments commitment_ok recs'
    /\ forall x, cholds recs x -> exists y, cholds recs' y
      /\ commitment_identity (item y) = commitment_identity (item x)
      /\ rtc commitment_course (c_state (item x)) (c_state (item y))
      /\ (commitment_is_terminal (c_state (item x)) = true ->
          recs' !! (Commitments, commitment_key (item x)) = recs !! (Commitments, commitment_key (item x))).
Proof.
  intros Hw Ht Hok. destruct (commitment_run_keeps ops w recs Hw Ht) as (recs' & Hw' & Hf & _).
  exists recs'. split; [done|]. split.
  { eapply follows_all_items; [apply commitment_init_ok|apply commitment_step_ok|exact Hf|done]. }
  intros x Hx. destruct (follows_steps commitments _ _ _ _ Hf Hx) as (y & Hy & Hs).
  pose proof (steps_identity _ _ Hs) as Hi. exists y. split_and!; [|done|by apply steps_course|].
  - unfold commitment_identity in Hi. injection Hi as _ Hi _ _ _. unfold holds, commitment_key in *. by rewrite Hi.
  - intros Hterm. eapply (follows_stuck commitments); [done|exact Hx|]. intros z. by apply terminal_commitment_stuck.
Qed.

(** C12: a commitment releases the agent only once what will wake it is durable:
    at every moment of every interleaving, a waiting commitment has its wait, for
    its own trigger, profile and session, and every wait that was resumed has its
    action in the inbox. *)
Theorem waiting_commitments_backed ops w recs :
  sees shared_commitments w recs -> Forall commitment_typed ops -> waits_backed recs -> linked recs ->
  exists recs', sees shared_commitments (commitment_run ops w) recs' /\ waits_backed recs' /\ linked recs'.
Proof.
  intros Hw Ht Hb Hl. destruct (commitment_run_keeps ops w recs Hw Ht) as (recs' & Hw' & _ & (_ & _ & HTl) & HTb).
  exists recs'. auto.
Qed.

(** A pass of [expire_due] that succeeds leaves none of the commitments that
    were overdue when it began: each one that had not ended is expired, also where
    other processes write at the same time. *)
Theorem expire_due_expires now w recs ys w' :
  sees shared_commitments w recs -> is_i64 (unix_millis now) -> expire_due now w = (Ok ys, w') ->
  exists listed recs', backed_follows recs listed /\ backed_follows listed recs' /\ sees shared_commitments w' recs'
    /\ forall x, cholds listed x -> is_overdue now x = true ->
         exists y, cholds recs' y /\ c_id (item y) = c_id (item x) /\ c_state (item y) = CExpired.
Proof.
  intros Hw Hnow Hr. assert (stable shared_commitments (backed_follows recs)) as Hst by (intros a b Ha Hb; by etrans).
  destruct (spec_expire_commitments new_id to_lowercase Hcodec shared_commitments backed_commitments
    waiting_service_promises backed_update (backed_follows recs) now Hst Hnow recs w (Ok ys) w'
    (since_now shared_commitments (backed_follows recs) w recs Hw (reflexivity recs)) Hr)
    as (recs' & Hw' & _ & listed & Hl & HT & Hall).
  by exists listed, recs'.
Qed.
End runs.
