(* ===== verification/CommitmentExample.v ===== *)
(** * A concrete commitment service

    Closed instances of the theorems about commitments: one that waits for the
    user's answer and is woken, and one that expires. *)

From Stdlib Require Import ZArith Lia String.
From stdpp Require Import base decidable countable relations gmap sorting option list.
From S2P Require Import Prelude RustStd AgentTypes Json StateStoreCore StateStore ItemStore Serial ServiceExample.
From S2P Require Import ActionStore ActionMachine ActionProperties ActionExample.
From S2P Require Import Waiting WaitingMachine WaitingProperties WaitingExample.
From S2P Require Import Commitments CommitmentMachine CommitmentProperties.

(** ** Codec *)

#[export] Instance CommitmentOwner_eq_dec : EqDecision CommitmentOwner.
Proof. solve_decision. Defined.
#[export] Program Instance CommitmentOwner_enumerated : Enumerated CommitmentOwner := {|
  variants := [OwnerUser; OwnerAgent; OwnerShared] |}.
Next Obligation. intros []; repeat constructor. Qed.
#[export] Program Instance CommitmentState_enumerated : Enumerated CommitmentState := {|
  variants := [CCaptured; CScheduled; CActive; CWaiting; CFulfilled; CBlocked; CCancelled; CExpired] |}.
Next Obligation. intros []; repeat constructor. Qed.

#[export] Program Instance Serial_commitment : Serial Commitment :=
  Serial_via (fun x => (c_version x, c_id x, c_profile_id x, c_session_id x, c_description x, c_owner x, c_trigger x,
                        c_state x, c_reply_route x, c_expires_at x, c_waiting_id x, c_created_at x, c_updated_at x,
                        c_safe_detail x))
    (fun t => let '(a, b, c, d, e, f, g, h, i, j, k, l, m, n) := t in Some (MkCommitment a b c d e f g h i j k l m n)) _.
Next Obligation. by intros []. Qed.

#[export] Instance commitment_document : Document Commitment := serial_document (fun _ => true).

Lemma commitment_document_lawful : document_lawful Commitment.
Proof. apply serial_document_lawful. Qed.

(** ** A run *)

Abbreviation run_commitments := (commitment_run default_inbox_config error_text nth_id lower).

Definition sample_profile : ProfileId := MkTypedId (named_id 1).

(** Identifiers in the order they are drawn: two commitments, then the wait. *)
Definition reply_to_user : CommitmentId := MkTypedId (nth_id 0).
Definition water_plants : CommitmentId := MkTypedId (nth_id 1).

Definition make_commitments : list (commitment_op * UtcTimestamp) :=
  [(CCreate (MkNewCommitment sample_profile sample_session (str "reply") OwnerAgent
       (Some (TriggerUserResponse sample_session)) None None), moment 1);
   (CCreate (MkNewCommitment sample_profile sample_session (str "water the plants") OwnerUser None None
       (Some (moment 100))), moment 2);
   (CBeginWaiting reply_to_user, moment 3)].
Definition answer_and_reply : list (commitment_op * UtcTimestamp) :=
  [(CUpdate reply_to_user (MkCommitmentUpdate None None (Some None) None None), moment 4);
   (CWait (WSignal user_answers), moment 20); (CActivate reply_to_user, moment 21);
   (CFulfill reply_to_user (Some (str "replied")), moment 22); (CInspectScoped sample_profile reply_to_user, moment 23)].

Lemma commitment_ops_typed : Forall commitment_typed (make_commitments ++ answer_and_reply).
Proof.
  repeat (apply Forall_cons; split; [split; [apply moment_i64; simpl; lia|simpl]|]); try apply Forall_nil; try done.
Qed.

Definition made_world : SampleWorld := run_commitments make_commitments fresh_world.
Definition done_world : SampleWorld := run_commitments (make_commitments ++ answer_and_reply) fresh_world.

Definition commitment_states (w : SampleWorld) : list CommitmentState :=
  match (list_profile sample_profile w).1 with Ok xs => c_state <$> xs | Err _ => [] end.

Lemma fresh_backed : waits_backed lower ∅.
Proof. intros x Hx. destruct (empty_holds _ _ _ _ _ x Hx). Qed.

(** ** Instances *)

Lemma commitments_lifecycle_witness :
  commitment_states made_world = [CWaiting; CCaptured] /\ commitment_states done_world = [CFulfilled; CCaptured]
  /\ exists recs', sees (shared_commitments lower) done_world recs' /\ all_items commitments commitment_ok recs'.
Proof.
  do 2 (split; [vm_compute; reflexivity|]).
  destruct (commitments_lifecycle default_inbox_config error_text nth_id lower action_document_codec waiting_document_codec
    commitment_document_lawful nth_id_canonical (make_commitments ++ answer_and_reply) fresh_world ∅ (fresh_sees _)
    commitment_ops_typed (empty_all_items _ _)) as (recs' & Hs & Hok & _).
  exists recs'. exact (conj Hs Hok).
Defined.

Lemma waiting_commitments_backed_witness :
  wait_states made_world = [Armed] /\ wait_states done_world = [Resumed] /\ action_states done_world = [AQueued]
  /\ exists recs', sees (shared_commitments lower) done_world recs' /\ waits_backed lower recs' /\ linked lower recs'.
Proof.
  do 3 (split; [vm_compute; reflexivity|]).
  exact (waiting_commitments_backed default_inbox_config error_text nth_id lower action_document_codec waiting_document_codec
    commitment_document_lawful nth_id_canonical (make_commitments ++ answer_and_reply) fresh_world ∅ (fresh_sees _)
    commitment_ops_typed fresh_backed fresh_linked).
Defined.

Abbreviation swept := (expire_due (moment 200) made_world).

Lemma expire_due_expires_witness :
  commitment_states swept.2 = [CWaiting; CExpired]
  /\ exists recs', sees (shared_commitments lower) swept.2 recs'.
Proof.
  split; [vm_compute; reflexivity|].
  destruct (commitment_run_keeps default_inbox_config error_text nth_id lower action_document_codec waiting_document_codec
    commitment_document_lawful nth_id_canonical make_commitments fresh_world ∅ (fresh_sees _)
    (proj1 (proj1 (Forall_app _ _ _) commitment_ops_typed))) as (recs & Hs & _).
  destruct (ok_pair swept) as [ys Hr]; [vm_compute; reflexivity|].
  destruct (expire_due_expires nth_id lower waiting_document_codec commitment_document_lawful nth_id_canonical (moment 200)
    made_world recs ys swept.2 Hs ltac:(apply moment_i64; lia) Hr) as (listed & recs' & _ & _ & Hs' & _).
  exists recs'. exact Hs'.
Defined.
