(* ===== verification/Planner.v ===== *)
(** * Task routing and plans: [crates/planner/src/lib.rs]

    The router that decides how a request is worked on, and plans: revisions of a
    list of steps with dependencies, kept as one record per plan.  The repository
    is the interface of [StateStoreCore]; the derived codec of a plan, the
    identifiers that are drawn and a router's assistant are parameters. *)

From Stdlib Require Import ZArith Lia String.
From stdpp Require Import base decidable countable relations gmap sorting option list.
From S2P Require Import Prelude RustStd AgentTypes Json StateStoreCore ItemStore.

(** ** Routing *)

Inductive ExecutionMode :=
| Direct | SingleTool | MultiStep | Research | CodingProject | Monitoring | Recurring | Delegated.

#[export] Instance ExecutionMode_eq_dec : EqDecision ExecutionMode.
Proof. solve_decision. Defined.

Record ClassificationInput := MkClassificationInput {
  ci_request : rstr;
  ci_available_tool_matches : Z;
  ci_explicit_plan : bool;
  ci_explicit_delegation : bool;
  ci_recurring : bool;
  ci_monitoring : bool;
  ci_high_risk : bool
}.

Record Classification := MkClassification {
  cl_mode : ExecutionMode;
  cl_plan_required : bool;
  cl_reasons : list rstr
}.

(** [str::to_ascii_lowercase]. *)
Definition to_ascii_lowercase (s : rstr) : rstr :=
  (fun c => if (65 <=? c)%Z && (c <=? 90)%Z then (c + 32)%Z else c) <$> s.

Definition contains_any (text : rstr) (terms : list rstr) : bool := existsb (fun term => str_contains_str term text) terms.

Definition is_complex (mode : ExecutionMode) : bool :=
  match mode with Direct | SingleTool => false | _ => true end.

Definition classify_with_assistant (input : ClassificationInput)
    (assistant : option (ClassificationInput -> option ExecutionMode)) : Classification :=
  let text := to_ascii_lowercase (ci_request input) in
  let '(mode, reason) :=
    if ci_recurring input
       || contains_any text [str "every day"; str "every week"; str "recurring"; str "schedule"]
    then (Recurring, str "request has a recurring cadence")
    else if ci_monitoring input
       || contains_any text [str "monitor"; str "watch for"; str "alert me"; str "keep checking"]
    then (Monitoring, str "request waits on changing state")
    else if ci_explicit_delegation input
       || contains_any text [str "delegate"; str "subagent"; str "in parallel"]
    then (Delegated, str "request explicitly delegates work")
    else if contains_any text
       [str "implement"; str "refactor"; str "repository"; str "codebase"; str "migration"]
    then (CodingProject, str "request changes a code project")
    else if contains_any text [str "research"; str "compare sources"; str "investigate"; str "literature"]
    then (Research, str "request requires evidence synthesis")
    else if (ci_available_tool_matches input =? 1)%Z
    then (SingleTool, str "one tool directly satisfies the request")
    else if (1 <? ci_available_tool_matches input)%Z || ci_explicit_plan input
       || contains_any text [str "then"; str "multiple steps"; str "coordinate"]
    then (MultiStep, str "request has dependent operations")
    else match (suggest ← assistant; suggest input) with
         | Some suggested => (suggested, str "router assistant classified an ambiguous request")
         | None => (Direct, str "request can be answered directly")
         end in
  MkClassification mode (ci_explicit_plan input || ci_high_risk input || is_complex mode) [reason].

Definition classify (input : ClassificationInput) : Classification := classify_with_assistant input None.

(** ** The evaluation corpus *)

Record EvaluationCase := MkEvaluationCase {
  ec_name : rstr;
  ec_input : ClassificationInput;
  ec_expected_mode : ExecutionMode;
  ec_persisted_plan_expected : bool;
  ec_review_expected : bool
}.

Record EvaluationObservation := MkEvaluationObservation {
  eo_name : rstr;
  eo_mode : ExecutionMode;
  eo_quality_milliscore : Z;
  eo_latency_ms : Z;
  eo_cost_micros : Z;
  eo_failed : bool
}.

Record EvaluationReport := MkEvaluationReport {
  er_total : Z;
  er_routing_matches : Z;
  er_observations : list EvaluationObservation
}.

Definition evaluation (name request : rstr) (tools : Z) (expected_mode : ExecutionMode) : EvaluationCase :=
  MkEvaluationCase name (MkClassificationInput request tools false false false false false) expected_mode
    (is_complex expected_mode)
    (match expected_mode with Research | CodingProject | Delegated => true | _ => false end).

Definition fixed_evaluation_corpus : list EvaluationCase :=
  [evaluation (str "direct") (str "Explain this error") 0 Direct;
   evaluation (str "single_tool") (str "Read this file") 1 SingleTool;
   evaluation (str "multi_step") (str "Fetch the data then summarize it") 2 MultiStep;
   evaluation (str "research") (str "Research and compare sources") 0 Research;
   evaluation (str "coding") (str "Implement this repository migration") 0 CodingProject;
   evaluation (str "monitoring") (str "Monitor the endpoint") 0 Monitoring;
   evaluation (str "recurring") (str "Run this every day") 0 Recurring;
   MkEvaluationCase (str "delegated")
     (MkClassificationInput (str "Delegate the independent investigation") 0 false true false false false)
     Delegated true true].

(** In the map collected from the corpus a later case of a name wins. *)
Definition evaluate_router (observations : list EvaluationObservation) : EvaluationReport :=
  let expected : gmap rstr ExecutionMode :=
    list_to_map (reverse ((fun c => (ec_name c, ec_expected_mode c)) <$> fixed_evaluation_corpus)) in
  MkEvaluationReport (Z.of_nat (length fixed_evaluation_corpus))
    (Z.of_nat (length (List.filter (fun o => bool_decide (expected !! eo_name o = Some (eo_mode o))) observations)))
    observations.

(** ** Plans *)

Inductive PlanState := PlanDraft | PlanActive | PlanPaused | PlanCompleted | PlanCancelled.

Inductive StepState := StepPending | StepInProgress | StepCompleted | StepBlocked | StepSkipped.

#[export] Instance StepState_eq_dec : EqDecision StepState.
Proof. solve_decision. Defined.

Inductive Assignee := AssigneeAgent | AssigneeUser | AssigneeChild (id : ChildId).

Inductive ResultCheckKind := CheckAssertion | CheckCommand | CheckArtifactExists | CheckUserApproval.

Record ResultCheck := MkResultCheck {
  check_kind : ResultCheckKind;
  check_description : rstr;
  check_command : option (list rstr)
}.

Record PlanBudget := MkPlanBudget {
  token_limit : option Z;
  elapsed_ms_limit : option Z;
  cost_micros_limit : option Z
}.

Record PlanStep := MkPlanStep {
  step_id : EntityId;
  step_milestone : rstr;
  step_description : rstr;
  step_dependencies : list EntityId;
  step_assignee : Assignee;
  step_checks : list ResultCheck;
  step_budget : PlanBudget;
  step_state : StepState;
  step_result : option rstr
}.

Record PlanRevision := MkPlanRevision {
  pr_revision : Revision;
  pr_edited_at : UtcTimestamp;
  pr_edited_by : rstr;
  pr_edit_reason : rstr;
  pr_restated_outcome : rstr;
  pr_constraints : list rstr;
  pr_milestones : list rstr;
  pr_steps : list PlanStep;
  pr_budget : PlanBudget;
  pr_state : PlanState
}.

Record Plan := MkPlan {
  p_id : EntityId;
  p_goal_id : option GoalId;
  p_created_at : UtcTimestamp;
  p_current_revision : Revision;
  p_revisions : list PlanRevision
}.

Record NewPlan := MkNewPlan {
  np_goal_id : option GoalId;
  np_restated_outcome : rstr;
  np_constraints : list rstr;
  np_milestones : list rstr;
  np_steps : list PlanStep;
  np_budget : PlanBudget;
  np_state : PlanState;
  np_created_at : UtcTimestamp;
  np_created_by : rstr
}.

Record PlanEdit := MkPlanEdit {
  pe_restated_outcome : rstr;
  pe_constraints : list rstr;
  pe_milestones : list rstr;
  pe_steps : list PlanStep;
  pe_budget : PlanBudget;
  pe_state : PlanState;
  pe_edited_at : UtcTimestamp;
  pe_edited_by : rstr;
  pe_reason : rstr
}.

Record PlanContext := MkPlanContext {
  pc_plan_id : EntityId;
  pc_goal_id : option GoalId;
  pc_revision : Revision;
  pc_outcome : rstr;
  pc_state : PlanState;
  pc_ready_steps : list PlanStep;
  pc_blocked_steps : list PlanStep
}.

(** [R] is the error of the repository.  [PlPanicked] is the panic of
    [Plan::current] on a plan without revisions, and the end of the fuel of
    [detect_cycle]; the theorems show that neither happens. *)
Inductive PlanError (R : Type) :=
| PlInvalid (message : rstr)
| PlNotFound (id : EntityId)
| PlRevisionConflict
| PlRepository (error : R)
| PlSerialization (error : JsonError)
| PlPanicked.
Global Arguments PlInvalid {R}.
Global Arguments PlNotFound {R}.
Global Arguments PlRevisionConflict {R}.
Global Arguments PlRepository {R}.
Global Arguments PlSerialization {R}.
Global Arguments PlPanicked {R}.

(** ** Validation *)

Abbreviation Dependencies := (gmap EntityId (list EntityId)).

(** [detect_cycle] with the two sets it updates; [None] is the end of [fuel],
    which bounds the depth of the recursion. *)
Fixpoint detect_cycle {E} (fuel : nat) (id : EntityId) (dependencies : Dependencies) (visiting visited : gset EntityId)
  : option (result (PlanError E) (gset EntityId * gset EntityId)) :=
  match fuel with
  | O => None
  | S fuel =>
      if bool_decide (id ∈ visited) then Some (Ok (visiting, visited))
      else if bool_decide (id ∈ visiting) then Some (Err (PlInvalid (str "step dependencies contain a cycle")))
      else
        let walked :=
          fold_left (fun acc dependency =>
                       match acc with
                       | Some (Ok (visiting, visited)) => detect_cycle fuel dependency dependencies visiting visited
                       | stopped => stopped
                       end)
            (default [] (dependencies !! id)) (Some (Ok ({[id]} ∪ visiting, visited))) in
        match walked with
        | Some (Ok (visiting, visited)) => Some (Ok (visiting ∖ {[id]}, {[id]} ∪ visited))
        | stopped => stopped
        end
  end.

(** The search from every step, in the order of the set. *)
Fixpoint check_cycles {E} (fuel : nat) (dependencies : Dependencies) (ids : list EntityId) : result (PlanError E) unit :=
  match ids with
  | [] => Ok tt
  | id :: ids =>
      match detect_cycle fuel id dependencies ∅ ∅ with
      | Some (Ok _) => check_cycles fuel dependencies ids
      | Some (Err error) => Err error
      | None => Err PlPanicked
      end
  end.

Definition step_ids (steps : list PlanStep) : gset EntityId := list_to_set (step_id <$> steps).

(** A later step of an identifier wins. *)
Definition step_dependency_map (steps : list PlanStep) : Dependencies :=
  list_to_map (reverse ((fun step => (step_id step, step_dependencies step)) <$> steps)).

Definition step_malformed (ids : gset EntityId) (step : PlanStep) : bool :=
  str_blank (step_milestone step) || str_blank (step_description step)
  || (match step_checks step with [] => true | _ => false end)
  || existsb (fun dependency => negb (bool_decide (dependency ∈ ids)) || bool_decide (dependency = step_id step))
       (step_dependencies step).

Definition validate_steps {E} (steps : list PlanStep) : result (PlanError E) unit :=
  reject_if (match steps with [] => true | _ => false end) (PlInvalid (str "a complex plan needs at least one step")) ;;
  let ids := step_ids steps in
  reject_if (negb (bool_decide (size ids = length steps))) (PlInvalid (str "step IDs are not unique")) ;;
  reject_if (existsb (step_malformed ids) steps)
    (PlInvalid (str "steps require descriptions, checks, and valid dependencies")) ;;
  check_cycles (S (length steps)) (step_dependency_map steps) (sort_by rcmp (elements ids)).

(** [Plan::current]. *)
Definition current (p : Plan) : option PlanRevision := last (p_revisions p).

(** [Plan::revision]. *)
Definition plan_revision (p : Plan) (revision : Revision) : option PlanRevision :=
  List.find (fun candidate => bool_decide (pr_revision candidate = revision)) (p_revisions p).

(** The loop over the history, from [index]. *)
Fixpoint check_history {E} (index : Z) (revisions : list PlanRevision) : result (PlanError E) unit :=
  match revisions with
  | [] => Ok tt
  | revision :: revisions =>
      expected ← ok_or (MkRevision <$> u64_checked_add index 1) (PlInvalid (str "revision count overflowed"));
      reject_if (negb (bool_decide (pr_revision revision = expected)))
        (PlInvalid (str "revision history is not contiguous")) ;;
      check_history (index + 1) revisions
  end.

(** [Plan::validate]. *)
Definition validate {E} (p : Plan) : result (PlanError E) unit :=
  let missing := PlInvalid (str "plan outcome, milestones, or revision is missing") in
  match current p with
  | None => Err missing
  | Some cur =>
      reject_if (negb (bool_decide (p_current_revision p = pr_revision cur))
                 || str_blank (pr_restated_outcome cur)
                 || (match pr_milestones cur with [] => true | _ => false end)) missing ;;
      check_history 0 (p_revisions p) ;;
      validate_steps (pr_steps cur)
  end.

Definition first_plan (id : EntityId) (new : NewPlan) : Plan :=
  MkPlan id (np_goal_id new) (np_created_at new) (MkRevision 1)
    [MkPlanRevision (MkRevision 1) (np_created_at new) (np_created_by new) (str "initial plan")
       (np_restated_outcome new) (np_constraints new) (np_milestones new) (np_steps new) (np_budget new) (np_state new)].

Definition edited_plan (p : Plan) (next : Revision) (edit : PlanEdit) : Plan :=
  MkPlan (p_id p) (p_goal_id p) (p_created_at p) next
    (p_revisions p ++
     [MkPlanRevision next (pe_edited_at edit) (pe_edited_by edit) (pe_reason edit) (pe_restated_outcome edit)
        (pe_constraints edit) (pe_milestones edit) (pe_steps edit) (pe_budget edit) (pe_state edit)]).

(** ** What can be worked on *)

Definition completed_steps (steps : list PlanStep) : gset EntityId :=
  list_to_set (step_id <$> List.filter (fun step => bool_decide (step_state step = StepCompleted)) steps).

Definition dependencies_met (completed : gset EntityId) (step : PlanStep) : bool :=
  forallb (fun dependency => bool_decide (dependency ∈ completed)) (step_dependencies step).

Definition is_ready (completed : gset EntityId) (step : PlanStep) : bool :=
  bool_decide (step_state step = StepPending) && dependencies_met completed step.

Definition plan_context (p : Plan) (cur : PlanRevision) : PlanContext :=
  let completed := completed_steps (pr_steps cur) in
  MkPlanContext (p_id p) (p_goal_id p) (p_current_revision p) (pr_restated_outcome cur) (pr_state cur)
    (List.filter (is_ready completed) (pr_steps cur)) 
    (List.filter (fun step => bool_decide (step_state step = StepBlocked)
                              || (bool_decide (step_state step = StepPending) && negb (dependencies_met completed step)))
       (pr_steps cur)).

(** ** The service *)

Section service.
Context {S : Type} `{HR : Repository S, HP : Document Plan}.
Context (new_id : nat -> EntityId).

Abbreviation Error := (PlanError repo_error).
Abbreviation plan_m := (stateT (World S) Error).

Definition put (p : Plan) (precondition : WritePrecondition) : plan_m unit :=
  cur ← lift (ok_or (current p) PlPanicked);
  payload ← lift (map_err PlSerialization (to_value p));
  map_err_m PlRepository
    (call_put Plans (MkVersionedRecord CURRENT_SCHEMA_VERSION (p_id p) (p_current_revision p) (pr_edited_at cur) payload)
       precondition) ;;
  mret tt.

Definition create (new : NewPlan) : plan_m Plan :=
  id ← draw_id new_id;
  let p := first_plan id new in
  lift (validate p) ;;
  put p PreMissing ;;
  mret p.

Definition get (id : EntityId) : plan_m Plan :=
  found ← map_err_m PlRepository (call_get Plans id);
  r ← lift (ok_or found (PlNotFound id));
  p ← lift (map_err PlSerialization (from_value (rec_payload r)));
  lift (validate p) ;;
  mret p.

Definition edit (id : EntityId) (expected_revision : Revision) (e : PlanEdit) : plan_m Plan :=
  p ← get id;
  lift (reject_if (negb (bool_decide (p_current_revision p = expected_revision))) PlRevisionConflict) ;;
  next ← lift (ok_or (checked_next expected_revision) (PlInvalid (str "revision overflowed")));
  let p := edited_plan p next e in
  lift (validate p) ;;
  put p (PreExact expected_revision) ;;
  mret p.

Definition context (id : EntityId) : plan_m PlanContext :=
  p ← get id;
  cur ← lift (ok_or (current p) PlPanicked);
  mret (plan_context p cur).
End service.
