(* ===== verification/PlanSteps.v ===== *)
(** * Steps of a plan and their dependencies

    The depth-first search [detect_cycle] against the dependency relation: it
    always ends, it accepts exactly the steps without a cycle, and in steps it
    accepts there is always one to work on. *)

From Stdlib Require Import ZArith Lia String.
From stdpp Require Import base decidable countable relations gmap sorting option list.
From S2P Require Import Prelude RustStd AgentTypes Json StateStoreCore ItemStore Planner.

(** ** The search *)

Section search.
Context (E : Type) (deps : Dependencies).

(** [x] depends on [y]. *)
Definition depends (x y : EntityId) : Prop := exists ds, deps !! x = Some ds /\ y ∈ ds.

Lemma depends_default x y : depends x y <-> y ∈ default [] (deps !! x).
Proof.
  unfold depends. destruct (deps !! x); simpl; [naive_solver|]. split; [naive_solver|]. by intros ?%elem_of_nil.
Qed.

(** Every chain of dependencies from [x] ends. *)
Abbreviation grounded := (Acc (fun y x => depends x y)).

Lemma grounded_acyclic x : grounded x -> ~ tc depends x x.
Proof.
  induction 1 as [x _ IH]. intros Hc.
  assert (exists y, depends x y /\ rtc depends y x) as (y & Hxy & Hyx).
  { inversion Hc as [? ? Hd|? y ? Hd Ht]; subst; [exists x; by split|]. exists y. split; [done|by apply tc_rtc]. }
  apply (IH y Hxy). eapply tc_rtc_l; [exact Hyx|]. by constructor.
Qed.

Abbreviation walk fuel vs d :=
  (fold_left (fun acc dependency =>
     match acc with
     | Some (Ok (visiting, visited)) => detect_cycle (E := E) fuel dependency deps visiting visited
     | stopped => stopped
     end) vs d).

Lemma walk_stopped fuel ds (stopped : option (result (PlanError E) (gset EntityId * gset EntityId))) :
  (forall v, stopped <> Some (Ok v)) -> walk fuel ds stopped = stopped.
Proof.
  intros Hs. induction ds as [|d ds IH]; [done|]. simpl. destruct stopped as [[[]|]|]; try done. by destruct (Hs (g, g0)).
Qed.

(** What was visited is grounded, and the path is given back as it was. *)
Lemma detect_cycle_ok fuel id visiting visited visiting' visited' :
  (forall x, x ∈ visited -> grounded x) ->
  detect_cycle (E := E) fuel id deps visiting visited = Some (Ok (visiting', visited')) ->
  visiting' = visiting /\ visited ⊆ visited' /\ id ∈ visited' /\ (forall x, x ∈ visited' -> grounded x).
Proof.
  revert id visiting visited visiting' visited'.
  induction fuel as [|fuel IH]; intros id visiting visited visiting' visited' Hg; simpl; [done|].
  case_bool_decide as Hv; [by intros [= <- <-]|]. case_bool_decide as Hvis; [done|].
  assert (forall ds vg vd vg' vd', (forall x, x ∈ vd -> grounded x) -> walk fuel ds (Some (Ok (vg, vd))) = Some (Ok (vg', vd')) ->
    vg' = vg /\ vd ⊆ vd' /\ (forall d, d ∈ ds -> d ∈ vd') /\ (forall x, x ∈ vd' -> grounded x)) as Hwalk.
  { intros ds. induction ds as [|d ds IHd]; intros vg vd vg' vd' Hgd; simpl.
    - intros [= <- <-]. split_and!; try done. by intros d ?%elem_of_nil.
    - destruct (detect_cycle fuel d deps vg vd) as [[[vg1 vd1]|e]|] eqn:Ed.
      2: { by rewrite walk_stopped. }
      2: { by rewrite walk_stopped. }
      destruct (IH _ _ _ _ _ Hgd Ed) as (-> & Hsub & Hin & Hg1). intros Hw.
      destruct (IHd _ _ _ _ Hg1 Hw) as (-> & Hsub' & Hin' & Hg'). split_and!; [done|by etrans| |done].
      intros x [->|Hx]%elem_of_cons; auto. }
  destruct (walk _ _ _) as [[[vg vd]|e]|] eqn:Ew; [|done..]. intros [= <- <-].
  destruct (Hwalk _ _ _ _ _ Hg Ew) as (-> & Hsub & Hin & Hg').
  split_and!; [clear -Hvis; set_solver|clear -Hsub; set_solver|clear; set_solver|].
  intros x [->%elem_of_singleton|Hx]%elem_of_union; [|auto]. constructor. intros y Hy%depends_default. auto.
Qed.

(** A path of the search that meets itself is a cycle. *)
Lemma detect_cycle_err fuel id visiting visited e :
  (forall v, v ∈ visiting -> tc depends v id) -> (forall x, x ∈ visited -> grounded x) ->
  detect_cycle (E := E) fuel id deps visiting visited = Some (Err e) ->
  e = PlInvalid (str "step dependencies contain a cycle") /\ exists x, tc depends x x.
Proof.
  revert id visiting visited. induction fuel as [|fuel IH]; intros id visiting visited Hp Hg; simpl; [done|].
  case_bool_decide as Hv; [done|]. case_bool_decide as Hvis.
  { intros [= <-]. split; [done|]. exists id. auto. }
  assert (forall ds vd, (forall d, d ∈ ds -> depends id d) -> (forall x, x ∈ vd -> grounded x) ->
    walk fuel ds (Some (Ok ({[id]} ∪ visiting, vd))) = Some (Err e) ->
    e = PlInvalid (str "step dependencies contain a cycle") /\ exists x, tc depends x x) as Hwalk.
  { intros ds. induction ds as [|d ds IHd]; intros vd Hds Hgd; simpl; [done|].
    destruct (detect_cycle fuel d deps _ vd) as [[[vg1 vd1]|e1]|] eqn:Ed.
    - destruct (detect_cycle_ok _ _ _ _ _ _ Hgd Ed) as (-> & _ & _ & Hg1).
      apply IHd; [|done]. intros d' Hd'. apply Hds. by right.
    - rewrite walk_stopped by done. intros [= ->]. eapply IH; [|exact Hgd|exact Ed].
      assert (depends id d) as Hd by (apply Hds; by left).
      intros v [->%elem_of_singleton|Hvv]%elem_of_union; [by constructor|]. eapply tc_r; [by apply Hp|done].
    - by rewrite walk_stopped. }
  destruct (walk _ _ _) as [[[vg vd]|e']|] eqn:Ew; [done| |done]. intros [= ->].
  eapply Hwalk; [|exact Hg|exact Ew]. intros d. apply depends_default.
Qed.

(** The path never holds an identifier twice: fuel for every identifier is enough. *)
Lemma detect_cycle_ends ids fuel id visiting visited :
  (forall x y, depends x y -> y ∈ ids) -> id ∈ ids -> (size (ids ∖ visiting) < fuel)%nat ->
  (forall x, x ∈ visited -> grounded x) ->
  is_Some (detect_cycle (E := E) fuel id deps visiting visited).
Proof.
  intros Hclosed. revert id visiting visited.
  induction fuel as [|fuel IH]; intros id visiting visited Hid Hsize Hg; simpl; [lia|].
  case_bool_decide as Hv; [done|]. case_bool_decide as Hvis; [done|].
  assert (size (ids ∖ ({[id]} ∪ visiting)) < fuel)%nat as Hless.
  { assert (ids ∖ visiting = {[id]} ∪ ids ∖ ({[id]} ∪ visiting)) as Heq.
    { apply leibniz_equiv. intros x. rewrite elem_of_union, !elem_of_difference, elem_of_union, elem_of_singleton.
      destruct (decide (x = id)) as [->|Hne]; [clear -Hid Hvis|clear -Hne]; naive_solver. }
    rewrite Heq, size_union, size_singleton in Hsize; [lia|]. clear. set_solver. }
  assert (forall ds vd, (forall d, d ∈ ds -> d ∈ ids) -> (forall x, x ∈ vd -> grounded x) ->
    is_Some (walk fuel ds (Some (Ok ({[id]} ∪ visiting, vd))))) as Hwalk.
  { intros ds. induction ds as [|d ds IHd]; intros vd Hds Hgd; simpl; [done|].
    destruct (IH d ({[id]} ∪ visiting) vd) as [[[vg1 vd1]|e1] Ed]; [apply Hds; by left|done|done|..]; rewrite Ed.
    - destruct (detect_cycle_ok _ _ _ _ _ _ Hgd Ed) as (-> & _ & _ & Hg1).
      apply IHd; [|done]. intros d' Hd'. apply Hds. by right.
    - by rewrite walk_stopped. }
  destruct (Hwalk (default [] (deps !! id)) visited) as [[[vg vd]|e] Ew]; [|done|by rewrite Ew..].
  intros d Hd%depends_default. eauto.
Qed.

(** The search from every identifier. *)
Lemma check_cycles_correct (ids : gset EntityId) fuel (todo : list EntityId) :
  (forall x y, depends x y -> y ∈ ids) -> (forall x, x ∈ todo -> x ∈ ids) -> (size ids < fuel)%nat ->
  (forall x, is_Some (deps !! x) -> x ∈ todo) ->
  (check_cycles (E := E) fuel deps todo = Ok tt <-> forall x, ~ tc depends x x)
  /\ (check_cycles (E := E) fuel deps todo = Ok tt -> forall x, grounded x)
  /\ (check_cycles (E := E) fuel deps todo = Ok tt
      \/ check_cycles (E := E) fuel deps todo = Err (PlInvalid (str "step dependencies contain a cycle"))).
Proof.
  intros Hclosed Htodo Hfuel Hall.
  assert (forall x, x ∈ todo -> is_Some (detect_cycle (E := E) fuel x deps ∅ ∅)) as Hends.
  { intros x Hx. apply detect_cycle_ends with ids; [done|auto| |by intros y ?%not_elem_of_empty].
    by rewrite difference_empty_L. }
  assert ((check_cycles (E := E) fuel deps todo = Ok tt /\ forall x, x ∈ todo -> grounded x)
    \/ (check_cycles (E := E) fuel deps todo = Err (PlInvalid (str "step dependencies contain a cycle"))
        /\ exists x, tc depends x x)) as Hcase.
  { clear Hall Htodo. induction todo as [|id todo IH]; simpl.
    { left. split; [done|]. by intros x ?%elem_of_nil. }
    destruct (Hends id) as [[[vg vd]|e] Ed]; [by left|..]; rewrite Ed.
    - apply detect_cycle_ok in Ed as (_ & _ & Hin & Hg); [|by intros y ?%not_elem_of_empty].
      destruct IH as [[Hc Hgt]|Hc]; [intros x Hx; apply Hends; by right| |by right].
      left. split; [done|]. intros x [->|Hx]%elem_of_cons; auto.
    - right. apply detect_cycle_err in Ed as [-> Hx]; [done|..]; by intros y ?%not_elem_of_empty. }
  assert (forall x, (forall y, y ∈ todo -> grounded y) -> grounded x) as Hground.
  { intros x Hg. destruct (deps !! x) as [ds|] eqn:Ex; [apply Hg, Hall; by rewrite Ex|].
    constructor. intros y (ds & Hds & _). congruence. }
  destruct Hcase as [[-> Hg]|[-> [x Hx]]].
  - split_and!; [|by auto|by left]. split; [|done]. intros _ x. apply grounded_acyclic. auto.
  - split_and!; [|done|by right]. split; [done|]. intros Hno. by destruct (Hno x).
Qed.
End search.

(** ** Valid steps *)

Definition steps_depend (steps : list PlanStep) (x y : EntityId) : Prop :=
  exists s, s ∈ steps /\ step_id s = x /\ y ∈ step_dependencies s.

(** What [validate_steps] promises. *)
Definition well_planned (steps : list PlanStep) : Prop :=
  steps <> [] /\ NoDup (step_id <$> steps)
  /\ (forall s, s ∈ steps -> str_blank (step_milestone s) = false /\ str_blank (step_description s) = false
        /\ step_checks s <> [] /\ forall d, d ∈ step_dependencies s -> exists t, t ∈ steps /\ step_id t = d)
  /\ forall x, ~ tc (steps_depend steps) x x.

Lemma elem_of_step_ids steps x : x ∈ step_ids steps <-> exists s, s ∈ steps /\ step_id s = x.
Proof. unfold step_ids. rewrite elem_of_list_to_set, list_elem_of_fmap. naive_solver. Qed.

Lemma dependency_map_spec steps x ds :
  NoDup (step_id <$> steps) ->
  step_dependency_map steps !! x = Some ds <-> exists s, s ∈ steps /\ step_id s = x /\ step_dependencies s = ds.
Proof.
  intros Hnd. unfold step_dependency_map. rewrite <- elem_of_list_to_map.
  - rewrite elem_of_reverse, list_elem_of_fmap. naive_solver.
  - rewrite fmap_reverse, reverse_Permutation. by rewrite <- list_fmap_compose.
Qed.

Lemma depends_steps steps x y :
  NoDup (step_id <$> steps) -> depends (step_dependency_map steps) x y <-> steps_depend steps x y.
Proof.
  intros Hnd. unfold depends, steps_depend. split.
  - intros (ds & (s & Hs & Hi & <-)%dependency_map_spec & Hy); [|done]. by exists s.
  - intros (s & Hs & Hi & Hy). exists (step_dependencies s). split; [|done]. apply dependency_map_spec; [done|by exists s].
Qed.

Lemma step_malformed_spec ids s :
  step_malformed ids s = false <->
  (str_blank (step_milestone s) = false /\ str_blank (step_description s) = false /\ step_checks s <> [])
  /\ forall d, d ∈ step_dependencies s -> d ∈ ids /\ d <> step_id s.
Proof.
  unfold step_malformed. rewrite !orb_false_iff.
  assert (forall ds, existsb (fun d => negb (bool_decide (d ∈ ids)) || bool_decide (d = step_id s)) ds = false <->
    forall d, d ∈ ds -> d ∈ ids /\ d <> step_id s) as ->.
  { intros ds. induction ds as [|d ds IH]; simpl.
    - split; [|done]. by intros _ d ?%elem_of_nil.
    - rewrite orb_false_iff, IH, orb_false_iff, negb_false_iff, bool_decide_eq_true, bool_decide_eq_false.
      setoid_rewrite elem_of_cons. naive_solver. }
  destruct (step_checks s); naive_solver.
Qed.

(** [validate_steps] after its other checks. *)
Lemma validated_cycles {E} steps :
  NoDup (step_id <$> steps) -> (forall s, s ∈ steps -> forall d, d ∈ step_dependencies s -> d ∈ step_ids steps) ->
  let check := check_cycles (E := E) (S (length steps)) (step_dependency_map steps) (sort_by rcmp (elements (step_ids steps))) in
  (check = Ok tt <-> forall x, ~ tc (steps_depend steps) x x)
  /\ (check = Ok tt -> forall x, Acc (fun y x => steps_depend steps x y) x)
  /\ (check = Ok tt \/ check = Err (PlInvalid (str "step dependencies contain a cycle"))).
Proof.
  intros Hnd Hdeps. destruct (check_cycles_correct E (step_dependency_map steps) (step_ids steps) (S (length steps))
    (sort_by rcmp (elements (step_ids steps)))) as (H1 & H2 & H3).
  - intros x y (s & Hs & _ & Hy)%depends_steps; [|done]. by eapply Hdeps.
  - intros x. by rewrite sort_by_perm, elem_of_elements.
  - assert (size (step_ids steps) = length steps) as ->; [|lia]. rewrite <- (length_fmap step_id steps).
    by apply size_list_to_set_NoDup.
  - intros x [ds (s & Hs & <- & _)%dependency_map_spec]; [|done]. rewrite sort_by_perm, elem_of_elements.
    apply elem_of_step_ids. by exists s.
  - assert (forall x y, depends (step_dependency_map steps) x y <-> steps_depend steps x y) as Hd by (intros; by apply depends_steps).
    assert (forall x y, tc (depends (step_dependency_map steps)) x y <-> tc (steps_depend steps) x y) as Ht.
    { intros x y. split; induction 1 as [a b Hab|a b c Hab _ IH]; [apply tc_once|eapply tc_l|apply tc_once|eapply tc_l];
        try exact IH; by apply Hd. }
    setoid_rewrite Ht in H1. split_and!; [done| |done].
    intros Hc x. specialize (H2 Hc x). induction H2 as [x _ IH]. constructor. intros y Hy. by apply IH, Hd.
Qed.

(** The checks before the search. *)
Lemma steps_wellformed steps :
  NoDup (step_id <$> steps) -> existsb (step_malformed (step_ids steps)) steps = false <->
  forall s, s ∈ steps -> (str_blank (step_milestone s) = false /\ str_blank (step_description s) = false
    /\ step_checks s <> []) /\ forall d, d ∈ step_dependencies s -> d ∈ step_ids steps /\ d <> step_id s.
Proof.
  intros _. setoid_rewrite <- step_malformed_spec. rewrite <- not_true_iff_false, existsb_exists.
  setoid_rewrite list_elem_of_In. split.
  - intros Hno s Hs. apply not_true_iff_false. intros Hm. apply Hno. by exists s.
  - intros Hall (s & Hs & Hm). by rewrite Hall in Hm.
Qed.

Lemma validate_steps_shape {E} steps :
  validate_steps (E := E) steps =
    if (match steps with [] => true | _ => false end) then Err (PlInvalid (str "a complex plan needs at least one step"))
    else if negb (bool_decide (NoDup (step_id <$> steps))) then Err (PlInvalid (str "step IDs are not unique"))
    else if existsb (step_malformed (step_ids steps)) steps
         then Err (PlInvalid (str "steps require descriptions, checks, and valid dependencies"))
    else check_cycles (S (length steps)) (step_dependency_map steps) (sort_by rcmp (elements (step_ids steps))).
Proof.
  unfold validate_steps. destruct steps as [|s0 steps0] eqn:Es; [done|].
  rewrite <- Es. clear s0 steps0 Es. cbn [reject_if mbind result_bind].
  assert (bool_decide (size (step_ids steps) = length steps) = bool_decide (NoDup (step_id <$> steps))) as ->.
  { apply bool_decide_ext. unfold step_ids. rewrite <- (length_fmap step_id steps). apply size_list_to_set_NoDup. }
  destruct (bool_decide _); [|done]. cbn [negb reject_if mbind result_bind].
  by destruct (existsb _ steps).
Qed.

Lemma validate_steps_iff {E} steps :
  (validate_steps (E := E) steps = Ok tt <-> well_planned steps) /\ validate_steps (E := E) steps <> Err PlPanicked
  /\ (validate_steps (E := E) steps = Ok tt -> forall x, Acc (fun y x => steps_depend steps x y) x).
Proof.
  rewrite validate_steps_shape. unfold well_planned.
  destruct steps as [|s0 steps0] eqn:Es; [split_and!; [naive_solver|done|done]|].
  assert (steps <> []) as Hne by by rewrite Es. rewrite <- Es. clear s0 steps0 Es.
  case_bool_decide as Hnd; cbn [negb]; [|split_and!; [naive_solver|done|done]].
  destruct (existsb _ steps) eqn:Em.
  { split_and!; [|done|done]. split; [done|]. intros (_ & _ & Hs & Hac). rewrite <- not_false_iff_true in Em. destruct Em.
    apply steps_wellformed; [done|]. intros s Hin. destruct (Hs s Hin) as (Hm & Hd & Hc & Hdep). split; [done|].
    intros d Hdd. split; [by apply elem_of_step_ids, Hdep|]. intros ->. apply (Hac (step_id s)). apply tc_once.
    by exists s. }
  pose proof (proj1 (steps_wellformed steps Hnd) Em) as Hall.
  destruct (validated_cycles (E := E) steps Hnd) as (H1 & H2 & H3).
  { intros s Hs d Hd. by apply (proj2 (Hall s Hs)). }
  split_and!; [|by destruct H3 as [-> | ->]|done]. rewrite H1. split; [|naive_solver].
  intros Hac. split_and!; try done. intros s Hs. destruct (Hall s Hs) as [(? & ? & ?) Hd]. split_and!; try done.
  intros d Hdd. by apply elem_of_step_ids, Hd.
Qed.

(** ** Progress *)

Lemma dependencies_met_spec completed s :
  dependencies_met completed s = true <-> forall d, d ∈ step_dependencies s -> d ∈ completed.
Proof.
  unfold dependencies_met. rewrite forallb_forall. setoid_rewrite <- list_elem_of_In. setoid_rewrite bool_decide_eq_true. done.
Qed.

Lemma elem_of_completed steps x :
  x ∈ completed_steps steps <-> exists s, s ∈ steps /\ step_id s = x /\ step_state s = StepCompleted.
Proof.
  unfold completed_steps. rewrite elem_of_list_to_set, list_elem_of_fmap. split.
  - intros (s & -> & [Hs Hc%bool_decide_eq_true]%list_elem_of_In%filter_In). exists s. split_and!; [by apply list_elem_of_In|done..].
  - intros (s & Hs & <- & Hc). exists s. split; [done|]. apply list_elem_of_In, filter_In. split; [by apply list_elem_of_In|].
    by apply bool_decide_eq_true.
Qed.

(** A step that is pending is ready, or waits for one that is ready, unless some
    step it waits for is neither pending nor completed. *)
Lemma ready_step_found steps x :
  well_planned steps ->
  (forall s, s ∈ steps -> step_state s = StepPending \/ step_state s = StepCompleted) ->
  (exists s, s ∈ steps /\ step_id s = x /\ step_state s = StepPending) ->
  exists s, s ∈ steps /\ is_ready (completed_steps steps) s = true /\ rtc (steps_depend steps) x (step_id s).
Proof.
  intros Hwp Hst. pose proof (validate_steps_iff (E := unit) steps) as (Hv & _ & Hacc).
  specialize (Hacc (proj2 Hv Hwp) x). destruct Hwp as (_ & Hnd & Hs & _).
  induction Hacc as [x _ IH]. intros (s & Hin & Hid & Hp).
  destruct (dependencies_met (completed_steps steps) s) eqn:Em.
  { exists s. rewrite Hid. split_and!; [done| |done]. unfold is_ready. rewrite Em, bool_decide_eq_true_2 by done. done. }
  assert (exists d, d ∈ step_dependencies s /\ d ∉ completed_steps steps) as (d & Hd & Hnc).
  { apply not_true_iff_false in Em. rewrite dependencies_met_spec in Em.
    destruct (decide (Exists (fun d => d ∉ completed_steps steps) (step_dependencies s))) as [He|He].
    - by apply Exists_exists in He.
    - destruct Em. intros d Hd. apply dec_stable. intros Hn. apply He, Exists_exists. by exists d. }
  destruct (Hs s Hin) as (_ & _ & _ & Hdep). destruct (Hdep d Hd) as (t & Ht & Htd).
  assert (steps_depend steps x d) as Hxd by by exists s.
  destruct (IH d Hxd) as (u & Hu & Hru & Hpath).
  - exists t. split_and!; try done. destruct (Hst t Ht) as [?|Hc]; [done|]. destruct Hnc. apply elem_of_completed. by exists t.
  - exists u. split_and!; [done|done|]. by eapply rtc_l.
Qed.
