(* ===== verification/PlanMachine.v ===== *)
(** * The life of a plan

    Valid plans, what may happen to the record of one, and the operations of the
    service of [Planner] in the logic of [ItemStore].  The service reads a plan
    without comparing it with its record; that the two agree is an invariant of
    everything it writes. *)

From Stdlib Require Import ZArith Lia String.
From stdpp Require Import base decidable countable relations gmap sorting option list.
From S2P Require Import Prelude RustStd AgentTypes Json StateStoreCore ItemStore Planner PlanSteps.

(** ** Valid plans *)

(** Revision [i] of the history has the number [i + 1]. *)
Definition contiguous (from : Z) (revisions : list PlanRevision) : Prop :=
  forall i r, revisions !! i = Some r ->
    pr_revision r = MkRevision (from + Z.of_nat i + 1) /\ (from + Z.of_nat i + 1 <= u64_max)%Z.

Lemma check_history_iff {E} from revisions :
  check_history (E := E) from revisions = Ok tt <-> contiguous from revisions.
Proof.
  revert from. induction revisions as [|r revisions IH]; intros from; simpl.
  { split; [|done]. by intros _ i r Hr. }
  assert (contiguous from (r :: revisions) <->
    (pr_revision r = MkRevision (from + 1) /\ (from + 1 <= u64_max)%Z) /\ contiguous (from + 1) revisions) as ->.
  { split.
    - intros Hc. split; [specialize (Hc 0%nat r eq_refl); by rewrite Z.add_0_r in Hc|].
      intros i q Hq. specialize (Hc (S i) q Hq). replace (from + 1 + Z.of_nat i + 1)%Z with (from + Z.of_nat (S i) + 1)%Z by lia. done.
    - intros [Hr Hc] [|i] q Hq; simpl in Hq; [injection Hq as <-; by rewrite Z.add_0_r|].
      specialize (Hc i q Hq). replace (from + Z.of_nat (S i) + 1)%Z with (from + 1 + Z.of_nat i + 1)%Z by lia. done. }
  unfold u64_checked_add. destruct (from + 1 <=? u64_max)%Z eqn:Eu; cbn [fmap option_fmap option_map ok_or mbind result_bind].
  - rewrite reject_if_bind, IH, negb_false_iff, bool_decide_eq_true. naive_solver lia.
  - split; [done|]. intros [[_ ?] _]. lia.
Qed.

Definition plan_valid (p : Plan) : Prop :=
  exists cur, current p = Some cur /\ p_current_revision p = pr_revision cur
    /\ str_blank (pr_restated_outcome cur) = false /\ pr_milestones cur <> []
    /\ contiguous 0 (p_revisions p) /\ well_planned (pr_steps cur).

Lemma validate_iff {E} p :
  (validate (E := E) p = Ok tt <-> plan_valid p) /\ validate (E := E) p <> Err PlPanicked.
Proof.
  unfold validate, plan_valid. destruct (current p) as [cur|]; [|split; [|done]; naive_solver].
  destruct (validate_steps_iff (E := E) (pr_steps cur)) as (Hs & Hp & _). pose proof (@check_history_iff E 0 (p_revisions p)) as Hh.
  split.
  - rewrite reject_if_bind, !orb_false_iff, negb_false_iff, bool_decide_eq_true.
    assert ((match pr_milestones cur with [] => true | _ => false end) = false <-> pr_milestones cur <> []) as ->
      by by destruct (pr_milestones cur).
    destruct (check_history 0 (p_revisions p)) as [[]|]; cbn [mbind result_bind].
    + split.
      * intros ([[? ?] ?] & ?%Hs). exists cur. split_and!; try done. by apply Hh.
      * intros (c & [= <-] & ? & ? & ? & _ & ?%Hs). done.
    + split; [by intros [_ ?]|]. intros (c & _ & _ & _ & _ & ?%Hh & _). done.
  - destruct (_ || _)%bool; [done|]. cbn [reject_if mbind result_bind].
    assert (forall rs from, check_history (E := E) from rs <> Err PlPanicked) as Hn.
    { intros rs. induction rs as [|r rs IH]; intros from; simpl; [done|]. unfold u64_checked_add.
      destruct (_ <=? _)%Z; simpl; [|done]. destruct (negb _); simpl; [done|]. apply IH. }
    specialize (Hn (p_revisions p) 0%Z). destruct (check_history 0 (p_revisions p)) as [[]|]; cbn [mbind result_bind]; [done|congruence].
Qed.

(** ** Steps *)

Definition plan_init (p : Plan) : Prop := exists id new, p = first_plan id new /\ plan_valid p.

Definition plan_step (p p' : Plan) : Prop :=
  exists next e, checked_next (p_current_revision p) = Some next /\ p' = edited_plan p next e /\ plan_valid p'.

(** A plan keeps what it was made for, and its history only grows. *)
Definition extends (p p' : Plan) : Prop :=
  p_id p' = p_id p /\ p_goal_id p' = p_goal_id p /\ p_created_at p' = p_created_at p
  /\ p_revisions p `prefix_of` p_revisions p'.

#[export] Instance extends_preorder : PreOrder extends.
Proof.
  split; [by intros p|]. intros a b c (H1 & H2 & H3 & H4) (K1 & K2 & K3 & K4). split_and!; [congruence..|by etrans].
Qed.

Lemma plan_steps_extend p p' : rtc plan_step p p' -> extends p p'.
Proof.
  induction 1 as [p|p q r (next & e & _ & -> & _) _ IH]; [done|]. etrans; [|exact IH]. split_and!; try done.
  by apply prefix_app_r.
Qed.

(** ** The operations *)

Section operations.
Context {S : Type} `{HU : Ulid, HR : Repository S, HL : !RepositoryLaws S, HD : Document Plan}.
Context (new_id : nat -> EntityId).

(** A record that agrees with its plan. *)
Definition decode_plan (r : VersionedRecord) : result (PlanError repo_error) (Stored Plan) :=
  p ← map_err PlSerialization (from_value (rec_payload r));
  validate p ;;
  reject_if (negb (bool_decide (p_id p = rec_id r /\ p_current_revision p = rec_revision r))) PlRevisionConflict ;;
  Ok (MkStored p (rec_revision r)).

Abbreviation pholds := (holds Plans decode_plan p_id plan_init plan_step).
Abbreviation replaced := (replaces Plans decode_plan p_id plan_init plan_step).

Definition plans : Machine Plan := item_machine Plans decode_plan plan_init plan_step.

Lemma decode_plan_spec r x :
  decode_plan r = Ok x <->
  from_value (rec_payload r) = Ok (item x) /\ plan_valid (item x) /\ p_id (item x) = rec_id r
  /\ p_current_revision (item x) = rec_revision r /\ storage_revision x = rec_revision r.
Proof.
  unfold decode_plan. destruct (from_value _) as [p|]; cbn [mbind result_bind map_err]; [|naive_solver].
  destruct (validate_iff (E := repo_error) p) as [Hv _]. destruct (validate p) as [[]|]; cbn [mbind result_bind].
  - rewrite reject_if_bind, negb_false_iff, bool_decide_eq_true. split.
    + intros [[Hi Hr] [= <-]]. split_and!; try done. by apply Hv.
    + intros ([= ->] & _ & Hi & Hr & Hs). split; [done|]. destruct x. simpl in *. by subst.
  - split; [done|]. intros ([= ->] & ?%Hv & _). done.
Qed.

Lemma decode_plan_faithful : decode_faithful decode_plan p_id.
Proof. intros r x (_ & _ & Hi & _ & Hs)%decode_plan_spec. done. Qed.

(** Every record of a plan agrees with its plan. *)
Definition plans_sound (recs : Records) : Prop :=
  forall id r, recs !! (Plans, id) = Some r -> exists x, decode_plan r = Ok x.

Lemma follows_sound recs recs' : follows plans recs recs' -> plans_sound recs -> plans_sound recs'.
Proof.
  intros Hf Hs id r Hr. specialize (Hf id). simpl in Hf. rewrite Hr in Hf. specialize (Hs id).
  apply rtc_inv_r in Hf as [Heq|(o & _ & Hk)]; [by apply Hs|].
  inversion Hk as [q x Hd _ Heq1 Heq2|q q' x x' _ Hd _ _ Heq1 Heq2]; subst; simpl in Hd.
  - destruct (decode_plan r) as [y|]; [by exists y|done].
  - destruct (decode_plan r) as [y|]; [by exists y|done].
Qed.

Context (Hcodec : document_lawful Plan) (G : Contract).
Context (Hfollows : forall recs recs', guarantee G recs recs' -> follows plans recs recs').

Abbreviation pseen := (seen G Plans decode_plan p_id plan_init plan_step).

Lemma spec_get_plan P id :
  stable G P -> (forall recs, P recs -> plans_sound recs) ->
  spec G P (get id) (fun p recs => P recs /\ exists x, pholds recs x /\ wf_stored p_id x /\ p = item x /\ p_id p = id).
Proof.
  intros Hst Hsound. unfold get. eapply spec_bind; [apply spec_map_err, spec_get|]. intros found. cbn beta.
  apply spec_lift_bind. intros r Hr%ok_or_Ok. apply spec_lift_bind. intros p Hp. apply spec_lift_bind. intros [] Hv.
  apply spec_ret. intros recs (Hl & Hf & Hwf). apply (later_stable G P) in Hl; [|done]. split; [done|].
  destruct (Hwf r Hr) as [Hwfr Hid]. rewrite Hr in Hf. destruct (Hsound recs Hl id r (eq_sym Hf)) as [x Hx].
  pose proof Hx as (Hfrom & _ & Hi & _ & Hrev)%decode_plan_spec. rewrite Hfrom in Hp. injection Hp as <-.
  exists x. split_and!; [|split|done|congruence].
  - apply holds_lookup. exists r. split; [|done]. rewrite Hi, Hid. by rewrite <- Hf.
  - rewrite Hi. apply Hwfr.
  - rewrite Hrev. apply Hwfr.
Qed.

(** [r] is the record [put] writes for [p]. *)
Lemma plan_record_spec p cur v :
  current p = Some cur -> to_value p = Ok v -> plan_valid p -> id_canonical (p_id p) ->
  is_u64 (revision_get (p_current_revision p)) -> is_i64 (unix_millis (pr_edited_at cur)) ->
  let r := MkVersionedRecord CURRENT_SCHEMA_VERSION (p_id p) (p_current_revision p) (pr_edited_at cur) v in
  wf_record r /\ decode_plan (canonical_record r) = Ok (MkStored p (p_current_revision p)).
Proof.
  intros Hc Hv Hval Hid Hrev Hnow. destruct (Hcodec _ _ Hv) as (Hd & Hread & Hback). split; [|by apply decode_plan_spec].
  split; [done|]. do 2 (split; [simpl; unfold u16_max; lia|]). done.
Qed.

(** [r] is the record of a new plan. *)
Definition creates_plan (r : VersionedRecord) (s : Stored Plan) : Prop :=
  decode_plan (canonical_record r) = Ok s /\ rec_id r = p_id (item s) /\ plan_init (item s).

Lemma spec_create_plan P new :
  stable G P -> is_i64 (unix_millis (np_created_at new)) -> (forall k, id_canonical (new_id k)) ->
  (forall recs r s, creates_plan r s -> recs !! (Plans, rec_id r) = None ->
     guarantee G recs (<[(Plans, rec_id r) := canonical_record r]> recs)) ->
  spec G P (create new_id new) (fun p recs' => exists recs s, P recs /\ recs !! (Plans, p_id p) = None
    /\ pholds recs' s /\ p = item s /\ plan_valid p).
Proof.
  intros Hst Hnow Hids Hown. unfold create. eapply spec_bind; [apply spec_draw|]. intros k. cbn beta.
  apply spec_pure. intros [n ->]. cbn zeta. set (p := first_plan _ _).
  apply spec_lift_bind. intros [] Hv. apply validate_iff in Hv. unfold put.
  match goal with |- spec _ _ _ ?Q => apply (spec_bind G _ _ (fun _ => Q p)); [|by intros []; apply spec_ret] end.
  apply spec_lift_bind. intros cur Hcur. cbn in Hcur. injection Hcur as <-.
  apply spec_lift_bind. intros v Ht.
  assert (to_value p = Ok v) as Htv by (destruct (to_value p); simpl in Ht; congruence).
  destruct (plan_record_spec p _ v eq_refl Htv Hv (Hids n)) as [Hwf Hdec]; [by vm_compute|done|].
  set (r := MkVersionedRecord _ _ _ _ _) in *.
  assert (creates_plan r (MkStored p (p_current_revision p))) as Hcr.
  { split; [done|]. split; [done|]. by exists (new_id n), new. }
  eapply spec_bind; [apply (spec_create G Plans PlRepository); [done|done|]|].
  { intros recs Hl Hnone. by eapply Hown. }
  intros receipt. cbn beta. apply spec_ret. intros recs' (recs & Hl & Hnone & ->).
  exists recs, (MkStored p (p_current_revision p)). split; [by apply (later_stable G P) in Hl|]. split; [done|].
  split; [|done]. exact (holds_insert_eq Plans _ p_id _ _ recs (canonical_record r) (MkStored p (p_current_revision p)) Hdec).
Qed.

(** The contract allows the edits of plans. *)
Context (Hupdate : forall recs x r s,
  pholds recs x -> decode_plan (canonical_record r) = Ok s -> plan_step (item x) (item s) ->
  revision_get (rec_revision r) = (revision_get (storage_revision x) + 1)%Z ->
  guarantee G recs (<[(Plans, p_id (item x)) := canonical_record r]> recs)).

Lemma spec_edit_plan P id expected e :
  stable G P -> (forall recs, P recs -> plans_sound recs) -> is_i64 (unix_millis (pe_edited_at e)) ->
  spec G P (edit id expected e) (fun p recs' => exists recs x s next, P recs /\ replaced recs recs' x s
    /\ p_id (item x) = id /\ p_current_revision (item x) = expected /\ checked_next expected = Some next
    /\ p = item s /\ p = edited_plan (item x) next e /\ plan_valid p).
Proof.
  intros Hst Hsound Hnow. unfold edit. eapply spec_bind; [by apply spec_get_plan|]. intros p. cbn beta.
  apply spec_pre. intros recs1 (HP & x & Hx & [Hcan Hu] & -> & Hid).
  apply spec_lift_bind. intros [] Hexp%reject_if_ok%negb_false_iff%bool_decide_eq_true.
  apply spec_lift_bind. intros next Hnext%ok_or_Ok. cbn zeta. set (p := edited_plan (item x) next e).
  apply spec_lift_bind. intros [] Hv. apply validate_iff in Hv. unfold put.
  assert (storage_revision x = expected) as Hsr.
  { apply holds_lookup in Hx as (r & _ & (_ & _ & _ & Hc & Hr)%decode_plan_spec). congruence. }
  pose proof Hnext as [Hn Hle]%checked_next_Some.
  match goal with |- spec _ _ _ ?Q => apply (spec_bind G _ _ (fun _ => Q p)); [|by intros []; apply spec_ret] end.
  apply spec_lift_bind. intros cur Hcur%ok_or_Ok. unfold current in Hcur. simpl in Hcur. rewrite last_snoc in Hcur.
  injection Hcur as <-. apply spec_lift_bind. intros v Ht.
  assert (to_value p = Ok v) as Htv by (destruct (to_value p); simpl in Ht; congruence).
  destruct (plan_record_spec p (MkPlanRevision next (pe_edited_at e) (pe_edited_by e) (pe_reason e) (pe_restated_outcome e)
    (pe_constraints e) (pe_milestones e) (pe_steps e) (pe_budget e) (pe_state e)) v) as [Hwf Hdec]; try done.
  { unfold current. simpl. by rewrite last_snoc. }
  { simpl. unfold is_u64 in *. rewrite Hn, <- Hsr in *. lia. }
  set (r := MkVersionedRecord _ _ _ _ _) in *. rewrite <- Hsr.
  eapply spec_bind.
  { apply (spec_replace G Plans decode_plan p_id plan_init plan_step PlRepository decode_plan_faithful Hfollows
      (eq recs1) x r (MkStored p next)); [done|done|done|done| |].
    - intros recs <-. by apply holds_seen.
    - intros recs _ Hh. eapply Hupdate; [done|exact Hdec| |simpl; by rewrite Hsr].
      exists next, e. by rewrite Hexp. }
  intros receipt. cbn beta. apply spec_ret. intros recs' (recs & (recs2 & <- & HR2) & Hrep).
  exists recs, x, (MkStored p next), next. split; [eapply Hst; [done|by apply rely_guarantee]|]. split_and!; done || congruence.
Qed.

Lemma spec_context P id :
  stable G P -> (forall recs, P recs -> plans_sound recs) ->
  spec G P (context id) (fun c recs => P recs /\ exists x cur, pholds recs x /\ p_id (item x) = id /\ plan_valid (item x)
    /\ current (item x) = Some cur /\ c = plan_context (item x) cur).
Proof.
  intros Hst Hsound. unfold context. eapply spec_bind; [by apply spec_get_plan|]. intros p. cbn beta.
  apply spec_lift_bind. intros cur Hcur%ok_or_Ok. apply spec_ret. intros recs (HP & x & Hx & _ & -> & Hid).
  split; [done|]. exists x, cur. split_and!; try done.
  by apply holds_lookup in Hx as (r & _ & (_ & Hv & _)%decode_plan_spec).
Qed.
End operations.
