(* ===== verification/PlanProperties.v ===== *)
(** * Correctness of plans

    The steps a plan may have, what is ready among them, and runs of arbitrary
    operations of the service of [Planner] with other processes editing plans in
    between. *)

From Stdlib Require Import ZArith Lia String.
From stdpp Require Import base decidable countable relations gmap sorting option list.
From S2P Require Import Prelude RustStd AgentTypes Json StateStoreCore ItemStore Planner PlanSteps PlanMachine.

(** ** Routing *)

(** The router places every case of the evaluation corpus as the corpus
    expects, with a plan exactly where one is expected, so that its report over
    its own answers counts them all; and an assistant is asked only where the
    router itself would answer directly. *)
Theorem router_matches_corpus :
  (forall c, c ∈ fixed_evaluation_corpus ->
     cl_mode (classify (ec_input c)) = ec_expected_mode c
     /\ cl_plan_required (classify (ec_input c)) = ec_persisted_plan_expected c)
  /\ er_routing_matches (evaluate_router ((fun c =>
       MkEvaluationObservation (ec_name c) (cl_mode (classify (ec_input c))) 0 0 0 false) <$> fixed_evaluation_corpus))
     = er_total (evaluate_router [])
  /\ forall input assistant, classify_with_assistant input assistant = classify input \/ cl_mode (classify input) = Direct.
Proof.
  split_and!.
  - apply Forall_forall. repeat (constructor; [by vm_compute|]). constructor.
  - by vm_compute.
  - intros input assistant. unfold classify, classify_with_assistant.
    repeat match goal with |- context [if ?b then _ else _] => destruct b; [by left|] end. right. done.
Qed.

(** ** Steps *)

(** C15: the steps of a plan are accepted exactly when there are some, their
    identifiers are distinct, each has a milestone, a description and a check, every
    dependency is a step of the plan, and no step depends on itself through any
    chain of dependencies.  The search for a cycle always ends: its depth never
    passes the number of steps. *)
Theorem valid_steps_acyclic (E : Type) (steps : list PlanStep) :
  (validate_steps (E := E) steps = Ok tt <-> well_planned steps)
  /\ validate_steps (E := E) steps <> Err PlPanicked.
Proof. destruct (validate_steps_iff (E := E) steps) as (H1 & H2 & _). done. Qed.

(** A valid plan is never stuck on its own: while its steps are pending or
    completed, every pending step is offered as ready or waits, through its
    dependencies, for a step that is. *)
Theorem plan_makes_progress (E : Type) p cur s :
  validate (E := E) p = Ok tt -> current p = Some cur ->
  (forall t, t ∈ pr_steps cur -> step_state t = StepPending \/ step_state t = StepCompleted) ->
  s ∈ pr_steps cur -> step_state s = StepPending ->
  exists t, t ∈ pc_ready_steps (plan_context p cur) /\ rtc (steps_depend (pr_steps cur)) (step_id s) (step_id t)
    /\ step_state t = StepPending
    /\ forall d, d ∈ step_dependencies t -> exists u, u ∈ pr_steps cur /\ step_id u = d /\ step_state u = StepCompleted.
Proof.
  intros (c & Hc & _ & _ & _ & _ & Hwp)%validate_iff Hcur Hst Hs Hp. rewrite Hcur in Hc. injection Hc as <-.
  destruct (ready_step_found (pr_steps cur) (step_id s) Hwp Hst) as (t & Ht & Hr & Hpath); [by exists s|].
  exists t. split; [by apply list_elem_of_In, filter_In; split; [apply list_elem_of_In|]|]. split; [done|].
  apply andb_true_iff in Hr as [Hpt%bool_decide_eq_true Hd]. split; [done|]. rewrite dependencies_met_spec in Hd.
  intros d Hdd. by apply elem_of_completed, Hd.
Qed.

(** ** Runs *)

Inductive plan_op :=
| PCreate (new : NewPlan)
| PGet (id : EntityId)
| PEdit (id : EntityId) (expected : Revision) (e : PlanEdit)
| PContext (id : EntityId).

Section runs.
Context {S : Type} `{HU : Ulid, HR : Repository S, HL : !RepositoryLaws S, HD : Document Plan}.
Context (new_id : nat -> EntityId).

Abbreviation pholds := (holds Plans decode_plan p_id plan_init plan_step).

Definition plan_do (op : plan_op) (w : World S) : World S :=
  match op with
  | PCreate new => (create new_id new w).2
  | PGet id => (get id w).2
  | PEdit id expected e => (edit id expected e w).2
  | PContext id => (context id w).2
  end.

(** A run goes on after an error. *)
Definition plan_run (ops : list plan_op) (w : World S) : World S := fold_left (fun w op => plan_do op w) ops w.

(** Times are values of their Rust type. *)
Definition plan_typed (op : plan_op) : Prop :=
  match op with
  | PCreate new => is_i64 (unix_millis (np_created_at new))
  | PEdit _ _ e => is_i64 (unix_millis (pe_edited_at e))
  | _ => True
  end.

Definition shared_plans : Contract := MkContract (follows plans) (follows plans) _ _ (fun _ _ H => H).

Lemma sound_stable : stable shared_plans plans_sound.
Proof. intros recs recs' Hs Hf. exact (follows_sound recs recs' Hf Hs). Qed.

Lemma plan_update_follows recs x r s :
  pholds recs x -> decode_plan (canonical_record r) = Ok s -> plan_step (item x) (item s) ->
  revision_get (rec_revision r) = (revision_get (storage_revision x) + 1)%Z ->
  follows plans recs (<[(Plans, p_id (item x)) := canonical_record r]> recs).
Proof. intros Hx Hdec Hs Hrev. eapply update_key_step; eauto. apply decode_plan_faithful. Qed.

Lemma plan_create_follows recs r s :
  creates_plan r s -> recs !! (Plans, rec_id r) = None ->
  follows plans recs (<[(Plans, rec_id r) := canonical_record r]> recs).
Proof. intros (Hdec & Hid & Hinit) Hnone. eapply create_key_step; eauto. Qed.

Context (Hcodec : document_lawful Plan) (Hids : forall k, id_canonical (new_id k)).

Lemma plan_run_follows ops w recs :
  sees shared_plans w recs -> Forall plan_typed ops -> plans_sound recs ->
  exists recs', sees shared_plans (plan_run ops w) recs' /\ follows plans recs recs'.
Proof.
  intros Hw Ht Hs. apply (run_keeps shared_plans plan_typed plan_do plans_sound); try done; [exact sound_stable|].
  intros op w1 recs1 Hop Hw1 Hs1. pose proof sound_stable as Hst.
  destruct op; simpl in *; (eapply (spec_run shared_plans plans_sound); [|exact Hw1|exact Hs1]).
  - eapply spec_create_plan; eauto. exact plan_create_follows.
  - eapply spec_get_plan; eauto.
  - eapply (spec_edit_plan Hcodec shared_plans); eauto. exact plan_update_follows.
  - eapply spec_context; eauto.
Qed.

(** C31: whatever operations services over one repository run, with editors that
    write at the same time and lost acknowledgements: no plan disappears; each
    keeps its identity, goal and creation time; its history only grows, so every
    earlier revision stays as it was; and what is stored is always a valid plan
    whose revisions are numbered from one. *)
Theorem plans_append_only ops w recs :
  sees shared_plans w recs -> Forall plan_typed ops -> plans_sound recs ->
  exists recs', sees shared_plans (plan_run ops w) recs' /\ plans_sound recs'
    /\ forall x, pholds recs x -> exists y, pholds recs' y /\ extends (item x) (item y) /\ plan_valid (item y).
Proof.
  intros Hw Ht Hs. destruct (plan_run_follows ops w recs Hw Ht Hs) as (recs' & Hw' & Hf).
  pose proof (follows_sound _ _ Hf Hs) as Hs'. exists recs'. split; [done|]. split; [done|].
  intros x Hx. destruct (follows_steps plans _ _ _ _ Hf Hx) as (y & Hy & Hsteps).
  pose proof (plan_steps_extend _ _ Hsteps) as He. exists y.
  assert (pholds recs' y) as Hy' by (destruct He as (Hi & _); unfold holds; by rewrite Hi).
  split; [done|]. split; [done|]. by apply holds_lookup in Hy' as (r & _ & (_ & Hv & _)%decode_plan_spec).
Qed.

(** C16: an edit is never lost and never based on anything but what its caller
    saw: when [edit] succeeds, the stored plan was at the expected revision at the
    moment of the write, and became that plan with the edit as its next revision. *)
Theorem edit_extends_expected id expected e w recs p w' :
  sees shared_plans w recs -> plans_sound recs -> is_i64 (unix_millis (pe_edited_at e)) ->
  edit id expected e w = (Ok p, w') ->
  exists recs1 recs' x s next, follows plans recs recs1 /\ sees shared_plans w' recs'
    /\ replaces Plans decode_plan p_id plan_init plan_step recs1 recs' x s
    /\ p_id (item x) = id /\ p_current_revision (item x) = expected
    /\ revision_get next = (revision_get expected + 1)%Z
    /\ item s = p /\ p = edited_plan (item x) next e /\ plan_valid p.
Proof.
  intros Hw Hs Hnow Hr. set (P rs := plans_sound rs /\ follows plans recs rs).
  assert (stable shared_plans P) as Hst.
  { intros a b [Ha Hb] HT. split; [by eapply sound_stable|by etrans]. }
  destruct (spec_edit_plan Hcodec shared_plans (fun _ _ H => H) plan_update_follows P id expected e Hst (fun _ H => proj1 H)
    Hnow recs w (Ok p) w' (since_now shared_plans P w recs Hw (conj Hs (reflexivity recs))) Hr)
    as (recs' & Hw' & _ & recs1 & x & s & next & [_ Hf] & Hrep & Hid & Hc & [Hn _]%checked_next_Some & Hp & Hp' & Hv).
  by exists recs1, recs', x, s, next.
Qed.
End runs.
