(* ===== verification/PlanExample.v ===== *)
(** * A concrete plan

    Closed instances of the theorems about plans: a plan of three steps, the first
    of them done, that is edited once and not twice. *)

From Stdlib Require Import ZArith Lia String.
From stdpp Require Import base decidable countable relations gmap sorting option list.
From S2P Require Import Prelude RustStd AgentTypes Json StateStoreCore StateStore ItemStore Serial ServiceExample.
From S2P Require Import Planner PlanSteps PlanMachine PlanProperties.

(** ** Codec *)

#[export] Instance PlanState_eq_dec : EqDecision PlanState.
Proof. solve_decision. Defined.
#[export] Instance ResultCheckKind_eq_dec : EqDecision ResultCheckKind.
Proof. solve_decision. Defined.
#[export] Program Instance PlanState_enumerated : Enumerated PlanState := {|
  variants := [PlanDraft; PlanActive; PlanPaused; PlanCompleted; PlanCancelled] |}.
Next Obligation. intros []; repeat constructor. Qed.
#[export] Program Instance StepState_enumerated : Enumerated StepState := {|
  variants := [StepPending; StepInProgress; StepCompleted; StepBlocked; StepSkipped] |}.
Next Obligation. intros []; repeat constructor. Qed.
#[export] Program Instance ResultCheckKind_enumerated : Enumerated ResultCheckKind := {|
  variants := [CheckAssertion; CheckCommand; CheckArtifactExists; CheckUserApproval] |}.
Next Obligation. intros []; repeat constructor. Qed.

#[export] Instance Serial_assignee : Serial Assignee.
Proof.
  refine (Serial_via (fun x => match x with
    | AssigneeAgent => (0, []) | AssigneeUser => (1, []) | AssigneeChild id => (2, ser id) end%Z)
  (fun p => match p.1 with
    | 0 => Some AssigneeAgent | 1 => Some AssigneeUser | 2 => AssigneeChild <$> de_all p.2 | _ => None
    end%Z) _).
  intros []; cbn [fst snd]; rewrite ?de_all_ser; reflexivity.
Defined.
#[export] Program Instance Serial_check : Serial ResultCheck :=
  Serial_via (fun x => (check_kind x, check_description x, check_command x))
    (fun t => let '(a, b, c) := t in Some (MkResultCheck a b c)) _.
Next Obligation. by intros []. Qed.
#[export] Program Instance Serial_budget : Serial PlanBudget :=
  Serial_via (fun x => (token_limit x, elapsed_ms_limit x, cost_micros_limit x))
    (fun t => let '(a, b, c) := t in Some (MkPlanBudget a b c)) _.
Next Obligation. by intros []. Qed.
#[export] Program Instance Serial_step : Serial PlanStep :=
  Serial_via (fun x => (step_id x, step_milestone x, step_description x, step_dependencies x, step_assignee x,
                        step_checks x, step_budget x, step_state x, step_result x))
    (fun t => let '(a, b, c, d, e, f, g, h, i) := t in Some (MkPlanStep a b c d e f g h i)) _.
Next Obligation. by intros []. Qed.
#[export] Program Instance Serial_plan_revision : Serial PlanRevision :=
  Serial_via (fun x => (pr_revision x, pr_edited_at x, pr_edited_by x, pr_edit_reason x, pr_restated_outcome x,
                        pr_constraints x, pr_milestones x, pr_steps x, pr_budget x, pr_state x))
    (fun t => let '(a, b, c, d, e, f, g, h, i, j) := t in Some (MkPlanRevision a b c d e f g h i j)) _.
Next Obligation. by intros []. Qed.
#[export] Program Instance Serial_plan : Serial Plan :=
  Serial_via (fun x => (p_id x, p_goal_id x, p_created_at x, p_current_revision x, p_revisions x))
    (fun t => let '(a, b, c, d, e) := t in Some (MkPlan a b c d e)) _.
Next Obligation. by intros []. Qed.

#[export] Instance plan_document : Document Plan := serial_document (fun _ => true).

Lemma plan_document_lawful : document_lawful Plan.
Proof. apply serial_document_lawful. Qed.

(** ** A run *)

Definition no_budget : PlanBudget := MkPlanBudget None None None.
Definition sample_check : ResultCheck := MkResultCheck CheckAssertion (str "it holds") None.
Definition sample_step (n : Z) (deps : list Z) (state : StepState) : PlanStep :=
  MkPlanStep (named_id n) (str "milestone") (str "do it") (named_id <$> deps) AssigneeAgent [sample_check] no_budget
    state None.

Definition sample_steps : list PlanStep :=
  [sample_step 1 [] StepCompleted; sample_step 2 [1%Z] StepPending; sample_step 3 [1%Z; 2%Z] StepPending].

Definition sample_new : NewPlan :=
  MkNewPlan None (str "outcome") [] [str "milestone"] sample_steps no_budget PlanActive (moment 1) (str "agent").
Definition sample_edit : PlanEdit :=
  MkPlanEdit (str "outcome") [] [str "milestone"] sample_steps no_budget PlanPaused (moment 2) (str "user") (str "pause").

(** The first identifier that is drawn. *)
Definition sample_plan_id : EntityId := nth_id 0.
Definition sample_plan : Plan := first_plan sample_plan_id sample_new.
Definition sample_revision : PlanRevision :=
  MkPlanRevision (MkRevision 1) (moment 1) (str "agent") (str "initial plan") (str "outcome") [] [str "milestone"]
    sample_steps no_budget PlanActive.

Definition plan_ops : list plan_op :=
  [PCreate sample_new; PEdit sample_plan_id (MkRevision 1) sample_edit; PEdit sample_plan_id (MkRevision 1) sample_edit;
   PContext sample_plan_id].

Lemma plan_ops_typed : Forall plan_typed plan_ops.
Proof. repeat (apply Forall_cons; split; [try done; apply moment_i64; lia|]). apply Forall_nil; done. Qed.

Lemma empty_sound : plans_sound ∅.
Proof. intros id r Hr. by rewrite lookup_empty in Hr. Qed.

Definition revision_now (w : SampleWorld) : option Z :=
  match (get sample_plan_id w).1 with Ok p => Some (revision_get (p_current_revision p)) | Err _ => None end.

(** ** Instances *)

Lemma plan_makes_progress_witness :
  validate (E := unit) sample_plan = Ok tt
  /\ (step_id <$> pc_ready_steps (plan_context sample_plan sample_revision)) = [named_id 2]
  /\ exists t, t ∈ pc_ready_steps (plan_context sample_plan sample_revision)
    /\ rtc (steps_depend sample_steps) (named_id 3) (step_id t).
Proof.
  assert (validate (E := unit) sample_plan = Ok tt) as Hv by (vm_compute; reflexivity).
  split; [exact Hv|]. split; [vm_compute; reflexivity|].
  destruct (plan_makes_progress unit sample_plan sample_revision (sample_step 3 [1%Z; 2%Z] StepPending) Hv eq_refl)
    as (t & Ht & Hp & _).
  - intros t Ht. repeat (apply elem_of_cons in Ht as [->|Ht]); [right|left|left|]; try reflexivity.
    destruct (not_elem_of_nil _ Ht).
  - apply elem_of_cons. right. apply elem_of_cons. right. apply elem_of_cons. left. reflexivity.
  - reflexivity.
  - exists t. exact (conj Ht Hp).
Defined.

Lemma plans_append_only_witness :
  revision_now (plan_run nth_id plan_ops fresh_world) = Some 2%Z
  /\ exists recs', sees shared_plans (plan_run nth_id plan_ops fresh_world) recs' /\ plans_sound recs'.
Proof.
  split; [vm_compute; reflexivity|].
  destruct (plans_append_only nth_id plan_document_lawful nth_id_canonical plan_ops fresh_world ∅ (fresh_sees _)
    plan_ops_typed empty_sound) as (recs' & Hs & Hok & _).
  exists recs'. exact (conj Hs Hok).
Defined.

Abbreviation created := (plan_run nth_id [PCreate sample_new] fresh_world).
Abbreviation edited := (edit sample_plan_id (MkRevision 1) sample_edit created).

Lemma edit_extends_expected_witness :
  exists recs' s p, sees shared_plans edited.2 recs' /\ edited.1 = Ok p /\ item s = p /\ plan_valid p
    /\ holds Plans decode_plan p_id plan_init plan_step recs' s.
Proof.
  destruct (plan_run_follows nth_id plan_document_lawful nth_id_canonical [PCreate sample_new] fresh_world ∅ (fresh_sees _))
    as (recs & Hs & Hf); [apply Forall_singleton; apply moment_i64; lia|exact empty_sound|].
  destruct (ok_pair edited) as [p Hr]; [vm_compute; reflexivity|].
  destruct (edit_extends_expected plan_document_lawful sample_plan_id (MkRevision 1) sample_edit created recs p edited.2 Hs
    (follows_sound _ _ Hf empty_sound) ltac:(apply moment_i64; lia) Hr)
    as (recs1 & recs' & x & s & next & _ & Hs' & (_ & Hh & _) & _ & _ & _ & Hp & _ & Hv).
  exists recs', s, p. split; [exact Hs'|]. split; [rewrite Hr; reflexivity|]. split; [exact Hp|]. exact (conj Hv Hh).
Defined.
