(* ===== verification/Schedules.v ===== *)
(** * Schedules: the data and the calendar of [crates/scheduler/src/lib.rs]

    One-time, interval and calendar schedules, the five-field calendar
    expressions, and the arithmetic that finds the first, the next and the due
    occurrences of a schedule.  Time zones and the civil calendar are those of the
    [chrono] and [chrono_tz] packages: parameters. *)

From Stdlib Require Import ZArith Lia String.
From stdpp Require Import base decidable countable gmap sorting option list.
From S2P Require Import Prelude RustStd RustText AgentTypes ItemStore ActionStore.

(** ** Calendars *)

(** What the services use of [chrono] and [chrono_tz]: instants of the proleptic
    calendar, time zones by name, and the fields of an instant in a zone. *)
Class Chrono : Type := {
  DateTime : Type;
  Tz : Type;
  Tz_from_str : rstr -> option Tz;
  timestamp_millis_opt : Z -> option DateTime;
  with_timezone : Tz -> DateTime -> DateTime;
  dt_minute : DateTime -> Z;
  dt_hour : DateTime -> Z;
  dt_day : DateTime -> Z;
  dt_month : DateTime -> Z;
  dt_year : DateTime -> Z;
  num_days_from_sunday : DateTime -> Z
}.

(** ** Data *)

Inductive ScheduleSpec :=
| Once (at_ : UtcTimestamp)
| Interval (every_ms : Z) (anchor : UtcTimestamp)
| Calendar (expression time_zone : rstr).

Inductive MissedRunPolicy := Skip | RunOnce | ReplayBounded (max_runs : Z).

Inductive JobState := JobActive | JobPaused | JobCompleted | JobFailed | JobCancelled.

#[export] Instance ScheduleSpec_eq_dec : EqDecision ScheduleSpec.
Proof. solve_decision. Defined.
#[export] Instance MissedRunPolicy_eq_dec : EqDecision MissedRunPolicy.
Proof. solve_decision. Defined.
#[export] Instance JobState_eq_dec : EqDecision JobState.
Proof. solve_decision. Defined.

Record ScheduledJob := MkScheduledJob {
  job_version : SchemaVersion;
  job_id : JobId;
  job_profile_id : ProfileId;
  job_session_id : SessionId;
  job_schedule : ScheduleSpec;
  job_action : ActionPayload;
  job_limits : ActionLimits;
  job_reply_route : option ReplyRoute;
  job_missed_run : MissedRunPolicy;
  job_state : JobState;
  job_next_run : option UtcTimestamp;
  job_last_run : option UtcTimestamp;
  job_attempt_count : Z;
  job_failure_count : Z;
  job_safe_error : option rstr;
  job_created_at : UtcTimestamp;
  job_updated_at : UtcTimestamp
}.

Record NewScheduledJob := MkNewScheduledJob {
  new_job_profile_id : ProfileId;
  new_job_session_id : SessionId;
  new_job_schedule : ScheduleSpec;
  new_job_action : ActionPayload;
  new_job_limits : ActionLimits;
  new_job_reply_route : option ReplyRoute;
  new_job_missed_run : MissedRunPolicy
}.

Inductive JobAttemptState := Claimed | RetryScheduled | Enqueued | AttemptCompleted | AttemptFailed | AttemptCancelled.

#[export] Instance JobAttemptState_eq_dec : EqDecision JobAttemptState.
Proof. solve_decision. Defined.

Record JobAttempt := MkJobAttempt {
  at_version : SchemaVersion;
  at_job_id : JobId;
  at_attempt_id : EntityId;
  at_ordinal : Z;
  at_scheduled_for : UtcTimestamp;
  at_claimed_by : EntityId;
  at_claim_expires : UtcTimestamp;
  at_state : JobAttemptState;
  at_action_id : ActionId;
  at_retry_count : Z;
  at_retry_at : option UtcTimestamp;
  at_safe_error : option rstr;
  at_updated_at : UtcTimestamp
}.

Record ScheduleProjection := MkScheduleProjection {
  proj_job_id : JobId;
  proj_state : JobState;
  proj_schedule : ScheduleSpec;
  proj_next_run : option UtcTimestamp;
  proj_last_run : option UtcTimestamp;
  proj_attempts : Z;
  proj_failures : Z;
  proj_safe_error : option rstr
}.

Record JobUpdate := MkJobUpdate {
  upd_schedule : option ScheduleSpec;
  upd_action : option ActionPayload;
  upd_limits : option ActionLimits;
  upd_reply_route : option (option ReplyRoute);
  upd_missed_run : option MissedRunPolicy
}.

Record SchedulerConfig := MkSchedulerConfig {
  claim_ttl_ms : Z;
  retry_backoff_ms : Z;
  max_enqueue_retries : Z;
  max_claims_per_tick : Z;
  on_time_grace_ms : Z
}.

Definition default_scheduler_config : SchedulerConfig := MkSchedulerConfig 30000 5000 3 64 1000.

Inductive EnqueueStatus := EnqueueAccepted | EnqueueAlreadyPresent.

Inductive SchedulerError (E : Type) :=
| SeRepository (error : E)
| SeCorrupt (reason : ItemCorrupt)
| SeLockPoisoned
| SeInvalidSchedule (message : rstr)
| SeNotFound
| SeInvalidTransition
| SeTimeOverflow.
Global Arguments SeRepository {E}.
Global Arguments SeCorrupt {E}.
Global Arguments SeLockPoisoned {E}.
Global Arguments SeInvalidSchedule {E}.
Global Arguments SeNotFound {E}.
Global Arguments SeInvalidTransition {E}.
Global Arguments SeTimeOverflow {E}.

(** ** Calendar expressions *)

(** [','], ['/'], ['-'] and ['*']. *)
Abbreviation COMMA := 44%Z.
Abbreviation SLASH := 47%Z.
Abbreviation DASH := 45%Z.
Abbreviation ASTERISK := 42%Z.

Section schedules.
Context {E : Type}.
Abbreviation Error := (SchedulerError E).

Definition parse_cron_value (value : rstr) (minimum maximum : Z) : result Error Z :=
  value ← ok_or (u32_from_str value) (SeInvalidSchedule (str "invalid calendar value"));
  if ((minimum <=? value) && (value <=? maximum))%Z then Ok value
  else Err (SeInvalidSchedule (str "calendar value is outside its field range")).

Record CronField := MkCronField { cron_values : gset Z }.

(** [(start..=end).step_by(step)]. *)
Definition step_range (start finish step : Z) : list Z :=
  (fun k => start + step * k)%Z <$> seqZ 0 ((finish - start) / step + 1).

(** The base and the step of a part. *)
Definition cron_base_step (part : rstr) : rstr * Z :=
  match split_once SLASH part with
  | None => (part, 1)
  | Some (base, step) => (base, default 0 (u32_from_str step))
  end%Z.

(** The bounds of the base of a part. *)
Definition cron_bounds (base : rstr) (minimum maximum : Z) : result Error (Z * Z) :=
  if bool_decide (base = [ASTERISK]) then Ok (minimum, maximum)
  else
    match split_once DASH base with
    | Some (start, finish) =>
        start ← parse_cron_value start minimum maximum;
        finish ← parse_cron_value finish minimum maximum;
        Ok (start, finish)
    | None =>
        value ← parse_cron_value base minimum maximum;
        Ok (value, value)
    end.

(** One round of the loop over the parts of a field. *)
Definition cron_part (minimum maximum : Z) (sunday_alias : bool) (values : gset Z) (part : rstr)
  : result Error (gset Z) :=
  let '(base, step) := cron_base_step part in
  reject_if (step =? 0)%Z (SeInvalidSchedule (str "invalid calendar step")) ;;
  bounds ← cron_bounds base minimum maximum;
  let '(start, finish) := bounds in
  reject_if (finish <? start)%Z (SeInvalidSchedule (str "descending calendar range")) ;;
  Ok (foldl (fun values candidate =>
               {[if sunday_alias && (candidate =? 7)%Z then 0%Z else candidate]} ∪ values)
        values (step_range start finish step)).

Definition CronField_parse (value : rstr) (minimum maximum : Z) (sunday_alias : bool) : result Error CronField :=
  values ← try_fold (cron_part minimum maximum sunday_alias) ∅ (str_split COMMA value);
  if bool_decide (values = ∅) then Err (SeInvalidSchedule (str "empty calendar field"))
  else Ok (MkCronField values).

Definition cron_contains (field : CronField) (value : Z) : bool := bool_decide (value ∈ cron_values field).

Record CalendarExpression := MkCalendarExpression {
  cal_minute : CronField;
  cal_hour : CronField;
  cal_day : CronField;
  cal_month : CronField;
  cal_weekday : CronField
}.

Definition CalendarExpression_parse (expression : rstr) : result Error CalendarExpression :=
  match split_whitespace expression with
  | [minute; hour; day; month; weekday] =>
      minute ← CronField_parse minute 0 59 false;
      hour ← CronField_parse hour 0 23 false;
      day ← CronField_parse day 1 31 false;
      month ← CronField_parse month 1 12 false;
      weekday ← CronField_parse weekday 0 7 true;
      Ok (MkCalendarExpression minute hour day month weekday)
  | _ => Err (SeInvalidSchedule (str "calendar expression must have five fields"))
  end.

(** ** Occurrences *)

Context `{HC : Chrono}.

Definition calendar_matches (calendar : CalendarExpression) (date : DateTime) : bool :=
  cron_contains (cal_minute calendar) (dt_minute date)
  && cron_contains (cal_hour calendar) (dt_hour date)
  && cron_contains (cal_day calendar) (dt_day date)
  && cron_contains (cal_month calendar) (dt_month date)
  && cron_contains (cal_weekday calendar) (num_days_from_sunday date).

(** [60_i64 * 24 * 366 * 5]. *)
Definition max_minutes : nat := Z.to_nat 2635200.

(** The loop of [next_calendar] from [offset] on, for [n] rounds. *)
Fixpoint search_minutes (calendar : CalendarExpression) (zone : Tz) (first_minute offset : Z) (n : nat)
  : result Error UtcTimestamp :=
  match n with
  | O => Err (SeInvalidSchedule (str "calendar has no occurrence within five years"))
  | S n =>
      step ← ok_or (i64_checked_mul offset 60000) SeTimeOverflow;
      millis ← ok_or (i64_checked_add first_minute step) SeTimeOverflow;
      utc ← ok_or (timestamp_millis_opt millis) SeTimeOverflow;
      if calendar_matches calendar (with_timezone zone utc) then Ok (MkUtcTimestamp millis)
      else search_minutes calendar zone first_minute (offset + 1) n
  end.

Definition next_calendar (expression time_zone : rstr) (after : UtcTimestamp) : result Error UtcTimestamp :=
  calendar ← CalendarExpression_parse expression;
  zone ← ok_or (Tz_from_str time_zone) (SeInvalidSchedule (str "invalid IANA time zone"));
  first_minute ← ok_or (minute ← i64_checked_add (unix_millis after / 60000) 1; i64_checked_mul minute 60000)
                   SeTimeOverflow;
  search_minutes calendar zone first_minute 0 max_minutes.

(** [anchor + periods * every]. *)
Definition grid_point (anchor : UtcTimestamp) (periods every : Z) : result Error (option UtcTimestamp) :=
  distance ← ok_or (i64_checked_mul periods every) SeTimeOverflow;
  point ← ok_or (i64_checked_add (unix_millis anchor) distance) SeTimeOverflow;
  Ok (Some (MkUtcTimestamp point)).

Definition initial_run (schedule : ScheduleSpec) (now : UtcTimestamp) : result Error (option UtcTimestamp) :=
  match schedule with
  | Once at_ => Ok (Some at_)
  | Interval every_ms anchor =>
      if rleb now anchor then Ok (Some anchor)
      else
        elapsed ← ok_or (i64_checked_sub (unix_millis now) (unix_millis anchor)) SeTimeOverflow;
        every ← ok_or (i64_try_from every_ms) SeTimeOverflow;
        periods ← ok_or (value ← i64_checked_add elapsed (every - 1); i64_checked_div value every) SeTimeOverflow;
        grid_point anchor periods every
  | Calendar expression time_zone => Some <$> next_calendar expression time_zone now
  end.

Definition next_after (schedule : ScheduleSpec) (after : UtcTimestamp) : result Error (option UtcTimestamp) :=
  match schedule with
  | Once _ => Ok None
  | Interval every_ms anchor =>
      every ← ok_or (i64_try_from every_ms) SeTimeOverflow;
      elapsed ← ok_or (i64_checked_sub (unix_millis after) (unix_millis anchor)) SeTimeOverflow;
      periods ← (if (elapsed <? 0)%Z then Ok 0%Z
                 else ok_or (value ← i64_checked_div elapsed every; i64_checked_add value 1) SeTimeOverflow);
      grid_point anchor periods every
  | Calendar expression time_zone => Some <$> next_calendar expression time_zone after
  end.

(** The loop of [due_occurrences]: [room] more occurrences may be collected. *)
Fixpoint collect_due (schedule : ScheduleSpec) (now : UtcTimestamp) (candidate : option UtcTimestamp) (room : nat)
  : result Error (list UtcTimestamp) :=
  match room, candidate with
  | S room, Some value =>
      if rltb now value then Ok []
      else
        match room with
        | O => Ok [value]
        | S _ =>
            candidate ← next_after schedule value;
            rest ← collect_due schedule now candidate room;
            Ok (value :: rest)
        end
  | _, _ => Ok []
  end.

Definition max_occurrences : nat := Z.to_nat 65536.

Definition due_occurrences (schedule : ScheduleSpec) (first now : UtcTimestamp) : result Error (list UtcTimestamp) :=
  collect_due schedule now (Some first) max_occurrences.

Record DueDecision := MkDueDecision {
  due_run : list UtcTimestamp;
  due_next_run : option UtcTimestamp;
  due_last_run : option UtcTimestamp
}.

(** [xs.first().copied().into_iter().collect()] and the same of the last one. *)
Definition only (o : option UtcTimestamp) : list UtcTimestamp := match o with Some x => [x] | None => [] end.

Definition due_decision (job : ScheduledJob) (now : UtcTimestamp) (grace_ms : Z) : result Error DueDecision :=
  first ← ok_or (job_next_run job) SeInvalidTransition;
  occurrences ← due_occurrences (job_schedule job) first now;
  grace ← ok_or (i64_try_from grace_ms) SeTimeOverflow;
  let on_time := match i64_checked_sub (unix_millis now) (unix_millis first) with
                 | Some delay => (delay <=? grace)%Z
                 | None => false
                 end in
  let run := if on_time then only (head occurrences)
             else match job_missed_run job with
                  | Skip => []
                  | RunOnce => only (last occurrences)
                  | ReplayBounded max_runs => take (Z.to_nat max_runs) occurrences
                  end in
  next_run ← next_after (job_schedule job) now;
  Ok (MkDueDecision run next_run (last occurrences)).

(** ** Checks *)

Definition validate_schedule (schedule : ScheduleSpec) : result Error unit :=
  match schedule with
  | Once _ => Ok tt
  | Interval every_ms _ =>
      if (0 <? every_ms)%Z then Ok tt else Err (SeInvalidSchedule (str "interval must be non-zero"))
  | Calendar expression time_zone =>
      CalendarExpression_parse expression ;;
      match Tz_from_str time_zone with
      | Some _ => Ok tt
      | None => Err (SeInvalidSchedule (str "invalid IANA time zone"))
      end
  end.

Definition validate_job_action (action : ActionPayload) : result Error unit :=
  let valid := match action with
               | PayScheduled instruction | PaySystemMaintenance instruction => negb (str_blank instruction)
               | _ => true
               end in
  if valid : bool then Ok tt else Err (SeInvalidSchedule (str "scheduled action text must be non-empty")).

Definition add_millis (time : UtcTimestamp) (millis : Z) : result Error UtcTimestamp :=
  millis ← ok_or (i64_try_from millis) SeTimeOverflow;
  point ← ok_or (i64_checked_add (unix_millis time) millis) SeTimeOverflow;
  Ok (MkUtcTimestamp point).
End schedules.

Global Arguments max_minutes : simpl never.
Global Arguments max_occurrences : simpl never.

Definition attempt_terminal (state : JobAttemptState) : bool :=
  match state with AttemptCompleted | AttemptFailed | AttemptCancelled | Enqueued => true | _ => false end.
