(* ===== verification/CronSyntax.v ===== *)
(** * The syntax of calendar expressions and its meaning

    An abstract syntax of the five fields, the text it is written as, and the
    values it denotes; [CronField_parse] and [CalendarExpression_parse] of
    [Schedules] read every such text back as its meaning. *)

From Stdlib Require Import ZArith Lia String.
From stdpp Require Import base decidable countable gmap sorting option list.
From S2P Require Import Prelude RustStd RustText AgentTypes ItemStore ActionStore Schedules.

(** ** Syntax *)

Inductive cron_base := AnyValue | OneValue (v : Z) | ValueRange (lo hi : Z).

Record cron_item := MkCronItem { it_base : cron_base; it_step : option Z }.

(** The parts of a field, at least one. *)
Record cron_text := MkCronText { ct_first : cron_item; ct_rest : list cron_item }.

Definition ct_items (f : cron_text) : list cron_item := ct_first f :: ct_rest f.

Definition print_base (b : cron_base) : rstr :=
  match b with
  | AnyValue => [ASTERISK]
  | OneValue v => u32_to_string v
  | ValueRange lo hi => u32_to_string lo ++ DASH :: u32_to_string hi
  end.

Definition print_item (i : cron_item) : rstr :=
  match it_step i with
  | None => print_base (it_base i)
  | Some step => print_base (it_base i) ++ SLASH :: u32_to_string step
  end.

Definition print_field (f : cron_text) : rstr := str_join [COMMA] (print_item <$> ct_items f).

(** ** Meaning *)

Definition base_bounds (minimum maximum : Z) (b : cron_base) : Z * Z :=
  match b with
  | AnyValue => (minimum, maximum)
  | OneValue v => (v, v)
  | ValueRange lo hi => (lo, hi)
  end.

(** Every [step]-th value from the lower bound on. *)
Definition item_denotes (minimum maximum : Z) (i : cron_item) (v : Z) : Prop :=
  let bounds := base_bounds minimum maximum (it_base i) in
  (bounds.1 <= v <= bounds.2)%Z /\ (default 1 (it_step i) | v - bounds.1)%Z.

Definition field_denotes (minimum maximum : Z) (f : cron_text) (v : Z) : Prop :=
  exists i, i ∈ ct_items f /\ item_denotes minimum maximum i v.

(** In a field of weekdays the value 7 is another name of Sunday, 0. *)
Definition aliased (sunday_alias : bool) (v : Z) : Z := if sunday_alias && (v =? 7)%Z then 0%Z else v.

Definition wf_item (minimum maximum : Z) (i : cron_item) : Prop :=
  let bounds := base_bounds minimum maximum (it_base i) in
  (minimum <= bounds.1 <= bounds.2 /\ bounds.2 <= maximum)%Z
  /\ match it_step i with Some step => (1 <= step <= u32_max)%Z | None => True end.

Definition wf_field (minimum maximum : Z) (f : cron_text) : Prop := Forall (wf_item minimum maximum) (ct_items f).

(** ** Characters of the text *)

Lemma digits_without c n : (0 <= n)%Z -> ~ is_digit c -> c ∉ u32_to_string n.
Proof. intros Hn Hc Hin. pose proof (u32_digits n Hn) as Hd. rewrite list.Forall_forall in Hd. auto. Qed.

(** The characters of a printed part. *)
Definition part_char (c : Z) : Prop := is_digit c \/ c = ASTERISK \/ c = DASH \/ c = SLASH.

Lemma digits_part n : (0 <= n)%Z -> Forall part_char (u32_to_string n).
Proof. intros Hn. eapply Forall_impl; [by apply u32_digits|]. by left. Qed.

Section parts.
Context (minimum maximum : Z) (Hmin : (0 <= minimum)%Z) (Hmax : (maximum <= u32_max)%Z).

Lemma print_base_part b : wf_item minimum maximum (MkCronItem b None) -> Forall part_char (print_base b).
Proof.
  intros [Hb _]. destruct b as [|v|lo hi]; simpl in *.
  - constructor; [|done]. right. by left.
  - apply digits_part. lia.
  - apply Forall_app. split; [apply digits_part; lia|]. constructor; [right; right; by left|]. apply digits_part. lia.
Qed.

Lemma print_item_part i : wf_item minimum maximum i -> Forall part_char (print_item i).
Proof.
  destruct i as [b step]. unfold print_item. simpl. intros [Hb Hs]. simpl in *.
  assert (Forall part_char (print_base b)) as Hbase by by apply print_base_part. destruct step as [step|]; [|done].
  apply Forall_app. split; [done|]. constructor; [by right; right; right|]. apply digits_part. lia.
Qed.

Lemma print_base_without b : wf_item minimum maximum (MkCronItem b None) -> SLASH ∉ print_base b.
Proof.
  intros [Hb _].
  assert (forall n, (0 <= n)%Z -> SLASH ∉ u32_to_string n) as Hd.
  { intros n Hn. apply digits_without; [done|]. unfold is_digit. lia. }
  destruct b as [|v|lo hi]; simpl in *.
  - by rewrite list_elem_of_singleton.
  - apply Hd. lia.
  - rewrite not_elem_of_app, not_elem_of_cons. split_and!; [apply Hd; lia|done|apply Hd; lia].
Qed.

(** ** Reading *)

Context {E : Type}.

Lemma parse_cron_value_ok n : (minimum <= n <= maximum)%Z ->
  parse_cron_value (E := E) (u32_to_string n) minimum maximum = Ok n.
Proof.
  intros Hn. unfold parse_cron_value. rewrite u32_round_trip by (unfold is_u32; lia). simpl.
  destruct (Z.leb_spec minimum n), (Z.leb_spec n maximum); simpl; done || lia.
Qed.

Lemma print_base_step i : wf_item minimum maximum i ->
  cron_base_step (print_item i) = (print_base (it_base i), default 1%Z (it_step i)).
Proof.
  destruct i as [b step]. unfold print_item, cron_base_step. simpl. intros [Hb Hs]. simpl in *.
  assert (SLASH ∉ print_base b) as Hno by by apply print_base_without.
  destruct step as [step|]; simpl.
  - rewrite split_once_app by done. rewrite u32_round_trip by (unfold is_u32; lia). done.
  - by rewrite split_once_none.
Qed.

Lemma print_bounds b : wf_item minimum maximum (MkCronItem b None) ->
  cron_bounds (E := E) (print_base b) minimum maximum = Ok (base_bounds minimum maximum b).
Proof.
  intros [Hb _]. unfold cron_bounds.
  assert (forall n t, (0 <= n)%Z -> u32_to_string n ++ t <> [ASTERISK]) as Hstar.
  { intros n t Hn Heq. pose proof (u32_digits n Hn) as Hd. pose proof (u32_to_string_ne n).
    destruct (u32_to_string n) as [|c s]; [done|]. apply Forall_cons in Hd as [Hc _].
    simpl in Heq. injection Heq as -> _. unfold is_digit in Hc. lia. }
  destruct b as [|v|lo hi]; simpl in *.
  - done.
  - rewrite bool_decide_eq_false_2 by (rewrite <- (app_nil_r (u32_to_string v)); apply Hstar; lia).
    rewrite split_once_none by (apply digits_without; [lia|unfold is_digit; lia]).
    by rewrite parse_cron_value_ok by lia.
  - rewrite bool_decide_eq_false_2 by (apply Hstar; lia).
    rewrite split_once_app by (apply digits_without; [lia|unfold is_digit; lia]).
    rewrite !parse_cron_value_ok by lia. done.
Qed.

Lemma elem_of_step_range start finish step v : (start <= finish)%Z -> (0 < step)%Z ->
  v ∈ step_range start finish step <-> (start <= v <= finish)%Z /\ (step | v - start)%Z.
Proof.
  intros Hle Hstep. unfold step_range. rewrite list_elem_of_fmap. setoid_rewrite elem_of_seqZ. split.
  - intros (k & -> & Hk). split; [|exists k; lia]. split; [nia|].
    assert (k <= (finish - start) / step)%Z as Hk' by lia.
    pose proof (Z.mul_div_le (finish - start) step Hstep). nia.
  - intros [Hv [k Hk]]. exists k. split; [lia|]. split; [nia|].
    assert (k <= (finish - start) / step)%Z; [|lia]. apply Z.div_le_lower_bound; lia.
Qed.

Lemma elem_of_fold_insert (g : Z -> Z) (xs : list Z) (values : gset Z) v :
  v ∈ foldl (fun values x => {[g x]} ∪ values) values xs <-> v ∈ values \/ exists x, x ∈ xs /\ v = g x.
Proof.
  revert values. induction xs as [|x xs IH]; intros values; simpl.
  - split; [by left|]. intros [?|(x & Hx & _)]; [done|]. by apply elem_of_nil in Hx.
  - rewrite IH, elem_of_union, elem_of_singleton. setoid_rewrite elem_of_cons. naive_solver.
Qed.

(** A printed part adds exactly the values it denotes. *)
Lemma print_part sunday_alias values i : wf_item minimum maximum i ->
  exists values', cron_part (E := E) minimum maximum sunday_alias values (print_item i) = Ok values'
    /\ forall v, v ∈ values' <-> v ∈ values \/ exists u, item_denotes minimum maximum i u /\ v = aliased sunday_alias u.
Proof.
  intros Hwf. unfold cron_part. rewrite print_base_step by done. cbv beta iota.
  destruct Hwf as [Hlo Hs]. rewrite (print_bounds (it_base i)) by done. unfold item_denotes.
  destruct (base_bounds minimum maximum (it_base i)) as [lo hi]. cbn [fst snd] in *.
  assert (1 <= default 1 (it_step i))%Z as Hstep by (destruct (it_step i); simpl; lia).
  destruct (Z.eqb_spec (default 1%Z (it_step i)) 0); [lia|]. cbn [reject_if mbind result_bind].
  destruct (Z.ltb_spec hi lo); [lia|]. cbn [reject_if mbind result_bind].
  eexists. split; [reflexivity|]. intros v. rewrite (elem_of_fold_insert (aliased sunday_alias)).
  setoid_rewrite elem_of_step_range; [|lia..]. done.
Qed.

Lemma print_parts sunday_alias items values : Forall (wf_item minimum maximum) items ->
  exists values', try_fold (cron_part (E := E) minimum maximum sunday_alias) values (print_item <$> items) = Ok values'
    /\ forall v, v ∈ values' <-> v ∈ values
         \/ exists i u, i ∈ items /\ item_denotes minimum maximum i u /\ v = aliased sunday_alias u.
Proof.
  revert values. induction items as [|i items IH]; intros values Hwf.
  { exists values. split; [done|]. intros v. split; [by left|]. intros [?|(i & u & Hi & _)]; [done|].
    by apply elem_of_nil in Hi. }
  apply Forall_cons in Hwf as [Hi Hwf]. destruct (print_part sunday_alias values i Hi) as (values1 & Hp & H1).
  rewrite fmap_cons. cbn [try_fold]. rewrite Hp.
  destruct (IH values1 Hwf) as (values' & -> & H'). exists values'. split; [done|].
  intros v. rewrite H', H1. setoid_rewrite elem_of_cons. naive_solver.
Qed.

(** A printed field is read as the set of the values it denotes. *)
Lemma cron_round_trip sunday_alias f : wf_field minimum maximum f ->
  exists field, CronField_parse (E := E) (print_field f) minimum maximum sunday_alias = Ok field
    /\ forall v, cron_contains field v = true
         <-> exists u, field_denotes minimum maximum f u /\ v = aliased sunday_alias u.
Proof.
  intros Hwf. unfold CronField_parse, print_field.
  assert (Forall (fun p => COMMA ∉ p) (print_item <$> ct_items f)) as Hsep.
  { apply Forall_fmap. eapply Forall_impl; [exact Hwf|]. intros i Hi Hin. apply print_item_part in Hi.
    rewrite list.Forall_forall in Hi. apply Hi in Hin. unfold part_char, is_digit in Hin. lia. }
  rewrite str_split_join by done.
  destruct (print_parts sunday_alias (ct_items f) ∅ Hwf) as (values & -> & Hv). cbn [mbind result_bind].
  assert (values <> ∅) as Hne.
  { pose proof Hwf as Hall. unfold wf_field, ct_items in Hall. apply Forall_cons in Hall as [Hi _].
    intros ->. destruct Hi as [Hi _].
    apply (not_elem_of_empty (C := gset Z) (aliased sunday_alias (base_bounds minimum maximum (it_base (ct_first f))).1)), Hv.
    right. do 2 eexists. split; [by left|]. split; [|done]. split; [lia|]. exists 0%Z. lia. }
  rewrite bool_decide_eq_false_2 by done. eexists. split; [reflexivity|].
  intros v. unfold cron_contains, field_denotes. simpl. rewrite bool_decide_eq_true, Hv. set_solver.
Qed.

Lemma print_field_word f : wf_field minimum maximum f ->
  print_field f <> [] /\ Forall (fun c => char_is_whitespace c = false) (print_field f).
Proof.
  intros Hwf. assert (forall c, part_char c \/ c = COMMA -> char_is_whitespace c = false) as Hc.
  { intros c Hc. assert (42 <= c <= 57)%Z by (unfold part_char, is_digit in Hc; lia). clear Hc. unfold char_is_whitespace.
    destruct (Z.leb_spec c 13); [lia|]. destruct (Z.leb_spec 8192 c); [lia|].
    repeat match goal with |- context [(c =? ?n)%Z] => destruct (Z.eqb_spec c n); [lia|] end.
    by rewrite andb_false_r. }
  assert (forall i, wf_item minimum maximum i -> print_item i <> []) as Hne.
  { intros [b step] _. unfold print_item. simpl. destruct step as [step|]; [by destruct (print_base b)|].
    destruct b; simpl; [done|apply u32_to_string_ne|]. by destruct (u32_to_string lo). }
  unfold wf_field, print_field, ct_items in *. rewrite fmap_cons. revert Hwf.
  generalize (ct_first f) (ct_rest f). intros i items. revert i. induction items as [|j items IH]; intros i Hwf.
  - apply Forall_cons in Hwf as [Hi _]. split; [by apply Hne|]. eapply Forall_impl; [by apply print_item_part|]. auto.
  - apply Forall_cons in Hwf as [Hi Hwf]. destruct (IH j Hwf) as [_ Hrest].
    rewrite fmap_cons.
    change (str_join _ _) with (print_item i ++ COMMA :: str_join [COMMA] (print_item j :: (print_item <$> items))).
    split; [by destruct (print_item i)|]. apply Forall_app. split.
    + eapply Forall_impl; [by apply print_item_part|]. auto.
    + constructor; [by apply Hc; right|done].
Qed.
End parts.

(** ** Expressions *)

Record calendar_text := MkCalendarText {
  tx_minute : cron_text;
  tx_hour : cron_text;
  tx_day : cron_text;
  tx_month : cron_text;
  tx_weekday : cron_text
}.

Definition wf_calendar (c : calendar_text) : Prop :=
  wf_field 0 59 (tx_minute c) /\ wf_field 0 23 (tx_hour c) /\ wf_field 1 31 (tx_day c)
  /\ wf_field 1 12 (tx_month c) /\ wf_field 0 7 (tx_weekday c).

Definition print_calendar (c : calendar_text) : rstr :=
  str_join [32%Z] (print_field <$> [tx_minute c; tx_hour c; tx_day c; tx_month c; tx_weekday c]).

(** The dates an expression stands for: all five fields hold. *)
Definition calendar_denotes `{Chrono} (c : calendar_text) (date : DateTime) : Prop :=
  field_denotes 0 59 (tx_minute c) (dt_minute date) /\ field_denotes 0 23 (tx_hour c) (dt_hour date)
  /\ field_denotes 1 31 (tx_day c) (dt_day date) /\ field_denotes 1 12 (tx_month c) (dt_month date)
  /\ exists u, field_denotes 0 7 (tx_weekday c) u /\ num_days_from_sunday date = aliased true u.

Lemma plain_field {E} minimum maximum f : (0 <= minimum)%Z -> (maximum <= u32_max)%Z -> wf_field minimum maximum f ->
  exists field, CronField_parse (E := E) (print_field f) minimum maximum false = Ok field
    /\ forall v, cron_contains field v = true <-> field_denotes minimum maximum f v.
Proof.
  intros Hmin Hmax Hwf. destruct (cron_round_trip minimum maximum Hmin Hmax (E := E) false f Hwf) as (field & Hf & Hv).
  exists field. split; [done|]. intros v. rewrite Hv. unfold aliased. simpl. naive_solver.
Qed.

Lemma calendar_round_trip {E} `{Chrono} c : wf_calendar c ->
  exists calendar, CalendarExpression_parse (E := E) (print_calendar c) = Ok calendar
    /\ forall date, calendar_matches calendar date = true <-> calendar_denotes c date.
Proof.
  intros (H1 & H2 & H3 & H4 & H5). unfold CalendarExpression_parse, print_calendar.
  assert (59 <= u32_max /\ 23 <= u32_max /\ 31 <= u32_max /\ 12 <= u32_max /\ 7 <= u32_max)%Z as (U1 & U2 & U3 & U4 & U5)
    by (unfold u32_max; lia).
  rewrite split_whitespace_join.
  2: { repeat (apply Forall_cons; split; [eapply print_field_word; [|eassumption]; lia|]). done. }
  cbn [fmap list_fmap].
  destruct (plain_field (E := E) 0 59 _ ltac:(lia) U1 H1) as (f1 & -> & V1).
  destruct (plain_field (E := E) 0 23 _ ltac:(lia) U2 H2) as (f2 & -> & V2).
  destruct (plain_field (E := E) 1 31 _ ltac:(lia) U3 H3) as (f3 & -> & V3).
  destruct (plain_field (E := E) 1 12 _ ltac:(lia) U4 H4) as (f4 & -> & V4).
  destruct (cron_round_trip 0 7 ltac:(lia) U5 (E := E) true _ H5) as (f5 & -> & V5).
  eexists. split; [reflexivity|]. intros date. unfold calendar_matches, calendar_denotes. cbn [cal_minute cal_hour cal_day cal_month cal_weekday].
  rewrite !andb_true_iff, V1, V2, V3, V4, V5. tauto.
Qed.
