(* ===== verification/Occurrences.v ===== *)
(** * The occurrences of a schedule

    When a schedule is due, as a predicate on instants, and that the arithmetic of
    [Schedules] computes it: the next occurrence is the first one after a given
    instant, the due occurrences are all of those that lie behind, and what a tick
    decides to run is bounded by the policy of the job. *)

From Stdlib Require Import ZArith Lia String.
From stdpp Require Import base decidable countable gmap sorting option list.
From S2P Require Import Prelude RustStd RustText AgentTypes ItemStore ActionStore Schedules CronSyntax.

Section occurrences.
Context {E : Type} `{HC : Chrono}.
Implicit Types (schedule : ScheduleSpec) (t now after : UtcTimestamp).

(** The instant of a minute is one the calendar selects. *)
Definition selected (calendar : CalendarExpression) (zone : Tz) (millis : Z) : Prop :=
  exists utc, timestamp_millis_opt millis = Some utc /\ calendar_matches calendar (with_timezone zone utc) = true.

Definition occurs schedule t : Prop :=
  match schedule with
  | Once at_ => t = at_
  | Interval every anchor => exists k, (0 <= k)%Z /\ unix_millis t = (unix_millis anchor + k * every)%Z
  | Calendar expression time_zone => exists calendar zone,
      CalendarExpression_parse (E := E) expression = Ok calendar /\ Tz_from_str time_zone = Some zone
      /\ (unix_millis t mod 60000 = 0)%Z /\ selected calendar zone (unix_millis t)
  end.

(** [t] is the first occurrence after [after]. *)
Definition first_after schedule after t : Prop :=
  occurs schedule t /\ (unix_millis after < unix_millis t)%Z
  /\ forall t', occurs schedule t' -> (unix_millis after < unix_millis t')%Z -> (unix_millis t <= unix_millis t')%Z.

(** ** The search through the minutes *)

Lemma search_minutes_Ok calendar zone first offset n t :
  search_minutes (E := E) calendar zone first offset n = Ok t ->
  exists k, (offset <= k < offset + Z.of_nat n)%Z /\ unix_millis t = (first + k * 60000)%Z /\ is_i64 (unix_millis t)
    /\ selected calendar zone (unix_millis t)
    /\ forall j, (offset <= j < k)%Z -> ~ selected calendar zone (first + j * 60000).
Proof.
  revert offset. induction n as [|n IH]; intros offset Hs; cbn [search_minutes] in Hs; [done|].
  destruct (i64_checked_mul offset 60000) as [d|] eqn:Ed; [|done]. apply i64_checked_mul_Some in Ed as [-> _].
  cbn [ok_or mbind result_bind] in Hs. destruct (i64_checked_add first _) as [m|] eqn:Em; [|done].
  apply i64_checked_add_Some in Em as [-> Hr]. cbn [ok_or mbind result_bind] in Hs.
  destruct (timestamp_millis_opt _) as [utc|] eqn:Eu; [|done]. cbn [ok_or mbind result_bind] in Hs.
  destruct (calendar_matches _ _) eqn:Ematch.
  - injection Hs as <-. exists offset. simpl. split; [lia|]. split; [done|]. split; [done|]. split; [by exists utc|].
    intros j. lia.
  - destruct (IH _ Hs) as (k & Hk & Ht & Hi & Hsel & Hno). exists k. split; [lia|]. split; [done|]. split; [done|].
    split; [done|]. intros j Hj. destruct (decide (j = offset)) as [->|]; [|apply Hno; lia].
    intros (utc' & Hu & Hm). congruence.
Qed.

Lemma search_minutes_hit calendar zone first offset n k :
  (offset <= k < offset + Z.of_nat n)%Z -> selected calendar zone (first + k * 60000) ->
  (forall j, (offset <= j <= k)%Z -> is_i64 (j * 60000) /\ is_i64 (first + j * 60000)
     /\ is_Some (timestamp_millis_opt (first + j * 60000))) ->
  exists t, search_minutes (E := E) calendar zone first offset n = Ok t /\ (unix_millis t <= first + k * 60000)%Z.
Proof.
  revert offset. induction n as [|n IH]; intros offset Hk Hsel Hdef; [lia|]. cbn [search_minutes].
  destruct (Hdef offset) as (H1 & H2 & [utc Hu]); [lia|].
  rewrite i64_checked_mul_in by done. cbn [ok_or mbind result_bind].
  rewrite i64_checked_add_in by done. cbn [ok_or mbind result_bind].
  rewrite Hu. cbn [ok_or mbind result_bind]. destruct (calendar_matches _ _) eqn:Em.
  - eexists. split; [done|]. simpl. nia.
  - apply IH; [|done|intros j Hj; apply Hdef; lia]. destruct (decide (k = offset)) as [->|]; [|lia].
    destruct Hsel as (utc' & Hu' & Hm). congruence.
Qed.

Lemma minute_bounds z : (z / 60000 * 60000 <= z < (z / 60000 + 1) * 60000)%Z.
Proof. pose proof (Z.div_mod z 60000). pose proof (Z.mod_pos_bound z 60000). lia. Qed.

Lemma next_calendar_first expression time_zone after t :
  next_calendar (E := E) expression time_zone after = Ok t ->
  first_after (Calendar expression time_zone) after t /\ is_i64 (unix_millis t).
Proof.
  intros Hn. unfold next_calendar in Hn.
  destruct (CalendarExpression_parse expression) as [calendar|] eqn:Ec; [|done]. cbn [mbind result_bind] in Hn.
  destruct (Tz_from_str time_zone) as [zone|] eqn:Ez; [|done]. cbn [ok_or mbind result_bind] in Hn.
  destruct (i64_checked_add _ 1) as [minute|] eqn:Em; [|done]. apply i64_checked_add_Some in Em as [-> _].
  cbn [mbind option_bind] in Hn. destruct (i64_checked_mul _ 60000) as [first|] eqn:Ef; [|done].
  apply i64_checked_mul_Some in Ef as [-> _]. cbn [ok_or mbind result_bind] in Hn.
  destruct (search_minutes_Ok _ _ _ _ _ _ Hn) as (k & Hk & Ht & Hi & Hsel & Hno). split; [|done].
  pose proof (minute_bounds (unix_millis after)) as Hb. clear Hn. revert Ht Hno Hb.
  generalize (unix_millis after / 60000)%Z. intros m Ht Hno Hb. split; [|split].
  - exists calendar, zone. split; [done|]. split; [done|]. split; [|done].
    rewrite Ht, <- Z.mul_add_distr_r. apply Z.mod_mul. lia.
  - lia.
  - intros t' (calendar' & zone' & Hc & Hz & Hmod & Hsel') Hafter.
    rewrite Ec in Hc. rewrite Ez in Hz. injection Hc as <-. injection Hz as <-.
    destruct (decide (unix_millis t <= unix_millis t')%Z) as [|Hlt]; [done|]. exfalso.
    apply Z.mod_divide in Hmod as [q Hq]; [|lia].
    apply (Hno (q - (m + 1)))%Z; [lia|]. replace (_ + _)%Z with (unix_millis t') by lia. done.
Qed.

(** ** Intervals *)

Lemma grid_point_Ok anchor periods every o :
  grid_point (E := E) anchor periods every = Ok o ->
  o = Some (MkUtcTimestamp (unix_millis anchor + periods * every)) /\ is_i64 (unix_millis anchor + periods * every).
Proof.
  unfold grid_point. destruct (i64_checked_mul periods every) as [d|] eqn:Ed; [|done].
  apply i64_checked_mul_Some in Ed as [-> _]. cbn [ok_or mbind result_bind].
  destruct (i64_checked_add _ _) as [p|] eqn:Ep; [|done]. apply i64_checked_add_Some in Ep as [-> Hi].
  cbn [ok_or mbind result_bind]. by intros [= <-].
Qed.

Lemma grid_point_Err anchor periods every e :
  grid_point (E := E) anchor periods every = Err e ->
  e = SeTimeOverflow /\ (~ is_i64 (unix_millis anchor + periods * every) \/ ~ is_i64 (periods * every)).
Proof.
  unfold grid_point. destruct (i64_checked_mul periods every) as [d|] eqn:Ed; cbn [ok_or mbind result_bind].
  - apply i64_checked_mul_Some in Ed as [-> _]. destruct (i64_checked_add _ _) as [p|] eqn:Ep; [done|].
    intros [= <-]. split; [done|]. left. intros Hin.
    by rewrite i64_checked_add_in in Ep.
  - intros [= <-]. split; [done|]. right. intros Hin.
    by rewrite i64_checked_mul_in in Ed.
Qed.

Lemma interval_first every anchor after k t :
  (0 < every)%Z -> (0 <= k)%Z -> unix_millis t = (unix_millis anchor + k * every)%Z ->
  (unix_millis after < unix_millis t)%Z -> (k = 0 \/ unix_millis t - every <= unix_millis after)%Z ->
  first_after (Interval every anchor) after t.
Proof.
  intros He Hk Ht Hlt Hlast. split; [by exists k|]. split; [done|]. intros t' (k' & Hk' & Ht') Hlt'.
  destruct Hlast as [->|Hlast]; [nia|].
  assert (k <= k')%Z; [|nia]. destruct (decide (k <= k')%Z); [done|]. nia.
Qed.

(** The periods between the anchor and the next point of the grid. *)
Definition next_periods (every : Z) (anchor after : UtcTimestamp) : Z :=
  let elapsed := (unix_millis after - unix_millis anchor)%Z in
  if (elapsed <? 0)%Z then 0%Z else (elapsed / every + 1)%Z.

Lemma next_periods_first every anchor after : (0 < every)%Z ->
  first_after (Interval every anchor) after
    (MkUtcTimestamp (unix_millis anchor + next_periods every anchor after * every)).
Proof.
  intros He. unfold next_periods. destruct (Z.ltb_spec (unix_millis after - unix_millis anchor) 0).
  { apply (interval_first every anchor after 0); simpl; lia. }
  pose proof (Z.div_mod (unix_millis after - unix_millis anchor) every) as Hdm.
  pose proof (Z.mod_pos_bound (unix_millis after - unix_millis anchor) every) as Hmb.
  pose proof (Z.div_pos (unix_millis after - unix_millis anchor) every) as Hdp.
  revert Hdm Hmb Hdp. generalize ((unix_millis after - unix_millis anchor) / every)%Z. intros q Hdm Hmb Hdp.
  apply (interval_first every anchor after (q + 1)); simpl; nia.
Qed.

Lemma first_after_unique schedule after t t' : first_after schedule after t -> first_after schedule after t' -> t = t'.
Proof.
  intros (Ho & Hlt & Hmin) (Ho' & Hlt' & Hmin'). apply (inj unix_millis).
  specialize (Hmin t' Ho' Hlt'). specialize (Hmin' t Ho Hlt). lia.
Qed.

Lemma i64_try_from_Ok z w : ok_or (i64_try_from z) (@SeTimeOverflow E) = Ok w -> w = z /\ is_i64 z.
Proof. intros H%ok_or_Ok. by apply i64_try_from_Some. Qed.

Definition valid_schedule schedule : Prop := validate_schedule (E := E) schedule = Ok tt.

Lemma valid_interval every anchor : valid_schedule (Interval every anchor) -> (0 < every)%Z.
Proof. unfold valid_schedule. simpl. by destruct (Z.ltb_spec 0 every). Qed.

(** A one-time schedule has no occurrence after its instant. *)
Definition past_once schedule after : Prop :=
  match schedule with Once at_ => (unix_millis at_ <= unix_millis after)%Z | _ => True end.

Lemma next_after_Ok schedule after o :
  valid_schedule schedule -> past_once schedule after -> next_after (E := E) schedule after = Ok o ->
  match o with
  | Some t => first_after schedule after t /\ is_i64 (unix_millis t)
  | None => forall t, occurs schedule t -> (unix_millis t <= unix_millis after)%Z
  end.
Proof.
  intros Hv Hp Hn. destruct schedule as [at_|every anchor|expression time_zone]; cbn [next_after] in Hn.
  - res_inv. by intros t ->.
  - apply valid_interval in Hv.
    destruct (ok_or (i64_try_from every) SeTimeOverflow) as [e|] eqn:Ee; [|done].
    apply i64_try_from_Ok in Ee as [-> _]. cbn [mbind result_bind] in Hn.
    destruct (i64_checked_sub _ _) as [elapsed|] eqn:Es; [|done]. apply i64_checked_sub_Some in Es as [-> _].
    cbn [ok_or mbind result_bind] in Hn. pose proof (next_periods_first every anchor after Hv) as Hfirst.
    unfold next_periods in Hfirst. destruct (Z.ltb_spec (unix_millis after - unix_millis anchor) 0).
    + by apply grid_point_Ok in Hn as [-> Hi].
    + rewrite i64_checked_div_pos in Hn by lia. cbn [mbind option_bind] in Hn.
      destruct (i64_checked_add _ 1) as [k|] eqn:Ek; [|done]. apply i64_checked_add_Some in Ek as [-> _].
      by apply grid_point_Ok in Hn as [-> Hi].
  - destruct (next_calendar _ _ _) as [t|] eqn:En; [|done]. injection Hn as <-. by apply next_calendar_first.
Qed.

Lemma grid_ge every anchor t : (0 < every)%Z -> occurs (Interval every anchor) t -> (unix_millis anchor <= unix_millis t)%Z.
Proof. intros He (k & Hk & ->). pose proof (Z.mul_nonneg_nonneg k every). lia. Qed.

(** The first run of a new job: an occurrence that is not skipped over. *)
Lemma initial_run_Ok schedule now o :
  valid_schedule schedule -> initial_run (E := E) schedule now = Ok o ->
  exists t, o = Some t /\ occurs schedule t
    /\ match schedule with
       | Once _ => True
       | _ => (unix_millis now <= unix_millis t)%Z
              /\ forall t', occurs schedule t' -> (unix_millis now < unix_millis t')%Z -> (unix_millis t <= unix_millis t')%Z
       end.
Proof.
  intros Hv Hn. destruct schedule as [at_|every anchor|expression time_zone]; cbn [initial_run] in Hn.
  - injection Hn as <-. by exists at_.
  - apply valid_interval in Hv. unfold rleb in Hn. destruct (rcmp now anchor) eqn:Ec; change (rcmp now anchor) with
      (Z.compare (unix_millis now) (unix_millis anchor)) in Ec.
    1: apply Z.compare_eq in Ec.
    2: apply (proj1 (Z.compare_lt_iff _ _)) in Ec.
    1,2: injection Hn as <-; exists anchor; split; [done|]; split; [by exists 0%Z; split; [|lia]|].
    1,2: split; [lia|]; intros t' Ht' _; by eapply grid_ge.
    apply (proj1 (Z.compare_gt_iff _ _)) in Ec.
    destruct (i64_checked_sub _ _) as [elapsed|] eqn:Es; [|done]. apply i64_checked_sub_Some in Es as [-> _].
    cbn [ok_or mbind result_bind] in Hn.
    destruct (ok_or (i64_try_from every) SeTimeOverflow) as [e|] eqn:Ee; [|done].
    apply i64_try_from_Ok in Ee as [-> _]. cbn [mbind result_bind] in Hn.
    destruct (i64_checked_add _ _) as [v|] eqn:Ev; [|done]. apply i64_checked_add_Some in Ev as [-> _].
    cbn [mbind option_bind] in Hn. rewrite i64_checked_div_pos in Hn by lia. cbn [ok_or mbind result_bind] in Hn.
    apply grid_point_Ok in Hn as [-> _]. eexists. split; [done|].
    pose proof (Z.div_mod (unix_millis now - unix_millis anchor + (every - 1)) every) as Hdm.
    pose proof (Z.mod_pos_bound (unix_millis now - unix_millis anchor + (every - 1)) every) as Hmb.
    pose proof (Z.div_pos (unix_millis now - unix_millis anchor + (every - 1)) every) as Hdp.
    revert Hdm Hmb Hdp. generalize ((unix_millis now - unix_millis anchor + (every - 1)) / every)%Z.
    intros q Hdm Hmb Hdp. split; [exists q; split; [lia|done]|]. simpl. split; [nia|].
    intros t' (k & Hk & ->) Hlt. assert (q <= k)%Z; [|nia]. destruct (decide (q <= k)%Z); [done|]. nia.
  - destruct (next_calendar _ _ _) as [t|] eqn:En; [|done]. injection Hn as <-.
    destruct (next_calendar_first _ _ _ _ En) as [(Ho & Hlt & Hmin) _]. exists t. split; [done|]. split; [done|].
    split; [lia|done].
Qed.

(** ** Due occurrences *)

Lemma occurs_past schedule t now : occurs schedule t -> (unix_millis t <= unix_millis now)%Z -> past_once schedule now.
Proof. destruct schedule; simpl; [|done..]. by intros ->. Qed.

Lemma rltb_now now t : rltb now t = true <-> (unix_millis now < unix_millis t)%Z.
Proof. rewrite rltb_lt. change (rcmp now t) with (Z.compare (unix_millis now) (unix_millis t)). apply Z.compare_lt_iff. Qed.

(** The collected occurrences ascend, none of them lies ahead, and none that
    lies behind is missing unless the room was used up. *)
Lemma collect_due_exact schedule now v room xs :
  valid_schedule schedule -> occurs schedule v -> collect_due (E := E) schedule now (Some v) room = Ok xs ->
  StronglySorted (fun a b => unix_millis a < unix_millis b)%Z xs
  /\ (length xs <= room)%nat
  /\ Forall (fun t => occurs schedule t /\ (unix_millis v <= unix_millis t <= unix_millis now)%Z) xs
  /\ ((length xs < room)%nat ->
      forall t, occurs schedule t -> (unix_millis v <= unix_millis t <= unix_millis now)%Z -> t ∈ xs).
Proof.
  intros Hv. revert v xs. induction room as [|room IH]; intros v xs Ho Hc.
  { simpl in Hc. injection Hc as <-. split; [constructor|]. split; [done|]. split; [constructor|]. simpl. lia. }
  simpl in Hc. destruct (rltb now v) eqn:Elt.
  { injection Hc as <-. apply rltb_now in Elt. split; [constructor|]. split; [simpl; lia|]. split; [constructor|].
    intros _ t _ Ht. lia. }
  assert (unix_millis v <= unix_millis now)%Z as Hle.
  { destruct (decide (unix_millis now < unix_millis v)%Z) as [Hlt|]; [|lia]. apply rltb_now in Hlt. congruence. }
  assert (past_once schedule v) as Hp by (eapply occurs_past; [exact Ho|lia]).
  destruct room as [|room].
  { injection Hc as <-. split; [repeat constructor|]. split; [simpl; lia|].
    split; [constructor; [split; [done|lia]|constructor]|]. simpl. lia. }
  destruct (next_after schedule v) as [o|] eqn:En; [|done]. cbn [mbind result_bind] in Hc.
  destruct (collect_due schedule now o (S room)) as [rest|] eqn:Er; [|done]. injection Hc as <-.
  pose proof (next_after_Ok _ _ _ Hv Hp En) as Hnext. destruct o as [n|].
  - destruct Hnext as [(Hon & Hvn & Hmin) _]. destruct (IH n rest Hon Er) as (Hs & Hl & Hall & Hex).
    split; [|split; [simpl; lia|split]].
    + constructor; [done|]. eapply Forall_impl; [exact Hall|]. intros t [_ Ht]. simpl. lia.
    + constructor; [split; [done|lia]|]. eapply Forall_impl; [exact Hall|]. intros t [Ht1 Ht2]. split; [done|lia].
    + intros Hlen t Ht Hb. simpl in Hlen. destruct (decide (unix_millis v < unix_millis t)%Z) as [Hlt|].
      * right. apply Hex; [lia|done|]. specialize (Hmin t Ht Hlt). lia.
      * assert (t = v) as -> by (apply (inj unix_millis); lia). by left.
  - simpl in Er. injection Er as <-. split; [repeat constructor|]. split; [simpl; lia|].
    split; [constructor; [split; [done|lia]|constructor]|]. intros _ t Ht Hb. specialize (Hnext t Ht).
    assert (t = v) as -> by (apply (inj unix_millis); lia). by left.
Qed.
(** ** What a tick runs *)

Lemma max_occurrences_S : exists n, max_occurrences = S n.
Proof. exists (pred max_occurrences). unfold max_occurrences. rewrite Nat.succ_pred_pos; lia. Qed.

Lemma max_occurrences_SS : exists n, max_occurrences = S (S n).
Proof. exists (Z.to_nat 65534). unfold max_occurrences. rewrite <- !Z2Nat.inj_succ by lia. done. Qed.

Lemma due_occurrences_exact schedule first now xs :
  due_occurrences (E := E) schedule first now = Ok xs -> collect_due (E := E) schedule now (Some first) max_occurrences = Ok xs.
Proof. unfold due_occurrences. intros Hc. exact Hc. Qed.

Lemma due_occurrences_head schedule first now xs :
  due_occurrences (E := E) schedule first now = Ok xs -> (unix_millis first <= unix_millis now)%Z -> head xs = Some first.
Proof.
  unfold due_occurrences. destruct max_occurrences_S as [n ->]. intros Hc Hle. simpl in Hc.
  destruct (rltb now first) eqn:Elt; [apply rltb_now in Elt; lia|].
  destruct n as [|n]; [by injection Hc as <-|].
  destruct (next_after schedule first) as [o|]; [|done]. cbn [mbind result_bind] in Hc.
  destruct (collect_due _ _ _ _) as [rest|]; [|done]. by injection Hc as <-.
Qed.

Lemma sublist_sorted {A} (R : A -> A -> Prop) (xs ys : list A) :
  xs `sublist_of` ys -> StronglySorted R ys -> StronglySorted R xs.
Proof.
  induction 1 as [|x xs ys Hsub IH|x xs ys Hsub IH]; intros Hs; [done| |]; inversion Hs; subst; [|auto].
  constructor; [auto|]. apply list.Forall_forall. intros z Hz. eapply list.Forall_forall; [eassumption|].
  by eapply elem_of_sublist.
Qed.

Lemma only_sublist (o : option UtcTimestamp) xs : o = head xs \/ o = last xs -> only o `sublist_of` xs.
Proof.
  intros Ho. destruct o as [x|]; [|apply sublist_nil_l]. simpl. apply singleton_sublist_l.
  destruct Ho as [Ho|Ho]; symmetry in Ho; [by apply head_Some_elem_of|by apply last_Some_elem_of].
Qed.

(** Whether a run that is due at [first] is on time at [now]. *)
Definition on_time first now (grace : Z) : bool := (unix_millis now - unix_millis first <=? grace)%Z.

(** How many runs the policy of a late job allows. *)
Definition policy_runs (policy : MissedRunPolicy) : Z :=
  match policy with Skip => 0 | RunOnce => 1 | ReplayBounded max_runs => max_runs end.

Lemma due_decision_runs job now grace d first :
  job_next_run job = Some first -> (unix_millis first <= unix_millis now)%Z -> is_i64 (unix_millis now - unix_millis first) ->
  due_decision (E := E) job now grace = Ok d ->
  exists xs, due_occurrences (E := E) (job_schedule job) first now = Ok xs /\ due_last_run d = last xs
    /\ next_after (E := E) (job_schedule job) now = Ok (due_next_run d)
    /\ due_run d `sublist_of` xs
    /\ if on_time first now grace then due_run d = [first]
       else (Z.of_nat (length (due_run d)) <= Z.max 0 (policy_runs (job_missed_run job)))%Z
            /\ (job_missed_run job = RunOnce -> exists t, last xs = Some t /\ due_run d = [t]).
Proof.
  intros Hf Hle Hi Hd. unfold due_decision in Hd.
  apply bind_Ok in Hd as (first' & Hf' & Hd). rewrite Hf in Hf'. injection Hf' as <-.
  apply bind_Ok in Hd as (xs & Hxs & Hd). apply bind_Ok in Hd as (g & [-> _]%i64_try_from_Ok & Hd).
  rewrite i64_checked_sub_in in Hd by done.
  apply bind_Ok in Hd as (n & Hn & Hd). injection Hd as <-. cbn [due_run due_last_run due_next_run].
  exists xs. split; [done|]. split; [done|]. split; [done|]. fold (on_time first now grace).
  pose proof (due_occurrences_head _ _ _ _ Hxs Hle) as Hh. destruct (on_time first now grace).
  - rewrite Hh. split; [by apply only_sublist; left|done].
  - destruct (job_missed_run job) as [| |max_runs]; simpl.
    + split; [apply sublist_nil_l|]. split; done.
    + split; [by apply only_sublist; right|]. destruct (last xs) as [t|] eqn:El.
      { split; [done|]. by exists t. }
      apply last_None in El as ->. done.
    + split; [apply sublist_take|]. split; [|done]. rewrite length_take. lia.
Qed.
End occurrences.

(** ** Correctness *)

Section correctness.
Context {E : Type} `{HC : Chrono}.
Implicit Types (t after now : UtcTimestamp).

(** The start of a minute whose local date an expression stands for. *)
Definition denoted (c : calendar_text) (zone : Tz) t : Prop :=
  (unix_millis t mod 60000 = 0)%Z
  /\ exists utc, timestamp_millis_opt (unix_millis t) = Some utc /\ calendar_denotes c (with_timezone zone utc).

Lemma denoted_occurs c time_zone zone t :
  wf_calendar c -> Tz_from_str time_zone = Some zone ->
  denoted c zone t <-> occurs (E := E) (Calendar (print_calendar c) time_zone) t.
Proof.
  intros Hwf Hz. destruct (calendar_round_trip (E := E) c Hwf) as (calendar & Hp & Hm). split.
  - intros (Hmod & utc & Hu & Hd). exists calendar, zone. split; [done|]. split; [done|]. split; [done|].
    exists utc. split; [done|]. by apply Hm.
  - intros (calendar' & zone' & Hp' & Hz' & Hmod & utc & Hu & Hd). rewrite Hp in Hp'. rewrite Hz in Hz'.
    injection Hp' as <-. injection Hz' as <-. split; [done|]. exists utc. split; [done|]. by apply Hm.
Qed.

Lemma next_calendar_hit expression time_zone calendar zone after t :
  CalendarExpression_parse (E := E) expression = Ok calendar -> Tz_from_str time_zone = Some zone ->
  is_i64 (unix_millis after) -> is_i64 (unix_millis t) -> (unix_millis t mod 60000 = 0)%Z ->
  selected calendar zone (unix_millis t) -> (unix_millis after < unix_millis t <= unix_millis after + 2635200 * 60000)%Z ->
  (forall m, (unix_millis after < m <= unix_millis t)%Z -> is_Some (timestamp_millis_opt m)) ->
  exists t', next_calendar (E := E) expression time_zone after = Ok t' /\ (unix_millis t' <= unix_millis t)%Z.
Proof.
  intros Hc Hz Ha Ht Hmod Hsel Hb Hdef. unfold next_calendar. rewrite Hc, Hz. cbn [ok_or mbind result_bind].
  pose proof (minute_bounds (unix_millis after)) as Hm. revert Hm. generalize (unix_millis after / 60000)%Z. intros m Hm.
  apply Z.mod_divide in Hmod as [q Hq]; [|lia]. unfold is_i64, i64_min, i64_max in *.
  rewrite i64_checked_add_in by (unfold is_i64, i64_min, i64_max; lia).
  cbn [mbind option_bind].
  rewrite i64_checked_mul_in by (unfold is_i64, i64_min, i64_max; lia).
  cbn [ok_or mbind result_bind].
  destruct (search_minutes_hit (E := E) calendar zone ((m + 1) * 60000) 0 max_minutes (q - (m + 1))) as (t' & Ht' & Hle).
  - unfold max_minutes. rewrite Z2Nat.id; lia.
  - replace (_ + _)%Z with (unix_millis t) by lia. done.
  - intros j Hj. unfold is_i64, i64_min, i64_max. split; [lia|]. split; [lia|]. apply Hdef. lia.
  - exists t'. split; [done|]. lia.
Qed.

(** C17: a calendar expression means what its text says.  For every expression
    of the five-field syntax (lists, ranges, steps, 7 for Sunday), the run
    computed from its text is the first minute after the given instant whose
    local time the expression stands for, and there is such a result whenever
    one lies within the five years that are searched. *)
Theorem next_calendar_exact c time_zone zone after :
  wf_calendar c -> Tz_from_str time_zone = Some zone -> is_i64 (unix_millis after) ->
  (forall t, next_calendar (E := E) (print_calendar c) time_zone after = Ok t ->
     denoted c zone t /\ (unix_millis after < unix_millis t)%Z
     /\ forall t', denoted c zone t' -> (unix_millis after < unix_millis t')%Z -> (unix_millis t <= unix_millis t')%Z)
  /\ (forall t, denoted c zone t -> is_i64 (unix_millis t) ->
      (unix_millis after < unix_millis t <= unix_millis after + 2635200 * 60000)%Z ->
      (forall m, (unix_millis after < m <= unix_millis t)%Z -> is_Some (timestamp_millis_opt m)) ->
      exists t', next_calendar (E := E) (print_calendar c) time_zone after = Ok t').
Proof.
  intros Hwf Hz Ha. pose proof (fun t => denoted_occurs c time_zone zone t Hwf Hz) as Hden. split.
  - intros t [(Ho & Hlt & Hmin) _]%next_calendar_first. split; [by apply Hden|]. split; [done|].
    intros t' Hd. apply Hmin. by apply Hden.
  - intros t Hd Ht Hb Hdef. pose proof Hd as (calendar & zone' & Hp & Hz' & Hmod & Hsel)%Hden.
    destruct (next_calendar_hit _ _ calendar zone' after t Hp Hz' Ha Ht Hmod Hsel Hb Hdef) as (t' & Hn & _). by exists t'.
Qed.

Lemma interval_next_Err every anchor after e :
  (0 < every)%Z -> is_i64 every -> next_after (E := E) (Interval every anchor) after = Err e ->
  e = SeTimeOverflow
  /\ (~ is_i64 (unix_millis after - unix_millis anchor)
      \/ forall t, first_after (E := E) (Interval every anchor) after t ->
           ~ is_i64 (unix_millis t) \/ ~ is_i64 (unix_millis t - unix_millis anchor)).
Proof.
  intros He Hi En. cbn [next_after] in En. rewrite (proj2 (i64_try_from_Some every _)) in En by done.
  cbn [ok_or mbind result_bind] in En. destruct (i64_checked_sub _ _) as [elapsed|] eqn:Es; cbn [ok_or mbind result_bind] in En.
  2: { injection En as <-. split; [done|]. left. intros Hin.
       by rewrite i64_checked_sub_in in Es. }
  apply i64_checked_sub_Some in Es as [-> Hsub].
  pose proof (next_periods_first (E := E) every anchor after He) as Hfirst.
  assert (e = SeTimeOverflow /\ (~ is_i64 (unix_millis anchor + next_periods every anchor after * every)
    \/ ~ is_i64 (next_periods every anchor after * every))) as [-> Hno].
  { unfold next_periods in *. destruct (Z.ltb_spec (unix_millis after - unix_millis anchor) 0); [by apply grid_point_Err|].
    rewrite i64_checked_div_pos in En by lia. cbn [mbind option_bind] in En.
    destruct (i64_checked_add _ 1) as [k|] eqn:Ek; cbn [ok_or mbind result_bind] in En.
    { apply i64_checked_add_Some in Ek as [-> _]. by apply grid_point_Err. }
    injection En as <-. split; [done|]. right. intros Hin.
    assert (is_i64 ((unix_millis after - unix_millis anchor) / every + 1)) as Hk.
    { pose proof (Z.div_pos (unix_millis after - unix_millis anchor) every). unfold is_i64, i64_min in *. nia. }
    by rewrite i64_checked_add_in in Ek. }
  split; [done|]. right. intros t Ht. pose proof (first_after_unique _ _ _ _ Ht Hfirst) as ->. cbn [unix_millis].
  replace (unix_millis anchor + next_periods every anchor after * every - unix_millis anchor)%Z
    with (next_periods every anchor after * every)%Z by lia. done.
Qed.

(** An interval schedule never drifts and never skips.  The next run after
    any instant is the first point of the grid that starts at the anchor, and
    the computation fails only with the overflow error, when the distance to the
    anchor or that point does not fit in 64 bits. *)
Theorem interval_next_exact every anchor after :
  (0 < every)%Z -> is_i64 every -> is_i64 (unix_millis after) ->
  match next_after (E := E) (Interval every anchor) after with
  | Ok (Some t) => first_after (E := E) (Interval every anchor) after t /\ is_i64 (unix_millis t)
  | Ok None => False
  | Err e => e = SeTimeOverflow
      /\ (~ is_i64 (unix_millis after - unix_millis anchor)
          \/ forall t, first_after (E := E) (Interval every anchor) after t ->
               ~ is_i64 (unix_millis t) \/ ~ is_i64 (unix_millis t - unix_millis anchor))
  end.
Proof.
  intros He Hi Ha. assert (valid_schedule (E := E) (Interval every anchor)) as Hv.
  { unfold valid_schedule. simpl. by destruct (Z.ltb_spec 0 every); [|lia]. }
  pose proof (fun o => next_after_Ok (E := E) (Interval every anchor) after o Hv I) as Hok.
  destruct (next_after _ _) as [[t|]|e] eqn:En; [by apply (Hok (Some t))| |].
  - specialize (Hok None eq_refl). pose proof (next_periods_first (E := E) every anchor after He) as (Ho & Hlt & _).
    apply Hok in Ho. lia.
  - by apply interval_next_Err.
Qed.

(** C18: missed runs never storm and no run is lost or repeated.  When a job is
    due, what a tick runs are occurrences of its schedule that lie behind, in
    order and each once; on time it is the one that is due, and late it is at most
    what the policy of the job allows, the latest one for the run-once policy.
    The job goes on with the first occurrence that lies ahead, or ends when there
    is none. *)
Theorem missed_runs_bounded job now grace d first :
  valid_schedule (E := E) (job_schedule job) -> job_next_run job = Some first ->
  occurs (E := E) (job_schedule job) first -> (unix_millis first <= unix_millis now)%Z ->
  is_i64 (unix_millis now - unix_millis first) -> due_decision (E := E) job now grace = Ok d ->
  exists due,
    StronglySorted (fun a b => unix_millis a < unix_millis b)%Z due
    /\ ((length due < max_occurrences)%nat -> forall t, t ∈ due <->
          occurs (E := E) (job_schedule job) t /\ (unix_millis first <= unix_millis t <= unix_millis now)%Z)
    /\ due_run d `sublist_of` due
    /\ Forall (fun t => occurs (E := E) (job_schedule job) t /\ (unix_millis t <= unix_millis now)%Z) (due_run d)
    /\ (if on_time first now grace then due_run d = [first]
        else (Z.of_nat (length (due_run d)) <= Z.max 0 (policy_runs (job_missed_run job)))%Z
             /\ (job_missed_run job = RunOnce -> exists t, last due = Some t /\ due_run d = [t]))
    /\ match due_next_run d with
       | Some n => first_after (E := E) (job_schedule job) now n
       | None => forall t, occurs (E := E) (job_schedule job) t -> (unix_millis t <= unix_millis now)%Z
       end.
Proof.
  intros Hv Hn Ho Hle Hi Hd.
  destruct (due_decision_runs _ _ _ _ _ Hn Hle Hi Hd) as (due & Hdue & _ & Hnext & Hsub & Hrun).
  apply due_occurrences_exact in Hdue.
  destruct (collect_due_exact (job_schedule job) now first max_occurrences due Hv Ho Hdue) as (Hs & _ & Hall & Hex). rewrite list.Forall_forall in Hall.
  exists due. split; [done|]. split; [|split; [done|split; [|split; [done|]]]].
  - intros Hlen t. split; [apply Hall|]. intros [Ht Hb]. by apply Hex.
  - apply list.Forall_forall. intros t Ht. destruct (Hall t) as [? ?]; [by eapply elem_of_sublist|]. split; [done|lia].
  - pose proof (next_after_Ok _ _ _ Hv (occurs_past _ _ _ Ho Hle) Hnext) as Hok. by destruct (due_next_run d) as [n|]; [destruct Hok|].
Qed.
End correctness.
