(* ===== verification/Scheduler.v ===== *)
(** * The scheduler: the service of [crates/scheduler/src/lib.rs]

    Jobs and their attempts as durable records: a tick claims the due occurrences
    of every active job in one transaction, queues one action per attempt with a
    sink, retries what the sink refused and recovers the claims of a stopped
    process.  The sink of the daemon is the action inbox of [ActionStore]. *)

From Stdlib Require Import ZArith Lia String.
From stdpp Require Import base decidable countable relations gmap sorting option list.
From S2P Require Import Prelude RustStd AgentTypes Json StateStoreCore ItemStore ActionStore Schedules.

(** ** The sink *)

(** [ScheduledActionSink]. *)
Class ScheduledActionSink (S : Type) : Type := {
  enqueue : SessionAction -> UtcTimestamp -> stateT (World S) rstr EnqueueStatus
}.

Section inbox_sink.
Context {S : Type} `{HR : Repository S, HA : Document ActionRecord}.
Context (inbox : ActionInboxConfig) (error_to_string : ActionStoreError repo_error -> rstr).

Definition inbox_enqueue (action : SessionAction) (now : UtcTimestamp) : stateT (World S) rstr EnqueueStatus :=
  found ← map_err_m error_to_string (ActionStore.get (act_id action));
  match found with
  | Some _ => mret EnqueueAlreadyPresent
  | None =>
      fun w =>
        match submit inbox action now w with
        | (Ok _, w) => (Ok EnqueueAccepted, w)
        | (Err error, w) =>
            (found ← map_err_m error_to_string (ActionStore.get (act_id action));
             match found with
             | Some _ => mret EnqueueAlreadyPresent
             | None => throw (error_to_string error)
             end) w
        end
  end.

#[export] Instance scheduled_inbox_sink : ScheduledActionSink S := {| enqueue := inbox_enqueue |}.
End inbox_sink.

(** ** Changed fields *)

Definition scheduler_safe_error (error : rstr) : rstr := take 512 error.

Global Arguments scheduler_safe_error : simpl never.

Definition with_job_state (x : ScheduledJob) (state : JobState) (now : UtcTimestamp) : ScheduledJob :=
  MkScheduledJob (job_version x) (job_id x) (job_profile_id x) (job_session_id x) (job_schedule x) (job_action x)
    (job_limits x) (job_reply_route x) (job_missed_run x) state (job_next_run x) (job_last_run x)
    (job_attempt_count x) (job_failure_count x) (job_safe_error x) (job_created_at x) now.

Definition with_attempt_count (x : ScheduledJob) (count : Z) : ScheduledJob :=
  MkScheduledJob (job_version x) (job_id x) (job_profile_id x) (job_session_id x) (job_schedule x) (job_action x)
    (job_limits x) (job_reply_route x) (job_missed_run x) (job_state x) (job_next_run x) (job_last_run x)
    count (job_failure_count x) (job_safe_error x) (job_created_at x) (job_updated_at x).

(** The job after a claim: it goes on with the next run, or is completed. *)
Definition advanced (x : ScheduledJob) (decision : DueDecision) (now : UtcTimestamp) : ScheduledJob :=
  MkScheduledJob (job_version x) (job_id x) (job_profile_id x) (job_session_id x) (job_schedule x) (job_action x)
    (job_limits x) (job_reply_route x) (job_missed_run x)
    (match due_next_run decision with None => JobCompleted | Some _ => job_state x end)
    (due_next_run decision)
    (match due_last_run decision with Some t => Some t | None => job_last_run x end)
    (job_attempt_count x) (job_failure_count x) (job_safe_error x) (job_created_at x) now.

Definition with_failure (x : ScheduledJob) (error : option rstr) (now : UtcTimestamp) : ScheduledJob :=
  MkScheduledJob (job_version x) (job_id x) (job_profile_id x) (job_session_id x) (job_schedule x) (job_action x)
    (job_limits x) (job_reply_route x) (job_missed_run x) (job_state x) (job_next_run x) (job_last_run x)
    (job_attempt_count x) (u32_saturating_add (job_failure_count x) 1) error (job_created_at x) now.

Definition with_schedule (x : ScheduledJob) (schedule : ScheduleSpec) (next_run : option UtcTimestamp) : ScheduledJob :=
  MkScheduledJob (job_version x) (job_id x) (job_profile_id x) (job_session_id x) schedule (job_action x)
    (job_limits x) (job_reply_route x) (job_missed_run x) (job_state x) next_run (job_last_run x)
    (job_attempt_count x) (job_failure_count x) (job_safe_error x) (job_created_at x) (job_updated_at x).

(** The fields of an update other than the schedule, and the time of the update. *)
Definition with_update (x : ScheduledJob) (update : JobUpdate) (now : UtcTimestamp) : ScheduledJob :=
  MkScheduledJob (job_version x) (job_id x) (job_profile_id x) (job_session_id x) (job_schedule x)
    (default (job_action x) (upd_action update)) (default (job_limits x) (upd_limits update))
    (default (job_reply_route x) (upd_reply_route update)) (default (job_missed_run x) (upd_missed_run update))
    (job_state x) (job_next_run x) (job_last_run x)
    (job_attempt_count x) (job_failure_count x) (job_safe_error x) (job_created_at x) now.

Definition with_attempt_state (x : JobAttempt) (state : JobAttemptState) (retry_count : Z)
    (retry_at : option UtcTimestamp) (error : option rstr) (now : UtcTimestamp) : JobAttempt :=
  MkJobAttempt (at_version x) (at_job_id x) (at_attempt_id x) (at_ordinal x) (at_scheduled_for x) (at_claimed_by x)
    (at_claim_expires x) state (at_action_id x) retry_count retry_at error now.

Definition schedule_projection (x : ScheduledJob) : ScheduleProjection :=
  MkScheduleProjection (job_id x) (job_state x) (job_schedule x) (job_next_run x) (job_last_run x)
    (job_attempt_count x) (job_failure_count x) (job_safe_error x).

(** ** The service *)

Section service.
Context {S : Type} `{HR : Repository S, HJ : Document ScheduledJob, HT : Document JobAttempt}.
Context `{HK : ScheduledActionSink S, HC : Chrono}.
Context (new_id : nat -> EntityId) (config : SchedulerConfig).

Abbreviation Error := (SchedulerError repo_error).
Abbreviation scheduler_m := (stateT (World S) Error).
Abbreviation StoredJob := (Stored ScheduledJob).
Abbreviation StoredAttempt := (Stored JobAttempt).

Definition scheduler_new : result Error SchedulerConfig :=
  reject_if ((claim_ttl_ms config =? 0) || (retry_backoff_ms config =? 0) || (max_claims_per_tick config =? 0))%Z%bool
    (SeInvalidSchedule (str "scheduler bounds must be non-zero")) ;;
  Ok config.

Definition job_record (x : ScheduledJob) (revision : Revision) : result Error VersionedRecord :=
  payload ← map_err (fun e => SeCorrupt (CorruptDocument e)) (to_value x);
  Ok (MkVersionedRecord CURRENT_SCHEMA_VERSION (as_entity_id (job_id x)) revision (job_updated_at x) payload).

Definition attempt_record (x : JobAttempt) (revision : Revision) : result Error VersionedRecord :=
  payload ← map_err (fun e => SeCorrupt (CorruptDocument e)) (to_value x);
  Ok (MkVersionedRecord CURRENT_SCHEMA_VERSION (at_attempt_id x) revision (at_updated_at x) payload).

Definition decode_job (r : VersionedRecord) : result Error StoredJob :=
  x ← map_err (fun e => SeCorrupt (CorruptDocument e)) (from_value (rec_payload r));
  reject_if (negb (bool_decide (as_entity_id (job_id x) = rec_id r))
             || negb (sv_major (job_version x) =? sv_major CURRENT_SCHEMA_VERSION)%Z)%bool
    (SeCorrupt CorruptEnvelope) ;;
  Ok (MkStored x (rec_revision r)).

Definition decode_attempt (r : VersionedRecord) : result Error StoredAttempt :=
  x ← map_err (fun e => SeCorrupt (CorruptDocument e)) (from_value (rec_payload r));
  reject_if (negb (bool_decide (at_attempt_id x = rec_id r))
             || negb (sv_major (at_version x) =? sv_major CURRENT_SCHEMA_VERSION)%Z)%bool
    (SeCorrupt CorruptEnvelope) ;;
  Ok (MkStored x (rec_revision r)).

Definition scheduler_lock : scheduler_m unit := lock_serial ScheduledJobs SeLockPoisoned.

Definition next_revision (revision : Revision) : result Error Revision :=
  ok_or (checked_next revision) SeTimeOverflow.

Definition required_job (id : JobId) : scheduler_m StoredJob :=
  found ← load_item ScheduledJobs SeRepository decode_job (as_entity_id id);
  lift (ok_or found SeNotFound).

Definition required_attempt (id : EntityId) : scheduler_m StoredAttempt :=
  found ← load_item JobAttempts SeRepository decode_attempt id;
  lift (ok_or found SeNotFound).

Definition load_jobs : scheduler_m (list StoredJob) := load_items ScheduledJobs SeRepository decode_job.
Definition load_attempts : scheduler_m (list StoredAttempt) := load_items JobAttempts SeRepository decode_attempt.

Definition put_job (stored : StoredJob) : scheduler_m StoredJob :=
  revision ← lift (next_revision (storage_revision stored));
  r ← lift (job_record (item stored) revision);
  map_err_m SeRepository (call_put ScheduledJobs r (PreExact (storage_revision stored))) ;;
  mret (MkStored (item stored) revision).

Definition put_attempt (stored : StoredAttempt) : scheduler_m StoredAttempt :=
  revision ← lift (next_revision (storage_revision stored));
  r ← lift (attempt_record (item stored) revision);
  map_err_m SeRepository (call_put JobAttempts r (PreExact (storage_revision stored))) ;;
  mret (MkStored (item stored) revision).

Definition create_job (request : NewScheduledJob) (now : UtcTimestamp) : scheduler_m ScheduledJob :=
  lift (validate_schedule (new_job_schedule request)) ;;
  lift (validate_job_action (new_job_action request)) ;;
  next_run ← lift (initial_run (new_job_schedule request) now);
  id ← draw_id new_id;
  let x := MkScheduledJob CURRENT_SCHEMA_VERSION (MkTypedId id) (new_job_profile_id request)
             (new_job_session_id request) (new_job_schedule request) (new_job_action request)
             (new_job_limits request) (new_job_reply_route request) (new_job_missed_run request) JobActive next_run
             None 0 0 None now now in
  r ← lift (job_record x Revision_ZERO);
  map_err_m SeRepository (call_put ScheduledJobs r PreMissing) ;;
  mret x.

Definition scheduled_action (x : ScheduledJob) (attempt : JobAttempt) (now : UtcTimestamp) : SessionAction :=
  MkAction (at_action_id attempt) (job_session_id x) (FromSchedule (job_id x) (at_ordinal attempt)) Immediate
    PriorityScheduled now None None (job_limits x) (job_reply_route x) (job_action x).

(** The attempt after the sink answered. *)
Definition settled_attempt (x : JobAttempt) (status : result rstr EnqueueStatus) (now : UtcTimestamp)
  : result Error JobAttempt :=
  match status with
  | Ok (EnqueueAccepted | EnqueueAlreadyPresent) =>
      Ok (with_attempt_state x Enqueued (at_retry_count x) None None now)
  | Err error =>
      if (at_retry_count x <? max_enqueue_retries config)%Z
      then
        retry_at ← add_millis now (retry_backoff_ms config);
        Ok (with_attempt_state x RetryScheduled (u16_saturating_add (at_retry_count x) 1) (Some retry_at)
              (Some (scheduler_safe_error error)) now)
      else
        Ok (with_attempt_state x AttemptFailed (at_retry_count x) None (Some (scheduler_safe_error error)) now)
  end.

(** The sink is called, and the attempt is written with its answer. *)
Definition enqueue_for (job : ScheduledJob) (stored : StoredAttempt) (now : UtcTimestamp) : scheduler_m JobAttempt :=
  fun w =>
    let '(status, w) := enqueue (scheduled_action job (item stored) now) now w in
    (x ← lift (settled_attempt (item stored) status now);
     stored ← put_attempt (MkStored x (storage_revision stored));
     mret (item stored)) w.

Definition enqueue_attempt (stored : StoredAttempt) (now : UtcTimestamp) : scheduler_m JobAttempt :=
  job ← required_job (at_job_id (item stored));
  enqueue_for (item job) stored now.

(** An attempt whose claim ran out, or whose retry is due. *)
Definition attempt_due (now : UtcTimestamp) (x : JobAttempt) : bool :=
  bool_decide (at_state x = Claimed) && rleb (at_claim_expires x) now
  || bool_decide (at_state x = RetryScheduled)
     && match at_retry_at x with Some retry => rleb retry now | None => false end.

(** Whether the sessions a tick is restricted to include the one of a job. *)
Definition in_sessions (session_ids : option (gset SessionId)) (session : SessionId) : bool :=
  match session_ids with None => true | Some sessions => bool_decide (session ∈ sessions) end.

Definition retry_selected (now : UtcTimestamp) (session_ids : option (gset SessionId))
    (job_sessions : gmap JobId SessionId) (stored : StoredAttempt) : bool :=
  attempt_due now (item stored)
  && match session_ids with
     | None => true
     | Some sessions =>
         match job_sessions !! at_job_id (item stored) with
         | Some session => bool_decide (session ∈ sessions)
         | None => false
         end
     end.

Definition recovered_attempt (x : JobAttempt) (now : UtcTimestamp) : JobAttempt :=
  with_attempt_state x RetryScheduled (at_retry_count x) (Some now) (Some (str "expired scheduler claim recovered")) now.

Definition retry_one (now : UtcTimestamp) (stored : StoredAttempt) : scheduler_m JobAttempt :=
  stored ← (if bool_decide (at_state (item stored) = Claimed)
            then put_attempt (MkStored (recovered_attempt (item stored) now) (storage_revision stored))
            else mret stored);
  enqueue_attempt stored now.

Definition retry_due (now : UtcTimestamp) (session_ids : option (gset SessionId)) : scheduler_m (list JobAttempt) :=
  attempts ← load_attempts;
  job_sessions ← (match session_ids with
                  | Some _ =>
                      jobs ← load_jobs;
                      mret (foldl (fun (m : gmap JobId SessionId) stored =>
                              <[job_id (item stored) := job_session_id (item stored)]> m) ∅ jobs)
                  | None => mret ∅
                  end);
  map_m (retry_one now) (List.filter (retry_selected now session_ids job_sessions) attempts).

(** The loop of [claim_job] over the occurrences to run: the job with its
    attempts counted, and the attempts with the records to write. *)
Fixpoint claim_attempts (x : ScheduledJob) (run : list UtcTimestamp) (claimant : EntityId) (now : UtcTimestamp)
  : scheduler_m (ScheduledJob * list (JobAttempt * VersionedRecord)) :=
  match run with
  | [] => mret (x, [])
  | scheduled_for :: run =>
      count ← lift (ok_or (u32_checked_add (job_attempt_count x) 1) SeTimeOverflow);
      let x := with_attempt_count x count in
      attempt_id ← draw_id new_id;
      expires ← lift (add_millis now (claim_ttl_ms config));
      action_id ← draw_id new_id;
      let attempt := MkJobAttempt CURRENT_SCHEMA_VERSION (job_id x) attempt_id count scheduled_for claimant expires
                       Claimed (MkTypedId action_id) 0 None None now in
      r ← lift (attempt_record attempt Revision_ZERO);
      rest ← claim_attempts x run claimant now;
      mret (rest.1, (attempt, r) :: rest.2)
  end.

Definition claim_job (stored : StoredJob) (claimant : EntityId) (now : UtcTimestamp) : scheduler_m (list StoredAttempt) :=
  decision ← lift (due_decision (item stored) now (on_time_grace_ms config));
  claimed ← claim_attempts (item stored) (due_run decision) claimant now;
  let x := advanced claimed.1 decision now in
  revision ← lift (next_revision (storage_revision stored));
  r ← lift (job_record x revision);
  map_err_m SeRepository
    (call_transact (Put ScheduledJobs r (PreExact (storage_revision stored))
                    :: ((fun p => Put JobAttempts p.2 PreMissing) <$> claimed.2))) ;;
  mret ((fun p => MkStored p.1 Revision_ZERO) <$> claimed.2).

Definition job_due (now : UtcTimestamp) (session_ids : option (gset SessionId)) (stored : StoredJob) : bool :=
  bool_decide (job_state (item stored) = JobActive)
  && match job_next_run (item stored) with Some next => rleb next now | None => false end
  && in_sessions session_ids (job_session_id (item stored)).

(** The loop of [tick_filtered]: a claim that the repository refused is left for
    the next tick. *)
Fixpoint claim_all (claimant : EntityId) (now : UtcTimestamp) (jobs : list StoredJob) : scheduler_m (list JobAttempt) :=
  match jobs with
  | [] => mret []
  | stored :: jobs =>
      fun w =>
        match claim_job stored claimant now w with
        | (Ok attempts, w) =>
            (enqueued ← map_m (fun attempt => enqueue_attempt attempt now) attempts;
             rest ← claim_all claimant now jobs;
             mret (enqueued ++ rest)) w
        | (Err (SeRepository _), w) => claim_all claimant now jobs w
        | (Err error, w) => (Err error, w)
        end
  end.

Definition tick_filtered (claimant : EntityId) (now : UtcTimestamp) (session_ids : option (gset SessionId))
  : scheduler_m (list JobAttempt) :=
  scheduler_lock ;;
  processed ← retry_due now session_ids;
  jobs ← load_jobs;
  claimed ← claim_all claimant now
    (take (Z.to_nat (max_claims_per_tick config) - length processed) (List.filter (job_due now session_ids) jobs));
  mret (processed ++ claimed).

Definition tick (claimant : EntityId) (now : UtcTimestamp) : scheduler_m (list JobAttempt) :=
  tick_filtered claimant now None.

Definition tick_sessions (claimant : EntityId) (now : UtcTimestamp) (session_ids : gset SessionId)
  : scheduler_m (list JobAttempt) :=
  tick_filtered claimant now (Some session_ids).

Definition change_allowed (from next : JobState) : bool :=
  match from, next with JobActive, JobPaused | JobPaused, JobActive => true | _, _ => false end.

Definition change_state (id : JobId) (next : JobState) (now : UtcTimestamp) : scheduler_m ScheduledJob :=
  scheduler_lock ;;
  stored ← required_job id;
  lift (reject_if (negb (change_allowed (job_state (item stored)) next)) SeInvalidTransition) ;;
  stored ← put_job (MkStored (with_job_state (item stored) next now) (storage_revision stored));
  mret (item stored).

Definition pause (id : JobId) (now : UtcTimestamp) : scheduler_m ScheduledJob := change_state id JobPaused now.
Definition resume (id : JobId) (now : UtcTimestamp) : scheduler_m ScheduledJob := change_state id JobActive now.

(** The job with the changed configuration. *)
Definition updated_job (x : ScheduledJob) (update : JobUpdate) (now : UtcTimestamp) : result Error ScheduledJob :=
  reject_if (bool_decide (job_state x = JobCompleted \/ job_state x = JobCancelled)) SeInvalidTransition ;;
  x ← (match upd_schedule update with
       | Some schedule =>
           validate_schedule schedule ;;
           next_run ← initial_run schedule now;
           Ok (with_schedule x schedule next_run)
       | None => Ok x
       end);
  match upd_action update with Some action => validate_job_action action | None => Ok tt end ;;
  Ok (with_update x update now).

Definition update_job (id : JobId) (update : JobUpdate) (now : UtcTimestamp) : scheduler_m ScheduledJob :=
  scheduler_lock ;;
  stored ← required_job id;
  x ← lift (updated_job (item stored) update now);
  stored ← put_job (MkStored x (storage_revision stored));
  mret (item stored).

(** An attempt of the job that is not settled. *)
Definition unsettled_of (id : JobId) (stored : StoredAttempt) : bool :=
  bool_decide (at_job_id (item stored) = id) && negb (attempt_terminal (at_state (item stored))).

Definition cancelled_attempt (x : JobAttempt) (now : UtcTimestamp) : JobAttempt :=
  with_attempt_state x AttemptCancelled (at_retry_count x) (at_retry_at x) (at_safe_error x) now.

Definition cancel_mutation (now : UtcTimestamp) (stored : StoredAttempt) : result Error RecordMutation :=
  revision ← next_revision (storage_revision stored);
  r ← attempt_record (cancelled_attempt (item stored) now) revision;
  Ok (Put JobAttempts r (PreExact (storage_revision stored))).

Definition delete_job (id : JobId) (now : UtcTimestamp) : scheduler_m unit :=
  scheduler_lock ;;
  stored ← required_job id;
  attempts ← load_attempts;
  cancels ← lift (try_map (cancel_mutation now) (List.filter (unsettled_of id) attempts));
  map_err_m SeRepository
    (call_transact (Delete ScheduledJobs (as_entity_id id) (PreExact (storage_revision stored)) :: cancels)) ;;
  mret tt.

Definition finished_attempt (x : JobAttempt) (succeeded : bool) (error : option rstr) (now : UtcTimestamp) : JobAttempt :=
  with_attempt_state x (if succeeded then AttemptCompleted else AttemptFailed) (at_retry_count x) (at_retry_at x)
    error now.

Definition finish_attempt (id : EntityId) (succeeded : bool) (error : option rstr) (now : UtcTimestamp)
  : scheduler_m JobAttempt :=
  scheduler_lock ;;
  stored ← required_attempt id;
  lift (reject_if (negb (bool_decide (at_state (item stored) = Enqueued))) SeInvalidTransition) ;;
  let x := finished_attempt (item stored) succeeded error now in
  revision ← lift (next_revision (storage_revision stored));
  r ← lift (attempt_record x revision);
  failure ← (if succeeded then mret []
             else
               job ← required_job (at_job_id x);
               job_revision ← lift (next_revision (storage_revision job));
               q ← lift (job_record (with_failure (item job) error now) job_revision);
               mret [Put ScheduledJobs q (PreExact (storage_revision job))]);
  map_err_m SeRepository (call_transact (Put JobAttempts r (PreExact (storage_revision stored)) :: failure)) ;;
  mret x.

Definition projections : scheduler_m (list ScheduleProjection) :=
  jobs ← load_jobs;
  mret (sort_by (fun x y => rcmp (proj_job_id x) (proj_job_id y)) ((fun x => schedule_projection (item x)) <$> jobs)).

Definition projections_for_session (session : SessionId) : scheduler_m (list ScheduleProjection) :=
  jobs ← load_jobs;
  mret (sort_by (fun x y => rcmp (proj_job_id x) (proj_job_id y))
          ((fun x => schedule_projection (item x))
             <$> List.filter (fun x => bool_decide (job_session_id (item x) = session)) jobs)).

Definition job_session (id : JobId) : scheduler_m SessionId :=
  stored ← required_job id;
  mret (job_session_id (item stored)).
End service.
