(* ===== verification/SchedulerMachine.v ===== *)
(** * The life of a scheduled job and of its attempts

    What may happen to one job record and to one attempt record, as step
    relations, and what several schedulers and inboxes may do to the repository
    together: the contract that every write of [Scheduler] keeps to, the
    transactions over several records included. *)

From Stdlib Require Import ZArith Lia String.
From stdpp Require Import base decidable countable relations gmap sorting option list.
From S2P Require Import Prelude RustStd AgentTypes Json StateStoreCore ItemStore.
From S2P Require Import ActionStore ActionMachine ActionProperties Schedules Occurrences Scheduler.

Definition job_key (x : ScheduledJob) : EntityId := as_entity_id (job_id x).

(** An attempt that is neither handed over nor given up. *)
Definition live (x : JobAttempt) : Prop := attempt_terminal (at_state x) = false.

Section steps.
Context {S : Type} `{HR : Repository S, HC : Chrono} (config : SchedulerConfig).

(** ** Jobs *)

Inductive job_step : ScheduledJob -> ScheduledJob -> Prop :=
| job_change x next now :
    change_allowed (job_state x) next = true -> job_step x (with_job_state x next now)
| job_reconfigure x update now y :
    updated_job x update now = Ok y -> job_step x y
| job_claim x first now d count :
    job_state x = JobActive -> job_next_run x = Some first -> (unix_millis first <= unix_millis now)%Z ->
    due_decision (E := repo_error) x now (on_time_grace_ms config) = Ok d ->
    count = (job_attempt_count x + Z.of_nat (length (due_run d)))%Z ->
    job_step x (advanced (with_attempt_count x count) d now)
| job_fail x error now : job_step x (with_failure x error now).

(** A job that may still run has a next run, which is an occurrence of its
    schedule; a completed one has none. *)
Definition job_ok (x : ScheduledJob) : Prop :=
  valid_schedule (E := repo_error) (job_schedule x)
  /\ match job_state x with
     | JobActive | JobPaused => exists t, job_next_run x = Some t /\ occurs (E := repo_error) (job_schedule x) t
     | JobCompleted => job_next_run x = None
     | JobFailed | JobCancelled => False
     end.

Definition job_init (x : ScheduledJob) : Prop :=
  job_ok x /\ job_state x = JobActive /\ job_attempt_count x = 0%Z /\ job_version x = CURRENT_SCHEMA_VERSION.

(** What identifies a job. *)
Definition job_identity (x : ScheduledJob) :=
  (job_version x, job_id x, job_profile_id x, job_session_id x, job_created_at x).

Lemma updated_job_Ok x update now y :
  updated_job x update now = Ok y ->
  job_state x <> JobCompleted /\ job_state x <> JobCancelled
  /\ job_identity y = job_identity x /\ job_state y = job_state x /\ job_attempt_count y = job_attempt_count x
  /\ job_updated_at y = now
  /\ match upd_schedule update with
     | Some schedule => validate_schedule (E := repo_error) schedule = Ok tt /\ job_schedule y = schedule
                        /\ initial_run (E := repo_error) schedule now = Ok (job_next_run y)
     | None => job_schedule y = job_schedule x /\ job_next_run y = job_next_run x
     end.
Proof.
  unfold updated_job. intros [Hs Hu]%reject_if_bind. apply bool_decide_eq_false in Hs.
  apply bind_Ok in Hu as (x1 & Hx1 & Hu). apply bind_Ok in Hu as ([] & _ & Hu). injection Hu as <-.
  assert (job_state x <> JobCompleted /\ job_state x <> JobCancelled) as [H1 H2] by tauto. split; [done|]. split; [done|].
  destruct (upd_schedule update) as [schedule|].
  - apply bind_Ok in Hx1 as ([] & Hv & Hx1). apply bind_Ok in Hx1 as (next & Hn & Hx1). by injection Hx1 as <-.
  - by injection Hx1 as <-.
Qed.

Lemma job_step_identity x y : job_step x y -> job_identity y = job_identity x.
Proof. destruct 1 as [| x u n y (_ & _ & ? & _)%updated_job_Ok| |]; done. Qed.

Lemma job_step_key x y : job_step x y -> job_key y = job_key x.
Proof. intros Hs%job_step_identity. unfold job_key. unfold job_identity in Hs. by injection Hs as _ -> _ _ _. Qed.

Lemma due_decision_next x now grace d :
  due_decision (E := repo_error) x now grace = Ok d -> next_after (E := repo_error) (job_schedule x) now = Ok (due_next_run d).
Proof.
  unfold due_decision. intros Hd. apply bind_Ok in Hd as (first & _ & Hd). apply bind_Ok in Hd as (xs & _ & Hd).
  apply bind_Ok in Hd as (g & _ & Hd). apply bind_Ok in Hd as (n & Hn & Hd). by injection Hd as <-.
Qed.

Lemma job_step_ok x y : job_ok x -> job_step x y -> job_ok y.
Proof.
  intros [Hv Hs] Hstep. destruct Hstep as [x next now Ha|x u now y Hu|x first now d count Hst Hn Hle Hd ->|x e now].
  - split; [done|]. simpl. by destruct (job_state x), next.
  - apply updated_job_Ok in Hu as (Hc & Hx & _ & Hsy & _ & _ & Hsched). unfold job_ok. rewrite Hsy.
    destruct (upd_schedule u) as [schedule|].
    + destruct Hsched as (Hvs & -> & Hi). split; [done|]. destruct (initial_run_Ok _ _ _ Hvs Hi) as (t & Ht & Ho & _).
      destruct (job_state x); try done; by exists t.
    + destruct Hsched as [-> ->]. done.
  - rewrite Hst in Hs. destruct Hs as (t & Ht & Ho). rewrite Hn in Ht. injection Ht as <-.
    split; [done|]. apply due_decision_next in Hd. simpl. rewrite Hst.
    pose proof (next_after_Ok _ _ _ Hv (occurs_past _ _ _ Ho Hle) Hd) as Hok.
    destruct (due_next_run d) as [n|]; [|done]. exists n. split; [done|]. apply Hok.
  - done.
Qed.

(** ** Attempts *)

Inductive attempt_step : JobAttempt -> JobAttempt -> Prop :=
| attempt_recover x now : at_state x = Claimed -> attempt_step x (recovered_attempt x now)
| attempt_settle x status now y : live x -> settled_attempt config x status now = Ok y -> attempt_step x y
| attempt_cancel x now : live x -> attempt_step x (cancelled_attempt x now)
| attempt_finish x succeeded error now :
    at_state x = Enqueued -> attempt_step x (finished_attempt x succeeded error now).

Definition attempt_init (x : JobAttempt) : Prop :=
  at_state x = Claimed /\ at_retry_count x = 0%Z /\ at_retry_at x = None /\ at_version x = CURRENT_SCHEMA_VERSION.

(** The retries are bounded, and a scheduled retry says when it is due. *)
Definition attempt_ok (x : JobAttempt) : Prop :=
  (0 <= at_retry_count x <= max_enqueue_retries config)%Z
  /\ (at_state x = RetryScheduled -> is_Some (at_retry_at x)).

(** What an attempt is about. *)
Definition attempt_content (x : JobAttempt) :=
  (at_version x, at_job_id x, at_attempt_id x, at_ordinal x, at_scheduled_for x, at_claimed_by x, at_claim_expires x,
   at_action_id x).

Lemma settled_attempt_Ok x status now y :
  settled_attempt config x status now = Ok y ->
  exists state count retry_at error, y = with_attempt_state x state count retry_at error now
    /\ match status with
       | Ok _ => state = Enqueued /\ count = at_retry_count x /\ retry_at = None
       | Err _ =>
           state = RetryScheduled /\ (at_retry_count x < max_enqueue_retries config)%Z
             /\ count = u16_saturating_add (at_retry_count x) 1
             /\ (exists t, retry_at = Some t /\ add_millis (E := repo_error) now (retry_backoff_ms config) = Ok t)
           \/ state = AttemptFailed /\ (max_enqueue_retries config <= at_retry_count x)%Z
              /\ count = at_retry_count x /\ retry_at = None
       end.
Proof.
  unfold settled_attempt. destruct status as [status|e].
  - intros Hs. exists Enqueued, (at_retry_count x), None, None. by destruct status; injection Hs as <-.
  - destruct (Z.ltb_spec (at_retry_count x) (max_enqueue_retries config)) as [Hlt|Hle].
    + intros Hs. apply bind_Ok in Hs as (t & Ht & Hs). injection Hs as <-. do 4 eexists. split; [done|]. left.
      split_and!; [done|done|done|]. by exists t.
    + intros [= <-]. do 4 eexists. split; [done|]. right. done.
Qed.

Lemma attempt_step_content x y : attempt_step x y -> attempt_content y = attempt_content x.
Proof. destruct 1 as [|x st n y _ (? & ? & ? & ? & -> & _)%settled_attempt_Ok| |]; done. Qed.

Lemma attempt_steps_content x y : rtc attempt_step x y -> attempt_content y = attempt_content x.
Proof. induction 1 as [|x y z Hs _ ->]; [done|]. by apply attempt_step_content. Qed.

Lemma attempt_step_live x y : attempt_step x y -> live y -> live x.
Proof.
  unfold live. destruct 1 as [x n Hc|x st n y Hl _|x n Hl|x s e n Hq]; try done.
  - by rewrite Hc.
  - simpl. by destruct s.
Qed.

Lemma attempt_step_ok x y : attempt_ok x -> attempt_step x y -> attempt_ok y.
Proof.
  intros [Hr Ht] Hs. destruct Hs as [x n Hc|x st n y Hl Hy|x n Hl|x s e n Hq]; unfold attempt_ok; simpl.
  - split; [done|]. by eexists.
  - apply settled_attempt_Ok in Hy as (state & count & retry & err & -> & Hst). simpl. destruct st as [st|e].
    + destruct Hst as (-> & -> & ->). done.
    + destruct Hst as [(-> & Hlt & -> & (t & -> & _))|(-> & _ & -> & ->)]; [|done].
      split; [unfold u16_saturating_add, u16_max; lia|]. by eexists.
  - done.
  - split; [done|]. by destruct s.
Qed.

(** The attempts that no step leads out of. *)
Definition attempt_final (s : JobAttemptState) : bool :=
  match s with AttemptCompleted | AttemptFailed | AttemptCancelled => true | _ => false end.

Lemma attempt_final_stuck x y : attempt_final (at_state x) = true -> ~ attempt_step x y.
Proof.
  intros Hf Hs. destruct Hs as [x n Hc|x st n y Hl _|x n Hl|x s e n Hq].
  - by rewrite Hc in Hf.
  - unfold live in Hl. by destruct (at_state x).
  - unfold live in Hl. by destruct (at_state x).
  - by rewrite Hq in Hf.
Qed.
End steps.

(** ** The contract *)

Section contract.
Context {S : Type} `{HU : Ulid, HR : Repository S, HL : !RepositoryLaws S}.
Context `{HA : Document ActionRecord, HJ : Document ScheduledJob, HT : Document JobAttempt, HC : Chrono}.
Context (config : SchedulerConfig).

Abbreviation jholds := (holds ScheduledJobs decode_job job_key job_init (job_step config)).
Abbreviation tholds := (holds JobAttempts decode_attempt at_attempt_id attempt_init (attempt_step config)).
Abbreviation jlists := (lists_items ScheduledJobs decode_job job_key job_init (job_step config)).
Abbreviation tlists := (lists_items JobAttempts decode_attempt at_attempt_id attempt_init (attempt_step config)).

Definition jobs : Machine ScheduledJob := item_machine ScheduledJobs decode_job job_init (job_step config).
Definition attempts : Machine JobAttempt := item_machine JobAttempts decode_attempt attempt_init (attempt_step config).

Lemma decode_job_Ok r x :
  decode_job r = Ok x <->
  from_value (rec_payload r) = Ok (item x) /\ job_key (item x) = rec_id r
  /\ sv_major (job_version (item x)) = sv_major CURRENT_SCHEMA_VERSION /\ storage_revision x = rec_revision r.
Proof.
  unfold decode_job, job_key. destruct (from_value _) as [y|]; cbn [mbind result_bind map_err]; [|naive_solver].
  split.
  - intros Hd. res_inv. bool_inv. bool_inv. done.
  - intros ([= ->] & Hi & Hv & Hs). rewrite Hv, bool_decide_eq_true_2 by done. simpl. destruct x. simpl in *. by subst.
Qed.

Lemma decode_attempt_Ok r x :
  decode_attempt r = Ok x <->
  from_value (rec_payload r) = Ok (item x) /\ at_attempt_id (item x) = rec_id r
  /\ sv_major (at_version (item x)) = sv_major CURRENT_SCHEMA_VERSION /\ storage_revision x = rec_revision r.
Proof.
  unfold decode_attempt. destruct (from_value _) as [y|]; cbn [mbind result_bind map_err]; [|naive_solver].
  split.
  - intros Hd. res_inv. bool_inv. bool_inv. done.
  - intros ([= ->] & Hi & Hv & Hs). rewrite Hv, bool_decide_eq_true_2 by done. simpl. destruct x. simpl in *. by subst.
Qed.

Lemma decode_job_faithful : decode_faithful decode_job job_key.
Proof. intros r x (_ & Hi & _ & Hs)%decode_job_Ok. done. Qed.

Lemma decode_attempt_faithful : decode_faithful decode_attempt at_attempt_id.
Proof. intros r x (_ & Hi & _ & Hs)%decode_attempt_Ok. done. Qed.

Lemma jholds_version recs x : jholds recs x -> sv_major (job_version (item x)) = sv_major CURRENT_SCHEMA_VERSION.
Proof. intros (r & _ & (_ & _ & Hv & _)%decode_job_Ok)%holds_lookup. done. Qed.

Lemma tholds_version recs x : tholds recs x -> sv_major (at_version (item x)) = sv_major CURRENT_SCHEMA_VERSION.
Proof. intros (r & _ & (_ & _ & Hv & _)%decode_attempt_Ok)%holds_lookup. done. Qed.

(** The derived codecs: what is written is read back, and identifiers are parsed. *)
Definition job_codec : Prop := document_lawful ScheduledJob.
Definition attempt_codec : Prop :=
  document_lawful JobAttempt
  /\ forall v (x : JobAttempt), from_value v = Ok x -> id_canonical (as_entity_id (at_action_id x)).

Lemma tholds_action_id recs x :
  attempt_codec -> tholds recs x -> id_canonical (as_entity_id (at_action_id (item x))).
Proof. intros [_ Hc] (r & _ & (Hf & _)%decode_attempt_Ok)%holds_lookup. by eapply Hc. Qed.

Lemma encode_job x revision r :
  job_codec -> job_record x revision = Ok r -> id_canonical (job_key x) ->
  sv_major (job_version x) = sv_major CURRENT_SCHEMA_VERSION ->
  is_u64 (revision_get revision) -> is_i64 (unix_millis (job_updated_at x)) ->
  wf_record r /\ rec_id r = job_key x /\ rec_revision r = revision
  /\ decode_job (canonical_record r) = Ok (MkStored x revision).
Proof.
  intros Hlaw He Hid Hv Hrev Hnow. unfold job_record in He. destruct (to_value x) as [v|] eqn:Ev; simpl in He; [|done].
  destruct (Hlaw _ _ Ev) as (Hd & Hread & Hback). injection He as <-.
  split; [|split; [done|split; [done|by apply decode_job_Ok]]].
  split; [done|]. do 2 (split; [simpl; unfold u16_max; lia|]). done.
Qed.

Lemma encode_attempt x revision r :
  attempt_codec -> attempt_record x revision = Ok r -> id_canonical (at_attempt_id x) ->
  sv_major (at_version x) = sv_major CURRENT_SCHEMA_VERSION ->
  is_u64 (revision_get revision) -> is_i64 (unix_millis (at_updated_at x)) ->
  wf_record r /\ rec_id r = at_attempt_id x /\ rec_revision r = revision
  /\ decode_attempt (canonical_record r) = Ok (MkStored x revision).
Proof.
  intros [Hlaw _] He Hid Hv Hrev Hnow. unfold attempt_record in He. destruct (to_value x) as [v|] eqn:Ev; simpl in He; [|done].
  destruct (Hlaw _ _ Ev) as (Hd & Hread & Hback). injection He as <-.
  split; [|split; [done|split; [done|by apply decode_attempt_Ok]]].
  split; [done|]. do 2 (split; [simpl; unfold u16_max; lia|]). done.
Qed.

(** *** What the jobs of the others do *)

(** The jobs that are deleted while an operation runs; their identifiers are not
    drawn again meanwhile. *)
Context (retired : EntityId -> Prop).

Abbreviation job_rel := (key_life jobs retired (fun _ => True)).

Definition jobs_follow (recs recs' : Records) : Prop :=
  forall id, job_rel id (recs !! (ScheduledJobs, id)) (recs' !! (ScheduledJobs, id)).

#[export] Instance jobs_follow_preorder : PreOrder jobs_follow.
Proof. exact (lives_preorder jobs retired (fun _ => True)). Qed.

(** While a job stays as it is it gets no new attempt. *)
Definition quiet (recs recs' : Records) : Prop :=
  forall id r, recs !! (ScheduledJobs, id) = Some r -> recs' !! (ScheduledJobs, id) = Some r ->
    forall a, tholds recs' a -> as_entity_id (at_job_id (item a)) = id -> live (item a) ->
      exists b, tholds recs b /\ at_attempt_id (item b) = at_attempt_id (item a)
        /\ at_job_id (item b) = at_job_id (item a) /\ live (item b).

Lemma quiet_trans a b c : jobs_follow a b -> jobs_follow b c -> quiet a b -> quiet b c -> quiet a c.
Proof.
  intros Hab Hbc Qab Qbc id r Ha Hc x Hx Hid Hl.
  assert (b !! (ScheduledJobs, id) = Some r) as Hb.
  { apply (key_life_same jobs retired (fun _ => True) id); [rewrite <- Ha; apply Hab|rewrite <- Hc; apply Hbc]. }
  destruct (Qbc id r Hb Hc x Hx Hid Hl) as (y & Hy & Hk & Hj & Hly).
  destruct (Qab id r Ha Hb y Hy ltac:(congruence) Hly) as (z & Hz & Hkz & Hjz & Hlz).
  exists z. split_and!; [done|congruence|congruence|done].
Qed.

(** *** What the attempts rest on *)

(** The job of every live attempt is there, and the action of every attempt that
    was handed over is in the inbox. *)
Definition backed (recs : Records) : Prop :=
  (forall a, tholds recs a -> live (item a) -> is_Some (recs !! (ScheduledJobs, as_entity_id (at_job_id (item a)))))
  /\ (forall a, tholds recs a -> at_state (item a) = Enqueued \/ at_state (item a) = AttemptCompleted ->
       delivered (at_action_id (item a)) recs).

Definition schedule_follows (recs recs' : Records) : Prop :=
  follows actions recs recs' /\ jobs_follow recs recs' /\ follows attempts recs recs' /\ quiet recs recs'
  /\ (backed recs -> backed recs').

#[export] Instance schedule_follows_preorder : PreOrder schedule_follows.
Proof.
  split.
  - intros recs. do 3 (split; [reflexivity|]). split; [|done]. intros id r _ _ a Ha _ Hl. by exists a.
  - intros a b c (A1 & J1 & T1 & Q1 & B1) (A2 & J2 & T2 & Q2 & B2).
    split; [by etrans|]. split; [by etrans|]. split; [by etrans|]. split; [by eapply quiet_trans|auto].
Qed.

Definition shared_schedules : Contract := MkContract schedule_follows schedule_follows _ _ (fun _ _ H => H).

(** *** Writes *)

Lemma untouched_jobs recs recs' : untouched ScheduledJobs recs recs' -> jobs_follow recs recs'.
Proof. exact (untouched_lives jobs retired (fun _ => True) recs recs'). Qed.

Lemma insert_untouched recs c k r : k.1 <> c -> untouched c recs (<[k := r]> recs).
Proof. intros Hk id. rewrite lookup_insert_ne; [done|]. by intros ->. Qed.

(** The inbox writes actions. *)
Lemma inbox_schedule recs k r :
  follows actions recs (<[(PendingActions, k) := r]> recs) -> schedule_follows recs (<[(PendingActions, k) := r]> recs).
Proof.
  intros Hf. assert (forall c, c <> PendingActions -> untouched c recs (<[(PendingActions, k) := r]> recs)) as Hu.
  { intros c Hc. by apply insert_untouched. }
  assert (forall a, tholds (<[(PendingActions, k) := r]> recs) a -> tholds recs a) as Ht.
  { intros a. apply (untouched_holds JobAttempts). by apply Hu. }
  split; [done|]. split; [by apply untouched_jobs, Hu|]. split; [by apply (untouched_follows attempts), Hu|].
  split; [|intros [B1 B2]; split].
  - intros id q _ _ a Ha _ Hl. exists a. split_and!; auto.
  - intros a Ha Hl. rewrite <- (Hu ScheduledJobs); [|done]. apply B1; auto.
  - intros a Ha Hs. eapply delivered_follows; [done|]. apply B2; auto.
Qed.

(** A job that changed may have got new attempts. *)
Lemma quiet_changed recs recs' id :
  recs !! (ScheduledJobs, id) <> recs' !! (ScheduledJobs, id) ->
  (forall a, tholds recs' a -> live (item a) -> as_entity_id (at_job_id (item a)) = id \/ tholds recs a) ->
  quiet recs recs'.
Proof.
  intros Hne Hold id' r Hr Hr' a Ha Hid Hl. destruct (Hold a Ha Hl) as [Heq|Hh]; [|by exists a].
  destruct Hne. by rewrite <- Heq, Hid, Hr, Hr'.
Qed.

Lemma job_update_differs recs x r :
  jholds recs x -> revision_get (rec_revision r) = (revision_get (storage_revision x) + 1)%Z ->
  recs !! (ScheduledJobs, job_key (item x)) <> Some (canonical_record r).
Proof.
  intros (q & Hq & Hx)%holds_lookup Hrev Heq. rewrite Hq in Heq. injection Heq as ->.
  apply decode_job_faithful in Hx as [_ Hx]. change (rec_revision r = storage_revision x) in Hx.
  rewrite Hx in Hrev. lia.
Qed.

Lemma job_update_rel recs x r s :
  jholds recs x -> decode_job (canonical_record r) = Ok s -> job_step config (item x) (item s) ->
  revision_get (rec_revision r) = (revision_get (storage_revision x) + 1)%Z ->
  job_rel (job_key (item x)) (recs !! (ScheduledJobs, job_key (item x))) (Some (canonical_record r)).
Proof.
  intros (q & Hq & Hx)%holds_lookup Hs Hstep Hrev. rewrite Hq. simpl. apply rtc_once.
  destruct (decode_job_faithful q x Hx) as [_ Hqx].
  eapply (key_update jobs); simpl; [by rewrite Hx|by rewrite Hs|done|]. by rewrite Hqx.
Qed.

Lemma schedule_job_write recs x r s :
  jholds recs x -> decode_job (canonical_record r) = Ok s -> job_step config (item x) (item s) ->
  revision_get (rec_revision r) = (revision_get (storage_revision x) + 1)%Z ->
  schedule_follows recs (<[(ScheduledJobs, job_key (item x)) := canonical_record r]> recs).
Proof.
  intros Hx Hs Hstep Hrev. set (recs' := <[_ := _]> recs).
  assert (forall c, c <> ScheduledJobs -> untouched c recs recs') as Hu by (intros c Hc; by apply insert_untouched).
  assert (forall a, tholds recs' a -> tholds recs a) as Ht.
  { intros a. apply (untouched_holds JobAttempts). by apply Hu. }
  assert (follows actions recs recs') as Hact by by apply (untouched_follows actions), Hu.
  split; [done|]. split; [|split; [by apply (untouched_follows attempts), Hu|split; [|intros [B1 B2]; split]]].
  - intros id. unfold recs'. destruct (decide (id = job_key (item x))) as [->|Hne].
    + rewrite lookup_insert_eq. by eapply job_update_rel.
    + rewrite lookup_insert_ne by congruence. apply key_life_refl.
  - apply (quiet_changed recs recs' (job_key (item x))); [|auto]. unfold recs'. rewrite lookup_insert_eq.
    by apply job_update_differs.
  - intros a Ha Hl. specialize (B1 a (Ht a Ha) Hl). unfold recs'.
    destruct (decide (as_entity_id (at_job_id (item a)) = job_key (item x))) as [->|Hne].
    + rewrite lookup_insert_eq. by eexists.
    + by rewrite lookup_insert_ne by congruence.
  - intros a Ha Hst. eapply delivered_follows; [done|]. auto.
Qed.

Lemma schedule_job_create recs r s :
  recs !! (ScheduledJobs, rec_id r) = None -> decode_job (canonical_record r) = Ok s -> job_init (item s) ->
  ~ retired (rec_id r) ->
  schedule_follows recs (<[(ScheduledJobs, rec_id r) := canonical_record r]> recs).
Proof.
  intros Hnone Hs Hinit Hlive. set (recs' := <[_ := _]> recs).
  assert (forall c, c <> ScheduledJobs -> untouched c recs recs') as Hu by (intros c Hc; by apply insert_untouched).
  assert (forall a, tholds recs' a -> tholds recs a) as Ht.
  { intros a. apply (untouched_holds JobAttempts). by apply Hu. }
  assert (follows actions recs recs') as Hact by by apply (untouched_follows actions), Hu.
  split; [done|]. split; [|split; [by apply (untouched_follows attempts), Hu|split; [|intros [B1 B2]; split]]].
  - intros id. unfold recs'. destruct (decide (id = rec_id r)) as [->|Hne].
    + rewrite lookup_insert_eq, Hnone. split; [done|]. apply rtc_once. eapply (key_new jobs); simpl; [by rewrite Hs|done].
    + rewrite lookup_insert_ne by congruence. apply key_life_refl.
  - intros id q Hq Hq' a Ha Hid Hl. exists a. split_and!; auto.
  - intros a Ha Hl. specialize (B1 a (Ht a Ha) Hl). unfold recs'. rewrite lookup_insert_ne; [done|].
    intros [= Heq]. rewrite <- Heq, Hnone in B1. by destruct B1.
  - intros a Ha Hst. eapply delivered_follows; [done|]. auto.
Qed.

Lemma completed_enqueued x y : attempt_step config x y -> at_state y = AttemptCompleted -> at_state x = Enqueued.
Proof.
  destruct 1 as [x n Hc|x st n y Hl Hy|x n Hl|x s e n Hq]; try done.
  apply settled_attempt_Ok in Hy as (state & count & retry & err & -> & Hst). simpl. intros ->.
  destruct st; [by destruct Hst|]. by destruct Hst as [[? _]|[? _]].
Qed.

Lemma schedule_attempt_write recs x r s :
  tholds recs x -> decode_attempt (canonical_record r) = Ok s -> attempt_step config (item x) (item s) ->
  revision_get (rec_revision r) = (revision_get (storage_revision x) + 1)%Z ->
  (at_state (item s) = Enqueued -> delivered (at_action_id (item x)) recs) ->
  schedule_follows recs (<[(JobAttempts, at_attempt_id (item x)) := canonical_record r]> recs).
Proof.
  intros Hx Hs Hstep Hrev Henq. set (recs' := <[_ := _]> recs).
  assert (forall c, c <> JobAttempts -> untouched c recs recs') as Hu by (intros c Hc; by apply insert_untouched).
  assert (follows actions recs recs') as Hact by by apply (untouched_follows actions), Hu.
  pose proof (attempt_step_content _ _ _ Hstep) as Hc. unfold attempt_content in Hc. injection Hc as _ Hj Hk _ _ _ _ Ha.
  assert (forall a, tholds recs' a -> a = s \/ tholds recs a) as Hback.
  { intros a [[Hd _]|[Hh _]]%holds_insert; [|by right]. left. congruence. }
  split; [done|]. split; [by apply untouched_jobs, Hu|].
  split; [by eapply (update_key_step JobAttempts decode_attempt at_attempt_id); [apply decode_attempt_faithful|..]|].
  split; [|intros [B1 B2]; split].
  - intros id q _ _ a Hh Hid Hl. destruct (Hback a Hh) as [->|Hold]; [|by exists a].
    exists x. split_and!; [done|done|done|by eapply attempt_step_live].
  - intros a Hh Hl. rewrite <- (Hu ScheduledJobs); [|done]. destruct (Hback a Hh) as [->|Hold]; [|by apply B1].
    rewrite Hj. apply B1; [done|by eapply attempt_step_live].
  - intros a Hh Hst. eapply delivered_follows; [done|]. destruct (Hback a Hh) as [->|Hold]; [|by apply B2].
    rewrite Ha. destruct Hst as [Hst|Hst]; [by apply Henq|]. apply B2; [done|]. left. by eapply completed_enqueued.
Qed.

(** *** Transactions *)

(** New attempts of a job, with their records. *)
Definition fresh_attempts (id : JobId) (ps : list (JobAttempt * VersionedRecord)) : Prop :=
  Forall (fun p => decode_attempt (canonical_record p.2) = Ok (MkStored p.1 Revision_ZERO)
                   /\ rec_id p.2 = at_attempt_id p.1 /\ attempt_init p.1 /\ at_job_id p.1 = id) ps.

Definition new_attempts (ps : list (JobAttempt * VersionedRecord)) : list RecordMutation :=
  (fun p => Put JobAttempts p.2 PreMissing) <$> ps.

Lemma new_attempts_puts ps : new_attempts ps = puts JobAttempts ((fun r => (r, PreMissing)) <$> ps.*2).
Proof. unfold new_attempts, puts. by rewrite <- !list_fmap_compose. Qed.

Lemma new_attempts_written id recs ps recs' :
  fresh_attempts id ps -> spec_mutations recs (new_attempts ps) = Some recs' ->
  (forall c, c <> JobAttempts -> untouched c recs recs')
  /\ follows attempts recs recs'
  /\ (forall a, tholds recs' a -> tholds recs a \/ exists p, p ∈ ps /\ a = MkStored p.1 Revision_ZERO)
  /\ Forall (fun p => tholds recs' (MkStored p.1 Revision_ZERO)) ps.
Proof.
  intros Hfresh Hm. rewrite new_attempts_puts in Hm. unfold fresh_attempts in Hfresh. rewrite list.Forall_forall in Hfresh.
  destruct (spec_puts_missing recs JobAttempts _ recs' eq_refl Hm) as [Hnd Hnone].
  apply spec_puts in Hm as (_ & Hin & Hout); [|done|by rewrite <- list_fmap_compose].
  assert (forall p, p ∈ ps -> recs' !! (JobAttempts, at_attempt_id p.1) = Some (canonical_record p.2)
    /\ recs !! (JobAttempts, at_attempt_id p.1) = None) as Hp.
  { intros p Hp. destruct (Hfresh p Hp) as (_ & <- & _). split.
    - apply (Hin (p.2, PreMissing)). apply list_elem_of_fmap. exists p.2. split; [done|]. apply list_elem_of_fmap. by exists p.
    - rewrite list.Forall_forall in Hnone. apply Hnone, list_elem_of_fmap. by exists p. }
  assert (forall k, (forall p, p ∈ ps -> k <> (JobAttempts, at_attempt_id p.1)) -> recs' !! k = recs !! k) as Hother.
  { intros k Hk. apply Hout. intros w Hw. apply list_elem_of_fmap in Hw as (r & -> & Hr).
    apply list_elem_of_fmap in Hr as (p & -> & Hr). simpl. destruct (Hfresh p Hr) as (_ & -> & _). by apply Hk. }
  assert (forall k, (exists p, p ∈ ps /\ k = at_attempt_id p.1) \/ recs' !! (JobAttempts, k) = recs !! (JobAttempts, k)) as Hcase.
  { intros k. destruct (decide (k ∈ (fun p => at_attempt_id p.1) <$> ps)) as [(p & -> & Hk)%list_elem_of_fmap|Hk].
    - left. by exists p.
    - right. apply Hother. intros p Hin' [= ->]. apply Hk, list_elem_of_fmap. by exists p. }
  split; [|split; [|split]].
  - intros c Hc id'. symmetry. apply Hother. by intros p _ [= ? _].
  - intros k. simpl. destruct (Hcase k) as [(p & Hin' & ->)| ->]; [|apply rtc_refl].
    destruct (Hp p Hin') as [-> ->]. destruct (Hfresh p Hin') as (Hd & _ & Hi & _).
    apply rtc_once. eapply (key_new attempts); simpl; [by rewrite Hd|done].
  - intros a (r & Hr & Ha)%holds_lookup. destruct (Hcase (at_attempt_id (item a))) as [(p & Hin' & Heq)|Heq].
    + right. exists p. split; [done|]. rewrite Heq in Hr. destruct (Hp p Hin') as [Hr' _]. rewrite Hr' in Hr.
      injection Hr as <-. destruct (Hfresh p Hin') as (Hd & _). congruence.
    + left. apply holds_lookup. exists r. by rewrite <- Heq.
  - apply list.Forall_forall. intros p Hin'. apply holds_lookup. exists (canonical_record p.2). simpl.
    destruct (Hp p Hin') as [-> _]. by destruct (Hfresh p Hin') as (Hd & _).
Qed.

(** A claim: the job and its new attempts in one transaction. *)
Lemma schedule_claim recs recs' x r s ps :
  jholds recs x -> decode_job (canonical_record r) = Ok s -> job_step config (item x) (item s) ->
  revision_get (rec_revision r) = (revision_get (storage_revision x) + 1)%Z -> fresh_attempts (job_id (item x)) ps ->
  spec_mutations (<[(ScheduledJobs, job_key (item x)) := canonical_record r]> recs) (new_attempts ps) = Some recs' ->
  schedule_follows recs recs'.
Proof.
  intros Hx Hs Hstep Hrev Hfresh Hm. set (recs1 := <[_ := _]> recs) in Hm.
  pose proof (schedule_job_write recs x r s Hx Hs Hstep Hrev) as (A1 & J1 & T1 & _ & B1). fold recs1 in A1, J1, T1, B1.
  destruct (new_attempts_written _ _ _ _ Hfresh Hm) as (Hu & T2 & Hback & _).
  assert (forall a, tholds recs1 a -> tholds recs a) as Ht.
  { intros a. apply (untouched_holds JobAttempts). by apply insert_untouched. }
  assert (follows actions recs1 recs') as A2 by by apply (untouched_follows actions), Hu.
  assert (forall a, tholds recs' a -> tholds recs1 a \/ live (item a) /\ at_state (item a) = Claimed /\ at_job_id (item a) = job_id (item x)) as Hnew.
  { intros a Ha. destruct (Hback a Ha) as [?|(p & Hp & ->)]; [by left|right]. unfold fresh_attempts in Hfresh.
    rewrite list.Forall_forall in Hfresh. destruct (Hfresh p Hp) as (_ & _ & (Hc & _) & Hj). unfold live. simpl. by rewrite Hc. }
  split; [by etrans|]. split; [etrans; [done|]; by apply untouched_jobs, Hu|]. split; [by etrans|].
  split; [|intros B; destruct (B1 B) as [B1a B1b]; split].
  - apply (quiet_changed recs recs' (job_key (item x))).
    + rewrite <- (Hu ScheduledJobs) by done. unfold recs1. rewrite lookup_insert_eq. by apply job_update_differs.
    + intros a Ha Hl. destruct (Hnew a Ha) as [?|(_ & _ & ->)]; [right; auto|by left].
  - intros a Ha Hl. rewrite <- (Hu ScheduledJobs) by done. destruct (Hnew a Ha) as [?|(_ & _ & ->)]; [auto|].
    unfold recs1. rewrite lookup_insert_eq. by eexists.
  - intros a Ha Hst. eapply delivered_follows; [done|]. destruct (Hnew a Ha) as [?|(_ & Hc & _)]; [auto|].
    rewrite Hc in Hst. by destruct Hst.
Qed.

(** [w] is the record that cancels the attempt [y]. *)
Definition cancels (now : UtcTimestamp) (recs : Records) (y : Stored JobAttempt) (w : VersionedRecord * WritePrecondition) : Prop :=
  tholds recs y /\ live (item y) /\ rec_id w.1 = at_attempt_id (item y)
  /\ revision_get (rec_revision w.1) = (revision_get (storage_revision y) + 1)%Z
  /\ exists s, decode_attempt (canonical_record w.1) = Ok s /\ item s = cancelled_attempt (item y) now.

Lemma cancels_written now recs ys ws recs' :
  Forall2 (cancels now recs) ys ws -> NoDup ((fun y => at_attempt_id (item y)) <$> ys) ->
  spec_mutations recs (puts JobAttempts ws) = Some recs' ->
  (forall c, c <> JobAttempts -> untouched c recs recs')
  /\ follows attempts recs recs'
  /\ (forall a, tholds recs' a ->
       tholds recs a /\ a ∉ ys \/ exists y, y ∈ ys /\ item a = cancelled_attempt (item y) now).
Proof.
  intros Hys Hnd Hm.
  assert ((fun w => rec_id w.1) <$> ws = (fun y => at_attempt_id (item y)) <$> ys) as Hids.
  { clear -Hys. induction Hys as [|y w ys ws (_ & _ & Hid & _) _ IH]; [done|]. rewrite !fmap_cons. by rewrite IH, Hid. }
  apply spec_puts in Hm as (_ & Hin & Hout); [|done|by rewrite Hids].
  assert (forall k, (exists y w, y ∈ ys /\ w ∈ ws /\ cancels now recs y w /\ k = at_attempt_id (item y))
    \/ (forall y, y ∈ ys -> k <> at_attempt_id (item y)) /\ recs' !! (JobAttempts, k) = recs !! (JobAttempts, k)) as Hcase.
  { intros k. destruct (decide (k ∈ (fun y => at_attempt_id (item y)) <$> ys)) as [(y & -> & Hy)%list_elem_of_fmap|Hk].
    - left. apply list_elem_of_lookup in Hy as [i Hi]. destruct (Forall2_lookup_l _ _ _ _ _ Hys Hi) as (w & Hw & Hc).
      exists y, w. split_and!; [by eapply list_elem_of_lookup_2|by eapply list_elem_of_lookup_2|done|done].
    - right. split; [intros y Hy ->; apply Hk, list_elem_of_fmap; by exists y|]. apply Hout. intros w Hw [= ->].
      apply Hk. rewrite <- Hids. apply list_elem_of_fmap. by exists w. }
  split; [|split].
  - intros c Hc id'. symmetry. apply Hout. by intros w _ [= ? _].
  - intros k. simpl. destruct (Hcase k) as [(y & w & Hy & Hw & (Hh & Hl & Hid & Hrev & s & Hs & Hsi) & ->)|[_ ->]]; [|apply rtc_refl].
    apply rtc_once. rewrite <- Hid at 2. rewrite (Hin w Hw). apply holds_lookup in Hh as (q & Hq & Hqy). rewrite Hq.
    destruct (decode_attempt_faithful q y Hqy) as [_ Hqr].
    eapply (key_update attempts); simpl; [by rewrite Hqy|by rewrite Hs| |by rewrite Hqr].
    rewrite Hsi. by apply attempt_cancel.
  - intros a (r & Hr & Ha)%holds_lookup.
    destruct (Hcase (at_attempt_id (item a))) as [(y & w & Hy & Hw & (_ & _ & Hid & _ & s & Hs & Hsi) & Heq)|[Hno Heq]].
    + right. exists y. split; [done|]. rewrite Heq, <- Hid, (Hin w Hw) in Hr. injection Hr as <-. congruence.
    + left. split; [apply holds_lookup; exists r; by rewrite <- Heq|]. intros Hy. by apply (Hno a Hy).
Qed.

(** A deletion: the job is gone and its live attempts are cancelled, in one
    transaction. *)
Lemma schedule_delete now recs recs' x ys ws :
  jholds recs x -> retired (job_key (item x)) ->
  Forall2 (cancels now recs) ys ws -> NoDup ((fun y => at_attempt_id (item y)) <$> ys) ->
  (forall a, tholds recs a -> at_job_id (item a) = job_id (item x) -> live (item a) -> a ∈ ys) ->
  spec_mutations (delete (ScheduledJobs, job_key (item x)) recs) (puts JobAttempts ws) = Some recs' ->
  schedule_follows recs recs'.
Proof.
  intros Hx Hret Hys Hnd Hall Hm. set (recs1 := delete _ recs) in Hm.
  assert (forall c, c <> ScheduledJobs -> untouched c recs recs1) as Hu1.
  { intros c Hc id. unfold recs1. rewrite lookup_delete_ne; [done|]. congruence. }
  assert (forall a, tholds recs a <-> tholds recs1 a) as Ht.
  { intros a. apply (untouched_holds JobAttempts). by apply Hu1. }
  assert (Forall2 (cancels now recs1) ys ws) as Hys1.
  { eapply Forall2_impl; [exact Hys|]. intros y w (Hh & Hrest). split; [by apply Ht|done]. }
  destruct (cancels_written _ _ _ _ _ Hys1 Hnd Hm) as (Hu2 & T2 & Hback).
  assert (forall a, tholds recs' a -> live (item a) -> tholds recs a /\ at_job_id (item a) <> job_id (item x)) as Hlive.
  { intros a Ha Hl. destruct (Hback a Ha) as [[Hh Hno]|(y & _ & Hc)]; [|by rewrite Hc in Hl].
    apply Ht in Hh. split; [done|]. intros Heq. by apply Hno, Hall. }
  assert (untouched PendingActions recs recs') as Hua.
  { etrans; [by apply Hu1|by apply Hu2]. }
  assert (forall id, id <> job_key (item x) -> recs' !! (ScheduledJobs, id) = recs !! (ScheduledJobs, id)) as Hjobs.
  { intros id Hne. rewrite <- (Hu2 ScheduledJobs) by done. unfold recs1. apply lookup_delete_ne. congruence. }
  split; [by apply (untouched_follows actions)|]. split; [|split; [|split; [|intros [B1 B2]; split]]].
  - intros id. destruct (decide (id = job_key (item x))) as [->|Hne]; [|rewrite Hjobs by done; apply key_life_refl].
    rewrite <- (Hu2 ScheduledJobs) by done. unfold recs1. rewrite lookup_delete_eq.
    destruct (proj1 (holds_lookup _ _ _ _ _ _ _) Hx) as (r & Hr & Hd). rewrite Hr. split; [done|].
    exists r, x. split; [apply rtc_refl|]. split; [simpl; by rewrite Hd|done].
  - etrans; [|exact T2]. apply (untouched_follows attempts). by apply Hu1.
  - intros id r Hr Hr' a Ha Hid Hl. exists a. destruct (Hlive a Ha Hl). done.
  - intros a Ha Hl. destruct (Hlive a Ha Hl) as [Hh Hne]. rewrite Hjobs; [by apply B1|].
    unfold job_key. intros Heq. by apply (inj as_entity_id) in Heq.
  - intros a Ha Hst. eapply delivered_follows; [by apply (untouched_follows actions)|].
    destruct (Hback a Ha) as [[Hh _]|(y & _ & Hc)]; [apply B2; [by apply Ht|done]|].
    rewrite Hc in Hst. simpl in Hst. by destruct Hst.
Qed.
End contract.
