(* ===== verification/SchedulerOperations.v ===== *)
(** * What the operations of the scheduler write

    The specification of every operation of [Scheduler] under a contract that
    allows the writes of [SchedulerMachine]: which records it writes over which
    ones, and what holds of the attempts it was done with. *)

From Stdlib Require Import ZArith Lia String.
From stdpp Require Import base decidable countable relations gmap sorting option list.
From S2P Require Import Prelude RustStd AgentTypes Json StateStoreCore ItemStore.
From S2P Require Import ActionStore ActionMachine ActionProperties Schedules Occurrences Scheduler SchedulerMachine.

Section operations.
Context {S : Type} `{HU : Ulid, HR : Repository S, HL : !RepositoryLaws S}.
Context `{HA : Document ActionRecord, HJ : Document ScheduledJob, HT : Document JobAttempt, HC : Chrono}.
Context (inbox : ActionInboxConfig) (error_to_string : ActionStoreError repo_error -> rstr).
Context (new_id : nat -> EntityId) (config : SchedulerConfig).

#[local] Instance schedule_sink : ScheduledActionSink S := scheduled_inbox_sink inbox error_to_string.

Abbreviation jholds := (holds ScheduledJobs decode_job job_key job_init (job_step config)).
Abbreviation tholds := (holds JobAttempts decode_attempt at_attempt_id attempt_init (attempt_step config)).
Abbreviation jlists := (lists_items ScheduledJobs decode_job job_key job_init (job_step config)).
Abbreviation tlists := (lists_items JobAttempts decode_attempt at_attempt_id attempt_init (attempt_step config)).

Context (Hacodec : action_codec) (Hjcodec : job_codec) (Htcodec : attempt_codec).
Context (Hids : forall k, id_canonical (new_id k)).
Context (Hconfig : (0 < claim_ttl_ms config /\ 0 < retry_backoff_ms config)%Z).

Context (retired : EntityId -> Prop) (now : UtcTimestamp) (Hnow : is_i64 (unix_millis now)).
Context (G : Contract).
Context (Hkeeps : forall recs recs', guarantee G recs recs' -> schedule_follows config retired recs recs').

Abbreviation jseen := (seen G ScheduledJobs decode_job job_key job_init (job_step config)).
Abbreviation tseen := (seen G JobAttempts decode_attempt at_attempt_id attempt_init (attempt_step config)).

(** The writes that the contract allows. *)
Context (Hinbox : forall recs k r,
  follows actions recs (<[(PendingActions, k) := r]> recs) -> guarantee G recs (<[(PendingActions, k) := r]> recs)).
Context (Hjob : forall recs x r s,
  jholds recs x -> decode_job (canonical_record r) = Ok s -> job_step config (item x) (item s) ->
  revision_get (rec_revision r) = (revision_get (storage_revision x) + 1)%Z ->
  guarantee G recs (<[(ScheduledJobs, job_key (item x)) := canonical_record r]> recs)).
Context (Hattempt : forall recs x r s,
  tholds recs x -> decode_attempt (canonical_record r) = Ok s -> attempt_step config (item x) (item s) ->
  revision_get (rec_revision r) = (revision_get (storage_revision x) + 1)%Z ->
  (at_state (item s) = Enqueued -> delivered (at_action_id (item x)) recs) ->
  (attempt_due now (item s) = true -> attempt_due now (item x) = true) ->
  guarantee G recs (<[(JobAttempts, at_attempt_id (item x)) := canonical_record r]> recs)).
Context (Hclaim : forall recs recs' x r s ps,
  jholds recs x -> decode_job (canonical_record r) = Ok s -> job_step config (item x) (item s) ->
  revision_get (rec_revision r) = (revision_get (storage_revision x) + 1)%Z -> fresh_attempts (job_id (item x)) ps ->
  Forall (fun p => attempt_due now p.1 = false) ps ->
  spec_mutations (<[(ScheduledJobs, job_key (item x)) := canonical_record r]> recs) (new_attempts ps) = Some recs' ->
  guarantee G recs recs').

Lemma jobs_revisions_name : revisions_name G ScheduledJobs.
Proof.
  intros recs recs' id r r' HG Hr Hr' Hrev. destruct (Hkeeps _ _ HG) as (_ & Hj & _). specialize (Hj id).
  rewrite Hr, Hr' in Hj. simpl in Hj.
  destruct (key_step_revision (jobs config) _ _ Hj r eq_refl) as (q & [= <-] & [->|Hlt]); [done|]. rewrite Hrev in Hlt. lia.
Qed.

Lemma attempts_follow recs recs' : guarantee G recs recs' -> follows (attempts config) recs recs'.
Proof. intros HG. by destruct (Hkeeps _ _ HG) as (_ & _ & Ht & _). Qed.

Lemma actions_follow recs recs' : guarantee G recs recs' -> follows actions recs recs'.
Proof. intros HG. by destruct (Hkeeps _ _ HG) as (Ha & _). Qed.

(** ** Reading *)

Lemma spec_required_job P id :
  spec G P (required_job id) (fun x recs =>
    (job_id (item x) = id /\ wf_stored job_key x) /\ later G P recs /\ jholds recs x).
Proof.
  unfold required_job. eapply spec_bind.
  { apply (spec_load_item G ScheduledJobs decode_job job_key job_init (job_step config) SeRepository decode_job_faithful). }
  intros found. cbn beta. apply spec_lift. intros x recs Hx (Hf & Hl & Hh). apply ok_or_Ok in Hx as ->.
  destruct (Hf x eq_refl) as [Hid Hwf]. split; [|done]. split; [|done]. by apply (inj as_entity_id).
Qed.

Lemma spec_required_attempt P id :
  spec G P (required_attempt id) (fun x recs =>
    (at_attempt_id (item x) = id /\ wf_stored at_attempt_id x) /\ later G P recs /\ tholds recs x).
Proof.
  unfold required_attempt. eapply spec_bind.
  { apply (spec_load_item G JobAttempts decode_attempt at_attempt_id attempt_init (attempt_step config) SeRepository
             decode_attempt_faithful). }
  intros found. cbn beta. apply spec_lift. intros x recs Hx (Hf & Hl & Hh). apply ok_or_Ok in Hx as ->.
  destruct (Hf x eq_refl) as [Hid Hwf]. done.
Qed.

Lemma spec_load_jobs P :
  spec G P load_jobs (fun xs recs => Forall (wf_stored job_key) xs /\ later G P recs /\ jlists recs xs).
Proof.
  apply (spec_load_items G ScheduledJobs decode_job job_key job_init (job_step config) SeRepository decode_job_faithful).
Qed.

Lemma spec_load_attempts P :
  spec G P load_attempts (fun xs recs => Forall (wf_stored at_attempt_id) xs /\ later G P recs /\ tlists recs xs).
Proof.
  apply (spec_load_items G JobAttempts decode_attempt at_attempt_id attempt_init (attempt_step config) SeRepository
           decode_attempt_faithful).
Qed.

(** ** Writing *)

Lemma next_revision_Ok revision next :
  next_revision revision = Ok next -> is_u64 (revision_get revision) ->
  revision_get next = (revision_get revision + 1)%Z /\ is_u64 (revision_get next).
Proof.
  unfold next_revision. intros [Hn Hle]%ok_or_Ok%checked_next_Some Hu. split; [done|]. unfold is_u64 in *. lia.
Qed.

(** The record of a successor of a job that was seen. *)
Lemma job_record_next recs x y revision r :
  wf_stored job_key x -> jseen x recs -> job_step config (item x) y -> is_i64 (unix_millis (job_updated_at y)) ->
  next_revision (storage_revision x) = Ok revision -> job_record y revision = Ok r ->
  wf_record r /\ rec_id r = job_key (item x) /\ decode_job (canonical_record r) = Ok (MkStored y revision)
  /\ revision_get (rec_revision r) = (revision_get (storage_revision x) + 1)%Z.
Proof.
  intros [Hid Hrev] (recs0 & _ & Hx) Hstep Hi Hn He. destruct (next_revision_Ok _ _ Hn Hrev) as [Hn1 Hn2].
  pose proof (job_step_identity _ _ _ Hstep) as Hident. unfold job_identity in Hident. injection Hident as Hv Hk _ _ _.
  assert (job_key y = job_key (item x)) as Hkey by (unfold job_key; congruence).
  destruct (encode_job _ _ _ Hjcodec He) as (Hwf & Hri & Hrr & Hdec); [by rewrite Hkey| |done|done|].
  { rewrite Hv. by eapply jholds_version. }
  split; [done|]. split; [congruence|]. split; [done|]. by rewrite Hrr.
Qed.

Lemma spec_put_job P x y :
  wf_stored job_key x -> is_i64 (unix_millis (job_updated_at y)) -> (forall recs, P recs -> jseen x recs) ->
  job_step config (item x) y ->
  spec G P (put_job (MkStored y (storage_revision x))) (fun s recs' => item s = y
    /\ exists recs, later G P recs /\ jholds recs x /\ jholds recs' s).
Proof.
  intros Hwf Hi HP Hstep. unfold put_job. cbn [item storage_revision].
  apply spec_lift_bind. intros rev Hnext. apply spec_lift_bind. intros r He. apply spec_pre. intros recs1 HP1.
  destruct (job_record_next recs1 x y rev r Hwf (HP recs1 HP1) Hstep Hi Hnext He) as (Hwr & Hri & Hdec & Hrr).
  eapply spec_bind.
  { apply (spec_update_named G ScheduledJobs decode_job job_key job_init (job_step config) SeRepository
             decode_job_faithful (eq recs1) x r jobs_revisions_name); [done|done|done|by intros recs <-; apply HP|].
    intros recs _ Hx. by eapply Hjob. }
  intros receipt. cbn beta. apply spec_ret. intros recs' (recs & (recs2 & <- & HR2) & Hx & ->).
  split; [done|]. exists recs. split; [by exists recs1|]. split; [done|]. rewrite <- Hri.
  apply holds_lookup. exists (canonical_record r). simpl.
  destruct (decode_job_faithful _ _ Hdec) as [Hk _]. simpl in Hk. by rewrite <- Hk, lookup_insert_eq.
Qed.

Lemma attempt_record_next recs x y revision r :
  wf_stored at_attempt_id x -> tseen x recs -> attempt_step config (item x) y -> is_i64 (unix_millis (at_updated_at y)) ->
  next_revision (storage_revision x) = Ok revision -> attempt_record y revision = Ok r ->
  wf_record r /\ rec_id r = at_attempt_id (item x) /\ decode_attempt (canonical_record r) = Ok (MkStored y revision)
  /\ revision_get (rec_revision r) = (revision_get (storage_revision x) + 1)%Z
  /\ wf_stored at_attempt_id (MkStored y revision).
Proof.
  intros [Hid Hrev] (recs0 & _ & Hx) Hstep Hi Hn He. destruct (next_revision_Ok _ _ Hn Hrev) as [Hn1 Hn2].
  pose proof (attempt_step_content _ _ _ Hstep) as Hc. unfold attempt_content in Hc. injection Hc as Hv _ Hk _ _ _ _ _.
  destruct (encode_attempt _ _ _ Htcodec He) as (Hwf & Hri & Hrr & Hdec); [by rewrite Hk| |done|done|].
  { rewrite Hv. by eapply tholds_version. }
  split; [done|]. split; [congruence|]. split; [done|]. split; [by rewrite Hrr|]. split; [simpl; by rewrite Hk|done].
Qed.

Lemma spec_put_attempt P x y :
  wf_stored at_attempt_id x -> is_i64 (unix_millis (at_updated_at y)) -> (forall recs, P recs -> tseen x recs) ->
  attempt_step config (item x) y ->
  (at_state y = Enqueued -> forall recs, P recs -> delivered (at_action_id (item x)) recs) ->
  (attempt_due now y = true -> attempt_due now (item x) = true) ->
  spec G P (put_attempt (MkStored y (storage_revision x))) (fun s recs' =>
    (item s = y /\ wf_stored at_attempt_id s) /\ exists recs, later G P recs /\ tholds recs x /\ tholds recs' s).
Proof.
  intros Hwf Hi HP Hstep Henq Hdue. unfold put_attempt. cbn [item storage_revision].
  apply spec_lift_bind. intros rev Hnext. apply spec_lift_bind. intros r He. apply spec_pre. intros recs1 HP1.
  destruct (attempt_record_next recs1 x y rev r Hwf (HP recs1 HP1) Hstep Hi Hnext He) as (Hwr & Hri & Hdec & Hrr & Hws).
  eapply spec_bind.
  { apply (spec_replace G JobAttempts decode_attempt at_attempt_id attempt_init (attempt_step config) SeRepository
             decode_attempt_faithful attempts_follow (eq recs1) x r (MkStored y rev)); [done|done|done|done| |].
    - intros recs <-. by apply HP.
    - intros recs (recs2 & <- & HR2) Hx. eapply Hattempt; [done|done|done|done| |done]. intros Hq.
      eapply (delivered_stable G actions_follow); [by apply Henq|]. by apply rely_guarantee. }
  intros receipt. cbn beta. apply spec_ret. intros recs' (recs & (recs2 & <- & HR2) & Hx & Hs & _).
  split; [done|]. exists recs. split; [by exists recs1|done].
Qed.

(** ** Handing an attempt over *)

Lemma add_millis_Ok millis t :
  (0 < millis)%Z -> add_millis (E := repo_error) now millis = Ok t -> rleb t now = false.
Proof.
  intros Hm Ha. unfold add_millis in Ha. apply bind_Ok in Ha as (m & [-> _]%i64_try_from_Ok & Ha).
  apply bind_Ok in Ha as (p & [-> _]%ok_or_Ok%i64_checked_add_Some & Ha). injection Ha as <-.
  unfold rleb, rcmp. simpl. destruct (Z.compare_spec (unix_millis now + millis) (unix_millis now)); [lia|lia|done].
Qed.

Lemma settled_not_due x status y : settled_attempt config x status now = Ok y -> attempt_due now y = false.
Proof.
  intros (state & count & retry & err & -> & Hst)%settled_attempt_Ok. unfold attempt_due. simpl.
  destruct status as [status|e]; [by destruct Hst as (-> & _)|].
  destruct Hst as [(-> & _ & _ & t & -> & Ht)|(-> & _)]; [|done]. simpl.
  apply add_millis_Ok in Ht as ->; [done|]. apply Hconfig.
Qed.

Lemma settled_updated x status y : settled_attempt config x status now = Ok y -> at_updated_at y = now.
Proof. by intros (state & count & retry & err & -> & Hst)%settled_attempt_Ok. Qed.

Lemma settled_enqueued x status y :
  settled_attempt config x status now = Ok y -> at_state y = Enqueued -> exists a, status = Ok a.
Proof.
  intros (state & count & retry & err & -> & Hst)%settled_attempt_Ok. destruct status as [a|e]; [by exists a|].
  simpl. intros ->. by destruct Hst as [[? _]|[? _]].
Qed.

(** The attempt that is written is not due any more. *)
Lemma spec_enqueue_attempt P x :
  stable G P -> wf_stored at_attempt_id x -> (forall recs, P recs -> tseen x recs) -> live (item x) ->
  spec G P (enqueue_attempt config x now) (fun y recs' =>
    exists s, y = item s /\ tholds recs' s /\ at_attempt_id y = at_attempt_id (item x) /\ attempt_due now y = false).
Proof.
  intros Hst Hwf Hseen Hl. unfold enqueue_attempt. eapply spec_bind; [apply spec_required_job|].
  intros job. cbn beta. apply (spec_given G (fun recs => id_canonical (as_entity_id (at_action_id (item x))) /\ P recs)).
  { intros recs (_ & HP%later_stable & _); [|done]. split; [|done]. destruct (Hseen recs HP) as (recs0 & _ & Hx).
    by eapply tholds_action_id. }
  apply spec_pure. intros Hact. unfold enqueue_for.
  assert (forall P' status, (forall recs, P' recs -> P recs) ->
    (forall a, status = Ok a -> forall recs, P' recs -> delivered (at_action_id (item x)) recs) ->
    spec G P' (y ← lift (settled_attempt config (item x) status now);
               stored ← put_attempt (MkStored y (storage_revision x)); mret (item stored))
      (fun y recs' => exists s, y = item s /\ tholds recs' s /\ at_attempt_id y = at_attempt_id (item x)
         /\ attempt_due now y = false)) as Hput.
  { intros P' status HP' Hd. apply spec_lift_bind. intros y Hy. pose proof (settled_not_due _ _ _ Hy) as Hdue.
    assert (attempt_step config (item x) y) as Hstep by by eapply attempt_settle.
    eapply spec_bind.
    { apply spec_put_attempt; [done|by rewrite (settled_updated _ _ _ Hy)|auto|done| |by rewrite Hdue].
      intros [a Ha]%(settled_enqueued _ _ _ Hy). by eapply Hd. }
    intros s. cbn beta. apply spec_pure. intros [Hs _]. apply spec_ret. intros recs' (recs & _ & _ & Hh).
    apply attempt_step_content in Hstep. unfold attempt_content in Hstep. injection Hstep as _ _ Hk _ _ _ _ _.
    exists s. split; [done|]. split; [done|]. by rewrite Hs. }
  apply (spec_catch G P (enqueue (scheduled_action (item job) (item x) now) now)
    (fun _ recs => delivered (at_action_id (item x)) recs)
    (fun status => y ← lift (settled_attempt config (item x) status now);
                   stored ← put_attempt (MkStored y (storage_revision x)); mret (item stored))); [done| | |].
  - eapply spec_given; [|by apply (spec_ensure inbox Hacodec G)]. done.
  - intros a. apply Hput; [by intros recs []|]. by intros b _ recs [].
  - intros e. by apply Hput.
Qed.

(** ** Retries *)

Lemma due_live x : attempt_due now x = true -> live x.
Proof. unfold attempt_due, live. by destruct (at_state x). Qed.

Lemma recovered_wf x : attempt_due now (recovered_attempt x now) = true.
Proof. unfold attempt_due. simpl. unfold rleb. by rewrite rcmp_refl. Qed.

Lemma spec_retry_one P x :
  stable G P -> wf_stored at_attempt_id x -> (forall recs, P recs -> tseen x recs) -> attempt_due now (item x) = true ->
  spec G P (retry_one config now x) (fun _ recs' =>
    exists s, tholds recs' s /\ at_attempt_id (item s) = at_attempt_id (item x) /\ attempt_due now (item s) = false).
Proof.
  intros Hst Hwf Hseen Hdue. unfold retry_one.
  apply (spec_bind G _ _ (fun s recs => (wf_stored at_attempt_id s /\ attempt_due now (item s) = true
    /\ at_attempt_id (item s) = at_attempt_id (item x)) /\ P recs /\ tseen s recs)).
  - case_bool_decide as Hc; [|apply spec_ret; auto].
    eapply spec_weaken; [apply (spec_keep G P); [done|]; apply (spec_put_attempt P x (recovered_attempt (item x) now))| |].
    + done.
    + done.
    + done.
    + by apply attempt_recover.
    + done.
    + done.
    + done.
    + intros s recs (HP & [Hs Hws] & recs1 & _ & _ & Hh). rewrite Hs. split; [|split; [done|by apply holds_seen]].
      split; [done|]. split; [apply recovered_wf|done].
  - intros s. apply spec_pure. intros (Hws & Hds & Hk). rewrite <- Hk.
    eapply spec_weaken; [apply (spec_enqueue_attempt (fun recs => P recs /\ tseen s recs)); [|done| |by apply due_live]|done|].
    + intros a b [Ha Hb] Hg. split; [by eapply Hst|by eapply seen_stable].
    + by intros recs [].
    + intros y recs' (t & -> & Hh & Hkt & Hdt). by exists t.
Qed.

(** What a retry leaves behind for each attempt that was due. *)
Definition retried (D : Stored JobAttempt -> Records -> Prop) : Prop :=
  (forall x, stable G (D x))
  /\ forall x s recs, tholds recs s -> at_attempt_id (item s) = at_attempt_id (item x) ->
       attempt_due now (item s) = false -> D x recs.

Lemma spec_retry_due P D sessions :
  stable G P -> retried D ->
  spec G P (retry_due config now sessions) (fun _ recs => P recs /\ exists listed, guarantee G listed recs
    /\ (sessions = None -> forall x, tholds listed x -> attempt_due now (item x) = true -> D x recs)).
Proof.
  intros Hst [HD Hdone]. unfold retry_due. eapply spec_bind; [apply spec_load_attempts|]. intros xs. cbn beta.
  apply spec_pure. intros Hwf. apply spec_pre. intros listed [Hl [_ Hin]]. apply (later_stable G P) in Hl; [|done].
  set (J := fun recs => P recs /\ guarantee G listed recs).
  assert (stable G J) as HstJ by (intros a b [Ha Hb] Hg; split; [by eapply Hst|by etrans]).
  apply (spec_given G J); [intros recs <-; split; [done|reflexivity]|].
  apply (spec_bind G _ _ (fun _ => J)).
  { destruct sessions; [|by apply spec_ret]. eapply spec_bind; [apply spec_load_jobs|]. intros js. cbn beta.
    apply spec_ret. intros recs (_ & HJl & _). by apply (later_stable G J). }
  intros ms. cbn beta. eapply spec_weaken; [apply (spec_map_m_each G J _ D); [done|done|]|done|].
  - intros x [Hx [Hdue _]%andb_true_iff]%list_elem_of_In%filter_In. apply list_elem_of_In in Hx.
    eapply spec_weaken; [apply (spec_retry_one J x)|done|].
    + done.
    + by eapply list.Forall_forall in Hwf.
    + intros recs [_ Hg]. exists listed. split; [done|by apply Hin].
    + done.
    + intros y recs' (s & Hh & Hk & Hd). by eapply Hdone.
  - intros ys recs [[HP Hg] Hall]. split; [done|]. exists listed. split; [done|]. intros -> x Hx Hd.
    rewrite list.Forall_forall in Hall. apply Hall, list_elem_of_In, filter_In.
    split; [by apply list_elem_of_In, Hin|]. unfold retry_selected. by rewrite Hd.
Qed.

(** ** Claims *)

(** A conditional write finds the item that was read. *)
Lemma admitted_exact recs x r :
  jseen x recs ->
  put_admitted (rec_revision <$> recs !! (ScheduledJobs, job_key (item x))) r (PreExact (storage_revision x)) = true ->
  jholds recs x.
Proof.
  intros Hx [Ha _]%andb_true_iff. simpl in Ha. apply bool_decide_eq_true_1 in Ha.
  by eapply exact_holds; [apply decode_job_faithful|apply jobs_revisions_name|..].
Qed.

(** The attempts of a claim. *)
Definition claimed_attempts (x : ScheduledJob) (ps : list (JobAttempt * VersionedRecord)) : Prop :=
  fresh_attempts (job_id x) ps
  /\ Forall (fun p => attempt_due now p.1 = false) ps
  /\ Forall (fun p => wf_record p.2 /\ wf_stored at_attempt_id (MkStored p.1 Revision_ZERO)) ps.

Lemma spec_claim_attempts P run x claimant :
  spec G P (claim_attempts new_id config x run claimant now) (fun c recs =>
    (c.1 = with_attempt_count x (job_attempt_count x + Z.of_nat (length run)) /\ claimed_attempts x c.2) /\ P recs).
Proof.
  revert x. induction run as [|scheduled_for run IH]; intros x; cbn [claim_attempts].
  { apply spec_ret. intros recs HP. split; [|done]. split; [|by repeat constructor]. simpl. rewrite Z.add_0_r. by destruct x. }
  apply spec_lift_bind. intros count Hcount%ok_or_Ok. unfold u32_checked_add in Hcount.
  destruct (_ <=? u32_max)%Z; [|done]. injection Hcount as <-.
  eapply spec_bind; [apply spec_draw|]. intros id. apply spec_pure. intros [n ->]. cbn beta.
  apply spec_lift_bind. intros expires Hexp. eapply spec_bind; [apply spec_draw|]. intros aid. apply spec_pure. intros [m ->].
  cbn beta. apply spec_lift_bind. intros r Hr. eapply spec_bind; [apply IH|]. intros [x' ps]. cbn beta.
  apply spec_pure. cbn [fst snd]. intros [-> (Hf & Hd & Hw)]. apply spec_ret. intros recs HP. split; [|done].
  destruct (encode_attempt _ _ _ Htcodec Hr) as (Hwf & Hri & _ & Hdec);
    [apply Hids|done|unfold is_u64, u64_max; simpl; lia|done|].
  split; [unfold with_attempt_count; simpl; f_equal; lia|]. split; [|split]; constructor; try done.
  - unfold attempt_due. simpl. rewrite (add_millis_Ok _ _ (proj1 Hconfig) Hexp). done.
  - split; [done|]. split; [apply Hids|]. unfold is_u64, u64_max. simpl. lia.
Qed.

Lemma spec_claim_job P x claimant :
  stable G P -> wf_stored job_key x -> (forall recs, P recs -> jseen x recs) -> job_due now None x = true ->
  spec G P (claim_job new_id config x claimant now) (fun xs recs =>
    Forall (fun a => wf_stored at_attempt_id a /\ live (item a)) xs /\ Forall (fun a => tseen a recs) xs).
Proof.
  intros Hst Hwf Hseen [[Hs Hn]%andb_true_iff _]%andb_true_iff. bool_inv.
  destruct (job_next_run (item x)) as [first|] eqn:En; [|done].
  assert ((unix_millis first <= unix_millis now)%Z) as Hle.
  { revert Hn. unfold rleb, rcmp. simpl. by destruct (Z.compare_spec (unix_millis first) (unix_millis now)); try lia. }
  unfold claim_job. apply spec_lift_bind. intros d Hd. eapply spec_bind; [apply spec_claim_attempts|]. intros [x' ps].
  cbn beta. apply spec_pure. cbn [fst snd]. intros [-> (Hf & Hdue & Hw)].
  set (y := advanced _ d now). assert (job_step config (item x) y) as Hstep by by eapply job_claim.
  apply spec_lift_bind. intros revision Hrev. apply spec_lift_bind. intros r Hr. apply spec_pre. intros recs1 HP1.
  destruct (job_record_next recs1 x y revision r Hwf (Hseen recs1 HP1) Hstep Hnow Hrev Hr) as (Hwr & Hri & Hdec & Hrr).
  assert (forall recs recs', later G (eq recs1) recs ->
    spec_mutations recs (Put ScheduledJobs r (PreExact (storage_revision x)) :: new_attempts ps) = Some recs' ->
    guarantee G recs recs' /\ Forall (fun p => tholds recs' (MkStored p.1 Revision_ZERO)) ps) as Hms.
  { intros recs recs' (recs2 & <- & HR2) (recs3 & [Ha ->]%spec_mutation_put & Hm)%spec_mutations_cons; [|done].
    rewrite Hri in Ha, Hm. apply admitted_exact in Ha; [|by eapply seen_stable; [apply Hseen|apply rely_guarantee]].
    split; [by eapply Hclaim|]. by destruct (new_attempts_written config _ _ _ _ Hf Hm) as (_ & _ & _ & ?). }
  eapply spec_bind.
  { apply spec_map_err, (spec_transact G (eq recs1) (_ :: new_attempts ps)); [|intros; by eapply Hms].
    constructor; [done|]. apply Forall_fmap. eapply Forall_impl; [exact Hw|]. by intros p []. }
  intros receipt. cbn beta. apply spec_ret. intros recs' (recs & Hl & [_ Hh]%Hms); [|done]. rewrite !Forall_fmap. split.
  - apply list.Forall_forall. intros p Hp. unfold fresh_attempts in Hf. rewrite list.Forall_forall in Hf, Hw.
    destruct (Hw p Hp), (Hf p Hp) as (_ & _ & (Hc & _) & _). split; [done|]. unfold live. simpl. by rewrite Hc.
  - eapply Forall_impl; [exact Hh|]. intros p Hp. by apply holds_seen.
Qed.

Lemma spec_claim_all P claimant xs :
  stable G P -> Forall (wf_stored job_key) xs -> (forall recs, P recs -> Forall (fun x => jseen x recs) xs) ->
  Forall (fun x => job_due now None x = true) xs ->
  spec G P (claim_all new_id config claimant now xs) (fun _ recs => P recs).
Proof.
  intros Hst. induction xs as [|x xs IH]; intros Hwf Hseen Hdue; cbn [claim_all]; [by apply spec_ret|].
  apply Forall_cons in Hwf as [Hx Hxs]. apply Forall_cons in Hdue as [Hd Hds].
  assert (forall recs, P recs -> Forall (fun y => jseen y recs) xs) as Hseen'.
  { intros recs HP. specialize (Hseen recs HP). by apply Forall_cons in Hseen as [_ ?]. }
  intros recs0 w r w' Hsince Hr.
  apply (spec_catch G P (claim_job new_id config x claimant now)
    (fun zs recs => Forall (fun a => wf_stored at_attempt_id a /\ live (item a)) zs /\ Forall (fun a => tseen a recs) zs)
    (fun res => match res with
                | Ok attempts => enqueued ← map_m (fun a => enqueue_attempt config a now) attempts;
                                 rest ← claim_all new_id config claimant now xs; mret (enqueued ++ rest)
                | Err (SeRepository _) => claim_all new_id config claimant now xs
                | Err error => throw error
                end) (fun _ recs => P recs)) with (recs0 := recs0) (s := w) (r := r) (s' := w'); [done| | | |done|].
  - apply spec_claim_job; [done|done| |done]. intros recs HP. specialize (Hseen recs HP). by apply Forall_cons in Hseen as [? _].
  - intros zs. apply (spec_given G (fun recs => Forall (fun a => wf_stored at_attempt_id a /\ live (item a)) zs
      /\ P recs /\ Forall (fun a => tseen a recs) zs)); [by intros recs (? & ? & ?)|].
    apply spec_pure. intros Hzs. rewrite list.Forall_forall in Hzs. set (J := fun recs => P recs /\ Forall (fun a => tseen a recs) zs).
    assert (stable G J) as HstJ.
    { intros a b [Ha Hb] Hg. split; [by eapply Hst|]. eapply Forall_impl; [exact Hb|]. cbn beta. intros z Hz. by eapply seen_stable. }
    eapply spec_bind; [apply (spec_map_m_each G J _ (fun _ _ => True)); [done|done|]|].
    + intros z Hz. destruct (Hzs z Hz) as [Hwz Hlz]. eapply spec_weaken; [apply (spec_enqueue_attempt J z)|done|done]; try done.
      intros recs [_ Hall]. by eapply list.Forall_forall in Hall.
    + intros ys. cbn beta. eapply spec_bind; [eapply spec_given; [|by apply IH]; by intros recs [[HP _] _]|].
      intros rest. by apply spec_ret.
  - intros e. destruct e; try apply spec_throw. by apply IH.
  - rewrite <- Hr. destruct (claim_job new_id config x claimant now w) as [[zs|e] w1]; [done|]. by destruct e.
Qed.

(** ** A tick *)

Lemma job_due_any sessions x : job_due now sessions x = true -> job_due now None x = true.
Proof. unfold job_due. intros [-> _]%andb_true_iff. done. Qed.

Lemma spec_tick P D claimant sessions :
  stable G P -> retried D ->
  spec G P (tick_filtered new_id config claimant now sessions) (fun _ recs => P recs /\ exists listed, guarantee G listed recs
    /\ (sessions = None -> forall x, tholds listed x -> attempt_due now (item x) = true -> D x recs)).
Proof.
  intros Hst HD. unfold tick_filtered. eapply spec_bind; [apply spec_lock|]. intros []. cbn beta.
  eapply spec_bind; [by apply spec_retry_due|]. intros processed. cbn beta.
  set (J := fun recs => P recs /\ exists listed, guarantee G listed recs
    /\ (sessions = None -> forall x, tholds listed x -> attempt_due now (item x) = true -> D x recs)).
  assert (stable G J) as HstJ.
  { intros a b (HP & listed & Hl & Hall) Hg. split; [by eapply Hst|]. exists listed. split; [by etrans|].
    intros Hn x Hx Hd. eapply (proj1 HD); [by apply Hall|done]. }
  eapply spec_bind; [apply spec_load_jobs|]. intros xs. cbn beta. apply spec_pure. intros Hwf.
  apply spec_pre. intros listed [Hl [_ Hin]]. apply (later_stable G J) in Hl; [|done].
  set (K := fun recs => J recs /\ guarantee G listed recs).
  assert (forall x, x ∈ take (Z.to_nat (max_claims_per_tick config) - length processed)
    (List.filter (job_due now sessions) xs) -> x ∈ xs /\ job_due now None x = true) as Hxs.
  { intros x Hx. apply elem_of_take in Hx as (i & Hx & _). apply list_elem_of_lookup_2, list_elem_of_In, filter_In in Hx as [Hx Hd].
    split; [by apply list_elem_of_In|by eapply job_due_any]. }
  eapply spec_bind.
  { apply (spec_given G K); [intros recs <-; split; [done|reflexivity]|]. apply spec_claim_all.
    - intros a b [Ha Hb] Hg. split; [by eapply HstJ|by etrans].
    - apply list.Forall_forall. intros x [Hx _]%Hxs. by eapply list.Forall_forall in Hwf.
    - intros recs [_ Hg]. apply list.Forall_forall. intros x [Hx _]%Hxs. exists listed. split; [done|by apply Hin].
    - apply list.Forall_forall. by intros x [_ ?]%Hxs. }
  intros claimed. cbn beta. apply spec_ret. by intros recs [].
Qed.

(** ** Single jobs *)

Lemma spec_change_state P id next :
  spec G P (change_state id next now) (fun _ _ => True).
Proof.
  unfold change_state. eapply spec_bind; [apply spec_lock|]. intros []. cbn beta.
  eapply spec_bind; [apply spec_required_job|]. intros x. cbn beta. apply spec_pure. intros [_ Hwf].
  apply spec_lift_bind. intros [] Ha%reject_if_ok. apply negb_false_iff in Ha.
  eapply spec_bind; [apply spec_put_job; [done|done| |by apply job_change]|intros s; by apply spec_ret].
  intros recs [_ Hx]. by apply holds_seen.
Qed.

Lemma spec_update_job P id update : spec G P (update_job id update now) (fun _ _ => True).
Proof.
  unfold update_job. eapply spec_bind; [apply spec_lock|]. intros []. cbn beta.
  eapply spec_bind; [apply spec_required_job|]. intros x. cbn beta. apply spec_pure. intros [_ Hwf].
  apply spec_lift_bind. intros y Hy.
  eapply spec_bind; [apply spec_put_job; [done| | |by eapply job_reconfigure]|intros s; by apply spec_ret].
  - apply updated_job_Ok in Hy as (_ & _ & _ & _ & _ & -> & _). done.
  - intros recs [_ Hx]. by apply holds_seen.
Qed.

(** A job starts with an occurrence of a valid schedule. *)
Lemma create_init request next_run id :
  validate_schedule (E := repo_error) (new_job_schedule request) = Ok tt ->
  initial_run (E := repo_error) (new_job_schedule request) now = Ok next_run ->
  job_init (MkScheduledJob CURRENT_SCHEMA_VERSION (MkTypedId id) (new_job_profile_id request)
    (new_job_session_id request) (new_job_schedule request) (new_job_action request)
    (new_job_limits request) (new_job_reply_route request) (new_job_missed_run request) JobActive next_run
    None 0 0 None now now).
Proof.
  intros Hv Hi. split; [|done]. split; [done|]. destruct (initial_run_Ok _ _ _ Hv Hi) as (t & -> & Ho & _). simpl. by exists t.
Qed.

Lemma spec_create_job (ids : nat -> EntityId) P request :
  (forall k, id_canonical (ids k)) ->
  (forall recs r s, (exists k, rec_id r = ids k) -> recs !! (ScheduledJobs, rec_id r) = None ->
     decode_job (canonical_record r) = Ok s -> job_init (item s) ->
     guarantee G recs (<[(ScheduledJobs, rec_id r) := canonical_record r]> recs)) ->
  spec G P (create_job ids request now) (fun _ _ => True).
Proof.
  intros Hcan Hcreate. unfold create_job. apply spec_lift_bind. intros [] Hv. apply spec_lift_bind. intros [] _.
  apply spec_lift_bind. intros next_run Hi. eapply spec_bind; [apply spec_draw|]. intros id. cbn beta. apply spec_pure.
  intros [n ->]. apply spec_lift_bind. intros r Hr.
  destruct (encode_job _ _ _ Hjcodec Hr) as (Hwf & Hri & _ & Hdec);
    [apply Hcan|done|unfold is_u64, u64_max; simpl; lia|done|].
  eapply spec_bind; [|intros receipt; by apply spec_ret]. eapply spec_weaken; [|done|done].
  apply (spec_create G ScheduledJobs SeRepository); [done|done|].
  intros recs _ Hnone. eapply Hcreate; [exists n; by rewrite Hri|done|done|]. by apply create_init.
Qed.

(** ** Deletion *)

Lemma attempt_exact recs x r :
  tseen x recs ->
  put_admitted (rec_revision <$> recs !! (JobAttempts, at_attempt_id (item x))) r (PreExact (storage_revision x)) = true ->
  tholds recs x.
Proof.
  intros Hx [Ha _]%andb_true_iff. simpl in Ha. apply bool_decide_eq_true_1 in Ha.
  by eapply exact_holds; [apply decode_attempt_faithful|eapply follows_revisions_name; exact attempts_follow|..].
Qed.

Lemma cancel_mutations ys ms :
  try_map (cancel_mutation now) ys = Ok ms ->
  exists ws, ms = puts JobAttempts ws /\ Forall2 (fun y w => w.2 = PreExact (storage_revision y)
    /\ exists revision, next_revision (storage_revision y) = Ok revision
        /\ attempt_record (cancelled_attempt (item y) now) revision = Ok w.1) ys ws.
Proof.
  intros Hms%try_map_Forall2. induction Hms as [|y m ys ms Hm _ (ws & -> & Hws)]; [by exists []|].
  unfold cancel_mutation in Hm. apply bind_Ok in Hm as (revision & Hrev & Hm). apply bind_Ok in Hm as (r & Hr & Hm).
  injection Hm as <-. exists ((r, PreExact (storage_revision y)) :: ws). split; [done|]. constructor; [|done].
  split; [done|]. by exists revision.
Qed.

(** [w] cancels [y] when it is admitted. *)
Definition cancel_record (recs : Records) (y : Stored JobAttempt) (w : VersionedRecord * WritePrecondition) : Prop :=
  wf_record w.1 /\ rec_id w.1 = at_attempt_id (item y)
  /\ (put_admitted (rec_revision <$> recs !! (JobAttempts, rec_id w.1)) w.1 w.2 = true -> cancels config now recs y w).

Lemma cancels_wf recs ys ws : Forall2 (cancel_record recs) ys ws -> Forall wf_mutation (puts JobAttempts ws).
Proof. intros Hcs. induction Hcs as [|y w ys ws [Hw _] _ IH]; by constructor. Qed.

Lemma listed_live recs1 recs id xs :
  guarantee G recs1 recs -> tlists recs1 xs -> Forall (wf_stored at_attempt_id) xs ->
  Forall (fun y => wf_stored at_attempt_id y /\ tseen y recs /\ live (item y)) (List.filter (unsettled_of id) xs).
Proof.
  intros Hg [_ Hin] Hwf. apply list.Forall_forall.
  intros y [Hy [_ Hl]%andb_true_iff]%list_elem_of_In%filter_In. apply list_elem_of_In in Hy.
  split; [by eapply list.Forall_forall in Hwf|]. split; [exists recs1; split; [done|by apply Hin]|]. by apply negb_true_iff in Hl.
Qed.

(** The records that cancel attempts that were seen live. *)
Lemma cancels_seen recs ys ws :
  Forall (fun y => wf_stored at_attempt_id y /\ tseen y recs /\ live (item y)) ys ->
  Forall2 (fun y w => w.2 = PreExact (storage_revision y)
    /\ exists revision, next_revision (storage_revision y) = Ok revision
        /\ attempt_record (cancelled_attempt (item y) now) revision = Ok w.1) ys ws ->
  Forall2 (cancel_record recs) ys ws.
Proof.
  intros Hys Hws. induction Hws as [|y w ys ws (Hp & revision & Hrev & Hr) _ IH]; [constructor|].
  apply Forall_cons in Hys as [(Hwf & Hseen & Hl) Hys]. constructor; [|by apply IH].
  destruct (attempt_record_next recs y (cancelled_attempt (item y) now) revision w.1 Hwf Hseen) as (Hwr & Hri & Hdec & Hrr & _);
    [by apply attempt_cancel|done|done|done|].
  split; [done|]. split; [done|]. rewrite Hp, Hri. intros Ha%attempt_exact; [|done].
  split; [done|]. split; [done|]. split; [done|]. split; [done|]. by eexists.
Qed.

Lemma listed_attempts_nodup recs xs (p : Stored JobAttempt -> bool) :
  tlists recs xs -> NoDup ((fun y => at_attempt_id (item y)) <$> List.filter p xs).
Proof.
  intros [Hs _]. induction Hs as [|x xs Hs IH Hx]; [constructor|]. simpl. destruct (p x); [|done].
  rewrite fmap_cons. apply NoDup_cons. split; [|done].
  intros (y & Heq & [Hy _]%list_elem_of_In%filter_In)%list_elem_of_fmap. rewrite list.Forall_forall in Hx.
  specialize (Hx y (proj2 (list_elem_of_In _ _) Hy)). rewrite Heq in Hx. by rewrite rcmp_refl in Hx.
Qed.

(** The job was the same at every moment between two at which it was. *)
Lemma same_job_between recs0 recs1 recs2 x :
  guarantee G recs0 recs1 -> guarantee G recs1 recs2 -> jholds recs0 x -> jholds recs2 x ->
  exists r, recs1 !! (ScheduledJobs, job_key (item x)) = Some r /\ recs2 !! (ScheduledJobs, job_key (item x)) = Some r.
Proof.
  intros H1 H2 (r & Hr & Hx)%holds_lookup (q & Hq & Hx')%holds_lookup. exists r.
  destruct (decode_job_faithful _ _ Hx) as [_ Hrr], (decode_job_faithful _ _ Hx') as [_ Hqr].
  assert (q = r) as ->.
  { eapply jobs_revisions_name; [|exact Hr|exact Hq|congruence]. by etrans. }
  destruct (Hkeeps _ _ H1) as (_ & J1 & _), (Hkeeps _ _ H2) as (_ & J2 & _). split; [|done].
  eapply (key_life_same (jobs config) retired (fun _ => True) (job_key (item x))); [rewrite <- Hr; apply J1|rewrite <- Hq; apply J2].
Qed.

(** The live attempts of a job that did not change were listed. *)
Lemma live_listed recs0 recs1 recs2 x xs a :
  guarantee G recs0 recs1 -> guarantee G recs1 recs2 -> jholds recs0 x -> jholds recs2 x -> tlists recs1 xs ->
  (forall y, y ∈ List.filter (unsettled_of (job_id (item x))) xs -> tholds recs2 y) ->
  tholds recs2 a -> at_job_id (item a) = job_id (item x) -> live (item a) ->
  a ∈ List.filter (unsettled_of (job_id (item x))) xs.
Proof.
  intros H1 H2 Hx0 Hx2 [_ Hin] Hys Ha Hj Hl.
  destruct (same_job_between _ _ _ _ H1 H2 Hx0 Hx2) as (r & Hr1 & Hr2).
  destruct (Hkeeps _ _ H2) as (_ & _ & _ & Hquiet & _).
  destruct (Hquiet _ r Hr1 Hr2 a Ha) as (b & Hb & Hkb & Hjb & Hlb); [by rewrite Hj|done|].
  assert (b ∈ List.filter (unsettled_of (job_id (item x))) xs) as Hbs.
  { apply list_elem_of_In, filter_In. split; [by apply list_elem_of_In, Hin|]. unfold unsettled_of.
    rewrite bool_decide_eq_true_2 by congruence. by rewrite Hlb. }
  assert (b = a) as <-; [|done]. eapply holds_inj; [by apply Hys|exact Ha|done].
Qed.

(** What a deletion cancels was admitted, so it is still there. *)
Lemma cancels_admitted recs k recs' ys ws :
  Forall2 (cancel_record recs) ys ws ->
  NoDup ((fun y => at_attempt_id (item y)) <$> ys) ->
  spec_mutations (delete (ScheduledJobs, k) recs) (puts JobAttempts ws) = Some recs' ->
  Forall2 (cancels config now recs) ys ws.
Proof.
  intros Hcs Hnd Hm. assert ((fun w => rec_id w.1) <$> ws = (fun y => at_attempt_id (item y)) <$> ys) as Hids'.
  { clear -Hcs. induction Hcs as [|y w ys ws (_ & Hid & _) _ IH]; [done|]. rewrite !fmap_cons. by rewrite IH, Hid. }
  apply spec_puts in Hm as (Hall & _ & _); [|done|by rewrite Hids']. clear Hnd Hids'.
  induction Hcs as [|y w ys ws (_ & _ & Hc) _ IH]; [constructor|]. apply Forall_cons in Hall as [Ha Hall].
  constructor; [|by apply IH]. apply Hc. by rewrite lookup_delete_ne in Ha.
Qed.

Lemma spec_delete_job P id :
  (forall recs recs' x ys ws, jholds recs x -> job_id (item x) = id ->
     Forall2 (cancels config now recs) ys ws -> NoDup ((fun y => at_attempt_id (item y)) <$> ys) ->
     (forall a, tholds recs a -> at_job_id (item a) = job_id (item x) -> live (item a) -> a ∈ ys) ->
     spec_mutations (delete (ScheduledJobs, job_key (item x)) recs) (puts JobAttempts ws) = Some recs' ->
     guarantee G recs recs') ->
  spec G P (delete_job id now) (fun _ recs => recs !! (ScheduledJobs, as_entity_id id) = None).
Proof.
  intros Hdelete. unfold delete_job. eapply spec_bind; [apply spec_lock|]. intros []. cbn beta.
  eapply spec_bind; [apply spec_required_job|]. intros x. cbn beta. apply spec_pure. intros [<- Hwf].
  apply spec_pre. intros recs0 [_ Hx0].
  eapply spec_bind; [apply spec_load_attempts|]. intros xs. cbn beta. apply spec_pure. intros Hwfs.
  apply spec_pre. intros recs1 [(? & <- & H01%rely_guarantee) Hl1].
  apply spec_lift_bind. intros ms (ws & -> & Hws)%cancel_mutations.
  set (ys := List.filter _ xs) in Hws.
  assert (forall recs, guarantee G recs1 recs -> Forall2 (cancel_record recs) ys ws) as Hcs.
  { intros recs Hg. apply cancels_seen; [|done]. by eapply listed_live. }
  assert (forall recs recs', later G (eq recs1) recs ->
    spec_mutations recs (Delete ScheduledJobs (job_key (item x)) (PreExact (storage_revision x)) :: puts JobAttempts ws) = Some recs' ->
    guarantee G recs recs' /\ recs' !! (ScheduledJobs, job_key (item x)) = None) as Hms.
  { intros recs2 recs' (? & <- & H12%rely_guarantee) (recs3 & Hd & Hm)%spec_mutations_cons.
    unfold spec_mutation in Hd. simpl in Hd.
    destruct (bool_decide _) eqn:Hrev in Hd; [|done]. injection Hd as <-. apply bool_decide_eq_true_1 in Hrev.
    split; [|erewrite (spec_puts_other _ JobAttempts ws recs'); [by apply lookup_delete_eq|done|done|exact Hm]].
    assert (jholds recs2 x) as Hx2.
    { eapply exact_holds; [apply decode_job_faithful|apply jobs_revisions_name| |exact Hrev]. exists recs0. split; [by etrans|done]. }
    pose proof (cancels_admitted _ _ _ _ _ (Hcs recs2 H12) (listed_attempts_nodup _ _ _ Hl1) Hm) as Hc.
    eapply Hdelete; [exact Hx2|done|exact Hc|by apply (listed_attempts_nodup recs1)| |exact Hm]. intros a Ha Hj Hl.
    eapply (live_listed recs0 recs1 recs2); try done. intros y Hy. apply list_elem_of_lookup in Hy as [i Hi].
    by destruct (Forall2_lookup_l _ _ _ _ _ Hc Hi) as (w & _ & Hy & _). }
  eapply spec_bind.
  { apply spec_map_err, spec_transact; [|intros; by eapply Hms]. constructor; [done|]. by eapply cancels_wf, Hcs. }
  intros receipt. cbn beta. apply spec_ret. intros recs' (recs & Hl & [_ Hn]%Hms); done.
Qed.

(** ** Finishing an attempt *)

(** The write of the failed job that goes with the attempt, if any. *)
Definition failure_writes (recs : Records) (ms : list RecordMutation) : Prop :=
  ms = [] \/ exists job r s, ms = [Put ScheduledJobs r (PreExact (storage_revision job))] /\ jseen job recs
    /\ wf_record r /\ rec_id r = job_key (item job) /\ decode_job (canonical_record r) = Ok s
    /\ job_step config (item job) (item s) /\ revision_get (rec_revision r) = (revision_get (storage_revision job) + 1)%Z.

Lemma failure_stable ms : stable G (fun recs => failure_writes recs ms).
Proof.
  intros recs recs' [->|(job & r & s & -> & Hs & Hrest)] Hg; [by left|]. right. exists job, r, s. split; [done|].
  split; [by eapply seen_stable|done].
Qed.

Lemma failure_allowed recs ms recs' :
  failure_writes recs ms -> spec_mutations recs ms = Some recs' -> guarantee G recs recs'.
Proof.
  intros [->|(job & r & s & -> & Hs & Hwf & Hri & Hdec & Hstep & Hrev)] Hm; [injection Hm as <-; reflexivity|].
  apply spec_mutations_put in Hm as [Ha ->]; [|done]. rewrite Hri in Ha |- *. apply admitted_exact in Ha; [|done].
  by eapply Hjob.
Qed.

Lemma spec_failure P (succeeded : bool) id error :
  stable G P ->
  spec G P (if succeeded then mret []
            else
              job ← required_job id;
              job_revision ← lift (next_revision (storage_revision job));
              q ← lift (job_record (with_failure (item job) error now) job_revision);
              mret [Put ScheduledJobs q (PreExact (storage_revision job))])
    (fun ms recs => Forall wf_mutation ms /\ P recs /\ failure_writes recs ms).
Proof.
  intros Hst. destruct succeeded.
  { apply spec_ret. intros recs HP. split; [constructor|]. split; [done|by left]. }
  eapply spec_bind; [apply spec_required_job|]. intros x. cbn beta. apply spec_pure. intros [_ Hwf].
  apply spec_lift_bind. intros revision Hrev. apply spec_lift_bind. intros r Hr. apply spec_ret.
  intros recs [HP%later_stable Hx]; [|done].
  assert (job_step config (item x) (with_failure (item x) error now)) as Hstep by apply job_fail.
  destruct (job_record_next recs x _ revision r Hwf (holds_seen _ _ _ _ _ _ _ _ Hx) Hstep Hnow Hrev Hr) as (Hwr & Hri & Hdec & Hrr).
  split; [by apply Forall_singleton|]. split; [done|]. right. do 3 eexists. split; [done|]. split; [by apply holds_seen|done].
Qed.

Lemma spec_finish_attempt P id succeeded error :
  spec G P (finish_attempt id succeeded error now) (fun _ _ => True).
Proof.
  unfold finish_attempt. eapply spec_bind; [apply spec_lock|]. intros []. cbn beta.
  eapply spec_bind; [apply spec_required_attempt|]. intros x. cbn beta. apply spec_pure. intros [_ Hwf].
  apply spec_lift_bind. intros [] Hs%reject_if_ok. apply negb_false_iff, bool_decide_eq_true_1 in Hs.
  apply spec_lift_bind. intros revision Hrev. apply spec_lift_bind. intros r Hr. apply spec_pre. intros recs0 [_ Hx0].
  set (y := finished_attempt (item x) succeeded error now) in *.
  assert (attempt_step config (item x) y) as Hstep by by apply attempt_finish.
  destruct (attempt_record_next recs0 x y revision r Hwf (holds_seen _ _ _ _ _ _ _ _ Hx0) Hstep Hnow Hrev Hr)
    as (Hwr & Hri & Hdec & Hrr & _).
  eapply spec_bind.
  { apply (spec_given G (tseen x)); [intros recs <-; by apply holds_seen|]. apply spec_failure. apply seen_stable. }
  intros ms. cbn beta. apply spec_pure. intros Hms.
  eapply spec_bind; [|intros receipt; by apply spec_ret]. eapply spec_weaken; [|exact (fun _ H => H)|done].
  apply spec_map_err, spec_transact; [by constructor|].
  intros recs recs' (recs1 & [Hseen Hf] & Hg%rely_guarantee) (recs2 & [Ha ->]%spec_mutation_put & Hm)%spec_mutations_cons; [|done].
  rewrite Hri in Ha, Hm. apply attempt_exact in Ha; [|by eapply seen_stable].
  assert (guarantee G recs (<[(JobAttempts, at_attempt_id (item x)) := canonical_record r]> recs)) as Hg1.
  { eapply Hattempt; [done|exact Hdec|done|done|..]; unfold attempt_due; simpl; by destruct succeeded. }
  etrans; [exact Hg1|]. eapply failure_allowed; [|exact Hm]. eapply failure_stable; [|exact Hg1]. by eapply failure_stable.
Qed.

(** ** Queries *)

Lemma spec_job_session P id : spec G P (job_session id) (fun _ _ => True).
Proof. unfold job_session. eapply spec_bind; [apply spec_required_job|]. intros x. by apply spec_ret. Qed.

Lemma spec_projections P : spec G P projections (fun _ _ => True).
Proof. unfold projections. eapply spec_bind; [apply spec_load_jobs|]. intros xs. by apply spec_ret. Qed.

Lemma spec_projections_for_session P session : spec G P (projections_for_session session) (fun _ _ => True).
Proof. unfold projections_for_session. eapply spec_bind; [apply spec_load_jobs|]. intros xs. by apply spec_ret. Qed.
End operations.
