(* ===== verification/SchedulerProperties.v ===== *)
(** * Correctness of the scheduler

    Runs of arbitrary operations of the scheduler of [Scheduler] and of the
    inbox that is its sink, in any order, with other processes writing jobs,
    attempts and actions in between: what every record keeps to, what a tick
    leaves behind, what a deletion removes, and a schedule that ends the tick. *)

From Stdlib Require Import ZArith Lia String.
From stdpp Require Import base decidable countable relations gmap sorting option list.
From S2P Require Import Prelude RustStd AgentTypes Json StateStoreCore ItemStore.
From S2P Require Import ActionStore ActionMachine ActionProperties.
From S2P Require Import Schedules Occurrences Scheduler SchedulerMachine SchedulerOperations.

Inductive schedule_op :=
| SCreate (request : NewScheduledJob)
| STick (claimant : EntityId)
| STickSessions (claimant : EntityId) (sessions : gset SessionId)
| SPause (id : JobId)
| SResume (id : JobId)
| SUpdate (id : JobId) (update : JobUpdate)
| SDelete (id : JobId)
| SFinish (id : EntityId) (succeeded : bool) (error : option rstr)
| SProjections
| SSessionProjections (session : SessionId)
| SJobSession (id : JobId)
| SInbox (op : inbox_op).

(** One operation, with what other processes write while it runs and the jobs
    that are deleted meanwhile. *)
Record schedule_turn (S : Type) := MkTurn {
  turn_op : schedule_op;
  turn_now : UtcTimestamp;
  turn_others : list (S -> S);
  turn_deleted : gset EntityId
}.
Global Arguments MkTurn {S}.
Global Arguments turn_op {S}.
Global Arguments turn_now {S}.
Global Arguments turn_others {S}.
Global Arguments turn_deleted {S}.

Section runs.
Context {S : Type} `{HU : Ulid, HR : Repository S, HL : !RepositoryLaws S}.
Context `{HA : Document ActionRecord, HJ : Document ScheduledJob, HT : Document JobAttempt, HC : Chrono}.
Context (inbox : ActionInboxConfig) (error_to_string : ActionStoreError repo_error -> rstr).
Context (new_id : nat -> EntityId) (config : SchedulerConfig).

#[local] Instance inbox_schedules : ScheduledActionSink S := scheduled_inbox_sink inbox error_to_string.

Abbreviation jholds := (holds ScheduledJobs decode_job job_key job_init (job_step config)).
Abbreviation tholds := (holds JobAttempts decode_attempt at_attempt_id attempt_init (attempt_step config)).

Definition schedule_do (op : schedule_op) (now : UtcTimestamp) (w : World S) : World S :=
  match op with
  | SCreate request => (create_job new_id request now w).2
  | STick claimant => (tick new_id config claimant now w).2
  | STickSessions claimant sessions => (tick_sessions new_id config claimant now sessions w).2
  | SPause id => (pause id now w).2
  | SResume id => (resume id now w).2
  | SUpdate id update => (update_job id update now w).2
  | SDelete id => (delete_job id now w).2
  | SFinish id succeeded error => (finish_attempt id succeeded error now w).2
  | SProjections => (projections w).2
  | SSessionProjections session => (projections_for_session session w).2
  | SJobSession id => (job_session id w).2
  | SInbox op => (inbox_do inbox op now w).2
  end.

Definition turn (t : schedule_turn S) (w : World S) : World S :=
  schedule_do (turn_op t) (turn_now t) (with_others w (turn_others t)).

(** A run goes on after an error. *)
Definition schedule_run (ts : list (schedule_turn S)) (w : World S) : World S := fold_left (fun w t => turn t w) ts w.

Definition deleted (t : schedule_turn S) (id : EntityId) : Prop := id ∈ turn_deleted t.

(** Values are those of the Rust types; the others keep to the contract; and a
    job is not created with the identifier of one that is deleted meanwhile. *)
Definition turn_ok (t : schedule_turn S) (w : World S) : Prop :=
  is_i64 (unix_millis (turn_now t))
  /\ Forall (relies (shared_schedules config (deleted t))) (turn_others t)
  /\ match turn_op t with
     | SCreate _ => new_id (drawn w) ∉ turn_deleted t
     | SDelete id => as_entity_id id ∈ turn_deleted t
     | SInbox op => well_typed (op, turn_now t)
     | _ => True
     end.

Fixpoint turns_ok (ts : list (schedule_turn S)) (w : World S) : Prop :=
  match ts with [] => True | t :: ts => turn_ok t w /\ turns_ok ts (turn t w) end.

Context (Hacodec : action_codec) (Hjcodec : job_codec) (Htcodec : attempt_codec).
Context (Hids : forall k, id_canonical (new_id k)).
Context (Hconfig : (0 < claim_ttl_ms config /\ 0 < retry_backoff_ms config)%Z).

(** [create_job] draws one identifier. *)
Lemma create_job_draws request now w :
  create_job new_id request now w = create_job (fun _ => new_id (drawn w)) request now w.
Proof.
  unfold create_job. destruct (validate_schedule _) as [[]|e]; [|done]. destruct (validate_job_action _) as [[]|e]; [|done].
  destruct (initial_run _ now) as [next|e]; done.
Qed.

Lemma attempt_write_shared retired now recs x r s :
  tholds recs x -> decode_attempt (canonical_record r) = Ok s -> attempt_step config (item x) (item s) ->
  revision_get (rec_revision r) = (revision_get (storage_revision x) + 1)%Z ->
  (at_state (item s) = Enqueued -> delivered (at_action_id (item x)) recs) ->
  (attempt_due now (item s) = true -> attempt_due now (item x) = true) ->
  guarantee (shared_schedules config retired) recs (<[(JobAttempts, at_attempt_id (item x)) := canonical_record r]> recs).
Proof. intros. by eapply schedule_attempt_write. Qed.

Lemma claim_shared retired (now : UtcTimestamp) recs recs' x r s ps :
  jholds recs x -> decode_job (canonical_record r) = Ok s -> job_step config (item x) (item s) ->
  revision_get (rec_revision r) = (revision_get (storage_revision x) + 1)%Z -> fresh_attempts (job_id (item x)) ps ->
  Forall (fun p => attempt_due now p.1 = false) ps ->
  spec_mutations (<[(ScheduledJobs, job_key (item x)) := canonical_record r]> recs) (new_attempts ps) = Some recs' ->
  guarantee (shared_schedules config retired) recs recs'.
Proof. intros. by eapply schedule_claim. Qed.

Lemma spec_weaken_true {E A} G P (m : stateT (World S) E A) Q : spec G P m Q -> spec G P m (fun _ _ => True).
Proof. intros Hm. by eapply spec_weaken. Qed.

(** What the inbox does is allowed. *)
Lemma inbox_turn retired op now :
  well_typed (op, now) -> spec (shared_schedules config retired) (fun _ => True) (inbox_do inbox op now) (fun _ _ => True).
Proof.
  intros Hop. eapply spec_inbox_do; eauto.
  - by intros a b (? & _).
  - intros rs x r s Hx Hs _. apply inbox_schedule. by eapply succeeds_follows.
  - intros listed rs x r s _ _ Hx Hs _. apply inbox_schedule. by eapply succeeds_follows.
  - intros a _ listed rs r s _ Hs Hn. apply inbox_schedule. by eapply submits_follows.
Qed.

(** Every operation keeps to the contract, whether it succeeds or fails. *)
Lemma turn_keeps t w recs :
  turn_ok t w -> repo_view (store w) recs ->
  exists recs', repo_view (store (turn t w)) recs' /\ schedule_follows config (deleted t) recs recs'.
Proof.
  intros (Hnow & Hothers & Hop) Hv. set (G := shared_schedules config (deleted t)).
  assert (stable G (fun _ => True)) as Hst by by intros ???.
  assert (sees G (with_others w (turn_others t)) recs) as Hw by done.
  assert (retried config (turn_now t) G (fun _ _ => True)) as HD by (split; [by intros x a b ??|done]).
  assert (forall a b, guarantee G a b -> schedule_follows config (deleted t) a b) as Hkeeps by done.
  pose proof (inbox_schedule config (deleted t)) as Hinbox.
  pose proof (schedule_job_write config (deleted t)) as Hjob.
  pose proof (attempt_write_shared (deleted t) (turn_now t)) as Hattempt.
  pose proof (claim_shared (deleted t) (turn_now t)) as Hclaim.
  assert (exists recs', sees G (turn t w) recs' /\ schedule_follows config (deleted t) recs recs') as (recs' & [Hv' _] & Hf);
    [|by exists recs'].
  unfold turn. destruct (turn_op t) as [request|claimant|claimant sessions|id|id|id update|id|id succeeded error| |session|id|op];
    cbn [schedule_do]; [rewrite create_job_draws|..]; (eapply (spec_run G (fun _ => True)); [|done|done]).
  - eapply spec_create_job; eauto. intros a r s [k Hk] Hnone Hdec Hinit. eapply schedule_job_create; try done. by rewrite Hk.
  - eapply spec_tick with (retired := deleted t); eauto.
  - eapply spec_tick with (retired := deleted t); eauto.
  - eapply spec_change_state with (retired := deleted t); eauto.
  - eapply spec_change_state with (retired := deleted t); eauto.
  - eapply spec_update_job with (retired := deleted t); eauto.
  - eapply spec_delete_job with (retired := deleted t); eauto. intros a b x ys ws Hx <- Hys Hnd Hall Hm. by eapply schedule_delete.
  - eapply spec_finish_attempt with (retired := deleted t); eauto.
  - eapply spec_projections; eauto.
  - eapply spec_projections_for_session; eauto.
  - eapply spec_job_session; eauto.
  - by apply inbox_turn.
Qed.

(** ** Invariants *)

Lemma schedule_jobs_ok retired recs recs' :
  schedule_follows config retired recs recs' -> all_items (jobs config) job_ok recs -> all_items (jobs config) job_ok recs'.
Proof.
  intros (_ & Hj & _). apply (lives_all_items (jobs config) retired (fun _ => True)); [by intros y []|apply job_step_ok|exact Hj].
Qed.

Lemma attempt_init_ok x : (0 <= max_enqueue_retries config)%Z -> attempt_init x -> attempt_ok config x.
Proof. intros Hmax (Hs & Hr & _). split; [by rewrite Hr|]. by rewrite Hs. Qed.

(** What holds of the records whatever happens. *)
Definition sound (recs : Records) : Prop :=
  all_items (jobs config) job_ok recs /\ all_items (attempts config) (attempt_ok config) recs /\ backed config recs.

Lemma schedule_sound retired recs recs' :
  (0 <= max_enqueue_retries config)%Z -> schedule_follows config retired recs recs' -> sound recs -> sound recs'.
Proof.
  intros Hmax Hf (H1 & H2 & H3). split; [by eapply schedule_jobs_ok|]. destruct Hf as (_ & _ & Ht & _ & Hb). split; [|auto].
  eapply follows_all_items; [intros x; by apply attempt_init_ok|apply attempt_step_ok|exact Ht|done].
Qed.

(** Nothing but the attempts' records says what became of them. *)
Definition attempts_kept (recs recs' : Records) : Prop :=
  forall x, tholds recs x -> exists y, tholds recs' y /\ attempt_content (item y) = attempt_content (item x)
    /\ (attempt_final (at_state (item x)) = true ->
        recs' !! (JobAttempts, at_attempt_id (item x)) = recs !! (JobAttempts, at_attempt_id (item x))).

Lemma follows_attempts_kept recs recs' : follows (attempts config) recs recs' -> attempts_kept recs recs'.
Proof.
  intros Hf x Hx. destruct (follows_steps (attempts config) _ _ _ _ Hf Hx) as (y & Hy & Hs%attempt_steps_content).
  exists y. split; [|split; [done|]].
  - unfold attempt_content in Hs. injection Hs as _ _ Hk _ _ _ _ _. unfold holds. by rewrite Hk.
  - intros Hfin. eapply (follows_stuck (attempts config)); [done|exact Hx|]. intros z. by apply attempt_final_stuck.
Qed.

Lemma schedule_run_follows ts w recs :
  (0 <= max_enqueue_retries config)%Z -> repo_view (store w) recs -> turns_ok ts w -> sound recs ->
  exists recs', repo_view (store (schedule_run ts w)) recs' /\ sound recs' /\ follows (attempts config) recs recs'.
Proof.
  intros Hmax. revert w recs. induction ts as [|t ts IH]; intros w recs Hv Ht Hs.
  { exists recs. split; [done|]. split; [done|reflexivity]. }
  destruct Ht as [Ht Hts]. destruct (turn_keeps t w recs Ht Hv) as (recs1 & Hv1 & Hf1).
  destruct (IH (turn t w) recs1 Hv1 Hts) as (recs' & Hv' & Hs' & Hf'); [by eapply schedule_sound|].
  exists recs'. split; [done|]. split; [done|]. etrans; [|done]. by destruct Hf1 as (_ & _ & ? & _).
Qed.

(** C14: whatever the scheduler, the inbox and other processes do, in any order: a
    job that may still run has a next run that is an occurrence of its valid
    schedule and a completed one has none; retries stay within their limit; no
    live attempt outlives its job; an attempt counts as handed over only while the
    inbox has its action; and no attempt disappears, changes what it is about, or
    is written again once it is completed, failed or cancelled. *)
Theorem schedules_sound ts w recs :
  (0 <= max_enqueue_retries config)%Z -> repo_view (store w) recs -> turns_ok ts w -> sound recs ->
  exists recs', repo_view (store (schedule_run ts w)) recs' /\ sound recs' /\ attempts_kept recs recs'.
Proof.
  intros Hmax Hv Ht Hs. destruct (schedule_run_follows ts w recs Hmax Hv Ht Hs) as (recs' & Hv' & Hs' & Hf).
  exists recs'. split; [done|]. split; [done|]. by apply follows_attempts_kept.
Qed.

(** ** What a tick leaves behind *)

Section calm.
Context (retired : EntityId -> Prop) (now : UtcTimestamp).

(** No attempt becomes overdue. *)
Definition calm (recs recs' : Records) : Prop :=
  schedule_follows config retired recs recs'
  /\ forall y, tholds recs' y -> attempt_due now (item y) = true ->
       exists x, tholds recs x /\ at_attempt_id (item x) = at_attempt_id (item y) /\ attempt_due now (item x) = true.

#[export] Instance calm_preorder : PreOrder calm.
Proof.
  split; [split; [reflexivity|]; intros y Hy Hd; by exists y|]. intros a b c [Hab Dab] [Hbc Dbc]. split; [by etrans|].
  intros z Hz Hd. destruct (Dbc z Hz Hd) as (y & Hy & Hk & Hdy). destruct (Dab y Hy Hdy) as (x & Hx & Hkx & Hdx).
  exists x. split; [done|]. split; [congruence|done].
Qed.

Definition calm_schedules : Contract := MkContract calm calm _ _ (fun _ _ H => H).

Lemma calm_untouched recs recs' :
  schedule_follows config retired recs recs' -> untouched JobAttempts recs recs' -> calm recs recs'.
Proof. intros Hf Hu. split; [done|]. intros y Hy Hd. exists y. split; [by eapply (untouched_holds JobAttempts)|done]. Qed.

Lemma calm_follows recs recs' : guarantee calm_schedules recs recs' -> schedule_follows config retired recs recs'.
Proof. by intros []. Qed.

Lemma calm_inbox recs k r :
  follows actions recs (<[(PendingActions, k) := r]> recs) ->
  guarantee calm_schedules recs (<[(PendingActions, k) := r]> recs).
Proof. intros Hf. apply calm_untouched; [by apply inbox_schedule|by apply insert_untouched]. Qed.

Lemma calm_job recs x r s :
  jholds recs x -> decode_job (canonical_record r) = Ok s -> job_step config (item x) (item s) ->
  revision_get (rec_revision r) = (revision_get (storage_revision x) + 1)%Z ->
  guarantee calm_schedules recs (<[(ScheduledJobs, job_key (item x)) := canonical_record r]> recs).
Proof. intros. apply calm_untouched; [by eapply schedule_job_write|by apply insert_untouched]. Qed.

Lemma calm_attempt recs x r s :
  tholds recs x -> decode_attempt (canonical_record r) = Ok s -> attempt_step config (item x) (item s) ->
  revision_get (rec_revision r) = (revision_get (storage_revision x) + 1)%Z ->
  (at_state (item s) = Enqueued -> delivered (at_action_id (item x)) recs) ->
  (attempt_due now (item s) = true -> attempt_due now (item x) = true) ->
  guarantee calm_schedules recs (<[(JobAttempts, at_attempt_id (item x)) := canonical_record r]> recs).
Proof.
  intros Hx Hdec Hstep Hrev Hd Hdue. split; [by eapply schedule_attempt_write|].
  intros y [[Hy _]|[Hy _]]%holds_insert Hdy; [|by exists y]. assert (y = s) as -> by congruence.
  apply attempt_step_content in Hstep. unfold attempt_content in Hstep. injection Hstep as _ _ Hk _ _ _ _ _.
  exists x. split; [done|]. split; [done|auto].
Qed.

Lemma calm_claim recs recs' x r s ps :
  jholds recs x -> decode_job (canonical_record r) = Ok s -> job_step config (item x) (item s) ->
  revision_get (rec_revision r) = (revision_get (storage_revision x) + 1)%Z -> fresh_attempts (job_id (item x)) ps ->
  Forall (fun p => attempt_due now p.1 = false) ps ->
  spec_mutations (<[(ScheduledJobs, job_key (item x)) := canonical_record r]> recs) (new_attempts ps) = Some recs' ->
  guarantee calm_schedules recs recs'.
Proof.
  intros Hx Hdec Hstep Hrev Hfresh Hdue Hm. split; [by eapply schedule_claim|]. intros y Hy Hd.
  destruct (new_attempts_written config _ _ _ _ Hfresh Hm) as (_ & _ & Hback & _).
  destruct (Hback y Hy) as [Hold|(p & Hp & ->)].
  - exists y. split; [|done]. eapply (untouched_holds JobAttempts); [|exact Hold]. by apply insert_untouched.
  - rewrite list.Forall_forall in Hdue. specialize (Hdue p Hp). simpl in Hd. congruence.
Qed.

(** C19: a tick leaves nothing overdue: once it returns without an error, every
    attempt whose claim had run out or whose retry was due has been handed over,
    scheduled for a later retry or given up, and so have those that others left
    while it ran. *)
Theorem tick_settles claimant w recs xs w' :
  sees calm_schedules w recs -> is_i64 (unix_millis now) -> backed config recs ->
  tick new_id config claimant now w = (Ok xs, w') ->
  exists recs', sees calm_schedules w' recs' /\ backed config recs'
    /\ forall x, tholds recs' x -> attempt_due now (item x) = false.
Proof.
  intros Hw Hnow Hb Ht. assert (stable calm_schedules (fun _ => True)) as Hst by by intros ???.
  set (D := fun (x : Stored JobAttempt) (recs : Records) =>
    forall s, tholds recs s -> at_attempt_id (item s) = at_attempt_id (item x) -> attempt_due now (item s) = false).
  assert (retried config now calm_schedules D) as HD.
  { split.
    - intros x a b Ha [_ Hback] s Hs Hk. destruct (attempt_due now (item s)) eqn:Hd; [|done].
      destruct (Hback s Hs Hd) as (y & Hy & Hky & Hdy). rewrite <- Hdy. apply Ha; [done|congruence].
    - intros x s rs Hs Hk Hd y Hy Hky. assert (y = s) as -> by (eapply holds_inj; [exact Hy|exact Hs|congruence]). done. }
  assert (spec calm_schedules (fun _ => True) (tick new_id config claimant now) (fun _ recs => True /\ exists listed,
    guarantee calm_schedules listed recs
    /\ (None (A := gset SessionId) = None -> forall x, tholds listed x -> attempt_due now (item x) = true -> D x recs))) as Hspec.
  { eapply spec_tick with (retired := retired);
      eauto using calm_follows, calm_inbox, calm_job, calm_attempt, calm_claim. }
  destruct (Hspec recs w _ w' (since_now calm_schedules (fun _ => True) w recs Hw I) Ht)
    as (recs' & Hw' & [(_ & _ & _ & _ & HB) _] & _ & listed & [_ Hback] & Hall).
  exists recs'. split; [done|]. split; [auto|]. intros x Hx. destruct (attempt_due now (item x)) eqn:Hd; [|done].
  destruct (Hback x Hx Hd) as (y & Hy & Hk & Hdy). rewrite <- Hd. by eapply Hall.
Qed.
End calm.

(** C34: deleting a job is complete: once [delete_job] returns, the job is gone,
    none of its attempts is live any more, and the records of its attempts are
    all still there. *)
Theorem delete_job_complete retired now id w recs w' :
  sees (shared_schedules config retired) w recs -> is_i64 (unix_millis now) -> retired (as_entity_id id) ->
  backed config recs -> delete_job id now w = (Ok tt, w') ->
  exists recs', sees (shared_schedules config retired) w' recs' /\ backed config recs'
    /\ recs' !! (ScheduledJobs, as_entity_id id) = None
    /\ (forall a, tholds recs' a -> at_job_id (item a) = id -> attempt_terminal (at_state (item a)) = true)
    /\ attempts_kept recs recs'.
Proof.
  intros Hw Hnow Hret Hb Hd. set (G := shared_schedules config retired) in *.
  assert (spec G (fun _ => True) (delete_job id now) (fun _ recs => recs !! (ScheduledJobs, as_entity_id id) = None)) as Hspec.
  { assert (forall a b, guarantee G a b -> schedule_follows config retired a b) as Hkeeps by done.
    eapply spec_delete_job with (retired := retired); eauto. intros a b x ys ws Hx <- Hys Hnd Hall Hm. by eapply schedule_delete. }
  destruct (Hspec recs w _ w' (since_now G (fun _ => True) w recs Hw I) Hd) as (recs' & Hw' & (_ & _ & Hf & _ & HB) & Hnone).
  exists recs'. split; [done|]. split; [auto|]. split; [done|]. split; [|by apply follows_attempts_kept].
  intros a Ha Hj. destruct (attempt_terminal (at_state (item a))) eqn:Hl; [done|].
  destruct (proj1 (HB Hb) a Ha Hl) as [r Hr]. rewrite Hj in Hr. congruence.
Qed.

(** ** A schedule that stops the others *)

Lemma oversized_next every anchor after :
  (i64_max < every)%Z -> next_after (E := repo_error) (Interval every anchor) after = Err SeTimeOverflow.
Proof.
  intros Hbig. unfold next_after, i64_try_from.
  destruct (Z.leb_spec every i64_max); [lia|]. by rewrite andb_false_r.
Qed.

Lemma oversized_collect every anchor first now n :
  (i64_max < every)%Z -> rleb first now = true ->
  collect_due (E := repo_error) (Interval every anchor) now (Some first) (Datatypes.S (Datatypes.S n)) = Err SeTimeOverflow.
Proof.
  intros Hbig Hle. assert (rltb now first = false) as Hlt.
  { revert Hle. unfold rleb, rltb. rewrite (rcmp_opp first now). by destruct (rcmp first now). }
  cbn [collect_due]. by rewrite Hlt, oversized_next.
Qed.

Lemma oversized_due every anchor first now :
  (i64_max < every)%Z -> rleb first now = true ->
  due_occurrences (E := repo_error) (Interval every anchor) first now = Err SeTimeOverflow.
Proof. unfold due_occurrences. destruct max_occurrences_SS as [n ->]. apply oversized_collect. Qed.

Lemma oversized_decision every anchor first x now grace :
  (i64_max < every)%Z -> job_schedule x = Interval every anchor -> job_next_run x = Some first -> rleb first now = true ->
  due_decision (E := repo_error) x now grace = Err SeTimeOverflow.
Proof.
  intros Hbig Hs Hn Hle. unfold due_decision. rewrite Hn, Hs. etransitivity; [by apply bind_of_ok|].
  by apply bind_of_err, oversized_due.
Qed.

Lemma oversized_claim every anchor claimant now stored w :
  (i64_max < every)%Z -> job_schedule (item stored) = Interval every anchor -> job_due now None stored = true ->
  claim_job new_id config stored claimant now w = (Err SeTimeOverflow, w).
Proof.
  intros Hbig Hs [[_ Hn]%andb_true_iff _]%andb_true_iff. destruct (job_next_run (item stored)) as [first|] eqn:En; [|done].
  unfold claim_job. by rewrite (oversized_decision every anchor first).
Qed.

(** An interval above [i64::MAX] milliseconds passes the validation of schedules,
    and is given its anchor as its first run when that is still to come.  A tick
    that finds such a job first among the due ones, with capacity left after the
    retries, ends with an overflow error at its claim: neither it nor the jobs
    after it in the listing are claimed by that tick. *)
Theorem oversized_interval_stalls every anchor created claimant now sessions processed stored listed rest w w1 w2 :
  (i64_max < every)%Z ->
  validate_schedule (E := repo_error) (Interval every anchor) = Ok tt
  /\ (rleb created anchor = true -> initial_run (E := repo_error) (Interval every anchor) created = Ok (Some anchor))
  /\ (job_schedule (item stored) = Interval every anchor ->
      ScheduledJobs ∉ poisoned_locks w ->
      retry_due config now sessions w = (Ok processed, w1) -> load_jobs w1 = (Ok listed, w2) ->
      List.filter (job_due now sessions) listed = stored :: rest ->
      (length processed < Z.to_nat (max_claims_per_tick config))%nat ->
      tick_filtered new_id config claimant now sessions w = (Err SeTimeOverflow, w2)).
Proof.
  intros Hbig. split; [|split].
  - unfold validate_schedule. destruct (Z.ltb_spec 0 every); [done|]. unfold i64_max in Hbig. lia.
  - intros Hle. unfold initial_run. by rewrite Hle.
  - intros Hs Hlock Hr Hl Hf Hlen. unfold tick_filtered, scheduler_lock, lock_serial.
    assert (job_due now None stored = true) as Hdue.
    { eapply job_due_any. apply (proj2 (proj1 (filter_In (job_due now sessions) stored listed)
        ltac:(rewrite Hf; by left))). }
    unfold mbind, stateT_bind. rewrite (bool_decide_eq_false_2 _ Hlock), Hr, Hl, Hf.
    destruct (_ - _)%nat as [|n] eqn:En; [lia|]. cbn [take claim_all]. by rewrite (oversized_claim every anchor).
Qed.
End runs.
