(* ===== verification/SchedulerExample.v ===== *)
(** * A concrete scheduler

    Zones of a fixed offset over the proleptic Gregorian calendar, and closed
    instances of the theorems about schedules and the scheduler: jobs that are
    created, claimed by two schedulers at once, retried, updated and deleted. *)

From Stdlib Require Import ZArith Lia String.
From stdpp Require Import base decidable countable relations gmap sorting option list.
From S2P Require Import Prelude RustStd RustText AgentTypes Json StateStoreCore StateStore ItemStore Serial ServiceExample.
From S2P Require Import ActionStore ActionMachine ActionProperties ActionExample.
From S2P Require Import Schedules CronSyntax Occurrences Scheduler SchedulerMachine SchedulerOperations SchedulerProperties.

(** ** Calendar *)

(** Days since 1970-01-01 as a year, a month and a day: eras of 400 years that
    start with March. *)
Definition civil_from_days (days : Z) : Z * Z * Z :=
  let z := (days + 719468)%Z in
  let era := (z / 146097)%Z in
  let doe := (z - era * 146097)%Z in
  let yoe := ((doe - doe / 1460 + doe / 36524 - doe / 146096) / 365)%Z in
  let doy := (doe - (365 * yoe + yoe / 4 - yoe / 100))%Z in
  let mp := ((5 * doy + 2) / 153)%Z in
  let day := (doy - (153 * mp + 2) / 5 + 1)%Z in
  let month := (if mp <? 10 then mp + 3 else mp - 9)%Z in
  ((yoe + era * 400 + (if month <=? 2 then 1 else 0))%Z, month, day).

(** Instants are local milliseconds; the zones are two fixed offsets. *)
#[export] Instance fixed_chrono : Chrono := {|
  DateTime := Z;
  Tz := Z;
  Tz_from_str s :=
    if bool_decide (s = str "UTC") then Some 0%Z
    else if bool_decide (s = str "Etc/GMT-1") then Some 60%Z else None;
  timestamp_millis_opt z :=
    if ((-8334601228800000 <=? z) && (z <=? 8210266876799999))%Z then Some z else None;
  with_timezone offset z := (z + offset * 60000)%Z;
  dt_minute z := (z / 60000 mod 60)%Z;
  dt_hour z := (z / 3600000 mod 24)%Z;
  dt_day z := (civil_from_days (z / 86400000)).2;
  dt_month z := (civil_from_days (z / 86400000)).1.2;
  dt_year z := (civil_from_days (z / 86400000)).1.1;
  num_days_from_sunday z := ((z / 86400000 + 4) mod 7)%Z
|}.

Definition plus_one : @Tz fixed_chrono := 60%Z.

(** [30 8 * * 1-5]: half past eight on workdays. *)
Definition one (v : Z) : cron_text := MkCronText (MkCronItem (OneValue v) None) [].
Definition any : cron_text := MkCronText (MkCronItem AnyValue None) [].
Definition workdays : calendar_text :=
  MkCalendarText (one 30) (one 8) any any (MkCronText (MkCronItem (ValueRange 1 5) None) []).

(** Friday 2024-03-01 at nine in the zone, and the Monday after it at half past eight. *)
Definition friday : UtcTimestamp := moment 1709280000000.
Definition monday : UtcTimestamp := moment 1709537400000.

Lemma workdays_wf : wf_calendar workdays.
Proof. repeat split; repeat constructor; simpl; try done; unfold u32_max; lia. Qed.

Lemma next_calendar_exact_witness :
  print_calendar workdays = str "30 8 * * 1-5"
  /\ next_calendar (E := unit) (print_calendar workdays) (str "Etc/GMT-1") friday = Ok monday
  /\ denoted workdays plus_one monday /\ (unix_millis friday < unix_millis monday)%Z.
Proof.
  split; [vm_compute; reflexivity|].
  assert (next_calendar (E := unit) (print_calendar workdays) (str "Etc/GMT-1") friday = Ok monday) as Hn
    by (vm_compute; reflexivity).
  split; [exact Hn|].
  destruct (next_calendar_exact (E := unit) workdays (str "Etc/GMT-1") plus_one friday workdays_wf ltac:(vm_compute; reflexivity)
    ltac:(apply moment_i64; lia)) as [Hex _].
  destruct (Hex monday Hn) as (Hd & Hlt & _). exact (conj Hd Hlt).
Defined.

Lemma interval_next_exact_witness :
  next_after (E := unit) (Interval 1000 (moment 100)) (moment 2100) = Ok (Some (moment 3100))
  /\ first_after (E := unit) (Interval 1000 (moment 100)) (moment 2100) (moment 3100).
Proof.
  split; [vm_compute; reflexivity|].
  pose proof (interval_next_exact (E := unit) 1000 (moment 100) (moment 2100) ltac:(lia)
    ltac:(unfold is_i64, i64_min, i64_max; lia) ltac:(apply moment_i64; lia)) as H.
  replace (next_after _ _) with (Ok (E := SchedulerError unit) (Some (moment 3100))) in H by (vm_compute; reflexivity).
  exact (proj1 H).
Defined.

(** A job that runs every minute, ten minutes behind, and may replay three runs. *)
Definition instruction : ActionPayload := PayScheduled (str "check the mail").

Definition behind_job : ScheduledJob :=
  MkScheduledJob CURRENT_SCHEMA_VERSION (MkTypedId (named_id 60)) (MkTypedId (named_id 1)) sample_session
    (Interval 60000 (moment 0)) instruction default_action_limits None (ReplayBounded 3) JobActive (Some (moment 60000))
    (Some (moment 0)) 1 0 None (moment 0) (moment 0).

Definition behind_decision : DueDecision :=
  MkDueDecision [moment 60000; moment 120000; moment 180000] (Some (moment 660000)) (Some (moment 600000)).

Lemma missed_runs_bounded_witness :
  due_decision (E := unit) behind_job (moment 610000) 1000 = Ok behind_decision
  /\ first_after (E := unit) (Interval 60000 (moment 0)) (moment 610000) (moment 660000)
  /\ (Z.of_nat (length (due_run behind_decision)) <= 3)%Z.
Proof.
  assert (due_decision (E := unit) behind_job (moment 610000) 1000 = Ok behind_decision) as Hd by (vm_compute; reflexivity).
  split; [exact Hd|].
  destruct (missed_runs_bounded (E := unit) behind_job (moment 610000) 1000 behind_decision (moment 60000)) as (due & H).
  - reflexivity.
  - reflexivity.
  - exists 1%Z. simpl. lia.
  - simpl. lia.
  - unfold is_i64, i64_min, i64_max. simpl. lia.
  - exact Hd.
  - destruct H as (_ & _ & _ & _ & Hrun & Hnext). split; [exact Hnext|exact (proj1 Hrun)].
Defined.

(** ** Codecs *)

#[export] Instance Serial_schedule : Serial ScheduleSpec.
Proof.
  refine (Serial_via (fun x => match x with
    | Once t => (0, ser t)
    | Interval every anchor => (1, ser (every, anchor))
    | Calendar expression zone => (2, ser (expression, zone))
    end%Z)
  (fun p => match p.1 with
    | 0 => Once <$> de_all p.2
    | 1 => '(a, b) ← de_all p.2; Some (Interval a b)
    | 2 => '(a, b) ← de_all p.2; Some (Calendar a b)
    | _ => None
    end%Z) _).
  intros []; cbn [fst snd]; rewrite de_all_ser; reflexivity.
Defined.

#[export] Instance Serial_missed : Serial MissedRunPolicy.
Proof.
  refine (Serial_via (A := option (option Z)) (fun x => match x with
    | Skip => None
    | RunOnce => Some None
    | ReplayBounded n => Some (Some n)
    end) (fun o => match o with
    | None => Some Skip
    | Some None => Some RunOnce
    | Some (Some n) => Some (ReplayBounded n)
    end) _).
  intros []; reflexivity.
Defined.

#[export] Program Instance JobState_enumerated : Enumerated JobState := {|
  variants := [JobActive; JobPaused; JobCompleted; JobFailed; JobCancelled] |}.
Next Obligation. intros []; repeat constructor. Qed.
#[export] Program Instance JobAttemptState_enumerated : Enumerated JobAttemptState := {|
  variants := [Claimed; RetryScheduled; Enqueued; AttemptCompleted; AttemptFailed; AttemptCancelled] |}.
Next Obligation. intros []; repeat constructor. Qed.

#[export] Program Instance Serial_job : Serial ScheduledJob :=
  Serial_via (fun x => (job_version x, job_id x, job_profile_id x, job_session_id x, job_schedule x, job_action x,
                        job_limits x, job_reply_route x, job_missed_run x,
                        (job_state x, job_next_run x, job_last_run x, job_attempt_count x, job_failure_count x,
                         job_safe_error x, job_created_at x, job_updated_at x)))
    (fun t => let '(a, b, c, d, e, f, g, h, i, (j, k, l, m, n, o, p, q)) := t in
              Some (MkScheduledJob a b c d e f g h i j k l m n o p q)) _.
Next Obligation. by intros []. Qed.
#[export] Program Instance Serial_attempt : Serial JobAttempt :=
  Serial_via (fun x => (at_version x, at_job_id x, at_attempt_id x, at_ordinal x, at_scheduled_for x, at_claimed_by x,
                        at_claim_expires x, at_state x, at_action_id x, at_retry_count x, at_retry_at x, at_safe_error x,
                        at_updated_at x))
    (fun t => let '(a, b, c, d, e, f, g, h, i, j, k, l, m) := t in Some (MkJobAttempt a b c d e f g h i j k l m)) _.
Next Obligation. by intros []. Qed.

Definition any_job (x : ScheduledJob) : bool := true.
Definition dispatchable (x : JobAttempt) : bool := canonicalb (as_entity_id (at_action_id x)).

#[export] Instance job_document : Document ScheduledJob := serial_document any_job.
#[export] Instance attempt_document : Document JobAttempt := serial_document dispatchable.

Lemma job_document_codec : job_codec.
Proof. apply serial_document_lawful. Qed.

Lemma attempt_document_codec : attempt_codec.
Proof.
  split; [apply serial_document_lawful|]. intros v x Hx%serial_document_valid. by apply canonicalb_sound.
Qed.

(** ** A run *)

Definition inbox_error (e : ActionStoreError repo_error) : rstr := str "inbox".

(** An inbox that holds one action of a session. *)
Definition narrow_inbox : ActionInboxConfig := MkInboxConfig 1 1.

Abbreviation do_turn inbox := (turn inbox inbox_error nth_id default_scheduler_config).
Abbreviation run inbox := (schedule_run inbox inbox_error nth_id default_scheduler_config).

Definition mail_job : NewScheduledJob :=
  MkNewScheduledJob (MkTypedId (named_id 1)) sample_session (Interval 60000 (moment 60000)) instruction
    default_action_limits None RunOnce.

Definition turn_at (op : schedule_op) (t : Z) : schedule_turn EmbeddedStore := MkTurn op (moment t) [] ∅.

(** Another scheduler that ticks at the same time, on the same store. *)
Definition other_tick (s : EmbeddedStore) : EmbeddedStore :=
  store (do_turn default_inbox_config (turn_at (STick (named_id 71)) 61000) (MkWorld s [] [] 1000)).

Definition both_tick : schedule_turn EmbeddedStore :=
  MkTurn (STick (named_id 70)) (moment 61000) [fun s => s; fun s => s; other_tick] ∅.

Definition mail_id : JobId := MkTypedId (nth_id 0).

Definition replay_two : JobUpdate := MkJobUpdate None None None None (Some (ReplayBounded 2)).

(** Two schedulers claim the same run, the job is paused and resumed and falls
    behind, and is deleted in the end. *)
Definition mail_turns : list (schedule_turn EmbeddedStore) :=
  [turn_at (SCreate mail_job) 1000; both_tick; turn_at (SFinish (nth_id 1000) true None) 62000;
   turn_at (SPause mail_id) 63000; turn_at (STick (named_id 70)) 121000; turn_at (SUpdate mail_id replay_two) 200000;
   turn_at (SResume mail_id) 300000; turn_at (STick (named_id 70)) 301000].
Definition delete_mail : schedule_turn EmbeddedStore :=
  MkTurn (SDelete mail_id) (moment 302000) [] {[nth_id 0]}.

Definition job_states (w : SampleWorld) : list (JobState * option UtcTimestamp) :=
  match (load_jobs w).1 with Ok xs => (fun x => (job_state (item x), job_next_run (item x))) <$> xs | Err _ => [] end.
Definition attempt_states (w : SampleWorld) : list (UtcTimestamp * JobAttemptState) :=
  match (load_attempts w).1 with Ok xs => (fun x => (at_scheduled_for (item x), at_state (item x))) <$> xs | Err _ => [] end.

Lemma default_bounds : (0 < claim_ttl_ms default_scheduler_config /\ 0 < retry_backoff_ms default_scheduler_config)%Z.
Proof. simpl. lia. Qed.

Lemma empty_schedules_sound : sound default_scheduler_config ∅.
Proof.
  split; [apply empty_all_items|]. split; [apply empty_all_items|].
  split; intros a Ha; by destruct (empty_holds _ _ _ _ _ a Ha).
Qed.

Lemma other_tick_relies : relies (shared_schedules default_scheduler_config (deleted both_tick)) other_tick.
Proof.
  intros s recs Hv. unfold other_tick.
  destruct (turn_keeps default_inbox_config inbox_error nth_id default_scheduler_config action_document_codec
    job_document_codec attempt_document_codec nth_id_canonical default_bounds
    (turn_at (STick (named_id 71)) 61000) (MkWorld s [] [] 1000) recs) as (recs' & Hv' & Hf).
  - split; [apply moment_i64; lia|]. split; [constructor|done].
  - done.
  - exists recs'. split; [exact Hv'|exact Hf].
Qed.

Lemma same_relies G : relies G (fun s : EmbeddedStore => s).
Proof. intros s recs Hv. exists recs. split; [done|reflexivity]. Qed.

Lemma plain_turn_ok op t (w : SampleWorld) :
  (0 <= t < 2 ^ 62)%Z ->
  match op with SDelete _ => False | SInbox op => well_typed (op, moment t) | _ => True end ->
  turn_ok nth_id default_scheduler_config (turn_at op t) w.
Proof.
  intros Ht Hop. split; [by apply moment_i64|]. split; [constructor|]. simpl. destruct op; try done; set_solver.
Qed.

Lemma both_tick_ok (w : SampleWorld) : turn_ok nth_id default_scheduler_config both_tick w.
Proof.
  split; [apply moment_i64; lia|]. split; [|done].
  repeat (apply Forall_cons; split; [first [apply same_relies|apply other_tick_relies]|]). constructor.
Qed.

Lemma delete_mail_ok (w : SampleWorld) : turn_ok nth_id default_scheduler_config delete_mail w.
Proof. split; [apply moment_i64; lia|]. split; [constructor|]. by apply elem_of_singleton. Qed.

Lemma turns_ok_all inbox ts (w : SampleWorld) :
  Forall (fun t => forall w, turn_ok nth_id default_scheduler_config t w) ts ->
  turns_ok inbox inbox_error nth_id default_scheduler_config ts w.
Proof. intros Hts. revert w. induction Hts as [|t ts Ht _ IH]; intros w; [done|]. split; [apply Ht|apply IH]. Qed.

Lemma mail_turns_ok w : turns_ok default_inbox_config inbox_error nth_id default_scheduler_config (mail_turns ++ [delete_mail]) w.
Proof.
  apply turns_ok_all. repeat (apply Forall_cons; split; [intros w'|]); try apply both_tick_ok; try apply delete_mail_ok;
    try (by apply plain_turn_ok; [lia|]). constructor.
Qed.

(** ** Instances *)

Lemma schedules_sound_witness :
  attempt_states (run default_inbox_config mail_turns fresh_world)
    = [(moment 120000, Enqueued); (moment 180000, Enqueued); (moment 60000, AttemptCompleted)]
  /\ job_states (run default_inbox_config mail_turns fresh_world) = [(JobActive, Some (moment 360000))]
  /\ job_states (run default_inbox_config (mail_turns ++ [delete_mail]) fresh_world) = []
  /\ exists recs', repo_view (store (run default_inbox_config (mail_turns ++ [delete_mail]) fresh_world)) recs'
    /\ sound default_scheduler_config recs'.
Proof.
  do 3 (split; [vm_compute; reflexivity|]).
  destruct (schedules_sound default_inbox_config inbox_error nth_id default_scheduler_config action_document_codec
    job_document_codec attempt_document_codec nth_id_canonical default_bounds (mail_turns ++ [delete_mail]) fresh_world ∅
    ltac:(simpl; lia) (proj1 (fresh_sees shared_inbox)) (mail_turns_ok fresh_world) empty_schedules_sound) as (recs' & Hv & Hs & _).
  exists recs'. exact (conj Hv Hs).
Defined.

(** The inbox refuses the first attempt, which is to be retried. *)
Definition refused_turns : list (schedule_turn EmbeddedStore) :=
  [turn_at (SInbox (ISubmit user_prompt)) 500; turn_at (SCreate mail_job) 1000; turn_at (STick (named_id 70)) 61000].
Definition refused : SampleWorld := run narrow_inbox refused_turns fresh_world.

Lemma refused_sees G : exists recs, sees G refused recs /\ backed default_scheduler_config recs.
Proof.
  destruct (schedule_run_follows narrow_inbox inbox_error nth_id default_scheduler_config action_document_codec
    job_document_codec attempt_document_codec nth_id_canonical default_bounds refused_turns fresh_world ∅)
    as (recs & Hv & (_ & _ & Hb) & _).
  - simpl. lia.
  - exact (proj1 (fresh_sees shared_inbox)).
  - apply turns_ok_all. repeat (apply Forall_cons; split; [intros w'|]); [..|constructor];
      (apply plain_turn_ok; [lia|]); try done. split; [apply moment_i64; lia|]. apply named_id_canonical. lia.
  - apply empty_schedules_sound.
  - exists recs. split; [|done]. split; [exact Hv|].
    assert (length (others refused) = 0) as Ho by (vm_compute; reflexivity). destruct (others refused); [constructor|done].
Qed.

Abbreviation retried_tick :=
  (tick (HK := scheduled_inbox_sink default_inbox_config inbox_error) nth_id default_scheduler_config (named_id 70)
     (moment 70000) refused).

Lemma tick_settles_witness :
  attempt_states refused = [(moment 60000, RetryScheduled)]
  /\ attempt_states retried_tick.2 = [(moment 60000, Enqueued)]
  /\ exists recs', sees (calm_schedules default_scheduler_config (fun _ => False) (moment 70000)) retried_tick.2 recs'
    /\ forall x, holds JobAttempts decode_attempt at_attempt_id attempt_init (attempt_step default_scheduler_config) recs' x ->
         attempt_due (moment 70000) (item x) = false.
Proof.
  do 2 (split; [vm_compute; reflexivity|]).
  destruct (refused_sees (calm_schedules default_scheduler_config (fun _ => False) (moment 70000))) as (recs & Hs & Hb).
  destruct (ok_pair retried_tick) as [xs Hr]; [vm_compute; reflexivity|].
  destruct (tick_settles default_inbox_config inbox_error nth_id default_scheduler_config action_document_codec
    job_document_codec attempt_document_codec nth_id_canonical default_bounds (fun _ => False) (moment 70000) (named_id 70)
    refused recs xs retried_tick.2 Hs ltac:(apply moment_i64; lia) Hb Hr) as (recs' & Hs' & _ & Hd).
  exists recs'. exact (conj Hs' Hd).
Defined.

Abbreviation deletion := (delete_job mail_id (moment 62000) refused).

Lemma delete_job_complete_witness :
  job_states refused = [(JobActive, Some (moment 120000))] /\ job_states deletion.2 = []
  /\ attempt_states deletion.2 = [(moment 60000, AttemptCancelled)]
  /\ exists recs', sees (shared_schedules default_scheduler_config (eq (nth_id 0))) deletion.2 recs'
    /\ recs' !! (ScheduledJobs, nth_id 0) = None.
Proof.
  do 3 (split; [vm_compute; reflexivity|]).
  destruct (refused_sees (shared_schedules default_scheduler_config (eq (nth_id 0)))) as (recs & Hs & Hb).
  assert (deletion = (Ok tt, deletion.2)) as Hd.
  { destruct (ok_pair deletion) as [[] Hr]; [vm_compute; reflexivity|exact Hr]. }
  destruct (delete_job_complete default_scheduler_config attempt_document_codec (eq (nth_id 0))
    (moment 62000) mail_id refused recs deletion.2 Hs ltac:(apply moment_i64; lia) eq_refl Hb Hd) as (recs' & Hs' & _ & Hn & _).
  exists recs'. exact (conj Hs' Hn).
Defined.

(** A job with an interval of [2^63] milliseconds, created before the other one. *)
Definition endless_job : NewScheduledJob :=
  MkNewScheduledJob (MkTypedId (named_id 1)) sample_session (Interval (2 ^ 63) (moment 2000)) instruction
    default_action_limits None RunOnce.
Definition stalled : SampleWorld :=
  run default_inbox_config [turn_at (SCreate endless_job) 1000; turn_at (SCreate mail_job) 1000] fresh_world.

Abbreviation mail_due_tick :=
  (tick (HK := scheduled_inbox_sink default_inbox_config inbox_error) nth_id default_scheduler_config (named_id 70)
     (moment 61000) stalled).

Abbreviation stalled_retry :=
  (retry_due (HK := scheduled_inbox_sink default_inbox_config inbox_error) default_scheduler_config (moment 61000) None stalled).
Abbreviation stalled_jobs := (load_jobs stalled_retry.2).

Definition empty_ok {E A} (r : result E (list A)) : bool := match r with Ok [] => true | _ => false end.
Definition first_schedule {E} (r : result E (list (Stored ScheduledJob))) : option ScheduleSpec :=
  match r with
  | Ok xs => match List.filter (job_due (moment 61000) None) xs with
             | x :: _ => Some (job_schedule (item x))
             | [] => None
             end
  | Err _ => None
  end.

Lemma oversized_interval_stalls_witness :
  job_states stalled = [(JobActive, Some (moment 2000)); (JobActive, Some (moment 60000))]
  /\ mail_due_tick = (Err SeTimeOverflow, stalled_jobs.2) /\ attempt_states mail_due_tick.2 = [].
Proof.
  split; [vm_compute; reflexivity|].
  assert (stalled_retry = (Ok [], stalled_retry.2)) as Hr.
  { assert (empty_ok stalled_retry.1 = true) as H1 by (vm_compute; reflexivity).
    destruct stalled_retry as [[[|x xs]|e] w]; [reflexivity|discriminate H1..]. }
  destruct (ok_pair stalled_jobs) as [listed Hl]; [vm_compute; reflexivity|].
  assert (first_schedule stalled_jobs.1 = Some (Interval (2 ^ 63) (moment 2000))) as Hm by (vm_compute; reflexivity).
  rewrite Hl in Hm. cbn [fst first_schedule] in Hm.
  destruct (List.filter (job_due (moment 61000) None) listed) as [|stored rest] eqn:Hf; [discriminate Hm|].
  injection Hm as Hs.
  destruct (oversized_interval_stalls default_inbox_config inbox_error nth_id default_scheduler_config (2 ^ 63) (moment 2000)
    (moment 1000) (named_id 70) (moment 61000) None [] stored listed rest stalled stalled_retry.2 stalled_jobs.2)
    as (_ & _ & Hstall); [unfold i64_max; lia|].
  split.
  - apply Hstall; [exact Hs| |exact Hr|exact Hl|exact Hf|simpl; lia].
    replace (poisoned_locks stalled) with (@nil Collection) by (vm_compute; reflexivity). apply not_elem_of_nil.
  - vm_compute. reflexivity.
Defined.
