(* ===== verification/FileSystem.v ===== *)
(** * The file system as the services use it

    The calls of [std::fs] that [crates/session], [crates/cua] and
    [crates/attention] make, and
    [replace_file] of [crates/platform/src/lib.rs], over a map from paths to
    entries.  A path is its list of components.  Every call may fail: a script
    says, call by call, which ones do and what a failed write leaves behind.
    The map is what running processes see; what a power failure does to data
    that was not synchronised is not modelled, so [sync_all] only succeeds or
    fails.  Parent directories are taken to exist where a file is created. *)

From Stdlib Require Import ZArith Lia String.
From stdpp Require Import base decidable countable gmap sorting option list.
From S2P Require Import Prelude RustStd.

Abbreviation Path := (list rstr).

Inductive Entry :=
| EFile (bytes : list Z)
| EDir
| ESymlink.

#[export] Instance Entry_eq_dec : EqDecision Entry.
Proof. solve_decision. Defined.

Inductive IoError := IoNotFound | IoOther.

(** The outcome of one call; [leaves] is what a failed one leaves in the file it
    was writing. *)
Inductive IoOutcome :=
| IoDone
| IoFails (leaves : option (list Z)).

Record Fs := MkFs {
  entries : gmap Path Entry;
  script : list IoOutcome
}.

Abbreviation fs_m := (stateT Fs IoError).

(** One call: [act] when it is done, [failed] when the script makes it fail. *)
Definition io {A : Type} (act : gmap Path Entry -> result IoError A * gmap Path Entry)
    (failed : option (list Z) -> gmap Path Entry -> gmap Path Entry) : fs_m A :=
  fun fs =>
    match script fs with
    | IoFails leaves :: rest => (Err IoOther, MkFs (failed leaves (entries fs)) rest)
    | _ => let '(r, es) := act (entries fs) in (r, MkFs es (tail (script fs)))
    end.

Definition unchanged (_ : option (list Z)) (es : gmap Path Entry) : gmap Path Entry := es.

Definition path_join (dir : Path) (name : rstr) : Path := dir ++ [name].

Definition fs_read (p : Path) : fs_m (list Z) :=
  io (fun es => (match es !! p with
                 | Some (EFile bytes) => Ok bytes
                 | Some _ => Err IoOther
                 | None => Err IoNotFound
                 end, es)) unchanged.

(** [fs::write], and [File::create] with [write_all]. *)
Definition fs_write (p : Path) (bytes : list Z) : fs_m unit :=
  io (fun es => match es !! p with
                | Some EDir => (Err IoOther, es)
                | _ => (Ok tt, <[p := EFile bytes]> es)
                end)
     (fun leaves es => match leaves with Some b => <[p := EFile b]> es | None => es end).

(** [File::open(p)] and [sync_all]. *)
Definition fs_sync (p : Path) : fs_m unit :=
  io (fun es => (match es !! p with Some _ => Ok tt | None => Err IoNotFound end, es)) unchanged.

(** [fs::rename] of a file. *)
Definition fs_rename (from to : Path) : fs_m unit :=
  io (fun es => match es !! from, es !! to with
                | Some _, Some EDir => (Err IoOther, es)
                | Some e, _ => (Ok tt, <[to := e]> (delete from es))
                | None, _ => (Err IoNotFound, es)
                end) unchanged.

(** [replace_file]: a failed [persist] removes the temporary file, a failed
    [try_from_path] keeps it. *)
Definition replace_file (temporary destination : Path) : fs_m unit :=
  io (fun es => match es !! temporary, es !! destination with
                | Some _, Some EDir => (Err IoOther, delete temporary es)
                | Some e, _ => (Ok tt, <[destination := e]> (delete temporary es))
                | None, _ => (Err IoNotFound, es)
                end)
     (fun leaves es => match leaves with Some _ => es | None => delete temporary es end).

Definition fs_remove_file (p : Path) : fs_m unit :=
  io (fun es => match es !! p with
                | Some EDir => (Err IoOther, es)
                | Some _ => (Ok tt, delete p es)
                | None => (Err IoNotFound, es)
                end) unchanged.

Definition fs_create_dir_all (p : Path) : fs_m unit :=
  io (fun es => match es !! p with
                | None => (Ok tt, <[p := EDir]> es)
                | Some EDir => (Ok tt, es)
                | Some _ => (Err IoOther, es)
                end) unchanged.

Definition fs_symlink_metadata (p : Path) : fs_m Entry :=
  io (fun es => (ok_or (es !! p) IoNotFound, es)) unchanged.

(** [fs::canonicalize]: the paths of the model are canonical. *)
Definition fs_canonicalize (p : Path) : fs_m Path :=
  io (fun es => (match es !! p with Some _ => Ok p | None => Err IoNotFound end, es)) unchanged.

(** [Path::exists], which takes every error for an absent file. *)
Definition fs_exists (p : Path) : fs_m bool :=
  fun fs => let '(r, fs) := fs_symlink_metadata p fs in (Ok (is_ok r), fs).

(** The names of the entries of a directory, in some order. *)
Definition fs_read_dir (p : Path) : fs_m (list rstr) :=
  io (fun es => (Ok (omap (fun q => name ← last q; if bool_decide (q = path_join p name) then Some name else None)
                       (map_to_list es).*1), es)) unchanged.

(** The next directory entry, which may fail to be read. *)
Definition fs_next_entry : fs_m unit := io (fun es => (Ok tt, es)) unchanged.

(** [Path::with_extension] on a file name: the part after the last dot is
    replaced, unless the name has no dot or only a leading one. *)
Fixpoint file_stem (name : rstr) : option rstr :=
  match name with
  | [] => None
  | c :: rest =>
      match file_stem rest with
      | Some stem => Some (c :: stem)
      | None => if (c =? 46)%Z then Some [] else None
      end
  end.

Definition with_extension (name extension : rstr) : rstr :=
  match file_stem name with
  | Some (c :: stem) => c :: stem ++ str "." ++ extension
  | _ => name ++ str "." ++ extension
  end.

(** ** What a call does to the entries *)

(** Triples over the entries, whatever the script is. *)
Abbreviation io_spec P m Q F :=
  (triple (fun fs => P (entries fs)) m (fun a fs => Q a (entries fs)) (fun fs => F (entries fs))).

Lemma io_spec_io {A : Type} (P : gmap Path Entry -> Prop)
    (act : gmap Path Entry -> result IoError A * gmap Path Entry)
    (failed : option (list Z) -> gmap Path Entry -> gmap Path Entry)
    (Q : A -> gmap Path Entry -> Prop) (F : gmap Path Entry -> Prop) :
  (forall es, P es -> match act es with (Ok a, es') => Q a es' | (Err _, es') => F es' end) ->
  (forall leaves es, P es -> F (failed leaves es)) ->
  io_spec P (io act failed) Q F.
Proof.
  intros Hact Hfail fs r fs' HP Hm. unfold io in Hm. specialize (Hact _ HP).
  destruct (script fs) as [|[|leaves] rest]; [..|injection Hm as <- <-; by apply Hfail];
    destruct (act (entries fs)) as [[a|e] es]; injection Hm as <- <-; done.
Qed.

(** One call, failed by the script or done. *)
Lemma io_cases {A : Type} (act : gmap Path Entry -> result IoError A * gmap Path Entry) failed fs r fs' :
  io act failed fs = (r, fs') ->
  script fs' = tail (script fs)
  /\ ((exists leaves, head (script fs) = Some (IoFails leaves) /\ r = Err IoOther /\ entries fs' = failed leaves (entries fs))
      \/ (forall leaves, head (script fs) <> Some (IoFails leaves)) /\ act (entries fs) = (r, entries fs')).
Proof.
  unfold io. destruct (script fs) as [|[|leaves] rest] eqn:Es.
  - destruct (act (entries fs)) as [r0 es]. intros [= <- <-]. split; [done|]. by right.
  - destruct (act (entries fs)) as [r0 es]. intros [= <- <-]. split; [done|]. by right.
  - intros [= <- <-]. split; [done|]. left. by exists leaves.
Qed.

Lemma file_stem_app name ext : Forall (fun c => c <> 46)%Z ext -> file_stem (name ++ str "." ++ ext) = Some name.
Proof.
  intros Hext. change (str ".") with [46%Z].
  induction name as [|c name IH]; simpl in *; [|by rewrite IH].
  assert (file_stem ext = None) as ->; [|done].
  induction Hext as [|c ext Hc _ IH]; simpl; [done|]. rewrite IH. by apply Z.eqb_neq in Hc as ->.
Qed.

Lemma with_extension_suffix name ext : exists p, with_extension name ext = p ++ ext.
Proof.
  unfold with_extension. destruct (file_stem name) as [[|c stem]|]; eexists; rewrite ?app_comm_cons, app_assoc; done.
Qed.
