(* ===== verification/Attention.v ===== *)
(** * Attention: [crates/attention/src/lib.rs] and [crates/initiative/src/lib.rs]

    Initiative candidates, what the agent could do of its own accord, with their
    checks and their base score; and what becomes of a candidate: the policy of
    scores, quiet hours, budgets and duplicates, the bounded history of decisions
    in a file, and the bounded work that is queued with the action inbox.  The
    serialized form of the history and the calendar of [chrono] are parameters. *)

From Stdlib Require Import ZArith Lia String.
From stdpp Require Import base decidable countable gmap sorting option list.
From S2P Require Import Prelude RustStd RustText AgentTypes Json StateStoreCore ItemStore ActionStore.
From S2P Require Import Schedules FileSystem.

(** ** Initiative candidates *)

Record InitiativeSignals := MkSignals {
  urgency : Z;
  expected_value : Z;
  confidence : Z;
  interruption_cost : Z;
  resource_cost : Z;
  duplication_penalty : Z
}.

Record InitiativeCandidate := MkCandidate {
  cand_id : EntityId;
  cand_event_id : EntityId;
  cand_profile_id : ProfileId;
  cand_session_id : SessionId;
  cand_channel : rstr;
  cand_topic : rstr;
  cand_proposed_action : rstr;
  cand_signals : InitiativeSignals;
  cand_created_at : UtcTimestamp;
  cand_expires_at : UtcTimestamp
}.

Inductive CandidateError := CandidateEmpty | CandidateSignalRange | CandidateExpiry.

Definition signal_list (s : InitiativeSignals) : list Z :=
  [urgency s; expected_value s; confidence s; interruption_cost s; resource_cost s; duplication_penalty s].

Definition candidate_validate (c : InitiativeCandidate) : result CandidateError unit :=
  reject_if (str_blank (cand_channel c) || str_blank (cand_topic c) || str_blank (cand_proposed_action c))%bool
    CandidateEmpty ;;
  reject_if (existsb (fun signal => 1000 <? signal)%Z (signal_list (cand_signals c))) CandidateSignalRange ;;
  reject_if (rleb (cand_expires_at c) (cand_created_at c)) CandidateExpiry.

Definition base_score (c : InitiativeCandidate) : Z :=
  let s := cand_signals c in
  let score := i64_saturating_mul (urgency s) 3 in
  let score := i64_saturating_add score (i64_saturating_mul (expected_value s) 3) in
  let score := i64_saturating_add score (i64_saturating_mul (confidence s) 2) in
  let score := i64_saturating_sub score (i64_saturating_mul (interruption_cost s) 2) in
  let score := i64_saturating_sub score (resource_cost s) in
  let score := i64_saturating_sub score (i64_saturating_mul (duplication_penalty s) 2) in
  Z.quot score 8.

(** The signals are values of [u16]. *)
Definition typed_signals (c : InitiativeCandidate) : Prop := Forall is_u16 (signal_list (cand_signals c)).

(** The weighted sum of the signals. *)
Definition weighted (s : InitiativeSignals) : Z :=
  3 * urgency s + 3 * expected_value s + 2 * confidence s
  - 2 * interruption_cost s - resource_cost s - 2 * duplication_penalty s.

(** Nothing saturates: the score is an eighth of the weighted sum. *)
Lemma base_score_exact c : typed_signals c -> base_score c = Z.quot (weighted (cand_signals c)) 8.
Proof.
  unfold typed_signals, signal_list, is_u16, u16_max. rewrite !Forall_cons. intros (H1 & H2 & H3 & H4 & H5 & H6 & _).
  unfold base_score, weighted, i64_saturating_mul, i64_saturating_add, i64_saturating_sub.
  assert (forall z, (-400000 <= z <= 600000)%Z -> i64_clamp z = z) as Hin.
  { intros z Hz. apply i64_clamp_in. unfold is_i64, i64_min, i64_max. lia. }
  destruct (cand_signals c) as [u e k i r d]. simpl in *. rewrite !(Hin (_ * _)%Z) by lia.
  rewrite (Hin (u * 3 + e * 3)%Z) by lia. rewrite (Hin (u * 3 + e * 3 + k * 2)%Z) by lia.
  rewrite (Hin (u * 3 + e * 3 + k * 2 - i * 2)%Z) by lia. rewrite (Hin (u * 3 + e * 3 + k * 2 - i * 2 - r)%Z) by lia.
  rewrite (Hin (u * 3 + e * 3 + k * 2 - i * 2 - r - d * 2)%Z) by lia. f_equal. lia.
Qed.

Lemma candidate_validate_Ok c :
  candidate_validate c = Ok tt <->
  str_blank (cand_channel c) = false /\ str_blank (cand_topic c) = false /\ str_blank (cand_proposed_action c) = false
  /\ Forall (fun s => s <= 1000)%Z (signal_list (cand_signals c))
  /\ (unix_millis (cand_created_at c) < unix_millis (cand_expires_at c))%Z.
Proof.
  unfold candidate_validate. rewrite !reject_if_bind, reject_if_ok, !orb_false_iff, <- !not_true_iff_false.
  rewrite existsb_exists, rleb_millis, list.Forall_forall. setoid_rewrite <- list_elem_of_In. split.
  - intros (((H1 & H2) & H3) & H4 & H5). split_and!; try done; [|lia].
    intros x Hx. destruct (Z.leb_spec x 1000); [done|]. destruct H4. exists x. split; [done|]. lia.
  - intros (H1 & H2 & H3 & H4 & H5). split_and!; try done; [|lia]. intros (x & Hx & Hlt). specialize (H4 x Hx). lia.
Qed.

(** A candidate that passes the checks scores between -625 and 1000. *)
Lemma base_score_bounds c :
  typed_signals c -> candidate_validate c = Ok tt -> (-625 <= base_score c <= 1000)%Z.
Proof.
  intros Ht (_ & _ & _ & Hs & _)%candidate_validate_Ok. rewrite base_score_exact by done.
  unfold typed_signals, signal_list, is_u16 in *. rewrite !Forall_cons in Ht, Hs. unfold weighted.
  destruct_and!. split; [apply Z.quot_le_lower_bound|apply Z.quot_le_upper_bound]; lia.
Qed.

(** ** Attention *)

(** ** Data *)

Definition LEDGER_FILE : rstr := str "attention.json".

Inductive AutonomyMode := AutonomyDisabled | RememberOnly | Suggest | Bounded.

Inductive Workload := WorkIdle | WorkBackground | WorkInteractive | WorkSaturated.

Inductive AttentionDecision := Ignore | Remember | Batch | Schedule | Ask | StartBoundedWork | Notify.

#[export] Instance AutonomyMode_eq_dec : EqDecision AutonomyMode.
Proof. solve_decision. Defined.
#[export] Instance AttentionDecision_eq_dec : EqDecision AttentionDecision.
Proof. solve_decision. Defined.

Record QuietHours := MkQuietHours { quiet_time_zone : rstr; start_minute : Z; end_minute : Z }.

Record AttentionConfig := MkAttentionConfig {
  quiet_hours : option QuietHours;
  duplicate_window_ms : Z;
  notification_budgets : gmap rstr Z;
  user_priorities : gmap rstr Z;
  max_candidates : Z;
  max_history : Z;
  attention_limits : ActionLimits
}.

Definition default_attention_config : AttentionConfig :=
  MkAttentionConfig None (24 * 60 * 60 * 1000) ∅ ∅ 256 512
    (MkActionLimits (Some 1) (Some 8000) (Some (5 * 60 * 1000)) (Some 8) (Some 0))%Z.

Record DecisionRecord := MkDecision {
  dec_candidate_id : EntityId;
  dec_event_id : EntityId;
  dec_decision : AttentionDecision;
  dec_score : Z;
  dec_reasons : list rstr;
  dec_decided_at : UtcTimestamp
}.

Record AttentionLedger := MkLedger {
  led_profile_id : ProfileId;
  led_candidates : list InitiativeCandidate;
  led_decisions : list DecisionRecord;
  led_counts : gmap rstr Z
}.

Inductive AttentionError :=
| AtCandidate (error : CandidateError)
| AtInvalidConfiguration
| AtProfileMismatch
| AtAction (message : rstr)
| AtIo (error : IoError)
| AtJson (error : JsonError).

(** [serde_json] on [AttentionLedger]: what is written is read back, and what is
    read are values of the Rust types. *)
Class LedgerCodec : Type := {
  ledger_to_vec : AttentionLedger -> result JsonError (list Z);
  ledger_from_slice : list Z -> result JsonError AttentionLedger;
  ledger_from_to : forall x bytes, ledger_to_vec x = Ok bytes -> ledger_from_slice bytes = Ok x;
  ledger_counts_typed : forall x bytes key n,
    ledger_from_slice bytes = Ok x -> led_counts x !! key = Some n -> is_u32 n
}.

(** ** The policy *)

(** [format!("{decision:?}")]. *)
Definition decision_debug (d : AttentionDecision) : rstr :=
  match d with
  | Ignore => str "Ignore"
  | Remember => str "Remember"
  | Batch => str "Batch"
  | Schedule => str "Schedule"
  | Ask => str "Ask"
  | StartBoundedWork => str "StartBoundedWork"
  | Notify => str "Notify"
  end.

Definition score_decision (score : Z) (autonomy : AutonomyMode) : AttentionDecision :=
  if ((740 <=? score) && (score <=? 849))%Z && bool_decide (autonomy = Bounded) then StartBoundedWork
  else if (score <=? 199)%Z then Ignore
  else if (score <=? 349)%Z then Remember
  else if (score <=? 499)%Z then Batch
  else if (score <=? 619)%Z then Schedule
  else if (score <=? 849)%Z then Ask
  else Notify.

Definition action_for (c : InitiativeCandidate) (limits : ActionLimits) : SessionAction :=
  MkAction (MkTypedId (cand_id c)) (cand_session_id c) (FromAwareness (cand_event_id c)) WhenIdle PriorityBackground
    (cand_created_at c) None (Some (cand_expires_at c)) limits None (PayAwareness (cand_event_id c) (cand_proposed_action c)).

(** [items.drain(..items.len() - maximum)] when there are more. *)
Definition bound {A} (items : list A) (maximum : Z) : list A :=
  if (maximum <? Z.of_nat (length items))%Z then drop (length items - Z.to_nat maximum) items else items.

Section policy.
Context `{HC : Chrono}.

Definition validate_quiet (quiet : QuietHours) : result AttentionError Tz :=
  reject_if ((24 * 60 <=? start_minute quiet) || (24 * 60 <=? end_minute quiet))%Z%bool AtInvalidConfiguration ;;
  ok_or (Tz_from_str (quiet_time_zone quiet)) AtInvalidConfiguration.

Definition validate_config (config : AttentionConfig) : result AttentionError (option Tz) :=
  let limits := attention_limits config in
  reject_if ((duplicate_window_ms config <? 0)%Z || (max_candidates config =? 0)%Z || (max_history config =? 0)%Z
             || negb (bool_decide (is_Some (max_turns limits))) || negb (bool_decide (is_Some (max_tokens limits)))
             || negb (bool_decide (is_Some (max_elapsed_ms limits)))
             || negb (bool_decide (is_Some (max_tool_calls limits)))
             || negb (bool_decide (is_Some (max_children limits))))%bool
    AtInvalidConfiguration ;;
  match quiet_hours config with
  | None => Ok None
  | Some quiet => zone ← validate_quiet quiet; Ok (Some zone)
  end.

(** [format!("{:04}-{:02}-{:02}", ...)]. *)
Definition date_text (date : DateTime) : rstr :=
  pad_zeros 4 (dt_year date) ++ str "-" ++ pad_zeros 2 (dt_month date) ++ str "-" ++ pad_zeros 2 (dt_day date).

Definition budget_key (channel : rstr) (now : UtcTimestamp) (zone : option Tz) : rstr :=
  let date := (fun utc => date_text (match zone with Some zone => with_timezone zone utc | None => utc end))
                <$> timestamp_millis_opt (unix_millis now) in
  channel ++ str ":" ++ default (str "invalid") date.

(** The minute of the local day. *)
Definition local_minute (zone : Tz) (utc : DateTime) : Z :=
  let local := with_timezone zone utc in
  default u16_max (u16_try_from (dt_hour local * 60 + dt_minute local)).

(** The comparison of [is_quiet]. *)
Definition minute_quiet (quiet : QuietHours) (minute : Z) : bool :=
  if (start_minute quiet <=? end_minute quiet)%Z
  then ((start_minute quiet <=? minute) && (minute <? end_minute quiet))%Z
  else ((start_minute quiet <=? minute) || (minute <? end_minute quiet))%Z%bool.

Record AttentionService := MkAttention {
  sv_root : Path;
  sv_profile_id : ProfileId;
  sv_config : AttentionConfig;
  sv_quiet_zone : option Tz;
  sv_ledger : AttentionLedger
}.

Definition with_ledger (self : AttentionService) (ledger : AttentionLedger) : AttentionService :=
  MkAttention (sv_root self) (sv_profile_id self) (sv_config self) (sv_quiet_zone self) ledger.

Definition is_quiet (self : AttentionService) (now : UtcTimestamp) : bool :=
  match quiet_hours (sv_config self), sv_quiet_zone self, timestamp_millis_opt (unix_millis now) with
  | Some quiet, Some zone, Some utc => minute_quiet quiet (local_minute zone utc)
  | _, _, _ => false
  end.

Definition budget_exhausted (self : AttentionService) (channel : rstr) (now : UtcTimestamp) : bool :=
  match notification_budgets (sv_config self) !! channel with
  | None => false
  | Some limit =>
      (limit <=? default 0 (led_counts (sv_ledger self) !! budget_key channel now (sv_quiet_zone self)))%Z
  end.

(** Whether the candidate repeats a recent one. *)
Definition is_duplicate (self : AttentionService) (c : InitiativeCandidate) (now : UtcTimestamp) : bool :=
  existsb (fun previous =>
    let elapsed := i64_saturating_sub (unix_millis now) (unix_millis (cand_created_at previous)) in
    bool_decide (cand_topic previous = cand_topic c)
    && bool_decide (cand_proposed_action previous = cand_proposed_action c)
    && (0 <=? elapsed)%Z && (elapsed <=? duplicate_window_ms (sv_config self))%Z)
    (led_candidates (sv_ledger self)).

(** The decision of [evaluate_one], with the reasons that it adds. *)
Definition decide_candidate (self : AttentionService) (c : InitiativeCandidate) (autonomy : AutonomyMode)
    (workload : Workload) (now : UtcTimestamp) (duplicate : bool) (score : Z) : AttentionDecision * list rstr :=
  let urgent := urgency (cand_signals c) in
  if rleb (cand_expires_at c) now then (Ignore, [str "candidate expired"])
  else if bool_decide (autonomy = AutonomyDisabled) then (Remember, [str "autonomy disabled"])
  else if duplicate && (urgent <? 950)%Z then (Ignore, [str "duplicate suppressed"])
  else if is_quiet self now && (urgent <? 950)%Z then (Batch, [str "quiet hours"])
  else if budget_exhausted self (cand_channel c) now && (urgent <? 975)%Z
       then (Batch, [str "daily channel budget exhausted"])
  else if match workload with WorkInteractive | WorkSaturated => true | _ => false end && (urgent <? 950)%Z
       then (Remember, [str "interactive workload protected"])
  else (score_decision score autonomy, []).

(** The record of a new candidate. *)
Definition judged (self : AttentionService) (c : InitiativeCandidate) (autonomy : AutonomyMode) (workload : Workload)
    (now : UtcTimestamp) : DecisionRecord :=
  let duplicate := is_duplicate self c now in
  let priority := default 0%Z (user_priorities (sv_config self) !! cand_topic c) in
  let score := i64_saturating_add (base_score c) priority in
  let score := if duplicate then i64_saturating_sub score 500 else score in
  let reasons := [str "base score " ++ i64_to_string (base_score c)]
                 ++ (if (priority =? 0)%Z then [] else [str "user priority " ++ i64_to_signed priority])
                 ++ (if duplicate then [str "recent duplicate penalty"] else []) in
  let '(decision, because) := decide_candidate self c autonomy workload now duplicate score in
  MkDecision (cand_id c) (cand_event_id c) decision score
    (reasons ++ because ++ [str "decision " ++ decision_debug decision]) now.

(** A decision that counts against the budget of its channel. *)
Definition notifies (d : AttentionDecision) : bool := match d with Ask | Notify => true | _ => false end.

(** The ledger with the decision. *)
Definition recorded (self : AttentionService) (c : InitiativeCandidate) (record : DecisionRecord) (now : UtcTimestamp)
  : AttentionLedger :=
  let ledger := sv_ledger self in
  let key := budget_key (cand_channel c) now (sv_quiet_zone self) in
  let counts := if notifies (dec_decision record)
                then <[key := u32_saturating_add (default 0%Z (led_counts ledger !! key)) 1]> (led_counts ledger)
                else led_counts ledger in
  MkLedger (led_profile_id ledger) (bound (led_candidates ledger ++ [c]) (max_candidates (sv_config self)))
    (bound (led_decisions ledger ++ [record]) (max_history (sv_config self))) counts.
End policy.

(** ** The service *)

(** The files and the repository of the inbox. *)
Record AttentionWorld (S : Type) := MkAttentionWorld { aw_files : Fs; aw_inbox : World S }.
Global Arguments MkAttentionWorld {S}.
Global Arguments aw_files {S}.
Global Arguments aw_inbox {S}.

Section service.
Context {S : Type} `{HR : Repository S, HD : Document ActionRecord, HC : Chrono, HL : LedgerCodec}.
Context (inbox : ActionInboxConfig) (error_to_string : ActionStoreError repo_error -> rstr).

Abbreviation world_m := (stateT (AttentionWorld S) AttentionError).

(** The service and its world. *)
Record Attending := MkAttending { at_self : AttentionService; at_world : AttentionWorld S }.

Abbreviation attention_m := (stateT Attending AttentionError).

Definition try_file {A} (m : fs_m A) : world_m A :=
  fun w => let '(r, fs) := m (aw_files w) in (map_err AtIo r, MkAttentionWorld fs (aw_inbox w)).

Definition acting {A} (m : stateT (World S) (ActionStoreError repo_error) A) : world_m A :=
  fun w => let '(r, s) := m (aw_inbox w) in
           (map_err (fun e => AtAction (error_to_string e)) r, MkAttentionWorld (aw_files w) s).

Definition persist (self : AttentionService) : world_m unit :=
  let temporary := path_join (sv_root self) (str "." ++ LEDGER_FILE ++ str ".tmp") in
  bytes ← lift (map_err AtJson (ledger_to_vec (sv_ledger self)));
  try_file (fs_write temporary bytes) ;;
  try_file (replace_file temporary (path_join (sv_root self) LEDGER_FILE)).

Definition submit_candidate (self : AttentionService) (c : InitiativeCandidate) (now : UtcTimestamp) : world_m unit :=
  let action := action_for c (attention_limits (sv_config self)) in
  found ← acting (ActionStore.get (act_id action));
  match found with
  | None => acting (submit inbox action now) ;; mret tt
  | Some _ => mret tt
  end.

(** The candidates whose work was recorded as started. *)
Definition started_candidates (ledger : AttentionLedger) : list InitiativeCandidate :=
  let started : gset EntityId :=
    list_to_set (dec_candidate_id
      <$> List.filter (fun d => bool_decide (dec_decision d = StartBoundedWork)) (led_decisions ledger)) in
  List.filter (fun c => bool_decide (cand_id c ∈ started)) (led_candidates ledger).

Definition recover_started (self : AttentionService) (now : UtcTimestamp) : world_m unit :=
  try_for (fun c => submit_candidate self c now) (started_candidates (sv_ledger self)).

(** The ledger of the file, or a new one. *)
Definition load_ledger (path : Path) (profile_id : ProfileId) : world_m AttentionLedger :=
  present ← try_file (fs_exists path);
  if present : bool then
    bytes ← try_file (fs_read path);
    ledger ← lift (map_err AtJson (ledger_from_slice bytes));
    lift (reject_if (negb (bool_decide (led_profile_id ledger = profile_id))) AtProfileMismatch) ;;
    mret ledger
  else mret (MkLedger profile_id [] [] ∅).

Definition open (root : Path) (profile_id : ProfileId) (config : AttentionConfig) (now : UtcTimestamp)
  : world_m AttentionService :=
  quiet_zone ← lift (validate_config config);
  try_file (fs_create_dir_all root) ;;
  root ← try_file (fs_canonicalize root);
  ledger ← load_ledger (path_join root LEDGER_FILE) profile_id;
  let self := MkAttention root profile_id config quiet_zone ledger in
  recover_started self now ;;
  mret self.

Definition on_attention_world {A} (m : world_m A) : attention_m A :=
  fun r => let '(x, w) := m (at_world r) in (x, MkAttending (at_self r) w).

Definition evaluate_one (c : InitiativeCandidate) (autonomy : AutonomyMode) (workload : Workload) (now : UtcTimestamp)
  : attention_m DecisionRecord :=
  lift (map_err AtCandidate (candidate_validate c)) ;;
  self ← gets at_self;
  lift (reject_if (negb (bool_decide (cand_profile_id c = sv_profile_id self))) AtProfileMismatch) ;;
  match List.find (fun d => bool_decide (dec_candidate_id d = cand_id c)) (led_decisions (sv_ledger self)) with
  | Some existing => mret existing
  | None =>
      let record := judged self c autonomy workload now in
      let self := with_ledger self (recorded self c record now) in
      modify (fun r => MkAttending self (at_world r)) ;;
      on_attention_world (persist self) ;;
      (if bool_decide (dec_decision record = StartBoundedWork)
       then on_attention_world (submit_candidate self c now) else mret tt) ;;
      mret record
  end.

Definition evaluate (candidates : list InitiativeCandidate) (autonomy : AutonomyMode) (workload : Workload)
    (now : UtcTimestamp) : attention_m (list DecisionRecord) :=
  map_m (fun c => evaluate_one c autonomy workload now) candidates.

Definition queued_actions (session : SessionId) : attention_m (list ActionRecord) :=
  on_attention_world (acting (ActionStore.list_session session)).

Definition recent_candidates (self : AttentionService) : list InitiativeCandidate := led_candidates (sv_ledger self).
Definition decision_history (self : AttentionService) : list DecisionRecord := led_decisions (sv_ledger self).
End service.
