(* ===== verification/AttentionProperties.v ===== *)
(** * Correctness of attention

    What a decision can be, that over any sequence of evaluations, file failures
    and restarts the decisions answered are counted and the budgets of the
    channels hold up to those lost with a failed write, and that bounded work
    that was decided on is in the inbox. *)

From Stdlib Require Import ZArith Lia String.
From stdpp Require Import base decidable countable relations gmap sorting option list.
From S2P Require Import Prelude RustStd RustText AgentTypes Json StateStoreCore ItemStore.
From S2P Require Import ActionStore ActionMachine ActionProperties Schedules FileSystem Attention.

(** ** Decisions *)

Section decisions.
Context `{HC : Chrono}.

(** The minutes of the day from [start] up to [finish], over midnight or not. *)
Definition in_day_range (start finish minute : Z) : Prop := ((minute - start) mod 1440 < (finish - start) mod 1440)%Z.

(** The quiet hours are a range on the circle of the day. *)
Lemma minute_quiet_range quiet minute :
  (0 <= start_minute quiet < 1440)%Z -> (0 <= end_minute quiet < 1440)%Z -> (0 <= minute < 1440)%Z ->
  minute_quiet quiet minute = true <-> in_day_range (start_minute quiet) (end_minute quiet) minute.
Proof.
  intros Hs He Hm. unfold minute_quiet, in_day_range.
  assert (forall z, (-1440 < z < 0)%Z -> (z mod 1440 = z + 1440)%Z) as Hneg.
  { intros z Hz. replace z with (z + 1440 + (-1) * 1440)%Z at 1 by lia. rewrite Z.mod_add by lia. apply Z.mod_small. lia. }
  destruct (Z.leb_spec (start_minute quiet) minute);
    [rewrite (Z.mod_small (minute - _)) by lia|rewrite (Hneg (minute - _)%Z) by lia];
    (destruct (Z.leb_spec (start_minute quiet) (end_minute quiet));
      [rewrite (Z.mod_small (end_minute quiet - _)) by lia|rewrite (Hneg (end_minute quiet - _)%Z) by lia]);
    destruct (Z.ltb_spec minute (end_minute quiet)); simpl; split; intros; try done; lia.
Qed.

(** Decisions that take the user's attention or the agent's time. *)
Definition active_decision (d : AttentionDecision) : bool :=
  match d with Schedule | Ask | StartBoundedWork | Notify => true | _ => false end.

(** A recent candidate about the same thing. *)
Definition repeats (self : AttentionService) (c : InitiativeCandidate) (now : UtcTimestamp) : Prop :=
  exists previous, previous ∈ led_candidates (sv_ledger self)
    /\ cand_topic previous = cand_topic c /\ cand_proposed_action previous = cand_proposed_action c
    /\ (0 <= i64_saturating_sub (unix_millis now) (unix_millis (cand_created_at previous))
          <= duplicate_window_ms (sv_config self))%Z.

Lemma is_duplicate_spec self c now : is_duplicate self c now = true <-> repeats self c now.
Proof.
  unfold is_duplicate, repeats. rewrite existsb_exists. setoid_rewrite <- list_elem_of_In.
  setoid_rewrite andb_true_iff. setoid_rewrite andb_true_iff. setoid_rewrite andb_true_iff.
  setoid_rewrite bool_decide_eq_true. setoid_rewrite Z.leb_le. naive_solver.
Qed.

(** The notifications that the ledger counts for a channel and a day. *)
Definition counted (ledger : AttentionLedger) (key : rstr) : Z := default 0%Z (led_counts ledger !! key).

Definition within_budget (self : AttentionService) (channel : rstr) (now : UtcTimestamp) : Prop :=
  forall limit, notification_budgets (sv_config self) !! channel = Some limit ->
    (counted (sv_ledger self) (budget_key channel now (sv_quiet_zone self)) < limit)%Z.

Lemma budget_exhausted_spec self channel now :
  budget_exhausted self channel now = false <-> within_budget self channel now.
Proof.
  unfold budget_exhausted, within_budget, counted. destruct (notification_budgets (sv_config self) !! channel) as [limit|].
  - rewrite Z.leb_gt. naive_solver.
  - naive_solver.
Qed.

Definition busy (w : Workload) : bool := match w with WorkInteractive | WorkSaturated => true | _ => false end.

(** What an active decision rests on. *)
Lemma decide_active self c autonomy workload now duplicate score d because :
  decide_candidate self c autonomy workload now duplicate score = (d, because) -> active_decision d = true ->
  (unix_millis now < unix_millis (cand_expires_at c))%Z /\ autonomy <> AutonomyDisabled
  /\ d = score_decision score autonomy
  /\ ((urgency (cand_signals c) < 950)%Z -> duplicate = false /\ is_quiet self now = false /\ busy workload = false)
  /\ ((urgency (cand_signals c) < 975)%Z -> within_budget self (cand_channel c) now).
Proof.
  unfold decide_candidate. rewrite <- budget_exhausted_spec. intros Hd Ha.
  destruct (rleb _ now) eqn:Er; [by injection Hd as <- <-|].
  case_bool_decide as Hdis; [by injection Hd as <- <-|].
  assert (unix_millis now < unix_millis (cand_expires_at c))%Z as Hlt.
  { destruct (Z.ltb_spec (unix_millis now) (unix_millis (cand_expires_at c))); [done|].
    apply (proj2 (rleb_millis _ _)) in H. congruence. }
  destruct (Z.ltb_spec (urgency (cand_signals c)) 950), (Z.ltb_spec (urgency (cand_signals c)) 975); try lia;
    destruct duplicate, (is_quiet self now), (budget_exhausted self (cand_channel c) now), workload;
    simpl in Hd; injection Hd as <- <-; try done; (split; [done|]); (split; [done|]); (split; [done|]); split; intros; done || lia.
Qed.
Lemma score_decision_started score autonomy :
  score_decision score autonomy = StartBoundedWork -> autonomy = Bounded /\ (740 <= score <= 849)%Z.
Proof.
  unfold score_decision. destruct (((740 <=? score) && (score <=? 849))%Z && bool_decide (autonomy = Bounded)) eqn:E.
  - intros _. bool_inv. done.
  - repeat case_match; done.
Qed.

Lemma score_decision_notify score autonomy : score_decision score autonomy = Notify -> (850 <= score)%Z.
Proof.
  unfold score_decision. destruct (((740 <=? score) && (score <=? 849))%Z && bool_decide (autonomy = Bounded)); [done|].
  destruct (Z.leb_spec score 199); [done|]. destruct (Z.leb_spec score 349); [done|]. destruct (Z.leb_spec score 499); [done|].
  destruct (Z.leb_spec score 619); [done|]. destruct (Z.leb_spec score 849); [done|]. lia.
Qed.

(** The local minute of the day lies in the quiet hours. *)
Definition in_quiet_hours (self : AttentionService) (now : UtcTimestamp) : Prop :=
  exists quiet zone utc, quiet_hours (sv_config self) = Some quiet /\ sv_quiet_zone self = Some zone
    /\ timestamp_millis_opt (unix_millis now) = Some utc
    /\ in_day_range (start_minute quiet) (end_minute quiet) (dt_hour (with_timezone zone utc) * 60 + dt_minute (with_timezone zone utc)).

(** The hours and minutes of a time of day, and a configuration that passed the checks. *)
Definition clock_typed (self : AttentionService) : Prop :=
  (forall t, (0 <= dt_hour t < 24 /\ 0 <= dt_minute t < 60)%Z)
  /\ (forall quiet, quiet_hours (sv_config self) = Some quiet ->
       (0 <= start_minute quiet < 1440 /\ 0 <= end_minute quiet < 1440)%Z).

Lemma is_quiet_spec self now : clock_typed self -> is_quiet self now = true <-> in_quiet_hours self now.
Proof.
  intros [Hclock Hconfig]. unfold is_quiet, in_quiet_hours.
  destruct (quiet_hours (sv_config self)) as [quiet|]; [|naive_solver].
  destruct (sv_quiet_zone self) as [zone|]; [|naive_solver].
  destruct (timestamp_millis_opt (unix_millis now)) as [utc|]; [|naive_solver].
  specialize (Hconfig quiet eq_refl). specialize (Hclock (with_timezone zone utc)).
  assert (local_minute zone utc = dt_hour (with_timezone zone utc) * 60 + dt_minute (with_timezone zone utc))%Z as ->.
  { unfold local_minute, u16_try_from, u16_max. destruct (Z.leb_spec 0 (dt_hour (with_timezone zone utc) * 60 + dt_minute (with_timezone zone utc)));
      [|lia]. by destruct (Z.leb_spec (dt_hour (with_timezone zone utc) * 60 + dt_minute (with_timezone zone utc)) 65535); [|lia]. }
  rewrite minute_quiet_range by lia. naive_solver.
Qed.

Lemma judged_decision self c autonomy workload now :
  exists because, decide_candidate self c autonomy workload now (is_duplicate self c now)
      (dec_score (judged self c autonomy workload now))
    = (dec_decision (judged self c autonomy workload now), because).
Proof.
  unfold judged. set (score := if is_duplicate self c now then _ else _).
  destruct (decide_candidate _ _ _ _ _ _ score) as [d because] eqn:Ed. by exists because.
Qed.

(** C27: the agent acts of its own accord only when it may: a decision to
    schedule, ask, start work or notify is never made for an expired candidate or
    with autonomy disabled; unless it is urgent, not for a repetition, not in the
    quiet hours of the user's day (over midnight or not), not while the user is
    served and not past the budget of the channel; and work is started only in the
    bounded mode, for its range of scores. *)
Theorem attention_restraint self c autonomy workload now :
  let d := judged self c autonomy workload now in
  clock_typed self -> active_decision (dec_decision d) = true ->
  (unix_millis now < unix_millis (cand_expires_at c))%Z /\ autonomy <> AutonomyDisabled
  /\ ((urgency (cand_signals c) < 950)%Z ->
      ~ repeats self c now /\ ~ in_quiet_hours self now /\ workload <> WorkInteractive /\ workload <> WorkSaturated)
  /\ ((urgency (cand_signals c) < 975)%Z -> within_budget self (cand_channel c) now)
  /\ (dec_decision d = StartBoundedWork -> autonomy = Bounded /\ (740 <= dec_score d <= 849)%Z)
  /\ (dec_decision d = Notify -> (850 <= dec_score d)%Z).
Proof.
  intros d Ht Ha. destruct (judged_decision self c autonomy workload now) as [because Hd].
  destruct (decide_active _ _ _ _ _ _ _ _ _ Hd Ha) as (H1 & H2 & H3 & H4 & H5). split; [done|]. split; [done|].
  split; [|split; [done|]].
  - intros (Hdup & Hq & Hb)%H4. rewrite <- is_duplicate_spec, <- is_quiet_spec, Hdup, Hq by done. by destruct workload.
  - unfold d. rewrite H3. split; [apply score_decision_started|apply score_decision_notify].
Qed.
End decisions.

(** ** Files *)

Section service.
Context {S : Type} `{HU : Ulid, HR : Repository S, HL : !RepositoryLaws S, HD : Document ActionRecord}.
Context `{HC : Chrono, HLC : LedgerCodec}.
Context (inbox : ActionInboxConfig) (error_to_string : ActionStoreError repo_error -> rstr).
Context (root : Path).
Implicit Types (w : AttentionWorld S).

Definition ledger_path : Path := path_join root LEDGER_FILE.

Lemma ledger_temporary_apart : path_join root (str "." ++ LEDGER_FILE ++ str ".tmp") <> ledger_path.
Proof. unfold ledger_path, path_join. by intros [_ [=]]%app_inj_2. Qed.

Lemma root_apart : root <> ledger_path.
Proof. unfold ledger_path, path_join. intros Heq%(f_equal length). rewrite length_app in Heq. simpl in Heq. lia. Qed.

Abbreviation ledger_entry w := (entries (aw_files w) !! ledger_path).

(** A call of the file system leaves the inbox alone. *)
Lemma triple_file {A : Type} (act : gmap Path Entry -> result IoError A * gmap Path Entry)
    (failed : option (list Z) -> gmap Path Entry -> gmap Path Entry) (s : World S)
    (P : gmap Path Entry -> Prop) (Q : A -> gmap Path Entry -> Prop) (F : gmap Path Entry -> Prop) :
  (forall es, P es -> match act es with (Ok a, es') => Q a es' | (Err _, es') => F es' end) ->
  (forall leaves es, P es -> F (failed leaves es)) ->
  triple (fun w => P (entries (aw_files w)) /\ aw_inbox w = s) (try_file (io act failed))
    (fun a w => Q a (entries (aw_files w)) /\ aw_inbox w = s) (fun w => F (entries (aw_files w)) /\ aw_inbox w = s).
Proof.
  intros Hact Hfail w r w' [HP Hs] Hr. unfold try_file in Hr.
  destruct (io act failed (aw_files w)) as [r0 fs] eqn:Em. injection Hr as <- <-.
  pose proof (io_spec_io P act failed Q F Hact Hfail _ _ _ HP Em). by destruct r0.
Qed.

(** Persisting replaces the ledger of the file, or leaves it. *)
Lemma persist_effect self w r w' :
  sv_root self = root -> persist self w = (r, w') ->
  aw_inbox w' = aw_inbox w
  /\ match r with
     | Ok _ => exists bytes, ledger_entry w' = Some (EFile bytes) /\ ledger_from_slice bytes = Ok (sv_ledger self)
     | Err _ => ledger_entry w' = ledger_entry w
     end.
Proof.
  intros Hroot Hr. unfold persist in Hr. rewrite Hroot in Hr. pose proof ledger_temporary_apart as Htmp.
  set (tmp := path_join root (str "." ++ LEDGER_FILE ++ str ".tmp")) in *. set (old := ledger_entry w).
  assert (triple (fun w' => entries (aw_files w') !! ledger_path = old /\ aw_inbox w' = aw_inbox w)
    (bytes ← lift (map_err AtJson (ledger_to_vec (sv_ledger self)));
     try_file (fs_write tmp bytes) ;; try_file (replace_file tmp ledger_path))
    (fun _ w' => (exists bytes, ledger_entry w' = Some (EFile bytes) /\ ledger_from_slice bytes = Ok (sv_ledger self))
                 /\ aw_inbox w' = aw_inbox w)
    (fun w' => ledger_entry w' = old /\ aw_inbox w' = aw_inbox w)) as Ht.
  { apply triple_lift_bind; [|done]. intros bytes Hb.
    assert (ledger_to_vec (sv_ledger self) = Ok bytes) as Hv by (destruct (ledger_to_vec _); simpl in Hb; congruence).
    eapply triple_bind.
    - apply (triple_file _ _ _ (fun es => es !! ledger_path = old)
        (fun _ es => es !! ledger_path = old /\ es !! tmp = Some (EFile bytes)) (fun es => es !! ledger_path = old)).
      + intros es Hes. destruct (es !! tmp) as [[]|]; try done;
          (split; [by rewrite lookup_insert_ne|by rewrite lookup_insert_eq]).
      + intros [b|] es Hes; [by rewrite lookup_insert_ne|done].
    - intros u. apply (triple_file _ _ _ (fun es => es !! ledger_path = old /\ es !! tmp = Some (EFile bytes))
        (fun _ es => exists bytes, es !! ledger_path = Some (EFile bytes) /\ ledger_from_slice bytes = Ok (sv_ledger self))
        (fun es => es !! ledger_path = old)).
      + intros es [Hes Hb']. rewrite Hb'. apply ledger_from_to in Hv.
        destruct (es !! ledger_path) as [[]|] eqn:El; try (exists bytes; by rewrite lookup_insert_eq).
        by rewrite lookup_delete_ne, El.
      + intros [b|] es [Hes _]; [done|]. by rewrite lookup_delete_ne. }
  specialize (Ht w r w' (conj eq_refl eq_refl) Hr). destruct r; destruct Ht; split; done.
Qed.

(** Submitting work does not touch the files. *)
Lemma submit_files self c now w r w' :
  submit_candidate inbox error_to_string self c now w = (r, w') -> aw_files w' = aw_files w.
Proof.
  unfold submit_candidate, acting. intros Hr. rewrite stateT_bind_unfold in Hr.
  destruct (ActionStore.get _ (aw_inbox w)) as [[[y|]|e] s]; cbn [map_err] in Hr; [res_inv; done| |res_inv; done].
  rewrite stateT_bind_unfold in Hr. simpl in Hr.
  destruct (submit inbox _ now s) as [[y|e] s']; cbn [map_err] in Hr; by res_inv.
Qed.

Lemma recover_files self now w r w' :
  recover_started inbox error_to_string self now w = (r, w') -> aw_files w' = aw_files w.
Proof.
  unfold recover_started. revert w. induction (started_candidates (sv_ledger self)) as [|c cs IH]; intros w Hr; simpl in Hr.
  { by res_inv. }
  rewrite stateT_bind_unfold in Hr. destruct (submit_candidate _ _ self c now w) as [[u|e] w1] eqn:E1.
  - rewrite (IH _ Hr). by eapply submit_files.
  - injection Hr as _ <-. by eapply submit_files.
Qed.

(** ** Opening *)

(** The third call of [open], the one that asks for the file, does not fail. *)
Definition stat_works w : Prop := forall leaves, script (aw_files w) !! 2 <> Some (IoFails leaves).

(** The ledger that [open] starts from. *)
Definition opened_ledger (profile : ProfileId) w (ledger : AttentionLedger) : Prop :=
  (exists bytes, ledger_entry w = Some (EFile bytes) /\ ledger_from_slice bytes = Ok ledger)
  \/ ledger = MkLedger profile [] [] ∅ /\ (stat_works w -> ledger_entry w = None).

Lemma try_file_inv {A} (m : fs_m A) w r w' :
  try_file m w = (r, w') -> exists r0, m (aw_files w) = (r0, aw_files w') /\ r = map_err AtIo r0 /\ aw_inbox w' = aw_inbox w.
Proof. unfold try_file. destruct (m (aw_files w)) as [r0 fs]. intros [= <- <-]. by exists r0. Qed.

(** Making and resolving the directory. *)
Lemma prepare_root w r w' :
  (try_file (fs_create_dir_all root) ;; try_file (fs_canonicalize root)) w = (r, w') ->
  ledger_entry w' = ledger_entry w
  /\ match r with Ok p => p = root /\ script (aw_files w') = drop 2 (script (aw_files w)) | Err _ => True end.
Proof.
  intros Hr. rewrite stateT_bind_unfold in Hr.
  destruct (try_file (fs_create_dir_all root) w) as [r1 w1] eqn:E1.
  apply try_file_inv in E1 as (q1 & [Hs1 Hc1]%io_cases & -> & _).
  assert (ledger_entry w1 = ledger_entry w) as H1.
  { destruct Hc1 as [(l & _ & _ & ->)|[_ Ha]]; [done|].
    destruct (entries (aw_files w) !! root) as [[]|]; injection Ha as _ <-; try done. rewrite lookup_insert_ne; [done|].
    apply root_apart. }
  destruct q1 as [[]|e]; cbn [map_err] in Hr; [|by injection Hr as <- <-].
  destruct (try_file_inv _ _ _ _ Hr) as (q2 & [Hs2 Hc2]%io_cases & -> & _). rewrite <- H1.
  destruct Hc2 as [(l & _ & -> & ->)|[_ Ha]]; [done|].
  destruct (entries (aw_files w1) !! root); injection Ha as <- <-; [|done]. simpl. split; [done|]. split; [done|].
  rewrite Hs2, Hs1. by destruct (script (aw_files w)) as [|a [|b rest]].
Qed.

Lemma load_ledger_effect profile w r w' :
  load_ledger ledger_path profile w = (r, w') ->
  ledger_entry w' = ledger_entry w
  /\ match r with
     | Ok ledger =>
         (exists bytes, ledger_entry w = Some (EFile bytes) /\ ledger_from_slice bytes = Ok ledger)
         \/ ledger = MkLedger profile [] [] ∅
            /\ ((forall leaves, script (aw_files w) !! 0 <> Some (IoFails leaves)) -> ledger_entry w = None)
     | Err _ => True
     end.
Proof.
  intros Hr. unfold load_ledger in Hr. rewrite stateT_bind_unfold in Hr.
  destruct (try_file (fs_exists ledger_path) w) as [r1 w1] eqn:E1. apply try_file_inv in E1 as (q1 & E1 & -> & _).
  unfold fs_exists in E1. destruct (fs_symlink_metadata ledger_path (aw_files w)) as [q fs] eqn:Eq.
  injection E1 as <- Hfs. apply io_cases in Eq as [Hs Hc]. rewrite Hfs in Hs, Hc.
  assert (entries (aw_files w1) = entries (aw_files w)) as He.
  { destruct Hc as [(l & _ & _ & ->)|[_ Ha]]; [done|]. by injection Ha as _ <-. }
  cbn [map_err] in Hr. destruct q as [e|err]; cbn [is_ok] in Hr.
  - rewrite stateT_bind_unfold in Hr. destruct (try_file (fs_read ledger_path) w1) as [r2 w2] eqn:E2.
    apply try_file_inv in E2 as (q2 & [_ Hc2]%io_cases & -> & _). rewrite He in Hc2.
    destruct Hc2 as [(l & _ & -> & Hf)|[_ Ha]].
    { cbn [map_err] in Hr. injection Hr as <- <-. by rewrite Hf. }
    injection Ha as Hq2 He2. rewrite He2.
    destruct q2 as [bytes|e2]; cbn [map_err] in Hr; [|injection Hr as <- <-; by rewrite <- He2].
    rewrite stateT_bind_unfold in Hr. unfold lift in Hr.
    destruct (ledger_from_slice bytes) as [ledger|e3] eqn:El; cbn [map_err] in Hr; [|injection Hr as <- <-; by rewrite <- He2].
    rewrite stateT_bind_unfold in Hr.
    destruct (reject_if _ _) as [[]|e4] in Hr; injection Hr as <- <-; rewrite <- He2; (split; [done|]); [|done].
    left. exists bytes. split; [|done]. by destruct (entries (aw_files w) !! ledger_path) as [[]|]; simplify_eq.
  - injection Hr as <- <-. rewrite He. split; [done|]. right. split; [done|]. intros Hok.
    destruct Hc as [(l & Hl & _)|[_ Ha]].
    { destruct (Hok l). by destruct (script (aw_files w)). }
    injection Ha as Hn _. by destruct (entries (aw_files w) !! ledger_path).
Qed.

Lemma load_inbox profile path w r w' : load_ledger path profile w = (r, w') -> aw_inbox w' = aw_inbox w.
Proof.
  unfold load_ledger. intros Hr. rewrite stateT_bind_unfold in Hr.
  destruct (try_file _ w) as [[present|e] w1] eqn:E1; apply try_file_inv in E1 as (_ & _ & _ & H1);
    [|by injection Hr as _ <-]. destruct present; [|by injection Hr as _ <-].
  rewrite stateT_bind_unfold in Hr. destruct (try_file _ w1) as [[bytes|e] w2] eqn:E2;
    apply try_file_inv in E2 as (_ & _ & _ & H2); [|injection Hr as _ <-; congruence].
  rewrite stateT_bind_unfold in Hr. unfold lift in Hr.
  destruct (map_err _ _) as [ledger|e] in Hr; [|injection Hr as _ <-; congruence].
  rewrite stateT_bind_unfold in Hr. destruct (reject_if _ _) in Hr; injection Hr as _ <-; congruence.
Qed.

Lemma open_effect profile config now w r w' :
  open inbox error_to_string root profile config now w = (r, w') ->
  ledger_entry w' = ledger_entry w
  /\ match r with
     | Ok self => sv_root self = root /\ sv_profile_id self = profile /\ sv_config self = config
                  /\ validate_config config = Ok (sv_quiet_zone self) /\ opened_ledger profile w (sv_ledger self)
     | Err _ => True
     end.
Proof.
  intros Hr. unfold open in Hr. rewrite stateT_bind_unfold in Hr. unfold lift in Hr.
  destruct (validate_config config) as [zone|e] eqn:Ev; [|by injection Hr as <- <-].
  destruct ((try_file (fs_create_dir_all root) ;; try_file (fs_canonicalize root)) w) as [q w1] eqn:E1.
  pose proof (prepare_root _ _ _ E1) as [H1 Hq]. rewrite stateT_bind_unfold in E1. cbn beta iota in Hr.
  rewrite stateT_bind_unfold in Hr.
  destruct (try_file (fs_create_dir_all root) w) as [[[]|e] w0]; [|injection E1 as <- <-; by injection Hr as <- <-].
  rewrite stateT_bind_unfold, E1 in Hr. destruct q as [p|e]; [|by injection Hr as <- <-]. destruct Hq as [-> Hs].
  rewrite stateT_bind_unfold in Hr. fold ledger_path in Hr.
  destruct (load_ledger ledger_path profile w1) as [[ledger|e] w2] eqn:E2;
    apply load_ledger_effect in E2 as [H2 Hled]; [|injection Hr as <- <-; by rewrite H2].
  rewrite stateT_bind_unfold in Hr. destruct (recover_started _ _ _ now w2) as [[[]|e] w3] eqn:E3;
    apply recover_files in E3; injection Hr as <- <-; rewrite E3, H2; (split; [done|]); [|done].
  do 3 (split; [done|]). split; [done|]. unfold opened_ledger. cbn [sv_ledger]. rewrite H1 in Hled.
  destruct Hled as [Hl|[-> Hn]]; [by left|right]. split; [done|]. intros Hst. apply Hn. intros l. rewrite Hs, lookup_drop. apply Hst.
Qed.

(** ** Evaluating *)

(** The decision on a candidate that the ledger has. *)
Definition known (self : AttentionService) (c : InitiativeCandidate) : option DecisionRecord :=
  List.find (fun d => bool_decide (dec_candidate_id d = cand_id c)) (led_decisions (sv_ledger self)).

Abbreviation evaluates := (evaluate_one inbox error_to_string).

(** What [evaluate_one] does: nothing, or one more decision in memory, which is
    in the file unless persisting failed. *)
Definition evaluated (self : AttentionService) w c autonomy workload now
    (r : result AttentionError DecisionRecord) (self' : AttentionService) w' : Prop :=
  let record := judged self c autonomy workload now in
  self' = self /\ w' = w /\ (forall d, r = Ok d -> known self c = Some d)
  \/ known self c = None /\ candidate_validate c = Ok tt
     /\ self' = with_ledger self (recorded self c record now)
     /\ ((exists e, r = Err e) /\ ledger_entry w' = ledger_entry w /\ aw_inbox w' = aw_inbox w
         \/ (exists bytes, ledger_entry w' = Some (EFile bytes) /\ ledger_from_slice bytes = Ok (sv_ledger self'))
            /\ (forall d, r = Ok d -> d = record
                 /\ (dec_decision record = StartBoundedWork -> exists w1, aw_inbox w1 = aw_inbox w
                       /\ submit_candidate inbox error_to_string self' c now w1 = (Ok tt, w')))).

Lemma evaluate_effect self w c autonomy workload now r a :
  sv_root self = root -> evaluates c autonomy workload now (MkAttending self w) = (r, a) ->
  evaluated self w c autonomy workload now r (at_self a) (at_world a).
Proof.
  intros Hroot Hr. unfold evaluate_one in Hr. rewrite stateT_bind_unfold in Hr. unfold lift in Hr at 1.
  destruct (candidate_validate c) as [[]|e] eqn:Ev; cbn [map_err] in Hr; [|injection Hr as <- <-; by left].
  rewrite stateT_bind_unfold in Hr. cbn [gets at_self] in Hr. rewrite stateT_bind_unfold in Hr. unfold lift in Hr at 1.
  destruct (reject_if _ _) as [[]|e] in Hr; [|injection Hr as <- <-; by left]. fold (known self c) in Hr.
  destruct (known self c) as [d|] eqn:Ek; [injection Hr as <- <-; left; split; [done|]; split; [done|]; by intros d' [= ->]|].
  right. split; [done|]. split; [done|]. rewrite stateT_bind_unfold in Hr. cbn [modify at_world] in Hr.
  set (self' := with_ledger _ _) in *. rewrite stateT_bind_unfold in Hr. unfold on_attention_world in Hr at 1.
  cbn [at_world at_self] in Hr. destruct (persist self' w) as [p w1] eqn:Ep.
  apply persist_effect in Ep as [Hin Hp]; [|done]. destruct p as [u|e]; [|injection Hr as <- <-; split; [done|]; left; eauto].
  rewrite stateT_bind_unfold in Hr. case_bool_decide as Hs.
  - unfold on_attention_world in Hr. cbn [at_world at_self] in Hr.
    destruct (submit_candidate _ _ self' c now w1) as [q w2] eqn:Es. pose proof (submit_files _ _ _ _ _ _ Es) as Hf.
    destruct q as [[]|e]; injection Hr as <- <-; (split; [done|]); right; cbn [at_world at_self]; rewrite Hf.
    + split; [done|]. intros d [= <-]. split; [done|]. intros _. by exists w1.
    + split; [done|]. by intros d [=].
  - injection Hr as <- <-. split; [done|]. right. split; [done|]. intros d [= <-]. by split.
Qed.

(** ** Runs *)

Inductive attention_op :=
| AEvaluate (c : InitiativeCandidate) (autonomy : AutonomyMode) (workload : Workload) (now : UtcTimestamp)
| ARestart (now : UtcTimestamp).

(** The decisions that the user is told of. *)
Definition reaches_user (d : AttentionDecision) : bool := bool_decide (d = Ask) || bool_decide (d = Notify).

Lemma notifies_reaches d : notifies d = reaches_user d.
Proof. by destruct d. Qed.

(** A notification that was decided on: its channel, the day it counts for, how
    urgent it was, and the decision. *)
Record Notice := MkNotice { no_channel : rstr; no_key : rstr; no_urgency : Z; no_decision : DecisionRecord }.

Definition notice (self : AttentionService) (c : InitiativeCandidate) (now : UtcTimestamp) (d : DecisionRecord) : Notice :=
  MkNotice (cand_channel c) (budget_key (cand_channel c) now (sv_quiet_zone self)) (urgency (cand_signals c)) d.

(** Processes one after the other, with the service of the current one when it is
    open: the notifications they decided on (in the file; in memory only, because
    they could not be written; or lost in a restart before a later write
    succeeded), and the decisions to notify that callers were answered with. *)
Record AttentionRun := MkAttentionRun {
  ar_service : option AttentionService;
  ar_world : AttentionWorld S;
  ar_saved : list Notice;
  ar_unsaved : list Notice;
  ar_lost : list Notice;
  ar_answered : list DecisionRecord
}.

Definition first_run (w : AttentionWorld S) : AttentionRun := MkAttentionRun None w [] [] [] [].

(** The notifications that are in force, and all of them. *)
Definition ar_kept (st : AttentionRun) : list Notice := ar_unsaved st ++ ar_saved st.
Definition ar_decided (st : AttentionRun) : list Notice := ar_lost st ++ ar_kept st.

Context (profile : ProfileId) (config : AttentionConfig).

(** The decision that an evaluation has added to the memory. *)
Definition decided (self self' : AttentionService) (c : InitiativeCandidate) (now : UtcTimestamp) : list Notice :=
  match known self c, known self' c with
  | None, Some d => if reaches_user (dec_decision d) then [notice self c now d] else []
  | _, _ => []
  end.

Definition answer (r : result AttentionError DecisionRecord) : list DecisionRecord :=
  match r with Ok d => if reaches_user (dec_decision d) then [d] else [] | Err _ => [] end.

(** A new decision that is answered has been written, with all before it. *)
Definition attention_do (op : attention_op) (st : AttentionRun) : AttentionRun :=
  match op with
  | AEvaluate c autonomy workload now =>
      match ar_service st with
      | None => st
      | Some self =>
          let '(r, a) := evaluates c autonomy workload now (MkAttending self (ar_world st)) in
          let unsaved := decided self (at_self a) c now ++ ar_unsaved st in
          let written := bool_decide (known self c = None) && is_ok r in
          MkAttentionRun (Some (at_self a)) (at_world a)
            (if written then unsaved ++ ar_saved st else ar_saved st) (if written then [] else unsaved) (ar_lost st)
            (answer r ++ ar_answered st)
      end
  | ARestart now =>
      let '(r, w) := open inbox error_to_string root profile config now (ar_world st) in
      MkAttentionRun (match r with Ok self => Some self | Err _ => None end) w (ar_saved st) []
        (ar_unsaved st ++ ar_lost st) (ar_answered st)
  end.

Definition attention_run (ops : list attention_op) (st : AttentionRun) : AttentionRun :=
  fold_left (fun st op => attention_do op st) ops st.

(** At every restart the file system answers whether the file exists. *)
Fixpoint restarts_ok (ops : list attention_op) (st : AttentionRun) : Prop :=
  match ops with
  | [] => True
  | op :: ops =>
      match op with ARestart _ => stat_works (ar_world st) | _ => True end /\ restarts_ok ops (attention_do op st)
  end.

(** How many notices a channel has on a day. *)
Definition for_day (channel key : rstr) (n : Notice) : bool :=
  bool_decide (no_channel n = channel) && bool_decide (no_key n = key).
Definition not_urgent (n : Notice) : bool := (no_urgency n <? 975)%Z.
Definition how_many (p : Notice -> bool) (ns : list Notice) : Z := Z.of_nat (length (List.filter p ns)).

(** The ledger counts at least the notices. *)
Definition covers (ledger : AttentionLedger) (ns : list Notice) : Prop :=
  forall channel key, (Z.min (how_many (for_day channel key) ns) u32_max <= counted ledger key)%Z.

Definition typed_counts (ledger : AttentionLedger) : Prop := forall key, is_u32 (counted ledger key).

Definition within (ns : list Notice) : Prop :=
  forall channel key limit, notification_budgets config !! channel = Some limit ->
    (how_many (fun n => for_day channel key n && not_urgent n) ns <= Z.max 0 limit)%Z.

(** The decisions that the file had at first. *)
Definition decided_before w (d : DecisionRecord) : Prop :=
  exists bytes ledger, ledger_entry w = Some (EFile bytes) /\ ledger_from_slice bytes = Ok ledger /\ d ∈ led_decisions ledger.

(** A decision to notify that was counted, or is older. *)
Definition accounted w0 (st : AttentionRun) (d : DecisionRecord) : Prop :=
  decided_before w0 d \/ exists n, n ∈ ar_decided st /\ no_decision n = d.

Definition accounts w0 (st : AttentionRun) (ledger : AttentionLedger) : Prop :=
  forall d, d ∈ led_decisions ledger -> reaches_user (dec_decision d) = true -> accounted w0 st d.

(** What a ledger has to say of the notifications [ns]. *)
Definition faithful w0 (st : AttentionRun) (ledger : AttentionLedger) (ns : list Notice) : Prop :=
  typed_counts ledger /\ covers ledger ns /\ accounts w0 st ledger.

Record budgeted w0 (st : AttentionRun) : Prop := {
  budgeted_service : forall self, ar_service st = Some self ->
    sv_root self = root /\ sv_config self = config /\ faithful w0 st (sv_ledger self) (ar_kept st);
  budgeted_file : ledger_entry (ar_world st) = ledger_entry w0 /\ ar_saved st = []
    \/ exists bytes ledger, ledger_entry (ar_world st) = Some (EFile bytes) /\ ledger_from_slice bytes = Ok ledger
         /\ faithful w0 st ledger (ar_saved st);
  budgeted_within : within (ar_kept st);
  budgeted_answers : forall d, d ∈ ar_answered st -> accounted w0 st d
}.

Lemma decoded_typed bytes ledger : ledger_from_slice bytes = Ok ledger -> typed_counts ledger.
Proof.
  intros Hl key. unfold counted. destruct (led_counts ledger !! key) as [n|] eqn:En; simpl.
  - by eapply ledger_counts_typed.
  - unfold is_u32, u32_max. lia.
Qed.

Lemma covers_nil ledger : typed_counts ledger -> covers ledger [].
Proof. intros Ht channel key. specialize (Ht key). unfold is_u32 in Ht. unfold how_many. simpl. lia. Qed.

Lemma counted_recorded self c record now key :
  counted (recorded self c record now) key =
  if reaches_user (dec_decision record) && bool_decide (key = budget_key (cand_channel c) now (sv_quiet_zone self))
  then u32_saturating_add (counted (sv_ledger self) key) 1 else counted (sv_ledger self) key.
Proof.
  unfold recorded, counted. cbn [led_counts]. rewrite notifies_reaches. destruct (reaches_user _); [|done]. simpl. case_bool_decide as Hk.
  - subst key. by rewrite lookup_insert_eq.
  - by rewrite lookup_insert_ne.
Qed.

Lemma recorded_typed self c record now : typed_counts (sv_ledger self) -> typed_counts (recorded self c record now).
Proof.
  intros Ht key. rewrite counted_recorded. specialize (Ht key). unfold is_u32, u32_saturating_add in *.
  destruct (reaches_user _ && _); lia.
Qed.

Lemma how_many_cons p n ns : how_many p (n :: ns) = (Z.b2z (p n) + how_many p ns)%Z.
Proof. unfold how_many. simpl. destruct (p n); simpl; lia. Qed.

Lemma how_many_app p ns ns' : how_many p (ns ++ ns') = (how_many p ns + how_many p ns')%Z.
Proof. induction ns as [|n ns IH]; simpl; [done|]. rewrite !how_many_cons, IH. lia. Qed.

Lemma how_many_pos p ns : (0 <= how_many p ns)%Z.
Proof. unfold how_many. lia. Qed.

(** A recorded decision is counted. *)
Lemma recorded_covers self c record now ns :
  typed_counts (sv_ledger self) -> covers (sv_ledger self) ns ->
  covers (recorded self c record now)
    ((if reaches_user (dec_decision record) then [notice self c now record] else []) ++ ns).
Proof.
  intros Ht Hc channel key. rewrite counted_recorded. specialize (Hc channel key). specialize (Ht key).
  unfold is_u32, u32_saturating_add in *. destruct (reaches_user _); simpl; [|done]. rewrite how_many_cons.
  unfold for_day at 1, notice. cbn [no_channel no_key].
  destruct (bool_decide (key = _)) eqn:Ek; [destruct (bool_decide (cand_channel c = channel) && _)%bool; simpl Z.b2z; lia|].
  rewrite (bool_decide_eq_false_2 (budget_key _ _ _ = key)); [rewrite andb_false_r; simpl; lia|].
  apply bool_decide_eq_false in Ek. congruence.
Qed.

Lemma covers_fewer ledger ns ns' :
  (forall p, (how_many p ns' <= how_many p ns)%Z) -> covers ledger ns -> covers ledger ns'.
Proof. intros Hle Hc channel key. specialize (Hc channel key). specialize (Hle (for_day channel key)). lia. Qed.

Lemma covers_less ledger ledger' ns :
  (forall key, (counted ledger key <= counted ledger' key)%Z) -> covers ledger ns -> covers ledger' ns.
Proof. intros Hle Hc channel key. specialize (Hc channel key). specialize (Hle key). lia. Qed.

Lemma recorded_more self c record now key :
  typed_counts (sv_ledger self) -> (counted (sv_ledger self) key <= counted (recorded self c record now) key)%Z.
Proof.
  intros Ht. rewrite counted_recorded. specialize (Ht key). unfold is_u32, u32_saturating_add in *.
  destruct (_ && _); lia.
Qed.

Lemma how_many_le p q ns : (forall n, p n = true -> q n = true) -> (how_many p ns <= how_many q ns)%Z.
Proof.
  intros Hpq. induction ns as [|n ns IH]; [unfold how_many; simpl; lia|]. rewrite !how_many_cons.
  specialize (Hpq n). destruct (p n), (q n); simpl; lia || (specialize (Hpq eq_refl); done).
Qed.

(** A notification that is not urgent finds room in the budget. *)
Lemma notifies_within_budget self c autonomy workload now :
  reaches_user (dec_decision (judged self c autonomy workload now)) = true -> (urgency (cand_signals c) < 975)%Z ->
  within_budget self (cand_channel c) now.
Proof.
  intros Hn Hu. destruct (judged_decision self c autonomy workload now) as [because Hd].
  eapply decide_active; [exact Hd| |done]. by destruct (dec_decision _).
Qed.

Context (Hbudgets : forall channel limit, notification_budgets config !! channel = Some limit -> is_u32 limit).

Lemma within_notice self c autonomy workload now ns :
  sv_config self = config -> covers (sv_ledger self) ns -> within ns ->
  reaches_user (dec_decision (judged self c autonomy workload now)) = true ->
  within (notice self c now (judged self c autonomy workload now) :: ns).
Proof.
  intros Hcfg Hc Hw Hn channel key limit Hl. specialize (Hw channel key limit Hl). rewrite how_many_cons.
  destruct (for_day channel key _ && not_urgent _) eqn:E; simpl Z.b2z; [|lia].
  unfold for_day, not_urgent, notice in E. cbn [no_channel no_key no_urgency] in E. bool_inv. subst channel key.
  pose proof (notifies_within_budget self c autonomy workload now Hn ltac:(done) limit) as Hb. rewrite Hcfg in Hb.
  specialize (Hb Hl). specialize (Hc (cand_channel c) (budget_key (cand_channel c) now (sv_quiet_zone self))).
  specialize (Hbudgets _ _ Hl). unfold is_u32 in Hbudgets.
  pose proof (how_many_le
    (fun n => for_day (cand_channel c) (budget_key (cand_channel c) now (sv_quiet_zone self)) n && not_urgent n)
    (for_day (cand_channel c) (budget_key (cand_channel c) now (sv_quiet_zone self))) ns) as Hle.
  cbn beta in Hle. assert (forall n, for_day (cand_channel c) (budget_key (cand_channel c) now (sv_quiet_zone self)) n
    && not_urgent n = true -> for_day (cand_channel c) (budget_key (cand_channel c) now (sv_quiet_zone self)) n = true) as Hi.
  { by intros n [? _]%andb_true_iff. }
  specialize (Hle Hi). lia.
Qed.

Context (Hhistory : (0 < max_history config)%Z).

Lemma bound_snoc {A} (xs : list A) x maximum : (0 < maximum)%Z -> exists ys, bound (xs ++ [x]) maximum = ys ++ [x] /\ ys ⊆ xs.
Proof.
  intros Hm. unfold bound. destruct (maximum <? _)%Z eqn:E; [|by exists xs].
  apply Z.ltb_lt in E. rewrite length_app in *. simpl in *. rewrite drop_app_le by lia.
  eexists. split; [done|]. apply subseteq_drop.
Qed.

(** A decision that is recorded is known. *)
Lemma known_recorded self c autonomy workload now :
  sv_config self = config -> known self c = None ->
  let record := judged self c autonomy workload now in
  known (with_ledger self (recorded self c record now)) c = Some record.
Proof.
  intros Hcfg Hk record. unfold known, with_ledger, recorded in *. cbn [sv_ledger led_decisions]. rewrite Hcfg.
  destruct (bound_snoc (led_decisions (sv_ledger self)) record _ Hhistory) as (ys & -> & Hsub).
  assert (dec_candidate_id record = cand_id c) as Hid by (unfold record, judged; by destruct (decide_candidate _ _ _ _ _ _ _)).
  assert (List.find (fun d => bool_decide (dec_candidate_id d = cand_id c)) ys = None) as Hys.
  { destruct (List.find _ ys) as [d|] eqn:Ed; [|done]. apply find_some in Ed as [Hd Hb].
    eapply find_none in Hk; [|apply list_elem_of_In, Hsub, list_elem_of_In, Hd]. congruence. }
  clear Hsub. induction ys as [|y ys IH]; simpl in *; [by rewrite bool_decide_eq_true_2|]. destruct (bool_decide _); [done|auto].
Qed.

Lemma accounted_more w0 st st' d :
  ar_decided st ⊆ ar_decided st' -> accounted w0 st d -> accounted w0 st' d.
Proof. intros Hsub [H|(n & Hn & Hd)]; [by left|right; exists n; auto]. Qed.

Lemma faithful_more w0 st st' ledger ns :
  ar_decided st ⊆ ar_decided st' -> faithful w0 st ledger ns -> faithful w0 st' ledger ns.
Proof. intros Hsub (H1 & H2 & H3). split; [done|]. split; [done|]. intros d Hd Hr. eapply accounted_more; eauto. Qed.

(** The ledger with one more decision. *)
Lemma recorded_faithful w0 st st' self c record now :
  faithful w0 st (sv_ledger self) (ar_kept st) ->
  ar_decided st ⊆ ar_decided st' -> (reaches_user (dec_decision record) = true -> accounted w0 st' record) ->
  faithful w0 st' (recorded self c record now)
    ((if reaches_user (dec_decision record) then [notice self c now record] else []) ++ ar_kept st).
Proof.
  intros (Ht & Hc & Ha) Hsub Hnew. split; [by apply recorded_typed|]. split; [by apply recorded_covers|].
  intros d Hd Hr. unfold recorded in Hd. cbn [led_decisions] in Hd.
  assert (d ∈ led_decisions (sv_ledger self) ++ [record]) as [Hd'|Hd']%elem_of_app.
  { unfold bound in Hd. destruct (_ <? _)%Z; [|done]. by eapply subseteq_drop. }
  - eapply accounted_more; [exact Hsub|auto].
  - apply list_elem_of_singleton in Hd' as ->. auto.
Qed.

(** The file after an evaluation: as it was, or with the ledger. *)
Lemma evaluated_file w0 st st' ledger (r : result AttentionError DecisionRecord) :
  (ledger_entry (ar_world st) = ledger_entry w0 /\ ar_saved st = []
   \/ exists bytes ledger, ledger_entry (ar_world st) = Some (EFile bytes) /\ ledger_from_slice bytes = Ok ledger
        /\ faithful w0 st ledger (ar_saved st)) ->
  ar_decided st ⊆ ar_decided st' -> faithful w0 st' ledger (ar_kept st') ->
  (is_ok r = false /\ ledger_entry (ar_world st') = ledger_entry (ar_world st)
   \/ exists bytes, ledger_entry (ar_world st') = Some (EFile bytes) /\ ledger_from_slice bytes = Ok ledger) ->
  (if is_ok r then ar_saved st' = ar_kept st' else ar_saved st' = ar_saved st) ->
  ledger_entry (ar_world st') = ledger_entry w0 /\ ar_saved st' = []
  \/ exists bytes ledger, ledger_entry (ar_world st') = Some (EFile bytes) /\ ledger_from_slice bytes = Ok ledger
       /\ faithful w0 st' ledger (ar_saved st').
Proof.
  intros Hfile Hsub Hf Hcase Hs. destruct Hcase as [[Hr He]|(bytes & Hb & Hd)].
  - rewrite Hr in Hs. rewrite He, Hs. destruct Hfile as [?|(bytes & old & Hb & Hd & Hold)]; [by left|right].
    exists bytes, old. split; [done|]. split; [done|]. by eapply faithful_more.
  - right. exists bytes, ledger. split; [done|]. split; [done|]. destruct Hf as (H1 & H2 & H3). split; [done|]. split; [|done].
    eapply covers_fewer; [|exact H2]. intros p. unfold ar_kept in *. rewrite how_many_app.
    pose proof (how_many_pos p (ar_unsaved st')). destruct (is_ok r); [rewrite Hs, how_many_app|]; lia.
Qed.

Lemma evaluate_budgeted w0 st c autonomy workload now :
  budgeted w0 st -> budgeted w0 (attention_do (AEvaluate c autonomy workload now) st).
Proof.
  intros [Hsv Hfile Hw Hans]. unfold attention_do. destruct (ar_service st) as [self|] eqn:Es; [|by split; [rewrite Es|..]].
  destruct (Hsv self eq_refl) as (Hroot & Hcfg & Hled).
  destruct (evaluates c autonomy workload now (MkAttending self (ar_world st))) as [r a] eqn:Er.
  apply evaluate_effect in Er; [|done]. destruct Er as [(-> & -> & Hr)|(Hk & _ & Hself & Hcase)].
  { assert (decided self self c now = []) as -> by (unfold decided; by destruct (known self c)).
    assert (bool_decide (known self c = None) && is_ok r = false) as ->.
    { destruct r as [d|e]; [|apply andb_false_r]. by rewrite (Hr d eq_refl). }
    split; cbn; [by intros self' [= <-]|done|done|]. intros d [Hd|Hd]%elem_of_app; [|by apply Hans].
    destruct r as [d'|e]; simpl in Hd; [|by apply not_elem_of_nil in Hd].
    destruct (reaches_user (dec_decision d')) eqn:Hd'; [|by apply not_elem_of_nil in Hd].
    apply list_elem_of_singleton in Hd as ->. destruct Hled as (_ & _ & Ha). apply Ha; [|done].
    specialize (Hr d' eq_refl). unfold known in Hr. apply find_some in Hr as [Hin _]. by apply list_elem_of_In. }
  set (record := judged self c autonomy workload now) in *.
  assert (decided self (at_self a) c now = if reaches_user (dec_decision record) then [notice self c now record] else []) as ->.
  { pose proof (known_recorded self c autonomy workload now Hcfg Hk) as Hkr. cbv zeta in Hkr. fold record in Hkr.
    unfold decided. by rewrite Hk, Hself, Hkr. }
  rewrite (bool_decide_eq_true_2 (known self c = None)) by done. rewrite Hself.
  set (news := if reaches_user (dec_decision record) then [notice self c now record] else []).
  set (st' := MkAttentionRun _ _ _ _ _ _).
  assert (ar_kept st' = news ++ ar_kept st) as Hkept.
  { unfold ar_kept, st'. cbn [ar_saved ar_unsaved andb]. destruct (is_ok r); simpl; by rewrite ?app_assoc. }
  assert (ar_decided st ⊆ ar_decided st') as Hsub.
  { unfold ar_decided. rewrite Hkept. unfold st'. cbn [ar_lost]. intros n. rewrite !elem_of_app. tauto. }
  assert (reaches_user (dec_decision record) = true -> accounted w0 st' record) as Hnew.
  { intros Hn. right. exists (notice self c now record). split; [|done]. unfold ar_decided. rewrite Hkept. unfold news. rewrite Hn.
    rewrite !elem_of_app. right. left. by apply list_elem_of_singleton. }
  pose proof (recorded_faithful w0 st st' self c record now Hled Hsub Hnew) as Hfaith. fold news in Hfaith. rewrite <- Hkept in Hfaith.
  assert (forall d, d ∈ answer r ++ ar_answered st -> accounted w0 st' d) as Hans'.
  { intros d [Hd|Hd]%elem_of_app; [|eapply accounted_more; eauto]. destruct r as [d'|e]; simpl in Hd; [|by apply not_elem_of_nil in Hd].
    destruct Hcase as [([e [=]] & _)|(_ & Hok)]. destruct (Hok d' eq_refl) as [-> _].
    destruct (reaches_user (dec_decision record)) eqn:Hn; [|by apply not_elem_of_nil in Hd].
    apply list_elem_of_singleton in Hd as ->. by apply Hnew. }
  assert (within (ar_kept st')) as Hw'.
  { rewrite Hkept. unfold news. destruct (reaches_user (dec_decision record)) eqn:Hn; [|done]. destruct Hled as (_ & Hc & _).
    by eapply within_notice. }
  split; [by intros self' [= <-]| |done|done]. apply (evaluated_file w0 st st' (recorded self c record now) r); [done|done|done| |].
  - destruct Hcase as [(He & Hf & _)|((bytes & Hb & Hd) & _)]; [left; split; [|done]|right; exists bytes; split; [done|]].
    + by destruct He as [e ->].
    + by rewrite Hd, Hself.
  - unfold st', ar_kept. cbn [ar_saved ar_unsaved andb]. by destruct (is_ok r).
Qed.

Lemma restart_budgeted w0 st now :
  stat_works (ar_world st) -> budgeted w0 st -> budgeted w0 (attention_do (ARestart now) st).
Proof.
  intros Hst [_ Hfile Hw Hans]. unfold attention_do.
  destruct (open inbox error_to_string root profile config now (ar_world st)) as [r w] eqn:Eo. apply open_effect in Eo as [He Hr].
  set (st' := MkAttentionRun _ _ _ _ _ _).
  assert (ar_decided st ⊆ ar_decided st') as Hsub.
  { unfold ar_decided, ar_kept, st'. cbn [ar_lost ar_saved ar_unsaved app]. intros n. rewrite !elem_of_app. tauto. }
  assert (within (ar_saved st)) as Hsaved.
  { intros channel key limit Hl. specialize (Hw channel key limit Hl). unfold ar_kept in Hw. rewrite how_many_app in Hw.
    pose proof (how_many_pos (fun n => for_day channel key n && not_urgent n) (ar_unsaved st)). lia. }
  split; [|unfold st'; cbn [ar_world ar_saved]; rewrite He|done|intros d Hd; eapply accounted_more; eauto].
  2: { destruct Hfile as [?|(bytes & ledger & Hb & Hd & Hf)]; [by left|right]. exists bytes, ledger. split; [done|]. split; [done|].
       by eapply faithful_more. }
  intros self Hself. unfold st' in Hself. cbn [ar_service] in Hself. destruct r as [self'|e]; [|done]. injection Hself as ->.
  destruct Hr as (Hroot & _ & Hcfg & _ & Hopen). split; [done|]. split; [done|]. change (ar_kept st') with (ar_saved st).
  destruct Hfile as [[Hf0 Hs0]|(bytes & ledger & Hb & Hd & Hf)].
  - rewrite Hs0. destruct Hopen as [(bytes & Hb & Hd)|[-> _]].
    + split; [by eapply decoded_typed|]. split; [by eapply covers_nil, decoded_typed|]. intros d Hin _. left.
      exists bytes, (sv_ledger self). rewrite <- Hf0. done.
    + assert (typed_counts (MkLedger profile [] [] ∅)) as Ht.
      { intros key. unfold counted. cbn [led_counts]. rewrite lookup_empty. unfold is_u32, u32_max. simpl. lia. }
      split; [done|]. split; [by apply covers_nil|]. intros d Hin. by apply not_elem_of_nil in Hin.
  - destruct Hopen as [(bytes' & Hb' & Hd')|[_ Hnone]]; [|rewrite (Hnone Hst) in Hb; done].
    assert (sv_ledger self = ledger) as -> by congruence. by eapply faithful_more.
Qed.


(** ** Bounded work *)

Context (Hcodec : action_codec).

Abbreviation sees_inbox w recs := (sees shared_inbox (aw_inbox w) recs).

Lemma spec_submit_work (action : SessionAction) now :
  is_i64 (unix_millis now) -> id_canonical (as_entity_id (act_id action)) ->
  spec shared_inbox (fun _ => True)
    (found ← ActionStore.get (act_id action);
     match found with None => submit inbox action now ;; mret tt | Some _ => mret tt end)
    (fun _ recs => delivered (act_id action) recs).
Proof.
  intros Hnow Hid. eapply spec_bind; [apply spec_get_action; by intros ???|]. intros [y|]; cbn beta iota.
  - apply spec_ret. intros recs [_ (x & Hx & -> & Hact)]. by exists x.
  - eapply spec_bind; [|intros y; apply spec_ret; intros recs Hd; exact Hd].
    eapply spec_weaken; [apply (spec_submit inbox Hcodec shared_inbox (fun _ => True)); [by intros ???|done|done|]|done|].
    + intros listed recs q s _ _ Hsub Hnone. by eapply submits_follows.
    + intros y recs' (listed & recs & q & s & _ & _ & Hsub & _ & _ & Hs & _). exists s. split; [done|].
      destruct Hsub as (_ & _ & _ & _ & (seq & n & -> & _) & _). done.
Qed.

Lemma submit_candidate_acting self c now w :
  submit_candidate inbox error_to_string self c now w =
  acting error_to_string (let action := action_for c (attention_limits (sv_config self)) in
    found ← ActionStore.get (act_id action);
    match found with None => submit inbox action now ;; mret tt | Some _ => mret tt end) w.
Proof.
  unfold submit_candidate, acting. rewrite !stateT_bind_unfold.
  destruct (ActionStore.get _ (aw_inbox w)) as [[[y|]|e] s]; cbn [map_err]; [done| |done].
  rewrite !stateT_bind_unfold. simpl. by destruct (submit inbox _ now s) as [[y|e] s'].
Qed.

Lemma acting_inv {A} (m : stateT (World S) (ActionStoreError repo_error) A) w r w' :
  acting error_to_string m w = (r, w') ->
  exists q, m (aw_inbox w) = (q, aw_inbox w') /\ r = map_err (fun e => AtAction (error_to_string e)) q.
Proof. unfold acting. destruct (m (aw_inbox w)) as [q s]. intros [= <- <-]. by exists q. Qed.

(** Submitting leaves the action in the inbox, unless it fails. *)
Lemma submit_delivers self c now w r w' recs :
  sees_inbox w recs -> is_i64 (unix_millis now) -> id_canonical (cand_id c) ->
  submit_candidate inbox error_to_string self c now w = (r, w') ->
  exists recs', sees_inbox w' recs' /\ follows actions recs recs'
    /\ (r = Ok tt -> delivered (MkTypedId (cand_id c)) recs').
Proof.
  intros Hs Hnow Hid Hr. rewrite submit_candidate_acting in Hr.
  apply acting_inv in Hr as (q & Eq & ->).
  pose proof (spec_submit_work (action_for c (attention_limits (sv_config self))) now Hnow Hid recs (aw_inbox w) q (aw_inbox w')
    (since_now shared_inbox (fun _ => True) _ recs Hs I) Eq) as Hq.
  destruct q as [[]|e]; destruct Hq as (recs' & Hs' & Hf & Hd); exists recs'; (split; [done|]); (split; [done|]); done.
Qed.

Lemma recover_delivers self now w r w' recs :
  sees_inbox w recs -> is_i64 (unix_millis now) ->
  Forall (fun c => id_canonical (cand_id c)) (led_candidates (sv_ledger self)) ->
  recover_started inbox error_to_string self now w = (r, w') ->
  exists recs', sees_inbox w' recs' /\ follows actions recs recs'
    /\ (r = Ok tt -> Forall (fun c => delivered (MkTypedId (cand_id c)) recs') (started_candidates (sv_ledger self))).
Proof.
  intros Hs Hnow Hids Hr. unfold recover_started in Hr.
  assert (Forall (fun c => id_canonical (cand_id c)) (started_candidates (sv_ledger self))) as Hst.
  { apply list.Forall_forall. intros c [Hc _]%list_elem_of_In%filter_In. rewrite list.Forall_forall in Hids.
    by apply Hids, list_elem_of_In. }
  clear Hids. revert w recs Hs Hr. induction Hst as [|c cs Hc _ IH]; intros w recs Hs Hr; cbn [try_for] in Hr.
  { injection Hr as <- <-. exists recs. split; [done|]. split; [reflexivity|]. by constructor. }
  rewrite stateT_bind_unfold in Hr. destruct (submit_candidate _ _ self c now w) as [q w1] eqn:E1.
  destruct (submit_delivers self c now w q w1 recs Hs Hnow Hc E1) as (recs1 & Hs1 & Hf1 & Hd1).
  destruct q as [[]|e]; [|injection Hr as <- <-; by exists recs1].
  destruct (IH w1 recs1 Hs1 Hr) as (recs' & Hs' & Hf & Hall). exists recs'. split; [done|]. split; [by etrans|].
  intros ->. constructor; [|by apply Hall]. eapply delivered_follows; [exact Hf|]. by apply Hd1.
Qed.

(** The newest entry stays. *)
Lemma bound_last {A} (xs : list A) x maximum : (0 < maximum)%Z -> x ∈ bound (xs ++ [x]) maximum.
Proof.
  intros Hm. destruct (bound_snoc xs x maximum Hm) as (ys & -> & _). apply elem_of_app. right. by apply list_elem_of_singleton.
Qed.

(** C28: bounded work that was decided on is durable: a new decision to start it
    is returned only once the decision is in the file and the action in the
    inbox. *)
Theorem started_work_queued self w recs c autonomy workload now d a :
  sv_root self = root -> (0 < max_history (sv_config self))%Z ->
  sees_inbox w recs -> is_i64 (unix_millis now) -> id_canonical (cand_id c) -> known self c = None ->
  evaluates c autonomy workload now (MkAttending self w) = (Ok d, a) -> dec_decision d = StartBoundedWork ->
  exists recs', sees_inbox (at_world a) recs' /\ delivered (MkTypedId (cand_id c)) recs'
    /\ exists bytes ledger, ledger_entry (at_world a) = Some (EFile bytes) /\ ledger_from_slice bytes = Ok ledger
        /\ d ∈ led_decisions ledger.
Proof.
  intros Hroot Hmax Hs Hnow Hid Hk Hr Hd. apply evaluate_effect in Hr; [|done].
  destruct Hr as [(_ & _ & Hold)|(_ & _ & Hself & [([e [=]] & _)|((bytes & Hb & Hl) & Hok)])].
  { rewrite (Hold d eq_refl) in Hk. done. }
  destruct (Hok d eq_refl) as [Hrec Hsub]. rewrite <- Hrec in Hsub, Hself.
  destruct (Hsub Hd) as (w1 & Hin & Hw1). rewrite <- Hin in Hs.
  destruct (submit_delivers _ c now w1 _ _ recs Hs Hnow Hid Hw1) as (recs' & Hs' & _ & Hdel).
  exists recs'. split; [done|]. split; [by apply Hdel|]. exists bytes, (sv_ledger (at_self a)). split; [done|]. split; [done|].
  rewrite Hself. by apply bound_last.
Qed.

(** Work is not lost when the process stops between the decision and the
    submission: once [open] succeeds, the action of every candidate that the
    ledger has as started is in the inbox. *)
Theorem open_resumes_work now w recs self w' :
  (forall bytes ledger, ledger_from_slice bytes = Ok ledger ->
     Forall (fun c => id_canonical (cand_id c)) (led_candidates ledger)) ->
  sees_inbox w recs -> is_i64 (unix_millis now) ->
  open inbox error_to_string root profile config now w = (Ok self, w') ->
  exists recs', sees_inbox w' recs'
    /\ Forall (fun c => delivered (MkTypedId (cand_id c)) recs') (started_candidates (sv_ledger self)).
Proof.
  intros Hids Hs Hnow Hr. pose proof (open_effect _ _ _ _ _ _ Hr) as (_ & _ & _ & _ & _ & Hled).
  unfold open in Hr. rewrite stateT_bind_unfold in Hr. unfold lift in Hr.
  destruct (validate_config config) as [zone|e]; [|done]. rewrite stateT_bind_unfold in Hr.
  destruct (try_file _ w) as [[u|e] w0] eqn:E0; [|done]. apply try_file_inv in E0 as (_ & _ & _ & H0).
  rewrite stateT_bind_unfold in Hr. destruct (try_file _ w0) as [[p|e] w1] eqn:E1; [|done].
  apply try_file_inv in E1 as (_ & _ & _ & H1). rewrite stateT_bind_unfold in Hr.
  destruct (load_ledger _ _ w1) as [[ledger|e] w2] eqn:E2; [|done]. apply load_inbox in E2.
  rewrite stateT_bind_unfold in Hr. destruct (recover_started _ _ _ now w2) as [[[]|e] w3] eqn:E3; [|done].
  injection Hr as Hself <-. rewrite Hself in E3.
  eapply recover_delivers in E3 as (recs' & Hs' & _ & Hall); [|by rewrite E2, H1, H0|done|].
  - exists recs'. split; [done|]. by apply Hall.
  - destruct Hled as [(bytes & _ & Hd)|[-> _]]; [by eapply Hids|constructor].
Qed.
End service.
