(* ===== verification/AttentionExample.v ===== *)
(** * A concrete attention service

    Closed instances of the theorems about attention: a budget that outlives a
    restart and failed writes, work that is queued when it is decided on and
    resumed by the next process, and what happens when the file system does not
    answer or the inbox is full. *)

From Stdlib Require Import ZArith Lia String.
From stdpp Require Import base decidable countable relations gmap sorting option list.
From S2P Require Import Prelude RustStd RustText AgentTypes Json StateStoreCore StateStore ItemStore Serial ServiceExample.
From S2P Require Import ActionStore ActionMachine ActionProperties ActionExample Schedules SchedulerExample.
From S2P Require Import FileSystem Attention AttentionProperties.

(** ** Codec *)

#[export] Program Instance AttentionDecision_enumerated : Enumerated AttentionDecision := {|
  variants := [Ignore; Remember; Batch; Schedule; Ask; StartBoundedWork; Notify] |}.
Next Obligation. intros []; repeat constructor. Qed.
#[export] Program Instance Serial_signals : Serial InitiativeSignals :=
  Serial_via (fun x => (urgency x, expected_value x, confidence x, interruption_cost x, resource_cost x, duplication_penalty x))
    (fun t => let '(a, b, c, d, e, f) := t in Some (MkSignals a b c d e f)) _.
Next Obligation. by intros []. Qed.
#[export] Program Instance Serial_candidate : Serial InitiativeCandidate :=
  Serial_via (fun x => (cand_id x, cand_event_id x, cand_profile_id x, cand_session_id x, cand_channel x, cand_topic x,
                        cand_proposed_action x, cand_signals x, cand_created_at x, cand_expires_at x))
    (fun t => let '(a, b, c, d, e, f, g, h, i, j) := t in Some (MkCandidate a b c d e f g h i j)) _.
Next Obligation. by intros []. Qed.
#[export] Program Instance Serial_decision : Serial DecisionRecord :=
  Serial_via (fun x => (dec_candidate_id x, dec_event_id x, dec_decision x, dec_score x, dec_reasons x, dec_decided_at x))
    (fun t => let '(a, b, c, d, e, f) := t in Some (MkDecision a b c d e f)) _.
Next Obligation. by intros []. Qed.
#[export] Program Instance Serial_ledger : Serial AttentionLedger :=
  Serial_via (fun x => (led_profile_id x, led_candidates x, led_decisions x, led_counts x))
    (fun t => let '(a, b, c, d) := t in Some (MkLedger a b c d)) _.
Next Obligation. by intros []. Qed.

(** The counts are values of [u32] and the candidates have canonical identifiers. *)
Definition ledger_valid (x : AttentionLedger) : bool :=
  forallb (fun p => (0 <=? p.2)%Z && (p.2 <=? u32_max)%Z) (map_to_list (led_counts x))
  && forallb (fun c => canonicalb (cand_id c)) (led_candidates x).

Definition checked_ledger (x : AttentionLedger) : result JsonError AttentionLedger :=
  if ledger_valid x then Ok x else Err JsonErr.

Lemma checked_ledger_Ok x y : checked_ledger x = Ok y -> x = y /\ ledger_valid y = true.
Proof. unfold checked_ledger. destruct (ledger_valid x) eqn:E; [|done]. by intros [= <-]. Qed.

Definition ledger_bytes (x : AttentionLedger) : result JsonError (list Z) :=
  match checked_ledger x with Ok x => Ok (ser x) | Err e => Err e end.
Definition ledger_of (bytes : list Z) : result JsonError AttentionLedger :=
  match de_all bytes with Some x => checked_ledger x | None => Err JsonErr end.

Lemma ledger_of_valid bytes x : ledger_of bytes = Ok x -> ledger_valid x = true.
Proof. unfold ledger_of. destruct (de_all bytes) as [y|]; [|done]. by intros [_ ?]%checked_ledger_Ok. Qed.

Lemma ledger_of_bytes x bytes : ledger_bytes x = Ok bytes -> ledger_of bytes = Ok x.
Proof.
  unfold ledger_bytes, ledger_of. destruct (checked_ledger x) as [y|e] eqn:E; [|done]. intros H.
  assert (bytes = ser y) as -> by congruence. rewrite de_all_ser. by destruct (checked_ledger_Ok x y E) as [-> _].
Qed.

Lemma ledger_of_counts x bytes key n : ledger_of bytes = Ok x -> led_counts x !! key = Some n -> is_u32 n.
Proof.
  intros [Hv _]%ledger_of_valid%andb_true_iff Hn. rewrite forallb_forall in Hv. specialize (Hv (key, n)).
  rewrite <- list_elem_of_In, elem_of_map_to_list in Hv. specialize (Hv Hn). simpl in Hv. unfold is_u32. bool_inv. lia.
Qed.

#[export] Instance serial_ledger : LedgerCodec := {|
  ledger_to_vec := ledger_bytes; ledger_from_slice := ledger_of;
  ledger_from_to := ledger_of_bytes; ledger_counts_typed := ledger_of_counts
|}.

Lemma ledger_ids bytes ledger :
  ledger_from_slice bytes = Ok ledger -> Forall (fun c => id_canonical (cand_id c)) (led_candidates ledger).
Proof.
  intros [_ Hv]%ledger_of_valid%andb_true_iff. apply list.Forall_forall. intros c Hc. rewrite forallb_forall in Hv.
  apply canonicalb_sound, Hv. by apply list_elem_of_In.
Qed.

(** ** A run *)

Definition attention_root : Path := [str "attention"].
Definition owner : ProfileId := MkTypedId (named_id 1).
Definition mail : rstr := str "mail".

(** One notification a day by mail, and a quiet night from ten to seven. *)
Definition night : QuietHours := MkQuietHours (str "Etc/GMT-1") 1320 420.
Definition modest : AttentionConfig :=
  MkAttentionConfig (Some night) 86400000 {[mail := 1%Z]} ∅ 256 512 (attention_limits default_attention_config).

Definition noon : UtcTimestamp := moment 1709290800000.
Definition midnight : UtcTimestamp := moment 1709334000000.

Definition proposal (n : Z) (topic : string) (signals : InitiativeSignals) : InitiativeCandidate :=
  MkCandidate (named_id n) (named_id (n + 1000)) owner sample_session mail (str topic) (str "tell the user") signals noon
    (moment (1709290800000 + 86400000)).

(** Scores of 750 and of 925. *)
Definition worthwhile : InitiativeSignals := MkSignals 800 900 450 0 0 0.
Definition pressing : InitiativeSignals := MkSignals 900 900 1000 0 0 0.

Abbreviation opens := (open default_inbox_config inbox_error attention_root owner modest).
Abbreviation runs := (attention_run default_inbox_config inbox_error attention_root owner modest).
Abbreviation judges inbox := (evaluate_one inbox inbox_error).

Definition new_world : AttentionWorld EmbeddedStore := MkAttentionWorld (MkFs ∅ []) fresh_world.
Definition failing (script : list IoOutcome) : AttentionWorld EmbeddedStore := MkAttentionWorld (MkFs ∅ script) fresh_world.

Definition new_service : AttentionService :=
  MkAttention attention_root owner modest (Some plus_one) (MkLedger owner [] [] ∅).

(** What the record says, with its reasons. *)
Definition outcome (r : result AttentionError DecisionRecord) : option (AttentionDecision * Z) :=
  match r with Ok d => Some (dec_decision d, dec_score d) | Err _ => None end.

Definition queued (w : AttentionWorld EmbeddedStore) : nat := length (states_in (aw_inbox w)).

Lemma new_clock_typed : clock_typed new_service.
Proof.
  split; [|intros quiet [= <-]; simpl; lia]. intros t. cbn [dt_hour dt_minute fixed_chrono].
  split; apply Z.mod_pos_bound; lia.
Qed.

(** ** Instances *)

Lemma attention_restraint_witness :
  let c := proposal 20 "invoice" worthwhile in
  dec_decision (judged new_service c Bounded WorkIdle noon) = StartBoundedWork
  /\ dec_decision (judged new_service c Bounded WorkIdle midnight) = Batch
  /\ ~ in_quiet_hours new_service noon /\ within_budget new_service mail noon.
Proof.
  intros c. assert (dec_decision (judged new_service c Bounded WorkIdle noon) = StartBoundedWork) as Hd by (vm_compute; reflexivity).
  split; [exact Hd|]. split; [vm_compute; reflexivity|].
  destruct (attention_restraint new_service c Bounded WorkIdle noon new_clock_typed) as (_ & _ & Hq & Hb & _).
  { rewrite Hd. reflexivity. }
  split; [apply Hq; simpl; lia|apply Hb; simpl; lia].
Defined.

(** The first decision cannot be written, and is repeated when it is asked for
    again; a restart loses it, one notification is made, and after another restart
    only an urgent one. *)
Definition one_a_day : list attention_op :=
  [ARestart noon; AEvaluate (proposal 20 "invoice" pressing) Suggest WorkIdle noon;
   AEvaluate (proposal 20 "invoice" pressing) Suggest WorkIdle noon; ARestart noon;
   AEvaluate (proposal 21 "invoice" pressing) Suggest WorkIdle noon; ARestart noon;
   AEvaluate (proposal 22 "flight" pressing) Suggest WorkIdle noon;
   AEvaluate (proposal 23 "fire" (MkSignals 1000 900 1000 0 0 0)) Suggest WorkIdle noon].

Definition unwritable : AttentionWorld EmbeddedStore := failing [IoDone; IoDone; IoDone; IoFails None].

Lemma modest_budgets channel limit : notification_budgets modest !! channel = Some limit -> is_u32 limit.
Proof. cbn [notification_budgets modest]. intros [<- <-]%lookup_singleton_Some. unfold is_u32, u32_max. lia. Qed.

Lemma one_a_day_restarts :
  restarts_ok default_inbox_config inbox_error attention_root owner modest one_a_day (first_run unwritable).
Proof.
  cbn [restarts_ok one_a_day]. unfold stat_works.
  repeat lazymatch goal with
  | |- _ /\ _ => split
  | |- True => exact I
  | |- forall leaves, script (aw_files (ar_world ?st)) !! 2 <> _ =>
      let v := eval vm_compute in (script (aw_files (ar_world st)) !! 2) in
      intros leaves; replace (script (aw_files (ar_world st)) !! 2) with v by (vm_compute; reflexivity); discriminate
  end.
Qed.


(** Bounded work, as it is decided on. *)
Definition work : InitiativeCandidate := proposal 20 "invoice" worthwhile.
Definition starting := judges default_inbox_config work Bounded WorkIdle noon (MkAttending new_service new_world).

Lemma started_work_queued_witness :
  outcome starting.1 = Some (StartBoundedWork, 750%Z) /\ queued (at_world starting.2) = 1
  /\ exists recs, sees shared_inbox (aw_inbox (at_world starting.2)) recs /\ delivered (MkTypedId (cand_id work)) recs.
Proof.
  split; [vm_compute; reflexivity|]. split; [vm_compute; reflexivity|].
  destruct (ok_pair starting) as [d Hd]; [vm_compute; reflexivity|].
  destruct (started_work_queued default_inbox_config inbox_error attention_root action_document_codec new_service new_world ∅
    work Bounded WorkIdle noon d starting.2) as (recs & Hs & Hdel & _).
  - reflexivity.
  - simpl. lia.
  - apply fresh_sees.
  - apply moment_i64. lia.
  - apply named_id_canonical. lia.
  - reflexivity.
  - exact Hd.
  - assert (outcome starting.1 = Some (StartBoundedWork, 750%Z)) as H by (vm_compute; reflexivity).
    rewrite Hd in H. simpl in H. congruence.
  - exists recs. split; [exact Hs|exact Hdel].
Defined.

(** The process stopped before it submitted the work: the file is written, the
    inbox is empty. *)
Definition stopped : AttentionWorld EmbeddedStore := MkAttentionWorld (aw_files (at_world starting.2)) fresh_world.

Lemma open_resumes_work_witness :
  queued stopped = 0 /\ queued (opens noon stopped).2 = 1
  /\ exists self recs, (opens noon stopped).1 = Ok self /\ sees shared_inbox (aw_inbox (opens noon stopped).2) recs
      /\ Forall (fun c => delivered (MkTypedId (cand_id c)) recs) (started_candidates (sv_ledger self)).
Proof.
  split; [vm_compute; reflexivity|]. split; [vm_compute; reflexivity|].
  destruct (ok_pair (opens noon stopped)) as [self Hself]; [vm_compute; reflexivity|].
  destruct (open_resumes_work default_inbox_config inbox_error attention_root owner modest action_document_codec noon stopped ∅
    self (opens noon stopped).2 ledger_ids) as (recs & Hs & Hall).
  - apply fresh_sees.
  - apply moment_i64. lia.
  - exact Hself.
  - exists self, recs. split; [rewrite Hself; reflexivity|]. split; [exact Hs|exact Hall].
Defined.

(** ** What goes wrong *)

(** The queue of the session is full: the evaluation fails, and when it is tried
    again the work is reported as started although it is not in the inbox. *)
Definition full_inbox : AttentionWorld EmbeddedStore :=
  MkAttentionWorld (MkFs ∅ []) (inbox_run narrow_inbox [(ISubmit background_work, moment 1)] fresh_world).
Definition first_try := judges narrow_inbox work Bounded WorkIdle noon (MkAttending new_service full_inbox).
Definition second_try := judges narrow_inbox work Bounded WorkIdle noon first_try.2.

Lemma retried_start_not_queued :
  outcome first_try.1 = None /\ outcome second_try.1 = Some (StartBoundedWork, 750%Z)
  /\ states_in (aw_inbox (at_world second_try.2)) = [(str "tidy up", AQueued)]
  /\ is_ok (open narrow_inbox inbox_error attention_root owner modest noon (at_world second_try.2)).1 = false.
Proof. split_and!; vm_compute; reflexivity. Qed.

(** The file system does not answer whether the ledger exists: the service starts
    with an empty one, and the budget of the day is spent twice. *)
Definition forgetful : list attention_op :=
  [ARestart noon; AEvaluate (proposal 21 "invoice" pressing) Suggest WorkIdle noon; ARestart noon;
   AEvaluate (proposal 22 "flight" pressing) Suggest WorkIdle noon].
Definition unanswered : AttentionWorld EmbeddedStore :=
  failing [IoDone; IoDone; IoDone; IoDone; IoDone; IoDone; IoDone; IoFails None].

Lemma unanswered_stat_overspends :
  no_urgency <$> ar_saved (runs forgetful (first_run unanswered)) = [900; 900]%Z.
Proof. vm_compute. reflexivity. Qed.

(** A decision is in memory before it is in the file: when its write fails the
    evaluation fails, when it is tried again the user is notified, and after a
    restart the budget of the day is spent again. *)
Lemma unwritten_notice_overspends :
  let st := runs (take 5 one_a_day) (first_run unwritable) in
  length (ar_answered st) = 2 /\ no_urgency <$> ar_saved st = [900]%Z /\ no_urgency <$> ar_lost st = [900]%Z.
Proof. split_and!; vm_compute; reflexivity. Qed.
