(* ===== verification/Configuration.v ===== *)
(** * Layered configuration: [crates/configuration/src/lib.rs]

    Patches of the global, profile, workspace, session and action layers over
    the installation defaults, the manager that keeps the last valid
    configuration, and its snapshots.  The [serde] codecs of the snapshot and of
    a configuration and the TOML parser are parameters. *)

From Stdlib Require Import ZArith Lia String.
From stdpp Require Import base decidable countable gmap sorting option list.
From S2P Require Import Prelude RustStd RustText AgentTypes Json ItemStore.

(** ** Data *)

Inductive LayerKind := LGlobal | LProfile | LWorkspace | LSession | LAction.

#[export] Instance LayerKind_eq_dec : EqDecision LayerKind.
Proof. solve_decision. Defined.

Definition layer_rank (k : LayerKind) : Z :=
  match k with LGlobal => 0 | LProfile => 1 | LWorkspace => 2 | LSession => 3 | LAction => 4 end.

(** The derived order. *)
Definition layer_gtb (k l : LayerKind) : bool := (layer_rank l <? layer_rank k)%Z.

Definition all_layers : list LayerKind := [LGlobal; LProfile; LWorkspace; LSession; LAction].

#[export] Program Instance LayerKind_enumerated : Enumerated LayerKind := {| variants := all_layers |}.
Next Obligation. intros []; repeat constructor. Qed.

Inductive AutonomyMode := ModeOff | ModeSuggest | ModeConfirmSelected | ModeBounded.
Inductive ThinkingLevel := Minimal | Low | Medium | High.
Inductive ToolPermission := Deny | Confirm | Allow.
Inductive PlatformServiceGroup := SgChannels | SgAcp | SgPlugins | SgConnectedApps | SgComputers | SgTeaching.

#[export] Instance ConfigMode_eq_dec : EqDecision AutonomyMode.
Proof. solve_decision. Defined.
#[export] Instance ThinkingLevel_eq_dec : EqDecision ThinkingLevel.
Proof. solve_decision. Defined.
#[export] Instance ToolPermission_eq_dec : EqDecision ToolPermission.
Proof. solve_decision. Defined.
#[export] Instance PlatformServiceGroup_eq_dec : EqDecision PlatformServiceGroup.
Proof. solve_decision. Defined.

#[export] Program Instance PlatformServiceGroup_enumerated : Enumerated PlatformServiceGroup := {|
  variants := [SgChannels; SgAcp; SgPlugins; SgConnectedApps; SgComputers; SgTeaching] |}.
Next Obligation. intros []; repeat constructor. Qed.

Definition authority (p : ToolPermission) : Z := match p with Deny => 0 | Confirm => 1 | Allow => 2 end.

(** *** Profiles *)

Record ModelSelection := MkModelSelection { ms_provider : rstr; ms_model : rstr }.
Record ModelRoute := MkModelRoute {
  mr_provider : rstr;
  mr_model : rstr;
  mr_fallbacks : list ModelSelection;
  mr_credential_ref : option rstr
}.
Record ProfileAutonomy := MkProfileAutonomy {
  pa_mode : AutonomyMode;
  pa_max_children : Z;
  pa_max_depth : Z;
  pa_daily_token_budget : Z
}.
Record ProfileServicePolicy := MkServicePolicy {
  allowed_connected_app_toolkits : gset rstr;
  allow_computers : bool;
  allow_recording : bool;
  allow_recipe_publication : bool;
  max_computers : Z;
  max_recording_bytes : Z;
  max_recipe_steps : Z
}.
Record NotificationSettings := MkNotificationSettings {
  quiet_hours_start : rstr;
  quiet_hours_end : rstr;
  nt_time_zone : TimeZoneName;
  daily_limit : Z
}.
Record RefinementSettings := MkRefinementSettings {
  rf_enabled : bool;
  require_confirmation : bool;
  editable_targets : gset rstr
}.

#[export] Instance ModelSelection_eq_dec : EqDecision ModelSelection.
Proof. solve_decision. Defined.
#[export] Instance ModelRoute_eq_dec : EqDecision ModelRoute.
Proof. solve_decision. Defined.
#[export] Instance ProfileAutonomy_eq_dec : EqDecision ProfileAutonomy.
Proof. solve_decision. Defined.
#[export] Instance ProfileServicePolicy_eq_dec : EqDecision ProfileServicePolicy.
Proof. solve_decision. Defined.
#[export] Instance TimeZoneName_eq_dec : EqDecision TimeZoneName.
Proof. solve_decision. Defined.
#[export] Instance NotificationSettings_eq_dec : EqDecision NotificationSettings.
Proof. solve_decision. Defined.
#[export] Instance RefinementSettings_eq_dec : EqDecision RefinementSettings.
Proof. solve_decision. Defined.

Record AgentProfile := MkAgentProfile {
  ap_version : SchemaVersion;
  ap_id : ProfileId;
  display_name : rstr;
  ap_workspace_id : WorkspaceId;
  persona_file : PathBuf;
  user_file : PathBuf;
  rule_files : list PathBuf;
  model_route : ModelRoute;
  thinking : ThinkingLevel;
  tool_rules : gmap rstr ToolPermission;
  enabled_skills : list rstr;
  enabled_mcp_servers : list rstr;
  enabled_plugins : list rstr;
  ap_channels : list rstr;
  service_policy : ProfileServicePolicy;
  ap_autonomy : ProfileAutonomy;
  notifications : NotificationSettings;
  refinement : RefinementSettings
}.

(** *** Patches *)

Inductive ListOperation := LReplace (values : list rstr) | LAppendUnique (values : list rstr).
Inductive MapOperation := MReplace (values : gmap rstr ToolPermission) | MMerge (values : gmap rstr ToolPermission).

Record ServiceEnablementPatch := MkServicesPatch {
  sp_channels : option bool;
  sp_acp : option bool;
  sp_plugins : option bool;
  sp_connected_apps : option bool;
  sp_computers : option bool;
  sp_teaching : option bool
}.
Record DaemonPatch := MkDaemonPatch {
  dp_worker_idle_seconds : option Z;
  dp_max_workers : option Z;
  dp_event_replay_limit : option Z
}.
Record ExecutionPatch := MkExecutionPatch {
  ep_workspace_confinement : option bool;
  ep_protect_local_network : option bool;
  ep_max_processes : option Z;
  ep_default_timeout_seconds : option Z
}.
Record AutonomyPatch := MkAutonomyPatch {
  up_default_mode : option AutonomyMode;
  up_max_background_actions_per_hour : option Z;
  up_max_notifications_per_day : option Z
}.
Record RetrievalPatch := MkRetrievalPatch { tp_lexical : option bool; tp_trigram : option bool; tp_vector : option bool }.
Record TelemetryPatch := MkTelemetryPatch { mp_local_metrics : option bool; mp_export : option bool }.
Record ProfileAutonomyPatch := MkProfileAutonomyPatch {
  ap_patch_mode : option AutonomyMode;
  ap_patch_max_children : option Z;
  ap_patch_max_depth : option Z;
  ap_patch_daily_token_budget : option Z
}.
Record NotificationPatch := MkNotificationPatch {
  np_quiet_hours_start : option rstr;
  np_quiet_hours_end : option rstr;
  np_time_zone : option TimeZoneName;
  np_daily_limit : option Z
}.
Record RefinementPatch := MkRefinementPatch {
  rp_enabled : option bool;
  rp_require_confirmation : option bool;
  rp_editable_targets : option ListOperation
}.
Record ProfilePatch := MkProfilePatch {
  pp_replace : option AgentProfile;
  pp_model_route : option ModelRoute;
  pp_thinking : option ThinkingLevel;
  pp_tool_rules : option MapOperation;
  pp_enabled_skills : option ListOperation;
  pp_enabled_mcp_servers : option ListOperation;
  pp_enabled_plugins : option ListOperation;
  pp_channels : option ListOperation;
  pp_service_policy : option ProfileServicePolicy;
  pp_autonomy : option ProfileAutonomyPatch;
  pp_notifications : option NotificationPatch;
  pp_refinement : option RefinementPatch
}.
Record ConfigPatch := MkConfigPatch {
  cp_data_root : option PathBuf;
  cp_daemon : option DaemonPatch;
  cp_execution : option ExecutionPatch;
  cp_autonomy : option AutonomyPatch;
  cp_retrieval : option RetrievalPatch;
  cp_telemetry : option TelemetryPatch;
  cp_services : option ServiceEnablementPatch;
  cp_profile : option ProfilePatch
}.

(** The derived defaults. *)
Definition default_daemon_patch : DaemonPatch := MkDaemonPatch None None None.
Definition default_execution_patch : ExecutionPatch := MkExecutionPatch None None None None.
Definition default_profile_patch : ProfilePatch :=
  MkProfilePatch None None None None None None None None None None None None.
Definition default_config_patch : ConfigPatch := MkConfigPatch None None None None None None None None.

Record ConfigLayer := MkConfigLayer { ly_version : SchemaVersion; ly_kind : LayerKind; ly_patch : ConfigPatch }.

Definition config_layer_new (kind : LayerKind) (patch : ConfigPatch) : ConfigLayer :=
  MkConfigLayer CURRENT_SCHEMA_VERSION kind patch.

(** *** The resolved configuration *)

Record DaemonConfig := MkDaemonConfig { worker_idle_seconds : Z; max_workers : Z; event_replay_limit : Z }.
Record ExecutionConfig := MkExecutionConfig {
  workspace_confinement : bool;
  protect_local_network : bool;
  max_processes : Z;
  default_timeout_seconds : Z
}.
Record AutonomyConfig := MkAutonomyConfig {
  default_mode : AutonomyMode;
  max_background_actions_per_hour : Z;
  max_notifications_per_day : Z
}.
Record RetrievalConfig := MkRetrievalConfig { lexical : bool; trigram : bool; vector : bool }.
Record TelemetryConfig := MkTelemetryConfig { local_metrics : bool; export : bool }.
Record ServiceEnablementConfig := MkServices { enabled_services : gset PlatformServiceGroup }.
Record SelfEvolutionConfig := MkSelfEvolution { se_enabled : bool }.

#[export] Instance DaemonConfig_eq_dec : EqDecision DaemonConfig.
Proof. solve_decision. Defined.
#[export] Instance ExecutionConfig_eq_dec : EqDecision ExecutionConfig.
Proof. solve_decision. Defined.
#[export] Instance AutonomyConfig_eq_dec : EqDecision AutonomyConfig.
Proof. solve_decision. Defined.
#[export] Instance RetrievalConfig_eq_dec : EqDecision RetrievalConfig.
Proof. solve_decision. Defined.
#[export] Instance TelemetryConfig_eq_dec : EqDecision TelemetryConfig.
Proof. solve_decision. Defined.
#[export] Instance ServiceEnablementConfig_eq_dec : EqDecision ServiceEnablementConfig.
Proof. solve_decision. Defined.
#[export] Instance SelfEvolutionConfig_eq_dec : EqDecision SelfEvolutionConfig.
Proof. solve_decision. Defined.

Record RuntimeConfig := MkRuntimeConfig {
  rc_version : SchemaVersion;
  data_root : PathBuf;
  rc_daemon : DaemonConfig;
  rc_execution : ExecutionConfig;
  rc_autonomy : AutonomyConfig;
  rc_retrieval : RetrievalConfig;
  rc_telemetry : TelemetryConfig;
  rc_services : ServiceEnablementConfig;
  rc_self_evolution : SelfEvolutionConfig;
  rc_profile : option AgentProfile
}.

Definition set_enabled (config : ServiceEnablementConfig) (service : PlatformServiceGroup) (enabled : bool)
  : ServiceEnablementConfig :=
  MkServices (if enabled then {[service]} ∪ enabled_services config else enabled_services config ∖ {[service]}).

Definition is_enabled (config : ServiceEnablementConfig) (service : PlatformServiceGroup) : bool :=
  bool_decide (service ∈ enabled_services config).

Definition secure_defaults : RuntimeConfig :=
  MkRuntimeConfig CURRENT_SCHEMA_VERSION (str "keith-data") (MkDaemonConfig 900 8 10000)
    (MkExecutionConfig true true 16 120) (MkAutonomyConfig ModeSuggest 4 12) (MkRetrievalConfig true true false)
    (MkTelemetryConfig true false) (MkServices ∅) (MkSelfEvolution false) None.

(** ** Errors *)

Inductive ConfigError :=
| UnsupportedVersion (version : SchemaVersion)
| SafetyCeiling (field : rstr)
| Prohibited (field : rstr) (layer : LayerKind)
| MissingProfile
| CfgInvalid (message : rstr)
| CfgSerialize (error : JsonError)
| CfgToml (message : rstr)
| SnapshotMismatch.

Definition layer_debug (k : LayerKind) : rstr :=
  match k with
  | LGlobal => str "Global"
  | LProfile => str "Profile"
  | LWorkspace => str "Workspace"
  | LSession => str "Session"
  | LAction => str "Action"
  end.

(** ** Patches *)

(** [replace_if_some(&mut target, value)]. *)
Definition replace_if_some {A} (target : A) (value : option A) : A := default target value.

Definition lower_ceiling (target : Z) (value : option Z) (field : rstr) : result ConfigError Z :=
  match value with
  | None => Ok target
  | Some value => reject_if (target <? value)%Z (SafetyCeiling field) ;; Ok value
  end.

Definition enforce_true (target : bool) (value : option bool) (field : rstr) : result ConfigError bool :=
  reject_if (bool_decide (value = Some false) && target) (SafetyCeiling field) ;;
  Ok (replace_if_some target value).

Definition append_unique (target : list rstr) (value : rstr) : list rstr :=
  if bool_decide (value ∈ target) then target else target ++ [value].

Definition apply_list (target : list rstr) (operation : option ListOperation) : list rstr :=
  match operation with
  | Some (LReplace values) => values
  | Some (LAppendUnique values) => fold_left append_unique values target
  | None => target
  end.

Definition apply_tool_rule (kind : LayerKind) (target : gmap rstr ToolPermission) (entry : rstr * ToolPermission)
  : result ConfigError (gmap rstr ToolPermission) :=
  let '(tool, permission) := entry in
  reject_if (match target !! tool with
             | Some current => (authority current <? authority permission)%Z
             | None => false
             end && layer_gtb kind LProfile)
    (SafetyCeiling (str "profile.tool_rules")) ;;
  Ok (<[tool := permission]> target).

Definition apply_tool_rules (target : gmap rstr ToolPermission) (operation : MapOperation) (kind : LayerKind)
  : result ConfigError (gmap rstr ToolPermission) :=
  match operation with
  | MReplace values =>
      reject_if (layer_gtb kind LProfile) (Prohibited (str "profile.tool_rules.replace") kind) ;;
      try_fold (apply_tool_rule kind) ∅ (btree_iter values)
  | MMerge values => try_fold (apply_tool_rule kind) target (btree_iter values)
  end.

Definition apply_profile_autonomy (target : ProfileAutonomy) (patch : option ProfileAutonomyPatch)
  : result ConfigError ProfileAutonomy :=
  match patch with
  | None => Ok target
  | Some a =>
      let mode := replace_if_some (pa_mode target) (ap_patch_mode a) in
      children ← lower_ceiling (pa_max_children target) (ap_patch_max_children a) (str "profile.autonomy.max_children");
      depth ← lower_ceiling (pa_max_depth target) (ap_patch_max_depth a) (str "profile.autonomy.max_depth");
      budget ← lower_ceiling (pa_daily_token_budget target) (ap_patch_daily_token_budget a)
                 (str "profile.autonomy.daily_token_budget");
      Ok (MkProfileAutonomy mode children depth budget)
  end.

Definition apply_notifications (target : NotificationSettings) (patch : option NotificationPatch)
  : result ConfigError NotificationSettings :=
  match patch with
  | None => Ok target
  | Some n =>
      limit ← lower_ceiling (daily_limit target) (np_daily_limit n) (str "profile.notifications.daily_limit");
      Ok (MkNotificationSettings (replace_if_some (quiet_hours_start target) (np_quiet_hours_start n))
            (replace_if_some (quiet_hours_end target) (np_quiet_hours_end n))
            (replace_if_some (nt_time_zone target) (np_time_zone n)) limit)
  end.

Definition apply_refinement (target : RefinementSettings) (kind : LayerKind) (patch : option RefinementPatch)
  : result ConfigError RefinementSettings :=
  match patch with
  | None => Ok target
  | Some r =>
      reject_if (bool_decide (rp_enabled r = Some true) && negb (rf_enabled target) && layer_gtb kind LProfile)
        (Prohibited (str "profile.refinement.enabled") kind) ;;
      confirmation ← enforce_true (require_confirmation target) (rp_require_confirmation r)
                       (str "profile.refinement.require_confirmation");
      let targets := match rp_editable_targets r with
                     | Some operation =>
                         list_to_set (apply_list (sort_by rcmp (elements (editable_targets target))) (Some operation))
                     | None => editable_targets target
                     end in
      Ok (MkRefinementSettings (replace_if_some (rf_enabled target) (rp_enabled r)) confirmation targets)
  end.

Definition apply_profile_patch (target : option AgentProfile) (kind : LayerKind) (patch : ProfilePatch)
  : result ConfigError (option AgentProfile) :=
  target ← match pp_replace patch with
           | Some replacement =>
               reject_if (negb (bool_decide (kind = LProfile))) (Prohibited (str "profile.replace") kind) ;;
               Ok (Some replacement)
           | None => Ok target
           end;
  profile ← ok_or target MissingProfile;
  tools ← match pp_tool_rules patch with
          | Some operation => apply_tool_rules (tool_rules profile) operation kind
          | None => Ok (tool_rules profile)
          end;
  autonomy ← apply_profile_autonomy (ap_autonomy profile) (pp_autonomy patch);
  notifications ← apply_notifications (notifications profile) (pp_notifications patch);
  refinement ← apply_refinement (refinement profile) kind (pp_refinement patch);
  Ok (Some (MkAgentProfile (ap_version profile) (ap_id profile) (display_name profile) (ap_workspace_id profile)
    (persona_file profile) (user_file profile) (rule_files profile)
    (replace_if_some (model_route profile) (pp_model_route patch))
    (replace_if_some (thinking profile) (pp_thinking patch)) tools
    (apply_list (enabled_skills profile) (pp_enabled_skills patch))
    (apply_list (enabled_mcp_servers profile) (pp_enabled_mcp_servers patch))
    (apply_list (enabled_plugins profile) (pp_enabled_plugins patch))
    (apply_list (ap_channels profile) (pp_channels patch))
    (replace_if_some (service_policy profile) (pp_service_policy patch)) autonomy notifications refinement)).

Definition replace_service_if_some (config : ServiceEnablementConfig) (service : PlatformServiceGroup)
    (enabled : option bool) : ServiceEnablementConfig :=
  match enabled with Some enabled => set_enabled config service enabled | None => config end.

Definition apply_service_patch (config : ServiceEnablementConfig) (patch : ServiceEnablementPatch) (kind : LayerKind)
  : result ConfigError ServiceEnablementConfig :=
  reject_if (negb (bool_decide (kind = LGlobal))) (Prohibited (str "services") kind) ;;
  Ok (fold_left (fun config entry => replace_service_if_some config entry.1 entry.2)
        [(SgChannels, sp_channels patch); (SgAcp, sp_acp patch); (SgPlugins, sp_plugins patch);
         (SgConnectedApps, sp_connected_apps patch); (SgComputers, sp_computers patch); (SgTeaching, sp_teaching patch)]
        config).

Definition apply_daemon (c : DaemonConfig) (patch : option DaemonPatch) : result ConfigError DaemonConfig :=
  match patch with
  | None => Ok c
  | Some d =>
      workers ← lower_ceiling (max_workers c) (dp_max_workers d) (str "daemon.max_workers");
      replay ← lower_ceiling (event_replay_limit c) (dp_event_replay_limit d) (str "daemon.event_replay_limit");
      Ok (MkDaemonConfig (replace_if_some (worker_idle_seconds c) (dp_worker_idle_seconds d)) workers replay)
  end.

Definition apply_execution (c : ExecutionConfig) (patch : option ExecutionPatch) : result ConfigError ExecutionConfig :=
  match patch with
  | None => Ok c
  | Some e =>
      confined ← enforce_true (workspace_confinement c) (ep_workspace_confinement e)
                   (str "execution.workspace_confinement");
      protected ← enforce_true (protect_local_network c) (ep_protect_local_network e)
                    (str "execution.protect_local_network");
      processes ← lower_ceiling (max_processes c) (ep_max_processes e) (str "execution.max_processes");
      timeout ← lower_ceiling (default_timeout_seconds c) (ep_default_timeout_seconds e)
                  (str "execution.default_timeout_seconds");
      Ok (MkExecutionConfig confined protected processes timeout)
  end.

Definition apply_autonomy (c : AutonomyConfig) (patch : option AutonomyPatch) : result ConfigError AutonomyConfig :=
  match patch with
  | None => Ok c
  | Some a =>
      actions ← lower_ceiling (max_background_actions_per_hour c) (up_max_background_actions_per_hour a)
                  (str "autonomy.max_background_actions_per_hour");
      notifications ← lower_ceiling (max_notifications_per_day c) (up_max_notifications_per_day a)
                        (str "autonomy.max_notifications_per_day");
      Ok (MkAutonomyConfig (replace_if_some (default_mode c) (up_default_mode a)) actions notifications)
  end.

Definition apply_retrieval (c : RetrievalConfig) (patch : option RetrievalPatch) : RetrievalConfig :=
  match patch with
  | None => c
  | Some r => MkRetrievalConfig (replace_if_some (lexical c) (tp_lexical r)) (replace_if_some (trigram c) (tp_trigram r))
                (replace_if_some (vector c) (tp_vector r))
  end.

Definition apply_telemetry (c : TelemetryConfig) (kind : LayerKind) (patch : option TelemetryPatch)
  : result ConfigError TelemetryConfig :=
  match patch with
  | None => Ok c
  | Some t =>
      reject_if (bool_decide (mp_export t = Some true) && layer_gtb kind LGlobal)
        (Prohibited (str "telemetry.export") kind) ;;
      Ok (MkTelemetryConfig (replace_if_some (local_metrics c) (mp_local_metrics t))
            (replace_if_some (export c) (mp_export t)))
  end.

Definition apply_patch (config : RuntimeConfig) (kind : LayerKind) (patch : ConfigPatch)
  : result ConfigError RuntimeConfig :=
  root ← match cp_data_root patch with
         | Some root =>
             reject_if (layer_gtb kind LGlobal) (Prohibited (str "data_root") kind) ;;
             Ok root
         | None => Ok (data_root config)
         end;
  daemon ← apply_daemon (rc_daemon config) (cp_daemon patch);
  execution ← apply_execution (rc_execution config) (cp_execution patch);
  autonomy ← apply_autonomy (rc_autonomy config) (cp_autonomy patch);
  let retrieval := apply_retrieval (rc_retrieval config) (cp_retrieval patch) in
  telemetry ← apply_telemetry (rc_telemetry config) kind (cp_telemetry patch);
  services ← match cp_services patch with
             | Some services => apply_service_patch (rc_services config) services kind
             | None => Ok (rc_services config)
             end;
  profile ← match cp_profile patch with
            | Some profile => apply_profile_patch (rc_profile config) kind profile
            | None => Ok (rc_profile config)
            end;
  Ok (MkRuntimeConfig (rc_version config) root daemon execution autonomy retrieval telemetry services
        (rc_self_evolution config) profile).

(** ** Validation *)

(** [value.parse::<u8>()]. *)
Definition u8_from_str (s : rstr) : option Z := v ← u32_from_str s; if (v <=? 255)%Z then Some v else None.

Definition validate_clock (value : rstr) : result ConfigError unit :=
  let invalid := CfgInvalid (str "invalid clock value " ++ value) in
  '(hour, minute) ← ok_or (split_once 58 value) invalid;
  hour ← ok_or (u8_from_str hour) invalid;
  minute ← ok_or (u8_from_str minute) invalid;
  if ((hour <? 24) && (minute <? 60))%Z then Ok tt else Err invalid.

Definition profile_incomplete (p : AgentProfile) : bool :=
  let policy := service_policy p in
  negb (bool_decide (ap_version p = CURRENT_SCHEMA_VERSION))
  || str_blank (display_name p)
  || str_blank (mr_provider (model_route p))
  || str_blank (mr_model (model_route p))
  || str_is_empty (persona_file p)
  || str_is_empty (user_file p)
  || match rule_files p with [] => true | _ => false end
  || (pa_max_children (ap_autonomy p) =? 0)%Z
  || (pa_max_depth (ap_autonomy p) =? 0)%Z
  || (pa_daily_token_budget (ap_autonomy p) =? 0)%Z
  || (daily_limit (notifications p) =? 0)%Z
  || (allow_computers policy && (max_computers policy =? 0)%Z)
  || (allow_recording policy && (max_recording_bytes policy =? 0)%Z)
  || (allow_recipe_publication policy && (max_recipe_steps policy =? 0)%Z)
  || existsb str_blank (elements (allowed_connected_app_toolkits policy)).

Definition validate_profile (p : AgentProfile) : result ConfigError unit :=
  reject_if (profile_incomplete p) (CfgInvalid (str "profile fields are incomplete or invalid")) ;;
  validate_clock (quiet_hours_start (notifications p)) ;;
  validate_clock (quiet_hours_end (notifications p)).

Definition validate_config (config : RuntimeConfig) : result ConfigError unit :=
  reject_if (negb (bool_decide (rc_version config = CURRENT_SCHEMA_VERSION))) (UnsupportedVersion (rc_version config)) ;;
  reject_if ((max_workers (rc_daemon config) =? 0)%Z || (max_processes (rc_execution config) =? 0)%Z
             || (default_timeout_seconds (rc_execution config) =? 0)%Z
             || (event_replay_limit (rc_daemon config) =? 0)%Z)
    (CfgInvalid (str "resource ceilings must be non-zero")) ;;
  reject_if (negb (lexical (rc_retrieval config)) && negb (trigram (rc_retrieval config))
             && negb (vector (rc_retrieval config)))
    (CfgInvalid (str "at least one retrieval mode must remain enabled")) ;;
  match rc_profile config with Some profile => validate_profile profile | None => Ok tt end.

(** ** Layers *)

Definition check_version (version : SchemaVersion) : result ConfigError unit :=
  if bool_decide (version = CURRENT_SCHEMA_VERSION) then Ok tt else Err (UnsupportedVersion version).

Definition apply_layer (layers : gmap LayerKind ConfigLayer) (resolved : RuntimeConfig) (kind : LayerKind)
  : result ConfigError RuntimeConfig :=
  match layers !! kind with
  | None => Ok resolved
  | Some layer =>
      check_version (ly_version layer) ;;
      reject_if (negb (bool_decide (kind = ly_kind layer))) (CfgInvalid (str "layer map key does not match layer kind")) ;;
      apply_patch resolved kind (ly_patch layer)
  end.

(** The layers in the order of their kinds. *)
Definition resolve_layers (defaults : RuntimeConfig) (layers : gmap LayerKind ConfigLayer)
  : result ConfigError RuntimeConfig :=
  resolved ← try_fold (apply_layer layers) defaults all_layers;
  validate_config resolved ;;
  Ok resolved.

(** ** Equality *)

(** The derived [PartialEq] compares paths by their components. *)
Definition profile_view (p : AgentProfile) :=
  (ap_version p, ap_id p, display_name p, ap_workspace_id p,
   (components (persona_file p), components (user_file p), components <$> rule_files p),
   model_route p, thinking p, tool_rules p,
   (enabled_skills p, enabled_mcp_servers p, enabled_plugins p, ap_channels p),
   (service_policy p, ap_autonomy p, notifications p, refinement p)).

Definition config_view (c : RuntimeConfig) :=
  (rc_version c, components (data_root c), rc_daemon c, rc_execution c, rc_autonomy c, rc_retrieval c, rc_telemetry c,
   rc_services c, rc_self_evolution c, profile_view <$> rc_profile c).

Definition config_eqb (c d : RuntimeConfig) : bool := bool_decide (config_view c = config_view d).

Definition changed_sections (before after : RuntimeConfig) : gset rstr :=
  list_to_set (fst <$> List.filter snd
    [(str "data_root", negb (path_eqb (data_root before) (data_root after)));
     (str "daemon", negb (bool_decide (rc_daemon before = rc_daemon after)));
     (str "execution", negb (bool_decide (rc_execution before = rc_execution after)));
     (str "autonomy", negb (bool_decide (rc_autonomy before = rc_autonomy after)));
     (str "retrieval", negb (bool_decide (rc_retrieval before = rc_retrieval after)));
     (str "telemetry", negb (bool_decide (rc_telemetry before = rc_telemetry after)));
     (str "services", negb (bool_decide (rc_services before = rc_services after)));
     (str "self_evolution", negb (bool_decide (rc_self_evolution before = rc_self_evolution after)));
     (str "profile", negb (bool_decide (profile_view <$> rc_profile before = profile_view <$> rc_profile after)))]).

(** ** The manager *)

Inductive ConfigNotification :=
| Applied (revision : Revision) (layer : LayerKind) (changed : gset rstr)
| Rejected (revision : Revision) (layer : LayerKind) (error : rstr).

(** A [Sender]: whether its receiver is still there, and what was sent to it. *)
Record Subscriber := MkSubscriber { rx_alive : bool; rx_queue : list ConfigNotification }.

Record ConfigManager := MkConfigManager {
  cm_defaults : RuntimeConfig;
  cm_active : RuntimeConfig;
  cm_layers : gmap LayerKind ConfigLayer;
  cm_revision : Revision;
  cm_subscribers : list Subscriber
}.

Record ConfigurationSnapshot := MkConfigSnapshot {
  cs_version : SchemaVersion;
  cs_revision : Revision;
  cs_layers : gmap LayerKind ConfigLayer;
  cs_active : RuntimeConfig
}.

(** [serde] on [ConfigurationSnapshot]: what is written is read back. *)
Class SnapshotCodec `{SerdeJson} : Type := {
  snapshot_to_value : ConfigurationSnapshot -> result JsonError Value;
  snapshot_from_slice : list Z -> result JsonError ConfigurationSnapshot;
  snapshot_from_to : forall x v bytes,
    snapshot_to_value x = Ok v -> canonical_json_bytes v = Ok bytes -> snapshot_from_slice bytes = Ok x
}.

Section manager.
(** [Display] of a [serde_json::Error]. *)
Context (json_error_display : JsonError -> rstr).

Definition config_error_display (e : ConfigError) : rstr :=
  match e with
  | UnsupportedVersion v =>
      str "unsupported configuration schema version " ++ u32_to_string (sv_major v) ++ str "." ++ u32_to_string (sv_minor v)
  | SafetyCeiling field => field ++ str " cannot relax the active safety ceiling"
  | Prohibited field layer => field ++ str " cannot be changed at the " ++ layer_debug layer ++ str " layer"
  | MissingProfile => str "profile replacement is required before profile overrides"
  | CfgInvalid message => str "invalid configuration: " ++ message
  | CfgSerialize error => str "configuration serialization failed: " ++ json_error_display error
  | CfgToml message => str "configuration TOML failed: " ++ message
  | SnapshotMismatch => str "persisted resolved configuration does not match its layers"
  end.

Abbreviation config_m := (stateT ConfigManager ConfigError).

Definition config_manager_new (defaults : RuntimeConfig) : result ConfigError ConfigManager :=
  validate_config defaults ;;
  Ok (MkConfigManager defaults defaults ∅ Revision_ZERO []).

Definition with_subscribers (m : ConfigManager) (subscribers : list Subscriber) : ConfigManager :=
  MkConfigManager (cm_defaults m) (cm_active m) (cm_layers m) (cm_revision m) subscribers.

Definition subscribe (m : ConfigManager) : ConfigManager :=
  with_subscribers m (cm_subscribers m ++ [MkSubscriber true []]).

(** Senders whose receiver is gone are dropped. *)
Definition notify (notification : ConfigNotification) (m : ConfigManager) : ConfigManager :=
  with_subscribers m ((fun s => MkSubscriber (rx_alive s) (rx_queue s ++ [notification]))
                        <$> List.filter rx_alive (cm_subscribers m)).

Definition apply (layer : ConfigLayer) : config_m ConfigNotification :=
  let kind := ly_kind layer in
  m ← gets id;
  let candidate_layers := <[kind := layer]> (cm_layers m) in
  match resolve_layers (cm_defaults m) candidate_layers with
  | Err error =>
      modify (notify (Rejected (cm_revision m) kind (config_error_display error))) ;;
      throw error
  | Ok candidate =>
      let changed := changed_sections (cm_active m) candidate in
      revision ← lift (ok_or (checked_next (cm_revision m)) (CfgInvalid (str "configuration revision exhausted")));
      modify (fun m => MkConfigManager (cm_defaults m) candidate candidate_layers revision (cm_subscribers m)) ;;
      let notification := Applied revision kind changed in
      modify (notify notification) ;;
      mret notification
  end.
End manager.

Section snapshots.
Context `{HC : SnapshotCodec}.

Definition snapshot_bytes (m : ConfigManager) : result ConfigError (list Z) :=
  map_err CfgSerialize (
    v ← snapshot_to_value (MkConfigSnapshot CURRENT_SCHEMA_VERSION (cm_revision m) (cm_layers m) (cm_active m));
    canonical_json_bytes v).

Definition restore (defaults : RuntimeConfig) (bytes : list Z) : result ConfigError ConfigManager :=
  snapshot ← map_err CfgSerialize (snapshot_from_slice bytes);
  check_version (cs_version snapshot) ;;
  active ← resolve_layers defaults (cs_layers snapshot);
  reject_if (negb (config_eqb active (cs_active snapshot))) SnapshotMismatch ;;
  Ok (MkConfigManager defaults active (cs_layers snapshot) (cs_revision snapshot) []).
End snapshots.

(** ** Inspection *)

(** [value[key] = entry]: an object gets the entry, [null] becomes an object, and
    anything else panics. *)
Definition value_index_set (value : Value) (key : rstr) (entry : Value) : option Value :=
  match value with
  | Object m => Some (Object (map_insert key entry m))
  | Null => Some (Object [(key, entry)])
  | _ => None
  end.

Definition redact_credential (profile : list (rstr * Value)) : list (rstr * Value) :=
  match map_get (str "model_route") profile with
  | Some (Object model) =>
      match map_get (str "credential_ref") model with
      | None | Some Null => profile
      | Some _ =>
          map_insert (str "model_route")
            (Object (map_insert (str "credential_ref") (Str (str "<redacted-reference>")) model)) profile
      end
  | _ => profile
  end.

Definition redact_profile (value : Value) : Value :=
  match value with
  | Object entries =>
      match map_get (str "profile") entries with
      | Some (Object profile) => Object (map_insert (str "profile") (Object (redact_credential profile)) entries)
      | _ => value
      end
  | _ => value
  end.

(** [None] is a panic. *)
Definition redacted_inspection `{Document RuntimeConfig} (c : RuntimeConfig) : result ConfigError (option Value) :=
  value ← map_err CfgSerialize (to_value c);
  Ok (redact_profile <$> value_index_set value (str "data_root") (Str (str "<redacted-path>"))).

(** ** Files *)

Record LegacyConfigV0 := MkLegacyConfig {
  lc_config_version : Z;
  lc_data_root : PathBuf;
  lc_max_workers : Z;
  lc_max_processes : Z
}.

(** [toml::from_str] at the two types; an error is its text. *)
Definition parse_or_migrate_toml (layer_from_str : rstr -> result rstr ConfigLayer)
    (legacy_from_str : rstr -> result rstr LegacyConfigV0) (input : rstr) : result ConfigError ConfigLayer :=
  match layer_from_str input with
  | Ok layer => check_version (ly_version layer) ;; Ok layer
  | Err _ =>
      legacy ← map_err CfgToml (legacy_from_str input);
      reject_if (negb (lc_config_version legacy =? 0)%Z)
        (UnsupportedVersion (MkSchemaVersion (lc_config_version legacy) 0)) ;;
      Ok (config_layer_new LGlobal
            (MkConfigPatch (Some (lc_data_root legacy)) (Some (MkDaemonPatch None (Some (lc_max_workers legacy)) None))
               (Some (MkExecutionPatch None None (Some (lc_max_processes legacy)) None)) None None None None None))
  end.
