(* ===== verification/ConfigurationProperties.v ===== *)
(** * Correctness of layered configuration

    What a layer may change, as relations between the configuration before and
    after it, and runs of the manager of [Configuration] with layers that are
    refused, receivers that go away and restarts from its snapshots. *)

From Stdlib Require Import ZArith Lia String.
From stdpp Require Import base decidable countable gmap sorting option list.
From S2P Require Import Prelude RustStd RustText AgentTypes Json ItemStore Configuration.

(** ** Folds *)

Lemma try_fold_rel {E A B} (R : relation A) `{!PreOrder R} (f : A -> B -> result E A) a xs a' :
  (forall b x b', x ∈ xs -> f b x = Ok b' -> R b b') -> try_fold f a xs = Ok a' -> R a a'.
Proof.
  revert a. induction xs as [|x xs IH]; intros a Hf Hr; simpl in Hr; [by injection Hr as <-|].
  destruct (f a x) as [b|e] eqn:Hb; [|done]. transitivity b.
  - eapply Hf, Hb. by left.
  - eapply IH, Hr. intros c y c' Hy. apply Hf. by right.
Qed.

(** ** Ceilings *)

Lemma lower_ceiling_Ok target value field x :
  lower_ceiling target value field = Ok x -> (x <= target)%Z /\ x = default target value.
Proof.
  unfold lower_ceiling. destruct value as [v|]; [|by intros [= <-]].
  intros [Hv [= <-]]%reject_if_bind. simpl. split; [lia|done].
Qed.

Lemma enforce_true_Ok target value field x : enforce_true target value field = Ok x -> target = true -> x = true.
Proof.
  unfold enforce_true. intros [Hv [= <-]]%reject_if_bind ->. rewrite andb_true_r in Hv. apply bool_decide_eq_false in Hv.
  destruct value as [[]|]; done.
Qed.

(** No ceiling of the installation is raised and no protection switched off. *)
Definition tightened (c c' : RuntimeConfig) : Prop :=
  rc_version c' = rc_version c /\ rc_self_evolution c' = rc_self_evolution c
  /\ (max_workers (rc_daemon c') <= max_workers (rc_daemon c))%Z
  /\ (event_replay_limit (rc_daemon c') <= event_replay_limit (rc_daemon c))%Z
  /\ (workspace_confinement (rc_execution c) = true -> workspace_confinement (rc_execution c') = true)
  /\ (protect_local_network (rc_execution c) = true -> protect_local_network (rc_execution c') = true)
  /\ (max_processes (rc_execution c') <= max_processes (rc_execution c))%Z
  /\ (default_timeout_seconds (rc_execution c') <= default_timeout_seconds (rc_execution c))%Z
  /\ (max_background_actions_per_hour (rc_autonomy c') <= max_background_actions_per_hour (rc_autonomy c))%Z
  /\ (max_notifications_per_day (rc_autonomy c') <= max_notifications_per_day (rc_autonomy c))%Z.

(** Where the data is and what leaves the machine stays as it was. *)
Definition contained (c c' : RuntimeConfig) : Prop :=
  data_root c' = data_root c /\ rc_services c' = rc_services c
  /\ (export (rc_telemetry c') = true -> export (rc_telemetry c) = true).

(** Every tool that has a rule keeps one, with no more authority. *)
Definition rules_tightened (rules rules' : gmap rstr ToolPermission) : Prop :=
  forall tool permission, rules !! tool = Some permission ->
    exists permission', rules' !! tool = Some permission' /\ (authority permission' <= authority permission)%Z.

(** The profile stays the same profile, with no higher ceiling and no rule of a
    tool relaxed. *)
Definition profile_tightened (p p' : AgentProfile) : Prop :=
  (ap_version p', ap_id p', display_name p', ap_workspace_id p', persona_file p', user_file p', rule_files p')
    = (ap_version p, ap_id p, display_name p, ap_workspace_id p, persona_file p, user_file p, rule_files p)
  /\ (pa_max_children (ap_autonomy p') <= pa_max_children (ap_autonomy p))%Z
  /\ (pa_max_depth (ap_autonomy p') <= pa_max_depth (ap_autonomy p))%Z
  /\ (pa_daily_token_budget (ap_autonomy p') <= pa_daily_token_budget (ap_autonomy p))%Z
  /\ (daily_limit (notifications p') <= daily_limit (notifications p))%Z
  /\ (require_confirmation (refinement p) = true -> require_confirmation (refinement p') = true)
  /\ (rf_enabled (refinement p') = true -> rf_enabled (refinement p) = true)
  /\ rules_tightened (tool_rules p) (tool_rules p').

Definition narrowed (c c' : RuntimeConfig) : Prop :=
  match rc_profile c, rc_profile c' with
  | Some p, Some p' => profile_tightened p p'
  | None, None => True
  | _, _ => False
  end.

#[export] Instance tightened_preorder : PreOrder tightened.
Proof.
  split; unfold tightened; [intros c; split_and!; done || lia|]. intros a b c H1 H2. destruct_and?.
  split_and!; congruence || lia || auto.
Qed.

#[export] Instance contained_preorder : PreOrder contained.
Proof. split; unfold contained; [by intros c|]. intros a b c H1 H2. destruct_and?. split_and!; congruence || auto. Qed.

#[export] Instance rules_tightened_preorder : PreOrder rules_tightened.
Proof.
  split; [intros m tool permission Ht; by exists permission|]. intros a b c Hab Hbc tool permission Ht.
  destruct (Hab tool permission Ht) as (q & Hq & Hle). destruct (Hbc tool q Hq) as (r & Hr & Hle').
  exists r. split; [done|lia].
Qed.

#[export] Instance profile_tightened_preorder : PreOrder profile_tightened.
Proof.
  split; unfold profile_tightened; [intros p; split_and!; done|]. intros a b c H1 H2. destruct_and?.
  split_and!; try (congruence || lia || by auto). by etrans.
Qed.

#[export] Instance narrowed_preorder : PreOrder narrowed.
Proof.
  split; unfold narrowed; [intros c; by destruct (rc_profile c)|]. intros a b c. destruct (rc_profile a), (rc_profile b), (rc_profile c); try done.
  intros ? ?. by etrans.
Qed.

(** ** What the patches do *)

Lemma apply_tool_rule_tightens kind target entry rules :
  layer_gtb kind LProfile = true -> apply_tool_rule kind target entry = Ok rules -> rules_tightened target rules.
Proof.
  intros Hk. destruct entry as [tool permission]. unfold apply_tool_rule. rewrite Hk, andb_true_r.
  intros [Ha [= <-]]%reject_if_bind. intros t p Ht. destruct (decide (t = tool)) as [->|Hne].
  - rewrite Ht in Ha. rewrite lookup_insert_eq. exists permission. split; [done|lia].
  - rewrite lookup_insert_ne by done. by exists p.
Qed.

Lemma apply_tool_rules_tightens target operation kind rules :
  layer_gtb kind LProfile = true -> apply_tool_rules target operation kind = Ok rules -> rules_tightened target rules.
Proof.
  intros Hk. unfold apply_tool_rules. rewrite Hk. destruct operation; [done|].
  apply try_fold_rel; [apply _|]. intros b x b' _. by apply apply_tool_rule_tightens.
Qed.

Lemma apply_profile_autonomy_tightens target patch a :
  apply_profile_autonomy target patch = Ok a ->
  (pa_max_children a <= pa_max_children target)%Z /\ (pa_max_depth a <= pa_max_depth target)%Z
  /\ (pa_daily_token_budget a <= pa_daily_token_budget target)%Z.
Proof.
  unfold apply_profile_autonomy. destruct patch as [u|]; [|intros [= <-]; lia].
  intros H. apply bind_Ok in H as (x & [Hx _]%lower_ceiling_Ok & H). apply bind_Ok in H as (y & [Hy _]%lower_ceiling_Ok & H).
  apply bind_Ok in H as (z & [Hz _]%lower_ceiling_Ok & H). injection H as <-. done.
Qed.

Lemma apply_refinement_tightens target kind patch r :
  layer_gtb kind LProfile = true -> apply_refinement target kind patch = Ok r ->
  (require_confirmation target = true -> require_confirmation r = true) /\ (rf_enabled r = true -> rf_enabled target = true).
Proof.
  intros Hk. unfold apply_refinement. destruct patch as [u|]; [|by intros [= <-]]. rewrite Hk, andb_true_r.
  intros [He H]%reject_if_bind. apply bind_Ok in H as (x & Hx & H). injection H as <-. simpl. split.
  - by eapply enforce_true_Ok.
  - unfold replace_if_some. destruct (rp_enabled u) as [[]|]; [|done..]. simpl in He. by destruct (rf_enabled target).
Qed.

Lemma apply_profile_patch_tightens target kind patch target' :
  layer_gtb kind LProfile = true -> apply_profile_patch target kind patch = Ok target' ->
  exists p p', target = Some p /\ target' = Some p' /\ profile_tightened p p'.
Proof.
  intros Hk H. unfold apply_profile_patch in H. apply bind_Ok in H as (t & Ht & H).
  assert (t = target) as ->.
  { destruct (pp_replace patch); [|by injection Ht]. apply reject_if_bind in Ht as [Hp _].
    apply negb_false_iff, bool_decide_eq_true in Hp as ->. done. }
  apply bind_Ok in H as (p & Hp%ok_or_Ok & H). apply bind_Ok in H as (tools & Htools & H).
  apply bind_Ok in H as (autonomy & (Ha1 & Ha2 & Ha3)%apply_profile_autonomy_tightens & H).
  apply bind_Ok in H as (notes & Hn & H). apply bind_Ok in H as (ref & [Hr1 Hr2]%apply_refinement_tightens & H); [|done].
  injection H as <-. exists p. eexists. split; [done|]. split; [done|]. split_and!; simpl; try done.
  - unfold apply_notifications in Hn. destruct (pp_notifications patch); [|by injection Hn as <-].
    apply bind_Ok in Hn as (l & [Hl _]%lower_ceiling_Ok & Hn). by injection Hn as <-.
  - destruct (pp_tool_rules patch) as [op|]; [by eapply apply_tool_rules_tightens|by injection Htools as <-].
Qed.

Lemma apply_execution_tightens c patch e :
  apply_execution c patch = Ok e ->
  (workspace_confinement c = true -> workspace_confinement e = true)
  /\ (protect_local_network c = true -> protect_local_network e = true)
  /\ (max_processes e <= max_processes c)%Z /\ (default_timeout_seconds e <= default_timeout_seconds c)%Z.
Proof.
  unfold apply_execution. destruct patch as [u|]; [|intros [= <-]; split_and!; done || lia].
  intros H. apply bind_Ok in H as (x & Hx & H). apply bind_Ok in H as (y & Hy & H).
  apply bind_Ok in H as (z & [Hz _]%lower_ceiling_Ok & H). apply bind_Ok in H as (t & [Ht _]%lower_ceiling_Ok & H).
  injection H as <-. split_and!; try done; by eapply enforce_true_Ok.
Qed.

Lemma apply_daemon_tightens c patch d :
  apply_daemon c patch = Ok d ->
  (max_workers d <= max_workers c)%Z /\ (event_replay_limit d <= event_replay_limit c)%Z.
Proof.
  unfold apply_daemon. destruct patch as [u|]; [|intros [= <-]; lia].
  intros H. apply bind_Ok in H as (x & [Hx _]%lower_ceiling_Ok & H). apply bind_Ok in H as (y & [Hy _]%lower_ceiling_Ok & H).
  by injection H as <-.
Qed.

Lemma apply_autonomy_tightens c patch a :
  apply_autonomy c patch = Ok a ->
  (max_background_actions_per_hour a <= max_background_actions_per_hour c)%Z
  /\ (max_notifications_per_day a <= max_notifications_per_day c)%Z.
Proof.
  unfold apply_autonomy. destruct patch as [u|]; [|intros [= <-]; lia].
  intros H. apply bind_Ok in H as (x & [Hx _]%lower_ceiling_Ok & H). apply bind_Ok in H as (y & [Hy _]%lower_ceiling_Ok & H).
  by injection H as <-.
Qed.

(** A layer within its limits: the ceilings of the installation for every layer,
    the data and what leaves the machine beyond the global one, and the profile
    beyond its own. *)
Definition within_limits (kind : LayerKind) (c c' : RuntimeConfig) : Prop :=
  tightened c c' /\ (kind <> LGlobal -> contained c c') /\ (layer_gtb kind LProfile = true -> narrowed c c').

Lemma apply_patch_within config kind patch config' :
  apply_patch config kind patch = Ok config' -> within_limits kind config config'.
Proof.
  intros H. unfold apply_patch in H. apply bind_Ok in H as (root & Hroot & H).
  apply bind_Ok in H as (daemon & [Hd1 Hd2]%apply_daemon_tightens & H).
  apply bind_Ok in H as (execution & (He1 & He2 & He3 & He4)%apply_execution_tightens & H).
  apply bind_Ok in H as (autonomy & [Ha1 Ha2]%apply_autonomy_tightens & H). cbn zeta in H.
  apply bind_Ok in H as (telemetry & Ht & H). apply bind_Ok in H as (services & Hs & H).
  apply bind_Ok in H as (profile & Hp & H). injection H as <-. split_and!; [by split_and!| |].
  - intros Hk. assert (layer_gtb kind LGlobal = true) as Hg by by destruct kind. split_and!; simpl.
    + destruct (cp_data_root patch); [|congruence]. rewrite Hg in Hroot. done.
    + destruct (cp_services patch); [|congruence]. apply reject_if_bind in Hs as [Hs _].
      by apply negb_false_iff, bool_decide_eq_true in Hs.
    + unfold apply_telemetry in Ht. destruct (cp_telemetry patch) as [t|]; [|congruence]. rewrite Hg, andb_true_r in Ht.
      apply reject_if_bind in Ht as [Ht [= <-]]. simpl. apply bool_decide_eq_false in Ht.
      unfold replace_if_some. by destruct (mp_export t) as [[]|].
  - intros Hk. unfold narrowed. simpl. destruct (cp_profile patch) as [pp|].
    + by destruct (apply_profile_patch_tightens _ _ _ _ Hk Hp) as (p & p' & -> & -> & ?).
    + injection Hp as <-. by destruct (rc_profile config).
Qed.

Lemma apply_layer_within layers config kind config' :
  apply_layer layers config kind = Ok config' -> within_limits kind config config'.
Proof.
  unfold apply_layer. destruct (layers !! kind) as [layer|].
  - intros H. apply bind_Ok in H as ([] & _ & H). apply reject_if_bind in H as [_ H]. by eapply apply_patch_within.
  - intros [= <-]. split_and!; by intros.
Qed.

(** The configuration after the layers up to a kind. *)
Definition up_to (defaults : RuntimeConfig) (layers : gmap LayerKind ConfigLayer) (kinds : list LayerKind) (c : RuntimeConfig) : Prop :=
  try_fold (apply_layer layers) defaults kinds = Ok c.

(** [config] is a valid configuration whose ceilings are those of the defaults or
    lower; where the data is, which services run and what is exported is decided
    by the global layer, and the profile and its ceilings by the global and the
    profile layer. *)
Definition governed (defaults : RuntimeConfig) (layers : gmap LayerKind ConfigLayer) (config : RuntimeConfig) : Prop :=
  validate_config config = Ok tt /\ tightened defaults config
  /\ (exists base, up_to defaults layers [LGlobal] base /\ contained base config)
  /\ (exists base, up_to defaults layers [LGlobal; LProfile] base /\ narrowed base config).

Lemma resolve_layers_governed defaults layers config :
  resolve_layers defaults layers = Ok config -> governed defaults layers config.
Proof.
  intros H. unfold resolve_layers in H. apply bind_Ok in H as (c & Hc & H). apply bind_Ok in H as ([] & Hv & H).
  injection H as ->. split; [done|]. split.
  { eapply (try_fold_rel tightened); [|exact Hc]. intros b x b' _ Hx%apply_layer_within. apply Hx. }
  split.
  - change all_layers with ([LGlobal] ++ [LProfile; LWorkspace; LSession; LAction]) in Hc. rewrite try_fold_app in Hc.
    destruct (try_fold _ _ [LGlobal]) as [base|] eqn:Eb; [|done]. exists base. split; [done|].
    eapply (try_fold_rel contained); [|exact Hc]. intros b x b' Hin Hx%apply_layer_within. apply Hx.
    intros ->. by repeat (apply elem_of_cons in Hin as [[=]|Hin]); apply elem_of_nil in Hin.
  - change all_layers with ([LGlobal; LProfile] ++ [LWorkspace; LSession; LAction]) in Hc. rewrite try_fold_app in Hc.
    destruct (try_fold _ _ [LGlobal; LProfile]) as [base|] eqn:Eb; [|done]. exists base. split; [done|].
    eapply (try_fold_rel narrowed); [|exact Hc]. intros b x b' Hin Hx%apply_layer_within. apply Hx.
    repeat (apply elem_of_cons in Hin as [->|Hin]; [done|]). by apply elem_of_nil in Hin.
Qed.

(** ** Runs *)

(** A receiver may go away, and the manager may be restored from any bytes. *)
Inductive config_op :=
| CfApply (layer : ConfigLayer)
| CfSubscribe
| CfDrop (i : nat)
| CfRestore (bytes : list Z).

Section runs.
Context `{HJ : SerdeJson, HC : !SnapshotCodec} (json_error_display : JsonError -> rstr).

Definition config_do (op : config_op) (m : ConfigManager) : ConfigManager :=
  match op with
  | CfApply layer => (apply json_error_display layer m).2
  | CfSubscribe => subscribe m
  | CfDrop i => with_subscribers m (alter (fun s => MkSubscriber false (rx_queue s)) i (cm_subscribers m))
  | CfRestore bytes => match restore (cm_defaults m) bytes with Ok m' => m' | Err _ => m end
  end.

Definition config_run (ops : list config_op) (m : ConfigManager) : ConfigManager := fold_left (fun m op => config_do op m) ops m.

(** The active configuration is the one that the layers resolve to. *)
Definition managed (m : ConfigManager) : Prop := resolve_layers (cm_defaults m) (cm_layers m) = Ok (cm_active m).

Lemma managed_new defaults m : config_manager_new defaults = Ok m -> cm_defaults m = defaults /\ managed m.
Proof.
  unfold config_manager_new. intros H. apply bind_Ok in H as ([] & Hv & H). injection H as <-. split; [done|].
  unfold managed, resolve_layers. cbn [cm_defaults cm_layers cm_active try_fold all_layers]. unfold apply_layer.
  rewrite !lookup_empty. cbn [mbind result_bind]. by rewrite Hv.
Qed.

(** What [apply] leaves behind, for either outcome. *)
Lemma apply_effect layer m r m' :
  apply json_error_display layer m = (r, m') ->
  cm_defaults m' = cm_defaults m
  /\ match r with
     | Err _ => cm_active m' = cm_active m /\ cm_layers m' = cm_layers m /\ cm_revision m' = cm_revision m
     | Ok n => resolve_layers (cm_defaults m) (<[ly_kind layer := layer]> (cm_layers m)) = Ok (cm_active m')
               /\ cm_layers m' = <[ly_kind layer := layer]> (cm_layers m)
               /\ checked_next (cm_revision m) = Some (cm_revision m')
               /\ n = Applied (cm_revision m') (ly_kind layer) (changed_sections (cm_active m) (cm_active m'))
               /\ cm_subscribers m' = (fun s => MkSubscriber (rx_alive s) (rx_queue s ++ [n])) <$> List.filter rx_alive (cm_subscribers m)
     end.
Proof.
  unfold apply. rewrite stateT_bind_unfold. unfold gets, id. cbn beta iota.
  destruct (resolve_layers _ _) as [candidate|e] eqn:Er.
  - rewrite stateT_bind_unfold. unfold lift. destruct (checked_next (cm_revision m)) as [next|]; cbn [ok_or]; [|by intros [= <- <-]].
    rewrite stateT_bind_unfold. unfold modify. cbn beta iota. rewrite stateT_bind_unfold. cbn beta iota.
    by intros [= <- <-].
  - rewrite stateT_bind_unfold. unfold modify, throw. cbn beta iota. by intros [= <- <-].
Qed.

Lemma config_do_managed op m : managed m -> managed (config_do op m) /\ cm_defaults (config_do op m) = cm_defaults m.
Proof.
  intros Hm. destruct op as [layer| |i|bytes]; simpl; [|done|done|].
  - destruct (apply json_error_display layer m) as [r m'] eqn:Ea. destruct (apply_effect _ _ _ _ Ea) as [Hd H]. simpl.
    split; [|done]. unfold managed. rewrite Hd. destruct r as [n|e].
    + destruct H as (Hr & -> & _). done.
    + destruct H as (-> & -> & _). done.
  - unfold restore. destruct (snapshot_from_slice bytes) as [s|e]; [|done]. cbn [map_err mbind result_bind].
    destruct (check_version _); [|done]. cbn [mbind result_bind].
    destruct (resolve_layers (cm_defaults m) (cs_layers s)) as [active|e] eqn:Er; [|done]. cbn [mbind result_bind].
    destruct (negb _); [done|]. done.
Qed.

Lemma config_run_managed ops m : managed m -> managed (config_run ops m) /\ cm_defaults (config_run ops m) = cm_defaults m.
Proof.
  unfold config_run. revert m. induction ops as [|op ops IH]; intros m Hm; [done|]. simpl.
  destruct (config_do_managed op m Hm) as [Hm' Hd]. destruct (IH _ Hm') as [H1 H2]. split; [done|congruence].
Qed.


(** A manager is restored from its own snapshot, without its subscribers. *)
Theorem configuration_round_trip ops defaults m bytes :
  config_manager_new defaults = Ok m -> snapshot_bytes (config_run ops m) = Ok bytes ->
  restore defaults bytes = Ok (with_subscribers (config_run ops m) []).
Proof.
  intros [Hd Hm]%managed_new. destruct (config_run_managed ops m Hm) as [Hm' Hd']. set (m' := config_run ops m) in *.
  unfold snapshot_bytes. destruct (snapshot_to_value _) as [v|e] eqn:Ev; [|done]. cbn [mbind result_bind].
  destruct (canonical_json_bytes v) as [b|e] eqn:Eb; [|done]. intros [= <-]. unfold restore.
  rewrite (snapshot_from_to _ _ _ Ev Eb). cbn [map_err mbind result_bind cs_version cs_layers cs_active cs_revision check_version].
  unfold managed in Hm'. rewrite Hd', Hd in Hm'. unfold check_version. rewrite bool_decide_eq_true_2 by done.
  cbn [mbind result_bind]. rewrite Hm'. cbn [mbind result_bind]. unfold config_eqb. rewrite bool_decide_eq_true_2 by done.
  cbn [negb reject_if mbind result_bind]. unfold with_subscribers. by rewrite Hd', Hd.
Qed.
End runs.

(** ** Inspection *)

Lemma map_get_insert_eq key value m : map_get key (map_insert key value m) = Some value.
Proof.
  induction m as [|[k v] m IH]; simpl; [by rewrite bool_decide_eq_true_2|]. case_bool_decide as Hk; simpl.
  - by rewrite bool_decide_eq_true_2.
  - by rewrite bool_decide_eq_false_2.
Qed.

Lemma map_get_insert_ne key key' value m : key <> key' -> map_get key (map_insert key' value m) = map_get key m.
Proof.
  intros Hne. induction m as [|[k v] m IH]; simpl; [by rewrite bool_decide_eq_false_2|]. case_bool_decide as Hk; simpl; [|by rewrite IH].
  by rewrite !bool_decide_eq_false_2 by congruence.
Qed.

(** The value of a field of an object. *)
Definition field (key : rstr) (v : Value) : option Value := match v with Object m => map_get key m | _ => None end.

Lemma redact_credential_spec profile model credential :
  map_get (str "model_route") (redact_credential profile) = Some (Object model) ->
  map_get (str "credential_ref") model = Some credential ->
  credential = Null \/ credential = Str (str "<redacted-reference>").
Proof.
  unfold redact_credential. destruct (map_get (str "model_route") profile) as [route|] eqn:Er; [|by rewrite Er].
  destruct route as [| | | | |m]; try (rewrite Er; done).
  destruct (map_get (str "credential_ref") m) as [c|] eqn:Ec.
  - destruct c; [rewrite Er; intros [= <-]; rewrite Ec; intros [= <-]; by left|..];
      rewrite map_get_insert_eq; intros [= <-]; rewrite map_get_insert_eq; intros [= <-]; by right.
  - rewrite Er. intros [= <-]. by rewrite Ec.
Qed.

(** The inspection shows neither where the data is nor the credential that a
    profile refers to, whatever the serialized form of the configuration is. *)
Theorem inspection_redacts `{Document RuntimeConfig} c v :
  redacted_inspection c = Ok (Some v) ->
  field (str "data_root") v = Some (Str (str "<redacted-path>"))
  /\ forall profile route credential, field (str "profile") v = Some profile -> field (str "model_route") profile = Some route ->
       field (str "credential_ref") route = Some credential ->
       credential = Null \/ credential = Str (str "<redacted-reference>").
Proof.
  unfold redacted_inspection. intros Hv. apply bind_Ok in Hv as (value & _ & Hv). injection Hv as Hv.
  destruct (value_index_set value _ _) as [w|] eqn:Ew; [|done]. injection Hv as <-.
  assert (exists m, w = Object m /\ map_get (str "data_root") m = Some (Str (str "<redacted-path>"))) as (m & -> & Hm).
  { destruct value; try done; injection Ew as <-; eexists; (split; [done|]); [done|apply map_get_insert_eq]. }
  unfold redact_profile. destruct (map_get (str "profile") m) as [p|] eqn:Ep; [|split; [done|]; simpl; intros p route credential Hp; congruence].
  assert (forall q, p = q -> (forall entries, q <> Object entries) ->
    forall profile route credential, field (str "profile") (Object m) = Some profile -> field (str "model_route") profile = Some route ->
    field (str "credential_ref") route = Some credential -> False) as Hother.
  { intros q <- Hq profile route credential Hp Hr _. simpl in Hp. assert (profile = p) as -> by congruence. destruct p; try done. by eapply Hq. }
  destruct p as [| | | | |profile];
    try (split; [done|]; intros p' route credential H1 H2 H3; by destruct (Hother _ eq_refl ltac:(done) _ _ _ H1 H2 H3)).
  split; [simpl; by rewrite map_get_insert_ne|]. intros p' route credential Hp Hr Hc. simpl in Hp.
  rewrite map_get_insert_eq in Hp. injection Hp as <-. simpl in Hr. destruct route as [| | | | |model]; try done.
  by eapply redact_credential_spec.
Qed.
