(* ===== verification/ConfigurationExample.v ===== *)
(** * A concrete configuration

    Closed instances of the theorems about configuration: a profile layer, a
    workspace layer that lowers ceilings, layers that are refused, and a restart;
    and what a session layer may still change. *)

From Stdlib Require Import ZArith Lia String.
From stdpp Require Import base decidable countable gmap sorting option list.
From S2P Require Import Prelude RustStd RustText AgentTypes Json StateStoreCore ItemStore Serial ServiceExample.
From S2P Require Import Configuration ConfigurationProperties.

(** ** Codecs *)

#[export] Program Instance AutonomyMode_enumerated : Enumerated AutonomyMode := {|
  variants := [ModeOff; ModeSuggest; ModeConfirmSelected; ModeBounded] |}.
Next Obligation. intros []; repeat constructor. Qed.
#[export] Program Instance ThinkingLevel_enumerated : Enumerated ThinkingLevel := {| variants := [Minimal; Low; Medium; High] |}.
Next Obligation. intros []; repeat constructor. Qed.
#[export] Program Instance ToolPermission_enumerated : Enumerated ToolPermission := {| variants := [Deny; Confirm; Allow] |}.
Next Obligation. intros []; repeat constructor. Qed.

#[export] Program Instance Serial_selection : Serial ModelSelection :=
  Serial_via (fun x => (ms_provider x, ms_model x)) (fun t => Some (MkModelSelection t.1 t.2)) _.
Next Obligation. by intros []. Qed.
#[export] Program Instance Serial_model_route : Serial ModelRoute :=
  Serial_via (fun x => (mr_provider x, mr_model x, mr_fallbacks x, mr_credential_ref x))
    (fun t => let '(a, b, c, d) := t in Some (MkModelRoute a b c d)) _.
Next Obligation. by intros []. Qed.
#[export] Program Instance Serial_profile_autonomy : Serial ProfileAutonomy :=
  Serial_via (fun x => (pa_mode x, pa_max_children x, pa_max_depth x, pa_daily_token_budget x))
    (fun t => let '(a, b, c, d) := t in Some (MkProfileAutonomy a b c d)) _.
Next Obligation. by intros []. Qed.
#[export] Program Instance Serial_service_policy : Serial ProfileServicePolicy :=
  Serial_via (fun x => (allowed_connected_app_toolkits x, allow_computers x, allow_recording x, allow_recipe_publication x,
                        max_computers x, max_recording_bytes x, max_recipe_steps x))
    (fun t => let '(a, b, c, d, e, f, g) := t in Some (MkServicePolicy a b c d e f g)) _.
Next Obligation. by intros []. Qed.
#[export] Program Instance Serial_zone : Serial TimeZoneName :=
  Serial_via (A := rstr) time_zone_as_str (fun s => Some (MkTimeZoneName s)) _.
Next Obligation. by intros []. Qed.
#[export] Program Instance Serial_notification_settings : Serial NotificationSettings :=
  Serial_via (fun x => (quiet_hours_start x, quiet_hours_end x, nt_time_zone x, daily_limit x))
    (fun t => let '(a, b, c, d) := t in Some (MkNotificationSettings a b c d)) _.
Next Obligation. by intros []. Qed.
#[export] Program Instance Serial_refinement_settings : Serial RefinementSettings :=
  Serial_via (fun x => (rf_enabled x, require_confirmation x, editable_targets x))
    (fun t => let '(a, b, c) := t in Some (MkRefinementSettings a b c)) _.
Next Obligation. by intros []. Qed.
#[export] Program Instance Serial_profile : Serial AgentProfile :=
  Serial_via (fun x => (ap_version x, ap_id x, display_name x, ap_workspace_id x, persona_file x, user_file x, rule_files x,
                        model_route x, thinking x,
                        (tool_rules x, enabled_skills x, enabled_mcp_servers x, enabled_plugins x, ap_channels x,
                         service_policy x, ap_autonomy x, notifications x, refinement x)))
    (fun t => let '(a, b, c, d, e, f, g, h, i, (j, k, l, m, n, o, p, q, r)) := t in
              Some (MkAgentProfile a b c d e f g h i j k l m n o p q r)) _.
Next Obligation. by intros []. Qed.

#[export] Instance Serial_list_operation : Serial ListOperation.
Proof.
  refine (Serial_via (A := bool * list rstr) (fun x => match x with LReplace l => (false, l) | LAppendUnique l => (true, l) end)
    (fun p => Some (if p.1 then LAppendUnique p.2 else LReplace p.2)) _). by intros [].
Defined.
#[export] Instance Serial_map_operation : Serial MapOperation.
Proof.
  refine (Serial_via (A := bool * gmap rstr ToolPermission) (fun x => match x with MReplace l => (false, l) | MMerge l => (true, l) end)
    (fun p => Some (if p.1 then MMerge p.2 else MReplace p.2)) _). by intros [].
Defined.
#[export] Program Instance Serial_services_patch : Serial ServiceEnablementPatch :=
  Serial_via (fun x => (sp_channels x, sp_acp x, sp_plugins x, sp_connected_apps x, sp_computers x, sp_teaching x))
    (fun t => let '(a, b, c, d, e, f) := t in Some (MkServicesPatch a b c d e f)) _.
Next Obligation. by intros []. Qed.
#[export] Program Instance Serial_daemon_patch : Serial DaemonPatch :=
  Serial_via (fun x => (dp_worker_idle_seconds x, dp_max_workers x, dp_event_replay_limit x))
    (fun t => let '(a, b, c) := t in Some (MkDaemonPatch a b c)) _.
Next Obligation. by intros []. Qed.
#[export] Program Instance Serial_execution_patch : Serial ExecutionPatch :=
  Serial_via (fun x => (ep_workspace_confinement x, ep_protect_local_network x, ep_max_processes x, ep_default_timeout_seconds x))
    (fun t => let '(a, b, c, d) := t in Some (MkExecutionPatch a b c d)) _.
Next Obligation. by intros []. Qed.
#[export] Program Instance Serial_autonomy_patch : Serial AutonomyPatch :=
  Serial_via (fun x => (up_default_mode x, up_max_background_actions_per_hour x, up_max_notifications_per_day x))
    (fun t => let '(a, b, c) := t in Some (MkAutonomyPatch a b c)) _.
Next Obligation. by intros []. Qed.
#[export] Program Instance Serial_retrieval_patch : Serial RetrievalPatch :=
  Serial_via (fun x => (tp_lexical x, tp_trigram x, tp_vector x)) (fun t => let '(a, b, c) := t in Some (MkRetrievalPatch a b c)) _.
Next Obligation. by intros []. Qed.
#[export] Program Instance Serial_telemetry_patch : Serial TelemetryPatch :=
  Serial_via (fun x => (mp_local_metrics x, mp_export x)) (fun t => Some (MkTelemetryPatch t.1 t.2)) _.
Next Obligation. by intros []. Qed.
#[export] Program Instance Serial_profile_autonomy_patch : Serial ProfileAutonomyPatch :=
  Serial_via (fun x => (ap_patch_mode x, ap_patch_max_children x, ap_patch_max_depth x, ap_patch_daily_token_budget x))
    (fun t => let '(a, b, c, d) := t in Some (MkProfileAutonomyPatch a b c d)) _.
Next Obligation. by intros []. Qed.
#[export] Program Instance Serial_notification_patch : Serial NotificationPatch :=
  Serial_via (fun x => (np_quiet_hours_start x, np_quiet_hours_end x, np_time_zone x, np_daily_limit x))
    (fun t => let '(a, b, c, d) := t in Some (MkNotificationPatch a b c d)) _.
Next Obligation. by intros []. Qed.
#[export] Program Instance Serial_refinement_patch : Serial RefinementPatch :=
  Serial_via (fun x => (rp_enabled x, rp_require_confirmation x, rp_editable_targets x))
    (fun t => let '(a, b, c) := t in Some (MkRefinementPatch a b c)) _.
Next Obligation. by intros []. Qed.
#[export] Program Instance Serial_profile_patch : Serial ProfilePatch :=
  Serial_via (fun x => (pp_replace x, pp_model_route x, pp_thinking x, pp_tool_rules x, pp_enabled_skills x,
                        pp_enabled_mcp_servers x,
                        (pp_enabled_plugins x, pp_channels x, pp_service_policy x, pp_autonomy x, pp_notifications x, pp_refinement x)))
    (fun t => let '(a, b, c, d, e, f, (g, h, i, j, k, l)) := t in Some (MkProfilePatch a b c d e f g h i j k l)) _.
Next Obligation. by intros []. Qed.
#[export] Program Instance Serial_config_patch : Serial ConfigPatch :=
  Serial_via (fun x => (cp_data_root x, cp_daemon x, cp_execution x, cp_autonomy x, cp_retrieval x, cp_telemetry x, cp_services x, cp_profile x))
    (fun t => let '(a, b, c, d, e, f, g, h) := t in Some (MkConfigPatch a b c d e f g h)) _.
Next Obligation. by intros []. Qed.
#[export] Program Instance Serial_layer : Serial ConfigLayer :=
  Serial_via (fun x => (ly_version x, ly_kind x, ly_patch x)) (fun t => let '(a, b, c) := t in Some (MkConfigLayer a b c)) _.
Next Obligation. by intros []. Qed.
#[export] Program Instance Serial_daemon : Serial DaemonConfig :=
  Serial_via (fun x => (worker_idle_seconds x, max_workers x, event_replay_limit x))
    (fun t => let '(a, b, c) := t in Some (MkDaemonConfig a b c)) _.
Next Obligation. by intros []. Qed.
#[export] Program Instance Serial_execution : Serial ExecutionConfig :=
  Serial_via (fun x => (workspace_confinement x, protect_local_network x, max_processes x, default_timeout_seconds x))
    (fun t => let '(a, b, c, d) := t in Some (MkExecutionConfig a b c d)) _.
Next Obligation. by intros []. Qed.
#[export] Program Instance Serial_autonomy : Serial AutonomyConfig :=
  Serial_via (fun x => (default_mode x, max_background_actions_per_hour x, max_notifications_per_day x))
    (fun t => let '(a, b, c) := t in Some (MkAutonomyConfig a b c)) _.
Next Obligation. by intros []. Qed.
#[export] Program Instance Serial_retrieval : Serial RetrievalConfig :=
  Serial_via (fun x => (lexical x, trigram x, vector x)) (fun t => let '(a, b, c) := t in Some (MkRetrievalConfig a b c)) _.
Next Obligation. by intros []. Qed.
#[export] Program Instance Serial_telemetry : Serial TelemetryConfig :=
  Serial_via (fun x => (local_metrics x, export x)) (fun t => Some (MkTelemetryConfig t.1 t.2)) _.
Next Obligation. by intros []. Qed.
#[export] Program Instance Serial_services : Serial ServiceEnablementConfig :=
  Serial_via (A := gset PlatformServiceGroup) enabled_services (fun s => Some (MkServices s)) _.
Next Obligation. by intros []. Qed.
#[export] Program Instance Serial_self_evolution : Serial SelfEvolutionConfig :=
  Serial_via (A := bool) se_enabled (fun b => Some (MkSelfEvolution b)) _.
Next Obligation. by intros []. Qed.
#[export] Program Instance Serial_config : Serial RuntimeConfig :=
  Serial_via (fun x => (rc_version x, data_root x, rc_daemon x, rc_execution x, rc_autonomy x, rc_retrieval x, rc_telemetry x,
                        rc_services x, rc_self_evolution x, rc_profile x))
    (fun t => let '(a, b, c, d, e, f, g, h, i, j) := t in Some (MkRuntimeConfig a b c d e f g h i j)) _.
Next Obligation. by intros []. Qed.
#[export] Program Instance Serial_snapshot : Serial ConfigurationSnapshot :=
  Serial_via (fun x => (cs_version x, cs_revision x, cs_layers x, cs_active x))
    (fun t => let '(a, b, c, d) := t in Some (MkConfigSnapshot a b c d)) _.
Next Obligation. by intros []. Qed.

Definition any_snapshot (x : ConfigurationSnapshot) : bool := true.
#[export] Instance snapshot_document : Document ConfigurationSnapshot := serial_document any_snapshot.

Definition read_snapshot (bytes : list Z) : result JsonError ConfigurationSnapshot := v ← from_slice bytes; from_value v.

Lemma read_snapshot_written x v bytes : to_value x = Ok v -> canonical_json_bytes v = Ok bytes -> read_snapshot bytes = Ok x.
Proof.
  intros Hx Hb. destruct (serial_document_lawful any_snapshot x v Hx) as (Hd & Hr & Hback). unfold read_snapshot.
  assert (from_slice bytes = Ok (sort_json_value v)) as ->; [|done].
  unfold canonical_json_bytes in Hb. eapply from_to_canonical, Hb.
  - injection Hx as <-. done.
  - injection Hx as <-. done.
Qed.

#[export] Instance snapshot_codec : SnapshotCodec := {|
  snapshot_to_value := to_value; snapshot_from_slice := read_snapshot; snapshot_from_to := read_snapshot_written |}.

(** ** A run *)

Definition json_text (e : JsonError) : rstr := str "json".

Definition sample_profile : AgentProfile :=
  MkAgentProfile CURRENT_SCHEMA_VERSION (MkTypedId (named_id 1)) (str "Personal Assistant") (MkTypedId (named_id 2))
    (str "AGENT.md") (str "USER.md") [str "RULE.md"]
    (MkModelRoute (str "provider-a") (str "model-main") [] (Some (str "personal"))) Medium
    {[str "read" := Allow; str "shell" := Confirm]} [str "coding"] [] [] [str "terminal"]
    (MkServicePolicy ∅ false false false 0 0 0) (MkProfileAutonomy ModeConfirmSelected 3 2 250000)
    (MkNotificationSettings (str "22:00") (str "07:00") (MkTimeZoneName (str "Europe/Berlin")) 8)
    (MkRefinementSettings false true {[str "memory"]}).

Definition profile_part (patch : ProfilePatch) : ConfigPatch := MkConfigPatch None None None None None None None (Some patch).

Definition profile_layer : ConfigLayer :=
  config_layer_new LProfile (profile_part
    (MkProfilePatch (Some sample_profile) None None None None None None None None None None None)).

(** Four processes and a rule for the shell that asks no more. *)
Definition workspace_layer : ConfigLayer :=
  config_layer_new LWorkspace
    (MkConfigPatch None None (Some (MkExecutionPatch None None (Some 4%Z) None)) None None None None
      (Some (MkProfilePatch None None None (Some (MMerge {[str "shell" := Deny]})) None None None None None None None None))).

(** Layers that are refused. *)
Definition unconfined : ConfigLayer :=
  config_layer_new LAction (MkConfigPatch None None (Some (MkExecutionPatch (Some false) None None None)) None None None None None).
Definition shell_allowed : ConfigLayer :=
  config_layer_new LSession (profile_part
    (MkProfilePatch None None None (Some (MMerge {[str "shell" := Allow]})) None None None None None None None None)).
Definition channels_started : ConfigLayer :=
  config_layer_new LWorkspace (MkConfigPatch None None None None None None
    (Some (MkServicesPatch (Some true) None None None None None)) None).

(** The workspace layer comes before the profile that it needs and is refused, and
    comes again. *)
Definition config_ops : list config_op :=
  [CfSubscribe; CfApply workspace_layer; CfApply profile_layer; CfApply workspace_layer; CfApply unconfined;
   CfApply shell_allowed; CfApply channels_started].

Definition started : ConfigManager := MkConfigManager secure_defaults secure_defaults ∅ Revision_ZERO [].

Lemma started_new : config_manager_new secure_defaults = Ok started.
Proof. reflexivity. Qed.

Definition configured : ConfigManager := config_run json_text config_ops started.

Definition applied (n : ConfigNotification) : bool := match n with Applied _ _ _ => true | Rejected _ _ _ => false end.
Definition told (m : ConfigManager) : list (list bool) := (fun s => applied <$> rx_queue s) <$> cm_subscribers m.
Definition shell_rule (c : RuntimeConfig) : option ToolPermission := p ← rc_profile c; tool_rules p !! str "shell".


Lemma snapshot_written : is_ok (snapshot_bytes (config_run json_text config_ops started)) = true.
Proof. vm_compute. reflexivity. Qed.

Lemma configuration_round_trip_witness :
  exists bytes, snapshot_bytes (config_run json_text config_ops started) = Ok bytes
    /\ restore secure_defaults bytes = Ok (with_subscribers (config_run json_text config_ops started) []).
Proof.
  pose proof snapshot_written as Hok.
  pose proof (configuration_round_trip json_text config_ops secure_defaults started) as H.
  destruct (snapshot_bytes (config_run json_text config_ops started)) as [bytes|e]; [|discriminate Hok].
  exists bytes. split; [reflexivity|]. exact (H bytes started_new eq_refl).
Defined.

(** ** What a narrow layer may still do *)

(** A session layer allows a tool that the profile has no rule for, and replaces
    the policy of the services of the profile. *)
Definition widened : ConfigLayer :=
  config_layer_new LSession (profile_part
    (MkProfilePatch None None None (Some (MMerge {[str "browser" := Allow]})) None None None None
      (Some (MkServicePolicy ∅ true true false 10 1000000 0)) (Some (MkProfileAutonomyPatch (Some ModeBounded) None None None)) None None)).

Lemma session_layer_widens :
  let before := (fun p => (tool_rules p !! str "browser", allow_computers (service_policy p), pa_mode (ap_autonomy p))) <$> rc_profile (cm_active configured) in
  let m := config_do json_text (CfApply widened) configured in
  let after := (fun p => (tool_rules p !! str "browser", allow_computers (service_policy p), pa_mode (ap_autonomy p))) <$> rc_profile (cm_active m) in
  before = Some (None, false, ModeConfirmSelected) /\ after = Some (Some Allow, true, ModeBounded).
Proof. split; vm_compute; reflexivity. Qed.
