(* ===== verification/Profiles.v ===== *)
(** * The profile registry: [crates/profile/src/lib.rs]

    Profiles with their resource roots and authorized callers, kept as one record
    per profile.  The repository is the interface of [StateStoreCore]; the derived
    codec of a profile is a parameter, and so is what the file system answers
    while a profile is validated. *)

From Stdlib Require Import ZArith Lia String.
From stdpp Require Import base decidable countable relations gmap sorting option list.
From S2P Require Import Prelude RustStd RustText AgentTypes Json StateStoreCore ItemStore Configuration.

(** ** Data *)

Record ProfileResources := MkResources { workspace_root : PathBuf; memory_root : PathBuf; schedule_root : PathBuf }.

Record RegisteredProfile := MkRegistered {
  rg_profile : AgentProfile;
  rg_resources : ProfileResources;
  rg_enabled : bool;
  authorized_callers : gset rstr;
  rg_revision : Revision;
  rg_updated_at : UtcTimestamp
}.

Definition rg_id (p : RegisteredProfile) : ProfileId := ap_id (rg_profile p).

Definition can_enable_self_evolution (p : RegisteredProfile) : bool := false.

Definition authorizes_channel (p : RegisteredProfile) (channel : rstr) : bool :=
  rg_enabled p && existsb (fun value => bool_decide (value = channel)) (ap_channels (rg_profile p)).

Definition authorizes_plugin (p : RegisteredProfile) (plugin : rstr) : bool :=
  rg_enabled p && existsb (fun value => bool_decide (value = plugin)) (enabled_plugins (rg_profile p)).

Definition authorizes_connected_app_toolkit (p : RegisteredProfile) (toolkit : rstr) : bool :=
  rg_enabled p && bool_decide (toolkit ∈ allowed_connected_app_toolkits (service_policy (rg_profile p))).

Definition authorizes_computer (p : RegisteredProfile) : bool :=
  rg_enabled p && allow_computers (service_policy (rg_profile p)).

Definition authorizes_recording (p : RegisteredProfile) : bool :=
  rg_enabled p && allow_recording (service_policy (rg_profile p)).

Definition authorizes_recipe_publication (p : RegisteredProfile) : bool :=
  rg_enabled p && allow_recipe_publication (service_policy (rg_profile p)).

Inductive DiskError := DiskNotFound | DiskOther.

Inductive ProfileError (E : Type) :=
| PfAlreadyExists (id : ProfileId)
| PfMissing (id : ProfileId)
| PfStale
| PfInvalid (message : rstr)
| PfIo (error : DiskError)
| PfRepository (error : E)
| PfSerialize (error : JsonError).
Global Arguments PfAlreadyExists {E}.
Global Arguments PfMissing {E}.
Global Arguments PfStale {E}.
Global Arguments PfInvalid {E}.
Global Arguments PfIo {E}.
Global Arguments PfRepository {E}.
Global Arguments PfSerialize {E}.

(** ** Validation *)

(** What the file system answers: it stays the same during one validation. *)
Record Disk := MkDisk {
  canonicalize : PathBuf -> result DiskError PathBuf;
  is_dir : PathBuf -> bool;
  is_file : PathBuf -> bool
}.

Section validation.
Context {E : Type} (disk : Disk).

Definition validate_unique_nonempty (field : rstr) (values : list rstr) : result (ProfileError E) unit :=
  let unique : gset rstr := list_to_set values in
  if negb (size unique =? length values)%nat || existsb str_blank values
  then Err (PfInvalid (field ++ str " must be unique and non-empty")) else Ok tt.

Definition canonical_directory (path : PathBuf) : result (ProfileError E) PathBuf :=
  canonical ← map_err PfIo (canonicalize disk path);
  reject_if (negb (is_dir disk canonical)) (PfInvalid (path ++ str " is not a directory")) ;;
  Ok canonical.

Definition escapes (c : Component) : bool := match c with ParentDir | RootDir => true | CurDir | Normal _ => false end.

Definition validate_profile_file (workspace relative : PathBuf) : result (ProfileError E) unit :=
  reject_if (str_is_empty relative || is_absolute relative || existsb escapes (components relative))
    (PfInvalid (str "profile file path escapes workspace")) ;;
  canonical ← map_err PfIo (canonicalize disk (path_join workspace relative));
  reject_if (negb (path_starts_with canonical workspace) || negb (is_file disk canonical))
    (PfInvalid (str "profile file must be a regular workspace file")).

(** The profile with canonical roots. *)
Definition normalize_and_validate (p : RegisteredProfile) : result (ProfileError E) RegisteredProfile :=
  let profile := rg_profile p in
  reject_if (negb (sv_major (ap_version profile) =? sv_major CURRENT_SCHEMA_VERSION)%Z
             || (sv_minor CURRENT_SCHEMA_VERSION <? sv_minor (ap_version profile))%Z)
    (PfInvalid (str "unsupported profile version")) ;;
  reject_if (str_blank (display_name profile) || str_blank (mr_provider (model_route profile))
             || str_blank (mr_model (model_route profile)) || bool_decide (authorized_callers p = ∅)
             || existsb str_blank (elements (authorized_callers p)))
    (PfInvalid (str "identity, model route, and authorized callers must be non-empty")) ;;
  validate_unique_nonempty (str "skills") (enabled_skills profile) ;;
  validate_unique_nonempty (str "MCP servers") (enabled_mcp_servers profile) ;;
  validate_unique_nonempty (str "plugins") (enabled_plugins profile) ;;
  validate_unique_nonempty (str "channels") (ap_channels profile) ;;
  reject_if (existsb (fun entry => str_blank entry.1) (map_to_list (tool_rules profile))
             || (pa_max_children (ap_autonomy profile) =? 0)%Z || (pa_max_depth (ap_autonomy profile) =? 0)%Z
             || (daily_limit (notifications profile) =? 0)%Z)
    (PfInvalid (str "tool names and profile ceilings must be valid")) ;;
  workspace ← canonical_directory (workspace_root (rg_resources p));
  memory ← canonical_directory (memory_root (rg_resources p));
  schedules ← canonical_directory (schedule_root (rg_resources p));
  reject_if (negb (path_starts_with memory workspace) || negb (path_starts_with schedules workspace)
             || path_eqb memory schedules)
    (PfInvalid (str "memory and schedule roots must be distinct workspace descendants")) ;;
  validate_profile_file workspace (persona_file profile) ;;
  validate_profile_file workspace (user_file profile) ;;
  try_fold (fun _ rules => validate_profile_file workspace rules) tt (rule_files profile) ;;
  Ok (MkRegistered profile (MkResources workspace memory schedules) (rg_enabled p) (authorized_callers p)
        (rg_revision p) (rg_updated_at p)).
End validation.

(** ** The registry *)

Section registry.
Context {S : Type} `{HR : Repository S, HD : Document RegisteredProfile}.
Context (disk : Disk).

Abbreviation profile_error := (ProfileError repo_error).
Abbreviation profile_m := (stateT (World S) profile_error).

Definition with_revision (p : RegisteredProfile) (revision : Revision) : RegisteredProfile :=
  MkRegistered (rg_profile p) (rg_resources p) (rg_enabled p) (authorized_callers p) revision (rg_updated_at p).

Definition encode_profile (p : RegisteredProfile) : result profile_error VersionedRecord :=
  payload ← map_err PfSerialize (to_value p);
  Ok (MkVersionedRecord CURRENT_SCHEMA_VERSION (as_entity_id (rg_id p)) (rg_revision p) (rg_updated_at p) payload).

Definition decode_profile (r : VersionedRecord) : result profile_error (Stored RegisteredProfile) :=
  p ← map_err PfSerialize (from_value (rec_payload r));
  reject_if (negb (bool_decide (as_entity_id (rg_id p) = rec_id r)) || negb (bool_decide (rg_revision p = rec_revision r)))
    (PfInvalid (str "profile record identity or revision mismatch")) ;;
  Ok (MkStored p (rg_revision p)).

Definition get_profile (id : ProfileId) : profile_m (option RegisteredProfile) :=
  found ← load_item Profiles PfRepository decode_profile (as_entity_id id);
  mret (item <$> found).

Definition register_profile (p : RegisteredProfile) : profile_m RegisteredProfile :=
  found ← get_profile (rg_id p);
  match found with
  | Some _ => throw (PfAlreadyExists (rg_id p))
  | None =>
      p ← lift (normalize_and_validate disk (with_revision p Revision_ZERO));
      r ← lift (encode_profile p);
      map_err_m PfRepository (call_put Profiles r PreMissing) ;;
      mret p
  end.

Definition update_profile (p : RegisteredProfile) (expected : Revision) : profile_m RegisteredProfile :=
  found ← get_profile (rg_id p);
  current ← lift (ok_or found (PfMissing (rg_id p)));
  lift (reject_if (negb (bool_decide (rg_revision current = expected)) || negb (bool_decide (rg_revision p = expected))) PfStale) ;;
  next ← lift (ok_or (checked_next expected) PfStale);
  p ← lift (normalize_and_validate disk (with_revision p next));
  r ← lift (encode_profile p);
  map_err_m PfRepository (call_put Profiles r (PreExact expected)) ;;
  mret p.

Definition profile_order (l r : RegisteredProfile) : comparison := rcmp (as_entity_id (rg_id l)) (as_entity_id (rg_id r)).

Definition list_profiles : profile_m (list RegisteredProfile) :=
  profiles ← load_items Profiles PfRepository decode_profile;
  mret (sort_by profile_order (item <$> profiles)).

Definition remove_profile (id : ProfileId) (expected : Revision) : profile_m RegisteredProfile :=
  found ← get_profile id;
  current ← lift (ok_or found (PfMissing id));
  lift (reject_if (rg_enabled current) (PfInvalid (str "profile must be disabled before service data deletion"))) ;;
  lift (reject_if (negb (bool_decide (rg_revision current = expected))) PfStale) ;;
  map_err_m PfRepository (call_delete Profiles (as_entity_id id) (PreExact expected)) ;;
  mret current.
End registry.
