(* ===== verification/ProfileProperties.v ===== *)
(** * Correctness of the profile registry

    Valid profiles, what may happen to the record of one, and runs of arbitrary
    operations of several registries over one repository. *)

From Stdlib Require Import ZArith Lia String.
From stdpp Require Import base decidable countable relations gmap sorting option list.
From S2P Require Import Prelude RustStd RustText AgentTypes Json StateStoreCore ItemStore Configuration Profiles.

(** ** Valid profiles *)

Definition unique_nonblank (values : list rstr) : Prop := NoDup values /\ Forall (fun v => str_blank v = false) values.

(** A file of the workspace that is named without going up or to the root. *)
Definition plain_file (relative : PathBuf) : Prop := relative <> [] /\ Forall (fun c => escapes c = false) (components relative).

Definition profile_files (p : AgentProfile) : list PathBuf := persona_file p :: user_file p :: rule_files p.

(** What is checked of a profile, apart from what the file system holds. *)
Definition profile_valid (p : RegisteredProfile) : Prop :=
  let profile := rg_profile p in
  let resources := rg_resources p in
  sv_major (ap_version profile) = sv_major CURRENT_SCHEMA_VERSION
  /\ (sv_minor (ap_version profile) <= sv_minor CURRENT_SCHEMA_VERSION)%Z
  /\ str_blank (display_name profile) = false /\ str_blank (mr_provider (model_route profile)) = false
  /\ str_blank (mr_model (model_route profile)) = false
  /\ authorized_callers p <> ∅ /\ (forall caller, caller ∈ authorized_callers p -> str_blank caller = false)
  /\ unique_nonblank (enabled_skills profile) /\ unique_nonblank (enabled_mcp_servers profile)
  /\ unique_nonblank (enabled_plugins profile) /\ unique_nonblank (ap_channels profile)
  /\ (forall tool permission, tool_rules profile !! tool = Some permission -> str_blank tool = false)
  /\ pa_max_children (ap_autonomy profile) <> 0%Z /\ pa_max_depth (ap_autonomy profile) <> 0%Z
  /\ daily_limit (notifications profile) <> 0%Z
  /\ components (workspace_root resources) `prefix_of` components (memory_root resources)
  /\ components (workspace_root resources) `prefix_of` components (schedule_root resources)
  /\ components (memory_root resources) <> components (schedule_root resources)
  /\ Forall plain_file (profile_files profile).

(** The roots are canonical directories, and the files of the profile lie in the
    workspace, wherever links lead. *)
Definition confined (disk : Disk) (roots resources : ProfileResources) (profile : AgentProfile) : Prop :=
  canonicalize disk (workspace_root roots) = Ok (workspace_root resources)
  /\ canonicalize disk (memory_root roots) = Ok (memory_root resources)
  /\ canonicalize disk (schedule_root roots) = Ok (schedule_root resources)
  /\ is_dir disk (workspace_root resources) = true /\ is_dir disk (memory_root resources) = true
  /\ is_dir disk (schedule_root resources) = true
  /\ Forall (fun file => exists target, canonicalize disk (path_join (workspace_root resources) file) = Ok target
       /\ components (workspace_root resources) `prefix_of` components target /\ is_file disk target = true)
       (profile_files profile).

Lemma existsb_none {A} (f : A -> bool) xs : existsb f xs = false -> forall x, x ∈ xs -> f x = false.
Proof.
  intros He x Hx. apply not_true_iff_false. intros Hb. apply not_true_iff_false in He. apply He.
  apply existsb_exists. exists x. split; [by apply list_elem_of_In|done].
Qed.

Lemma list_to_set_full (l : list rstr) : size (list_to_set l : gset rstr) = length l -> NoDup l.
Proof.
  induction l as [|x l IH]; intros Hs; [constructor|]. rewrite list_to_set_cons in Hs. simpl length in Hs.
  pose proof (size_list_to_set_le l) as Hle.
  destruct (decide (x ∈ l)) as [Hin|Hin].
  - assert ({[x]} ∪ list_to_set l =@{gset rstr} list_to_set l) as Heq by set_solver. rewrite Heq in Hs. lia.
  - constructor; [done|]. apply IH. rewrite size_union, size_singleton in Hs by set_solver. lia.
Qed.

Lemma validate_unique_Ok {E} field values :
  validate_unique_nonempty (E := E) field values = Ok tt -> unique_nonblank values.
Proof.
  unfold validate_unique_nonempty. destruct (_ || _) eqn:Hb; [done|]. intros _. apply orb_false_iff in Hb as [Hs Hv].
  apply negb_false_iff, Nat.eqb_eq in Hs. split; [by apply list_to_set_full|].
  apply list.Forall_forall. by apply existsb_none.
Qed.

Lemma validate_file_Ok {E} disk workspace relative :
  validate_profile_file (E := E) disk workspace relative = Ok tt ->
  plain_file relative /\ exists target, canonicalize disk (path_join workspace relative) = Ok target
    /\ components workspace `prefix_of` components target /\ is_file disk target = true.
Proof.
  unfold validate_profile_file. intros [Hp H]%reject_if_bind. apply orb_false_iff in Hp as [Hp He].
  apply orb_false_iff in Hp as [Hp _]. apply bind_Ok in H as (target & Ht & H). apply reject_if_ok in H.
  apply orb_false_iff in H as [Hw Hf]. apply negb_false_iff in Hw, Hf. split; [split|].
  - by intros ->.
  - apply list.Forall_forall. by apply existsb_none.
  - exists target. split; [by destruct (canonicalize _ _); simpl in Ht; congruence|].
    split; [|done]. by apply components_prefix_spec.
Qed.

Lemma canonical_directory_Ok {E} disk path target :
  canonical_directory (E := E) disk path = Ok target -> canonicalize disk path = Ok target /\ is_dir disk target = true.
Proof.
  unfold canonical_directory. intros H. apply bind_Ok in H as (c & Hc & H). apply reject_if_bind in H as [Hd [= ->]].
  apply negb_false_iff in Hd. split; [|done]. by destruct (canonicalize _ _); simpl in Hc; congruence.
Qed.

Lemma normalize_Ok {E} disk p p' :
  normalize_and_validate (E := E) disk p = Ok p' ->
  p' = MkRegistered (rg_profile p) (rg_resources p') (rg_enabled p) (authorized_callers p) (rg_revision p) (rg_updated_at p)
  /\ profile_valid p' /\ confined disk (rg_resources p) (rg_resources p') (rg_profile p).
Proof.
  unfold normalize_and_validate. intros [Hv H]%reject_if_bind. apply orb_false_iff in Hv as [Hv1 Hv2].
  apply reject_if_bind in H as [Hi H]. rewrite !orb_false_iff in Hi. destruct Hi as ((((Hi1 & Hi2) & Hi3) & Hi4) & Hi5).
  apply bind_Ok in H as ([] & Hs1%validate_unique_Ok & H). apply bind_Ok in H as ([] & Hs2%validate_unique_Ok & H).
  apply bind_Ok in H as ([] & Hs3%validate_unique_Ok & H). apply bind_Ok in H as ([] & Hs4%validate_unique_Ok & H).
  apply reject_if_bind in H as [Hc H]. rewrite !orb_false_iff in Hc. destruct Hc as (((Hc1 & Hc2) & Hc3) & Hc4).
  apply bind_Ok in H as (w & [Hw Hwd]%canonical_directory_Ok & H). apply bind_Ok in H as (m & [Hm Hmd]%canonical_directory_Ok & H).
  apply bind_Ok in H as (s & [Hs Hsd]%canonical_directory_Ok & H). apply reject_if_bind in H as [Hr H].
  rewrite !orb_false_iff, !negb_false_iff in Hr. destruct Hr as ((Hr1%components_prefix_spec & Hr2%components_prefix_spec) & Hr3%bool_decide_eq_false).
  apply bind_Ok in H as ([] & [Hp1 Hp2]%validate_file_Ok & H). apply bind_Ok in H as ([] & [Hu1 Hu2]%validate_file_Ok & H).
  apply bind_Ok in H as ([] & Hrules & H). apply try_fold_units in Hrules. injection H as <-. simpl.
  assert (Forall (fun f => plain_file f /\ exists t, canonicalize disk (path_join w f) = Ok t /\ components w `prefix_of` components t
    /\ is_file disk t = true) (profile_files (rg_profile p))) as Hfiles.
  { do 2 (constructor; [done|]). eapply Forall_impl; [exact Hrules|]. intros f Hf. by apply validate_file_Ok in Hf. }
  apply Forall_and in Hfiles as [Hf1 Hf2]. split; [done|]. split; [|by split_and!]. split_and!; try done; simpl.
  - by apply negb_false_iff, Z.eqb_eq in Hv1.
  - apply Z.ltb_ge in Hv2. exact Hv2.
  - by apply bool_decide_eq_false in Hi4.
  - intros c Hc. eapply existsb_none; [exact Hi5|]. by apply elem_of_elements.
  - intros tool permission Ht. by apply (existsb_none _ _ Hc1 (tool, permission)), elem_of_map_to_list.
  - by apply Z.eqb_neq in Hc2.
  - by apply Z.eqb_neq in Hc3.
  - by apply Z.eqb_neq in Hc4.
Qed.

(** ** The life of a profile *)

Definition profile_key (p : RegisteredProfile) : EntityId := as_entity_id (rg_id p).

Definition profile_init (p : RegisteredProfile) : Prop := profile_valid p /\ rg_revision p = Revision_ZERO.

Definition profile_step (p p' : RegisteredProfile) : Prop :=
  rg_id p' = rg_id p /\ profile_valid p' /\ checked_next (rg_revision p) = Some (rg_revision p').

(** Only a disabled profile is removed. *)
Definition profile_ended (p : RegisteredProfile) : Prop := rg_enabled p = false.

Section operations.
Context {S : Type} `{HU : Ulid, HR : Repository S, HL : !RepositoryLaws S, HD : Document RegisteredProfile}.

Abbreviation fholds := (holds Profiles decode_profile profile_key profile_init profile_step).

Definition profiles : Machine RegisteredProfile := item_machine Profiles decode_profile profile_init profile_step.

Lemma decode_profile_Ok r x :
  decode_profile r = Ok x <->
  from_value (rec_payload r) = Ok (item x) /\ profile_key (item x) = rec_id r /\ rg_revision (item x) = rec_revision r
  /\ storage_revision x = rec_revision r.
Proof.
  unfold decode_profile, profile_key. destruct (from_value _) as [p|]; cbn [mbind result_bind map_err]; [|naive_solver].
  rewrite reject_if_bind, orb_false_iff, !negb_false_iff, !bool_decide_eq_true. split.
  - intros [[Hi Hr] [= <-]]. by split_and!.
  - intros ([= ->] & Hi & Hr & Hs). split; [done|]. destruct x. simpl in *. congruence.
Qed.

Lemma decode_profile_faithful : decode_faithful decode_profile profile_key.
Proof. intros r x (_ & Hi & _ & Hs)%decode_profile_Ok. done. Qed.

Lemma encode_profile_Ok p r :
  document_lawful RegisteredProfile -> encode_profile p = Ok r -> id_canonical (profile_key p) ->
  is_u64 (revision_get (rg_revision p)) -> is_i64 (unix_millis (rg_updated_at p)) ->
  wf_record r /\ rec_id r = profile_key p /\ rec_revision r = rg_revision p
  /\ decode_profile (canonical_record r) = Ok (MkStored p (rg_revision p)).
Proof.
  intros Hlaw He Hid Hrev Hnow. unfold encode_profile in He. apply bind_Ok in He as (v & Hv & He). injection He as <-.
  assert (to_value p = Ok v) as Ht by (destruct (to_value p); simpl in Hv; congruence).
  destruct (Hlaw _ _ Ht) as (Hd & Hread & Hback). split; [|split; [done|split; [done|by apply decode_profile_Ok]]].
  split; [done|]. do 2 (split; [simpl; unfold u16_max; lia|]). done.
Qed.

Context (G : Contract) (retired : EntityId -> Prop).
Context (Hlives : forall recs recs', guarantee G recs recs' -> lives profiles retired profile_ended recs recs').

Lemma profiles_named : revisions_name G Profiles.
Proof. intros recs recs' id r r' HT. by apply (lives_same_revision profiles retired profile_ended), Hlives. Qed.

Lemma spec_get_profile P id :
  stable G P ->
  spec G P (get_profile id) (fun found recs => P recs
    /\ match found with
       | Some p => exists x, fholds recs x /\ wf_stored profile_key x /\ p = item x /\ rg_id p = id /\ rg_revision p = storage_revision x
       | None => recs !! (Profiles, as_entity_id id) = None
       end).
Proof.
  intros Hst. unfold get_profile.
  eapply spec_bind; [apply (spec_load_item G Profiles decode_profile profile_key profile_init profile_step), decode_profile_faithful|].
  intros found. cbn beta. apply spec_ret. intros recs (Hf & Hl & Hx). split; [by apply (later_stable G P)|].
  destruct found as [x|]; simpl; [|done]. destruct (Hf x eq_refl) as [Hid Hwf]. exists x. split_and!; try done.
  - by apply (inj as_entity_id).
  - apply holds_lookup in Hx as (r & _ & (_ & _ & H1 & H2)%decode_profile_Ok). congruence.
Qed.

Lemma spec_list_profiles P :
  stable G P ->
  spec G P list_profiles (fun ps recs => P recs /\ forall p, p ∈ ps <-> exists x, fholds recs x /\ p = item x).
Proof.
  intros Hst. unfold list_profiles.
  eapply spec_bind; [apply (spec_load_items G Profiles decode_profile profile_key profile_init profile_step), decode_profile_faithful|].
  intros xs. cbn beta. apply spec_ret. intros recs (_ & Hl & [_ Hin]). split; [by apply (later_stable G P)|].
  intros p. rewrite sort_by_perm, list_elem_of_fmap. split.
  - intros (x & -> & Hx%Hin). by exists x.
  - intros (x & Hx & ->). exists x. split; [done|]. by apply Hin.
Qed.

Context (Hcodec : document_lawful RegisteredProfile) (disk : Disk).
Context (Hcreate : forall recs r s, recs !! (Profiles, rec_id r) = None -> decode_profile (canonical_record r) = Ok s ->
  rec_id r = profile_key (item s) -> profile_init (item s) -> ~ retired (rec_id r) ->
  guarantee G recs (<[(Profiles, rec_id r) := canonical_record r]> recs)).
Context (Hupdate : forall recs x r s, fholds recs x -> decode_profile (canonical_record r) = Ok s ->
  profile_step (item x) (item s) -> revision_get (rec_revision r) = (revision_get (storage_revision x) + 1)%Z ->
  guarantee G recs (<[(Profiles, profile_key (item x)) := canonical_record r]> recs)).
Context (Hdelete : forall recs x, fholds recs x -> profile_ended (item x) -> retired (profile_key (item x)) ->
  guarantee G recs (delete (Profiles, profile_key (item x)) recs)).

Lemma spec_register_profile P p :
  stable G P -> id_canonical (profile_key p) -> is_i64 (unix_millis (rg_updated_at p)) -> ~ retired (profile_key p) ->
  spec G P (register_profile disk p) (fun p' recs' => exists recs s, P recs /\ recs !! (Profiles, profile_key p) = None
    /\ fholds recs' s /\ p' = item s /\ profile_valid p' /\ rg_revision p' = Revision_ZERO
    /\ confined disk (rg_resources p) (rg_resources p') (rg_profile p')).
Proof.
  intros Hst Hid Hnow Hret. unfold register_profile. eapply spec_bind; [by apply spec_get_profile|].
  intros [q|]; cbn beta iota; [apply spec_throw|]. apply spec_lift_bind. intros p' (Hp' & Hval & Hconf)%normalize_Ok.
  assert (profile_key p' = profile_key p) as Hkey by by rewrite Hp'.
  assert (rg_revision p' = Revision_ZERO) as Hrev by by rewrite Hp'.
  apply spec_lift_bind. intros r Hr. destruct (encode_profile_Ok p' r Hcodec Hr) as (Hwf & Hrid & Hrr & Hdec).
  { by rewrite Hkey. } { rewrite Hrev. by vm_compute. } { by rewrite Hp'. }
  eapply spec_bind; [apply (spec_create G Profiles PfRepository); [done|done|]|].
  { intros recs _ Hnone. eapply (Hcreate recs r _ Hnone Hdec); [done|done|]. by rewrite Hrid, Hkey. }
  intros receipt. cbn beta. apply spec_ret. intros recs' (recs & Hl & Hnone & ->).
  exists recs, (MkStored p' (rg_revision p')). split; [|split; [by rewrite <- Hkey, <- Hrid|]].
  { destruct Hl as (recs1 & [HP _] & HR1). eapply Hst; [exact HP|]. by apply rely_guarantee. }
  split_and!; try done; [|by rewrite Hp' at 2]. rewrite Hrid. by apply (holds_insert_eq Profiles decode_profile profile_key _ _ recs _ (MkStored p' (rg_revision p'))).
Qed.

Lemma spec_update_profile P p expected :
  stable G P -> is_i64 (unix_millis (rg_updated_at p)) ->
  spec G P (update_profile disk p expected) (fun p' recs' => exists recs x s, P recs
    /\ replaces Profiles decode_profile profile_key profile_init profile_step recs recs' x s
    /\ p' = item s /\ rg_id (item x) = rg_id p /\ rg_revision (item x) = expected /\ profile_step (item x) p'
    /\ p' = MkRegistered (rg_profile p) (rg_resources p') (rg_enabled p) (authorized_callers p) (rg_revision p') (rg_updated_at p)).
Proof.
  intros Hst Hnow. unfold update_profile. eapply spec_bind; [by apply spec_get_profile|]. intros found. cbn beta.
  apply spec_lift_bind. intros current ->%ok_or_Ok. apply spec_pre. intros recs1 (HP & x & Hx & [Hcan Hu] & -> & Hid & Hrx).
  apply spec_lift_bind. intros [] Hexp%reject_if_ok. rewrite orb_false_iff, !negb_false_iff, !bool_decide_eq_true in Hexp.
  destruct Hexp as [Hexp _]. apply spec_lift_bind. intros next Hnext%ok_or_Ok.
  apply spec_lift_bind. intros p' (Hp' & Hval & _)%normalize_Ok.
  assert (rg_id p' = rg_id p) as Hid' by by rewrite Hp'. assert (rg_revision p' = next) as Hrev by by rewrite Hp'.
  pose proof Hnext as [Hn Hle]%checked_next_Some.
  assert (profile_step (item x) p') as Hstep by (split_and!; [congruence|done|congruence]).
  apply spec_lift_bind. intros r Hr. destruct (encode_profile_Ok p' r Hcodec Hr) as (Hwf & Hrid & Hrr & Hdec).
  { unfold profile_key in *. by rewrite Hid', <- Hid. }
  { rewrite Hrev. unfold is_u64 in *. rewrite Hn, <- Hexp, Hrx in *. lia. }
  { by rewrite Hp'. }
  assert (expected = storage_revision x) as -> by congruence.
  eapply spec_bind.
  { apply (spec_update_named G Profiles decode_profile profile_key profile_init profile_step PfRepository decode_profile_faithful
      (eq recs1) x r profiles_named); [done|done| | |].
    - rewrite Hrid. unfold profile_key. congruence.
    - intros recs <-. by apply holds_seen.
    - intros recs _ Hh. eapply Hupdate; [done|exact Hdec|done|]. by rewrite Hrr, Hrev, Hn. }
  intros receipt. cbn beta. apply spec_ret. intros recs' (recs & (recs2 & <- & HR2) & Hh & ->).
  exists recs, x, (MkStored p' (rg_revision p')). split; [eapply Hst; [exact HP|by apply rely_guarantee]|].
  assert (profile_key p' = profile_key (item x)) as Hkey by (unfold profile_key; congruence).
  split; [|split_and!; try done; by rewrite Hrev].
  split; [done|]. split; [|split; [done|by eexists]]. rewrite <- Hkey.
  by apply (holds_insert_eq Profiles decode_profile profile_key _ _ recs _ (MkStored p' (rg_revision p'))).
Qed.

Lemma spec_remove_profile P id expected :
  stable G P -> retired (as_entity_id id) ->
  spec G P (remove_profile id expected) (fun p recs' => exists recs x, P recs /\ fholds recs x /\ p = item x
    /\ rg_id p = id /\ rg_revision p = expected /\ profile_ended p /\ recs' = delete (Profiles, as_entity_id id) recs).
Proof.
  intros Hst Hret. unfold remove_profile. eapply spec_bind; [by apply spec_get_profile|]. intros found. cbn beta.
  apply spec_lift_bind. intros current ->%ok_or_Ok. apply spec_pre. intros recs1 (HP & x & Hx & _ & -> & Hid & Hrx).
  apply spec_lift_bind. intros [] Hen%reject_if_ok. apply spec_lift_bind. intros [] Hexp%reject_if_ok%negb_false_iff%bool_decide_eq_true.
  assert (expected = storage_revision x) as -> by congruence.
  assert (as_entity_id id = profile_key (item x)) as Hk by (unfold profile_key; congruence). rewrite Hk in *.
  eapply spec_bind.
  { apply (spec_delete G Profiles decode_profile profile_key profile_init profile_step PfRepository decode_profile_faithful
      (eq recs1) x profiles_named); [done| |].
    - intros recs <-. by apply holds_seen.
    - intros recs _ Hh. by apply Hdelete. }
  intros receipt. cbn beta. apply spec_ret. intros recs' (recs & (recs2 & <- & HR2) & Hh & ->).
  exists recs, x. split; [eapply Hst; [exact HP|by apply rely_guarantee]|]. by split_and!.
Qed.
End operations.
