(* ===== verification/Routing.v ===== *)
(** * Channel routes: the route table of [crates/routing/src/lib.rs]

    Rules that say which profile answers which conversation, the sessions that
    conversations are bound to, and what a group may do.  The repository is the
    interface of [StateStoreCore]; the derived codec of a stored route and the
    identifiers that are drawn are parameters. *)

From Stdlib Require Import ZArith Lia String.
From stdpp Require Import base decidable countable relations gmap sorting option list.
From S2P Require Import Prelude RustStd AgentTypes Json StateStoreCore ItemStore Configuration Profiles.

(** ** Data *)

Inductive ChannelSessionPolicy := PerConversation | PerSender | PerThread | ExplicitOnly.
Inductive GroupMentionPolicy := MentionAlways | RequireMention | MentionIgnore.
Inductive GroupMemoryPolicy := MemoryShared | PrivatePerParticipant | MemoryDisabled.
Inductive ParticipantRetentionPolicy := Retain | Ephemeral.
Inductive GroupAuthority := AuthorityDisabled | ProfileCallers | AllowList (principals : gset rstr).
Inductive ProactivePostPolicy := PostsDenied | PostsAllowed.
Inductive ChannelRoutePurpose := Inbound | ProactivePost.

#[export] Instance ChannelSessionPolicy_eq_dec : EqDecision ChannelSessionPolicy.
Proof. solve_decision. Defined.
#[export] Instance ParticipantRetentionPolicy_eq_dec : EqDecision ParticipantRetentionPolicy.
Proof. solve_decision. Defined.
#[export] Instance ProactivePostPolicy_eq_dec : EqDecision ProactivePostPolicy.
Proof. solve_decision. Defined.
#[export] Instance ChannelRoutePurpose_eq_dec : EqDecision ChannelRoutePurpose.
Proof. solve_decision. Defined.

Record GroupRoutePolicy := MkGroupPolicy {
  gp_mention : GroupMentionPolicy;
  gp_memory : GroupMemoryPolicy;
  participant_retention : ParticipantRetentionPolicy;
  gp_tools : GroupAuthority;
  gp_schedules : GroupAuthority;
  proactive_posts : ProactivePostPolicy
}.

Record ChannelRouteMatcher := MkMatcher {
  mt_channel : option rstr;
  mt_account : option rstr;
  mt_conversation : option rstr;
  mt_thread : option rstr;
  mt_sender : option rstr;
  command_prefix : option rstr
}.

Record ChannelRouteRule := MkRouteRule {
  ru_version : SchemaVersion;
  ru_id : EntityId;
  ru_profile_id : ProfileId;
  ru_priority : Z;
  ru_enabled : bool;
  ru_matcher : ChannelRouteMatcher;
  ru_session_policy : ChannelSessionPolicy;
  ru_group_policy : GroupRoutePolicy
}.

Record RegisteredChannelRoute := MkRegisteredRoute {
  rr_rule : ChannelRouteRule;
  rr_revision : Revision;
  rr_updated_at : UtcTimestamp
}.

Record ChannelRouteContext := MkRouteContext {
  cx_channel : rstr;
  cx_account : rstr;
  cx_conversation : rstr;
  cx_thread : option rstr;
  cx_sender : rstr;
  cx_caller : rstr;
  cx_text : rstr;
  explicit_profile : option ProfileId;
  explicit_session : option SessionId;
  cx_is_group : bool;
  mentions_profile : bool;
  cx_purpose : ChannelRoutePurpose
}.

Inductive MemoryPartition := PartShared (conversation : rstr) | PartParticipant (sender : rstr) | PartDisabled.

Record ResolvedChannelRoute := MkResolvedRoute {
  route_id : EntityId;
  rs_profile : RegisteredProfile;
  rs_session_id : SessionId;
  rs_session_key : rstr;
  rs_memory_partition : MemoryPartition;
  retain_participant : bool;
  rs_group_policy : GroupRoutePolicy;
  rs_is_group : bool
}.

Record StoredChannelRoute := MkStoredRoute {
  sr_rule : ChannelRouteRule;
  session_bindings : gmap rstr SessionId
}.

(** The errors of the route table. *)
Inductive RouteError (E : Type) :=
| RtMissing
| RtAmbiguous
| RtDisabled (profile : ProfileId)
| RtUnauthorized (profile : ProfileId)
| RtChannelDisabled (profile : ProfileId) (channel : rstr)
| RtInvalid (message : rstr)
| RtProfile (error : ProfileError E)
| RtSerialize (error : JsonError)
| RtRepository (error : E)
| RtCorruptVersion
| RtCorruptDocument (error : JsonError)
| RtCorruptEnvelope
| RtCorruptRule (error : rstr)
| RtRouteAlreadyExists (id : EntityId)
| RtRouteNotFound (id : EntityId)
| RtStaleRoute
| RtRouteDisabled (id : EntityId)
| RtProfileUnavailable (profile : ProfileId)
| RtMentionRequired
| RtGroupIgnored
| RtProactivePostDenied.
Global Arguments RtMissing {E}.
Global Arguments RtAmbiguous {E}.
Global Arguments RtDisabled {E}.
Global Arguments RtUnauthorized {E}.
Global Arguments RtChannelDisabled {E}.
Global Arguments RtInvalid {E}.
Global Arguments RtProfile {E}.
Global Arguments RtSerialize {E}.
Global Arguments RtRepository {E}.
Global Arguments RtCorruptVersion {E}.
Global Arguments RtCorruptDocument {E}.
Global Arguments RtCorruptEnvelope {E}.
Global Arguments RtCorruptRule {E}.
Global Arguments RtRouteAlreadyExists {E}.
Global Arguments RtRouteNotFound {E}.
Global Arguments RtStaleRoute {E}.
Global Arguments RtRouteDisabled {E}.
Global Arguments RtProfileUnavailable {E}.
Global Arguments RtMentionRequired {E}.
Global Arguments RtGroupIgnored {E}.
Global Arguments RtProactivePostDenied {E}.

(** ** Policies *)

Definition authority_allows (authority : GroupAuthority) (principal : rstr) : bool :=
  match authority with
  | AuthorityDisabled => false
  | ProfileCallers => true
  | AllowList principals => bool_decide (principal ∈ principals)
  end.

Definition tools_allowed_for (route : ResolvedChannelRoute) (principal : rstr) : bool :=
  negb (rs_is_group route) || authority_allows (gp_tools (rs_group_policy route)) principal.

Definition schedules_allowed_for (route : ResolvedChannelRoute) (principal : rstr) : bool :=
  negb (rs_is_group route) || authority_allows (gp_schedules (rs_group_policy route)) principal.

Definition proactive_posts_allowed (route : ResolvedChannelRoute) : bool :=
  negb (rs_is_group route) || bool_decide (proactive_posts (rs_group_policy route) = PostsAllowed).

Definition authority_list_invalid (authority : GroupAuthority) : bool :=
  match authority with
  | AllowList principals => bool_decide (principals = ∅) || existsb str_is_empty (elements principals)
  | _ => false
  end.

Definition matcher_values (m : ChannelRouteMatcher) : list (option rstr) :=
  [mt_channel m; mt_account m; mt_conversation m; mt_thread m; mt_sender m; command_prefix m].

(** The error is the text of [RouteError::Invalid]. *)
Definition validate_rule (rule : ChannelRouteRule) : result rstr unit :=
  reject_if (negb (sv_major (ru_version rule) =? sv_major CURRENT_SCHEMA_VERSION)%Z
             || (sv_minor CURRENT_SCHEMA_VERSION <? sv_minor (ru_version rule))%Z)
    (str "channel route schema version is unsupported") ;;
  reject_if (existsb str_is_empty (omap id (matcher_values (ru_matcher rule))))
    (str "channel route match values must be non-empty") ;;
  reject_if (existsb authority_list_invalid [gp_tools (ru_group_policy rule); gp_schedules (ru_group_policy rule)])
    (str "group authority lists must be non-empty").

Definition validate_channel_context (c : ChannelRouteContext) : result rstr unit :=
  reject_if (str_is_empty (cx_channel c) || str_is_empty (cx_account c) || str_is_empty (cx_conversation c)
             || str_is_empty (cx_sender c) || str_is_empty (cx_caller c)
             || match cx_thread c with Some thread => str_is_empty thread | None => false end)
    (str "channel, account, conversation, sender, caller, and present thread must be non-empty").

(** [pattern.as_ref().is_none_or(|value| value == x)]. *)
Definition none_or {A} `{EqDecision A} (pattern : option A) (x : A) : bool :=
  match pattern with Some value => bool_decide (value = x) | None => true end.

Definition rule_matches (rule : ChannelRouteRule) (c : ChannelRouteContext) : bool :=
  let m := ru_matcher rule in
  none_or (explicit_profile c) (ru_profile_id rule)
  && none_or (mt_channel m) (cx_channel c)
  && none_or (mt_account m) (cx_account c)
  && none_or (mt_conversation m) (cx_conversation c)
  && match mt_thread m with Some value => bool_decide (cx_thread c = Some value) | None => true end
  && none_or (mt_sender m) (cx_sender c)
  && match command_prefix m with Some prefix => starts_with prefix (cx_text c) | None => true end.

Definition enforce_group_policy {E} (policy : GroupRoutePolicy) (c : ChannelRouteContext) : result (RouteError E) unit :=
  if negb (cx_is_group c) then Ok tt
  else
    match gp_mention policy with
    | RequireMention => reject_if (negb (mentions_profile c)) RtMentionRequired
    | MentionIgnore => reject_if (bool_decide (cx_purpose c = Inbound)) RtGroupIgnored
    | MentionAlways => Ok tt
    end ;;
    reject_if (bool_decide (cx_purpose c = ProactivePost) && bool_decide (proactive_posts policy = PostsDenied))
      RtProactivePostDenied.

(** The separator U+001F. *)
Definition unit_separator : rstr := [31%Z].

Definition session_base (c : ChannelRouteContext) : rstr :=
  cx_channel c ++ unit_separator ++ cx_account c ++ unit_separator ++ cx_conversation c.

Definition session_key {E} (rule : ChannelRouteRule) (c : ChannelRouteContext) : result (RouteError E) rstr :=
  match ru_session_policy rule with
  | PerConversation => Ok (session_base c)
  | PerSender => Ok (session_base c ++ unit_separator ++ str "sender:" ++ cx_sender c)
  | PerThread =>
      ok_or ((fun thread => session_base c ++ unit_separator ++ str "thread:" ++ thread) <$> cx_thread c)
        (RtInvalid (str "per-thread routing requires a thread identity"))
  | ExplicitOnly =>
      ok_or ((fun session => str "explicit:" ++ as_str (as_entity_id session)) <$> explicit_session c)
        (RtInvalid (str "explicit-only routing requires an explicit session"))
  end.

Definition memory_partition (policy : GroupRoutePolicy) (c : ChannelRouteContext) : MemoryPartition :=
  if negb (cx_is_group c) then PartParticipant (cx_sender c)
  else match gp_memory policy with
       | MemoryShared => PartShared (cx_conversation c)
       | PrivatePerParticipant => PartParticipant (cx_sender c)
       | MemoryDisabled => PartDisabled
       end.

(** ** The table *)

Section table.
Context {S : Type} `{HR : Repository S, HP : Document RegisteredProfile, HD : Document StoredChannelRoute}.
(** The values of successive calls of [SessionId::new]. *)
Context (new_id : nat -> EntityId).

Abbreviation route_error := (RouteError repo_error).
Abbreviation route_m := (stateT (World S) route_error).

Definition encode_channel_route (route : StoredChannelRoute) (revision : Revision) (updated_at : UtcTimestamp)
  : result route_error VersionedRecord :=
  payload ← map_err RtSerialize (to_value route);
  Ok (MkVersionedRecord CURRENT_SCHEMA_VERSION (ru_id (sr_rule route)) revision updated_at payload).

(** A loaded route: the stored route, its revision and when it was written. *)
Definition decode_channel_route (r : VersionedRecord) : result route_error (Stored (StoredChannelRoute * UtcTimestamp)) :=
  reject_if (negb (sv_major (rec_version r) =? sv_major CURRENT_SCHEMA_VERSION)%Z
             || (sv_minor CURRENT_SCHEMA_VERSION <? sv_minor (rec_version r))%Z)
    RtCorruptVersion ;;
  stored ← map_err RtCorruptDocument (from_value (rec_payload r));
  reject_if (negb (bool_decide (ru_id (sr_rule stored) = rec_id r))
             || negb (bool_decide (ru_version (sr_rule stored) = rec_version r)))
    RtCorruptEnvelope ;;
  map_err RtCorruptRule (validate_rule (sr_rule stored)) ;;
  Ok (MkStored (stored, rec_updated_at r) (rec_revision r)).

Definition loaded_rule (x : Stored (StoredChannelRoute * UtcTimestamp)) : ChannelRouteRule := sr_rule (item x).1.

Definition load (id : EntityId) : route_m (option (Stored (StoredChannelRoute * UtcTimestamp))) :=
  load_item RoutingRules RtRepository decode_channel_route id.

Definition require_profile (id : ProfileId) : route_m RegisteredProfile :=
  found ← map_err_m RtProfile (get_profile id);
  lift (ok_or found (RtProfileUnavailable id)).

Definition register_route (rule : ChannelRouteRule) (now : UtcTimestamp) : route_m RegisteredChannelRoute :=
  lift (map_err RtInvalid (validate_rule rule)) ;;
  require_profile (ru_profile_id rule) ;;
  found ← load (ru_id rule);
  match found with
  | Some _ => throw (RtRouteAlreadyExists (ru_id rule))
  | None =>
      r ← lift (encode_channel_route (MkStoredRoute rule ∅) Revision_ZERO now);
      map_err_m RtRepository (call_put RoutingRules r PreMissing) ;;
      mret (MkRegisteredRoute rule Revision_ZERO now)
  end.

(** The sessions stay bound while the profile and the policy stay. *)
Definition updated_route (current : StoredChannelRoute) (rule : ChannelRouteRule) : StoredChannelRoute :=
  MkStoredRoute rule
    (if bool_decide (ru_profile_id (sr_rule current) = ru_profile_id rule)
        && bool_decide (ru_session_policy (sr_rule current) = ru_session_policy rule)
     then session_bindings current else ∅).

Definition update_route (rule : ChannelRouteRule) (expected : Revision) (now : UtcTimestamp) : route_m RegisteredChannelRoute :=
  lift (map_err RtInvalid (validate_rule rule)) ;;
  require_profile (ru_profile_id rule) ;;
  found ← load (ru_id rule);
  current ← lift (ok_or found (RtRouteNotFound (ru_id rule)));
  lift (reject_if (negb (bool_decide (storage_revision current = expected))) RtStaleRoute) ;;
  revision ← lift (ok_or (checked_next expected) RtStaleRoute);
  r ← lift (encode_channel_route (updated_route (item current).1 rule) revision now);
  map_err_m RtRepository (call_put RoutingRules r (PreExact expected)) ;;
  mret (MkRegisteredRoute rule revision now).

Definition route_order (l r : RegisteredChannelRoute) : comparison := rcmp (ru_id (rr_rule l)) (ru_id (rr_rule r)).

Definition list_routes : route_m (list RegisteredChannelRoute) :=
  routes ← load_items RoutingRules RtRepository decode_channel_route;
  mret (sort_by route_order
    ((fun x => MkRegisteredRoute (loaded_rule x) (storage_revision x) (item x).2) <$> routes)).

Definition delete_route (id : EntityId) (expected : Revision) : route_m unit :=
  found ← load id;
  current ← lift (ok_or found (RtRouteNotFound id));
  lift (reject_if (negb (bool_decide (storage_revision current = expected))) RtStaleRoute) ;;
  map_err_m RtRepository (call_delete RoutingRules id (PreExact expected)) ;;
  mret tt.

(** The one matching rule of the highest priority. *)
Definition select_route (c : ChannelRouteContext) (routes : list (Stored (StoredChannelRoute * UtcTimestamp)))
  : result route_error (Stored (StoredChannelRoute * UtcTimestamp)) :=
  let matching := List.filter (fun x => rule_matches (loaded_rule x) c) routes in
  priority ← ok_or (max_of ((fun x => ru_priority (loaded_rule x)) <$> matching)) RtMissing;
  let matching := List.filter (fun x => (ru_priority (loaded_rule x) =? priority)%Z) matching in
  reject_if (negb (length matching =? 1)%nat) RtAmbiguous ;;
  ok_or (last matching) RtMissing.

Definition select (c : ChannelRouteContext) : route_m (Stored (StoredChannelRoute * UtcTimestamp)) :=
  routes ← load_items RoutingRules RtRepository decode_channel_route;
  lift (select_route c routes).

Definition bind_session (selected : Stored (StoredChannelRoute * UtcTimestamp)) (key : rstr) (now : UtcTimestamp)
  : route_m SessionId :=
  id ← draw_id new_id;
  let session : SessionId := MkTypedId id in
  let stored := (item selected).1 in
  let stored := MkStoredRoute (sr_rule stored) (<[key := session]> (session_bindings stored)) in
  revision ← lift (ok_or (checked_next (storage_revision selected)) RtStaleRoute);
  r ← lift (encode_channel_route stored revision now);
  map_err_m RtRepository (call_put RoutingRules r (PreExact (storage_revision selected))) ;;
  mret session.

(** The session of a context under the selected rule. *)
Definition route_session (selected : Stored (StoredChannelRoute * UtcTimestamp)) (c : ChannelRouteContext) (key : rstr)
    (now : UtcTimestamp) : route_m SessionId :=
  if bool_decide (ru_session_policy (loaded_rule selected) = ExplicitOnly)
  then lift (ok_or (explicit_session c) (RtInvalid (str "explicit-only routing requires an explicit session")))
  else match session_bindings (item selected).1 !! key with
       | Some session => mret session
       | None => bind_session selected key now
       end.

Definition resolve (c : ChannelRouteContext) (now : UtcTimestamp) : route_m ResolvedChannelRoute :=
  lift (map_err RtInvalid (validate_channel_context c)) ;;
  selected ← select c;
  let rule := loaded_rule selected in
  lift (reject_if (negb (ru_enabled rule)) (RtRouteDisabled (ru_id rule))) ;;
  found ← map_err_m RtProfile (get_profile (ru_profile_id rule));
  profile ← lift (ok_or found (RtProfileUnavailable (ru_profile_id rule)));
  lift (reject_if (negb (rg_enabled profile)) (RtDisabled (rg_id profile))) ;;
  lift (reject_if (negb (bool_decide (cx_caller c ∈ authorized_callers profile))) (RtUnauthorized (rg_id profile))) ;;
  lift (reject_if (negb (existsb (fun channel => bool_decide (channel = cx_channel c)) (ap_channels (rg_profile profile))))
          (RtChannelDisabled (rg_id profile) (cx_channel c))) ;;
  lift (enforce_group_policy (ru_group_policy rule) c) ;;
  key ← lift (session_key rule c);
  session ← route_session selected c key now;
  mret (MkResolvedRoute (ru_id rule) profile session key (memory_partition (ru_group_policy rule) c)
    (negb (cx_is_group c) || bool_decide (participant_retention (ru_group_policy rule) = Retain))
    (ru_group_policy rule) (cx_is_group c)).
End table.
