(* ===== verification/RouteProperties.v ===== *)
(** * Correctness of channel routes

    Which sessions conversations get, what a resolved route rests on, and runs of
    arbitrary operations of several route tables and profile registries over one
    repository. *)

From Stdlib Require Import ZArith Lia String.
From stdpp Require Import base decidable countable relations gmap sorting option list.
From S2P Require Import Prelude RustStd RustText AgentTypes Json StateStoreCore ItemStore Configuration Profiles ProfileProperties.
From S2P Require Import Routing.

(** ** Session keys *)

Lemma app_separator (a b c d : rstr) (s : Z) : s ∉ a -> s ∉ c -> a ++ s :: b = c ++ s :: d -> a = c /\ b = d.
Proof.
  intros Ha Hc Heq. pose proof (split_once_app s a b Ha) as H1. rewrite Heq, (split_once_app s c d Hc) in H1.
  by injection H1 as -> ->.
Qed.

Lemma ok_or_fmap {E A B} (f : A -> B) (o : option A) (e : E) y :
  ok_or (f <$> o) e = Ok y -> exists x, o = Some x /\ f x = y.
Proof. destruct o as [x|]; simpl; [|done]. intros [= <-]. by exists x. Qed.

(** What a session is for under a policy. *)
Definition conversation_of (policy : ChannelSessionPolicy) (c : ChannelRouteContext) :=
  match policy with
  | PerConversation => (Some (cx_channel c, cx_account c, cx_conversation c), None, None)
  | PerSender => (Some (cx_channel c, cx_account c, cx_conversation c), Some (cx_sender c), None)
  | PerThread => (Some (cx_channel c, cx_account c, cx_conversation c), cx_thread c, None)
  | ExplicitOnly => (None, None, explicit_session c)
  end.

(** No separator in the names. *)
Definition separated (c : ChannelRouteContext) : Prop :=
  31%Z ∉ cx_channel c /\ 31%Z ∉ cx_account c /\ 31%Z ∉ cx_conversation c.

Lemma session_base_inj c c' rest rest' :
  separated c -> separated c' -> session_base c ++ unit_separator ++ rest = session_base c' ++ unit_separator ++ rest' ->
  cx_channel c = cx_channel c' /\ cx_account c = cx_account c' /\ cx_conversation c = cx_conversation c' /\ rest = rest'.
Proof.
  intros (H1 & H2 & H3) (K1 & K2 & K3). unfold session_base, unit_separator. rewrite <- !(assoc_L (++)). cbn [app].
  intros [Hc He]%app_separator; [|done|done]. apply app_separator in He as [Ha He]; [|done|done].
  by apply app_separator in He as [Hv Hr].
Qed.

(** Conversations do not share sessions: under one rule two messages have
    the same session key exactly when they belong to the same conversation (and
    the same sender or thread, or name the same session, as the policy says), as
    long as the names of channels, accounts and conversations do not contain the
    separator U+001F. *)
Theorem session_keys_isolate (E : Type) rule c c' key key' :
  separated c -> separated c' ->
  session_key (E := E) rule c = Ok key -> session_key (E := E) rule c' = Ok key' ->
  key = key' <-> conversation_of (ru_session_policy rule) c = conversation_of (ru_session_policy rule) c'.
Proof.
  intros Hs Hs'. unfold session_key. destruct (ru_session_policy rule); simpl.
  - intros [= <-] [= <-]. split; [|intros [= H1 H2 H3]; unfold session_base; congruence].
    intros Heq. destruct (session_base_inj c c' [] [] Hs Hs') as (-> & -> & -> & _); [|done]. by rewrite Heq.
  - intros [= <-] [= <-]. split; [|intros [= H1 H2 H3 H4]; unfold session_base; congruence].
    intros Heq. destruct (session_base_inj c c' _ _ Hs Hs' Heq) as (-> & -> & -> & Hr). injection Hr as ->. done.
  - intros (k & Hk & <-)%ok_or_fmap (k' & Hk' & <-)%ok_or_fmap. rewrite Hk, Hk'.
    split; [|intros [= H1 H2 H3 H4]; unfold session_base; congruence].
    intros Heq. destruct (session_base_inj c c' _ _ Hs Hs' Heq) as (-> & -> & -> & Hr). injection Hr as ->. done.
  - intros (k & Hk & <-)%ok_or_fmap (k' & Hk' & <-)%ok_or_fmap. rewrite Hk, Hk'. split; [|by intros [= ->]].
    intros Heq. destruct k as [[k]], k' as [[k']]. injection Heq as ->. done.
Qed.

(** ** Selection *)

Abbreviation LoadedRoute := (Stored (StoredChannelRoute * UtcTimestamp)).

(** [x] is the one matching rule of the highest priority. *)
Definition selects (c : ChannelRouteContext) (held : LoadedRoute -> Prop) (x : LoadedRoute) : Prop :=
  held x /\ rule_matches (loaded_rule x) c = true
  /\ forall y, held y -> rule_matches (loaded_rule y) c = true ->
       (ru_priority (loaded_rule y) <= ru_priority (loaded_rule x))%Z
       /\ (ru_priority (loaded_rule y) = ru_priority (loaded_rule x) -> y = x).

Lemma select_route_Ok {S : Type} `{HR : Repository S} c routes x :
  select_route c routes = Ok x -> selects c (fun y => y ∈ routes) x.
Proof.
  unfold select_route. set (matching := List.filter (fun y => rule_matches (loaded_rule y) c) routes).
  intros Hs. apply bind_Ok in Hs as (priority & Hp%ok_or_Ok & Hs). apply reject_if_bind in Hs as [Hlen Hs].
  apply ok_or_Ok in Hs. apply negb_false_iff, Nat.eqb_eq in Hlen.
  assert (forall y, y ∈ matching <-> y ∈ routes /\ rule_matches (loaded_rule y) c = true) as Hin.
  { intros y. unfold matching. by rewrite list_elem_of_In, filter_In, <- list_elem_of_In. }
  set (best := List.filter (fun y => (ru_priority (loaded_rule y) =? priority)%Z) matching) in *.
  assert (forall y, y ∈ best <-> y ∈ matching /\ ru_priority (loaded_rule y) = priority) as Hbest.
  { intros y. unfold best. by rewrite list_elem_of_In, filter_In, <- list_elem_of_In, Z.eqb_eq. }
  destruct best as [|z [|z' rest]] eqn:Eb; [done| |done]. injection Hs as ->.
  destruct (proj1 (Hbest x)) as [Hx Hpx]; [by left|]. apply Hin in Hx as [Hx Hm]. split; [done|]. split; [done|].
  apply max_of_Some in Hp as [_ Hmax]. intros y Hy Hmy. assert (y ∈ matching) as Hym by by apply Hin.
  split; [|intros Heq; assert (y ∈ [x]) as ->%list_elem_of_singleton; [|done]; apply Hbest; split; [done|congruence]].
  rewrite Hpx. apply Hmax, list_elem_of_fmap. by exists y.
Qed.

(** ** The life of a route *)

Section steps.
(** The routes that keep a profile and a policy. *)
Context (pinned : EntityId -> option (ProfileId * ChannelSessionPolicy)).

Definition rule_pinned (rule : ChannelRouteRule) : Prop :=
  forall profile policy, pinned (ru_id rule) = Some (profile, policy) ->
    ru_profile_id rule = profile /\ ru_session_policy rule = policy.

Definition route_key (x : StoredChannelRoute * UtcTimestamp) : EntityId := ru_id (sr_rule x.1).

Definition route_init (x : StoredChannelRoute * UtcTimestamp) : Prop :=
  session_bindings x.1 = ∅ /\ rule_pinned (sr_rule x.1).

Inductive route_step : StoredChannelRoute * UtcTimestamp -> StoredChannelRoute * UtcTimestamp -> Prop :=
| route_bind s t key session now :
    session_bindings s !! key = None -> ru_session_policy (sr_rule s) <> ExplicitOnly ->
    route_step (s, t) (MkStoredRoute (sr_rule s) (<[key := session]> (session_bindings s)), now)
| route_change s t rule now :
    ru_id rule = ru_id (sr_rule s) -> rule_pinned rule -> route_step (s, t) (updated_route s rule, now).

(** Only a policy that binds sessions has bound any. *)
Definition route_ok (x : StoredChannelRoute * UtcTimestamp) : Prop :=
  rule_pinned (sr_rule x.1) /\ (session_bindings x.1 <> ∅ -> ru_session_policy (sr_rule x.1) <> ExplicitOnly).

Lemma route_init_ok x : route_init x -> route_ok x.
Proof. intros [Hb Hp]. split; [done|]. by rewrite Hb. Qed.

Lemma route_step_key x y : route_step x y -> route_key y = route_key x.
Proof. by destruct 1. Qed.

Lemma route_step_ok x y : route_ok x -> route_step x y -> route_ok y.
Proof.
  intros [Hp Hb] Hs. destruct Hs as [s t key session now Hnone Hpol|s t rule now Hid Hpin]; [by split|].
  split; [done|]. simpl. destruct (bool_decide _ && bool_decide _) eqn:Ek; [|done].
  apply andb_true_iff in Ek as [_ Ek%bool_decide_eq_true]. rewrite <- Ek. exact Hb.
Qed.

(** A pinned route keeps its sessions. *)
Lemma route_step_bindings x y :
  route_ok x -> is_Some (pinned (route_key x)) -> route_step x y -> session_bindings x.1 ⊆ session_bindings y.1.
Proof.
  intros [Hp _] [[profile policy] Hpin] Hs. destruct Hs as [s t key session now Hnone _|s t rule now Hid Hrule]; simpl.
  - by apply insert_subseteq.
  - unfold route_key in Hpin. simpl in *. destruct (Hp _ _ Hpin) as [-> ->]. rewrite <- Hid in Hpin.
    destruct (Hrule _ _ Hpin) as [-> ->]. by rewrite !bool_decide_eq_true_2.
Qed.

Lemma route_steps_bindings x y :
  route_ok x -> is_Some (pinned (route_key x)) -> rtc route_step x y ->
  session_bindings x.1 ⊆ session_bindings y.1 /\ route_key y = route_key x.
Proof.
  intros Hok Hpin Hs. induction Hs as [x|x z y Hxz _ IH]; [done|]. pose proof (route_step_key _ _ Hxz) as Hk.
  destruct IH as [Hb Hk']; [by eapply route_step_ok|by rewrite Hk|]. split; [|congruence].
  etrans; [by apply route_step_bindings|done].
Qed.
End steps.

(** ** The contract *)

Section contract.
Context {S : Type} `{HU : Ulid, HR : Repository S, HL : !RepositoryLaws S}.
Context `{HP : Document RegisteredProfile, HD : Document StoredChannelRoute}.
Context (pinned : EntityId -> option (ProfileId * ChannelSessionPolicy)) (retired : EntityId -> Prop).

Abbreviation fholds := (holds Profiles decode_profile profile_key profile_init profile_step).
Abbreviation rholds := (holds RoutingRules decode_channel_route route_key (route_init pinned) (route_step pinned)).

Definition routes : Machine (StoredChannelRoute * UtcTimestamp) :=
  item_machine RoutingRules decode_channel_route (route_init pinned) (route_step pinned).

Definition table_follows (recs recs' : Records) : Prop :=
  lives profiles retired profile_ended recs recs' /\ lives routes retired (fun _ => True) recs recs'.

#[export] Instance table_follows_preorder : PreOrder table_follows.
Proof.
  split; [by intros recs; split|]. intros a b c [A1 A2] [B1 B2]. split; by etrans.
Qed.

Definition shared_routes : Contract := MkContract table_follows table_follows _ _ (fun _ _ H => H).

(** The derived codec of a stored route. *)
Definition route_codec : Prop :=
  document_lawful StoredChannelRoute
  /\ forall v (x : StoredChannelRoute), from_value v = Ok x -> (0 <= sv_minor (ru_version (sr_rule x)))%Z.

Lemma decode_route_Ok r x :
  decode_channel_route r = Ok x ->
  from_value (rec_payload r) = Ok (item x).1 /\ route_key (item x) = rec_id r /\ ru_version (loaded_rule x) = rec_version r
  /\ validate_rule (loaded_rule x) = Ok tt /\ storage_revision x = rec_revision r.
Proof.
  unfold decode_channel_route. intros [Hv H]%reject_if_bind. apply bind_Ok in H as (s & Hs & H).
  apply reject_if_bind in H as [Hi H]. rewrite orb_false_iff, !negb_false_iff, !bool_decide_eq_true in Hi. destruct Hi as [Hi Hr].
  apply bind_Ok in H as ([] & Hu & H). injection H as <-. unfold loaded_rule, route_key. simpl.
  split; [by destruct (from_value _); simpl in Hs; congruence|]. split_and!; try done.
  by destruct (validate_rule _) as [[]|]; simpl in Hu.
Qed.

Lemma decode_route_faithful : decode_faithful decode_channel_route route_key.
Proof. intros r x (_ & Hi & _ & _ & Hs)%decode_route_Ok. done. Qed.

(** A valid rule has the current version. *)
Lemma validate_rule_version rule :
  validate_rule rule = Ok tt -> (0 <= sv_minor (ru_version rule))%Z -> ru_version rule = CURRENT_SCHEMA_VERSION.
Proof.
  unfold validate_rule. intros [Hv _]%reject_if_bind Hm. rewrite orb_false_iff, negb_false_iff, Z.eqb_eq, Z.ltb_ge in Hv.
  destruct (ru_version rule) as [major minor]. simpl in *. destruct Hv as [-> Hle]. f_equal. lia.
Qed.

Lemma encode_route_Ok s revision now r :
  route_codec -> encode_channel_route s revision now = Ok r -> validate_rule (sr_rule s) = Ok tt ->
  (0 <= sv_minor (ru_version (sr_rule s)))%Z -> id_canonical (ru_id (sr_rule s)) ->
  is_u64 (revision_get revision) -> is_i64 (unix_millis now) ->
  wf_record r /\ rec_id r = ru_id (sr_rule s) /\ rec_revision r = revision
  /\ decode_channel_route (canonical_record r) = Ok (MkStored (s, now) revision).
Proof.
  intros [Hlaw _] He Hval Hm Hid Hrev Hnow. unfold encode_channel_route in He. apply bind_Ok in He as (v & Hv & He).
  injection He as <-. assert (to_value s = Ok v) as Ht by (destruct (to_value s); simpl in Hv; congruence).
  destruct (Hlaw _ _ Ht) as (Hd & Hread & Hback).
  split; [|split; [done|split; [done|]]].
  - split; [done|]. do 2 (split; [simpl; unfold u16_max; lia|]). done.
  - unfold decode_channel_route, canonical_record. cbn [rec_version rec_payload rec_id rec_revision rec_updated_at].
    rewrite Hback. cbn [map_err mbind result_bind reject_if]. rewrite (validate_rule_version _ Hval Hm), Hval.
    by rewrite !bool_decide_eq_true_2.
Qed.

Lemma loaded_route_valid recs x :
  route_codec -> rholds recs x -> validate_rule (loaded_rule x) = Ok tt /\ (0 <= sv_minor (ru_version (loaded_rule x)))%Z.
Proof.
  intros [_ Hc] (r & _ & (Hf & _ & _ & Hv & _)%decode_route_Ok)%holds_lookup. split; [done|]. exact (Hc _ _ Hf).
Qed.

(** *** Writes *)

Lemma profile_write_keeps recs recs' :
  lives profiles retired profile_ended recs recs' -> untouched RoutingRules recs recs' -> table_follows recs recs'.
Proof. intros Hp Hu. split; [done|]. by apply untouched_lives. Qed.

Lemma route_write_keeps recs recs' :
  lives routes retired (fun _ => True) recs recs' -> untouched Profiles recs recs' -> table_follows recs recs'.
Proof. intros Hp Hu. split; [|done]. by apply untouched_lives. Qed.

Lemma insert_leaves recs c c' id r : c <> c' -> untouched c recs (<[(c', id) := r]> recs).
Proof. intros Hc i. rewrite lookup_insert_ne; [done|]. congruence. Qed.

Lemma delete_leaves recs c c' id : c <> c' -> untouched c recs (delete (c', id) recs).
Proof. intros Hc i. rewrite lookup_delete_ne; [done|]. congruence. Qed.

Lemma profile_create_keeps recs r s :
  recs !! (Profiles, rec_id r) = None -> decode_profile (canonical_record r) = Ok s ->
  rec_id r = profile_key (item s) -> profile_init (item s) -> ~ retired (rec_id r) ->
  table_follows recs (<[(Profiles, rec_id r) := canonical_record r]> recs).
Proof.
  intros Hnone Hdec _ Hinit Hret. apply profile_write_keeps; [|by apply insert_leaves].
  apply (lives_insert profiles); [|done]. simpl. rewrite Hnone. eapply (key_new profiles); simpl; [by rewrite Hdec|done].
Qed.

Lemma profile_update_keeps recs x r s :
  fholds recs x -> decode_profile (canonical_record r) = Ok s -> profile_step (item x) (item s) ->
  revision_get (rec_revision r) = (revision_get (storage_revision x) + 1)%Z ->
  table_follows recs (<[(Profiles, profile_key (item x)) := canonical_record r]> recs).
Proof.
  intros (q & Hq & Hx)%holds_lookup Hdec Hstep Hrev. apply profile_write_keeps; [|by apply insert_leaves].
  destruct (decode_profile_faithful q x Hx) as [_ Hqx].
  apply (lives_insert profiles); simpl; rewrite Hq; [|done].
  eapply (key_update profiles); simpl; [by rewrite Hx|by rewrite Hdec|done|]. by rewrite Hqx.
Qed.

Lemma profile_delete_keeps recs x :
  fholds recs x -> profile_ended (item x) -> retired (profile_key (item x)) ->
  table_follows recs (delete (Profiles, profile_key (item x)) recs).
Proof.
  intros (q & Hq & Hx)%holds_lookup He Hret. apply profile_write_keeps; [|by apply delete_leaves].
  eapply (lives_delete profiles); [exact Hq|simpl; by rewrite Hx|done|done].
Qed.

Lemma route_create_keeps recs r s :
  recs !! (RoutingRules, rec_id r) = None -> decode_channel_route (canonical_record r) = Ok s ->
  route_init pinned (item s) -> ~ retired (rec_id r) ->
  table_follows recs (<[(RoutingRules, rec_id r) := canonical_record r]> recs).
Proof.
  intros Hnone Hdec Hinit Hret. apply route_write_keeps; [|by apply insert_leaves].
  apply (lives_insert routes); [|done]. simpl. rewrite Hnone. eapply (key_new routes); simpl; [by rewrite Hdec|done].
Qed.

Lemma route_update_keeps recs x r s :
  rholds recs x -> decode_channel_route (canonical_record r) = Ok s -> route_step pinned (item x) (item s) ->
  revision_get (rec_revision r) = (revision_get (storage_revision x) + 1)%Z ->
  table_follows recs (<[(RoutingRules, route_key (item x)) := canonical_record r]> recs).
Proof.
  intros (q & Hq & Hx)%holds_lookup Hdec Hstep Hrev. apply route_write_keeps; [|by apply insert_leaves].
  destruct (decode_route_faithful q x Hx) as [_ Hqx].
  apply (lives_insert routes); simpl; rewrite Hq; [|done].
  eapply (key_update routes); simpl; [by rewrite Hx|by rewrite Hdec|done|]. by rewrite Hqx.
Qed.

Lemma route_delete_keeps recs x :
  rholds recs x -> retired (route_key (item x)) -> table_follows recs (delete (RoutingRules, route_key (item x)) recs).
Proof.
  intros (q & Hq & Hx)%holds_lookup Hret. apply route_write_keeps; [|by apply delete_leaves].
  eapply (lives_delete routes); [exact Hq|simpl; by rewrite Hx|done|done].
Qed.

Lemma routes_named : revisions_name shared_routes RoutingRules.
Proof. intros recs recs' id r r' [_ HT]. by apply (lives_same_revision routes retired (fun _ => True)). Qed.

(** ** The operations *)

Context (new_id : nat -> EntityId) (Hcodec : route_codec).

Abbreviation G := shared_routes.

Lemma profiles_live recs recs' : guarantee G recs recs' -> lives profiles retired profile_ended recs recs'.
Proof. by intros [? _]. Qed.

Lemma spec_load_route P id :
  stable G P ->
  spec G P (load id) (fun found recs => P recs
    /\ match found with
       | Some x => rholds recs x /\ wf_stored route_key x /\ route_key (item x) = id
       | None => recs !! (RoutingRules, id) = None
       end).
Proof.
  intros Hst. eapply spec_weaken;
    [apply (spec_load_item G RoutingRules decode_channel_route route_key (route_init pinned) (route_step pinned)), decode_route_faithful|done|].
  intros found recs (Hf & Hl & Hx). split; [by apply (later_stable G P)|]. destruct found as [x|]; [|done].
  destruct (Hf x eq_refl) as [Hid Hwf]. done.
Qed.

Lemma spec_require_profile P id :
  stable G P ->
  spec G P (require_profile id) (fun p recs => P recs /\ exists y, fholds recs y /\ p = item y /\ rg_id p = id).
Proof.
  intros Hst. unfold require_profile. eapply spec_bind; [apply spec_map_err, (spec_get_profile G P id Hst)|].
  intros found. cbn beta. apply spec_lift. intros p recs ->%ok_or_Ok [HP0 (y & Hy & _ & Hp & Hid & _)].
  split; [done|]. by exists y.
Qed.

Lemma spec_select_route P c :
  stable G P -> spec G P (select c) (fun x recs => P recs /\ selects c (rholds recs) x /\ wf_stored route_key x).
Proof.
  intros Hst. unfold select.
  eapply spec_bind; [apply (spec_load_items G RoutingRules decode_channel_route route_key (route_init pinned) (route_step pinned)),
    decode_route_faithful|].
  intros xs. cbn beta. apply spec_lift. intros x recs (Hx & Hm & Hmax)%select_route_Ok (Hwf & Hl & [_ Hin]).
  split; [by apply (later_stable G P)|]. split; [|by rewrite list.Forall_forall in Hwf; apply Hwf].
  split; [by apply Hin|]. split; [done|]. intros y Hy. apply Hmax. by apply Hin.
Qed.

(** The session that a key of a route is bound to. *)
Definition bound_to (id : EntityId) (key : rstr) (session : SessionId) (recs : Records) : Prop :=
  exists x, rholds recs x /\ route_key (item x) = id /\ session_bindings (item x).1 !! key = Some session.

Lemma spec_bind_session P x key now :
  stable G P -> (forall recs, P recs -> seen G RoutingRules decode_channel_route route_key (route_init pinned) (route_step pinned) x recs) ->
  wf_stored route_key x -> is_i64 (unix_millis now) ->
  session_bindings (item x).1 !! key = None -> ru_session_policy (loaded_rule x) <> ExplicitOnly ->
  validate_rule (loaded_rule x) = Ok tt /\ (0 <= sv_minor (ru_version (loaded_rule x)))%Z ->
  spec G P (bind_session new_id x key now) (fun session recs' => exists recs, P recs /\ table_follows recs recs'
    /\ bound_to (route_key (item x)) key session recs').
Proof.
  intros Hst Hseen [Hcan Hu] Hnow Hnone Hpol [Hval Hminor]. unfold bind_session.
  eapply spec_bind; [apply spec_draw|]. intros id. cbn beta zeta. apply spec_pure. intros _.
  apply spec_lift_bind. intros next [Hn Hle]%ok_or_Ok%checked_next_Some. apply spec_lift_bind. intros r Hr.
  set (session := MkTypedId id : SessionId) in *. set (s := MkStoredRoute _ _) in Hr.
  destruct (encode_route_Ok s next now r Hcodec Hr Hval Hminor Hcan) as (Hwf & Hrid & Hrr & Hdec); [|done|].
  { unfold is_u64 in *. rewrite Hn. lia. }
  assert (route_step pinned (item x) (s, now)) as Hstep.
  { destruct x as [[stored t] rev]. by apply route_bind. }
  eapply spec_bind.
  { apply (spec_update_named G RoutingRules decode_channel_route route_key (route_init pinned) (route_step pinned) RtRepository
      decode_route_faithful P x r routes_named); [done|done|done|done|].
    intros recs _ Hh. eapply route_update_keeps; [done|exact Hdec|done|]. by rewrite Hrr, Hn. }
  intros receipt. cbn beta. apply spec_ret. intros recs' (recs & Hl & Hh & ->).
  exists recs. split; [by apply (later_stable G P)|].
  split; [eapply route_update_keeps; [done|exact Hdec|done|]; by rewrite Hrr, Hn|].
  exists (MkStored (s, now) next). split; [|split; [done|simpl; by rewrite lookup_insert_eq]].
  by apply (holds_insert_eq RoutingRules decode_channel_route route_key _ _ recs _ (MkStored (s, now) next)).
Qed.

(** What a resolved route rests on: at one moment the selected rule, later the
    profile, and in the end the session. *)
Definition resolves (c : ChannelRouteContext) (recs1 recs2 recs' : Records) (x : LoadedRoute) (y : Stored RegisteredProfile)
    (route : ResolvedChannelRoute) : Prop :=
  let rule := loaded_rule x in
  table_follows recs1 recs2 /\ table_follows recs2 recs'
  /\ validate_channel_context c = Ok tt /\ selects c (rholds recs1) x /\ ru_enabled rule = true
  /\ fholds recs2 y /\ item y = rs_profile route /\ rg_id (item y) = ru_profile_id rule
  /\ rg_enabled (item y) = true /\ cx_caller c ∈ authorized_callers (item y)
  /\ cx_channel c ∈ ap_channels (rg_profile (item y))
  /\ enforce_group_policy (E := repo_error) (ru_group_policy rule) c = Ok tt
  /\ session_key (E := repo_error) rule c = Ok (rs_session_key route)
  /\ route_id route = ru_id rule /\ rs_group_policy route = ru_group_policy rule /\ rs_is_group route = cx_is_group c
  /\ rs_memory_partition route = memory_partition (ru_group_policy rule) c
  /\ (if bool_decide (ru_session_policy rule = ExplicitOnly) then explicit_session c = Some (rs_session_id route)
      else match session_bindings (item x).1 !! rs_session_key route with
           | Some session => rs_session_id route = session
           | None => bound_to (ru_id rule) (rs_session_key route) (rs_session_id route) recs'
           end).

Lemma spec_route_session P x c key now :
  stable G P -> (forall recs, P recs -> exists recs1, table_follows recs1 recs /\ rholds recs1 x) ->
  wf_stored route_key x -> is_i64 (unix_millis now) ->
  spec G P (route_session new_id x c key now) (fun session recs' => exists recs, P recs /\ table_follows recs recs'
    /\ (if bool_decide (ru_session_policy (loaded_rule x) = ExplicitOnly) then explicit_session c = Some session
        else match session_bindings (item x).1 !! key with
             | Some s => session = s
             | None => bound_to (route_key (item x)) key session recs'
             end)).
Proof.
  intros Hst Hheld Hwf Hnow. unfold route_session. case_bool_decide as Hpol.
  { apply spec_lift. intros session recs Hs%ok_or_Ok HP0. exists recs. split; [done|]. split; [reflexivity|done]. }
  destruct (session_bindings (item x).1 !! key) as [s|] eqn:Es.
  { apply spec_ret. intros recs HP0. exists recs. split; [done|]. split; [reflexivity|done]. }
  apply spec_pre. intros recs HP0. destruct (Hheld recs HP0) as (recs1 & HT & Hx).
  eapply spec_given; [|apply (spec_bind_session P x key now Hst); try done].
  - by intros recs' <-.
  - by eapply loaded_route_valid.
Qed.

(** A fact that was true of earlier records. *)
Lemma since_stable (X : Records -> Prop) : stable G (fun recs => exists recs0, X recs0 /\ table_follows recs0 recs).
Proof. intros recs recs' (recs0 & HX & Hf) HT. exists recs0. split; [done|]. by etrans. Qed.

Lemma spec_resolve P c now :
  stable G P -> is_i64 (unix_millis now) ->
  spec G P (resolve new_id c now) (fun route recs' => exists recs1 recs2 x y, P recs1 /\ resolves c recs1 recs2 recs' x y route).
Proof.
  intros Hst Hnow. unfold resolve. apply spec_lift_bind. intros [] Hctx.
  assert (validate_channel_context c = Ok tt) as Hvc by (by destruct (validate_channel_context c) as [[]|]).
  eapply spec_bind; [by apply spec_select_route|]. intros x. cbn beta zeta.
  set (P1 := fun recs => exists recs1, (P recs1 /\ selects c (rholds recs1) x) /\ table_follows recs1 recs).
  eapply (spec_given G (fun recs => wf_stored route_key x /\ P1 recs)).
  { intros recs (HP0 & Hsel & Hwf). split; [done|]. exists recs. split; [done|reflexivity]. }
  apply spec_pure. intros Hwf. apply spec_lift_bind. intros [] Hen%reject_if_ok%negb_false_iff.
  eapply spec_bind; [apply spec_map_err, (spec_get_profile G P1 (ru_profile_id (loaded_rule x))), since_stable|].
  intros found. cbn beta. apply spec_lift_bind. intros profile ->%ok_or_Ok.
  apply spec_pre. intros recs2 (HP1 & y & Hy & _ & Hpy & Hpid & _). subst profile.
  apply spec_lift_bind. intros [] Hpe%reject_if_ok%negb_false_iff.
  apply spec_lift_bind. intros [] Hcaller%reject_if_ok%negb_false_iff%bool_decide_eq_true.
  apply spec_lift_bind. intros [] Hch%reject_if_ok%negb_false_iff.
  apply spec_lift_bind. intros [] Hgroup. apply spec_lift_bind. intros key Hkey.
  destruct HP1 as (recs1 & [HP1 Hsel] & Hf1).
  set (P2 := fun recs => exists recs0, recs0 = recs2 /\ table_follows recs0 recs).
  eapply spec_given; [|eapply spec_bind; [apply (spec_route_session P2 x c key now); [apply since_stable| |done|done]|]].
  - intros recs <-. exists recs2. split; [done|reflexivity].
  - intros recs (recs0 & -> & Hf). exists recs1. split; [by etrans|apply Hsel].
  - intros session. cbn beta. apply spec_ret. intros recs' (recs & (recs0 & -> & Hf2) & Hf3 & Hsession).
    exists recs1, recs2, x, y. split; [done|]. unfold resolves. split_and!; try done; [by etrans|].
    apply existsb_exists in Hch as (ch & Hin & ->%bool_decide_eq_true). by apply list_elem_of_In.
Qed.

Lemma spec_register_route P rule now :
  stable G P -> is_i64 (unix_millis now) -> id_canonical (ru_id rule) -> (0 <= sv_minor (ru_version rule))%Z ->
  rule_pinned pinned rule -> ~ retired (ru_id rule) ->
  spec G P (register_route rule now) (fun route recs' => exists recs s, P recs /\ recs !! (RoutingRules, ru_id rule) = None
    /\ rholds recs' s /\ loaded_rule s = rule /\ session_bindings (item s).1 = ∅ /\ route = MkRegisteredRoute rule Revision_ZERO now).
Proof.
  intros Hst Hnow Hid Hminor Hpin Hret. unfold register_route. apply spec_lift_bind. intros [] Hv.
  assert (validate_rule rule = Ok tt) as Hval by (by destruct (validate_rule rule) as [[]|]).
  eapply spec_bind; [by apply spec_require_profile|]. intros p. cbn beta.
  eapply spec_bind; [eapply spec_given; [|by apply (spec_load_route P)]; by intros recs [? _]|].
  intros [x|]; cbn beta iota; [apply spec_throw|]. apply spec_lift_bind. intros r Hr.
  destruct (encode_route_Ok _ _ _ _ Hcodec Hr Hval Hminor Hid) as (Hwf & Hrid & Hrr & Hdec); [by vm_compute|done|].
  eapply spec_bind; [apply (spec_create G RoutingRules RtRepository); [done|done|]|].
  { intros recs _ Hnone. eapply (route_create_keeps recs r _ Hnone Hdec); [by split|]. by rewrite Hrid. }
  intros receipt. cbn beta. apply spec_ret. intros recs' (recs & (recs0 & [HP0 _] & HR0) & Hnone & ->).
  exists recs, (MkStored (MkStoredRoute rule ∅, now) Revision_ZERO). split; [eapply Hst; [exact HP0|exact HR0]|].
  rewrite Hrid in *. split; [done|]. split; [|done].
  by apply (holds_insert_eq RoutingRules decode_channel_route route_key _ _ recs _ (MkStored (MkStoredRoute rule ∅, now) Revision_ZERO)).
Qed.

Lemma spec_update_route P rule expected now :
  stable G P -> is_i64 (unix_millis now) -> (0 <= sv_minor (ru_version rule))%Z -> rule_pinned pinned rule ->
  spec G P (update_route rule expected now) (fun route recs' => exists recs x s, P recs
    /\ replaces RoutingRules decode_channel_route route_key (route_init pinned) (route_step pinned) recs recs' x s
    /\ route_key (item x) = ru_id rule /\ storage_revision x = expected /\ item s = (updated_route (item x).1 rule, now)).
Proof.
  intros Hst Hnow Hminor Hpin. unfold update_route. apply spec_lift_bind. intros [] Hv.
  assert (validate_rule rule = Ok tt) as Hval by (by destruct (validate_rule rule) as [[]|]).
  eapply spec_bind; [by apply spec_require_profile|]. intros p. cbn beta.
  eapply spec_bind; [eapply spec_given; [|by apply (spec_load_route P)]; by intros recs [? _]|]. intros found. cbn beta.
  apply spec_lift_bind. intros x ->%ok_or_Ok. apply spec_pre. intros recs1 (HP1 & Hx & [Hcan Hu] & Hid).
  apply spec_lift_bind. intros [] Hexp%reject_if_ok%negb_false_iff%bool_decide_eq_true.
  apply spec_lift_bind. intros next [Hn Hle]%ok_or_Ok%checked_next_Some. apply spec_lift_bind. intros r Hr. subst expected.
  destruct (encode_route_Ok _ _ _ _ Hcodec Hr Hval Hminor) as (Hwf & Hrid & Hrr & Hdec); [simpl; by rewrite <- Hid| |done|].
  { unfold is_u64 in *. rewrite Hn. lia. }
  assert (route_step pinned (item x) (updated_route (item x).1 rule, now)) as Hstep.
  { destruct x as [[stored t] rev]. apply route_change; [by symmetry|done]. }
  eapply spec_bind.
  { apply (spec_update_named G RoutingRules decode_channel_route route_key (route_init pinned) (route_step pinned) RtRepository
      decode_route_faithful (eq recs1) x r routes_named); [done|done|by rewrite Hrid| |].
    - intros recs <-. by apply holds_seen.
    - intros recs _ Hh. eapply route_update_keeps; [done|exact Hdec|done|]. by rewrite Hrr, Hn. }
  intros receipt. cbn beta. apply spec_ret. intros recs' (recs & (recs2 & <- & HR2) & Hh & ->).
  exists recs, x, (MkStored (updated_route (item x).1 rule, now) next). split; [eapply Hst; [exact HP1|exact HR2]|].
  split; [|done]. split; [done|]. split; [|split; [by rewrite Hid|by eexists]]. rewrite Hid.
  by apply (holds_insert_eq RoutingRules decode_channel_route route_key _ _ recs _ (MkStored (updated_route (item x).1 rule, now) next)).
Qed.

Lemma spec_delete_route P id expected :
  stable G P -> retired id ->
  spec G P (delete_route id expected) (fun _ recs' => exists recs x, P recs /\ rholds recs x /\ route_key (item x) = id
    /\ storage_revision x = expected /\ recs' = delete (RoutingRules, id) recs).
Proof.
  intros Hst Hret. unfold delete_route. eapply spec_bind; [by apply spec_load_route|]. intros found. cbn beta.
  apply spec_lift_bind. intros x ->%ok_or_Ok. apply spec_pre. intros recs1 (HP1 & Hx & _ & Hid).
  apply spec_lift_bind. intros [] Hexp%reject_if_ok%negb_false_iff%bool_decide_eq_true. subst expected id.
  eapply spec_bind.
  { apply (spec_delete G RoutingRules decode_channel_route route_key (route_init pinned) (route_step pinned) RtRepository
      decode_route_faithful (eq recs1) x routes_named); [done| |].
    - intros recs <-. by apply holds_seen.
    - intros recs _ Hh. by apply route_delete_keeps. }
  intros receipt. cbn beta. apply spec_ret. intros recs' (recs & (recs2 & <- & HR2) & Hh & ->).
  exists recs, x. split; [eapply Hst; [exact HP1|exact HR2]|]. done.
Qed.

Lemma spec_list_routes P :
  stable G P ->
  spec G P list_routes (fun rs recs => P recs
    /\ forall route, route ∈ rs <-> exists x, rholds recs x /\ route = MkRegisteredRoute (loaded_rule x) (storage_revision x) (item x).2).
Proof.
  intros Hst. unfold list_routes.
  eapply spec_bind; [apply (spec_load_items G RoutingRules decode_channel_route route_key (route_init pinned) (route_step pinned)),
    decode_route_faithful|].
  intros xs. cbn beta. apply spec_ret. intros recs (_ & Hl & [_ Hin]). split; [by apply (later_stable G P)|].
  intros route. rewrite sort_by_perm, list_elem_of_fmap. split.
  - intros (x & -> & Hx%Hin). by exists x.
  - intros (x & Hx & ->). exists x. split; [done|]. by apply Hin.
Qed.
End contract.

(** ** Runs *)

Inductive route_op :=
| OpRegisterProfile (disk : Disk) (p : RegisteredProfile)
| OpUpdateProfile (disk : Disk) (p : RegisteredProfile) (expected : Revision)
| OpGetProfile (id : ProfileId)
| OpListProfiles
| OpRemoveProfile (id : ProfileId) (expected : Revision)
| OpRegisterRoute (rule : ChannelRouteRule) (now : UtcTimestamp)
| OpUpdateRoute (rule : ChannelRouteRule) (expected : Revision) (now : UtcTimestamp)
| OpListRoutes
| OpDeleteRoute (id : EntityId) (expected : Revision)
| OpResolve (c : ChannelRouteContext) (now : UtcTimestamp).

(** One operation, with what other processes write while it runs and the routes
    and profiles that are deleted meanwhile. *)
Record route_turn (S : Type) := MkRouteTurn {
  rt_op : route_op;
  rt_others : list (S -> S);
  rt_deleted : gset EntityId
}.
Global Arguments MkRouteTurn {S}.
Global Arguments rt_op {S}.
Global Arguments rt_others {S}.
Global Arguments rt_deleted {S}.

Section runs.
Context {S : Type} `{HU : Ulid, HR : Repository S, HL : !RepositoryLaws S}.
Context `{HP : Document RegisteredProfile, HD : Document StoredChannelRoute}.
Context (pinned : EntityId -> option (ProfileId * ChannelSessionPolicy)).
Context (new_id : nat -> EntityId).

Abbreviation fholds := (holds Profiles decode_profile profile_key profile_init profile_step).
Abbreviation rholds := (holds RoutingRules decode_channel_route route_key (route_init pinned) (route_step pinned)).

Definition route_do (op : route_op) (w : World S) : World S :=
  match op with
  | OpRegisterProfile disk p => (register_profile disk p w).2
  | OpUpdateProfile disk p expected => (update_profile disk p expected w).2
  | OpGetProfile id => (get_profile id w).2
  | OpListProfiles => (list_profiles w).2
  | OpRemoveProfile id expected => (remove_profile id expected w).2
  | OpRegisterRoute rule now => (register_route rule now w).2
  | OpUpdateRoute rule expected now => (update_route rule expected now w).2
  | OpListRoutes => (list_routes w).2
  | OpDeleteRoute id expected => (delete_route id expected w).2
  | OpResolve c now => (resolve new_id c now w).2
  end.

Definition route_take (t : route_turn S) (w : World S) : World S := route_do (rt_op t) (with_others w (rt_others t)).

(** A run goes on after an error. *)
Definition route_run (ts : list (route_turn S)) (w : World S) : World S := fold_left (fun w t => route_take t w) ts w.

Definition gone (t : route_turn S) (id : EntityId) : Prop := id ∈ rt_deleted t.

(** Values are those of the Rust types; nothing is registered with the identifier
    of something that is deleted meanwhile; and pinned routes keep their profile
    and policy. *)
Definition route_op_ok (op : route_op) (deleted : gset EntityId) : Prop :=
  match op with
  | OpRegisterProfile _ p => id_canonical (profile_key p) /\ is_i64 (unix_millis (rg_updated_at p)) /\ profile_key p ∉ deleted
  | OpUpdateProfile _ p _ => is_i64 (unix_millis (rg_updated_at p))
  | OpRemoveProfile id _ => as_entity_id id ∈ deleted
  | OpRegisterRoute rule now =>
      is_i64 (unix_millis now) /\ id_canonical (ru_id rule) /\ (0 <= sv_minor (ru_version rule))%Z
      /\ rule_pinned pinned rule /\ ru_id rule ∉ deleted
  | OpUpdateRoute rule _ now => is_i64 (unix_millis now) /\ (0 <= sv_minor (ru_version rule))%Z /\ rule_pinned pinned rule
  | OpDeleteRoute id _ => id ∈ deleted
  | OpResolve _ now => is_i64 (unix_millis now)
  | OpGetProfile _ | OpListProfiles | OpListRoutes => True
  end.

Definition route_turn_ok (t : route_turn S) : Prop :=
  route_op_ok (rt_op t) (rt_deleted t) /\ Forall (relies (shared_routes pinned (gone t))) (rt_others t).

Context (Hpcodec : document_lawful RegisteredProfile) (Hrcodec : route_codec).

(** Every operation keeps to the contract, whether it succeeds or fails. *)
Lemma route_turn_keeps t w recs :
  route_turn_ok t -> repo_view (store w) recs ->
  exists recs', repo_view (store (route_take t w)) recs' /\ table_follows pinned (gone t) recs recs'.
Proof.
  intros [Hop Hothers] Hv. set (G := shared_routes pinned (gone t)).
  assert (stable G (fun _ => True)) as Hst by by intros ???.
  assert (sees G (with_others w (rt_others t)) recs) as Hw by done.
  pose proof (profiles_live pinned (gone t)) as Hlive. pose proof (profile_create_keeps pinned (gone t)) as Hcreate.
  pose proof (profile_update_keeps pinned (gone t)) as Hupdate. pose proof (profile_delete_keeps pinned (gone t)) as Hdelete.
  assert (exists recs', sees G (route_take t w) recs' /\ table_follows pinned (gone t) recs recs') as (recs' & [Hv' _] & Hf);
    [|by exists recs'].
  unfold route_take. destruct (rt_op t); simpl in Hop; destruct_and?; cbn [route_do];
    (eapply (spec_run G (fun _ => True)); [|exact Hw|done]).
  - by eapply (spec_register_profile G (gone t)).
  - by eapply (spec_update_profile G (gone t)).
  - by eapply spec_get_profile.
  - by eapply spec_list_profiles.
  - by eapply (spec_remove_profile G (gone t)).
  - by eapply spec_register_route.
  - by eapply spec_update_route.
  - by eapply spec_list_routes.
  - by eapply spec_delete_route.
  - by eapply spec_resolve.
Qed.

(** What every turn keeps is kept. *)
Lemma route_run_ind (P : Records -> Prop) ts w recs :
  (forall t a b, t ∈ ts -> table_follows pinned (gone t) a b -> P a -> P b) ->
  repo_view (store w) recs -> Forall route_turn_ok ts -> P recs ->
  exists recs', repo_view (store (route_run ts w)) recs' /\ P recs'.
Proof.
  intros Hkeep. revert w recs. induction ts as [|t ts IH]; intros w recs Hv Hts HP0; [by exists recs|].
  apply Forall_cons in Hts as [Ht Hts]. destruct (route_turn_keeps t w recs Ht Hv) as (recs1 & Hv1 & Hf).
  apply (IH (fun t' a b Ht' => Hkeep t' a b ltac:(by right)) (route_take t w) recs1 Hv1 Hts).
  eapply Hkeep; [by left|exact Hf|exact HP0].
Qed.

(** What became of a profile: it is there still, or it was removed after it had
    been disabled. *)
Definition profile_fate (x : Stored RegisteredProfile) (recs : Records) : Prop :=
  (exists y, fholds recs y /\ rg_id (item y) = rg_id (item x) /\ rtc profile_step (item x) (item y))
  \/ exists p, rtc profile_step (item x) p /\ rg_enabled p = false.

Lemma profile_steps_id p q : rtc profile_step p q -> rg_id q = rg_id p.
Proof. induction 1 as [|a b c (Hab & _) _ IH]; congruence. Qed.

Lemma profile_fate_keeps x t recs recs' :
  table_follows pinned (gone t) recs recs' -> profile_fate x recs -> profile_fate x recs'.
Proof.
  intros [Hp _] [(y & Hy & Hid & Hs)|H]; [|by right].
  destruct (lives_steps profiles (gone t) profile_ended recs recs' _ y Hp Hy) as [(z & Hz & Hyz)|(_ & _ & p & Hyp & He)];
    [left|right; exists p; split; [by etrans|done]].
  pose proof (profile_steps_id _ _ Hyz) as Hidz. exists z. split; [unfold holds, profile_key; by rewrite Hidz|].
  split; [congruence|by etrans].
Qed.

(** Whatever registries and route tables do over one repository, with other
    processes writing in between: every stored profile is valid (its names are
    not blank, its lists have no repetitions, its ceilings are not zero, and its
    memory and schedules are different places in its workspace), its revision
    grows by one with every update, and it is removed only after it was
    disabled. *)
Theorem profiles_stay_valid ts w recs :
  repo_view (store w) recs -> Forall route_turn_ok ts -> all_items profiles profile_valid recs ->
  exists recs', repo_view (store (route_run ts w)) recs' /\ all_items profiles profile_valid recs'
    /\ forall x, fholds recs x -> profile_fate x recs'.
Proof.
  intros Hv Hts Hval.
  apply (route_run_ind (fun rs => all_items profiles profile_valid rs /\ forall x, fholds recs x -> profile_fate x rs) ts w recs); [|done|done|].
  - intros t a b _ Hf [Ha Hfate]. split; [|intros x Hx; eapply profile_fate_keeps; eauto]. destruct Hf as [Hp _].
    eapply lives_all_items; [| |exact Hp|exact Ha]; [by intros x []|by intros x y _ (_ & ? & _)].
  - split; [done|]. intros x Hx. left. by exists x.
Qed.

(** Routing fails closed: a message is routed only by the one matching rule of
    the highest priority, which is enabled, to a profile that exists and is
    enabled, authorizes the caller and serves the channel, and only as far as the
    policy of the group allows; the session is the one that was named explicitly
    or the one that the conversation is bound to. *)
Theorem resolve_fails_closed (retired : EntityId -> Prop) c now w recs route w' :
  sees (shared_routes pinned retired) w recs -> is_i64 (unix_millis now) -> resolve new_id c now w = (Ok route, w') ->
  exists recs1 recs2 recs' x y, table_follows pinned retired recs recs1 /\ sees (shared_routes pinned retired) w' recs'
    /\ resolves pinned retired c recs1 recs2 recs' x y route.
Proof.
  intros Hw Hnow Hr. set (P rs := table_follows pinned retired recs rs).
  assert (stable (shared_routes pinned retired) P) as Hst by (intros a b Ha HT; unfold P in *; by etrans).
  destruct (spec_resolve pinned retired new_id Hrcodec P c now Hst Hnow recs w (Ok route) w'
    (since_now (shared_routes pinned retired) P w recs Hw (reflexivity recs)) Hr) as (recs' & Hw' & _ & recs1 & recs2 & x & y & Hf & Hres).
  by exists recs1, recs2, recs', x, y.
Qed.

(** *** Sessions *)

Lemma bound_stable (retired : EntityId -> Prop) id key session :
  is_Some (pinned id) -> ~ retired id ->
  stable (shared_routes pinned retired) (fun recs => all_items (routes pinned) (route_ok pinned) recs /\ bound_to pinned id key session recs).
Proof.
  intros Hpin Hret recs recs' [Hok (x & Hx & Hid & Hb)] [_ Hf].
  split; [eapply lives_all_items; [apply route_init_ok|apply route_step_ok|exact Hf|exact Hok]|].
  destruct (lives_steps _ _ _ recs recs' _ x Hf Hx) as [(y & Hy & Hs)|(_ & Hr & _)]; [|by rewrite Hid in Hr].
  rewrite <- Hid in Hpin. destruct (route_steps_bindings pinned (item x) (item y) (Hok _ _ Hx) Hpin Hs) as [Hsub Hk].
  exists y. split; [unfold holds; by rewrite Hk|]. split; [congruence|]. by eapply lookup_weaken.
Qed.

(** A route that was resolved has its session bound. *)
Lemma resolved_bound (retired : EntityId -> Prop) c recs1 recs2 recs' x y route :
  is_Some (pinned (route_id route)) -> ~ retired (route_id route) -> all_items (routes pinned) (route_ok pinned) recs1 ->
  resolves pinned retired c recs1 recs2 recs' x y route -> ru_session_policy (loaded_rule x) <> ExplicitOnly ->
  all_items (routes pinned) (route_ok pinned) recs' /\ bound_to pinned (route_id route) (rs_session_key route) (rs_session_id route) recs'.
Proof.
  intros Hpin Hret Hok (Hf1 & Hf2 & _ & (Hx & _) & _ & _ & _ & _ & _ & _ & _ & _ & _ & Hid & _ & _ & _ & Hs) Hpol.
  assert (all_items (routes pinned) (route_ok pinned) recs') as Hok'.
  { destruct Hf1 as [_ Hf1], Hf2 as [_ Hf2].
    eapply lives_all_items; [apply route_init_ok|apply route_step_ok|exact Hf2|].
    eapply lives_all_items; [apply route_init_ok|apply route_step_ok|exact Hf1|exact Hok]. }
  split; [done|]. rewrite bool_decide_eq_false_2 in Hs by done. destruct (_ !! _) as [session|] eqn:Eb; [|by rewrite Hid].
  eapply (bound_stable retired _ _ _ Hpin Hret recs2); [|exact Hf2]. eapply (bound_stable retired _ _ _ Hpin Hret recs1); [|exact Hf1].
  split; [done|]. exists x. split; [done|]. split; [by rewrite Hid|]. congruence.
Qed.

(** A named session is its key. *)
Lemma resolved_explicit (retired : EntityId -> Prop) c recs1 recs2 recs' x y route :
  resolves pinned retired c recs1 recs2 recs' x y route -> ru_session_policy (loaded_rule x) = ExplicitOnly ->
  rs_session_key route = str "explicit:" ++ as_str (as_entity_id (rs_session_id route)).
Proof.
  intros (_ & _ & _ & _ & _ & _ & _ & _ & _ & _ & _ & _ & Hk & _ & _ & _ & _ & Hs) Hpol.
  rewrite bool_decide_eq_true_2 in Hs by done. unfold session_key in Hk. rewrite Hpol, Hs in Hk.
  cbn [fmap option_fmap option_map ok_or] in Hk. congruence.
Qed.

(** A session that is bound is found. *)
Lemma resolved_known (retired : EntityId -> Prop) c recs1 recs2 recs' x y route session :
  resolves pinned retired c recs1 recs2 recs' x y route -> ru_session_policy (loaded_rule x) <> ExplicitOnly ->
  bound_to pinned (route_id route) (rs_session_key route) session recs1 -> rs_session_id route = session.
Proof.
  intros (_ & _ & _ & (Hx & _) & _ & _ & _ & _ & _ & _ & _ & _ & _ & Hid & _ & _ & _ & Hs) Hpol (z & Hz & Hzid & Hzb).
  assert (z = x) as -> by (eapply holds_inj; [exact Hz|exact Hx|unfold route_key, loaded_rule in *; congruence]).
  rewrite bool_decide_eq_false_2 in Hs by done. rewrite Hzb in Hs. exact Hs.
Qed.

Lemma routes_ok_stable (retired : EntityId -> Prop) :
  stable (shared_routes pinned retired) (all_items (routes pinned) (route_ok pinned)).
Proof. intros a b Ha [_ Hf]. eapply lives_all_items; [apply route_init_ok|apply route_step_ok|exact Hf|exact Ha]. Qed.

(** What a route that was resolved and is not deleted keeps. *)
Definition settled (route : ResolvedChannelRoute) (recs : Records) : Prop :=
  all_items (routes pinned) (route_ok pinned) recs
  /\ exists profile policy, pinned (route_id route) = Some (profile, policy)
     /\ if decide (policy = ExplicitOnly) then rs_session_key route = str "explicit:" ++ as_str (as_entity_id (rs_session_id route))
        else bound_to pinned (route_id route) (rs_session_key route) (rs_session_id route) recs.

Lemma settled_stable (retired : EntityId -> Prop) route :
  ~ retired (route_id route) -> stable (shared_routes pinned retired) (settled route).
Proof.
  intros Hret a b [Hok (profile & policy & Hpin & Hb)] Hf. assert (is_Some (pinned (route_id route))) as Hsome by by eexists.
  split; [by eapply routes_ok_stable|]. exists profile, policy. split; [done|]. destruct (decide _); [done|].
  by eapply (bound_stable retired _ _ _ Hsome Hret a b).
Qed.

Lemma resolved_settled (retired : EntityId -> Prop) c recs1 recs2 recs' x y route :
  is_Some (pinned (route_id route)) -> ~ retired (route_id route) -> all_items (routes pinned) (route_ok pinned) recs1 ->
  resolves pinned retired c recs1 recs2 recs' x y route -> settled route recs'.
Proof.
  intros Hsome Hret Hok Hres. pose proof Hres as (F1 & F2 & _ & (Hx & _) & _ & _ & _ & _ & _ & _ & _ & _ & _ & Hid & _).
  split; [eapply routes_ok_stable, F2; by eapply routes_ok_stable, F1|]. pose proof Hsome as [[profile policy] Hpin].
  exists profile, policy. split; [done|].
  assert (ru_session_policy (loaded_rule x) = policy) as Hpol by (apply (proj1 (Hok _ _ Hx) profile policy); unfold loaded_rule in *; congruence).
  destruct (decide _) as [He|He]; [eapply resolved_explicit; [exact Hres|congruence]|].
  eapply resolved_bound; [exact Hsome|exact Hret|exact Hok|exact Hres|by rewrite Hpol].
Qed.

(** A settled route says which session it is. *)
Lemma settled_session (retired : EntityId -> Prop) c recs1 recs2 recs' x y route1 route2 :
  settled route1 recs1 -> resolves pinned retired c recs1 recs2 recs' x y route2 ->
  route_id route2 = route_id route1 -> rs_session_key route2 = rs_session_key route1 ->
  rs_session_id route2 = rs_session_id route1.
Proof.
  intros [Hok (profile & policy & Hpin & Hb)] Hres Hid Hkey.
  pose proof Hres as (_ & _ & _ & (Hx & _) & _ & _ & _ & _ & _ & _ & _ & _ & _ & Hid2 & _).
  assert (ru_session_policy (loaded_rule x) = policy) as Hpol by (apply (proj1 (Hok _ _ Hx) profile policy); unfold loaded_rule in *; congruence).
  destruct (decide _) as [He|He]; [|eapply resolved_known; [exact Hres|congruence|by rewrite Hid, Hkey]].
  pose proof (resolved_explicit _ _ _ _ _ _ _ _ Hres ltac:(congruence)) as Hk2. rewrite Hkey, Hb in Hk2.
  apply (inj (app _)) in Hk2. destruct (rs_session_id route1) as [[s1]], (rs_session_id route2) as [[s2]]. simpl in Hk2. by subst.
Qed.

(** C35: a conversation keeps its session: when a message was routed, and later,
    after whatever other messages, rules and profiles of this and other processes,
    a message with the same key (of the same conversation, sender, thread or named
    session, as the policy has it) is routed by the same rule, both get the same
    session, as long as the rule is not deleted and keeps its profile and its
    policy of sessions. *)
Theorem conversation_keeps_session (retired : EntityId -> Prop) ts fs c1 now1 c2 now2 w recs route1 w1 route2 w2 :
  sees (shared_routes pinned retired) w recs -> all_items (routes pinned) (route_ok pinned) recs ->
  Forall route_turn_ok ts -> Forall (relies (shared_routes pinned retired)) fs ->
  is_i64 (unix_millis now1) -> is_i64 (unix_millis now2) ->
  resolve new_id c1 now1 w = (Ok route1, w1) -> resolve new_id c2 now2 (with_others (route_run ts w1) fs) = (Ok route2, w2) ->
  route_id route2 = route_id route1 -> rs_session_key route2 = rs_session_key route1 ->
  is_Some (pinned (route_id route1)) -> ~ retired (route_id route1) -> Forall (fun t => ~ gone t (route_id route1)) ts ->
  rs_session_id route2 = rs_session_id route1.
Proof.
  intros Hw Hok Hts Hfs Hn1 Hn2 H1 H2 Hid Hkey Hpin Hret Hgone. set (G := shared_routes pinned retired) in *.
  destruct (spec_resolve pinned retired new_id Hrcodec _ c1 now1 (routes_ok_stable retired) Hn1 recs w (Ok route1) w1
    (since_now G _ w recs Hw Hok) H1) as (recs1 & Hw1 & _ & a1 & a2 & x & y & Ha1 & Hres1).
  pose proof (resolved_settled retired _ _ _ _ _ _ _ Hpin Hret Ha1 Hres1) as Hs1.
  rewrite list.Forall_forall in Hgone.
  destruct (route_run_ind (settled route1) ts w1 recs1) as (recs2 & Hv2 & Hs2); [|apply Hw1|done|done|].
  { intros t a b Ht Hf Ha. by eapply (settled_stable (gone t)), Hf; [apply Hgone|]. }
  assert (sees G (with_others (route_run ts w1) fs) recs2) as Hw2 by done.
  destruct (spec_resolve pinned retired new_id Hrcodec _ c2 now2 (settled_stable retired route1 Hret) Hn2 recs2 _ (Ok route2) w2
    (since_now G _ _ recs2 Hw2 Hs2) H2) as (recs3 & _ & _ & b1 & b2 & x' & y' & Hb1 & Hres2).
  by eapply settled_session.
Qed.
End runs.
