(* ===== verification/RouteExample.v ===== *)
(** * Concrete routes

    Closed instances of the theorems about profiles and channel routes: two
    conversations that are routed, a route that is changed in between, and what a
    separator in a name or a route that is registered again can do. *)

From Stdlib Require Import ZArith Lia String.
From stdpp Require Import base decidable countable relations gmap sorting option list.
From S2P Require Import Prelude RustStd RustText AgentTypes Json StateStoreCore StateStore ItemStore Serial ServiceExample.
From S2P Require Import Configuration ConfigurationExample Profiles ProfileProperties Routing RouteProperties.

(** ** Codecs *)

#[export] Program Instance Serial_resources : Serial ProfileResources :=
  Serial_via (fun x => (workspace_root x, memory_root x, schedule_root x)) (fun t => let '(a, b, c) := t in Some (MkResources a b c)) _.
Next Obligation. by intros []. Qed.
#[export] Program Instance Serial_registered : Serial RegisteredProfile :=
  Serial_via (fun x => (rg_profile x, rg_resources x, rg_enabled x, authorized_callers x, rg_revision x, rg_updated_at x))
    (fun t => let '(a, b, c, d, e, f) := t in Some (MkRegistered a b c d e f)) _.
Next Obligation. by intros []. Qed.

#[export] Program Instance ChannelSessionPolicy_enumerated : Enumerated ChannelSessionPolicy := {|
  variants := [PerConversation; PerSender; PerThread; ExplicitOnly] |}.
Next Obligation. intros []; repeat constructor. Qed.
#[export] Instance GroupMentionPolicy_eq_dec : EqDecision GroupMentionPolicy.
Proof. solve_decision. Defined.
#[export] Program Instance GroupMentionPolicy_enumerated : Enumerated GroupMentionPolicy := {|
  variants := [MentionAlways; RequireMention; MentionIgnore] |}.
Next Obligation. intros []; repeat constructor. Qed.
#[export] Instance GroupMemoryPolicy_eq_dec : EqDecision GroupMemoryPolicy.
Proof. solve_decision. Defined.
#[export] Program Instance GroupMemoryPolicy_enumerated : Enumerated GroupMemoryPolicy := {|
  variants := [MemoryShared; PrivatePerParticipant; MemoryDisabled] |}.
Next Obligation. intros []; repeat constructor. Qed.
#[export] Program Instance ParticipantRetentionPolicy_enumerated : Enumerated ParticipantRetentionPolicy := {|
  variants := [Retain; Ephemeral] |}.
Next Obligation. intros []; repeat constructor. Qed.
#[export] Program Instance ProactivePostPolicy_enumerated : Enumerated ProactivePostPolicy := {|
  variants := [PostsDenied; PostsAllowed] |}.
Next Obligation. intros []; repeat constructor. Qed.

#[export] Instance Serial_authority : Serial GroupAuthority.
Proof.
  refine (Serial_via (A := option (option (gset rstr)))
    (fun x => match x with AuthorityDisabled => None | ProfileCallers => Some None | AllowList s => Some (Some s) end)
    (fun o => match o with None => Some AuthorityDisabled | Some None => Some ProfileCallers | Some (Some s) => Some (AllowList s) end) _).
  intros []; reflexivity.
Defined.
#[export] Program Instance Serial_group_policy : Serial GroupRoutePolicy :=
  Serial_via (fun x => (gp_mention x, gp_memory x, participant_retention x, gp_tools x, gp_schedules x, proactive_posts x))
    (fun t => let '(a, b, c, d, e, f) := t in Some (MkGroupPolicy a b c d e f)) _.
Next Obligation. by intros []. Qed.
#[export] Program Instance Serial_matcher : Serial ChannelRouteMatcher :=
  Serial_via (fun x => (mt_channel x, mt_account x, mt_conversation x, mt_thread x, mt_sender x, command_prefix x))
    (fun t => let '(a, b, c, d, e, f) := t in Some (MkMatcher a b c d e f)) _.
Next Obligation. by intros []. Qed.
#[export] Program Instance Serial_rule : Serial ChannelRouteRule :=
  Serial_via (fun x => (ru_version x, ru_id x, ru_profile_id x, ru_priority x, ru_enabled x, ru_matcher x, ru_session_policy x, ru_group_policy x))
    (fun t => let '(a, b, c, d, e, f, g, h) := t in Some (MkRouteRule a b c d e f g h)) _.
Next Obligation. by intros []. Qed.
#[export] Program Instance Serial_channel_route : Serial StoredChannelRoute :=
  Serial_via (fun x => (sr_rule x, session_bindings x)) (fun t => Some (MkStoredRoute t.1 t.2)) _.
Next Obligation. by intros []. Qed.

Definition any_profile (x : RegisteredProfile) : bool := true.
Definition typed_route (x : StoredChannelRoute) : bool := (0 <=? sv_minor (ru_version (sr_rule x)))%Z.

#[export] Instance profile_document : Document RegisteredProfile := serial_document any_profile.
#[export] Instance route_document : Document StoredChannelRoute := serial_document typed_route.

Lemma profile_document_lawful : document_lawful RegisteredProfile.
Proof. apply serial_document_lawful. Qed.

Lemma route_document_codec : route_codec.
Proof. split; [apply serial_document_lawful|]. intros v x Hx%serial_document_valid. by apply Z.leb_le. Qed.

(** ** A run *)

(** A disk on which every path is canonical and there. *)
Definition plain_disk : Disk := MkDisk (fun p => Ok p) (fun _ => true) (fun _ => true).
Definition home : PathBuf := str "/home/agent".

Definition assistant : RegisteredProfile :=
  MkRegistered sample_profile (MkResources home (str "/home/agent/memory") (str "/home/agent/schedules")) true
    {[str "owner"]} Revision_ZERO (moment 1).

Definition personal : EntityId := named_id 90.
Definition strict_group : GroupRoutePolicy :=
  MkGroupPolicy RequireMention PrivatePerParticipant Ephemeral AuthorityDisabled AuthorityDisabled PostsDenied.
Definition terminal_rule (priority : Z) : ChannelRouteRule :=
  MkRouteRule CURRENT_SCHEMA_VERSION personal (ap_id sample_profile) priority true
    (MkMatcher (Some (str "terminal")) None None None None None) PerConversation strict_group.

Definition message (conversation text : string) : ChannelRouteContext :=
  MkRouteContext (str "terminal") (str "local") (str conversation) None (str "owner") (str "owner") (str text) None None
    false false Inbound.

Definition turn_of (op : route_op) : route_turn EmbeddedStore := MkRouteTurn op [] ∅.
Definition setup : list (route_turn EmbeddedStore) :=
  [turn_of (OpRegisterProfile plain_disk assistant); turn_of (OpRegisterRoute (terminal_rule 10) (moment 2))].

(** The route keeps its profile and its policy; nothing is deleted. *)
Definition pinned_personal (id : EntityId) : option (ProfileId * ChannelSessionPolicy) :=
  if decide (id = personal) then Some (ap_id sample_profile, PerConversation) else None.
Definition never (id : EntityId) : Prop := False.

Lemma terminal_pinned priority : rule_pinned pinned_personal (terminal_rule priority).
Proof.
  intros profile policy Hp. unfold pinned_personal in Hp. rewrite decide_True in Hp by reflexivity. by injection Hp as <- <-.
Qed.

Definition ready : SampleWorld := with_others (route_run nth_id setup fresh_world) [].

Ltac typed_turn := split; [|by constructor]; cbn [rt_op rt_deleted turn_of route_op_ok];
  split_and?; try (apply moment_i64; lia); try (apply named_id_canonical; lia); try apply terminal_pinned; try set_solver; simpl; try lia.

Lemma setup_ok : Forall (route_turn_ok pinned_personal) setup.
Proof. repeat (apply Forall_cons; split; [typed_turn|]). by apply Forall_nil. Qed.

Lemma ready_sees : exists recs, sees (shared_routes pinned_personal never) ready recs
  /\ all_items (routes pinned_personal) (route_ok pinned_personal) recs.
Proof.
  destruct (route_run_ind pinned_personal nth_id profile_document_lawful route_document_codec
    (all_items (routes pinned_personal) (route_ok pinned_personal)) setup fresh_world ∅) as (recs & Hv & Hok).
  - intros t a b _ Hf Ha. exact (routes_ok_stable pinned_personal (gone t) a b Ha Hf).
  - apply (fresh_sees (shared_routes pinned_personal never)).
  - exact setup_ok.
  - apply empty_all_items.
  - exists recs. split; [|exact Hok]. split; [exact Hv|constructor].
Qed.

Definition greeting : result (RouteError _) ResolvedChannelRoute * SampleWorld :=
  resolve nth_id (message "main" "hello") (moment 10) ready.

(** ** Instances *)

Lemma profiles_stay_valid_witness :
  exists recs', repo_view (store (route_run nth_id setup fresh_world)) recs' /\ all_items profiles profile_valid recs'.
Proof.
  destruct (profiles_stay_valid pinned_personal nth_id profile_document_lawful route_document_codec setup fresh_world ∅)
    as (recs & Hv & Hok & _).
  - apply (fresh_sees (shared_routes pinned_personal never)).
  - exact setup_ok.
  - apply empty_all_items.
  - exists recs. exact (conj Hv Hok).
Defined.

Lemma resolve_fails_closed_witness :
  exists route, greeting = (Ok route, greeting.2)
  /\ exists recs1 recs2 recs' x y, resolves pinned_personal never (message "main" "hello") recs1 recs2 recs' x y route
      /\ cx_caller (message "main" "hello") ∈ authorized_callers (item y).
Proof.
  destruct ready_sees as (recs & Hs & _).
  destruct (ok_pair greeting) as [route Hr]; [vm_compute; reflexivity|]. exists route. split; [exact Hr|].
  destruct (resolve_fails_closed pinned_personal nth_id route_document_codec never (message "main" "hello") (moment 10) ready recs
    route greeting.2 Hs ltac:(apply moment_i64; lia) Hr) as (recs1 & recs2 & recs' & x & y & _ & _ & Hres).
  exists recs1, recs2, recs', x, y. split; [exact Hres|].
  destruct Hres as (_ & _ & _ & _ & _ & _ & _ & _ & _ & Hc & _). exact Hc.
Defined.

(** Another conversation, and a change of the priority of the rule. *)
Definition meanwhile : list (route_turn EmbeddedStore) :=
  [turn_of (OpResolve (message "other" "hi") (moment 20)); turn_of (OpUpdateRoute (terminal_rule 5) (MkRevision 2) (moment 30));
   turn_of OpListRoutes].

Lemma meanwhile_ok : Forall (route_turn_ok pinned_personal) meanwhile.
Proof. repeat (apply Forall_cons; split; [typed_turn|]). by apply Forall_nil. Qed.

Lemma conversation_keeps_session_witness :
  exists route1 route2 w2, greeting = (Ok route1, greeting.2)
    /\ resolve nth_id (message "main" "and then?") (moment 40) (with_others (route_run nth_id meanwhile greeting.2) []) = (Ok route2, w2)
    /\ rs_session_id route2 = rs_session_id route1.
Proof.
  destruct ready_sees as (recs & Hs & Hok).
  destruct (ok_pair greeting) as [route1 H1]; [vm_compute; reflexivity|].
  assert ((fun r => (route_id r, rs_session_key r)) <$> result_ok
    (resolve nth_id (message "main" "and then?") (moment 40) (with_others (route_run nth_id meanwhile greeting.2) [])).1
    = Some (personal, str "terminal" ++ unit_separator ++ str "local" ++ unit_separator ++ str "main")) as K2
    by (vm_compute; reflexivity).
  destruct (resolve nth_id (message "main" "and then?") (moment 40) (with_others (route_run nth_id meanwhile greeting.2) []))
    as [[route2|e] w2] eqn:H2; [|discriminate K2].
  exists route1, route2, w2. split; [exact H1|]. split; [reflexivity|].
  assert ((fun r => (route_id r, rs_session_key r)) <$> result_ok greeting.1 = Some (personal, str "terminal" ++ unit_separator ++ str "local" ++ unit_separator ++ str "main")) as K1
    by (vm_compute; reflexivity).
  rewrite H1 in K1. cbn [fst result_ok fmap option_fmap option_map] in K1, K2.
  assert (route_id route1 = personal /\ route_id route2 = personal /\ rs_session_key route2 = rs_session_key route1) as (I1 & I2 & Ik).
  { clear -K1 K2. injection K1 as I1 K1. injection K2 as I2 K2. split; [exact I1|]. split; [exact I2|]. rewrite K1, K2. reflexivity. }
  pose proof (conversation_keeps_session pinned_personal nth_id profile_document_lawful route_document_codec never meanwhile []
    (message "main" "hello") (moment 10) (message "main" "and then?") (moment 40) ready recs route1 greeting.2 route2 w2
    Hs Hok meanwhile_ok ltac:(constructor) ltac:(apply moment_i64; lia) ltac:(apply moment_i64; lia) H1 H2) as H.
  rewrite I1, I2 in H. apply (H eq_refl Ik).
  - unfold pinned_personal. rewrite decide_True by reflexivity. by eexists.
  - intros [].
  - assert (forall op, ~ gone (turn_of op) personal) as Hg by (intros op; apply not_elem_of_empty).
    unfold meanwhile. do 3 (apply Forall_cons; split; [apply Hg|]). by apply Forall_nil.
Defined.

(** ** Behaviours the sources do not intend *)

(** Nothing keeps the separator out of the names: two conversations of different
    accounts have one key, and so one session. *)
Definition spoofed (account conversation : rstr) : ChannelRouteContext :=
  MkRouteContext (str "terminal") account conversation None (str "owner") (str "owner") [] None None false false Inbound.

Lemma separators_collide :
  let a := spoofed (str "alice" ++ unit_separator ++ str "work") (str "main") in
  let b := spoofed (str "alice") (str "work" ++ unit_separator ++ str "main") in
  validate_channel_context a = Ok tt /\ validate_channel_context b = Ok tt /\ cx_account a <> cx_account b
  /\ session_key (E := unit) (terminal_rule 10) a = session_key (E := unit) (terminal_rule 10) b.
Proof. split_and!; [vm_compute; reflexivity..|discriminate|vm_compute; reflexivity]. Qed.

(** A rule that is deleted and registered again starts at revision zero.  A message
    that was routed by the old rule and binds its session after that writes the
    old rule over the new one. *)
Definition replaced_rule : ChannelRouteRule :=
  MkRouteRule CURRENT_SCHEMA_VERSION personal (ap_id sample_profile) 10 false
    (MkMatcher (Some (str "terminal")) None None None None None) PerConversation strict_group.
Definition replace_route (s : EmbeddedStore) : EmbeddedStore :=
  store (route_run nth_id [turn_of (OpDeleteRoute personal Revision_ZERO); turn_of (OpRegisterRoute replaced_rule (moment 11))]
    (MkWorld s [] [] 1000)).

Definition enabled_routes (s : EmbeddedStore) : option (list bool) :=
  match (list_routes (MkWorld s [] [] 0)).1 with
  | Ok rs => Some ((fun r => ru_enabled (rr_rule r)) <$> rs)
  | Err _ => None
  end.

Lemma replaced_route_returns :
  let race := resolve nth_id (message "main" "hello") (moment 12) (with_others ready [id; id; replace_route]) in
  enabled_routes (replace_route (store ready)) = Some [false] /\ is_ok race.1 = true /\ enabled_routes (store race.2) = Some [true].
Proof. split_and!; vm_compute; reflexivity. Qed.
