(* ===== verification/PlatformContracts.v ===== *)
(** * Platform contracts: [crates/platform-contracts/src/lib.rs]

    The authority a profile delegates to an external action, approvals,
    lifecycle projections, trace bundles, redacted text and the exclusive
    lease on a computer session.  A [BTreeSet] of grants is a finite set: the
    code only asks membership, intersection and [any] of it. *)

From Stdlib Require Import ZArith Lia String.
From stdpp Require Import base decidable countable gmap sorting option list.
From S2P Require Import Prelude RustStd AgentTypes.

Definition PLATFORM_CONTRACT_VERSION : ProtocolVersion := MkProtocolVersion 1 0.
Definition MAX_SAFE_TEXT_BYTES : Z := 4 * 1024.
Definition MAX_TRACE_EVENTS : Z := 4096.

Abbreviation ApprovalId := (TypedId "ApprovalId").
Abbreviation AuditCorrelationId := (TypedId "AuditCorrelationId").
Abbreviation CancellationId := (TypedId "CancellationId").
Abbreviation ChannelRouteId := (TypedId "ChannelRouteId").
Abbreviation ComputerSessionId := (TypedId "ComputerSessionId").
Abbreviation ControlLeaseId := (TypedId "ControlLeaseId").
Abbreviation ExternalPrincipalId := (TypedId "ExternalPrincipalId").

Inductive ContractError :=
| IncompatibleVersion
| ProfileMismatch
| CapabilityDenied
| ApprovalMismatch
| ApprovalRequired
| ApprovalDenied
| UnsafeText
| TraceEventLimit
| TraceOrder
| TraceNotRedacted
| MissingSafeError
| UnexpectedSafeError
| InvalidControlLease
| StaleControlLease
| RevisionExhausted
| InvalidResourceBounds.

#[export] Instance ContractError_eq_dec : EqDecision ContractError.
Proof. solve_decision. Defined.

Definition negotiate_contract (peer : ProtocolVersion) : result ContractError ProtocolVersion :=
  ok_or (common_minor PLATFORM_CONTRACT_VERSION peer) IncompatibleVersion.

(** ** Redacted text *)

Record RedactedText := MkRedactedText { redacted_as_str : rstr }.

#[export] Instance RedactedText_eq_dec : EqDecision RedactedText.
Proof. solve_decision. Defined.
#[export] Instance RedactedText_countable : Countable RedactedText.
Proof. by refine (inj_countable' redacted_as_str MkRedactedText _); intros []. Defined.

Definition secret_markers : list rstr :=
  [str "authorization: bearer"; str "access_token"; str "refresh_token"; str "api_key";
   str "password="; str "secret="; str "sk-"].

(** ['\n' | '\r' | '\t'] *)
Definition is_layout (character : Z) : bool :=
  ((character =? 10) || (character =? 13) || (character =? 9))%Z%bool.

Definition redacted_parse (value : rstr) : result ContractError RedactedText :=
  let trimmed := trim value in
  if (str_is_empty trimmed || (MAX_SAFE_TEXT_BYTES <? str_len value)%Z)%bool then Err UnsafeText
  else
    let normalized := to_ascii_lowercase value in
    let secret_marker := existsb (fun marker => str_contains_str marker normalized) secret_markers in
    let invalid_control :=
      existsb (fun character => char_is_control character && negb (is_layout character))%bool value in
    if (secret_marker || invalid_control)%bool then Err UnsafeText else Ok (MkRedactedText value).

(** ** Authority *)

Inductive PrincipalKind :=
| Human
| ServiceAccount
| ChannelSender
| AcpClient
| PluginPublisher
| ConnectorUser
| ComputerObserver.

Record ExternalPrincipal := MkPrincipal {
  principal_id : ExternalPrincipalId;
  principal_kind : PrincipalKind;
  principal_profile_id : ProfileId;
  display_label : RedactedText
}.

Inductive Capability :=
| Read
| LocalWrite
| ExternalCommunication
| DeleteCapability
| Purchase
| AccountChange
| CredentialChange
| ChannelReceive
| ChannelSend
| AcpConnect
| PluginInvoke
| PluginInstall
| ConnectedAppInvoke
| ComputerObserve
| ComputerControl
| DemonstrationRecord
| RecipeEdit
| RecipePublish
| HarnessDiagnose
| HarnessPropose
| HarnessPromote
| HarnessReverse.

#[export] Instance Capability_eq_dec : EqDecision Capability.
Proof. solve_decision. Defined.
#[export] Program Instance Capability_enumerated : Enumerated Capability := {|
  variants := [Read; LocalWrite; ExternalCommunication; DeleteCapability; Purchase; AccountChange;
    CredentialChange; ChannelReceive; ChannelSend; AcpConnect; PluginInvoke; PluginInstall;
    ConnectedAppInvoke; ComputerObserve; ComputerControl; DemonstrationRecord; RecipeEdit;
    RecipePublish; HarnessDiagnose; HarnessPropose; HarnessPromote; HarnessReverse] |}.
Next Obligation. intros []; repeat constructor. Qed.

Inductive ActionRisk :=
| ReadOnly
| ReversibleLocalWrite
| RiskExternalCommunication
| RiskDelete
| RiskPurchase
| RiskAccountChange
| RiskCredentialChange
| IrreversibleComputerInput.

#[export] Instance ActionRisk_eq_dec : EqDecision ActionRisk.
Proof. solve_decision. Defined.
#[export] Program Instance ActionRisk_enumerated : Enumerated ActionRisk := {|
  variants := [ReadOnly; ReversibleLocalWrite; RiskExternalCommunication; RiskDelete; RiskPurchase;
    RiskAccountChange; RiskCredentialChange; IrreversibleComputerInput] |}.
Next Obligation. intros []; repeat constructor. Qed.

Definition is_consequential (self : ActionRisk) : bool :=
  match self with ReadOnly | ReversibleLocalWrite => false | _ => true end.

Record CapabilityGrant := MkGrant {
  capability : Capability;
  resource : RedactedText;
  grant_expires_at : option UtcTimestamp
}.

#[export] Instance CapabilityGrant_eq_dec : EqDecision CapabilityGrant.
Proof. solve_decision. Defined.
#[export] Instance CapabilityGrant_countable : Countable CapabilityGrant.
Proof.
  by refine (inj_countable'
    (fun g => (capability g, resource g, unix_millis <$> grant_expires_at g))
    (fun t => MkGrant t.1.1 t.1.2 (MkUtcTimestamp <$> t.2)) _); intros [? ? [[]|]].
Defined.

Definition is_active_at (self : CapabilityGrant) (now : UtcTimestamp) : bool :=
  match grant_expires_at self with None => true | Some expiry => rltb now expiry end.

Record AuthorityBoundary := MkBoundary {
  boundary_profile_id : ProfileId;
  allowed : gset CapabilityGrant;
  denied : gset Capability;
  max_automatic_risk : ActionRisk
}.

Inductive ApprovalState :=
| NotRequired
| Required
| Granted (approval_id : ApprovalId) (granted_by : ExternalPrincipalId)
    (exact_target_digest : RedactedText) (expires_at : UtcTimestamp)
| Denied (safe_reason : RedactedText).

Record ApprovalEnvelope := MkApproval { approval_risk : ActionRisk; approval_state : ApprovalState }.

Inductive ExternalEffect :=
| Repeatable
| Idempotent (delivery_key : RedactedText)
| NonRepeatable.

Record ExternalAction := MkAction {
  action_profile_id : ProfileId;
  action_session_id : SessionId;
  acting_principal : ExternalPrincipalId;
  requested_capability : Capability;
  risk : ActionRisk;
  approval : ApprovalEnvelope;
  target : RedactedText;
  target_digest : RedactedText;
  cancellation_id : CancellationId;
  reply_route : option ChannelRouteId;
  audit_correlation : AuditCorrelationId;
  external_effect : ExternalEffect
}.

Definition approval_authorize (self : ApprovalEnvelope) (action : ExternalAction) (now : UtcTimestamp)
  : result ContractError unit :=
  if negb (bool_decide (approval_risk self = risk action)) then Err ApprovalMismatch
  else
    match approval_state self with
    | NotRequired => if negb (is_consequential (risk action)) then Ok tt else Err ApprovalRequired
    | Granted _ _ exact_target_digest expires_at =>
        if (rltb now expires_at && bool_decide (exact_target_digest = target_digest action))%bool
        then Ok tt else Err ApprovalRequired
    | Denied _ => Err ApprovalDenied
    | Required => Err ApprovalRequired
    end.

Definition intersect (self other : AuthorityBoundary) : result ContractError AuthorityBoundary :=
  if negb (bool_decide (boundary_profile_id self = boundary_profile_id other)) then Err ProfileMismatch
  else
    Ok (MkBoundary (boundary_profile_id self) (allowed self ∩ allowed other)
          (denied self ∪ denied other)
          (rmin (max_automatic_risk self) (max_automatic_risk other))).

(** The test [authorizes] runs on each grant. *)
Definition grants (action : ExternalAction) (now : UtcTimestamp) (grant : CapabilityGrant) : bool :=
  (bool_decide (capability grant = requested_capability action)
   && bool_decide (resource grant = target action)
   && is_active_at grant now)%bool.

Definition authorizes (self : AuthorityBoundary) (action : ExternalAction) (now : UtcTimestamp)
  : result ContractError unit :=
  _ ← reject_if (negb (bool_decide (boundary_profile_id self = action_profile_id action))) ProfileMismatch;
  _ ← reject_if (bool_decide (requested_capability action ∈ denied self)) CapabilityDenied;
  let granted := existsb (grants action now) (elements (allowed self)) in
  _ ← reject_if (negb granted) CapabilityDenied;
  if (rltb (max_automatic_risk self) (risk action) || is_consequential (risk action))%bool
  then approval_authorize (approval action) action now
  else Ok tt.

(** ** Audit and lifecycle *)

Inductive AuditOutcome :=
| AuditRequested
| AuditApproved
| AuditDenied
| AuditCompleted
| AuditFailed
| AuditCancelled
| AuditInterrupted.

Record AuditEnvelope := MkAudit {
  correlation_id : AuditCorrelationId;
  audit_profile_id : ProfileId;
  audit_session_id : SessionId;
  audit_acting_principal : ExternalPrincipalId;
  audit_capability : Capability;
  audit_risk : ActionRisk;
  audit_target_digest : RedactedText;
  audit_occurred_at : UtcTimestamp;
  outcome : AuditOutcome
}.

Inductive LifecycleState :=
| LifecyclePending
| LifecycleActive
| LifecyclePaused
| LifecycleCompleted
| LifecycleFailed
| LifecycleCancelled
| LifecycleInterrupted.

#[export] Instance LifecycleState_eq_dec : EqDecision LifecycleState.
Proof. solve_decision. Defined.

Definition is_terminal (self : LifecycleState) : bool :=
  match self with LifecycleCompleted | LifecycleFailed | LifecycleCancelled => true | _ => false end.

Definition can_transition_to (self next : LifecycleState) : bool :=
  match self, next with
  | LifecyclePending, (LifecycleActive | LifecycleCancelled | LifecycleFailed) => true
  | LifecycleActive,
    (LifecyclePaused | LifecycleCompleted | LifecycleFailed | LifecycleCancelled | LifecycleInterrupted) => true
  | LifecyclePaused, (LifecycleActive | LifecycleFailed | LifecycleCancelled | LifecycleInterrupted) => true
  | LifecycleInterrupted, (LifecyclePending | LifecycleFailed | LifecycleCancelled) => true
  | _, _ => false
  end.

Definition lifecycle_reconcile_after_restart (self : LifecycleState) (effect : ExternalEffect)
  : LifecycleState :=
  if negb (bool_decide (self = LifecycleActive)) then self
  else
    match effect with
    | Repeatable | Idempotent _ => LifecyclePending
    | NonRepeatable => LifecycleInterrupted
    end.

Record HealthProjection := MkHealth {
  health_state : LifecycleState;
  last_transition_at : UtcTimestamp;
  restartable : bool;
  cancellable : bool;
  safe_error : option RedactedText
}.

Definition health_validate (self : HealthProjection) : result ContractError unit :=
  match health_state self, safe_error self with
  | (LifecycleFailed | LifecycleInterrupted), None => Err MissingSafeError
  | LifecycleCompleted, Some _ => Err UnexpectedSafeError
  | _, _ => Ok tt
  end.

(** ** Traces *)

Inductive TraceEventKind :=
| ModelProgress
| ToolCall
| Observation
| UserCorrection
| Retry
| CompletionDecision
| Cost
| Latency
| Failure
| DurableTransition.

Record TraceEvent := MkTraceEvent {
  trace_sequence : Z;
  trace_occurred_at : UtcTimestamp;
  trace_kind : TraceEventKind;
  trace_label : RedactedText;
  safe_detail : option RedactedText;
  payload_digest : option RedactedText
}.

Record ExecutionTraceBundle := MkBundle {
  contract_version : ProtocolVersion;
  bundle_profile_id : ProfileId;
  bundle_session_id : SessionId;
  bundle_audit_correlation : AuditCorrelationId;
  events : list TraceEvent;
  redacted : bool
}.

(** [xs.windows(2).any(f)] *)
Fixpoint windows2_any {A} (f : A -> A -> bool) (xs : list A) : bool :=
  match xs with
  | x :: ((y :: _) as rest) => (f x y || windows2_any f rest)%bool
  | _ => false
  end.

Definition bundle_validate (self : ExecutionTraceBundle) : result ContractError unit :=
  _ ← negotiate_contract (contract_version self);
  _ ← reject_if (MAX_TRACE_EVENTS <? Z.of_nat (length (events self)))%Z TraceEventLimit;
  _ ← reject_if (windows2_any (fun a b => trace_sequence b <=? trace_sequence a)%Z (events self)) TraceOrder;
  reject_if (negb (redacted self)) TraceNotRedacted.

(** ** The control lease *)

Inductive ControlOwner := KeithControl | UserControl | Paused.

#[export] Instance ControlOwner_eq_dec : EqDecision ControlOwner.
Proof. solve_decision. Defined.

Record ControlLease := MkLease {
  lease_id : ControlLeaseId;
  computer_session_id : ComputerSessionId;
  lease_profile_id : ProfileId;
  owner : ControlOwner;
  holder : option ExternalPrincipalId;
  revision : Z;
  issued_at : UtcTimestamp;
  expires_at : UtcTimestamp
}.

#[export] Instance ControlLease_eq_dec : EqDecision ControlLease.
Proof. solve_decision. Defined.

Definition is_paused (owner : ControlOwner) : bool := match owner with Paused => true | _ => false end.

Definition lease_validate (self : ControlLease) : result ContractError unit :=
  let holder_required := negb (is_paused (owner self)) in
  if (rleb (expires_at self) (issued_at self)
      || negb (Bool.eqb holder_required (bool_decide (is_Some (holder self)))))%bool
  then Err InvalidControlLease else Ok tt.

Definition can_inject (self : ControlLease) (principal : ExternalPrincipalId) (now : UtcTimestamp) : bool :=
  (rltb now (expires_at self) && negb (is_paused (owner self))
   && bool_decide (holder self = Some principal))%bool.

Definition lease_reconcile_after_restart (self : ControlLease) (now : UtcTimestamp) : option ControlLease :=
  if rltb now (expires_at self) then Some self else None.

(** [id] is the identifier [ControlLeaseId::new] draws. *)
Definition lease_transfer (id : ControlLeaseId) (self : ControlLease) (expected_revision : Z)
    (owner : ControlOwner) (holder : option ExternalPrincipalId) (issued_at expires_at : UtcTimestamp)
  : result ContractError ControlLease :=
  _ ← reject_if (negb (revision self =? expected_revision)%Z) StaleControlLease;
  next_revision ← ok_or (u64_checked_add (revision self) 1) RevisionExhausted;
  let next := MkLease id (computer_session_id self) (lease_profile_id self) owner holder
                next_revision issued_at expires_at in
  _ ← lease_validate next;
  Ok next.

(** ** Resource bounds *)

Record ResourceBounds := MkBounds {
  max_concurrency : Z;
  max_duration_ms : Z;
  max_cpu_time_ms : Z;
  max_retries : Z;
  max_input_bytes : Z;
  max_output_bytes : Z;
  max_memory_bytes : Z;
  max_disk_bytes : Z;
  max_events_per_minute : Z
}.

Definition bounds_validate (self : ResourceBounds) : result ContractError unit :=
  let valid :=
    ((0 <? max_concurrency self) && (0 <? max_duration_ms self) && (0 <? max_cpu_time_ms self)
     && (0 <? max_input_bytes self) && (0 <? max_output_bytes self) && (0 <? max_memory_bytes self)
     && (0 <? max_disk_bytes self) && (0 <? max_events_per_minute self))%Z%bool in
  if valid then Ok tt else Err InvalidResourceBounds.

(** ** Lemmas *)

Lemma authorizes_ok self action now :
  authorizes self action now = Ok tt <->
  boundary_profile_id self = action_profile_id action /\
  requested_capability action ∉ denied self /\
  (exists grant, grant ∈ allowed self /\ grants action now grant = true) /\
  ((rltb (max_automatic_risk self) (risk action) || is_consequential (risk action))%bool = true ->
   approval_authorize (approval action) action now = Ok tt).
Proof.
  assert (existsb (grants action now) (elements (allowed self)) = true <->
          exists grant, grant ∈ allowed self /\ grants action now grant = true) as Hany.
  { rewrite existsb_exists. split; intros (g & Hg & Hok); exists g; split; try done;
      [apply elem_of_elements, list_elem_of_In|apply list_elem_of_In, elem_of_elements]; done. }
  unfold authorizes, reject_if.
  destruct (bool_decide_reflect (boundary_profile_id self = action_profile_id action)); simpl; [|naive_solver].
  destruct (bool_decide_reflect (requested_capability action ∈ denied self)); simpl; [naive_solver|].
  destruct (existsb _ _) eqn:E; simpl; [|split; [done|intros (_ & _ & Hg & _); by apply Hany in Hg]].
  destruct (_ || _)%bool; naive_solver.
Qed.

Lemma approval_ok self action now :
  approval_authorize self action now = Ok tt <->
  approval_risk self = risk action /\
  match approval_state self with
  | NotRequired => is_consequential (risk action) = false
  | Granted _ _ digest expiry => rltb now expiry = true /\ digest = target_digest action
  | _ => False
  end.
Proof.
  unfold approval_authorize.
  destruct (bool_decide_reflect (approval_risk self = risk action)); simpl; [|naive_solver].
  destruct (approval_state self) as [| |? ? digest expiry|]; [| | |naive_solver].
  - destruct (is_consequential _); naive_solver.
  - naive_solver.
  - destruct (rltb now expiry), (bool_decide_reflect (digest = target_digest action)); naive_solver.
Qed.

Lemma intersect_ok self other both :
  intersect self other = Ok both ->
  boundary_profile_id self = boundary_profile_id other /\
  both = MkBoundary (boundary_profile_id self) (allowed self ∩ allowed other)
           (denied self ∪ denied other) (rmin (max_automatic_risk self) (max_automatic_risk other)).
Proof. unfold intersect. intros H. case_bool_decide; simpl in H; by simplify_eq. Qed.

Lemma windows2_any_sorted {A} (key : A -> Z) (xs : list A) :
  windows2_any (fun a b => key b <=? key a)%Z xs = false <-> StronglySorted Z.lt (key <$> xs).
Proof.
  assert (Transitive Z.lt) by (intros ???; lia).
  transitivity (Sorted Z.lt (key <$> xs)); [|split; [by apply Sorted_StronglySorted|apply StronglySorted_Sorted]].
  induction xs as [|x xs IH]; [split; [constructor|done]|].
  destruct xs as [|y xs]; [split; [repeat constructor|done]|].
  change ((key y <=? key x)%Z || windows2_any (fun a b => key b <=? key a)%Z (y :: xs) = false
          <-> Sorted Z.lt (key x :: (key <$> y :: xs)))%bool.
  rewrite orb_false_iff, IH, Z.leb_gt. split.
  - intros [Hlt Hs]. constructor; [done|]. by constructor.
  - intros Hs. apply Sorted_inv in Hs as [Hs Hh]. split; [|done]. by apply HdRel_inv in Hh.
Qed.

(** ** Claims *)

(** C33: the intersection of two boundaries is the least authority they share:
    it authorizes an action exactly when both boundaries authorize it and they
    share, expiry included, a grant that covers it. *)
Theorem intersect_least_authority self other both action now :
  intersect self other = Ok both ->
  authorizes both action now = Ok tt <->
  authorizes self action now = Ok tt /\ authorizes other action now = Ok tt /\
  exists grant, grant ∈ allowed self ∩ allowed other /\ grants action now grant = true.
Proof.
  intros (Hp & ->)%intersect_ok. rewrite !authorizes_ok. simpl. rewrite <-Hp, rltb_rmin, not_elem_of_union.
  destruct (rltb (max_automatic_risk self) _), (rltb (max_automatic_risk other) _),
    (is_consequential (risk action)); set_solver.
Qed.

(** A boundary lets a consequential action through only with an explicit
    approval that is unexpired and bound to the action's own risk and target
    digest, under an unexpired grant of exactly that capability on exactly that
    target, and never for a denied capability or another profile. *)
Theorem consequential_needs_approval self action now :
  authorizes self action now = Ok tt -> is_consequential (risk action) = true ->
  (exists id principal expiry,
    approval action =
      MkApproval (risk action) (Granted id principal (target_digest action) expiry) /\
    (unix_millis now < unix_millis expiry)%Z) /\
  (exists until,
    MkGrant (requested_capability action) (target action) until ∈ allowed self /\
    (forall expiry, until = Some expiry -> unix_millis now < unix_millis expiry)%Z) /\
  requested_capability action ∉ denied self /\
  boundary_profile_id self = action_profile_id action.
Proof.
  intros (Hp & Hd & (g & Hg & Hok) & Ha)%authorizes_ok Hc. split_and!; [| |done..].
  - rewrite Hc, orb_true_r in Ha. specialize (Ha eq_refl). apply approval_ok in Ha as [Hr Hs].
    destruct (approval action) as [r [| |id principal digest expiry|]]; simpl in *; [congruence|done| |done].
    destruct Hs as [Hlt ->]. apply rltb_lt in Hlt. exists id, principal, expiry.
    split; [by rewrite Hr|]. exact Hlt.
  - unfold grants, is_active_at in Hok. bool_inv. destruct g as [cap res until]; simpl in *. subst.
    exists until. split; [done|]. intros expiry ->.
    match goal with H : rltb _ _ = true |- _ => apply rltb_lt in H; exact H end.
Qed.

(** A trace bundle is accepted exactly when it speaks this contract's major
    version, holds at most [MAX_TRACE_EVENTS] events in strictly increasing
    sequence, and is marked as redacted. *)
Theorem trace_bundle_valid bundle :
  bundle_validate bundle = Ok tt <->
  pv_major (contract_version bundle) = pv_major PLATFORM_CONTRACT_VERSION /\
  (Z.of_nat (length (events bundle)) <= MAX_TRACE_EVENTS)%Z /\
  StronglySorted Z.lt (trace_sequence <$> events bundle) /\
  redacted bundle = true.
Proof.
  rewrite <-windows2_any_sorted. unfold bundle_validate, negotiate_contract, common_minor, is_major_compatible_with.
  destruct (Z.eqb_spec (pv_major PLATFORM_CONTRACT_VERSION) (pv_major (contract_version bundle)));
    simpl; [|naive_solver].
  destruct (Z.ltb_spec MAX_TRACE_EVENTS (Z.of_nat (length (events bundle)))); simpl; [split; [done|lia]|].
  destruct (windows2_any _ _); simpl; [naive_solver|]. destruct (redacted bundle); naive_solver.
Qed.
