(* ===== verification/ScreenControl.v ===== *)
(** * Exclusive control of a computer: [crates/cua/src/control.rs]

    Screen sessions with one exclusive control lease each, stream tickets for
    observers, and the cancellation of Keith's input in flight when the user
    takes over.  The service runs in a world of a file system, a supply of
    identifiers and the shared cells of the cancellation tokens
    ([crates/cua/src/controller.rs]).  The JSON encoding, the URL parser and the
    digest are parameters. *)

From Stdlib Require Import ZArith Lia String.
From stdpp Require Import base decidable countable gmap sorting option list.
From S2P Require Import Prelude RustStd Sha2 AgentTypes Json FileSystem PlatformContracts.

Definition CONTROL_FILE : rstr := str "computer-control.json".
Definition CONTROL_VERSION : Z := 1.
Definition DEFAULT_LEASE_TTL_MS : Z := 5 * 60 * 1000.
Definition MAX_OBSERVERS : nat := 64.
Definition MAX_STREAM_TICKETS : nat := 128.

(** ** Data *)

Inductive ScreenConnectionState := Negotiating | Connected | Reconnecting | Closed.

#[export] Instance ScreenConnectionState_eq_dec : EqDecision ScreenConnectionState.
Proof. solve_decision. Defined.

Inductive ScreenQuality := Low | Balanced | High.

Record ScreenSession := MkScreen {
  screen_session_id : EntityId;
  screen_computer : ComputerSessionId;
  screen_profile_id : ProfileId;
  connection : ScreenConnectionState;
  quality : ScreenQuality;
  control : ControlLease;
  observers : gset ExternalPrincipalId;
  frame_sequence : Z;
  active_action : option RedactedText;
  intended_action : option RedactedText;
  recording : bool;
  screen_safe_error : option RedactedText;
  updated_at : UtcTimestamp
}.

Record ScreenStreamGrant := MkStreamGrant {
  grant_screen_session_id : EntityId;
  stream_path : rstr;
  stream_ticket : rstr;
  stream_expires_at : UtcTimestamp;
  read_only : bool
}.

Record StreamTicket := MkTicket {
  ticket_screen : EntityId;
  ticket_profile_id : ProfileId;
  ticket_observer_id : ExternalPrincipalId;
  ticket_origin : rstr;
  ticket_value_digest : list Z;
  ticket_expires_at : UtcTimestamp
}.

Record ControlState := MkControlState {
  version : Z;
  screens : gmap EntityId ScreenSession;
  computer_index : gmap ComputerSessionId EntityId;
  pending_keith : gmap EntityId ExternalPrincipalId
}.

Definition ControlState_default : ControlState := MkControlState CONTROL_VERSION ∅ ∅ ∅.

(** A token: its identity, and the cell its clones share. *)
Record CancellationToken := MkToken { token_id : option CancellationId; cell : nat }.

Record ComputerControlService := MkService {
  root : Path;
  state : ControlState;
  stream_tickets : gmap rstr StreamTicket;
  in_flight_keith_input : gmap EntityId (list CancellationToken)
}.

Inductive ControlError :=
| InvalidRoot
| InvalidState
| AlreadyExists
| NotFound
| ProfileDenied
| Capacity
| StreamDenied
| OriginDenied
| StaleLease
| InputDenied
| StreamDesynchronized
| FocusAmbiguous
| StaleFrame
| NoPendingRequest
| InvalidTime
| Contract (error : ContractError)
| Io (error : IoError)
| JsonFailure (error : JsonError).

(** ** Parameters *)

(** [serde_json] on [ControlState]: what is written is read back. *)
Class ControlCodec : Type := {
  to_vec_pretty : ControlState -> result JsonError (list Z);
  from_slice : list Z -> result JsonError ControlState;
  from_to_slice : forall s bytes, to_vec_pretty s = Ok bytes -> from_slice bytes = Ok s
}.

(** [url::Url], by the components the service asks for. *)
Record Url := MkUrl {
  scheme : rstr;
  username : rstr;
  password : option rstr;
  url_path : rstr;
  query : option rstr;
  fragment : option rstr;
  origin_ascii_serialization : rstr
}.

Class UrlLib : Type := { url_parse : rstr -> option Url }.

(** ** The world *)

Record ControlWorld := MkControlWorld {
  cw_fs : Fs;
  cw_drawn : nat;
  cancelled : gset nat
}.

Abbreviation world_m := (stateT ControlWorld ControlError).

Definition is_cancelled (self : CancellationToken) (w : ControlWorld) : bool :=
  bool_decide (cell self ∈ cancelled w).

Definition cancel (w : ControlWorld) (self : CancellationToken) : ControlWorld :=
  MkControlWorld (cw_fs w) (cw_drawn w) ({[cell self]} ∪ cancelled w).

Definition on_fs {A : Type} (m : fs_m A) : stateT ControlWorld IoError A :=
  fun w => let '(r, fs) := m (cw_fs w) in (r, MkControlWorld fs (cw_drawn w) (cancelled w)).

(** [?] on an I/O result. *)
Definition try_io {A : Type} (m : fs_m A) : world_m A :=
  fun w => let '(r, w') := on_fs m w in (map_err Io r, w').

(** The result as a value. *)
Definition attempt {W E F A : Type} (m : stateT W E A) : stateT W F (result E A) :=
  fun w => let '(r, w') := m w in (Ok r, w').

Record Running := MkRunning { service : ComputerControlService; world : ControlWorld }.

Abbreviation ctl_m := (stateT Running ControlError).

Definition on_world {A : Type} (m : world_m A) : ctl_m A :=
  fun r => let '(a, w) := m (world r) in (a, MkRunning (service r) w).

Definition set_state (s : ControlState) (r : Running) : Running :=
  let self := service r in
  MkRunning (MkService (root self) s (stream_tickets self) (in_flight_keith_input self)) (world r).

Definition set_tickets (t : gmap rstr StreamTicket) (r : Running) : Running :=
  let self := service r in
  MkRunning (MkService (root self) (state self) t (in_flight_keith_input self)) (world r).

Definition set_in_flight (f : gmap EntityId (list CancellationToken)) (r : Running) : Running :=
  let self := service r in
  MkRunning (MkService (root self) (state self) (stream_tickets self) f) (world r).

Definition set_screen (id : EntityId) (screen : ScreenSession) (s : ControlState) : ControlState :=
  MkControlState (version s) (<[id := screen]> (screens s)) (computer_index s) (pending_keith s).

Definition with_control (screen : ScreenSession) (lease : ControlLease) (now : UtcTimestamp) : ScreenSession :=
  MkScreen (screen_session_id screen) (screen_computer screen) (screen_profile_id screen) (connection screen)
    (quality screen) lease (observers screen) (frame_sequence screen) (active_action screen)
    (intended_action screen) (recording screen) (screen_safe_error screen) now.

Definition with_observer (screen : ScreenSession) (observer : ExternalPrincipalId) (now : UtcTimestamp)
  : ScreenSession :=
  MkScreen (screen_session_id screen) (screen_computer screen) (screen_profile_id screen) (connection screen)
    (quality screen) (control screen) ({[observer]} ∪ observers screen) (frame_sequence screen)
    (active_action screen) (intended_action screen) (recording screen) (screen_safe_error screen) now.

(** ** Helpers *)

Definition add_millis (now : UtcTimestamp) (millis : Z) : result ControlError UtcTimestamp :=
  ok_or (MkUtcTimestamp <$> i64_checked_add (unix_millis now) millis) InvalidTime.

Definition constant_time_eq (left right : list Z) : bool :=
  let difference := Z.lxor (Z.of_nat (length left)) (Z.of_nat (length right)) in
  let max_len := Nat.max (length left) (length right) in
  let difference :=
    fold_left (fun difference index =>
        Z.lor difference (Z.lxor (default 0%Z (left !! index)) (default 0%Z (right !! index))))
      (seq 0 max_len) difference in
  (difference =? 0)%Z.

Definition HEX : rstr := str "0123456789abcdef".

Definition encode_hex (bytes : list Z) : rstr :=
  bytes ≫= fun byte => [nth (Z.to_nat (Z.shiftr byte 4)) HEX 0%Z; nth (Z.to_nat (Z.land byte 15)) HEX 0%Z].

(** The checks of one screen in [validate_state]. *)
Definition validate_screen (state : ControlState) (id : EntityId) (screen : ScreenSession)
  : result ControlError unit :=
  _ ← map_err Contract (lease_validate (control screen));
  reject_if (negb (bool_decide (id = screen_session_id screen))
             || (MAX_OBSERVERS <? size (observers screen))%nat
             || negb (bool_decide (computer_index state !! screen_computer screen = Some id))
             || negb (bool_decide (computer_session_id (control screen) = screen_computer screen))
             || negb (bool_decide (lease_profile_id (control screen) = screen_profile_id screen)))%bool
    InvalidState.

Definition validate_state (state : ControlState) : result ControlError unit :=
  _ ← reject_if (negb (version state =? CONTROL_VERSION)%Z
                 || negb (size (screens state) =? size (computer_index state))%nat)%bool InvalidState;
  _ ← try_fold (fun _ '(id, screen) => validate_screen state id screen) tt (btree_iter (screens state));
  reject_if (existsb (fun screen_id => bool_decide (screens state !! screen_id = None))
               (btree_keys (pending_keith state))) InvalidState.

Definition validate_origin `{UrlLib} (value : rstr) : result ControlError unit :=
  _ ← reject_if ((2048 <? str_len value)%Z || existsb char_is_control value)%bool OriginDenied;
  url ← ok_or (url_parse value) OriginDenied;
  reject_if (negb (bool_decide (scheme url = str "http" \/ scheme url = str "https"))
             || negb (str_is_empty (username url))
             || bool_decide (is_Some (password url))
             || negb (bool_decide (url_path url = str "/"))
             || bool_decide (is_Some (query url))
             || bool_decide (is_Some (fragment url))
             || negb (bool_decide (origin_ascii_serialization url = value)))%bool OriginDenied.

Definition ticket_digest `{Sha256} (value : rstr) : rstr := encode_hex (sha256 (as_bytes value)).

(** [name.starts_with(".computer-control.json.") && name.ends_with(".tmp")] *)
Definition is_temporary (name : rstr) : bool :=
  (starts_with (str "." ++ CONTROL_FILE ++ str ".") name && ends_with (str ".tmp") name)%bool.

Definition discard_temporary_files (root : Path) : world_m unit :=
  names ← try_io (fs_read_dir root);
  try_for (fun name =>
      _ ← try_io fs_next_entry;
      if is_temporary name then try_io (fs_remove_file (path_join root name)) else mret tt) names.

(** [EntityId::new]: the identifiers of a run in the order they are drawn. *)
Section identifiers.
Context (new_id : nat -> EntityId).

Definition draw : world_m EntityId :=
  fun w => (Ok (new_id (cw_drawn w)), MkControlWorld (cw_fs w) (S (cw_drawn w)) (cancelled w)).

Definition paused_lease (computer : ComputerSessionId) (profile_id : ProfileId) (revision : Z)
    (now : UtcTimestamp) : world_m ControlLease :=
  id ← draw;
  expires_at ← lift (add_millis now DEFAULT_LEASE_TTL_MS);
  let lease := MkLease (MkTypedId id) computer profile_id Paused None revision now expires_at in
  _ ← lift (map_err Contract (lease_validate lease));
  mret lease.

Section service.
Context `{HC : ControlCodec, HU : UrlLib, HH : Sha256}.

Definition persist_state (root : Path) (state : ControlState) : world_m unit :=
  id ← draw;
  let temporary := path_join root (str "." ++ CONTROL_FILE ++ str "." ++ as_str id ++ str ".tmp") in
  result ← attempt (
    bytes ← lift (map_err JsonFailure (to_vec_pretty state));
    _ ← try_io (fs_write temporary bytes);
    _ ← try_io (fs_sync temporary);
    _ ← try_io (fs_rename temporary (path_join root CONTROL_FILE));
    try_io (fs_sync root));
  _ ← (if is_ok result then mret tt
       else _ ← attempt (F := ControlError) (try_io (fs_remove_file temporary)); mret tt);
  lift result.

(** ** Opening *)

(** The body of the loop of [open] over the screens. *)
Definition restart_screen (now : UtcTimestamp) (acc : gmap EntityId ScreenSession * bool)
    (entry : EntityId * ScreenSession) : world_m (gmap EntityId ScreenSession * bool) :=
  let '(screens, changed) := acc in
  let '(id, screen) := entry in
  if rleb (expires_at (control screen)) now then
    lease ← paused_lease (screen_computer screen) (screen_profile_id screen)
              (u64_saturating_add (revision (control screen)) 1) now;
    safe_error ← lift (map_err Contract (redacted_parse (str "control lease expired during restart")));
    let screen :=
      MkScreen (screen_session_id screen) (screen_computer screen) (screen_profile_id screen) Reconnecting
        (quality screen) lease (observers screen) (frame_sequence screen) (active_action screen)
        (intended_action screen) (recording screen) (Some safe_error) now in
    mret (<[id := screen]> screens, true)
  else mret (screens, changed).

Fixpoint restart_screens (now : UtcTimestamp) (acc : gmap EntityId ScreenSession * bool)
    (entries : list (EntityId * ScreenSession)) : world_m (gmap EntityId ScreenSession * bool) :=
  match entries with
  | [] => mret acc
  | entry :: entries => acc ← restart_screen now acc entry; restart_screens now acc entries
  end.

(** The first half of [open], up to the loop: the state found under [root]. *)
Definition read_state (root : Path) : world_m ControlState :=
  metadata ← attempt (on_fs (fs_symlink_metadata root));
  _ ← match metadata with
      | Ok EDir => mret tt
      | Ok _ => throw InvalidRoot
      | Err _ => try_io (fs_create_dir_all root)
      end;
  _ ← discard_temporary_files root;
  read ← attempt (on_fs (fs_read (path_join root CONTROL_FILE)));
  state ← match read with
          | Ok bytes => lift (map_err JsonFailure (from_slice bytes))
          | Err IoNotFound => mret ControlState_default
          | Err error => throw (Io error)
          end;
  _ ← lift (validate_state state);
  mret state.

Definition open (root : Path) (now : UtcTimestamp) : world_m ComputerControlService :=
  state ← read_state root;
  '(screens, changed) ← restart_screens now (screens state, false) (btree_iter (screens state));
  let state := MkControlState (version state) screens (computer_index state) (pending_keith state) in
  _ ← (if changed : bool then persist_state root state else mret tt);
  mret (MkService root state ∅ ∅).

(** ** Operations *)

Definition persist : ctl_m unit :=
  self ← gets service;
  _ ← lift (validate_state (state self));
  on_world (persist_state (root self) (state self)).

(** [if let Err(error) = self.persist() { self.state = previous; return Err(error); }] *)
Definition persist_or_restore (previous : ControlState) : ctl_m unit :=
  fun r =>
    match persist r with
    | (Ok _, r) => (Ok tt, r)
    | (Err error, r) => (Err error, set_state previous r)
    end.

Definition screen (self : ComputerControlService) (profile_id : ProfileId) (screen_id : EntityId)
  : result ControlError ScreenSession :=
  screen ← ok_or (screens (state self) !! screen_id) NotFound;
  _ ← reject_if (negb (bool_decide (screen_profile_id screen = profile_id))) ProfileDenied;
  Ok screen.

Definition create_screen (computer : ComputerSessionId) (profile_id : ProfileId)
    (keith_principal : ExternalPrincipalId) (now : UtcTimestamp) : ctl_m ScreenSession :=
  self ← gets service;
  _ ← lift (reject_if (bool_decide (is_Some (computer_index (state self) !! computer))) AlreadyExists);
  expires_at ← lift (add_millis now DEFAULT_LEASE_TTL_MS);
  lease_id ← on_world draw;
  let lease := MkLease (MkTypedId lease_id) computer profile_id KeithControl (Some keith_principal)
                 0 now expires_at in
  _ ← lift (map_err Contract (lease_validate lease));
  id ← on_world draw;
  let screen := MkScreen id computer profile_id Negotiating Balanced lease ∅ 0 None None false None now in
  let previous := state self in
  _ ← modify (set_state (MkControlState (version previous) (<[id := screen]> (screens previous))
                (<[computer := id]> (computer_index previous)) (pending_keith previous)));
  _ ← persist_or_restore previous;
  mret screen.

Definition expire_tickets (now : UtcTimestamp) : ctl_m unit :=
  modify (fun r =>
    set_tickets (filter (fun '(_, ticket) => rltb now (ticket_expires_at ticket) = true)
                   (stream_tickets (service r))) r).

Definition negotiate_stream (profile_id : ProfileId) (screen_id : EntityId)
    (observer_id : ExternalPrincipalId) (origin : rstr) (now : UtcTimestamp) (ttl_ms : Z)
  : ctl_m ScreenStreamGrant :=
  _ ← expire_tickets now;
  _ ← lift (validate_origin origin);
  self ← gets service;
  _ ← lift (reject_if (MAX_STREAM_TICKETS <=? size (stream_tickets self))%nat Capacity);
  ttl ← lift (ok_or (i64_try_from ttl_ms) InvalidTime);
  _ ← lift (reject_if (negb ((1000 <=? ttl) && (ttl <=? 60000)))%Z%bool InvalidTime);
  let previous := state self in
  screen ← lift (screen self profile_id screen_id);
  _ ← lift (reject_if ((MAX_OBSERVERS <=? size (observers screen))%nat
                       && negb (bool_decide (observer_id ∈ observers screen)))%bool Capacity);
  _ ← modify (set_state (set_screen screen_id (with_observer screen observer_id now) previous));
  ticket ← on_world draw;
  let raw_ticket := as_str ticket in
  let ticket_key := ticket_digest raw_ticket in
  let digest := sha256 (as_bytes raw_ticket) in
  expires_at ← lift (add_millis now ttl);
  let grant := MkStreamGrant screen_id (str "/api/computers/" ++ as_str screen_id ++ str "/screen")
                 raw_ticket expires_at true in
  _ ← persist_or_restore previous;
  _ ← modify (fun r =>
        set_tickets (<[ticket_key := MkTicket screen_id profile_id observer_id origin digest expires_at]>
                       (stream_tickets (service r))) r);
  mret grant.

Definition consume_stream_ticket (profile_id : ProfileId) (observer_id : ExternalPrincipalId)
    (origin raw_ticket : rstr) (now : UtcTimestamp) : ctl_m EntityId :=
  _ ← lift (validate_origin origin);
  let key := ticket_digest raw_ticket in
  self ← gets service;
  ticket ← lift (ok_or (stream_tickets self !! key) StreamDenied);
  _ ← modify (set_tickets (delete key (stream_tickets self)));
  let presented := sha256 (as_bytes raw_ticket) in
  _ ← lift (reject_if
        (rleb (ticket_expires_at ticket) now
         || negb (bool_decide (ticket_profile_id ticket = profile_id))
         || negb (bool_decide (ticket_observer_id ticket = observer_id))
         || negb (bool_decide (ticket_origin ticket = origin))
         || negb (constant_time_eq (ticket_value_digest ticket) presented))%bool StreamDenied);
  mret (ticket_screen ticket).

Definition authorize_input (self : ComputerControlService) (profile_id : ProfileId) (screen_id : EntityId)
    (expected_revision : Z) (principal : ExternalPrincipalId)
    (focus_unambiguous stream_synchronized : bool) (now : UtcTimestamp) : result ControlError unit :=
  screen ← screen self profile_id screen_id;
  _ ← reject_if (negb (revision (control screen) =? expected_revision)%Z) StaleLease;
  _ ← reject_if (negb focus_unambiguous) FocusAmbiguous;
  _ ← reject_if (negb stream_synchronized || negb (bool_decide (connection screen = Connected)))%bool
        StreamDesynchronized;
  reject_if (negb (can_inject (control screen) principal now)) InputDenied.

Definition register_keith_input (profile_id : ProfileId) (screen_id : EntityId) (expected_revision : Z)
    (keith_principal : ExternalPrincipalId) (token : CancellationToken) (now : UtcTimestamp) : ctl_m unit :=
  self ← gets service;
  _ ← lift (authorize_input self profile_id screen_id expected_revision keith_principal true true now);
  screen ← lift (screen self profile_id screen_id);
  _ ← lift (reject_if (negb (bool_decide (owner (control screen) = KeithControl))) InputDenied);
  let tokens := default [] (in_flight_keith_input self !! screen_id) in
  modify (set_in_flight (<[screen_id := tokens ++ [token]]> (in_flight_keith_input self))).

Definition finish_keith_input (profile_id : ProfileId) (screen_id : EntityId)
    (cancellation_id : CancellationId) : ctl_m unit :=
  self ← gets service;
  _ ← lift (screen self profile_id screen_id);
  match in_flight_keith_input self !! screen_id with
  | None => mret tt
  | Some tokens =>
      match filter (fun token => token_id token <> Some cancellation_id) tokens with
      | [] => modify (set_in_flight (delete screen_id (in_flight_keith_input self)))
      | rest => modify (set_in_flight (<[screen_id := rest]> (in_flight_keith_input self)))
      end
  end.

(** [if let Some(tokens) = self.in_flight_keith_input.remove(screen_id) { for token in tokens { token.cancel() } }] *)
Definition cancel_in_flight (screen_id : EntityId) : ctl_m unit :=
  modify (fun r =>
    let f := in_flight_keith_input (service r) in
    match f !! screen_id with
    | None => r
    | Some tokens =>
        let r := set_in_flight (delete screen_id f) r in
        MkRunning (service r) (fold_left cancel tokens (world r))
    end).

Definition validate_transfer (self : ComputerControlService) (profile_id : ProfileId) (screen_id : EntityId)
    (expected_revision : Z) : result ControlError unit :=
  screen ← screen self profile_id screen_id;
  reject_if (negb (revision (control screen) =? expected_revision)%Z) StaleLease.

(** A lease identifier is drawn for each transfer, used or not. *)
Definition transfer (profile_id : ProfileId) (screen_id : EntityId) (expected_revision : Z)
    (owner : ControlOwner) (holder : option ExternalPrincipalId) (now : UtcTimestamp) : ctl_m ScreenSession :=
  self ← gets service;
  _ ← lift (validate_transfer self profile_id screen_id expected_revision);
  let previous := state self in
  screen ← lift (screen self profile_id screen_id);
  expires_at ← lift (add_millis now DEFAULT_LEASE_TTL_MS);
  id ← on_world draw;
  lease ← lift (map_err Contract
            (lease_transfer (MkTypedId id) (control screen) expected_revision owner holder now expires_at));
  let result := with_control screen lease now in
  let changed := set_screen screen_id result previous in
  _ ← modify (set_state (MkControlState (version changed) (screens changed) (computer_index changed)
                (delete screen_id (pending_keith changed))));
  _ ← persist_or_restore previous;
  mret result.

Definition take_user_control (profile_id : ProfileId) (screen_id : EntityId) (expected_revision : Z)
    (user_principal : ExternalPrincipalId) (now : UtcTimestamp) : ctl_m ScreenSession :=
  self ← gets service;
  _ ← lift (validate_transfer self profile_id screen_id expected_revision);
  screen ← transfer profile_id screen_id expected_revision UserControl (Some user_principal) now;
  _ ← cancel_in_flight screen_id;
  mret screen.

Definition request_keith_control (profile_id : ProfileId) (screen_id : EntityId)
    (keith_principal : ExternalPrincipalId) : ctl_m unit :=
  self ← gets service;
  _ ← lift (screen self profile_id screen_id);
  let previous := state self in
  _ ← modify (set_state (MkControlState (version previous) (screens previous) (computer_index previous)
                (<[screen_id := keith_principal]> (pending_keith previous))));
  persist_or_restore previous.

Definition grant_keith_control (profile_id : ProfileId) (screen_id : EntityId) (expected_revision : Z)
    (now : UtcTimestamp) : ctl_m ScreenSession :=
  self ← gets service;
  principal ← lift (ok_or (pending_keith (state self) !! screen_id) NoPendingRequest);
  transfer profile_id screen_id expected_revision KeithControl (Some principal) now.

Definition pause (profile_id : ProfileId) (screen_id : EntityId) (expected_revision : Z)
    (now : UtcTimestamp) : ctl_m ScreenSession :=
  self ← gets service;
  _ ← lift (validate_transfer self profile_id screen_id expected_revision);
  screen ← transfer profile_id screen_id expected_revision Paused None now;
  _ ← cancel_in_flight screen_id;
  mret screen.

(** The body of the first loop of [delete_profile]. *)
Definition remove_screen (s : ControlState) (screen_id : EntityId) : ControlState :=
  let index :=
    match screens s !! screen_id with
    | Some screen => delete (screen_computer screen) (computer_index s)
    | None => computer_index s
    end in
  MkControlState (version s) (delete screen_id (screens s)) index (delete screen_id (pending_keith s)).

Definition profile_screens (s : ControlState) (profile_id : ProfileId) : list EntityId :=
  (filter (fun '(_, screen) => screen_profile_id screen = profile_id) (btree_iter (screens s))).*1.

Definition delete_profile (profile_id : ProfileId) : ctl_m nat :=
  self ← gets service;
  let removed := profile_screens (state self) profile_id in
  match removed with
  | [] => mret 0
  | _ =>
      let previous := state self in
      _ ← modify (set_state (fold_left remove_screen removed previous));
      _ ← persist_or_restore previous;
      _ ← modify (fun r =>
            set_tickets (filter (fun '(_, ticket) => ticket_profile_id ticket <> profile_id)
                           (stream_tickets (service r))) r);
      _ ← try_for cancel_in_flight removed;
      mret (length removed)
  end.

Definition update_screen (profile_id : ProfileId) (screen_id : EntityId)
    (new_connection : ScreenConnectionState) (new_quality : ScreenQuality) (sequence : Z)
    (active intended : option RedactedText) (new_recording : bool) (error : option RedactedText)
    (now : UtcTimestamp) : ctl_m ScreenSession :=
  self ← gets service;
  let previous := state self in
  screen ← lift (screen self profile_id screen_id);
  _ ← lift (reject_if (sequence <? frame_sequence screen)%Z StaleFrame);
  let result :=
    MkScreen (screen_session_id screen) (screen_computer screen) (screen_profile_id screen) new_connection
      new_quality (control screen) (observers screen) sequence active intended new_recording error now in
  _ ← modify (set_state (set_screen screen_id result previous));
  _ ← persist_or_restore previous;
  mret result.
End service.
End identifiers.
