(* ===== verification/ScreenMachine.v ===== *)
(** * The abstract machine of computer control

    What the operations of [ComputerControlService] may do to the screens, the
    stream tickets, Keith's input in flight and the cancelled tokens, as a step
    relation without files, errors or identifiers.  The invariant of the service,
    the fencing of leases and the fate of Keith's input are shown of the machine
    by induction on its steps; ScreenRefinement.v shows that the service
    refines it. *)

From Stdlib Require Import ZArith Lia String.
From stdpp Require Import base decidable countable relations gmap sorting option list.
From S2P Require Import Prelude RustStd Sha2 AgentTypes Json FileSystem PlatformContracts ScreenControl.

Record Machine := MkMachine {
  m_state : ControlState;
  m_tickets : gmap rstr StreamTicket;
  m_in_flight : gmap EntityId (list CancellationToken);
  m_cancelled : gset nat
}.

(** What an operation asks for that can end Keith's input or remove a screen. *)
Inductive Label :=
| Finishes (screen_id : EntityId) (id : CancellationId)
| Deletes (profile_id : ProfileId)
| Other.

Definition valid (s : ControlState) : Prop := validate_state s = Ok tt.

Definition cells (tokens : list CancellationToken) : gset nat := list_to_set (cell <$> tokens).

(** The tokens in flight on the screens [ids]. *)
Definition in_flight_on (f : gmap EntityId (list CancellationToken)) (ids : list EntityId)
  : list CancellationToken :=
  ids ≫= fun id => default [] (f !! id).

Inductive step (l : Label) (a : Machine) : Machine -> Prop :=
| step_tickets tickets :
    tickets ⊆ m_tickets a ->
    step l a (MkMachine (m_state a) tickets (m_in_flight a) (m_cancelled a))
| step_issue key ticket screen :
    screens (m_state a) !! ticket_screen ticket = Some screen ->
    screen_profile_id screen = ticket_profile_id ticket ->
    size (m_tickets a) < MAX_STREAM_TICKETS ->
    step l a (MkMachine (m_state a) (<[key := ticket]> (m_tickets a)) (m_in_flight a) (m_cancelled a))
| step_create s id screen :
    screens (m_state a) !! id = None ->
    s = MkControlState (version (m_state a)) (<[id := screen]> (screens (m_state a)))
          (<[screen_computer screen := id]> (computer_index (m_state a))) (pending_keith (m_state a)) ->
    owner (control screen) = KeithControl -> revision (control screen) = 0%Z ->
    valid s ->
    step l a (MkMachine s (m_tickets a) (m_in_flight a) (m_cancelled a))
| step_observe id screen observer now :
    screens (m_state a) !! id = Some screen ->
    size (observers (with_observer screen observer now)) <= MAX_OBSERVERS ->
    step l a (MkMachine (set_screen id (with_observer screen observer now) (m_state a))
                (m_tickets a) (m_in_flight a) (m_cancelled a))
| step_update s id screen screen' :
    screens (m_state a) !! id = Some screen ->
    s = set_screen id screen' (m_state a) ->
    screen_profile_id screen' = screen_profile_id screen ->
    screen_computer screen' = screen_computer screen ->
    control screen' = control screen -> (frame_sequence screen <= frame_sequence screen')%Z ->
    valid s ->
    step l a (MkMachine s (m_tickets a) (m_in_flight a) (m_cancelled a))
| step_request s id keith :
    s = MkControlState (version (m_state a)) (screens (m_state a)) (computer_index (m_state a))
          (<[id := keith]> (pending_keith (m_state a))) ->
    valid s ->
    step l a (MkMachine s (m_tickets a) (m_in_flight a) (m_cancelled a))
| step_grant s id screen lease now :
    screens (m_state a) !! id = Some screen ->
    s = MkControlState (version (m_state a)) (<[id := with_control screen lease now]> (screens (m_state a)))
          (computer_index (m_state a)) (delete id (pending_keith (m_state a))) ->
    owner lease = KeithControl -> revision lease = (revision (control screen) + 1)%Z ->
    valid s ->
    step l a (MkMachine s (m_tickets a) (m_in_flight a) (m_cancelled a))
| step_revoke s id screen lease now :
    screens (m_state a) !! id = Some screen ->
    s = MkControlState (version (m_state a)) (<[id := with_control screen lease now]> (screens (m_state a)))
          (computer_index (m_state a)) (delete id (pending_keith (m_state a))) ->
    owner lease <> KeithControl -> revision lease = (revision (control screen) + 1)%Z ->
    valid s ->
    step l a (MkMachine s (m_tickets a) (delete id (m_in_flight a))
                (cells (in_flight_on (m_in_flight a) [id]) ∪ m_cancelled a))
| step_register id screen token :
    screens (m_state a) !! id = Some screen -> owner (control screen) = KeithControl ->
    step l a (MkMachine (m_state a) (m_tickets a)
                (<[id := default [] (m_in_flight a !! id) ++ [token]]> (m_in_flight a)) (m_cancelled a))
| step_finish id c f :
    l = Finishes id c ->
    (forall id', id' <> id -> f !! id' = m_in_flight a !! id') ->
    default [] (f !! id) = filter (fun t => token_id t <> Some c) (default [] (m_in_flight a !! id)) ->
    is_Some (m_in_flight a !! id) ->
    step l a (MkMachine (m_state a) (m_tickets a) f (m_cancelled a))
| step_delete s p ids :
    l = Deletes p ->
    (forall id, id ∈ ids <-> exists screen, screens (m_state a) !! id = Some screen /\ screen_profile_id screen = p) ->
    s = fold_left remove_screen ids (m_state a) ->
    valid s ->
    step l a (MkMachine s (filter (fun '(_, t) => ticket_profile_id t <> p) (m_tickets a))
                (filter (fun '(id, _) => id ∉ ids) (m_in_flight a))
                (cells (in_flight_on (m_in_flight a) ids) ∪ m_cancelled a)).

(** A sequence of operations, each a few steps under its label. *)
Inductive runs : list Label -> Machine -> Machine -> Prop :=
| runs_nil a : runs [] a a
| runs_cons l ls a b c : rtc (step l) a b -> runs ls b c -> runs (l :: ls) a c.

Record machine_inv (a : Machine) : Prop := {
  inv_valid : valid (m_state a);
  inv_tickets : forall key t, m_tickets a !! key = Some t ->
    exists screen, screens (m_state a) !! ticket_screen t = Some screen /\
      screen_profile_id screen = ticket_profile_id t;
  inv_capacity : size (m_tickets a) <= MAX_STREAM_TICKETS;
  inv_in_flight : forall id tokens, m_in_flight a !! id = Some tokens ->
    exists screen, screens (m_state a) !! id = Some screen /\ owner (control screen) = KeithControl
}.

(** ** The screens of a valid state *)

Record screen_ok (s : ControlState) (id : EntityId) (screen : ScreenSession) : Prop := {
  ok_lease : lease_validate (control screen) = Ok tt;
  ok_id : id = screen_session_id screen;
  ok_observers : size (observers screen) <= MAX_OBSERVERS;
  ok_index : computer_index s !! screen_computer screen = Some id;
  ok_computer : computer_session_id (control screen) = screen_computer screen;
  ok_profile : lease_profile_id (control screen) = screen_profile_id screen
}.

Lemma validate_screen_ok s id screen : validate_screen s id screen = Ok tt <-> screen_ok s id screen.
Proof.
  unfold validate_screen. split.
  - intros H. res_inv. bool_inv. destruct_all unit. by constructor.
  - intros [HL Hid Ho Hi Hc Hp]. rewrite HL. cbn [mbind result_bind map_err]. unfold reject_if.
    rewrite !bool_decide_true by done. assert ((MAX_OBSERVERS <? size (observers screen)) = false) as ->.
    { by apply Nat.ltb_ge. } done.
Qed.

Record state_ok (s : ControlState) : Prop := {
  ok_version : version s = CONTROL_VERSION;
  ok_size : size (screens s) = size (computer_index s);
  ok_screens : forall id screen, screens s !! id = Some screen -> screen_ok s id screen;
  ok_pending : forall id, is_Some (pending_keith s !! id) -> is_Some (screens s !! id)
}.

Lemma valid_ok s : valid s <-> state_ok s.
Proof.
  unfold valid, validate_state. rewrite !units_ok, !reject_if_ok.
  rewrite (try_fold_units (fun '(id, screen) => validate_screen s id screen)), list.Forall_forall.
  rewrite orb_false_iff, !negb_false_iff, Z.eqb_eq, Nat.eqb_eq.
  split.
  - intros ([Hv Hs] & Hsc & Hp). constructor; [done..| |].
    + intros id screen Hl. apply validate_screen_ok, (Hsc (id, screen)), elem_of_btree_iter, Hl.
    + intros id Hid. destruct (screens s !! id) eqn:E; [done|].
      rewrite <-not_true_iff_false, existsb_exists in Hp. destruct Hp.
      exists id. split; [by apply list_elem_of_In, elem_of_btree_keys|by apply bool_decide_eq_true].
  - intros [Hv Hs Hsc Hp]. split_and!; [done..| |].
    + intros [id screen] Hin%elem_of_btree_iter. by apply validate_screen_ok, Hsc.
    + rewrite <-not_true_iff_false, existsb_exists. intros (id & Hin & Hn).
      apply list_elem_of_In, elem_of_btree_keys, Hp in Hin as [screen Hl].
      apply bool_decide_eq_true in Hn. congruence.
Qed.

Ltac machine := cbn [m_state m_tickets m_in_flight m_cancelled screens computer_index pending_keith version] in *.

(** ** The fate of Keith's input *)

Definition tracked (id : EntityId) (t : CancellationToken) (a : Machine) : Prop :=
  t ∈ default [] (m_in_flight a !! id).

Lemma elem_of_cells t tokens : t ∈ tokens -> cell t ∈ cells tokens.
Proof. intros Ht. apply elem_of_list_to_set, list_elem_of_fmap. by exists t. Qed.

Lemma elem_of_in_flight_on t f ids : t ∈ in_flight_on f ids <-> exists id, id ∈ ids /\ t ∈ default [] (f !! id).
Proof. unfold in_flight_on. rewrite list_elem_of_bind. naive_solver. Qed.

Lemma elem_of_cells_on n f ids :
  n ∈ cells (in_flight_on f ids) <-> exists id t, id ∈ ids /\ t ∈ default [] (f !! id) /\ cell t = n.
Proof.
  unfold cells. rewrite elem_of_list_to_set, list_elem_of_fmap. setoid_rewrite elem_of_in_flight_on. naive_solver.
Qed.

Lemma step_cancelled l a b : step l a b -> m_cancelled a ⊆ m_cancelled b.
Proof. destruct 1; machine; set_solver. Qed.

(** An input in flight stays in flight or is cancelled, unless it is finished. *)
Lemma step_token l a b id t :
  step l a b -> tracked id t a -> (forall c, token_id t = Some c -> l <> Finishes id c) ->
  tracked id t b \/ cell t ∈ m_cancelled b.
Proof.
  unfold tracked. intros Hs Ht Hl. destruct Hs; machine; try (by left).
  - destruct (decide (id0 = id)) as [->|Hne].
    + right. apply elem_of_union_l, elem_of_cells, elem_of_in_flight_on. exists id. set_solver.
    + left. by rewrite lookup_delete_ne.
  - left. destruct (decide (id0 = id)) as [->|Hne].
    + rewrite lookup_insert_eq. simpl. apply elem_of_app. by left.
    + by rewrite lookup_insert_ne.
  - left. destruct (decide (id = id0)) as [->|Hne]; [|by rewrite H0].
    rewrite H1. apply list_elem_of_filter. split; [|done]. intros Hc. by apply (Hl c).
  - destruct (decide (id ∈ ids)) as [Hin|Hout].
    + right. apply elem_of_union_l, elem_of_cells, elem_of_in_flight_on. by exists id.
    + left. destruct (m_in_flight a !! id) as [tokens|] eqn:E; [|by apply not_elem_of_nil in Ht].
      by erewrite (map_lookup_filter_Some_2 _ _ _ tokens).
Qed.

(** ** Leases *)

(** What a step keeps of a screen: its computer and profile; the lease revision
    and the frame sequence never go back, and a revision names one lease. *)
Record fenced (a b : ScreenSession) : Prop := {
  fenced_profile : screen_profile_id b = screen_profile_id a;
  fenced_computer : screen_computer b = screen_computer a;
  fenced_revision : (revision (control a) <= revision (control b))%Z;
  fenced_lease : revision (control a) = revision (control b) -> control b = control a;
  fenced_frame : (frame_sequence a <= frame_sequence b)%Z
}.

#[export] Instance fenced_preorder : PreOrder fenced.
Proof.
  split; [by constructor|]. intros a b c [] []. constructor; try congruence; try lia.
  intros. transitivity (control b); [|]; auto with lia.
Qed.

Lemma remove_screens s ids id :
  screens (fold_left remove_screen ids s) !! id = (if decide (id ∈ ids) then None else screens s !! id).
Proof.
  revert s. induction ids as [|i ids IH]; intros s; simpl; [done|]. rewrite IH. simpl.
  destruct (decide (id ∈ ids)), (decide (id ∈ i :: ids)) as [Hin|Hin]; try done; [set_solver| |].
  - apply elem_of_cons in Hin as [->|]; [apply lookup_delete_eq|done].
  - apply lookup_delete_ne. set_solver.
Qed.

Definition kept (R : relation ScreenSession) (m m' : gmap EntityId ScreenSession) : Prop :=
  forall i x, m !! i = Some x -> exists y, m' !! i = Some y /\ R x y.

Lemma kept_refl R `{!Reflexive R} m : kept R m m.
Proof. intros i x Hx. by exists x. Qed.

Lemma kept_insert R `{!Reflexive R} m id x :
  (forall y, m !! id = Some y -> R y x) -> kept R m (<[id := x]> m).
Proof.
  intros Hx i y Hi. destruct (decide (id = i)) as [->|Hne].
  - exists x. rewrite lookup_insert_eq. split; [done|]. by apply Hx.
  - exists y. by rewrite lookup_insert_ne.
Qed.

Lemma step_fenced l a b id screen :
  step l a b -> screens (m_state a) !! id = Some screen -> l <> Deletes (screen_profile_id screen) ->
  exists screen', screens (m_state b) !! id = Some screen' /\ fenced screen screen'.
Proof.
  intros Hs Hid Hl. destruct Hs; subst; machine; try (by exists screen).
  1-5: revert Hid; apply kept_insert; [apply _|]; intros y Hy; simplify_eq; try (by constructor);
    constructor; simpl; try done; try lia;
    match goal with H : control _ = control _ |- _ => rewrite H; lia || done end.
  exists screen. rewrite remove_screens, decide_False; [done|].
  intros (screen' & Hin & <-)%H0. congruence.
Qed.

(** ** The invariant *)

Lemma observed_valid s id screen observer now :
  valid s -> screens s !! id = Some screen ->
  size (observers (with_observer screen observer now)) <= MAX_OBSERVERS ->
  valid (set_screen id (with_observer screen observer now) s).
Proof.
  rewrite !valid_ok. intros [Hv Hs Hsc Hp] Hid Hsize. constructor; simpl; [done| | |].
  - by rewrite map_size_insert_Some by done.
  - intros i x [[<- <-]|[Hne Hx]]%lookup_insert_Some; [|by destruct (Hsc _ _ Hx); constructor].
    destruct (Hsc _ _ Hid). by constructor.
  - intros i [x Hx]%Hp. apply lookup_insert_is_Some'. by right.
Qed.

(** The parts of the invariant that look at the screens, for other screens. *)
Lemma inv_screens s s' tickets f c :
  (forall key t, tickets !! key = Some t ->
    kept (fun x y => screen_profile_id y = screen_profile_id x) (screens s) (screens s')) ->
  (forall i x, is_Some (f !! i) -> screens s !! i = Some x -> owner (control x) = KeithControl ->
    exists y, screens s' !! i = Some y /\ owner (control y) = KeithControl) ->
  valid s' -> machine_inv (MkMachine s tickets f c) -> machine_inv (MkMachine s' tickets f c).
Proof.
  intros Hp Ho Hv [_ Ht Hc Hf]. constructor; machine; [done| |done|].
  - intros key t Hk. destruct (Ht _ _ Hk) as (x & Hx & Hxp). eapply Hp in Hx as (y & Hy & Hyp); [|done].
    exists y. split; [done|congruence].
  - intros id tokens Hid. destruct (Hf _ _ Hid) as (x & Hx & Hxo). eauto.
Qed.

Lemma inv_insert s s' id x tickets f c :
  screens s' = <[id := x]> (screens s) ->
  (forall y, screens s !! id = Some y -> screen_profile_id x = screen_profile_id y) ->
  (forall y, is_Some (f !! id) -> screens s !! id = Some y -> owner (control y) = KeithControl ->
    owner (control x) = KeithControl) ->
  valid s' -> machine_inv (MkMachine s tickets f c) -> machine_inv (MkMachine s' tickets f c).
Proof.
  intros Hs Hp Ho Hv. apply inv_screens; [| |done]; rewrite Hs.
  - intros _ _ _. apply kept_insert; [intros z; done|]. by apply Hp.
  - intros i y Hi Hy Hk. destruct (decide (id = i)) as [->|Hne].
    + exists x. rewrite lookup_insert_eq. eauto.
    + exists y. by rewrite lookup_insert_ne.
Qed.

Lemma inv_subset s tickets tickets' f f' c c' :
  tickets' ⊆ tickets -> (forall id, is_Some (f' !! id) -> is_Some (f !! id)) ->
  machine_inv (MkMachine s tickets f c) -> machine_inv (MkMachine s tickets' f' c').
Proof.
  intros Ht' Hf' [Hv Ht Hc Hf]. constructor; machine; [done| | |].
  - intros key t Hk. eapply Ht, lookup_weaken; eauto.
  - etrans; [by apply map_subseteq_size|done].
  - intros id tokens Hid. destruct (Hf' id) as [x Hx]; [by rewrite Hid|]. eauto.
Qed.

Lemma deleted_inv s ids p tickets f c :
  (forall id, id ∈ ids <-> exists screen, screens s !! id = Some screen /\ screen_profile_id screen = p) ->
  valid (fold_left remove_screen ids s) -> machine_inv (MkMachine s tickets f c) ->
  machine_inv (MkMachine (fold_left remove_screen ids s) (filter (fun '(_, t) => ticket_profile_id t <> p) tickets)
                 (filter (fun '(id, _) => id ∉ ids) f) c).
Proof.
  intros Hids Hv [_ Ht Hc Hf]. constructor; machine; [done| | |].
  - intros key t [Hk Hp]%map_lookup_filter_Some. destruct (Ht _ _ Hk) as (x & Hx & Hxp).
    exists x. rewrite remove_screens, decide_False; [done|]. intros (y & Hy & <-)%Hids. congruence.
  - etrans; [apply map_subseteq_size, map_filter_subseteq|done].
  - intros id tokens [Hid Hout]%map_lookup_filter_Some. destruct (Hf _ _ Hid) as (x & Hx & Hxo).
    exists x. by rewrite remove_screens, decide_False.
Qed.

Lemma step_inv l a b : machine_inv a -> step l a b -> machine_inv b.
Proof.
  intros Hinv Hs. destruct a as [s0 tickets0 f0 c0], Hs; machine.
  - revert Hinv. by apply inv_subset.
  - destruct Hinv as [Hv Ht Hc Hf]. constructor; machine; try done.
    + intros k t [[<- <-]|[_ Hk]]%lookup_insert_Some; eauto.
    + rewrite map_size_insert. case_match; unfold id; lia.
  - revert Hinv. subst s. eapply inv_insert; machine; [done|congruence..|done].
  - pose proof (inv_valid _ Hinv) as Hv. revert Hinv.
    eapply inv_insert; machine; [done|..|by apply observed_valid]; intros; by simplify_eq.
  - revert Hinv. subst s. eapply inv_insert; machine; [done|..|done]; intros; simplify_eq; congruence.
  - revert Hinv. subst s. apply inv_screens; machine; [|eauto|done]. intros _ _ _ i x Hx. eauto.
  - revert Hinv. subst s. eapply inv_insert; machine; [done|..|done]; intros; by simplify_eq.
  - eapply (inv_subset _ tickets0 _ f0 (delete id f0)) in Hinv; [|done|].
    + revert Hinv. subst s. eapply inv_insert; machine; [done|by intros; simplify_eq| |done].
      intros y [? Hd]. by rewrite lookup_delete_eq in Hd.
    + intros i [x Hx]. apply lookup_delete_Some in Hx as [_ Hx]. eauto.
  - destruct Hinv as [Hv Ht Hc Hf]. constructor; machine; try done.
    intros i tokens [[<- <-]|[_ Hk]]%lookup_insert_Some; eauto.
  - revert Hinv. apply inv_subset; [done|]. intros i Hi. destruct (decide (i = id)) as [->|Hne]; [done|].
    by rewrite <-H0.
  - subst s. eapply deleted_inv in Hinv; [|done..]. revert Hinv. by apply inv_subset.
Qed.

(** ** Sequences of operations *)

Lemma rtc_keeps (l : Label) (P : Machine -> Prop) a b :
  (forall a b, step l a b -> P a -> P b) -> rtc (step l) a b -> P a -> P b.
Proof. intros Hs. induction 1; eauto. Qed.

Lemma runs_keeps (P : Machine -> Prop) ls a b :
  (forall l a b, l ∈ ls -> step l a b -> P a -> P b) -> runs ls a b -> P a -> P b.
Proof.
  intros Hs. induction 1 as [|l ls a b c Hab _ IH]; [done|]. intros Ha. apply IH; [set_solver|].
  revert Ha. eapply rtc_keeps; [|done]. intros x y Hxy. eapply Hs; [by left|done].
Qed.

Lemma runs_inv ls a b : runs ls a b -> machine_inv a -> machine_inv b.
Proof. apply runs_keeps. intros l x y _ Hs Hx. by eapply step_inv. Qed.

Lemma runs_token ls a b id t :
  runs ls a b -> tracked id t a -> (forall c, token_id t = Some c -> Finishes id c ∉ ls) ->
  tracked id t b \/ cell t ∈ m_cancelled b.
Proof.
  intros Hr Ht Hl. eapply (runs_keeps (fun m => tracked id t m \/ cell t ∈ m_cancelled m)); [|done|by left].
  intros l x y Hin Hs [Hx|Hx].
  - eapply step_token; [done..|]. intros c Hc ->. by apply (Hl c).
  - right. by apply (step_cancelled _ _ _ Hs).
Qed.

Lemma runs_fenced ls a b id screen :
  runs ls a b -> screens (m_state a) !! id = Some screen -> Deletes (screen_profile_id screen) ∉ ls ->
  exists screen', screens (m_state b) !! id = Some screen' /\ fenced screen screen'.
Proof.
  intros Hr Hid Hl.
  eapply (runs_keeps (fun m => exists y, screens (m_state m) !! id = Some y /\ fenced screen y)); [|done|by exists screen].
  intros l x y Hin Hs (z & Hz & Hf). edestruct step_fenced as (z' & Hz' & Hf'); [done..| |].
  - rewrite (fenced_profile _ _ Hf). intros ->. done.
  - exists z'. split; [done|]. by etrans.
Qed.
