(* ===== verification/ScreenRefinement.v ===== *)
(** * Computer control refines its machine

    Every operation of the service of ScreenControl.v, whatever its files do, is
    a few steps of the machine of ScreenMachine.v, and its file always holds a
    valid state: the new one when the operation says it saved it. *)

From Stdlib Require Import ZArith Lia String.
From stdpp Require Import base decidable countable relations gmap sorting option list.
From S2P Require Import Prelude RustStd Sha2 AgentTypes Json FileSystem PlatformContracts ScreenControl.
From S2P Require Import ScreenMachine.

#[local] Opaque MAX_STREAM_TICKETS MAX_OBSERVERS.

(** ** Operations as data *)

Inductive ControlOp :=
| CreateScreen (computer : ComputerSessionId) (profile : ProfileId) (keith : ExternalPrincipalId) (now : UtcTimestamp)
| NegotiateStream (profile : ProfileId) (id : EntityId) (observer : ExternalPrincipalId) (origin : rstr)
    (now : UtcTimestamp) (ttl_ms : Z)
| ConsumeStreamTicket (profile : ProfileId) (observer : ExternalPrincipalId) (origin raw_ticket : rstr)
    (now : UtcTimestamp)
| RegisterKeithInput (profile : ProfileId) (id : EntityId) (rev : Z) (keith : ExternalPrincipalId)
    (token : CancellationToken) (now : UtcTimestamp)
| FinishKeithInput (profile : ProfileId) (id : EntityId) (cancellation : CancellationId)
| TakeUserControl (profile : ProfileId) (id : EntityId) (rev : Z) (user : ExternalPrincipalId) (now : UtcTimestamp)
| RequestKeithControl (profile : ProfileId) (id : EntityId) (keith : ExternalPrincipalId)
| GrantKeithControl (profile : ProfileId) (id : EntityId) (rev : Z) (now : UtcTimestamp)
| PauseControl (profile : ProfileId) (id : EntityId) (rev : Z) (now : UtcTimestamp)
| DeleteProfile (profile : ProfileId)
| UpdateScreen (profile : ProfileId) (id : EntityId) (connection : ScreenConnectionState) (quality : ScreenQuality)
    (sequence : Z) (active intended : option RedactedText) (recording : bool) (error : option RedactedText)
    (now : UtcTimestamp).

Definition label (op : ControlOp) : Label :=
  match op with
  | FinishKeithInput _ id c => Finishes id c
  | DeleteProfile p => Deletes p
  | _ => Other
  end.

(** The operations that write the state whenever they succeed. *)
Definition persists (op : ControlOp) : bool :=
  match op with
  | CreateScreen _ _ _ _ | NegotiateStream _ _ _ _ _ _ | TakeUserControl _ _ _ _ _ | RequestKeithControl _ _ _
  | GrantKeithControl _ _ _ _ | PauseControl _ _ _ _ | UpdateScreen _ _ _ _ _ _ _ _ _ _ => true
  | _ => false
  end.

Definition discard {A : Type} (m : ctl_m A) : ctl_m unit := _ ← m; mret tt.

(** ** Cancelling the input in flight *)

(** [r'] is [r] with the input in flight on [ids] cancelled. *)
Record stopped (ids : list EntityId) (r r' : Running) : Prop := {
  stopped_root : root (service r') = root (service r);
  stopped_state : state (service r') = state (service r);
  stopped_tickets : stream_tickets (service r') = stream_tickets (service r);
  stopped_in_flight : in_flight_keith_input (service r') =
    filter (fun '(id, _) => id ∉ ids) (in_flight_keith_input (service r));
  stopped_fs : cw_fs (world r') = cw_fs (world r);
  stopped_cancelled : cancelled (world r') =
    cells (in_flight_on (in_flight_keith_input (service r)) ids) ∪ cancelled (world r)
}.

Lemma cancel_all tokens w :
  cw_fs (fold_left cancel tokens w) = cw_fs w /\ cancelled (fold_left cancel tokens w) = cells tokens ∪ cancelled w.
Proof.
  revert w. induction tokens as [|t tokens IH]; intros w; simpl; [set_solver|].
  destruct (IH (cancel w t)) as [-> ->]. simpl. unfold cells. simpl. set_solver.
Qed.

Lemma filter_not_elem_cons (f : gmap EntityId (list CancellationToken)) id ids :
  filter (fun '(i, _) => i ∉ ids) (delete id f) = filter (fun '(i, _) => i ∉ id :: ids) f.
Proof.
  apply map_eq. intros i. apply option_eq. intros x.
  rewrite !map_lookup_filter_Some, lookup_delete_Some. set_solver.
Qed.

Lemma filter_not_elem_singleton (f : gmap EntityId (list CancellationToken)) id :
  filter (fun '(i, _) => i ∉ [id]) f = delete id f.
Proof. rewrite <-filter_not_elem_cons. apply map_filter_id. set_solver. Qed.

Lemma cancel_in_flight_stops id r : exists r', cancel_in_flight id r = (Ok tt, r') /\ stopped [id] r r'.
Proof.
  unfold cancel_in_flight, modify. eexists. split; [reflexivity|].
  destruct (in_flight_keith_input (service r) !! id) as [tokens|] eqn:E; constructor; simpl;
    rewrite ?filter_not_elem_singleton; try done.
  - apply cancel_all.
  - unfold in_flight_on. simpl. rewrite E, app_nil_r. apply cancel_all.
  - by rewrite delete_id.
  - unfold in_flight_on. simpl. rewrite E. set_solver.
Qed.

Lemma stopped_trans id ids r r1 r2 : stopped [id] r r1 -> stopped ids r1 r2 -> stopped (id :: ids) r r2.
Proof.
  intros [R1 S1 T1 F1 W1 C1] [R2 S2 T2 F2 W2 C2]. rewrite filter_not_elem_singleton in F1.
  constructor; try congruence; [by rewrite F2, F1, filter_not_elem_cons|].
  rewrite C2, C1, F1. apply set_eq. intros n. rewrite !elem_of_union, !elem_of_cells_on.
  split.
  - intros [(i & t & Hi & Ht & Hn)|[(i & t & Hi & Ht & Hn)|Hn]]; [left..|by right]; exists i, t.
    + destruct (decide (id = i)) as [->|Hne]; [by rewrite lookup_delete_eq in Ht; apply not_elem_of_nil in Ht|].
      rewrite lookup_delete_ne in Ht by done. set_solver.
    + set_solver.
  - intros [(i & t & Hi & Ht & Hn)|Hn]; [|by right; right].
    destruct (decide (id = i)) as [->|Hne]; [right; left; exists i, t; set_solver|].
    left. exists i, t. rewrite lookup_delete_ne by done. set_solver.
Qed.

Lemma try_for_stops ids r : exists r', try_for cancel_in_flight ids r = (Ok tt, r') /\ stopped ids r r'.
Proof.
  revert r. induction ids as [|id ids IH]; intros r; simpl.
  - exists r. split; [done|]. constructor; try done; [|set_solver]. symmetry. apply map_filter_id. set_solver.
  - destruct (cancel_in_flight_stops id r) as (r1 & Hr1 & Hs1), (IH r1) as (r2 & Hr2 & Hs2).
    exists r2. split; [|by eapply stopped_trans]. rewrite stateT_bind_unfold, Hr1. exact Hr2.
Qed.

Section operations.
Context (new_id : nat -> EntityId) `{HC : ControlCodec, HU : UrlLib, HH : Sha256}.

Definition perform (op : ControlOp) : ctl_m unit :=
  match op with
  | CreateScreen computer profile keith now => discard (create_screen new_id computer profile keith now)
  | NegotiateStream profile id observer origin now ttl =>
      discard (negotiate_stream new_id profile id observer origin now ttl)
  | ConsumeStreamTicket profile observer origin raw now =>
      discard (consume_stream_ticket profile observer origin raw now)
  | RegisterKeithInput profile id rev keith token now => register_keith_input profile id rev keith token now
  | FinishKeithInput profile id c => finish_keith_input profile id c
  | TakeUserControl profile id rev user now => discard (take_user_control new_id profile id rev user now)
  | RequestKeithControl profile id keith => request_keith_control new_id profile id keith
  | GrantKeithControl profile id rev now => discard (grant_keith_control new_id profile id rev now)
  | PauseControl profile id rev now => discard (pause new_id profile id rev now)
  | DeleteProfile profile => discard (delete_profile new_id profile)
  | UpdateScreen profile id c q sequence active intended recording error now =>
      discard (update_screen new_id profile id c q sequence active intended recording error now)
  end.

(** Any operations, whatever they return. *)
Definition perform_all (ops : list ControlOp) (r : Running) : Running :=
  fold_left (fun r op => (perform op r).2) ops r.

Definition machine_of (r : Running) : Machine :=
  MkMachine (state (service r)) (stream_tickets (service r)) (in_flight_keith_input (service r))
    (cancelled (world r)).

(** ** The file *)

Definition control_path (dir : Path) : Path := path_join dir CONTROL_FILE.

Definition file_has (dir : Path) (s : ControlState) (es : gmap Path Entry) : Prop :=
  exists bytes, es !! control_path dir = Some (EFile bytes) /\ from_slice bytes = Ok s.

(** The names [open] removes are not directories. *)
Definition temporaries_ok (dir : Path) (es : gmap Path Entry) : Prop :=
  forall name, is_temporary name = true -> es !! path_join dir name <> Some EDir.

(** The file is absent or holds a valid state. *)
Definition file_ok (dir : Path) (es : gmap Path Entry) : Prop :=
  es !! dir = Some EDir /\ temporaries_ok dir es /\
  (es !! control_path dir = None \/ exists s, file_has dir s es /\ valid s).

Lemma triple_try_io {A : Type} (act : gmap Path Entry -> result IoError A * gmap Path Entry)
    (failed : option (list Z) -> gmap Path Entry -> gmap Path Entry)
    (P : gmap Path Entry -> Prop) (Q : A -> gmap Path Entry -> Prop) (F : gmap Path Entry -> Prop) c :
  (forall es, P es -> match act es with (Ok a, es') => Q a es' | (Err _, es') => F es' end) ->
  (forall leaves es, P es -> F (failed leaves es)) ->
  triple (fun w => P (entries (cw_fs w)) /\ cancelled w = c) (try_io (io act failed))
    (fun a w => Q a (entries (cw_fs w)) /\ cancelled w = c) (fun w => F (entries (cw_fs w)) /\ cancelled w = c).
Proof.
  intros Hact Hfail w r w' [HP Hc] Hr. unfold try_io, on_fs in Hr.
  destruct (io act failed (cw_fs w)) as [r0 fs] eqn:Em. injection Hr as <- <-.
  pose proof (io_spec_io P act failed Q F Hact Hfail _ _ _ HP Em). by destruct r0.
Qed.

Lemma path_join_ne dir name : path_join dir name <> dir.
Proof. unfold path_join. intros H. apply (f_equal length) in H. rewrite length_app in H. simpl in H. lia. Qed.

Lemma path_join_inj dir a b : path_join dir a = path_join dir b -> a = b.
Proof. unfold path_join. intros H. apply app_inj_tail in H as [_ H]. done. Qed.

Definition temporary_of (dir : Path) (id : EntityId) : Path :=
  path_join dir (str "." ++ CONTROL_FILE ++ str "." ++ as_str id ++ str ".tmp").

Lemma temporary_ne dir id : temporary_of dir id <> control_path dir.
Proof. intros H%path_join_inj. discriminate H. Qed.

Lemma temporaries_replace dir p tmp b es :
  temporaries_ok dir es -> temporaries_ok dir (<[p := EFile b]> (delete tmp es)).
Proof.
  intros Ht name Hn [[_ ?]|[_ [_ He]%lookup_delete_Some]]%lookup_insert_Some; [done|]. by apply (Ht name).
Qed.

Lemma file_ok_other dir p es es' :
  p <> dir -> p <> control_path dir -> es' !! p <> Some EDir -> (forall q, q <> p -> es' !! q = es !! q) ->
  file_ok dir es -> file_ok dir es'.
Proof.
  intros Hd Hc Hp Hq (He & Ht & Hf). unfold file_ok, file_has in *. rewrite !Hq by done. split_and!; [done| |done].
  intros name Hn. destruct (decide (path_join dir name = p)) as [->|Hne]; [done|]. rewrite Hq by done. by apply Ht.
Qed.

Lemma triple_attempt {W E F A : Type} (P : W -> Prop) (m : stateT W E A) Q G :
  triple P m Q G ->
  triple P (attempt (F := F) m) (fun r w => match r with Ok a => Q a w | Err _ => G w end) (fun _ => False).
Proof.
  intros Hm w r w' HP Hr. unfold attempt in Hr. destruct (m w) as [r0 w0] eqn:Em.
  injection Hr as <- <-. apply (Hm _ _ _ HP Em).
Qed.

Abbreviation on_entries P c := (fun w => P (entries (cw_fs w)) /\ cancelled w = c).

(** The steps that write and rename the temporary file. *)
Lemma write_temporary_spec dir tmp s c :
  tmp <> dir -> tmp <> control_path dir -> valid s ->
  triple (on_entries (file_ok dir) c)
    (bytes ← lift (map_err JsonFailure (to_vec_pretty s));
     _ ← try_io (fs_write tmp bytes);
     _ ← try_io (fs_sync tmp);
     _ ← try_io (fs_rename tmp (control_path dir));
     try_io (fs_sync dir))
    (fun _ => on_entries (fun es => file_ok dir es /\ file_has dir s es) c)
    (on_entries (file_ok dir) c).
Proof.
  intros Hd Hf Hv. apply triple_lift_bind; [|done]. intros bytes Hbytes.
  assert (from_slice bytes = Ok s) as Hs.
  { apply from_to_slice. destruct (to_vec_pretty s); simpl in Hbytes; congruence. }
  set (P := fun es => file_ok dir es /\ es !! tmp = Some (EFile bytes)).
  assert (forall es b, file_ok dir es -> file_ok dir (<[tmp := EFile b]> es)) as Hins.
  { intros es b. apply (file_ok_other _ tmp); [done..|by rewrite lookup_insert_eq|].
    intros q Hq. by rewrite lookup_insert_ne. }
  eapply (triple_bind _ _ (fun _ => on_entries P c)).
  { apply (triple_try_io _ _ _ (fun _ => P)).
    - intros es Hes. destruct (es !! tmp) as [[]|]; try done; (split; [by apply Hins|apply lookup_insert_eq]).
    - intros [b|] es Hes; [by apply Hins|done]. }
  intros _. eapply (triple_bind _ _ (fun _ => on_entries P c)).
  { apply (triple_try_io _ _ _ (fun _ => P)); [|by intros ? ? []]. intros es [Hes Ht]. by rewrite Ht. }
  intros _. eapply (triple_bind _ _ (fun _ => on_entries (fun es => file_ok dir es /\ file_has dir s es) c)).
  { apply (triple_try_io _ _ _ (fun _ es => file_ok dir es /\ file_has dir s es)); [|by intros ? ? []].
    intros es [Hes Ht]. rewrite Ht.
    assert (file_has dir s (<[control_path dir := EFile bytes]> (delete tmp es))) as Hhas.
    { exists bytes. by rewrite lookup_insert_eq. }
    assert (file_ok dir (<[control_path dir := EFile bytes]> (delete tmp es))) as Hok.
    { destruct Hes as (He & Htmp & _). split_and!; [|by apply temporaries_replace|right; by exists s].
      by rewrite lookup_insert_ne, lookup_delete_ne by (done || apply path_join_ne). }
    by destruct (es !! control_path dir) as [[]|]. }
  intros _.
  apply (triple_try_io _ _ (fun es => file_ok dir es /\ file_has dir s es)
           (fun _ es => file_ok dir es /\ file_has dir s es) (file_ok dir) c); [|by intros ? ? []].
  intros es [Hes Ht]. by destruct (es !! dir).
Qed.

Lemma persist_state_spec dir s c :
  valid s ->
  triple (on_entries (file_ok dir) c) (persist_state new_id dir s)
    (fun _ => on_entries (fun es => file_ok dir es /\ file_has dir s es) c) (on_entries (file_ok dir) c).
Proof.
  intros Hv. unfold persist_state.
  eapply (triple_bind _ _ (fun _ => on_entries (file_ok dir) c)).
  { intros w r w' HP Hr. unfold draw in Hr. by injection Hr as <- <-. }
  intros id. eapply triple_bind.
  { eapply triple_weaken; [apply triple_attempt, (write_temporary_spec dir (temporary_of dir id) s c)|..];
      [apply path_join_ne|apply temporary_ne|done..|]. by intros w []. }
  intros [[]|e]; cbn [is_ok].
  - intros w r w' HP Hr. cbv in Hr. by injection Hr as <- <-.
  - eapply (triple_bind _ _ (fun _ => on_entries (file_ok dir) c)).
    + eapply (triple_bind _ _ (fun _ => on_entries (file_ok dir) c)).
      { eapply triple_weaken;
          [apply triple_attempt, (triple_try_io _ _ (file_ok dir) (fun _ => file_ok dir) (file_ok dir) c)|..];
          [|done|done|by intros []|done].
        intros es Hes. assert (file_ok dir (delete (temporary_of dir id) es)).
        { revert Hes. apply (file_ok_other _ (temporary_of dir id));
            [apply path_join_ne|apply temporary_ne|by rewrite lookup_delete_eq|].
          intros q Hq. by rewrite lookup_delete_ne. }
        by destruct (es !! _) as [[]|]. }
      intros r. by apply triple_ret.
    + intros _. by apply triple_lift.
Qed.

(** [persist_or_restore] keeps the new state, valid and in the file, or the
    previous one. *)
Lemma persist_or_restore_spec s r res r' :
  persist_or_restore new_id s r = (res, r') ->
  valid s -> file_ok (root (service r)) (entries (cw_fs (world r))) ->
  cancelled (world r') = cancelled (world r) /\
  file_ok (root (service r)) (entries (cw_fs (world r'))) /\
  match res with
  | Ok _ => valid (state (service r)) /\ service r' = service r /\
            file_has (root (service r)) (state (service r)) (entries (cw_fs (world r')))
  | Err _ => service r' = service (set_state s r)
  end.
Proof.
  unfold persist_or_restore, persist. intros Hr Hs Hok.
  rewrite !stateT_bind_unfold in Hr. unfold gets in Hr. rewrite stateT_bind_unfold in Hr. unfold lift, on_world in Hr.
  destruct (validate_state (state (service r))) as [[]|e] eqn:Hv; [|by injection Hr as <- <-].
  destruct (persist_state _ _ _ _) as [res0 w] eqn:Hp.
  pose proof (persist_state_spec (root (service r)) _ (cancelled (world r)) Hv _ _ _ (conj Hok eq_refl) Hp) as Hpost.
  destruct res0 as [[]|e]; injection Hr as <- <-; simpl in *; naive_solver.
Qed.

(** ** Refinement *)

Definition running_ok (r : Running) : Prop :=
  machine_inv (machine_of r) /\ file_ok (root (service r)) (entries (cw_fs (world r))).

(** [r'] is reached from [r] by steps of the machine, with the file still valid
    and, if [saved], holding the new state. *)
Record moved (l : Label) (saved : Prop) (r r' : Running) : Prop := {
  moved_root : root (service r') = root (service r);
  moved_file : file_ok (root (service r)) (entries (cw_fs (world r')));
  moved_steps : rtc (step l) (machine_of r) (machine_of r');
  moved_saved : saved -> file_has (root (service r)) (state (service r')) (entries (cw_fs (world r')))
}.

(** Nothing but the supply of identifiers changed. *)
Definition idle (r r' : Running) : Prop :=
  service r' = service r /\ cw_fs (world r') = cw_fs (world r) /\ cancelled (world r') = cancelled (world r).

#[local] Instance idle_preorder : PreOrder idle.
Proof. split; [done|]. intros a b c (H1 & H2 & H3) (H4 & H5 & H6). by repeat split; etrans. Qed.

Lemma idle_machine r r' : idle r r' -> machine_of r' = machine_of r.
Proof. intros (Hs & _ & Hc). unfold machine_of. by rewrite Hs, Hc. Qed.

Lemma idle_ok r r' : idle r r' -> running_ok r -> running_ok r'.
Proof. intros Hi [Hm Hf]. unfold running_ok. rewrite (idle_machine _ _ Hi). by destruct Hi as (-> & -> & _). Qed.

Lemma moved_idle l r r' : idle r r' -> running_ok r -> moved l False r r'.
Proof.
  intros Hi [_ Hf]. pose proof (idle_machine _ _ Hi) as Hm. destruct Hi as (Hs & Hw & _).
  constructor; [by rewrite Hs|by rewrite Hw|by rewrite Hm|done].
Qed.

Lemma idle_draw r x r' : on_world (draw new_id) r = (x, r') -> idle r r'.
Proof. unfold on_world, draw. intros H. by injection H as <- <-. Qed.

(** A change of state that is persisted. *)
Lemma persist_outcome r r1 s res r2 :
  running_ok r -> idle r r1 ->
  persist_or_restore new_id (state (service r)) (set_state s r1) = (res, r2) ->
  cancelled (world r2) = cancelled (world r) /\
  file_ok (root (service r)) (entries (cw_fs (world r2))) /\
  match res with
  | Ok _ => valid s /\ service r2 = service (set_state s r) /\
            file_has (root (service r)) s (entries (cw_fs (world r2)))
  | Err _ => service r2 = service r
  end.
Proof.
  intros Hok Hi Hp. pose proof (idle_ok _ _ Hi Hok) as [_ Hf1]. destruct Hok as [Hm Hf].
  apply persist_or_restore_spec in Hp as (Hc & Hf2 & Hres); [|apply Hm|done].
  destruct Hi as (Hs & Hw & Hcc). simpl in *. rewrite Hs in *.
  split_and!; [congruence|done|]. destruct res; [done|]. rewrite Hres. by destruct (service r).
Qed.

Lemma moved_persist l r r1 s res r2 :
  running_ok r -> idle r r1 ->
  persist_or_restore new_id (state (service r)) (set_state s r1) = (res, r2) ->
  (valid s -> step l (machine_of r)
     (MkMachine s (stream_tickets (service r)) (in_flight_keith_input (service r)) (cancelled (world r)))) ->
  moved l (is_ok res = true) r r2.
Proof.
  intros Hok Hi Hp Hstep. apply persist_outcome in Hp as (Hc & Hf & Hres); [|done..].
  destruct res as [u|e]; [destruct Hres as (Hv & Hs & Hhas)|rename Hres into Hs];
    constructor; rewrite ?Hs; try done; unfold machine_of at 2; rewrite Hs, Hc; [|done]. by apply rtc_once, Hstep.
Qed.

Lemma moved_weaken l (P Q : Prop) r r' : (Q -> P) -> moved l P r r' -> moved l Q r r'.
Proof. intros HPQ []. constructor; auto. Qed.

Lemma screen_ok_inv self profile id screen' :
  screen self profile id = Ok screen' -> screens (state self) !! id = Some screen' /\ screen_profile_id screen' = profile.
Proof. unfold screen. intros H. res_inv. bool_inv. done. Qed.

(** Inverts a run of an operation, up to its writes. *)
Ltac ctl_inv :=
  repeat (res_step; repeat match goal with
    | H : on_world (draw new_id) _ = _ |- _ => apply idle_draw in H
    | H : screen _ _ _ = Ok _ |- _ => apply screen_ok_inv in H as [? ?]
    end).

Ltac solve_idle :=
  repeat match goal with H : idle ?a ?b |- idle ?a _ => etrans; [exact H|clear H] end; reflexivity.

(** Closes the runs that end before a write, and states what is left of those
    that write. *)
Ltac ctl_moves :=
  ctl_inv;
  try (eapply moved_weaken; [|apply moved_idle; [solve_idle|assumption]]; discriminate);
  match goal with
  | H : persist_or_restore _ _ _ = (_, ?r') |- moved ?l _ ?r ?r' =>
      eapply (moved_persist l) in H; [|assumption|solve_idle|];
        [eapply moved_weaken; [|exact H]; done|intros Hv; unfold machine_of]
  end.

Lemma created_fresh s id (screen : ScreenSession) computer :
  valid s -> computer_index s !! computer = None ->
  valid (MkControlState (version s) (<[id := screen]> (screens s)) (<[computer := id]> (computer_index s))
           (pending_keith s)) ->
  screens s !! id = None.
Proof.
  rewrite !valid_ok. intros [_ Hs _ _] Hc [_ Hs' _ _]. simpl in Hs'.
  rewrite (map_size_insert_None computer) in Hs' by done.
  destruct (screens s !! id) eqn:E; [|done]. rewrite map_size_insert_Some in Hs' by done. lia.
Qed.

Lemma create_screen_moves computer profile keith now r res r' :
  running_ok r -> create_screen new_id computer profile keith now r = (res, r') ->
  moved Other (is_ok res = true) r r'.
Proof.
  intros Hok Hr. unfold create_screen in Hr. ctl_moves; bool_inv;
    match type of Hv with valid (MkControlState _ (<[?id := ?x]> _) _ _) =>
      refine (step_create _ (MkMachine _ _ _ _) _ id x _ _ _ _ _); machine; [|reflexivity|done..] end; (eapply created_fresh; [apply Hok|by apply eq_None_not_Some|exact Hv]).
Qed.

Lemma request_keith_control_moves profile id keith r res r' :
  running_ok r -> request_keith_control new_id profile id keith r = (res, r') ->
  moved Other (is_ok res = true) r r'.
Proof. intros Hok Hr. unfold request_keith_control in Hr. ctl_moves; (eapply step_request; machine; [reflexivity|done]). Qed.

Lemma update_screen_moves profile id c q sequence active intended recording error now r res r' :
  running_ok r -> update_screen new_id profile id c q sequence active intended recording error now r = (res, r') ->
  moved Other (is_ok res = true) r r'.
Proof.
  intros Hok Hr. unfold update_screen in Hr. ctl_moves.
  all: bool_inv; eapply step_update; machine; [eassumption|reflexivity|done..].
Qed.

(** The state after the lease of a screen is replaced. *)
Definition transferred (s : ControlState) (id : EntityId) (screen : ScreenSession) : ControlState :=
  MkControlState (version s) (<[id := screen]> (screens s)) (computer_index s) (delete id (pending_keith s)).

Lemma add_millis_ok now millis t :
  add_millis now millis = Ok t -> unix_millis t = (unix_millis now + millis)%Z /\ is_i64 (unix_millis t).
Proof.
  unfold add_millis. intros H. res_inv. apply fmap_Some in E as (x & Hx & ->).
  by apply i64_checked_add_Some in Hx as [-> ?].
Qed.

Lemma lease_transfer_ok id lease expected o h issued expires lease' :
  lease_transfer id lease expected o h issued expires = Ok lease' ->
  revision lease = expected /\ (revision lease + 1 <= u64_max)%Z /\
  lease' = MkLease id (computer_session_id lease) (lease_profile_id lease) o h (revision lease + 1) issued expires.
Proof.
  unfold lease_transfer. intros H. res_inv. bool_inv.
  match goal with H : u64_checked_add _ _ = Some _ |- _ => apply u64_checked_add_Some in H as [-> ?] end. done.
Qed.

Lemma transfer_outcome profile id expected o h now r res r' :
  running_ok r -> transfer new_id profile id expected o h now r = (res, r') ->
  cancelled (world r') = cancelled (world r) /\
  file_ok (root (service r)) (entries (cw_fs (world r'))) /\
  match res with
  | Ok screen' =>
      exists screen lease, screens (state (service r)) !! id = Some screen /\ screen_profile_id screen = profile /\
        revision (control screen) = expected /\ screen' = with_control screen lease now /\
        owner lease = o /\ holder lease = h /\ revision lease = (expected + 1)%Z /\
        unix_millis (expires_at lease) = (unix_millis now + DEFAULT_LEASE_TTL_MS)%Z /\
        service r' = service (set_state (transferred (state (service r)) id screen') r) /\
        valid (state (service r')) /\
        file_has (root (service r)) (state (service r')) (entries (cw_fs (world r')))
  | Err _ => service r' = service r
  end.
Proof.
  intros Hok Hr. unfold transfer in Hr. ctl_inv.
  all: try (match goal with H : idle _ ?r' |- _ => destruct H as (? & Hw & ?) end; split_and!; try done; rewrite Hw; apply Hok).
  all: try (split_and!; [done|apply Hok|done]).
  all: eapply persist_outcome in E6 as (Hc & Hf & Hres); [|done..]; split; [done|]; split; [done|].
  2: done.
  destruct Hres as (Hv & Hs & Hhas). apply lease_transfer_ok in E as (<- & _ & ->).
  do 2 eexists. split_and!; try done; rewrite ?Hs; try done. by eapply add_millis_ok.
Qed.

(** The user takes over, or control is paused. *)
Lemma revoked_moves profile id expected o h now r res r' :
  o <> KeithControl -> running_ok r ->
  (screen ← transfer new_id profile id expected o h now; _ ← cancel_in_flight id; mret screen) r = (res, r') ->
  moved Other (is_ok res = true) r r'.
Proof.
  intros Ho Hok Hr. rewrite stateT_bind_unfold in Hr. destruct (transfer _ _ _ _ _ _ _ r) as [res1 r1] eqn:Et.
  apply transfer_outcome in Et as (Hc & Hf & Hres); [|done]. destruct res1 as [screen'|e].
  - destruct Hres as (x & lease & Hx & _ & Hrev & -> & Hlo & _ & Hlr & _ & Hs & Hv & Hhas).
    destruct (cancel_in_flight_stops id r1) as (r2 & Hr2 & [R2 S2 T2 F2 W2 C2]).
    rewrite stateT_bind_unfold, Hr2 in Hr. injection Hr as <- <-.
    rewrite filter_not_elem_singleton in F2. rewrite Hs in *. simpl in *.
    constructor; rewrite ?R2, ?S2, ?W2; try done.
    apply rtc_once. unfold machine_of. rewrite S2, T2, F2, C2, Hc.
    eapply (step_revoke _ (MkMachine _ _ _ _)); machine; [done|reflexivity|congruence..|done].
  - injection Hr as <- <-. constructor; rewrite ?Hres; try done. unfold machine_of. by rewrite Hres, Hc.
Qed.

Lemma granted_moves profile id expected h now r res r' :
  running_ok r -> transfer new_id profile id expected KeithControl h now r = (res, r') ->
  moved Other (is_ok res = true) r r'.
Proof.
  intros Hok Hr. apply transfer_outcome in Hr as (Hc & Hf & Hres); [|done]. destruct res as [screen'|e].
  - destruct Hres as (x & lease & Hx & _ & Hrev & -> & Hlo & _ & Hlr & _ & Hs & Hv & Hhas).
    constructor; try done; [by rewrite Hs|]. apply rtc_once. rewrite Hs in Hv. unfold machine_of. rewrite Hs, Hc.
    eapply (step_grant _ (MkMachine _ _ _ _)); machine; [done|reflexivity|congruence..|done].
  - constructor; rewrite ?Hres; try done. unfold machine_of. by rewrite Hres, Hc.
Qed.

Lemma moved_service l r r' :
  running_ok r -> root (service r') = root (service r) -> cw_fs (world r') = cw_fs (world r) ->
  rtc (step l) (machine_of r) (machine_of r') -> moved l False r r'.
Proof. intros [_ Hf] Hroot Hw Hstep. constructor; [done|by rewrite Hw|done..]. Qed.

Lemma register_keith_input_moves profile id rev keith token now r res r' :
  running_ok r -> register_keith_input profile id rev keith token now r = (res, r') -> moved Other False r r'.
Proof.
  intros Hok Hr. unfold register_keith_input in Hr. ctl_inv; try (apply moved_idle; [reflexivity|done]).
  bool_inv. apply moved_service; [done..|]. apply rtc_once.
  by eapply (step_register _ (MkMachine _ _ _ _)); machine.
Qed.

Lemma finish_keith_input_moves profile id c r res r' :
  running_ok r -> finish_keith_input profile id c r = (res, r') -> moved (Finishes id c) False r r'.
Proof.
  intros Hok Hr. unfold finish_keith_input in Hr. ctl_inv; try (apply moved_idle; [reflexivity|done]).
  destruct (in_flight_keith_input _ !! id) as [tokens|] eqn:E; [|ctl_inv; apply moved_idle; [reflexivity|done]].
  set (f := in_flight_keith_input (service r1)) in *.
  destruct (filter _ tokens) as [|t rest] eqn:Ef; ctl_inv; (apply moved_service; [done..|]); apply rtc_once.
  all: eapply (step_finish _ (MkMachine _ _ f _)); machine; simpl; try done.
  - intros i Hi. by rewrite lookup_delete_ne.
  - by rewrite lookup_delete_eq, E, <-Ef.
  - intros i Hi. by rewrite lookup_insert_ne.
  - by rewrite lookup_insert_eq, E, <-Ef.
Qed.

Lemma consume_stream_ticket_moves profile observer origin raw now r res r' :
  running_ok r -> consume_stream_ticket profile observer origin raw now r = (res, r') -> moved Other False r r'.
Proof.
  intros Hok Hr. unfold consume_stream_ticket in Hr. ctl_inv; try (apply moved_idle; [reflexivity|done]).
  all: apply moved_service; [done..|]; apply rtc_once; eapply (step_tickets _ (MkMachine _ _ _ _)), delete_subseteq.
Qed.

Lemma moved_trans l P Q r r1 r2 : moved l P r r1 -> moved l Q r1 r2 -> moved l Q r r2.
Proof.
  intros [R1 F1 S1 _] [R2 F2 S2 H2]. rewrite R1 in *. constructor; [done|done|by etrans|done].
Qed.

Lemma moved_ok l P r r' : running_ok r -> moved l P r r' -> running_ok r'.
Proof.
  intros [Hm _] [Hr Hf Hs _]. split; [|by rewrite Hr].
  eapply rtc_keeps; [|exact Hs|done]. intros a b Hab Ha. by eapply step_inv.
Qed.

Lemma expire_tickets_moves now r :
  running_ok r -> moved Other False r
    (set_tickets (filter (fun '(_, ticket) => rltb now (ticket_expires_at ticket) = true) (stream_tickets (service r))) r).
Proof.
  intros Hok. apply moved_service; [done..|]. apply rtc_once.
  eapply (step_tickets _ (MkMachine _ _ _ _)), map_filter_subseteq.
Qed.

Lemma observers_bound (screen : ScreenSession) observer now :
  size (observers screen) <= MAX_OBSERVERS ->
  ((MAX_OBSERVERS <=? size (observers screen))%nat && negb (bool_decide (observer ∈ observers screen)))%bool = false ->
  size (observers (with_observer screen observer now)) <= MAX_OBSERVERS.
Proof.
  intros Hs Hb. simpl. destruct (decide (observer ∈ observers screen)) as [Hin|Hout].
  - by rewrite subseteq_union_1_L by set_solver.
  - rewrite size_union, size_singleton by set_solver.
    rewrite bool_decide_false, andb_true_r in Hb by done. apply Nat.leb_gt in Hb. lia.
Qed.

Lemma set_state_idle s r r1 : idle (set_state s r) r1 -> exists r1', idle r r1' /\ r1 = set_state s r1'.
Proof.
  intros (Hs & Hw & Hc). exists (MkRunning (service r) (world r1)). split; [done|].
  destruct r1 as [self w]. simpl in *. by rewrite Hs.
Qed.

(** The observer was recorded, in memory only or in the file too. *)
Lemma observed_step r id screen observer now tickets :
  running_ok r -> screens (state (service r)) !! id = Some screen ->
  ((MAX_OBSERVERS <=? size (observers screen))%nat && negb (bool_decide (observer ∈ observers screen)))%bool = false ->
  step Other (MkMachine (state (service r)) tickets (in_flight_keith_input (service r)) (cancelled (world r)))
    (MkMachine (set_screen id (with_observer screen observer now) (state (service r))) tickets
       (in_flight_keith_input (service r)) (cancelled (world r))).
Proof.
  intros [Hm _] Hs Hb. apply (step_observe _ (MkMachine _ _ _ _)); machine; [done|].
  apply observers_bound; [|done]. apply inv_valid, valid_ok in Hm. by destruct (ok_screens _ Hm _ _ Hs).
Qed.

Lemma leaked_moves r r1 id screen observer now :
  running_ok r -> idle r r1 -> screens (state (service r)) !! id = Some screen ->
  ((MAX_OBSERVERS <=? size (observers screen))%nat && negb (bool_decide (observer ∈ observers screen)))%bool = false ->
  moved Other False r (set_state (set_screen id (with_observer screen observer now) (state (service r))) r1).
Proof.
  intros Hok (Hs & Hw & Hc) Hscreen Hb. apply moved_service; simpl; [done|by rewrite Hs|done|].
  apply rtc_once. unfold machine_of. simpl. rewrite Hs, Hc. by apply observed_step.
Qed.

(** What a negotiation leaves when its ticket is issued. *)
Lemma negotiate_stream_outcome profile id observer origin now ttl r res r' :
  running_ok r -> negotiate_stream new_id profile id observer origin now ttl r = (res, r') ->
  moved Other (is_ok res = true) r r' /\
  forall grant, res = Ok grant ->
    validate_origin origin = Ok tt /\ grant_screen_session_id grant = id /\ read_only grant = true /\
    unix_millis (stream_expires_at grant) = (unix_millis now + ttl)%Z /\ (1000 <= ttl <= 60000)%Z /\
    stream_tickets (service r') !! ticket_digest (stream_ticket grant) =
      Some (MkTicket id profile observer origin (sha256 (as_bytes (stream_ticket grant))) (stream_expires_at grant)).
Proof.
  intros Hok Hr. unfold negotiate_stream in Hr. rewrite stateT_bind_unfold in Hr. unfold expire_tickets, modify in Hr.
  pose proof (expire_tickets_moves now _ Hok) as He. pose proof (moved_ok _ _ _ _ Hok He) as Hok0.
  revert Hr He Hok0.
  generalize (set_tickets (filter (fun '(_, ticket) => rltb now (ticket_expires_at ticket) = true)
                             (stream_tickets (service r))) r) as r0.
  intros r0 Hr He Hok0. ctl_inv.
  all: try (split; [|discriminate]; eapply moved_trans; [exact He|];
    eapply moved_weaken; [|apply moved_idle; [solve_idle|assumption]]; discriminate).
  all: apply set_state_idle in E7 as (r1 & Hi & ->).
  3-4: split; [|discriminate]; eapply moved_trans; [exact He|]; eapply moved_weaken; [|by apply leaked_moves]; discriminate.
  - assert (a2 = ttl) as ->. { unfold i64_try_from in E0. by res_inv. }
    apply add_millis_ok in E8 as [Ht _]. apply Nat.leb_gt in E3.
    apply negb_false_iff, andb_true_iff in E4 as [Hlo%Z.leb_le Hhi%Z.leb_le]. destruct a. split.
    + eapply moved_trans; [exact He|]. apply persist_outcome in E9 as (Hc & Hf & Hv & Hs & Hhas); [|done..].
      constructor; simpl; rewrite ?Hs; try done. unfold machine_of. simpl. rewrite Hs, Hc. simpl.
      eapply rtc_l; [by eapply (observed_step _ id a4 observer now)|]. apply rtc_once.
      eapply (step_issue _ (MkMachine _ _ _ _)); machine; [apply lookup_insert_eq|done|done].
    + intros grant Hg. injection Hg as <-. simpl. rewrite lookup_insert_eq. split_and!; done || lia.
  - split; [|discriminate]. eapply moved_trans; [exact He|]. eapply (moved_persist Other) in E9; [exact E9|done..|].
    intros _. by apply observed_step.
Qed.

Lemma elem_of_profile_screens s p id :
  id ∈ profile_screens s p <-> exists screen, screens s !! id = Some screen /\ screen_profile_id screen = p.
Proof.
  unfold profile_screens. rewrite list_elem_of_fmap. split.
  - intros ([i x] & -> & Hx). apply list_elem_of_filter in Hx as [Hp Hx%elem_of_btree_iter]. by exists x.
  - intros (x & Hx & Hp). exists (id, x). split; [done|]. apply list_elem_of_filter. split; [done|].
    by apply elem_of_btree_iter.
Qed.

Lemma delete_profile_outcome p r res r' :
  running_ok r -> delete_profile new_id p r = (res, r') ->
  match res with
  | Ok 0 => r' = r /\ profile_screens (state (service r)) p = []
  | Ok n => n = length (profile_screens (state (service r)) p) /\
            root (service r') = root (service r) /\
            file_ok (root (service r)) (entries (cw_fs (world r'))) /\
            file_has (root (service r)) (state (service r')) (entries (cw_fs (world r'))) /\
            step (Deletes p) (machine_of r) (machine_of r') /\
            state (service r') = fold_left remove_screen (profile_screens (state (service r)) p) (state (service r)) /\
            machine_of r' = MkMachine (state (service r'))
              (filter (fun '(_, t) => ticket_profile_id t <> p) (stream_tickets (service r)))
              (filter (fun '(id, _) => id ∉ profile_screens (state (service r)) p) (in_flight_keith_input (service r)))
              (cells (in_flight_on (in_flight_keith_input (service r)) (profile_screens (state (service r)) p))
               ∪ cancelled (world r))
  | Err _ => service r' = service r /\ cancelled (world r') = cancelled (world r) /\
             file_ok (root (service r)) (entries (cw_fs (world r')))
  end.
Proof.
  intros Hok Hr. unfold delete_profile in Hr. rewrite stateT_bind_unfold in Hr. unfold gets in Hr.
  destruct (profile_screens _ p) as [|id ids] eqn:Eids; [by injection Hr as <- <-|].
  assert (length (id :: ids) = S (length ids)) as Hlen by done. remember (id :: ids) as removed eqn:Hrem. clear Hrem.
  rewrite stateT_bind_unfold in Hr. unfold modify in Hr at 1.
  rewrite stateT_bind_unfold in Hr. destruct (persist_or_restore _ _ _) as [res1 r1] eqn:Ep.
  apply persist_outcome in Ep as (Hc & Hf & Hres); [|done..]. destruct res1 as [u|e]; [|by injection Hr as <- <-].
  destruct Hres as (Hv & Hs & Hhas).
  rewrite stateT_bind_unfold in Hr. unfold modify in Hr.
  set (r2 := set_tickets _ r1) in Hr. destruct (try_for_stops removed r2) as (r3 & Hr3 & [R S T F W C]).
  rewrite stateT_bind_unfold, Hr3 in Hr. injection Hr as <- <-. rewrite Hlen. simpl in *.
  assert (machine_of r3 = MkMachine (state (service r3))
    (filter (fun '(_, t) => ticket_profile_id t <> p) (stream_tickets (service r)))
    (filter (fun '(id, _) => id ∉ removed) (in_flight_keith_input (service r)))
    (cells (in_flight_on (in_flight_keith_input (service r)) removed) ∪ cancelled (world r))) as Hm.
  { unfold machine_of. by rewrite T, F, C, Hs, Hc. }
  rewrite Hm, R, S, W, Hs. simpl. split_and!; try done.
  eapply (step_delete _ (MkMachine _ _ _ _)); machine; [done| |done..].
  intros i. rewrite <-Eids. apply elem_of_profile_screens.
Qed.

Lemma delete_profile_moves p r res r' :
  running_ok r -> delete_profile new_id p r = (res, r') -> moved (Deletes p) False r r'.
Proof.
  intros Hok Hr. apply delete_profile_outcome in Hr; [|done]. destruct res as [[|n]|e].
  - destruct Hr as [-> _]. by apply moved_idle.
  - destruct Hr as (_ & Hroot & Hf & _ & Hs & _). constructor; [done..|by apply rtc_once|done].
  - destruct Hr as (Hs & Hc & Hf). constructor; rewrite ?Hs; try done. unfold machine_of. by rewrite Hs, Hc.
Qed.

Lemma take_user_control_moves profile id rev user now r res r' :
  running_ok r -> take_user_control new_id profile id rev user now r = (res, r') ->
  moved Other (is_ok res = true) r r'.
Proof.
  intros Hok Hr. unfold take_user_control in Hr. rewrite stateT_bind_unfold in Hr. unfold gets in Hr.
  rewrite stateT_bind_unfold in Hr. unfold lift in Hr. destruct (validate_transfer _ _ _ _).
  - eapply revoked_moves; [|done|exact Hr]. done.
  - injection Hr as <- <-. eapply moved_weaken; [|by apply moved_idle]. discriminate.
Qed.

Lemma pause_moves profile id rev now r res r' :
  running_ok r -> pause new_id profile id rev now r = (res, r') -> moved Other (is_ok res = true) r r'.
Proof.
  intros Hok Hr. unfold pause in Hr. rewrite stateT_bind_unfold in Hr. unfold gets in Hr.
  rewrite stateT_bind_unfold in Hr. unfold lift in Hr. destruct (validate_transfer _ _ _ _).
  - eapply revoked_moves; [|done|exact Hr]. done.
  - injection Hr as <- <-. eapply moved_weaken; [|by apply moved_idle]. discriminate.
Qed.

Lemma grant_keith_control_moves profile id rev now r res r' :
  running_ok r -> grant_keith_control new_id profile id rev now r = (res, r') -> moved Other (is_ok res = true) r r'.
Proof.
  intros Hok Hr. unfold grant_keith_control in Hr. rewrite stateT_bind_unfold in Hr. unfold gets in Hr.
  rewrite stateT_bind_unfold in Hr. unfold lift in Hr. destruct (ok_or _ _).
  - by eapply granted_moves.
  - injection Hr as <- <-. eapply moved_weaken; [|by apply moved_idle]. discriminate.
Qed.

Lemma discard_inv {A : Type} (m : ctl_m A) r res r' :
  discard m r = (res, r') -> exists res0, m r = (res0, r') /\ is_ok res0 = is_ok res.
Proof.
  unfold discard. rewrite stateT_bind_unfold. destruct (m r) as [[a|e] r1] eqn:E; intros H; injection H as <- <-; eauto.
Qed.

(** Every operation is a sequence of steps of the machine under its label, keeps
    the file valid, and leaves the new state in it when it promises to. *)
Lemma perform_moves op r res r' :
  running_ok r -> perform op r = (res, r') -> moved (label op) (persists op && is_ok res = true)%bool r r'.
Proof.
  intros Hok Hr. destruct op; cbn [perform label persists andb] in *;
    try (apply discard_inv in Hr as (res0 & Hr & Hres); rewrite <-?Hres).
  - by eapply create_screen_moves.
  - by eapply negotiate_stream_outcome.
  - eapply moved_weaken; [|by eapply consume_stream_ticket_moves]. discriminate.
  - eapply moved_weaken; [|by eapply register_keith_input_moves]. discriminate.
  - eapply moved_weaken; [|by eapply finish_keith_input_moves]. discriminate.
  - by eapply take_user_control_moves.
  - by eapply request_keith_control_moves.
  - by eapply grant_keith_control_moves.
  - by eapply pause_moves.
  - eapply moved_weaken; [|by eapply delete_profile_moves]. discriminate.
  - by eapply update_screen_moves.
Qed.
End operations.
