(* ===== verification/ScreenRestart.v ===== *)
(** * Opening the computer-control service

    What [open] makes of the file it finds: it pauses every expired lease, it
    starts in the invariant of the machine, and on a working disk it succeeds
    after any history of the service. *)

From Stdlib Require Import ZArith Lia String.
From stdpp Require Import base decidable countable relations gmap sorting option list.
From S2P Require Import Prelude RustStd Sha2 AgentTypes Json FileSystem PlatformContracts ScreenControl.
From S2P Require Import ScreenMachine ScreenRefinement.

(** What a restart at [now] makes of a screen. *)
Definition restarted (now : UtcTimestamp) (x y : ScreenSession) : Prop :=
  if rleb (expires_at (control x)) now then
    exists id expires message,
      unix_millis expires = (unix_millis now + DEFAULT_LEASE_TTL_MS)%Z /\
      y = MkScreen (screen_session_id x) (screen_computer x) (screen_profile_id x) Reconnecting (quality x)
            (MkLease id (screen_computer x) (screen_profile_id x) Paused None
               (u64_saturating_add (revision (control x)) 1) now expires)
            (observers x) (frame_sequence x) (active_action x) (intended_action x) (recording x) (Some message) now
  else y = x.

(** What a restart at [now] makes of a state. *)
Record restarted_state (now : UtcTimestamp) (s s' : ControlState) : Prop := {
  restarted_version : version s' = version s;
  restarted_index : computer_index s' = computer_index s;
  restarted_pending : pending_keith s' = pending_keith s;
  restarted_screens : map_relation (fun _ => restarted now) (fun _ _ => False) (fun _ _ => False)
                        (screens s) (screens s')
}.

(** The same world with a disk that works. *)
Definition heal (w : ControlWorld) : ControlWorld :=
  MkControlWorld (MkFs (entries (cw_fs w)) []) (cw_drawn w) (cancelled w).

Section restart.
Context (new_id : nat -> EntityId) `{HC : ControlCodec}.

Lemma restarted_ok now s s' x y id :
  restarted now x y -> computer_index s' = computer_index s -> screen_ok s id x -> screen_ok s' id y.
Proof.
  unfold restarted. intros Hr Hi [Hl Hid Ho Hx Hc Hp]. destruct (rleb _ _).
  - destruct Hr as (i & e & m & He & ->). constructor; simpl; try done; [|by rewrite Hi].
    unfold lease_validate. simpl.
    assert (rleb e now = false) as ->; [|done]. unfold rleb.
    assert (rcmp e now = Gt) as ->; [|done]. change (Z.compare (unix_millis e) (unix_millis now) = Gt).
    apply Z.compare_gt_iff. rewrite He. unfold DEFAULT_LEASE_TTL_MS. lia.
  - subst y. by constructor; rewrite ?Hi.
Qed.

Lemma restarted_valid now s s' : restarted_state now s s' -> valid s -> valid s'.
Proof.
  rewrite !valid_ok. intros [Hv Hi Hp Hs] [Ov Os Osc Op].
  assert (forall id, is_Some (screens s' !! id) <-> is_Some (screens s !! id)) as Hdom.
  { intros id. specialize (Hs id). destruct (screens s !! id), (screens s' !! id); naive_solver. }
  constructor.
  - congruence.
  - rewrite Hi, <-Os, <-!size_dom. f_equal. apply set_eq. intros id. by rewrite !elem_of_dom.
  - intros id y Hy. specialize (Hs id). rewrite Hy in Hs. destruct (screens s !! id) as [x|] eqn:Hx; [|done].
    simpl in Hs. eapply restarted_ok; [done..|]. by apply Osc.
  - intros id Hid. rewrite Hp in Hid. by apply Hdom, Op.
Qed.

Lemma paused_lease_validate id computer profile rev now expires :
  (unix_millis now < unix_millis expires)%Z ->
  lease_validate (MkLease id computer profile Paused None rev now expires) = Ok tt.
Proof.
  intros Hlt. unfold lease_validate. simpl. assert (rleb expires now = false) as ->; [|done].
  unfold rleb. assert (rcmp expires now = Gt) as ->; [|done]. by apply Z.compare_gt_iff.
Qed.

Lemma add_millis_total now millis :
  is_i64 (unix_millis now + millis) -> add_millis now millis = Ok (MkUtcTimestamp (unix_millis now + millis)).
Proof.
  intros Hi. unfold add_millis.
  destruct (i64_checked_add _ _) as [t|] eqn:E; [by apply i64_checked_add_Some in E as [-> _]|].
  unfold i64_checked_add, is_i64 in *. case_match; [done|]. bool_inv. lia.
Qed.

(** One screen: it only fails when the new lease would outlive the clock. *)
Lemma restart_screen_run now m b id x w :
  m !! id = Some x ->
  exists res w', restart_screen new_id now (m, b) (id, x) w = (res, w') /\
    cw_fs w' = cw_fs w /\ cancelled w' = cancelled w /\
    match res with
    | Ok (m', b') => exists y, restarted now x y /\ m' !! id = Some y /\
        (forall j, j <> id -> m' !! j = m !! j) /\ (b' = false -> b = false /\ m' = m)
    | Err _ => ~ is_i64 (unix_millis now + DEFAULT_LEASE_TTL_MS)
    end.
Proof.
  intros Hx. unfold restart_screen, restarted. destruct (rleb (expires_at (control x)) now) eqn:Ee.
  2: { exists (Ok (m, b)), w. split_and!; [done..|]. exists x. done. }
  cbv [paused_lease mbind stateT_bind draw lift mret stateT_ret].
  destruct (add_millis now DEFAULT_LEASE_TTL_MS) as [t|e] eqn:Et.
  - apply add_millis_ok in Et as [Ht _].
    rewrite paused_lease_validate by (rewrite Ht; unfold DEFAULT_LEASE_TTL_MS; lia).
    cbn [map_err]. replace (redacted_parse _) with (Ok (E := ContractError) (MkRedactedText (str "control lease expired during restart")))
      by (vm_compute; reflexivity).
    eexists _, _. split_and!; [reflexivity|done..|]. eexists. split; [do 3 eexists; split; [exact Ht|reflexivity]|].
    split_and!; [apply lookup_insert_eq| |done]. intros j Hj. by apply lookup_insert_ne.
  - eexists _, _. split_and!; [reflexivity|done..|]. intros Hi. by rewrite add_millis_total in Et.
Qed.

Lemma restart_screens_run now es m b w :
  NoDup es.*1 -> (forall id x, (id, x) ∈ es -> m !! id = Some x) ->
  exists res w', restart_screens new_id now (m, b) es w = (res, w') /\
    cw_fs w' = cw_fs w /\ cancelled w' = cancelled w /\
    match res with
    | Ok (m', b') =>
        (forall id x, (id, x) ∈ es -> exists y, m' !! id = Some y /\ restarted now x y) /\
        (forall id, id ∉ es.*1 -> m' !! id = m !! id) /\ (b' = false -> b = false /\ m' = m)
    | Err _ => ~ is_i64 (unix_millis now + DEFAULT_LEASE_TTL_MS)
    end.
Proof.
  revert m b w. induction es as [|[id x] es IH]; intros m b w Hnd Hin.
  { exists (Ok (m, b)), w. split_and!; try done. intros id x Hx. by apply not_elem_of_nil in Hx. }
  apply NoDup_cons in Hnd as [Hid Hnd].
  destruct (restart_screen_run now m b id x w) as (res1 & w1 & Hr1 & Hf1 & Hc1 & H1); [apply Hin; by left|].
  cbn [restart_screens]. rewrite stateT_bind_unfold, Hr1. destruct res1 as [[m1 b1]|e]; [|by eexists _, _].
  destruct H1 as (y & Hy & Hm1 & Hother & Hb1).
  destruct (IH m1 b1 w1 Hnd) as (res2 & w2 & Hr2 & Hf2 & Hc2 & H2).
  { intros j z Hj. rewrite Hother; [apply Hin; by right|]. intros ->. apply Hid, list_elem_of_fmap. by exists (id, z). }
  exists res2, w2. split_and!; [done|congruence..|]. destruct res2 as [[m2 b2]|e]; [|done].
  destruct H2 as (Hall & Hrest & Hb2). split_and!.
  - intros j z [[= -> ->]|Hj]%elem_of_cons; [|by apply Hall]. exists y. by rewrite Hrest.
  - intros j Hj. cbn in Hj. apply not_elem_of_cons in Hj as [Hne Hj]. by rewrite Hrest, Hother.
  - intros Hb. destruct (Hb2 Hb) as [Hb' ->]. by apply Hb1.
Qed.

(** The loop over all the screens of a state. *)
Lemma restart_all now s w :
  exists res w', restart_screens new_id now (screens s, false) (btree_iter (screens s)) w = (res, w') /\
    cw_fs w' = cw_fs w /\ cancelled w' = cancelled w /\
    match res with
    | Ok (m, changed) =>
        restarted_state now s (MkControlState (version s) m (computer_index s) (pending_keith s)) /\
        (changed = false -> m = screens s)
    | Err _ => ~ is_i64 (unix_millis now + DEFAULT_LEASE_TTL_MS)
    end.
Proof.
  destruct (restart_screens_run now (btree_iter (screens s)) (screens s) false w) as (res & w' & Hr & Hf & Hc & H).
  { apply NoDup_btree_keys. }
  { intros id x Hx. by apply elem_of_btree_iter. }
  exists res, w'. split_and!; [done..|]. destruct res as [[m changed]|e]; [|done].
  destruct H as (Hall & Hrest & Hch). split; [|intros Hb; by apply Hch]. constructor; simpl; try done.
  intros id. destruct (screens s !! id) as [x|] eqn:Hx.
  - destruct (Hall id x) as (y & -> & Hy); [by apply elem_of_btree_iter|]. done.
  - rewrite Hrest, Hx; [done|]. intros Hin. change (id ∈ btree_keys (screens s)) in Hin.
    apply elem_of_btree_keys in Hin as [? ?]. congruence.
Qed.

(** ** Reading the state *)

Definition names_in (dir : Path) (es : gmap Path Entry) : list rstr :=
  omap (fun q => name ← last q; if bool_decide (q = path_join dir name) then Some name else None) (map_to_list es).*1.

Lemma elem_of_names_in dir es name : name ∈ names_in dir es <-> is_Some (es !! path_join dir name).
Proof.
  unfold names_in. rewrite list_elem_of_omap. split.
  - intros (q & Hq & Hn). apply list_elem_of_fmap in Hq as ([q' e] & -> & Hq). apply elem_of_map_to_list in Hq. simpl in *.
    destruct (last q') as [n|] eqn:El; [|done]. simpl in Hn. case_bool_decide as Heq; [|done].
    injection Hn as <-. rewrite <-Heq. by exists e.
  - intros [e He]. exists (path_join dir name). split.
    + apply list_elem_of_fmap. exists (path_join dir name, e). split; [done|]. by apply elem_of_map_to_list.
    + unfold path_join. rewrite last_snoc. simpl. by rewrite bool_decide_true.
Qed.

Lemma NoDup_names_in dir es : NoDup (names_in dir es).
Proof.
  unfold names_in. pose proof (NoDup_fst_map_to_list es) as Hnd. revert Hnd.
  generalize ((map_to_list es).*1) as qs. induction qs as [|q qs IH]; simpl; [constructor|].
  intros [Hq Hnd]%NoDup_cons. destruct (last q) as [n|] eqn:El; simpl; [|auto].
  case_bool_decide as Heq; [|auto]. apply NoDup_cons. split; [|auto].
  intros (q' & Hq' & Hn)%list_elem_of_omap. destruct (last q') as [n'|]; simpl in Hn; [|done].
  case_bool_decide as Heq'; [|done]. injection Hn as ->. congruence.
Qed.

Lemma temporary_not_control dir name : is_temporary name = true -> path_join dir name <> control_path dir.
Proof. intros Ht Heq%path_join_inj. rewrite Heq in Ht. discriminate Ht. Qed.

(** An I/O call of which only success matters. *)
Lemma triple_io_any {A : Type} (act : gmap Path Entry -> result IoError A * gmap Path Entry)
    (failed : option (list Z) -> gmap Path Entry -> gmap Path Entry)
    (P : gmap Path Entry -> Prop) (Q : A -> gmap Path Entry -> Prop) :
  (forall es, P es -> match act es with (Ok a, es') => Q a es' | _ => True end) ->
  triple (fun w => P (entries (cw_fs w))) (try_io (io act failed))
    (fun a w => Q a (entries (cw_fs w))) (fun _ => True).
Proof.
  intros Hact w r w' HP Hr. pose proof (triple_try_io act failed P Q (fun _ => True) (cancelled w)) as Ht.
  specialize (Ht Hact ltac:(done) w r w' (conj HP eq_refl) Hr). by destruct r, Ht.
Qed.

(** A call whose result is inspected: it fails as [act] says or as the script says. *)
Lemma triple_inspect {A : Type} (act : gmap Path Entry -> result IoError A)
    (P : gmap Path Entry -> Prop) (Q : result IoError A -> gmap Path Entry -> Prop) :
  (forall es, P es -> Q (act es) es) -> (forall es, P es -> Q (Err IoOther) es) ->
  triple (fun w => P (entries (cw_fs w))) (attempt (F := ControlError) (on_fs (io (fun es => (act es, es)) unchanged)))
    (fun r w => Q r (entries (cw_fs w))) (fun _ => True).
Proof.
  intros Hact Hfail w r w' HP Hr. unfold attempt, on_fs, io, unchanged in Hr.
  destruct (script (cw_fs w)) as [|[|leaves] rest]; injection Hr as <- <-; simpl; auto.
Qed.

(** What the temporary files not yet seen leave to check. *)
Definition swept (dir : Path) (names : list rstr) (es : gmap Path Entry) : Prop :=
  es !! dir = Some EDir /\
  forall name, is_temporary name = true -> name ∉ names -> es !! path_join dir name <> Some EDir.

Lemma sweep_spec dir names :
  triple (fun w => swept dir names (entries (cw_fs w)))
    (try_for (fun name => _ ← try_io fs_next_entry;
       if is_temporary name then try_io (fs_remove_file (path_join dir name)) else mret tt) names)
    (fun _ w => swept dir [] (entries (cw_fs w))) (fun _ => True).
Proof.
  induction names as [|name names IH]; [by apply triple_ret|].
  eapply (triple_bind _ _ (fun _ w => swept dir names (entries (cw_fs w)))); [|intros _; exact IH].
  eapply (triple_bind _ _ (fun _ w => swept dir (name :: names) (entries (cw_fs w)))).
  { by apply (triple_io_any _ _ (swept dir (name :: names)) (fun _ => swept dir (name :: names))). }
  intros _. destruct (is_temporary name) eqn:Et.
  - apply (triple_io_any _ _ (swept dir (name :: names)) (fun _ => swept dir names)). intros es [Hd Hs].
    destruct (es !! path_join dir name) as [[]|]; try done; split;
      [by rewrite lookup_delete_ne by apply path_join_ne| |by rewrite lookup_delete_ne by apply path_join_ne|];
      intros n Hn Hout He; apply lookup_delete_Some in He as [Hne He]; apply (Hs n); set_solver.
  - apply triple_ret. intros w [Hd Hs]. split; [done|]. intros n Hn Hout. apply Hs; [done|].
    intros [->|]%elem_of_cons; [congruence|done].
Qed.

(** The state [s] is what a file system has for the service. *)
Definition found (dir : Path) (s : ControlState) (es : gmap Path Entry) : Prop :=
  file_has dir s es \/ es !! control_path dir = None /\ s = ControlState_default.

Lemma read_state_spec dir :
  triple (fun _ => True) (read_state dir)
    (fun s w => file_ok dir (entries (cw_fs w)) /\ found dir s (entries (cw_fs w)) /\ valid s) (fun _ => True).
Proof.
  unfold read_state, discard_temporary_files.
  eapply (triple_bind _ _ (fun r w => r = Ok EDir -> entries (cw_fs w) !! dir = Some EDir)).
  { apply (triple_inspect (fun es => ok_or (es !! dir) IoNotFound) (fun _ => True)
      (fun r es => r = Ok EDir -> es !! dir = Some EDir)); [|done]. intros es _ Hr. by apply ok_or_Ok in Hr. }
  intros metadata. eapply (triple_bind _ _ (fun _ w => entries (cw_fs w) !! dir = Some EDir)).
  { destruct metadata as [[b| |]|e]; [by apply triple_throw|apply triple_ret; auto|by apply triple_throw|].
    apply (triple_io_any _ _ (fun es => Err e = Ok EDir -> es !! dir = Some EDir) (fun _ es => es !! dir = Some EDir)).
    intros es _. destruct (es !! dir) as [[]|] eqn:E; try done. apply lookup_insert_eq. }
  intros _. eapply (triple_bind _ _ (fun _ w => swept dir [] (entries (cw_fs w)))).
  { eapply (triple_bind _ _ (fun names w => swept dir names (entries (cw_fs w)))); [|intros names; apply sweep_spec].
    apply (triple_io_any _ _ (fun es => es !! dir = Some EDir) (fun names es => swept dir names es)).
    intros es Hd. split; [done|]. intros name _ Hout He. apply Hout, elem_of_names_in. by exists EDir. }
  intros _. eapply (triple_bind _ _ (fun r w => swept dir [] (entries (cw_fs w)) /\
    match r with
    | Ok bytes => entries (cw_fs w) !! control_path dir = Some (EFile bytes)
    | Err IoNotFound => entries (cw_fs w) !! control_path dir = None
    | Err _ => True
    end)).
  { apply (triple_inspect _ (swept dir []) (fun r es => swept dir [] es /\
      match r with
      | Ok bytes => es !! control_path dir = Some (EFile bytes)
      | Err IoNotFound => es !! control_path dir = None
      | Err _ => True
      end)); [|done]. intros es Hs. split; [done|]. unfold control_path.
    by destruct (es !! path_join dir CONTROL_FILE) as [[]|]. }
  intros read. eapply (triple_bind _ _ (fun s w => swept dir [] (entries (cw_fs w)) /\ found dir s (entries (cw_fs w)))).
  { destruct read as [bytes|[]]; [|apply triple_ret; intros w [? ?]; split; [done|by right]|by apply triple_throw].
    apply triple_lift; [|done]. intros s w Hs [Hsw Hf]. split; [done|]. left. exists bytes. split; [done|].
    destruct (from_slice bytes); simpl in Hs; congruence. }
  intros s. apply triple_lift_bind; [|done]. intros [] Hv. apply triple_ret. intros w [[Hd Ht] Hf].
  split; [|done]. split_and!; [done|..].
  - intros name Hn. apply Ht; [done|]. apply not_elem_of_nil.
  - destruct Hf as [Hf|[Hf _]]; [right; by exists s|by left].
Qed.

(** A service that [open] returns satisfies the invariants, and its state is what
    the restart makes of the state it found. *)
Lemma open_running dir now w self w' :
  open new_id dir now w = (Ok self, w') ->
  running_ok (MkRunning self w') /\ root self = dir /\ stream_tickets self = ∅ /\ in_flight_keith_input self = ∅ /\
  exists s w1, read_state dir w = (Ok s, w1) /\ restarted_state now s (state self).
Proof.
  unfold open. rewrite stateT_bind_unfold. destruct (read_state dir w) as [[s|e] w1] eqn:Er; [|done].
  pose proof (read_state_spec dir w _ _ I Er) as (Hf & _ & Hv). rewrite stateT_bind_unfold.
  destruct (restart_all now s w1) as (res & w2 & Hr & Hfs & Hc & Hres). rewrite Hr.
  destruct res as [[m changed]|e]; [|done]. destruct Hres as [Hst Hch].
  set (s' := MkControlState _ m _ _) in *. pose proof (restarted_valid _ _ _ Hst Hv) as Hv'.
  rewrite <-Hfs in Hf. rewrite stateT_bind_unfold.
  assert (machine_inv (MkMachine s' ∅ ∅ (cancelled w'))) as Hm.
  { constructor; machine; [done| |by rewrite map_size_empty; apply Nat.le_0_l|]; intros ? ? Hl; by rewrite lookup_empty in Hl. }
  destruct ((if changed then persist_state new_id dir s' else mret tt) w2) as [[u|e] w3] eqn:Ep; [|done].
  intros H. injection H as <- <-. split; [|by eauto 8]. split; [exact Hm|]. simpl. destruct changed.
  - by destruct (persist_state_spec _ _ s' (cancelled w2) Hv' w2 _ _ (conj Hf eq_refl) Ep) as [[? _] _].
  - by injection Ep as _ <-.
Qed.

(** What [open] leaves on the disk is what it returns. *)
Lemma open_found dir now w self w' :
  open new_id dir now w = (Ok self, w') -> found dir (state self) (entries (cw_fs w')).
Proof.
  unfold open. rewrite stateT_bind_unfold. destruct (read_state dir w) as [[s|e] w1] eqn:Er; [|done].
  pose proof (read_state_spec dir w _ _ I Er) as (Hf & Hs & Hv). rewrite stateT_bind_unfold.
  destruct (restart_all now s w1) as (res & w2 & Hr & Hfs & Hc & Hres). rewrite Hr.
  destruct res as [[m changed]|e]; [|done]. destruct Hres as [Hst Hch].
  set (s' := MkControlState _ m _ _) in *. pose proof (restarted_valid _ _ _ Hst Hv) as Hv'.
  rewrite <-Hfs in Hf, Hs. rewrite stateT_bind_unfold. destruct changed.
  - destruct (persist_state new_id dir s' w2) as [[u|e] w3] eqn:Ep; [|done]. intros [= <- <-]. left.
    by destruct (persist_state_spec _ _ s' (cancelled w2) Hv' w2 _ _ (conj Hf eq_refl) Ep) as [[_ ?] _].
  - cbn [mret stateT_ret]. rewrite stateT_bind_unfold || idtac. intros [= <- <-]. simpl.
    assert (s' = s) as ->; [|done]. unfold s'. rewrite Hch by done. by destruct s.
Qed.

(** ** On a working disk *)

Abbreviation working es n c := (MkControlWorld (MkFs es []) n c).

Lemma try_io_works {A : Type} (act : gmap Path Entry -> result IoError A * gmap Path Entry) failed es n c :
  try_io (io act failed) (working es n c) = (map_err Io (act es).1, working (act es).2 n c).
Proof. unfold try_io, on_fs, io. simpl. by destruct (act es). Qed.

Lemma attempt_io_works {A F : Type} (act : gmap Path Entry -> result IoError A * gmap Path Entry) failed es n c :
  attempt (F := F) (on_fs (io act failed)) (working es n c) = (Ok (act es).1, working (act es).2 n c).
Proof. unfold attempt, on_fs, io. simpl. by destruct (act es). Qed.

Lemma is_temporary_temporary id :
  is_temporary (str "." ++ CONTROL_FILE ++ str "." ++ as_str id ++ str ".tmp") = true.
Proof.
  unfold is_temporary, ends_with. rewrite !app_assoc, reverse_app, <-!app_assoc.
  generalize (reverse (str "." ++ CONTROL_FILE ++ str "." ++ as_str id)) as rest. intros rest.
  vm_compute (str ".tmp"). vm_compute (str "." ++ CONTROL_FILE ++ str "."). cbn.
  reflexivity.
Qed.

Lemma sweep_works dir names es n c :
  NoDup names -> (forall name, name ∈ names -> is_Some (es !! path_join dir name)) -> file_ok dir es ->
  exists es', try_for (fun name => _ ← try_io fs_next_entry;
       if is_temporary name then try_io (fs_remove_file (path_join dir name)) else mret tt) names (working es n c) =
     (Ok tt, working es' n c) /\ file_ok dir es' /\ es' !! control_path dir = es !! control_path dir.
Proof.
  revert es. induction names as [|name names IH]; intros es Hnd Hin Hok; [by exists es|].
  apply NoDup_cons in Hnd as [Hname Hnd]. cbn [try_for]. rewrite stateT_bind_unfold.
  rewrite stateT_bind_unfold. unfold fs_next_entry. rewrite try_io_works. cbn [fst snd map_err].
  destruct (is_temporary name) eqn:Et; [|apply IH; [done|intros; apply Hin; by right|done]].
  unfold fs_remove_file. rewrite try_io_works. destruct (Hin name) as [e He]; [by left|]. rewrite He.
  assert (file_ok dir (delete (path_join dir name) es)) as Hok'.
  { revert Hok. apply (file_ok_other _ (path_join dir name)); [apply path_join_ne|by apply temporary_not_control|..].
    - by rewrite lookup_delete_eq.
    - intros q Hq. by rewrite lookup_delete_ne. }
  assert (e <> EDir) as Hne. { intros ->. destruct Hok as (_ & Ht & _). by apply (Ht name). }
  destruct (IH (delete (path_join dir name) es)) as (es' & Hr & Hok2 & Hsame); [done| |done|].
  { intros m Hm. rewrite lookup_delete_ne; [apply Hin; by right|]. intros Heq%path_join_inj. by subst. }
  exists es'. rewrite lookup_delete_ne in Hsame by by apply temporary_not_control.
  destruct e; [|done|]; exact (conj Hr (conj Hok2 Hsame)).
Qed.

Lemma read_state_works dir es n c :
  file_ok dir es ->
  exists s es', read_state dir (working es n c) = (Ok s, working es' n c) /\ file_ok dir es' /\ found dir s es /\ valid s.
Proof.
  intros Hok. pose proof Hok as (Hd & _). unfold read_state, discard_temporary_files.
  rewrite stateT_bind_unfold. unfold fs_symlink_metadata. rewrite attempt_io_works. cbn [fst snd].
  rewrite Hd. cbn [ok_or]. rewrite stateT_bind_unfold. cbn [mret stateT_ret].
  rewrite !stateT_bind_unfold. unfold fs_read_dir. rewrite try_io_works. cbn [fst snd map_err].
  destruct (sweep_works dir (names_in dir es) es n c) as (es' & Hr & Hok' & Hsame);
    [apply NoDup_names_in|by intros name ?%elem_of_names_in|done|].
  fold (names_in dir es). rewrite Hr. rewrite stateT_bind_unfold.
  unfold fs_read. rewrite attempt_io_works. cbn [fst snd].
  fold (control_path dir). rewrite Hsame. rewrite stateT_bind_unfold.
  destruct Hok as (_ & _ & [Hn|(s & (bytes & Hb & Hs) & Hv)]).
  - rewrite Hn. exists ControlState_default, es'. split_and!; [done|done|by right|done].
  - rewrite Hb, Hs. exists s, es'. cbn [map_err lift]. rewrite stateT_bind_unfold. unfold lift. rewrite Hv.
    split_and!; [done|done|left; by exists bytes|done].
Qed.

Context (Hserial : forall s, exists bytes, to_vec_pretty s = Ok bytes).

Lemma persist_state_works dir s es n c :
  file_ok dir es -> exists es' n', persist_state new_id dir s (working es n c) = (Ok tt, working es' n' c).
Proof.
  intros (Hd & Ht & Hf). destruct (Hserial s) as [bytes Hb]. unfold persist_state.
  rewrite stateT_bind_unfold. unfold draw. cbn [cw_drawn cw_fs cancelled]. set (id := new_id n).
  fold (temporary_of dir id). fold (control_path dir).
  assert (exists es', (bytes ← lift (map_err JsonFailure (to_vec_pretty s));
     _ ← try_io (fs_write (temporary_of dir id) bytes); _ ← try_io (fs_sync (temporary_of dir id));
     _ ← try_io (fs_rename (temporary_of dir id) (control_path dir)); try_io (fs_sync dir)) (working es (S n) c) =
     (Ok tt, working es' (S n) c)) as [es' Hw]; [|exists es', (S n); rewrite stateT_bind_unfold; unfold attempt; by rewrite Hw].
  rewrite stateT_bind_unfold, Hb. unfold lift, map_err. rewrite stateT_bind_unfold. unfold fs_write. rewrite try_io_works.
  pose proof (Ht _ (is_temporary_temporary id)) as Htmp. fold (temporary_of dir id) in Htmp.
  assert ((match es !! temporary_of dir id with
           | Some EDir => (Err IoOther, es)
           | _ => (Ok tt, <[temporary_of dir id := EFile bytes]> es)
           end) = (Ok tt, <[temporary_of dir id := EFile bytes]> es)) as ->.
  { by destruct (es !! temporary_of dir id) as [[]|]. }
  cbn [fst snd map_err]. rewrite stateT_bind_unfold. unfold fs_sync. rewrite try_io_works.
  rewrite lookup_insert_eq. cbn [fst snd map_err]. rewrite stateT_bind_unfold. unfold fs_rename. rewrite try_io_works.
  rewrite lookup_insert_eq, lookup_insert_ne by apply temporary_ne.
  assert (es !! control_path dir <> Some EDir) as Hc. { destruct Hf as [->|(x & (b & -> & _) & _)]; done. }
  eexists. destruct (es !! control_path dir) as [[]|]; [|done|..]; cbn [fst snd map_err]; rewrite try_io_works;
    rewrite lookup_insert_ne, lookup_delete_ne, lookup_insert_ne, Hd by apply path_join_ne; reflexivity.
Qed.

(** On a working disk, a service whose file is in order opens, with the state
    found there restarted. *)
Lemma open_works dir now w :
  file_ok dir (entries (cw_fs w)) -> is_i64 (unix_millis now + DEFAULT_LEASE_TTL_MS) ->
  exists self w' s, open new_id dir now (heal w) = (Ok self, w') /\
    found dir s (entries (cw_fs w)) /\ restarted_state now s (state self).
Proof.
  intros Hok Hi. unfold heal, open. rewrite stateT_bind_unfold.
  destruct (read_state_works dir _ (cw_drawn w) (cancelled w) Hok) as (s & es' & Hr & Hok' & Hfound & Hv).
  rewrite Hr, stateT_bind_unfold.
  destruct (restart_all now s (working es' (cw_drawn w) (cancelled w))) as (res & [fs2 n2 c2] & Hr2 & Hfs & Hc & Hres).
  simpl in Hfs, Hc. subst fs2 c2. rewrite Hr2. destruct res as [[m changed]|e]; [|done]. destruct Hres as [Hst _].
  set (s' := MkControlState _ m _ _) in *. rewrite stateT_bind_unfold. destruct changed.
  - destruct (persist_state_works dir s' es' n2 (cancelled w) Hok') as (es3 & n3 & ->).
    eexists _, _, s. split; [reflexivity|]. done.
  - eexists _, _, s. split; [reflexivity|]. done.
Qed.

Lemma file_has_det dir s s' es : file_has dir s es -> found dir s' es -> s' = s.
Proof.
  intros (b & Hb & Hs) [(b' & Hb' & Hs')|[Hn _]]; [|congruence]. rewrite Hb in Hb'. injection Hb' as <-. congruence.
Qed.
Lemma found_det dir s s' es : found dir s es -> found dir s' es -> s' = s.
Proof.
  intros [Hs|[Hn ->]] Hs'; [by eapply file_has_det|]. destruct Hs' as [(b & Hb & _)|[_ ->]]; [congruence|done].
Qed.

Lemma found_valid dir s es : file_ok dir es -> found dir s es -> valid s.
Proof.
  intros (_ & _ & [Hn|(s2 & Hh & Hv)]) Hs; [|by rewrite (file_has_det _ _ _ _ Hh Hs)].
  destruct Hs as [(b & Hb & _)|[_ ->]]; [congruence|done].
Qed.
End restart.
