(* ===== verification/ScreenSaves.v ===== *)
(** * What the operations of computer control save

    Every operation runs beside a twin on a disk that works.  An operation that
    succeeds has saved the state it leaves, or left the state alone; one that
    fails has left the file alone, or saved what its twin reaches. *)

From Stdlib Require Import ZArith Lia String.
From stdpp Require Import base decidable countable relations gmap sorting option list.
From S2P Require Import Prelude RustStd Sha2 AgentTypes Json FileSystem PlatformContracts ScreenControl.
From S2P Require Import ScreenMachine ScreenRefinement ScreenRestart.

#[local] Opaque MAX_STREAM_TICKETS MAX_OBSERVERS.

(** The service on a disk that works. *)
Definition healed (r : Running) : Running := MkRunning (service r) (heal (world r)).

(** [rh] is [r] on a disk that works. *)
Record twins (r rh : Running) : Prop := {
  twins_service : service rh = service r;
  twins_entries : entries (cw_fs (world rh)) = entries (cw_fs (world r));
  twins_drawn : cw_drawn (world rh) = cw_drawn (world r);
  twins_cancelled : cancelled (world rh) = cancelled (world r);
  twins_works : script (cw_fs (world rh)) = []
}.

Lemma healed_twins r : twins r (healed r).
Proof. by split. Qed.

(** The file of a running service, if there is one. *)
Definition saved_entry (r : Running) : option Entry := entries (cw_fs (world r)) !! control_path (root (service r)).

(** Steps that both twins take and that do not touch the disk. *)
Definition lockstep {A : Type} (m : ctl_m A) : Prop :=
  forall r rh, twins r rh -> exists res r' rh', m r = (res, r') /\ m rh = (res, rh') /\ twins r' rh'
    /\ cw_fs (world r') = cw_fs (world r) /\ root (service r') = root (service r).

Lemma lockstep_lift {A : Type} (x : result ControlError A) : lockstep (lift x).
Proof. intros r rh H. by exists x, r, rh. Qed.

Lemma lockstep_service : lockstep (gets service).
Proof. intros r rh H. exists (Ok (service r)), r, rh. split_and!; try done. unfold gets. by rewrite (twins_service _ _ H). Qed.

Lemma lockstep_modify (f : Running -> Running) :
  (forall r rh, twins r rh -> twins (f r) (f rh) /\ cw_fs (world (f r)) = cw_fs (world r) /\ root (service (f r)) = root (service r)) ->
  lockstep (modify f).
Proof. intros Hf r rh H. destruct (Hf r rh H) as (H1 & H2 & H3). by exists (Ok tt), (f r), (f rh). Qed.

Lemma lockstep_set_state s : lockstep (modify (set_state s)).
Proof.
  apply lockstep_modify. intros r rh [H1 H2 H3 H4 H5]. split_and!; try done. split; simpl; try done. by rewrite H1.
Qed.

Lemma lockstep_expire now : lockstep (expire_tickets now).
Proof.
  apply lockstep_modify. intros r rh [H1 H2 H3 H4 H5]. split_and!; try done. split; simpl; try done. by rewrite H1.
Qed.

Lemma lockstep_bind {A B : Type} (m : ctl_m A) (k : A -> ctl_m B) :
  lockstep m -> (forall a, lockstep (k a)) -> lockstep (m ≫= k).
Proof.
  intros Hm Hk r rh H. destruct (Hm r rh H) as (res & r1 & rh1 & H1 & H2 & Ht & Hfs & Hroot).
  rewrite !stateT_bind_unfold, H1, H2. destruct res as [a|e]; [|by eexists _, r1, rh1].
  destruct (Hk a r1 rh1 Ht) as (res & r2 & rh2 & E1 & E2 & Ht2 & Hfs2 & Hroot2).
  exists res, r2, rh2. split_and!; [done..|congruence|congruence].
Qed.

Section saves.
Context (new_id : nat -> EntityId) `{HC : ControlCodec, HU : UrlLib, HH : Sha256}.
Context (Hserial : forall s, exists bytes, to_vec_pretty s = Ok bytes).

Lemma lockstep_draw : lockstep (on_world (draw new_id)).
Proof.
  intros r rh [H1 H2 H3 H4 H5]. unfold on_world, draw. rewrite H3.
  eexists _, _, _. split_and!; [reflexivity|reflexivity| |done|done]. by split; simpl; rewrite ?H3.
Qed.

(** ** Writing the file *)

Lemma triple_disk {A : Type} (act : gmap Path Entry -> result IoError A * gmap Path Entry)
    (failed : option (list Z) -> gmap Path Entry -> gmap Path Entry)
    (P : gmap Path Entry -> Prop) (Q : A -> gmap Path Entry -> Prop) (F : gmap Path Entry -> Prop) :
  (forall es, P es -> match act es with (Ok a, es') => Q a es' | (Err _, es') => F es' end) ->
  (forall leaves es, P es -> F (failed leaves es)) ->
  triple (fun w => P (entries (cw_fs w))) (try_io (io act failed))
    (fun a w => Q a (entries (cw_fs w))) (fun w => F (entries (cw_fs w))).
Proof.
  intros Hact Hfail w r w' HP Hr. pose proof (triple_try_io act failed P Q F (cancelled w) Hact Hfail w r w' (conj HP eq_refl) Hr).
  by destruct r as [a|e]; destruct H.
Qed.

(** A write leaves the file as it was, or holding the new state. *)
Lemma persist_state_atomic dir s e :
  triple (fun w => entries (cw_fs w) !! control_path dir = e) (persist_state new_id dir s)
    (fun _ w => file_has dir s (entries (cw_fs w)))
    (fun w => entries (cw_fs w) !! control_path dir = e \/ file_has dir s (entries (cw_fs w))).
Proof.
  set (old := fun es : gmap Path Entry => es !! control_path dir = e). set (new := file_has dir s).
  set (F := fun es => old es \/ new es).
  assert (forall tmp es, tmp <> control_path dir -> F es -> F (delete tmp es)) as Hdel.
  { intros tmp es Hne [Ho|(b & Hb & Hs)]; [left|right; exists b; split; [|done]]; unfold old in *; by rewrite lookup_delete_ne. }
  unfold persist_state. eapply (triple_bind _ _ (fun _ w => old (entries (cw_fs w)))).
  { intros w r w' HP Hr. unfold draw in Hr. by injection Hr as <- <-. }
  intros id. fold (temporary_of dir id) (control_path dir). pose proof (temporary_ne dir id) as Hne.
  eapply (triple_bind _ _ (fun r w => match r with Ok _ => new (entries (cw_fs w)) | Err _ => F (entries (cw_fs w)) end)).
  { eapply triple_weaken; [apply (triple_attempt (fun w => old (entries (cw_fs w))) _ (fun _ w => new (entries (cw_fs w))) (fun w => F (entries (cw_fs w))))|done|done|by intros ? []].
    apply triple_lift_bind; [|intros w Hw; by left]. intros bytes Hbytes.
    assert (from_slice bytes = Ok s) as Hs by (apply from_to_slice; destruct (to_vec_pretty s); simpl in Hbytes; congruence).
    set (P := fun es => old es /\ es !! temporary_of dir id = Some (EFile bytes)).
    assert (forall b es, old es -> old (<[temporary_of dir id := EFile b]> es)) as Hins
      by (intros b es Ho; unfold old; by rewrite lookup_insert_ne).
    eapply (triple_bind _ _ (fun _ w => P (entries (cw_fs w)))).
    { apply (triple_disk _ _ old (fun _ => P) F); [|intros [b|] es Ho; left; auto]. intros es Ho.
      destruct (es !! temporary_of dir id) as [[]|]; try (by left); (split; [by apply Hins|apply lookup_insert_eq]). }
    intros _. eapply (triple_bind _ _ (fun _ w => P (entries (cw_fs w)))).
    { apply (triple_disk _ _ P (fun _ => P) F); [|intros ? es [Ho _]; by left]. intros es [Ho Ht]. by rewrite Ht. }
    intros _. eapply (triple_bind _ _ (fun _ w => new (entries (cw_fs w)))).
    { apply (triple_disk _ _ P (fun _ => new) F); [|intros ? es [Ho _]; by left]. intros es [Ho Ht]. rewrite Ht.
      assert (new (<[control_path dir := EFile bytes]> (delete (temporary_of dir id) es))) as Hn
        by (exists bytes; by rewrite lookup_insert_eq).
      destruct (es !! control_path dir) as [[]|]; done || by left. }
    intros _. apply (triple_disk _ _ new (fun _ => new) F); [|intros ? es Hn; by right]. intros es Hn.
    destruct (es !! dir); [done|by right]. }
  intros [[]|x]; cbn [is_ok].
  - intros w r w' HP Hr. cbv in Hr. by injection Hr as <- <-.
  - eapply (triple_bind _ _ (fun _ w => F (entries (cw_fs w)))); [|intros _; by apply triple_lift].
    eapply (triple_bind _ _ (fun _ w => F (entries (cw_fs w)))); [|intros r; by apply triple_ret].
    eapply triple_weaken; [apply triple_attempt, (triple_disk _ _ F (fun _ => F) F)|..]; [|done|done|by intros []|done].
    intros es Hes. specialize (Hdel _ es Hne Hes). by destruct (es !! temporary_of dir id) as [[]|].
Qed.

(** A computation that saves the state it leaves when it succeeds; when it fails,
    the file is as before or holds the state of the twin. *)
Definition saves {A : Type} (m : ctl_m A) : Prop :=
  forall r rh res r', twins r rh -> file_ok (root (service r)) (entries (cw_fs (world r))) -> m r = (res, r') ->
  root (service r') = root (service r) /\
  match res with
  | Ok _ => file_has (root (service r)) (state (service r')) (entries (cw_fs (world r')))
  | Err _ => saved_entry r' = saved_entry r
      \/ is_ok (m rh).1 = true /\ file_has (root (service r)) (state (service (m rh).2)) (entries (cw_fs (world r')))
  end.

Lemma saves_after {A B : Type} (m : ctl_m A) (k : A -> ctl_m B) :
  lockstep m -> (forall a, saves (k a)) -> saves (m ≫= k).
Proof.
  intros Hm Hk r rh res r' Ht Hf. destruct (Hm r rh Ht) as (res1 & r1 & rh1 & H1 & H2 & Ht1 & Hfs & Hroot).
  rewrite !stateT_bind_unfold, H1, H2. destruct res1 as [a|e].
  - intros Hr. destruct (Hk a r1 rh1 res r' Ht1 ltac:(by rewrite Hroot, Hfs) Hr) as [Hroot' Hres].
    unfold saved_entry in *. rewrite Hroot in *. rewrite Hfs in Hres. done.
  - intros [= <- <-]. split; [done|]. left. unfold saved_entry. by rewrite Hfs, Hroot.
Qed.

(** What follows the write: it succeeds and leaves the state and the disk. *)
Definition calm {A : Type} (k : ctl_m A) : Prop :=
  forall r, exists a r', k r = (Ok a, r') /\ state (service r') = state (service r) /\ cw_fs (world r') = cw_fs (world r)
    /\ root (service r') = root (service r).

Lemma calm_ret {A : Type} (a : A) : calm (mret a).
Proof. intros r. by exists a, r. Qed.

Lemma calm_bind {A B : Type} (m : ctl_m A) (k : A -> ctl_m B) : calm m -> (forall a, calm (k a)) -> calm (m ≫= k).
Proof.
  intros Hm Hk r. destruct (Hm r) as (a & r1 & H1 & S1 & F1 & R1). rewrite stateT_bind_unfold, H1.
  destruct (Hk a r1) as (b & r2 & H2 & S2 & F2 & R2). exists b, r2. split_and!; [done|congruence..].
Qed.

Lemma calm_tickets (f : gmap rstr StreamTicket -> gmap rstr StreamTicket) :
  calm (modify (fun r => set_tickets (f (stream_tickets (service r))) r)).
Proof. intros r. by eexists _, _. Qed.

Lemma calm_cancel ids : calm (try_for cancel_in_flight ids).
Proof. intros r. destruct (try_for_stops ids r) as (r' & Hr & [R S _ _ W _]). by exists tt, r'. Qed.

Lemma calm_cancel_one id : calm (cancel_in_flight id).
Proof. intros r. destruct (cancel_in_flight_stops id r) as (r' & Hr & [R S _ _ W _]). by exists tt, r'. Qed.

Lemma saves_persist previous : saves (persist_or_restore new_id previous).
Proof.
  intros r rh res r' Ht Hf. unfold persist_or_restore, persist.
  rewrite !stateT_bind_unfold. unfold gets. rewrite !stateT_bind_unfold. unfold lift, on_world.
  rewrite (twins_service _ _ Ht). destruct (validate_state (state (service r))) as [[]|e] eqn:Hv; [|intros [= <- <-]; by split; [|left]].
  destruct (persist_state new_id _ _ (world r)) as [res0 w] eqn:Ep.
  pose proof (persist_state_atomic (root (service r)) (state (service r)) _ _ _ _ eq_refl Ep) as Hpost.
  assert (exists w', persist_state new_id (root (service r)) (state (service r)) (world rh) = (Ok tt, w')) as [wh Eh].
  { destruct (world rh) as [[es sc] n c] eqn:Ew. pose proof (twins_works _ _ Ht) as Hs. pose proof (twins_entries _ _ Ht) as Hes.
    rewrite Ew in Hs, Hes. simpl in Hs, Hes. subst sc es.
    destruct (persist_state_works new_id Hserial (root (service r)) (state (service r)) _ n c Hf) as (es' & n' & H). by eexists. }
  rewrite Eh. destruct res0 as [[]|e]; intros [= <- <-]; (split; [done|]); [done|].
  unfold saved_entry. simpl in *. destruct Hpost; auto.
Qed.

Lemma saves_then {A B : Type} (m : ctl_m A) (k : A -> ctl_m B) :
  saves m -> (forall a, calm (k a)) -> saves (m ≫= k).
Proof.
  intros Hm Hk r rh res r' Ht Hf. rewrite !stateT_bind_unfold. destruct (m r) as [res1 r1] eqn:E1.
  destruct (Hm r rh res1 r1 Ht Hf E1) as [Hroot Hres]. destruct res1 as [a|e].
  - destruct (Hk a r1) as (b & r2 & H2 & S2 & F2 & R2). rewrite H2. intros [= <- <-]. split; [congruence|]. by rewrite S2, F2.
  - intros [= <- <-]. split; [done|]. destruct Hres as [|[Hok Hhas]]; [by left|right].
    destruct (m rh) as [[a|x] rh1]; [|done]. destruct (Hk a rh1) as (b & rh2 & H2 & S2 & _). rewrite H2. simpl in *. by rewrite S2.
Qed.

(** ** The operations *)

Ltac solve_lockstep :=
  first [apply lockstep_lift|apply lockstep_service|apply lockstep_set_state|apply lockstep_expire|apply lockstep_draw].

Ltac solve_calm :=
  repeat (first [apply calm_ret|apply calm_tickets|apply calm_cancel|apply calm_cancel_one|apply calm_bind; [|intros ?]]).

(** Up to the write in lockstep, calmly after it. *)
Ltac solve_saves :=
  cbv zeta; repeat (apply saves_after; [solve_lockstep|intros ?]; cbv zeta);
  first [apply saves_persist|apply saves_then; [apply saves_persist|intros ?; solve_calm]].

Lemma create_screen_saves computer profile keith now : saves (create_screen new_id computer profile keith now).
Proof. unfold create_screen. solve_saves. Qed.

Lemma negotiate_stream_saves profile id observer origin now ttl :
  saves (negotiate_stream new_id profile id observer origin now ttl).
Proof. unfold negotiate_stream. solve_saves. Qed.

Lemma transfer_saves profile id expected o h now : saves (transfer new_id profile id expected o h now).
Proof. unfold transfer. solve_saves. Qed.

Lemma request_keith_control_saves profile id keith : saves (request_keith_control new_id profile id keith).
Proof. unfold request_keith_control. solve_saves. Qed.

Lemma update_screen_saves profile id c q sequence active intended recording error now :
  saves (update_screen new_id profile id c q sequence active intended recording error now).
Proof. unfold update_screen. solve_saves. Qed.

Lemma take_user_control_saves profile id rev user now : saves (take_user_control new_id profile id rev user now).
Proof.
  unfold take_user_control. do 2 (apply saves_after; [solve_lockstep|intros ?]).
  apply saves_then; [apply transfer_saves|intros ?; solve_calm].
Qed.

Lemma pause_saves profile id rev now : saves (pause new_id profile id rev now).
Proof.
  unfold pause. do 2 (apply saves_after; [solve_lockstep|intros ?]).
  apply saves_then; [apply transfer_saves|intros ?; solve_calm].
Qed.

Lemma grant_keith_control_saves profile id rev now : saves (grant_keith_control new_id profile id rev now).
Proof. unfold grant_keith_control. do 2 (apply saves_after; [solve_lockstep|intros ?]). apply transfer_saves. Qed.

Lemma delete_some_saves self removed p :
  saves (_ ← modify (set_state (fold_left remove_screen removed (state self)));
         _ ← persist_or_restore new_id (state self);
         _ ← modify (fun r => set_tickets (filter (fun '(_, ticket) => ticket_profile_id ticket <> p) (stream_tickets (service r))) r);
         _ ← try_for cancel_in_flight removed;
         mret (length removed)).
Proof. solve_saves. Qed.

Lemma saves_discard {A : Type} (m : ctl_m A) : saves m -> saves (discard m).
Proof. intros Hm. unfold discard. apply saves_then; [done|]. intros a. apply calm_ret. Qed.

(** Operations that leave the state and the disk alone. *)
Definition aside {A : Type} (m : ctl_m A) : Prop :=
  forall r res r', m r = (res, r') -> state (service r') = state (service r) /\ saved_entry r' = saved_entry r.

Lemma consume_stream_ticket_aside profile observer origin raw now : aside (consume_stream_ticket profile observer origin raw now).
Proof. intros r res r' Hr. unfold consume_stream_ticket in Hr. by res_inv. Qed.

Lemma register_keith_input_aside profile id rev keith token now : aside (register_keith_input profile id rev keith token now).
Proof. intros r res r' Hr. unfold register_keith_input in Hr. by res_inv. Qed.

Lemma finish_keith_input_aside profile id c : aside (finish_keith_input profile id c).
Proof.
  intros r res r' Hr. unfold finish_keith_input in Hr. res_inv; [|done].
  destruct (in_flight_keith_input _ !! id) as [tokens|]; [|by res_inv]. destruct (filter _ tokens); by res_inv.
Qed.

(** What an operation that is answered so leaves in the file. *)
Definition saved_by (op : ControlOp) (r : Running) (res : result ControlError unit) (r' : Running) : Prop :=
  let file := entries (cw_fs (world r')) in
  match res with
  | Ok _ => state (service r') = state (service r) /\ saved_entry r' = saved_entry r
      \/ file_has (root (service r)) (state (service r')) file
  | Err _ => saved_entry r' = saved_entry r
      \/ is_ok (perform new_id op (healed r)).1 = true
         /\ file_has (root (service r)) (state (service (perform new_id op (healed r)).2)) file
  end.

Lemma saves_saved op r res r' :
  saves (perform new_id op) -> file_ok (root (service r)) (entries (cw_fs (world r))) ->
  perform new_id op r = (res, r') -> saved_by op r res r'.
Proof.
  intros Hs Hf Hr. destruct (Hs r (healed r) res r' (healed_twins r) Hf Hr) as [_ Hres]. unfold saved_by.
  destruct res; auto.
Qed.

Lemma aside_saved op r res r' : aside (perform new_id op) -> perform new_id op r = (res, r') -> saved_by op r res r'.
Proof. intros Ha Hr. destruct (Ha r res r' Hr) as [Hs Hf]. unfold saved_by. destruct res; auto. Qed.

Lemma aside_discard {A : Type} (m : ctl_m A) : aside m -> aside (discard m).
Proof. intros Hm r res r' (res0 & Hr & _)%discard_inv. by apply (Hm r res0). Qed.

(** Deleting a profile writes only if it has screens. *)
Lemma delete_profile_saved p r res r' :
  file_ok (root (service r)) (entries (cw_fs (world r))) ->
  perform new_id (DeleteProfile p) r = (res, r') -> saved_by (DeleteProfile p) r res r'.
Proof.
  intros Hf Hr. destruct (profile_screens (state (service r)) p) as [|id ids] eqn:Eids.
  - apply discard_inv in Hr as (res0 & Hr & Hres). unfold delete_profile in Hr. rewrite stateT_bind_unfold in Hr.
    unfold gets in Hr. rewrite Eids in Hr. injection Hr as <- <-. destruct res; [by left|done].
  - pose proof (saves_discard _ (delete_some_saves (service r) (id :: ids) p)) as Hs.
    assert (forall r1, service r1 = service r -> perform new_id (DeleteProfile p) r1 =
      discard (_ ← modify (set_state (fold_left remove_screen (id :: ids) (state (service r))));
         _ ← persist_or_restore new_id (state (service r));
         _ ← modify (fun r => set_tickets (filter (fun '(_, ticket) => ticket_profile_id ticket <> p) (stream_tickets (service r))) r);
         _ ← try_for cancel_in_flight (id :: ids);
         mret (length (id :: ids))) r1) as Heq.
    { intros r1 H1. cbn [perform]. unfold discard at 1, delete_profile. rewrite !stateT_bind_unfold. unfold gets at 1.
      rewrite H1, Eids. reflexivity. }
    rewrite Heq in Hr by done. destruct (Hs r (healed r) res r' (healed_twins r) Hf Hr) as [_ Hres]. unfold saved_by.
    rewrite (Heq (healed r)) by done. destruct res; auto.
Qed.

(** Every operation saves what it acknowledges. *)
Lemma perform_saved op r res r' :
  file_ok (root (service r)) (entries (cw_fs (world r))) -> perform new_id op r = (res, r') -> saved_by op r res r'.
Proof.
  intros Hf Hr. destruct op; try (by apply delete_profile_saved).
  3-5: apply aside_saved; [|exact Hr]; cbn [perform]; try apply aside_discard;
    auto using consume_stream_ticket_aside, register_keith_input_aside, finish_keith_input_aside.
  all: apply saves_saved; [|exact Hf|exact Hr]; cbn [perform]; try apply saves_discard;
    auto using create_screen_saves, negotiate_stream_saves, take_user_control_saves, request_keith_control_saves,
      grant_keith_control_saves, pause_saves, update_screen_saves.
Qed.
End saves.
