(* ===== verification/ScreenProperties.v ===== *)
(** * Properties of computer control

    Of every history of the service: it refines the abstract machine; the user's
    takeover ends Keith's input; a lease revision fences the leases before it;
    stream tickets are used once; a deleted profile leaves nothing; and the
    service reopens with what it acknowledged. *)

From Stdlib Require Import ZArith Lia String.
From stdpp Require Import base decidable countable relations gmap sorting option list.
From S2P Require Import Prelude RustStd Sha2 AgentTypes Json FileSystem PlatformContracts ScreenControl.
From S2P Require Import ScreenMachine ScreenRefinement ScreenRestart ScreenSaves.

#[local] Opaque MAX_STREAM_TICKETS MAX_OBSERVERS.

(** ** The index of a valid state *)

(** The index lists exactly the computers of the screens. *)
Lemma index_exact s c id :
  valid s -> computer_index s !! c = Some id ->
  exists x, screens s !! id = Some x /\ screen_computer x = c.
Proof.
  intros [_ Hsize Hok _]%valid_ok Hc.
  set (cs := (fun p : EntityId * ScreenSession => screen_computer p.2) <$> map_to_list (screens s)).
  assert (NoDup cs) as Hnd.
  { apply NoDup_fmap_2_strong; [|apply NoDup_map_to_list].
    intros [i x] [j y] Hi%elem_of_map_to_list Hj%elem_of_map_to_list Heq. simpl in Heq.
    pose proof (ok_index _ _ _ (Hok _ _ Hi)) as H1. pose proof (ok_index _ _ _ (Hok _ _ Hj)) as H2.
    rewrite Heq, H2 in H1. injection H1 as ->. congruence. }
  assert (list_to_set (C := gset ComputerSessionId) cs = dom (computer_index s)) as Hdom.
  { apply set_subseteq_size_eq.
    - intros d (p & -> & Hp)%elem_of_list_to_set%list_elem_of_fmap. destruct p as [i x].
      apply elem_of_map_to_list in Hp. apply elem_of_dom. eexists. apply (ok_index _ _ _ (Hok _ _ Hp)).
    - rewrite size_dom, size_list_to_set by done. unfold cs. rewrite length_fmap, length_map_to_list. lia. }
  assert (c ∈ dom (computer_index s)) as Hin by (apply elem_of_dom; eauto).
  rewrite <-Hdom in Hin. apply elem_of_list_to_set, list_elem_of_fmap in Hin as ([i x] & -> & Hp).
  apply elem_of_map_to_list in Hp. exists x. split; [|done].
  pose proof (ok_index _ _ _ (Hok _ _ Hp)) as Hi. simpl in Hc. congruence.
Qed.

(** ** Digests *)

Lemma fold_lor_same (f : nat -> Z) xs d :
  (forall i, i ∈ xs -> f i = 0%Z) -> fold_left (fun d i => Z.lor d (f i)) xs d = d.
Proof.
  revert d. induction xs as [|x xs IH]; intros d Hf; simpl; [done|].
  rewrite Hf by (by left). rewrite Z.lor_0_r. apply IH. intros i Hi. apply Hf. by right.
Qed.

Lemma constant_time_eq_refl bytes : constant_time_eq bytes bytes = true.
Proof.
  unfold constant_time_eq. rewrite Z.lxor_nilpotent.
  rewrite (fold_lor_same (fun i => Z.lxor (default 0%Z (bytes !! i)) (default 0%Z (bytes !! i)))); [done|].
  intros i _. apply Z.lxor_nilpotent.
Qed.

Section claims.
Context (new_id : nat -> EntityId) `{HC : ControlCodec, HU : UrlLib, HH : Sha256}.

(** A running service, after any operations since it was opened in [dir]. *)
Definition reached (dir : Path) (r : Running) : Prop :=
  exists now w self w' ops,
    open new_id dir now w = (Ok self, w') /\ r = perform_all new_id ops (MkRunning self w').

Lemma perform_all_moves ops r :
  running_ok r ->
  running_ok (perform_all new_id ops r) /\ root (service (perform_all new_id ops r)) = root (service r) /\
  runs (label <$> ops) (machine_of r) (machine_of (perform_all new_id ops r)).
Proof.
  unfold perform_all. revert r. induction ops as [|op ops IH]; intros r Hok; simpl; [by split_and!; [| |constructor]|].
  destruct (perform new_id op r) as [res r1] eqn:E. simpl.
  pose proof (perform_moves new_id _ _ _ _ Hok E) as Hm. pose proof (moved_ok _ _ _ _ Hok Hm) as Hok1.
  destruct (IH r1 Hok1) as (Hok2 & Hroot & Hruns). destruct Hm as [Hr _ Hs _].
  split_and!; [done|congruence|by econstructor].
Qed.

Lemma reached_ok dir r : reached dir r -> running_ok r /\ root (service r) = dir.
Proof.
  intros (now & w & self & w' & ops & Ho & ->). apply open_running in Ho as (Hok & Hroot & _).
  destruct (perform_all_moves ops _ Hok) as (Hok' & Hroot' & _). split; [done|]. by rewrite Hroot'.
Qed.

Lemma perform_all_app ops ops' r : perform_all new_id (ops ++ ops') r = perform_all new_id ops' (perform_all new_id ops r).
Proof. unfold perform_all. apply fold_left_app. Qed.

(** C8: whatever its files do, the service refines the abstract machine: from the
    state [open] returns, any sequence of operations is a run of the machine under
    the operations' labels, and ends in a state that satisfies the machine's
    invariant. *)
Theorem control_refines_machine dir now w self w' ops :
  open new_id dir now w = (Ok self, w') ->
  let r := perform_all new_id ops (MkRunning self w') in
  runs (label <$> ops) (MkMachine (state self) ∅ ∅ (cancelled w')) (machine_of r) /\ machine_inv (machine_of r).
Proof.
  intros Ho. apply open_running in Ho as (Hok & _ & Ht & Hf & _).
  destruct (perform_all_moves ops _ Hok) as ([Hm _] & _ & Hruns). split; [|exact Hm].
  unfold machine_of at 1 in Hruns. simpl in Hruns. by rewrite Ht, Hf in Hruns.
Qed.

(** C7: once Keith's input is registered, then after any further operations that
    do not finish it, either its token is cancelled or Keith still holds the
    screen's lease: no input runs on uncancelled after the user took control,
    control was paused, or the profile was deleted. *)
Theorem keith_input_stops dir r profile id rev keith token now r1 ops :
  reached dir r ->
  register_keith_input profile id rev keith token now r = (Ok tt, r1) ->
  (forall p c, token_id token = Some c -> FinishKeithInput p id c ∉ ops) ->
  let r2 := perform_all new_id ops r1 in
  is_cancelled token (world r2) = true \/
  exists screen tokens, screens (state (service r2)) !! id = Some screen /\
    owner (control screen) = KeithControl /\
    in_flight_keith_input (service r2) !! id = Some tokens /\ token ∈ tokens.
Proof.
  intros [Hok _]%reached_ok Hreg Hfin r2.
  pose proof (moved_ok _ _ _ _ Hok (register_keith_input_moves _ _ _ _ _ _ _ _ _ Hok Hreg)) as Hok1.
  destruct (perform_all_moves ops _ Hok1) as ([Hinv _] & _ & Hruns).
  assert (tracked id token (machine_of r1)) as Ht.
  { unfold register_keith_input in Hreg. res_inv. unfold tracked. simpl. rewrite lookup_insert_eq. simpl.
    apply elem_of_app. right. by apply list_elem_of_singleton. }
  eapply runs_token in Hruns as [Hr|Hr]; [| |exact Ht|].
  - right. unfold tracked in Hr. destruct (m_in_flight _ !! id) as [tokens|] eqn:E; [|by apply not_elem_of_nil in Hr].
    destruct (inv_in_flight _ Hinv _ _ E) as (screen & Hs & Ho). by exists screen, tokens.
  - left. by apply bool_decide_eq_true.
  - intros c Hc (op & Heq & Hin)%list_elem_of_fmap. destruct op; try discriminate Heq. injection Heq as <- <-.
    by eapply Hfin.
Qed.

(** C10: while its profile is not deleted a screen stays, bound to its computer and
    profile; its lease revision and frame sequence never go back, and one revision
    never names two leases, so an input or transfer that carries an old revision
    is refused after every change of control. *)
Theorem lease_revision_fences dir r ops id screen :
  reached dir r -> screens (state (service r)) !! id = Some screen ->
  DeleteProfile (screen_profile_id screen) ∉ ops ->
  let r' := perform_all new_id ops r in
  exists screen', screens (state (service r')) !! id = Some screen' /\ fenced screen screen' /\
    (control screen' <> control screen ->
     forall principal focus stream user later,
       authorize_input (service r') (screen_profile_id screen) id (revision (control screen)) principal focus stream later
         = Err StaleLease /\
       (take_user_control new_id (screen_profile_id screen) id (revision (control screen)) user later r').1 = Err StaleLease).
Proof.
  intros [Hok _]%reached_ok Hs Hdel r'. destruct (perform_all_moves ops _ Hok) as (_ & _ & Hruns).
  eapply (runs_fenced _ _ _ id screen) in Hruns as (screen' & Hs' & Hf); [|done|].
  2: { intros (op & Heq & Hin)%list_elem_of_fmap. destruct op; try discriminate Heq. injection Heq as <-. done. }
  exists screen'. split; [exact Hs'|]. split; [done|]. intros Hne principal focus stream user later.
  assert (validate_transfer (service r') (screen_profile_id screen) id (revision (control screen)) = Err StaleLease /\
          authorize_input (service r') (screen_profile_id screen) id (revision (control screen)) principal focus stream later
            = Err StaleLease) as [Hv Ha].
  { unfold validate_transfer, authorize_input, ScreenControl.screen.
    change (screens (state (service r')) !! id = Some screen') in Hs'. rewrite Hs'.
    cbn [ok_or mbind result_bind]. rewrite bool_decide_true by apply (fenced_profile _ _ Hf).
    cbn [negb reject_if mbind result_bind].
    destruct (Z.eqb_spec (revision (control screen')) (revision (control screen))) as [Heq|_]; [|done].
    destruct Hne. by apply (fenced_lease _ _ Hf). }
  split; [done|]. unfold take_user_control. rewrite stateT_bind_unfold. unfold gets. rewrite stateT_bind_unfold.
  unfold lift. by rewrite Hv.
Qed.

(** Only the holder of the current lease may inject. *)
Lemma authorize_input_ok self profile id rev principal focus stream now :
  authorize_input self profile id rev principal focus stream now = Ok tt <->
  exists screen, screens (state self) !! id = Some screen /\ screen_profile_id screen = profile /\
    revision (control screen) = rev /\ focus = true /\ stream = true /\ connection screen = Connected /\
    can_inject (control screen) principal now = true.
Proof.
  unfold authorize_input, ScreenControl.screen. destruct (screens (state self) !! id) as [x|].
  2: { split; [done|]. by intros (? & ? & _). }
  cbn [ok_or mbind result_bind].
  assert (forall P : ScreenSession -> Prop, (exists y, Some x = Some y /\ P y) <-> P x) as ->.
  { intros P. split; [by intros (y & [= <-] & ?)|by exists x]. }
  destruct (bool_decide_reflect (screen_profile_id x = profile)); [|split; [done|tauto]].
  cbn [negb reject_if mbind result_bind].
  destruct (Z.eqb_spec (revision (control x)) rev); cbn; [|split; [done|tauto]].
  destruct focus, stream; cbn; try (split; [done|by intros (? & ? & ? & ? & ?)]).
  destruct (bool_decide_reflect (connection x = Connected)); cbn; [|split; [done|tauto]].
  destruct (can_inject _ _ _) eqn:E; cbn; [tauto|split; [done|by intros (? & ? & ? & ? & ? & ?)]].
Qed.

Lemma can_inject_holder lease principal now :
  can_inject lease principal now = true <->
  (unix_millis now < unix_millis (expires_at lease))%Z /\ owner lease <> Paused /\ holder lease = Some principal.
Proof.
  unfold can_inject. rewrite !andb_true_iff, negb_true_iff, bool_decide_eq_true, rltb_lt.
  change (rcmp now (expires_at lease)) with (Z.compare (unix_millis now) (unix_millis (expires_at lease))).
  rewrite Z.compare_lt_iff. destruct (owner lease); naive_solver.
Qed.

Lemma take_user_control_outcome profile id rev user now r res r' :
  running_ok r -> take_user_control new_id profile id rev user now r = (res, r') ->
  match res with
  | Ok screen' =>
      exists screen lease, screens (state (service r)) !! id = Some screen /\
        screen' = with_control screen lease now /\ screen_profile_id screen = profile /\
        owner lease = UserControl /\ holder lease = Some user /\
        revision (control screen) = rev /\ revision lease = (rev + 1)%Z /\
        unix_millis (expires_at lease) = (unix_millis now + DEFAULT_LEASE_TTL_MS)%Z /\
        state (service r') = transferred (state (service r)) id screen' /\
        cancelled (world r') = cells (in_flight_on (in_flight_keith_input (service r)) [id]) ∪ cancelled (world r)
  | Err _ => service r' = service r /\ cancelled (world r') = cancelled (world r)
  end.
Proof.
  intros Hok Hr. unfold take_user_control in Hr. rewrite stateT_bind_unfold in Hr. unfold gets in Hr.
  rewrite stateT_bind_unfold in Hr. unfold lift in Hr.
  destruct (validate_transfer _ _ _ _); [|by injection Hr as <- <-].
  rewrite stateT_bind_unfold in Hr. destruct (transfer _ _ _ _ _ _ _ r) as [res1 r1] eqn:Et.
  apply transfer_outcome in Et as (Hc & _ & Hres); [|done].
  destruct res1 as [screen'|e]; [|by injection Hr as <- <-].
  destruct Hres as (x & lease & Hx & Hp & Hrev & -> & Hlo & Hh & Hlr & He & Hs & _).
  destruct (cancel_in_flight_stops id r1) as (r2 & Hr2 & [_ S2 _ _ _ C2]).
  rewrite stateT_bind_unfold, Hr2 in Hr. injection Hr as <- <-. exists x, lease.
  split_and!; try done; [by rewrite S2, Hs|by rewrite C2, Hs, Hc].
Qed.

(** A takeover that succeeds gives the user the only lease, at the next
    revision and for the full term; cancels every input Keith has in flight on the
    screen; from then on nobody else's input and no input under another revision
    is authorized, and the user's own is, on a connected screen, until the lease
    expires. A takeover that fails changes nothing in memory and cancels nothing. *)
Theorem takeover_is_exclusive dir r profile id rev user now res r' :
  reached dir r -> take_user_control new_id profile id rev user now r = (res, r') ->
  match res with
  | Ok screen' =>
      screens (state (service r')) !! id = Some screen' /\
      (forall tokens token, in_flight_keith_input (service r) !! id = Some tokens -> token ∈ tokens ->
         is_cancelled token (world r') = true) /\
      (forall rev' principal focus stream later,
         authorize_input (service r') profile id rev' principal focus stream later = Ok tt <->
         rev' = (rev + 1)%Z /\ principal = user /\ focus = true /\ stream = true /\ connection screen' = Connected /\
         (unix_millis later < unix_millis now + DEFAULT_LEASE_TTL_MS)%Z) /\
      (forall id', id' <> id -> screens (state (service r')) !! id' = screens (state (service r)) !! id')
  | Err _ => service r' = service r /\ cancelled (world r') = cancelled (world r)
  end.
Proof.
  intros [Hok _]%reached_ok Hr. apply take_user_control_outcome in Hr; [|done].
  destruct res as [screen'|e]; [|done].
  destruct Hr as (x & lease & Hx & -> & Hp & Ho & Hh & Hrev & Hlr & He & Hs & Hc).
  assert (screens (state (service r')) !! id = Some (with_control x lease now)) as Hid.
  { rewrite Hs. apply lookup_insert_eq. }
  split_and!; [done| | |].
  - intros tokens token Hf Ht. apply bool_decide_eq_true. rewrite Hc. apply elem_of_union_l, elem_of_cells_on.
    exists id, token. rewrite Hf. split_and!; [by apply list_elem_of_singleton|done|done].
  - intros rev' principal focus stream later. rewrite authorize_input_ok, Hid. split.
    + intros (y & Hy & _ & Hr' & -> & -> & Hcon & (Ht & _ & Hpr)%can_inject_holder). injection Hy as <-. simpl in *.
      split_and!; [lia|congruence|done..|lia].
    + intros (-> & -> & -> & -> & Hcon & Ht). eexists. split; [done|]. split_and!; try done.
      apply can_inject_holder. simpl. rewrite Ho, He. done.
  - intros id' Hne. rewrite Hs. by apply lookup_insert_ne.
Qed.

(** ** Tickets *)

(** An attempt to use a ticket, origin aside: it is looked up, removed, checked. *)
Lemma consume_run profile observer origin raw now r :
  validate_origin origin = Ok tt ->
  consume_stream_ticket profile observer origin raw now r =
  match stream_tickets (service r) !! ticket_digest raw with
  | None => (Err StreamDenied, r)
  | Some t =>
      (if bool_decide (unix_millis now < unix_millis (ticket_expires_at t))%Z
          && bool_decide (ticket_profile_id t = profile) && bool_decide (ticket_observer_id t = observer)
          && bool_decide (ticket_origin t = origin)
          && constant_time_eq (ticket_value_digest t) (sha256 (as_bytes raw))
       then Ok (ticket_screen t) else Err StreamDenied,
       set_tickets (delete (ticket_digest raw) (stream_tickets (service r))) r)
  end%bool.
Proof.
  intros Ho. unfold consume_stream_ticket. rewrite stateT_bind_unfold. unfold lift at 1. rewrite Ho.
  rewrite stateT_bind_unfold. unfold gets. rewrite stateT_bind_unfold. unfold lift at 1.
  destruct (stream_tickets (service r) !! ticket_digest raw) as [t|]; cbn [ok_or]; [|done].
  rewrite stateT_bind_unfold. unfold modify. rewrite stateT_bind_unfold. unfold lift.
  assert (rleb (ticket_expires_at t) now = negb (bool_decide (unix_millis now < unix_millis (ticket_expires_at t))%Z)) as ->.
  { unfold rleb. change (rcmp (ticket_expires_at t) now) with
      (Z.compare (unix_millis (ticket_expires_at t)) (unix_millis now)).
    destruct (Z.compare_spec (unix_millis (ticket_expires_at t)) (unix_millis now)); case_bool_decide; done || lia. }
  rewrite <-!negb_andb. by destruct (_ && _)%bool.
Qed.

(** A stream ticket is good for one use by its observer: at once and until it
    expires, presenting it with its profile, observer and origin opens its screen;
    any other profile, observer or origin, and any later time, is refused; and
    after one attempt that reaches the lookup the ticket is refused to everybody. *)
Theorem stream_ticket_once dir r profile id observer origin now ttl grant r1 :
  reached dir r -> negotiate_stream new_id profile id observer origin now ttl r = (Ok grant, r1) ->
  let use p o g later := consume_stream_ticket p o g (stream_ticket grant) later in
  (forall p o g later,
     is_ok (use p o g later r1).1 = true <->
     p = profile /\ o = observer /\ g = origin /\ (unix_millis later < unix_millis now + ttl)%Z) /\
  (forall later, (unix_millis later < unix_millis now + ttl)%Z -> (use profile observer origin later r1).1 = Ok id) /\
  (forall p o g later p' o' g' later',
     validate_origin g = Ok tt -> is_ok (use p' o' g' later' (use p o g later r1).2).1 = false).
Proof.
  intros [Hok _]%reached_ok Hn use. apply negotiate_stream_outcome in Hn as [_ Hn]; [|done].
  destruct (Hn _ eq_refl) as (Ho & _ & _ & Hexp & _ & Hk). clear Hn.
  assert (forall p o g later, is_ok (validate_origin g) = false -> forall r, is_ok (use p o g later r).1 = false) as Hbad.
  { intros p o g later Hg r0. unfold use, consume_stream_ticket. rewrite stateT_bind_unfold. unfold lift at 1.
    by destruct (validate_origin g). }
  assert (forall p o g later, validate_origin g = Ok tt -> (use p o g later r1).1 =
    if bool_decide (unix_millis later < unix_millis now + ttl)%Z && bool_decide (profile = p)
       && bool_decide (observer = o) && bool_decide (origin = g) then Ok id else Err StreamDenied)%bool as Huse.
  { intros p o g later Hg. unfold use. rewrite consume_run, Hk by done. simpl.
    by rewrite Hexp, constant_time_eq_refl, andb_true_r. }
  split_and!.
  - intros p o g later. destruct (validate_origin g) as [[]|e] eqn:Hg.
    + rewrite Huse by done.
      destruct (bool_decide_reflect (unix_millis later < unix_millis now + ttl)%Z), (bool_decide_reflect (profile = p)),
        (bool_decide_reflect (observer = o)), (bool_decide_reflect (origin = g)); simpl; subst;
        (split; [done|]); intros (? & ? & ? & ?); congruence.
    + rewrite Hbad by (by rewrite Hg). split; [done|]. intros (_ & _ & -> & _). congruence.
  - intros later Hl. rewrite Huse by done. by rewrite !bool_decide_true.
  - intros p o g later p' o' g' later' Hg. destruct (validate_origin g') as [[]|e] eqn:Hg'; [|by rewrite Hbad; rewrite ?Hg'].
    unfold use at 2. rewrite consume_run, Hk by done. unfold use. rewrite consume_run by done. simpl.
    by rewrite lookup_delete_eq.
Qed.

(** ** Deletion and restart *)

Lemma profile_screens_length s p :
  length (profile_screens s p) = size (filter (fun '(_, x) => screen_profile_id x = p) (screens s)).
Proof.
  rewrite <-size_dom, <-(size_list_to_set (C := gset EntityId)).
  - f_equal. apply set_eq. intros id. rewrite elem_of_list_to_set, elem_of_profile_screens, elem_of_dom.
    unfold is_Some. setoid_rewrite map_lookup_filter_Some. done.
  - unfold profile_screens. eapply sublist_NoDup; [apply (NoDup_btree_keys (screens s))|].
    apply fmap_sublist, sublist_filter.
Qed.

Lemma removed_screens s p :
  screens (fold_left remove_screen (profile_screens s p) s) =
  filter (fun '(_, x) => screen_profile_id x <> p) (screens s).
Proof.
  apply map_eq. intros id. rewrite remove_screens. apply option_eq. intros x.
  rewrite map_lookup_filter_Some. destruct (decide (id ∈ profile_screens s p)) as [Hin|Hout].
  - apply elem_of_profile_screens in Hin as (y & Hy & Hp). split; [done|]. intros [Hx Hne]. congruence.
  - split; [|by intros []]. intros Hx. split; [done|]. intros Hp. destruct Hout.
    apply elem_of_profile_screens. by exists x.
Qed.

(** A profile's deletion that succeeds removes exactly the profile's screens,
    and counts them; the computer index, the pending requests, the stream tickets
    and the inputs in flight keep nothing of them, the inputs that were in flight on
    them are cancelled, and the other profiles keep their screens and tickets. If
    a screen was removed the file holds the new state. A deletion that fails changes
    nothing in memory. *)
Theorem delete_profile_complete dir r p res r' :
  reached dir r -> delete_profile new_id p r = (res, r') ->
  match res with
  | Ok n =>
      n = size (filter (fun '(_, x) => screen_profile_id x = p) (screens (state (service r)))) /\
      screens (state (service r')) = filter (fun '(_, x) => screen_profile_id x <> p) (screens (state (service r))) /\
      (forall c id, computer_index (state (service r')) !! c = Some id ->
         exists x, screens (state (service r')) !! id = Some x /\ screen_computer x = c) /\
      (forall id, is_Some (pending_keith (state (service r')) !! id) -> is_Some (screens (state (service r')) !! id)) /\
      stream_tickets (service r') = filter (fun '(_, t) => ticket_profile_id t <> p) (stream_tickets (service r)) /\
      (forall id, is_Some (in_flight_keith_input (service r') !! id) -> is_Some (screens (state (service r')) !! id)) /\
      (forall id x tokens token, screens (state (service r)) !! id = Some x -> screen_profile_id x = p ->
         in_flight_keith_input (service r) !! id = Some tokens -> token ∈ tokens ->
         is_cancelled token (world r') = true) /\
      (n <> 0 -> file_has dir (state (service r')) (entries (cw_fs (world r'))))
  | Err _ => service r' = service r /\ cancelled (world r') = cancelled (world r)
  end.
Proof.
  intros [Hok Hroot]%reached_ok Hr.
  pose proof (moved_ok _ _ _ _ Hok (delete_profile_moves _ _ _ _ _ Hok Hr)) as [Hm' _].
  pose proof (inv_valid _ Hm') as Hv'. pose proof Hv' as Hs'%valid_ok.
  apply delete_profile_outcome in Hr; [|done]. destruct res as [n|e]; [|tauto].
  assert (forall id, is_Some (in_flight_keith_input (service r') !! id) -> is_Some (screens (state (service r')) !! id)) as Hfl.
  { intros id [tokens Ht]. destruct (inv_in_flight _ Hm' _ _ Ht) as (x & Hx & _). by exists x. }
  rewrite <-profile_screens_length, <-removed_screens.
  destruct n as [|n].
  - destruct Hr as [-> Hnil]. rewrite Hnil. split_and!; try done.
    + intros c id Hc. by apply (index_exact _ c id Hv').
    + apply (ok_pending _ Hs').
    + symmetry. apply map_filter_id. intros key t Ht Hp.
      destruct (inv_tickets _ Hm' _ _ Ht) as (x & Hx & Hxp). apply (not_elem_of_nil (ticket_screen t)).
      rewrite <-Hnil. apply elem_of_profile_screens. exists x. split; [done|]. congruence.
    + intros id x tokens token Hx Hp. exfalso. apply (not_elem_of_nil id). rewrite <-Hnil.
      apply elem_of_profile_screens. by exists x.
  - destruct Hr as (-> & _ & _ & Hhas & _ & Hst & Hm). unfold machine_of in Hm. injection Hm as Ht Hf Hc.
    rewrite <-Hroot. split_and!; try done.
    + by rewrite Hst.
    + intros c id Hcid. by apply (index_exact _ c id Hv').
    + apply (ok_pending _ Hs').
    + intros id x tokens token Hx Hp Htk Hin. apply bool_decide_eq_true. rewrite Hc.
      apply elem_of_union_l, elem_of_cells_on. exists id, token. rewrite Htk.
      split_and!; [|done..]. apply elem_of_profile_screens. by exists x.
Qed.

(** ** What a restart finds *)

(** No operation of [ops] changes the state and is acknowledged. *)
Fixpoint changes_nothing (ops : list ControlOp) (r : Running) : Prop :=
  match ops with
  | [] => True
  | op :: ops =>
      let '(res, r') := perform new_id op r in
      (is_ok res = true -> state (service r') = state (service r)) /\ changes_nothing ops r'
  end.

Lemma changes_nothing_snoc ops op r :
  changes_nothing ops r ->
  (is_ok (perform new_id op (perform_all new_id ops r)).1 = true ->
   state (service (perform new_id op (perform_all new_id ops r)).2) = state (service (perform_all new_id ops r))) ->
  changes_nothing (ops ++ [op]) r.
Proof.
  unfold perform_all. revert r. induction ops as [|op' ops IH]; intros r; simpl.
  - intros _ H. destruct (perform new_id op r). by split.
  - destruct (perform new_id op' r) as [res r1]. intros [H1 H2] H. split; [done|]. by apply IH.
Qed.

(** The operation failed, and [s] is the state it reaches on a disk that works. *)
Definition attempted (op : ControlOp) (r : Running) (s : ControlState) : Prop :=
  is_ok (perform new_id op r).1 = false /\ is_ok (perform new_id op (healed r)).1 = true
  /\ s = state (service (perform new_id op (healed r)).2).

(** [s] holds every change that was acknowledged when [ops] were performed from
    [r]: it is the state in memory after some of them, or what the next one tried
    to save before it failed, and no acknowledged change came later. *)
Definition acknowledged (ops : list ControlOp) (r : Running) (s : ControlState) : Prop :=
  exists before rest, ops = before ++ rest /\ changes_nothing rest (perform_all new_id before r)
    /\ (s = state (service (perform_all new_id before r))
        \/ exists op rest', rest = op :: rest' /\ attempted op (perform_all new_id before r) s).

Lemma found_same dir s es es' : es' !! control_path dir = es !! control_path dir -> found dir s es -> found dir s es'.
Proof. unfold found, file_has. by intros ->. Qed.

Lemma perform_all_snoc ops op r :
  perform_all new_id (ops ++ [op]) r = (perform new_id op (perform_all new_id ops r)).2.
Proof. by rewrite perform_all_app. Qed.

Lemma perform_all_saved (Hserial : forall s, exists bytes, to_vec_pretty s = Ok bytes) ops r :
  running_ok r -> found (root (service r)) (state (service r)) (entries (cw_fs (world r))) ->
  exists s, found (root (service r)) s (entries (cw_fs (world (perform_all new_id ops r)))) /\ acknowledged ops r s.
Proof.
  intros Hok Hfound. induction ops as [|op ops (s & Hs & before & rest & -> & Hn & Hor)] using rev_ind.
  { exists (state (service r)). split; [done|]. exists [], []. by split_and!; [| |left]. }
  destruct (perform_all_moves (before ++ rest) r Hok) as ([_ Hf] & Hroot & _). rewrite perform_all_snoc.
  assert (perform_all new_id rest (perform_all new_id before r) = perform_all new_id (before ++ rest) r) as Hr
    by by rewrite perform_all_app.
  destruct (perform new_id op (perform_all new_id (before ++ rest) r)) as [res r'] eqn:Ep. simpl.
  pose proof (perform_saved new_id Hserial op _ res r' Hf Ep) as Hsaved. unfold saved_by, saved_entry in Hsaved.
  assert (root (service r') = root (service r)) as Hroot'.
  { destruct (perform_all_moves ((before ++ rest) ++ [op]) r Hok) as (_ & H & _). by rewrite perform_all_snoc, Ep in H. }
  assert ((is_ok res = true -> state (service r') = state (service (perform_all new_id (before ++ rest) r))) ->
    acknowledged ((before ++ rest) ++ [op]) r s) as Hsame.
  { intros Hch. exists before, (rest ++ [op]). split; [by rewrite app_assoc|]. split.
    - apply changes_nothing_snoc; [done|]. by rewrite Hr, Ep.
    - destruct Hor as [->|(op' & rest' & -> & Ha)]; [by left|right; by exists op', (rest' ++ [op])]. }
  rewrite Hroot, Hroot' in Hsaved. destruct res as [u|e].
  - destruct Hsaved as [[Hst He]|Hhas]; [exists s; split; [by eapply found_same|by apply Hsame]|].
    exists (state (service r')). split; [by left|]. exists ((before ++ rest) ++ [op]), [].
    split_and!; [by rewrite app_nil_r|done|left; by rewrite perform_all_snoc, Ep].
  - destruct Hsaved as [He|[Hh Hhas]]; [exists s; split; [by eapply found_same|by apply Hsame]|].
    eexists. split; [by left|]. exists (before ++ rest), [op]. split; [done|]. simpl. rewrite Ep. split; [done|].
    right. exists op, []. unfold attempted. by rewrite Ep.
Qed.

Lemma not_expired later s s' :
  restarted_state later s s' ->
  forall id x, screens s' !! id = Some x -> (unix_millis later < unix_millis (expires_at (control x)))%Z.
Proof.
  intros Hst id y Hy. pose proof (restarted_screens _ _ _ Hst id) as Hr. rewrite Hy in Hr.
  destruct (screens s !! id) as [x|]; [|done]. simpl in Hr. unfold restarted in Hr.
  destruct (rleb (expires_at (control x)) later) eqn:El.
  - destruct Hr as (i & e & m & He & ->). simpl. rewrite He. unfold DEFAULT_LEASE_TTL_MS. lia.
  - subst y. unfold rleb in El. change (rcmp (expires_at (control x)) later) with
      (Z.compare (unix_millis (expires_at (control x))) (unix_millis later)) in El.
    destruct (Z.compare_spec (unix_millis (expires_at (control x))) (unix_millis later)); done || lia.
Qed.

(** C9: a restart loses no acknowledged change: after any operations, with I/O
    failures anywhere in them, the service opens again on a working disk.  The
    state it finds is the one in memory after some of the operations, or the one
    that the next operation tried to save before it was answered with an error,
    and no operation after that changed the state and was acknowledged.  Every
    screen found is kept, and each lease that has expired is replaced by a paused
    one at the next revision. *)
Theorem control_survives_restart dir now w0 self0 w ops later :
  (forall s, exists bytes, to_vec_pretty s = Ok bytes) ->
  open new_id dir now w0 = (Ok self0, w) -> is_i64 (unix_millis later + DEFAULT_LEASE_TTL_MS) ->
  exists self w' s,
    open new_id dir later (heal (world (perform_all new_id ops (MkRunning self0 w)))) = (Ok self, w') /\
    acknowledged ops (MkRunning self0 w) s /\ restarted_state later s (state self) /\ valid s /\ valid (state self) /\
    (forall id x, screens (state self) !! id = Some x -> (unix_millis later < unix_millis (expires_at (control x)))%Z).
Proof.
  intros Hserial Hopen Hi. pose proof (open_running _ _ _ _ _ _ Hopen) as (Hok & Hroot & _). simpl in Hroot.
  destruct (perform_all_saved Hserial ops (MkRunning self0 w) Hok) as (s & Hs & Hack).
  { simpl. rewrite Hroot. by eapply open_found. }
  destruct (perform_all_moves ops _ Hok) as ([_ Hf] & Hroot' & _). simpl in *. rewrite Hroot' in Hf. rewrite Hroot in *.
  destruct (open_works new_id Hserial dir later _ Hf Hi) as (self & w' & s' & Ho & Hs' & Hst).
  assert (s' = s) as -> by by eapply found_det.
  pose proof (open_running _ _ _ _ _ _ Ho) as ([Hmi _] & _).
  exists self, w', s. split_and!; try done; [by eapply found_valid|apply (inv_valid _ Hmi)|by eapply not_expired].
Qed.
End claims.
