(* ===== verification/ScreenExample.v ===== *)
(** * A concrete computer-control service

    Closed instances of the theorems about authority and computer control: a
    codec, a URL parser and a digest that satisfy the assumptions, a service opened
    on an in-memory file system, and a run in which Keith types, the user takes
    over and the disk fails. *)

From Stdlib Require Import ZArith Lia String.
From stdpp Require Import base decidable countable relations gmap sorting option list.
From S2P Require Import Prelude RustStd Sha2 AgentTypes Json Serial FileSystem PlatformContracts ScreenControl.
From S2P Require Import ScreenMachine ScreenRefinement ScreenRestart ScreenSaves ScreenProperties.

(** ** Codec *)

#[local] Program Instance ScreenConnectionState_enumerated : Enumerated ScreenConnectionState := {|
  variants := [Negotiating; Connected; Reconnecting; Closed] |}.
Next Obligation. intros []; repeat constructor. Qed.
#[local] Instance ScreenQuality_eq_dec : EqDecision ScreenQuality.
Proof. solve_decision. Defined.
#[local] Program Instance ScreenQuality_enumerated : Enumerated ScreenQuality := {| variants := [Low; Balanced; High] |}.
Next Obligation. intros []; repeat constructor. Qed.
#[local] Program Instance ControlOwner_enumerated : Enumerated ControlOwner := {|
  variants := [KeithControl; UserControl; Paused] |}.
Next Obligation. intros []; repeat constructor. Qed.

#[local] Program Instance Serial_redacted : Serial RedactedText :=
  Serial_via (A := list Z) redacted_as_str (fun s => Some (MkRedactedText s)) _.
Next Obligation. by intros []. Qed.
#[local] Program Instance Serial_lease : Serial ControlLease :=
  Serial_via
    (fun l => (lease_id l, computer_session_id l, lease_profile_id l, owner l, holder l, revision l,
               issued_at l, expires_at l))
    (fun t => let '(a, b, c, d, e, f, g, h) := t in Some (MkLease a b c d e f g h)) _.
Next Obligation. by intros []. Qed.
#[local] Program Instance Serial_screen : Serial ScreenSession :=
  Serial_via
    (fun x => (screen_session_id x, screen_computer x, screen_profile_id x, connection x, quality x, control x,
               observers x, frame_sequence x, active_action x, intended_action x, recording x,
               screen_safe_error x, updated_at x))
    (fun t => let '(a, b, c, d, e, f, g, h, i, j, k, l, m) := t in Some (MkScreen a b c d e f g h i j k l m)) _.
Next Obligation. by intros []. Qed.
#[local] Program Instance Serial_state : Serial ControlState :=
  Serial_via (fun s => (version s, screens s, computer_index s, pending_keith s))
    (fun t => let '(a, b, c, d) := t in Some (MkControlState a b c d)) _.
Next Obligation. by intros []. Qed.

Definition state_bytes (s : ControlState) : result JsonError (list Z) := Ok (ser s).
Definition bytes_state (bytes : list Z) : result JsonError ControlState := ok_or (fst <$> de bytes) JsonErr.

Lemma bytes_state_bytes s bytes : state_bytes s = Ok bytes -> bytes_state bytes = Ok s.
Proof.
  intros H. assert (bytes = ser s) as -> by (unfold state_bytes in H; congruence).
  pose proof (de_ser s []) as Hd. rewrite app_nil_r in Hd. unfold bytes_state. by rewrite Hd.
Qed.

#[local] Instance serial_codec : ControlCodec := {|
  to_vec_pretty := state_bytes; from_slice := bytes_state; from_to_slice := bytes_state_bytes |}.

(** An origin is [https://] and a host. *)
#[local] Instance https_urls : UrlLib := {|
  url_parse value :=
    if starts_with (str "https://") value then Some (MkUrl (str "https") [] None (str "/") None None value) else None |}.

#[local] Program Instance sum_digest : Sha256 := {|
  sha256 b := replicate 32 (Z.modulo (foldr Z.add 0%Z b) 256) |}.
Next Obligation. intros b. apply length_replicate. Qed.
Next Obligation. intros b. apply Forall_replicate. apply Z.mod_pos_bound. lia. Qed.

(** ** A service and a run *)

Definition sample_dir : Path := [str "control"].
Definition sample_new_id (n : nat) : EntityId := MkEntityId [(65 + Z.of_nat n)%Z].
Definition sample_computer : ComputerSessionId := MkTypedId (MkEntityId (str "computer")).
Definition sample_profile : ProfileId := MkTypedId (MkEntityId (str "profile")).
Definition sample_keith : ExternalPrincipalId := MkTypedId (MkEntityId (str "keith")).
Definition sample_user : ExternalPrincipalId := MkTypedId (MkEntityId (str "user")).
Definition sample_token : CancellationToken := MkToken (Some (MkTypedId (MkEntityId (str "typing")))) 7.
Definition sample_origin : rstr := str "https://keith.local".
Definition at_ms (t : Z) : UtcTimestamp := MkUtcTimestamp t.

Definition empty_disk : ControlWorld := MkControlWorld (MkFs {[sample_dir := EDir]} []) 0 ∅.
Definition opened : result ControlError ComputerControlService * ControlWorld :=
  open sample_new_id sample_dir (at_ms 0) empty_disk.
Definition opened_service : ComputerControlService := MkService sample_dir ControlState_default ∅ ∅.

(** The screen that [CreateScreen] makes. *)
Definition sample_screen : EntityId := sample_new_id 1.

Definition sample_ops : list ControlOp :=
  [CreateScreen sample_computer sample_profile sample_keith (at_ms 0);
   UpdateScreen sample_profile sample_screen Connected High 1 None None false None (at_ms 1)].

Definition connected : Running := perform_all sample_new_id sample_ops (MkRunning opened_service opened.2).

Lemma opened_ok : opened = (Ok opened_service, opened.2).
Proof. vm_compute. reflexivity. Qed.

Lemma connected_reached : reached sample_new_id sample_dir connected.
Proof. exists (at_ms 0), empty_disk, opened_service, opened.2, sample_ops. split; [exact opened_ok|reflexivity]. Qed.

Definition registered : result ControlError unit * Running :=
  register_keith_input sample_profile sample_screen 0 sample_keith sample_token (at_ms 2) connected.
Definition taken : result ControlError ScreenSession * Running :=
  take_user_control sample_new_id sample_profile sample_screen 0 sample_user (at_ms 3) registered.2.
Definition negotiated : result ControlError ScreenStreamGrant * Running :=
  negotiate_stream sample_new_id sample_profile sample_screen sample_user sample_origin (at_ms 4) 5000 connected.

Lemma registered_ok : registered = (Ok tt, registered.2).
Proof. destruct (ok_pair registered) as [[] H]; [vm_compute; reflexivity|exact H]. Qed.

Lemma registered_reached : reached sample_new_id sample_dir registered.2.
Proof.
  exists (at_ms 0), empty_disk, opened_service, opened.2,
    (sample_ops ++ [RegisterKeithInput sample_profile sample_screen 0 sample_keith sample_token (at_ms 2)]).
  split; [exact opened_ok|]. by rewrite perform_all_app.
Qed.

(** ** Instances *)

Lemma intersect_least_authority_witness :
  let grant := MkGrant Read (MkRedactedText (str "notes")) None in
  let a := MkBoundary sample_profile {[grant]} ∅ ReadOnly in
  let b := MkBoundary sample_profile {[grant]} {[LocalWrite]} ReversibleLocalWrite in
  let action := MkAction sample_profile (MkTypedId (MkEntityId (str "session"))) sample_keith Read ReadOnly
    (MkApproval ReadOnly NotRequired) (MkRedactedText (str "notes")) (MkRedactedText (str "digest"))
    (MkTypedId (MkEntityId (str "c"))) None (MkTypedId (MkEntityId (str "a"))) Repeatable in
  exists both, intersect a b = Ok both /\ authorizes both action (at_ms 0) = Ok tt /\
    authorizes a action (at_ms 0) = Ok tt /\ authorizes b action (at_ms 0) = Ok tt.
Proof.
  intros grant a b action.
  assert (intersect a b = Ok (MkBoundary sample_profile (allowed a ∩ allowed b) (denied a ∪ denied b) ReadOnly)) as Hi
    by (vm_compute; reflexivity).
  eexists. split; [exact Hi|].
  pose proof (intersect_least_authority a b _ action (at_ms 0) Hi) as H.
  assert (authorizes (MkBoundary sample_profile (allowed a ∩ allowed b) (denied a ∪ denied b) ReadOnly) action (at_ms 0)
          = Ok tt) as Hb by (vm_compute; reflexivity).
  split; [exact Hb|]. destruct (proj1 H Hb) as (H1 & H2 & _). split; assumption.
Defined.

Lemma consequential_needs_approval_witness :
  let text := MkRedactedText (str "mail") in
  let digest := MkRedactedText (str "digest") in
  let boundary := MkBoundary sample_profile {[MkGrant ChannelSend text (Some (at_ms 9))]} ∅ IrreversibleComputerInput in
  let approved := MkApproval RiskExternalCommunication
    (Granted (MkTypedId (MkEntityId (str "approval"))) sample_user digest (at_ms 5)) in
  let action := MkAction sample_profile (MkTypedId (MkEntityId (str "session"))) sample_keith ChannelSend
    RiskExternalCommunication approved text digest
    (MkTypedId (MkEntityId (str "c"))) None (MkTypedId (MkEntityId (str "a"))) NonRepeatable in
  exists id principal expiry,
    approval action = MkApproval (risk action) (Granted id principal (target_digest action) expiry) /\ (1 < unix_millis expiry)%Z.
Proof.
  intros text digest boundary approved action.
  destruct (consequential_needs_approval boundary action (at_ms 1)) as [H _]; [vm_compute; reflexivity..|exact H].
Defined.

Lemma control_refines_machine_witness :
  machine_inv (machine_of connected).
Proof. exact (proj2 (control_refines_machine sample_new_id _ _ _ _ _ sample_ops opened_ok)). Defined.

Lemma keith_input_stops_witness :
  is_cancelled sample_token (world (perform_all sample_new_id
    [TakeUserControl sample_profile sample_screen 0 sample_user (at_ms 3)] registered.2)) = true.
Proof.
  destruct (keith_input_stops sample_new_id sample_dir connected sample_profile sample_screen 0 sample_keith sample_token
    (at_ms 2) registered.2 [TakeUserControl sample_profile sample_screen 0 sample_user (at_ms 3)]
    connected_reached registered_ok) as [H|(screen & tokens & Hs & Ho & _)].
  - intros p c _ Hin. apply list_elem_of_singleton in Hin. discriminate Hin.
  - exact H.
  - exfalso. assert (fmap (fun x => owner (control x)) (screens (state (service (perform_all sample_new_id
      [TakeUserControl sample_profile sample_screen 0 sample_user (at_ms 3)] registered.2))) !! sample_screen)
      = Some UserControl) as Hu by (vm_compute; reflexivity).
    rewrite Hs in Hu. simpl in Hu. rewrite Ho in Hu. discriminate Hu.
Defined.

Lemma takeover_is_exclusive_witness :
  is_cancelled sample_token (world taken.2) = true /\
  authorize_input (service taken.2) sample_profile sample_screen 1 sample_user true true (at_ms 4) = Ok tt.
Proof.
  destruct (ok_pair taken) as [screen' Ht]; [vm_compute; reflexivity|].
  destruct (takeover_is_exclusive sample_new_id sample_dir registered.2 sample_profile sample_screen 0 sample_user
    (at_ms 3) (Ok screen') taken.2 registered_reached Ht) as (Hs & Hc & Ha & _).
  split.
  - apply (Hc [sample_token] sample_token); [vm_compute; reflexivity|by apply list_elem_of_singleton].
  - apply Ha. assert (fmap connection (screens (state (service taken.2)) !! sample_screen) = Some Connected) as Hcon
      by (vm_compute; reflexivity).
    rewrite Hs in Hcon. injection Hcon as Hcon. split_and!; [reflexivity..|exact Hcon|]. vm_compute. reflexivity.
Defined.

Lemma lease_revision_fences_witness :
  (take_user_control sample_new_id sample_profile sample_screen 0 sample_user (at_ms 6)
    (perform_all sample_new_id [PauseControl sample_profile sample_screen 0 (at_ms 5)] connected)).1 = Err StaleLease.
Proof.
  assert (fmap (fun x => bool_decide (screen_profile_id x = sample_profile)) (screens (state (service connected)) !! sample_screen)
          = Some true /\
          fmap (fun x => revision (control x)) (screens (state (service connected)) !! sample_screen) = Some 0%Z) as [Hp Hr]
    by (vm_compute; split; reflexivity).
  destruct (screens (state (service connected)) !! sample_screen) as [x|] eqn:Hx; [|discriminate Hp].
  injection Hp as Hp%bool_decide_eq_true. injection Hr as Hr.
  destruct (lease_revision_fences sample_new_id sample_dir connected
    [PauseControl sample_profile sample_screen 0 (at_ms 5)] sample_screen x connected_reached Hx) as (y & Hy & Hf & Hstale).
  { intros Hin%list_elem_of_singleton. discriminate Hin. }
  assert (fmap (fun x => revision (control x)) (screens (state (service (perform_all sample_new_id
      [PauseControl sample_profile sample_screen 0 (at_ms 5)] connected))) !! sample_screen) = Some 1%Z) as Hr'
    by (vm_compute; reflexivity).
  rewrite Hy in Hr'. injection Hr' as Hr'.
  destruct (Hstale ltac:(congruence) sample_user true true sample_user (at_ms 6)) as [_ Ht].
  rewrite Hp, Hr in Ht. exact Ht.
Defined.

Lemma stream_ticket_once_witness :
  exists grant, negotiated = (Ok grant, negotiated.2) /\
    (consume_stream_ticket sample_profile sample_user sample_origin (stream_ticket grant) (at_ms 100) negotiated.2).1
      = Ok sample_screen.
Proof.
  destruct (ok_pair negotiated) as [grant Hn]; [vm_compute; reflexivity|]. exists grant. split; [exact Hn|].
  destruct (stream_ticket_once sample_new_id sample_dir connected sample_profile sample_screen sample_user sample_origin
    (at_ms 4) 5000 grant negotiated.2 connected_reached Hn) as (_ & H & _).
  apply H. vm_compute. reflexivity.
Defined.

Lemma delete_profile_complete_witness :
  exists n, delete_profile sample_new_id sample_profile registered.2
              = (Ok n, (delete_profile sample_new_id sample_profile registered.2).2) /\ n <> 0 /\
    is_cancelled sample_token (world (delete_profile sample_new_id sample_profile registered.2).2) = true.
Proof.
  destruct (ok_pair (delete_profile sample_new_id sample_profile registered.2)) as [n Hd]; [vm_compute; reflexivity|].
  exists n. split; [exact Hd|].
  destruct (delete_profile_complete sample_new_id sample_dir registered.2 sample_profile (Ok n)
    (delete_profile sample_new_id sample_profile registered.2).2 registered_reached Hd) as (Hn & _ & _ & _ & _ & _ & Hc & _).
  split; [rewrite Hn; vm_compute; discriminate|].
  assert (fmap (fun x => bool_decide (screen_profile_id x = sample_profile)) (screens (state (service registered.2)) !! sample_screen)
          = Some true) as Hp by (vm_compute; reflexivity).
  destruct (screens (state (service registered.2)) !! sample_screen) as [x|] eqn:Hx; [|discriminate Hp].
  injection Hp as Hp%bool_decide_eq_true.
  apply (Hc sample_screen x [sample_token] sample_token); [exact Hx|exact Hp|vm_compute; reflexivity|].
  by apply list_elem_of_singleton.
Defined.

(** The disk fails in the takeover, after the rename: memory keeps Keith's lease,
    the file has the user's, and the service opens again. *)
Definition flaky_disk : ControlWorld :=
  MkControlWorld (MkFs {[sample_dir := EDir]} (replicate 14 IoDone ++ [IoFails None])) 0 ∅.
Definition flaky_open : result ControlError ComputerControlService * ControlWorld :=
  open sample_new_id sample_dir (at_ms 0) flaky_disk.
Definition flaky : Running := perform_all sample_new_id sample_ops (MkRunning opened_service flaky_open.2).
Definition flaky_take : result ControlError unit * Running :=
  perform sample_new_id (TakeUserControl sample_profile sample_screen 0 sample_user (at_ms 3)) flaky.

Definition flaky_ops : list ControlOp :=
  sample_ops ++ [TakeUserControl sample_profile sample_screen 0 sample_user (at_ms 3)].

Lemma control_survives_restart_witness :
  is_ok flaky_take.1 = false /\
  exists self w s, open sample_new_id sample_dir (at_ms 4)
      (heal (world (perform_all sample_new_id flaky_ops (MkRunning opened_service flaky_open.2)))) = (Ok self, w) /\
    acknowledged sample_new_id flaky_ops (MkRunning opened_service flaky_open.2) s /\ restarted_state (at_ms 4) s (state self).
Proof.
  split; [vm_compute; reflexivity|].
  destruct (control_survives_restart sample_new_id sample_dir (at_ms 0) flaky_disk opened_service flaky_open.2 flaky_ops (at_ms 4))
    as (self & w & s & Ho & Ha & Hr & _).
  - intros s. eexists. reflexivity.
  - vm_compute. reflexivity.
  - vm_compute. split; discriminate.
  - exists self, w, s. split; [exact Ho|]. split; [exact Ha|exact Hr].
Defined.

(** ** Two behaviours the sources do not intend *)

(** A creation whose directory sync fails past the rename is rolled back in memory
    only; deleting the profile then succeeds without writing, and a restart brings
    the screen back. *)
Definition half_created : Running :=
  perform_all sample_new_id [CreateScreen sample_computer sample_profile sample_keith (at_ms 0)]
    (MkRunning opened_service
       (MkControlWorld (MkFs {[sample_dir := EDir]} (replicate 3 IoDone ++ [IoFails None])) 0 ∅)).

Lemma deleted_screen_returns :
  (delete_profile sample_new_id sample_profile half_created).1 = Ok 0 /\
  match open sample_new_id sample_dir (at_ms 1) (world (delete_profile sample_new_id sample_profile half_created).2) with
  | (Ok self, _) => size (screens (state self)) = 1
  | _ => False
  end.
Proof. vm_compute. split; reflexivity. Qed.

(** A negotiation whose ticket would expire after the last instant fails, and
    still records the observer. *)
Lemma failed_negotiation_keeps_observer :
  let r := negotiate_stream sample_new_id sample_profile sample_screen sample_user sample_origin
             (at_ms i64_max) 5000 connected in
  is_ok r.1 = false /\
  fmap (fun x => size (observers x)) (screens (state (service connected)) !! sample_screen) = Some 0 /\
  fmap (fun x => size (observers x)) (screens (state (service r.2)) !! sample_screen) = Some 1.
Proof. vm_compute. split_and!; reflexivity. Qed.
