(* ===== verification/Session.v ===== *)
(** * Agent sessions: [crates/session/src/lib.rs]

    The life cycle of a session, the actor that applies commands to a durable
    snapshot, the local services, and the JSON writer over the file system.
    The trait objects of [SessionServices] are functions over a world [W]; the
    local services run in a world of a file system, a clock and a supply of
    identifiers. *)

From Stdlib Require Import ZArith Lia String.
From stdpp Require Import base decidable countable gmap sorting option list.
From S2P Require Import Prelude RustStd AgentTypes Json FileSystem.

(** ** Data *)

Inductive SessionRunState :=
| Dormant
| Ready
| Running
| WaitingTool
| WaitingChild
| WaitingExternal
| Compacting
| Paused
| Failed
| Archived.

Definition SessionRunState_ALL : list SessionRunState :=
  [Dormant; Ready; Running; WaitingTool; WaitingChild; WaitingExternal; Compacting; Paused; Failed; Archived].

#[export] Instance SessionRunState_eq_dec : EqDecision SessionRunState.
Proof. solve_decision. Defined.

Definition allows (self next : SessionRunState) : bool :=
  bool_decide (self = next) ||
  match self with
  | Dormant => match next with Ready | Archived => true | _ => false end
  | Ready =>
      match next with
      | Dormant | Running | Compacting | Paused | Failed | Archived => true
      | _ => false
      end
  | Running =>
      match next with
      | Ready | WaitingTool | WaitingChild | WaitingExternal | Compacting | Paused | Failed => true
      | _ => false
      end
  | WaitingTool | WaitingChild =>
      match next with Running | Ready | Paused | Failed => true | _ => false end
  | WaitingExternal =>
      match next with Running | Ready | Paused | Failed | Archived => true | _ => false end
  | Compacting => match next with Running | Ready | Paused | Failed => true | _ => false end
  | Paused => match next with Ready | Failed | Archived => true | _ => false end
  | Failed => match next with Ready | Archived => true | _ => false end
  | Archived => false
  end.

Inductive SessionKind := Root | DurableChild.

Record SessionIdentity := MkIdentity {
  kind : SessionKind;
  session_id : SessionId;
  root_tree_id : RootTreeId;
  parent_session_id : option SessionId;
  profile_id : ProfileId
}.

Definition identity_root (session_id : SessionId) (root_tree_id : RootTreeId) (profile_id : ProfileId)
  : SessionIdentity := MkIdentity Root session_id root_tree_id None profile_id.

Definition identity_durable_child (session_id : SessionId) (root_tree_id : RootTreeId)
    (parent_session_id : SessionId) (profile_id : ProfileId) : SessionIdentity :=
  MkIdentity DurableChild session_id root_tree_id (Some parent_session_id) profile_id.

Inductive ServiceMessage :=
| InputAccepted (normalized : rstr)
| ActionQueued (action_id : ActionId)
| TurnPrepared (provider model : rstr)
| ContextBuilt (content : rstr)
| ToolAuthorized (name : rstr)
| CompactionPrepared (target_tokens : Z)
| GoalValidated (objective : rstr)
| ChildValidated (child_session_id : SessionId)
| KernelPrepared (language : rstr)
| ExtensionResolved (key value : rstr).

Record AgentSessionSnapshot := MkSnapshot {
  snap_version : SchemaVersion;
  snap_identity : SessionIdentity;
  snap_state : SessionRunState;
  snap_revision : Revision;
  snap_updated_at : UtcTimestamp;
  last_service_message : option ServiceMessage
}.

Definition snapshot_initial (identity : SessionIdentity) : AgentSessionSnapshot :=
  MkSnapshot CURRENT_SCHEMA_VERSION identity Dormant Revision_ZERO UNIX_EPOCH None.

Inductive ServiceRequest :=
| Input (text : rstr)
| EnqueueAction (summary : rstr)
| PrepareTurn
| BuildContext (sections : list rstr)
| AuthorizeTool (name : rstr)
| PrepareCompaction (target_tokens : Z)
| ValidateGoal (objective : rstr)
| ValidateChild (objective : rstr)
| PrepareKernel (language : rstr)
| ResolveExtension (key : rstr).

Inductive SessionCommand :=
| Transition (next : SessionRunState)
| Invoke (request : ServiceRequest)
| SnapshotCommand
| Shutdown.

Inductive SessionReply :=
| Transitioned (snapshot : AgentSessionSnapshot)
| ServiceApplied (message : ServiceMessage) (snapshot : AgentSessionSnapshot)
| SnapshotReply (snapshot : AgentSessionSnapshot)
| ShutdownReply (snapshot : AgentSessionSnapshot).

(** The messages of [ServiceError::InvalidInput]. *)
Inductive InputReason :=
| EmptyOrLongInput
| NulInInput
| EmptySummary
| LongContext
| ZeroTarget
| EmptyGoal
| EmptyChildObjective
| EmptyLanguage.

Inductive ServiceError :=
| InvalidInput (reason : InputReason)
| ProviderUnavailable
| ToolUnauthorized (name : rstr)
| ExtensionMissing (key : rstr)
| Persistence (cause : IoError + JsonError).

Inductive SessionError :=
| InvalidMailboxCapacity
| MailboxFull
| ActorStopped
| IllegalTransition (from to : SessionRunState)
| RevisionOverflow
| ClockFailed
| Service (error : ServiceError)
| SnapshotMissing
| IncompatibleSnapshot.

#[export] Instance SessionKind_eq_dec : EqDecision SessionKind.
Proof. solve_decision. Defined.
#[export] Instance SessionIdentity_eq_dec : EqDecision SessionIdentity.
Proof. solve_decision. Defined.
#[export] Instance ServiceMessage_eq_dec : EqDecision ServiceMessage.
Proof. solve_decision. Defined.
#[export] Instance Snapshot_eq_dec : EqDecision AgentSessionSnapshot.
Proof. solve_decision. Defined.
#[export] Instance ServiceRequest_eq_dec : EqDecision ServiceRequest.
Proof. solve_decision. Defined.
#[export] Instance SessionCommand_eq_dec : EqDecision SessionCommand.
Proof. solve_decision. Defined.

(** ** Ports *)

(** The trait objects of [SessionServices]. *)
Record SessionServices (W : Type) := MkServices {
  accept_input : rstr -> stateT W ServiceError ServiceMessage;
  enqueue : rstr -> stateT W ServiceError ServiceMessage;
  prepare_turn : ProfileId -> stateT W ServiceError ServiceMessage;
  build_context : list rstr -> stateT W ServiceError ServiceMessage;
  authorize_tool : rstr -> stateT W ServiceError ServiceMessage;
  prepare_compaction : Z -> stateT W ServiceError ServiceMessage;
  validate_goal : rstr -> stateT W ServiceError ServiceMessage;
  validate_child : rstr -> stateT W ServiceError ServiceMessage;
  prepare_kernel : rstr -> stateT W ServiceError ServiceMessage;
  resolve_extension : rstr -> stateT W ServiceError ServiceMessage;
  load_snapshot : SessionId -> stateT W ServiceError (option AgentSessionSnapshot);
  store_snapshot : AgentSessionSnapshot -> stateT W ServiceError unit
}.
Arguments accept_input {W} _ _.
Arguments enqueue {W} _ _.
Arguments prepare_turn {W} _ _.
Arguments build_context {W} _ _.
Arguments authorize_tool {W} _ _.
Arguments prepare_compaction {W} _ _.
Arguments validate_goal {W} _ _.
Arguments validate_child {W} _ _.
Arguments prepare_kernel {W} _ _.
Arguments resolve_extension {W} _ _.
Arguments load_snapshot {W} _ _.
Arguments store_snapshot {W} _ _.

(** [SystemTime::now]. *)
Class Clock (W : Type) : Type := system_time_now : W -> Z * W.

(** ** The actor *)

Record Actor (W : Type) := MkActor { actor_snapshot : AgentSessionSnapshot; actor_world : W }.
Arguments MkActor {W} _ _.
Arguments actor_snapshot {W} _.
Arguments actor_world {W} _.

Section actor.
Context {W : Type} `{HClock : Clock W} (services : SessionServices W).

Abbreviation actor_m := (stateT (Actor W) SessionError).

(** A call of a port by the actor; its error becomes an error of the session. *)
Definition in_world {E A} (wrap : E -> SessionError) (m : stateT W E A) : actor_m A :=
  fun a => let '(r, w) := m (actor_world a) in (map_err wrap r, MkActor (actor_snapshot a) w).

Definition set_snapshot (s : AgentSessionSnapshot) : actor_m unit :=
  modify (fun a => MkActor s (actor_world a)).

Definition utc_now : stateT W TimestampError UtcTimestamp :=
  fun w => let '(t, w') := system_time_now w in (from_system_time t, w').

Definition ensure_transition (from to : SessionRunState) : result SessionError unit :=
  if allows from to then Ok tt else Err (IllegalTransition from to).

Definition advance (s : AgentSessionSnapshot) : actor_m AgentSessionSnapshot :=
  revision ← lift (ok_or (checked_next (snap_revision s)) RevisionOverflow);
  now ← in_world (fun _ => ClockFailed) utc_now;
  mret (MkSnapshot (snap_version s) (snap_identity s) (snap_state s) revision now (last_service_message s)).

Definition transition (next : SessionRunState) : actor_m unit :=
  s ← gets actor_snapshot;
  lift (ensure_transition (snap_state s) next) ;;
  if bool_decide (snap_state s = next) then mret tt
  else
    candidate ← advance (MkSnapshot (snap_version s) (snap_identity s) next (snap_revision s)
                           (snap_updated_at s) (last_service_message s));
    in_world Service (store_snapshot services candidate) ;;
    set_snapshot candidate.

(** The state a service message moves the session to. *)
Definition message_target (message : ServiceMessage) : option SessionRunState :=
  match message with
  | TurnPrepared _ _ => Some Running
  | ToolAuthorized _ => Some WaitingTool
  | CompactionPrepared _ => Some Compacting
  | ChildValidated _ => Some WaitingChild
  | KernelPrepared _ => Some WaitingExternal
  | _ => None
  end.

Definition apply_service_message (message : ServiceMessage) : actor_m unit :=
  s ← gets actor_snapshot;
  state ← lift (match message_target message with
                | Some target => ensure_transition (snap_state s) target ;; Ok target
                | None => Ok (snap_state s)
                end);
  candidate ← advance (MkSnapshot (snap_version s) (snap_identity s) state (snap_revision s)
                         (snap_updated_at s) (Some message));
  in_world Service (store_snapshot services candidate) ;;
  set_snapshot candidate.

(** The port a request goes to. *)
Definition service_call (s : AgentSessionSnapshot) (request : ServiceRequest)
  : stateT W ServiceError ServiceMessage :=
  match request with
  | Input text => accept_input services text
  | EnqueueAction summary => enqueue services summary
  | PrepareTurn => prepare_turn services (profile_id (snap_identity s))
  | BuildContext sections => build_context services sections
  | AuthorizeTool name => authorize_tool services name
  | PrepareCompaction target_tokens => prepare_compaction services target_tokens
  | ValidateGoal objective => validate_goal services objective
  | ValidateChild objective => validate_child services objective
  | PrepareKernel language => prepare_kernel services language
  | ResolveExtension key => resolve_extension services key
  end.

Definition invoke_service (request : ServiceRequest) : actor_m ServiceMessage :=
  s ← gets actor_snapshot;
  in_world Service (service_call s request).

Definition apply_command (command : SessionCommand) : actor_m SessionReply :=
  match command with
  | Transition next => transition next ;; s ← gets actor_snapshot; mret (Transitioned s)
  | Invoke request =>
      message ← invoke_service request;
      apply_service_message message ;;
      s ← gets actor_snapshot;
      mret (ServiceApplied message s)
  | SnapshotCommand => s ← gets actor_snapshot; mret (SnapshotReply s)
  | Shutdown =>
      s ← gets actor_snapshot;
      in_world Service (store_snapshot services s) ;;
      mret (ShutdownReply s)
  end.

(** The loop over the requests of the mailbox, in order: the answers given, and
    whether the actor is still running. *)
Fixpoint run_actor (commands : list SessionCommand) (a : Actor W)
  : list (result SessionError SessionReply) * bool * Actor W :=
  match commands with
  | [] => ([], true, a)
  | command :: commands =>
      let '(r, a') := apply_command command a in
      if bool_decide (command = Shutdown) then ([r], false, a')
      else let '(rs, running, a'') := run_actor commands a' in (r :: rs, running, a'')
  end.

Definition spawn_snapshot (snapshot : AgentSessionSnapshot) (mailbox_capacity : Z) (w : W)
  : result SessionError (Actor W) :=
  if (mailbox_capacity =? 0)%Z then Err InvalidMailboxCapacity else Ok (MkActor snapshot w).

Definition spawn (identity : SessionIdentity) (mailbox_capacity : Z) (w : W) : result SessionError (Actor W) * W :=
  let snapshot := snapshot_initial identity in
  match store_snapshot services snapshot w with
  | (Ok _, w') => (spawn_snapshot snapshot mailbox_capacity w', w')
  | (Err e, w') => (Err (Service e), w')
  end.

Definition recover (identity : SessionIdentity) (mailbox_capacity : Z) (w : W)
  : result SessionError (Actor W) * W :=
  match load_snapshot services (session_id identity) w with
  | (Err e, w') => (Err (Service e), w')
  | (Ok None, w') => (Err SnapshotMissing, w')
  | (Ok (Some snapshot), w') =>
      (if (negb (bool_decide (snap_version snapshot = CURRENT_SCHEMA_VERSION))
           || negb (bool_decide (snap_identity snapshot = identity)))%bool
       then Err IncompatibleSnapshot
       else spawn_snapshot snapshot mailbox_capacity w', w')
  end.
End actor.

(** ** The JSON writer *)

(** The derived codec of a snapshot. *)
Class SnapshotCodec : Type := {
  snapshot_to_value : AgentSessionSnapshot -> result JsonError Value;
  snapshot_from_value : Value -> result JsonError AgentSessionSnapshot
}.

(** A world of local services: the file system, and how often the clock was read
    and an identifier drawn. *)
Record LocalWorld := MkLocalWorld { lw_fs : Fs; lw_ticks : nat; lw_drawn : nat }.

Record JsonSessionWriter := MkWriter { directory : Path }.

Section writer.
Context `{HJ : SerdeJson, HC : SnapshotCodec}.
(** [std::process::id]. *)
Context (process_id : rstr).

Abbreviation local_m := (stateT LocalWorld ServiceError).

Definition on_files {A} (m : fs_m A) : stateT LocalWorld IoError A :=
  fun w => let '(r, fs) := m (lw_fs w) in (r, MkLocalWorld fs (lw_ticks w) (lw_drawn w)).

(** [.map_err(|error| ServiceError::Persistence(error.to_string()))]. *)
Definition persisting {A} (m : stateT LocalWorld IoError A) : local_m A :=
  fun w => let '(r, w') := m w in (map_err (fun e => Persistence (inl e)) r, w').

Definition snapshot_name (id : SessionId) : rstr := as_str (as_entity_id id) ++ str ".json".

Definition writer_path (writer : JsonSessionWriter) (id : SessionId) : Path :=
  path_join (directory writer) (snapshot_name id).

Definition temporary_path (writer : JsonSessionWriter) (id : SessionId) : Path :=
  path_join (directory writer) (with_extension (snapshot_name id) (process_id ++ str ".tmp")).

Definition snapshot_bytes (s : AgentSessionSnapshot) : result JsonError (list Z) :=
  value ← snapshot_to_value s; canonical_json_bytes value.

Definition decode_snapshot (bytes : list Z) : result JsonError AgentSessionSnapshot :=
  value ← from_slice bytes; snapshot_from_value value.

Definition writer_load (writer : JsonSessionWriter) (id : SessionId) : local_m (option AgentSessionSnapshot) :=
  fun w =>
    match on_files (fs_read (writer_path writer id)) w with
    | (Ok bytes, w') => (Some <$> map_err (fun e => Persistence (inr e)) (decode_snapshot bytes), w')
    | (Err IoNotFound, w') => (Ok None, w')
    | (Err e, w') => (Err (Persistence (inl e)), w')
    end.

Definition writer_store (writer : JsonSessionWriter) (s : AgentSessionSnapshot) : local_m unit :=
  persisting (on_files (fs_create_dir_all (directory writer))) ;;
  let id := session_id (snap_identity s) in
  let path := writer_path writer id in
  let temporary := temporary_path writer id in
  bytes ← lift (map_err (fun e => Persistence (inr e)) (snapshot_bytes s));
  persisting (on_files (fs_write temporary bytes)) ;;
  persisting (on_files (fs_sync temporary)) ;;
  persisting (on_files (replace_file temporary path)) ;;
  persisting (on_files (fs_sync (directory writer))).
End writer.

(** ** The local services *)

Record LocalSessionServices := MkLocal {
  loc_provider : rstr;
  loc_model : rstr;
  allowed_tools : gset rstr;
  extensions : gmap rstr rstr;
  loc_writer : JsonSessionWriter;
  max_input_bytes : Z;
  max_context_bytes : Z
}.

Section local.
Context `{HJ : SerdeJson, HC : SnapshotCodec}.
Context (process_id : rstr).
(** The identifiers that successive calls of [EntityId::new] draw, and the
    readings of the clock. *)
Context (new_id : nat -> EntityId) (clock : nat -> Z).

Abbreviation local_m := (stateT LocalWorld ServiceError).

Definition local_clock : Clock LocalWorld :=
  fun w => (clock (lw_ticks w), MkLocalWorld (lw_fs w) (S (lw_ticks w)) (lw_drawn w)).

Definition local_new_id : local_m EntityId :=
  fun w => (Ok (new_id (lw_drawn w)), MkLocalWorld (lw_fs w) (lw_ticks w) (S (lw_drawn w))).

Definition local_new (writer : JsonSessionWriter) (provider model : rstr) (allowed : gset rstr)
    (exts : gmap rstr rstr) : LocalSessionServices :=
  MkLocal provider model allowed exts writer (1024 * 1024) (4 * 1024 * 1024).

Definition provider_route (self : LocalSessionServices) (_ : ProfileId) : result ServiceError (rstr * rstr) :=
  if (str_is_empty (trim (loc_provider self)) || str_is_empty (trim (loc_model self)))%bool
  then Err ProviderUnavailable else Ok (loc_provider self, loc_model self).

Definition tool_allowed (self : LocalSessionServices) (name : rstr) : bool := bool_decide (name ∈ allowed_tools self).

Definition normalize_input (self : LocalSessionServices) (input : rstr) : result ServiceError rstr :=
  let normalized := replace_crlf (trim input) in
  if (str_is_empty normalized || (max_input_bytes self <? str_len normalized)%Z)%bool
  then Err (InvalidInput EmptyOrLongInput) else Ok normalized.

Definition validate_client_text (input : rstr) : result ServiceError unit :=
  reject_if (str_contains 0 input) (InvalidInput NulInInput).

Definition local_accept_input (self : LocalSessionServices) (text : rstr) : result ServiceError ServiceMessage :=
  validate_client_text text ;;
  normalized ← normalize_input self text;
  Ok (InputAccepted normalized).

Definition local_enqueue (summary : rstr) : local_m ServiceMessage :=
  if str_is_empty (trim summary) then throw (InvalidInput EmptySummary)
  else id ← local_new_id; mret (ActionQueued (MkTypedId id)).

Definition local_prepare_turn (self : LocalSessionServices) (profile : ProfileId)
  : result ServiceError ServiceMessage :=
  '(provider, model) ← provider_route self profile;
  Ok (TurnPrepared provider model).

Definition local_build_context (self : LocalSessionServices) (sections : list rstr)
  : result ServiceError ServiceMessage :=
  let content := str_join [10%Z] sections in
  if (max_context_bytes self <? str_len content)%Z then Err (InvalidInput LongContext)
  else Ok (ContextBuilt content).

Definition local_authorize_tool (self : LocalSessionServices) (name : rstr) : result ServiceError ServiceMessage :=
  if tool_allowed self name then Ok (ToolAuthorized name) else Err (ToolUnauthorized name).

Definition local_prepare_compaction (target_tokens : Z) : result ServiceError ServiceMessage :=
  if (target_tokens =? 0)%Z then Err (InvalidInput ZeroTarget) else Ok (CompactionPrepared target_tokens).

Definition local_validate_goal (objective : rstr) : result ServiceError ServiceMessage :=
  if str_is_empty (trim objective) then Err (InvalidInput EmptyGoal) else Ok (GoalValidated (trim objective)).

Definition local_validate_child (objective : rstr) : local_m ServiceMessage :=
  if str_is_empty (trim objective) then throw (InvalidInput EmptyChildObjective)
  else id ← local_new_id; mret (ChildValidated (MkTypedId id)).

Definition local_prepare_kernel (language : rstr) : result ServiceError ServiceMessage :=
  if str_is_empty (trim language) then Err (InvalidInput EmptyLanguage) else Ok (KernelPrepared (trim language)).

Definition local_resolve_extension (self : LocalSessionServices) (key : rstr) : result ServiceError ServiceMessage :=
  ok_or (ExtensionResolved key <$> extensions self !! key) (ExtensionMissing key).

Definition into_services (self : LocalSessionServices) : SessionServices LocalWorld := {|
  accept_input text := lift (local_accept_input self text);
  enqueue := local_enqueue;
  prepare_turn profile := lift (local_prepare_turn self profile);
  build_context sections := lift (local_build_context self sections);
  authorize_tool name := lift (local_authorize_tool self name);
  prepare_compaction target_tokens := lift (local_prepare_compaction target_tokens);
  validate_goal objective := lift (local_validate_goal objective);
  validate_child := local_validate_child;
  prepare_kernel language := lift (local_prepare_kernel language);
  resolve_extension key := lift (local_resolve_extension self key);
  load_snapshot := writer_load (loc_writer self);
  store_snapshot := writer_store process_id (loc_writer self)
|}.
End local.
