(* ===== verification/SessionMailbox.v ===== *)
(** * The mailbox of a session: [AgentSessionHandle::dispatch]

    Any number of threads call [dispatch] on clones of one handle.  A call
    reserves a place by the atomic counter, sends its request through the
    bounded channel, waits for the answer and gives the place back when it
    returns.  The threads and the actor interleave at these steps; [Event] names
    the step that happens next. *)

From Stdlib Require Import ZArith Lia String.
From stdpp Require Import base decidable countable gmap sorting option list.
From S2P Require Import Prelude RustStd AgentTypes Json FileSystem Session.

Abbreviation Answer := (result SessionError SessionReply).

(** Where a call of [dispatch] is. *)
Inductive Call :=
| Reserved (command : SessionCommand)
| Waiting
| Answered (answer : Answer)
| Dropped.

(** The thread of the actor: in its loop, out of it, and ended, which drops the
    receiver and the requests still queued. *)
Inductive ActorThread := Serving | Stopping | Stopped.

Record Mailbox (W : Type) := MkMailbox {
  capacity : nat;
  outstanding : nat;
  queue : list (nat * SessionCommand);
  calls : gmap nat Call;
  actor : Actor W;
  thread : ActorThread
}.
Arguments MkMailbox {W} _ _ _ _ _ _.
Arguments capacity {W} _.
Arguments outstanding {W} _.
Arguments queue {W} _.
Arguments calls {W} _.
Arguments actor {W} _.
Arguments thread {W} _.

Inductive Event :=
| Reserve (call : nat) (command : SessionCommand)
| TrySend (call : nat)
| Serve
| Stop
| Return (call : nat).

Section mailbox.
Context {W : Type} `{HClock : Clock W} (services : SessionServices W).

Definition mailbox_new (cap : nat) (a : Actor W) : Mailbox W := MkMailbox cap 0 [] ∅ a Serving.

(** The drop of [OutstandingReservation] ends every call that reserved. *)
Definition give_back (call : nat) (m : Mailbox W) : Mailbox W :=
  MkMailbox (capacity m) (outstanding m - 1) (queue m) (delete call (calls m)) (actor m) (thread m).

Definition drop_waiting (c : Call) : Call := match c with Waiting => Dropped | _ => c end.

(** One step: [None] when it cannot happen, else the new state and what the call
    returned, if it returned. *)
Definition mailbox_step (e : Event) (m : Mailbox W) : option (Mailbox W * option Answer) :=
  match e with
  | Reserve call command =>
      match calls m !! call with
      | Some _ => None
      | None =>
          if (outstanding m <? capacity m)%nat
          then Some (MkMailbox (capacity m) (S (outstanding m)) (queue m)
                       (<[call := Reserved command]> (calls m)) (actor m) (thread m), None)
          else Some (m, Some (Err MailboxFull))
      end
  | TrySend call =>
      match calls m !! call with
      | Some (Reserved command) =>
          match thread m with
          | Stopped => Some (give_back call m, Some (Err ActorStopped))
          | _ =>
              if (length (queue m) <? capacity m)%nat
              then Some (MkMailbox (capacity m) (outstanding m) (queue m ++ [(call, command)])
                           (<[call := Waiting]> (calls m)) (actor m) (thread m), None)
              else Some (give_back call m, Some (Err MailboxFull))
          end
      | _ => None
      end
  | Serve =>
      match thread m, queue m with
      | Serving, (call, command) :: rest =>
          let '(answer, a) := apply_command services command (actor m) in
          Some (MkMailbox (capacity m) (outstanding m) rest (<[call := Answered answer]> (calls m)) a
                  (if bool_decide (command = Shutdown) then Stopping else Serving), None)
      | _, _ => None
      end
  | Stop =>
      match thread m with
      | Stopping => Some (MkMailbox (capacity m) (outstanding m) [] (drop_waiting <$> calls m) (actor m) Stopped, None)
      | _ => None
      end
  | Return call =>
      match calls m !! call with
      | Some (Answered answer) => Some (give_back call m, Some answer)
      | Some Dropped => Some (give_back call m, Some (Err ActorStopped))
      | _ => None
      end
  end.

Inductive mailbox_reachable (cap : nat) (a : Actor W) : Mailbox W -> Prop :=
| reachable_new : mailbox_reachable cap a (mailbox_new cap a)
| reachable_step m e m' out :
    mailbox_reachable cap a m -> mailbox_step e m = Some (m', out) -> mailbox_reachable cap a m'.

(** What is left to do for the calls under way. *)
Definition call_work (c : Call) : nat :=
  match c with Reserved _ => 3 | Waiting => 2 | Answered _ | Dropped => 1 end.
Definition calls_work (cs : gmap nat Call) : nat := map_fold (fun _ c n => call_work c + n) 0 cs.
Definition thread_work (t : ActorThread) : nat := match t with Serving => 2 | Stopping => 1 | Stopped => 0 end.
Definition mailbox_work (m : Mailbox W) : nat := calls_work (calls m) + thread_work (thread m).

Record mailbox_ok (m : Mailbox W) : Prop := {
  ok_outstanding : outstanding m = size (calls m);
  ok_capacity : outstanding m <= capacity m;
  ok_distinct : NoDup (queue m).*1;
  ok_queued : forall call, call ∈ (queue m).*1 <-> calls m !! call = Some Waiting;
  ok_stopped : thread m = Stopped -> queue m = []
}.

(** ** Lemmas *)

Lemma calls_work_insert cs i c : cs !! i = None -> calls_work (<[i := c]> cs) = call_work c + calls_work cs.
Proof.
  intros Hi. unfold calls_work. apply (map_fold_insert_L (fun _ c n => call_work c + n)); [|done]. intros. lia.
Qed.

Lemma calls_work_delete cs i c : cs !! i = Some c -> calls_work cs = call_work c + calls_work (delete i cs).
Proof.
  intros Hi. rewrite <- (insert_delete_id cs i c) at 1 by done. apply calls_work_insert, lookup_delete_eq.
Qed.

Lemma calls_work_replace cs i c d :
  cs !! i = Some c -> calls_work (<[i := d]> cs) + call_work c = calls_work cs + call_work d.
Proof.
  intros Hi. rewrite <- insert_delete_eq, calls_work_insert by apply lookup_delete_eq.
  rewrite (calls_work_delete cs i c Hi). lia.
Qed.

Lemma calls_work_fmap (f : Call -> Call) cs :
  (forall c, call_work (f c) <= call_work c) -> calls_work (f <$> cs) <= calls_work cs.
Proof.
  intros Hf. induction cs as [|i c cs Hi IH] using map_ind.
  - by rewrite fmap_empty.
  - rewrite fmap_insert, !calls_work_insert by (done || by rewrite lookup_fmap, Hi). specialize (Hf c). lia.
Qed.

(** A call that is not queued leaves room for itself in the channel. *)
Lemma queue_room m call c :
  mailbox_ok m -> calls m !! call = Some c -> c <> Waiting -> length (queue m) < capacity m.
Proof.
  intros [Ho Hcap Hnd Hq Hst] Hc Hne. rewrite <- (length_fmap fst).
  assert (length ((queue m).*1) < size (dom (calls m))); [|rewrite size_dom in *; lia].
  rewrite <- (size_list_to_set (C:=gset nat)) by done. apply subset_size. split.
  - intros i. rewrite elem_of_list_to_set, Hq. intros Hi. apply elem_of_dom. eauto.
  - intros Hsub. assert (call ∈ (list_to_set (queue m).*1 : gset nat)) as Hin by (apply Hsub, elem_of_dom; eauto).
    rewrite elem_of_list_to_set, Hq in Hin. congruence.
Qed.

Lemma give_back_ok m call c :
  mailbox_ok m -> calls m !! call = Some c -> c <> Waiting -> mailbox_ok (give_back call m).
Proof.
  intros [Ho Hcap Hnd Hq Hst] Hc Hne. split; simpl; [|lia|done| |done].
  - rewrite map_size_delete_Some by eauto. lia.
  - intros i. rewrite Hq, lookup_delete_Some. split; [|naive_solver]. intros Hi. split; [|done]. intros ->. congruence.
Qed.

Lemma reserve_ok m call command :
  mailbox_ok m -> calls m !! call = None -> outstanding m < capacity m ->
  mailbox_ok (MkMailbox (capacity m) (S (outstanding m)) (queue m) (<[call := Reserved command]> (calls m))
                (actor m) (thread m)).
Proof.
  intros [Ho Hcap Hnd Hq Hst] Hc Hlt. split; simpl; [|lia|done| |done].
  - rewrite map_size_insert_None by done. lia.
  - intros i. rewrite Hq, lookup_insert_Some. split; [|naive_solver]. intros Hi. right. split; [|done]. intros ->. congruence.
Qed.

Lemma send_ok m call command :
  mailbox_ok m -> calls m !! call = Some (Reserved command) -> thread m <> Stopped ->
  mailbox_ok (MkMailbox (capacity m) (outstanding m) (queue m ++ [(call, command)]) (<[call := Waiting]> (calls m))
                (actor m) (thread m)).
Proof.
  intros [Ho Hcap Hnd Hq Hst] Hc Hrun. split; simpl; [|done| | |done].
  - rewrite map_size_insert_Some by eauto. done.
  - rewrite fmap_app. apply NoDup_app. split; [done|]. split; [|apply NoDup_singleton].
    intros i Hi ->%list_elem_of_singleton. apply Hq in Hi. simpl in Hi. congruence.
  - intros i. rewrite fmap_app, elem_of_app, Hq, lookup_insert_Some. csimpl. rewrite list_elem_of_singleton.
    destruct (decide (call = i)) as [->|Hne]; naive_solver.
Qed.

Lemma serve_ok m call command rest answer a t :
  mailbox_ok m -> t <> Stopped -> queue m = (call, command) :: rest ->
  mailbox_ok (MkMailbox (capacity m) (outstanding m) rest (<[call := Answered answer]> (calls m)) a t).
Proof.
  intros [Ho Hcap Hnd Hq Hst] Ht Hqueue. rewrite Hqueue in Hnd, Hq. csimpl in *. apply NoDup_cons in Hnd as [Hni Hnd].
  assert (calls m !! call = Some Waiting) as Hw by (apply Hq; by left). split; simpl; [|done|done| |done].
  - rewrite map_size_insert_Some by eauto. done.
  - intros i. rewrite lookup_insert_Some. split.
    + intros Hi. right. split; [set_solver|]. apply Hq. by right.
    + intros [[_ [=]]|[Hne Hi]]. apply Hq in Hi. set_solver.
Qed.

Lemma stop_ok m :
  mailbox_ok m ->
  mailbox_ok (MkMailbox (capacity m) (outstanding m) [] (drop_waiting <$> calls m) (actor m) Stopped).
Proof.
  intros [Ho Hcap Hnd Hq Hst]. split; simpl; [by rewrite map_size_fmap|done|constructor| |done].
  intros i. rewrite lookup_fmap_Some. split; [by intros ?%elem_of_nil|]. by intros ([] & ? & _).
Qed.

Lemma mailbox_step_ok e m m' out :
  mailbox_ok m -> mailbox_step e m = Some (m', out) -> mailbox_ok m' /\ capacity m' = capacity m.
Proof.
  intros Hm Hs. destruct e as [call command|call| | |call]; simpl in Hs.
  - destruct (calls m !! call) eqn:Ec; [done|]. destruct (_ <? _)%nat eqn:El; injection Hs as <- <-; [|done].
    apply Nat.ltb_lt in El. split; [by apply reserve_ok|done].
  - destruct (calls m !! call) as [[command| | |]|] eqn:Ec; try done.
    assert (mailbox_ok (give_back call m)) by by eapply give_back_ok.
    destruct (thread m) eqn:Et; [| |by injection Hs as <- <-];
      (destruct (_ <? _)%nat; injection Hs as <- <-; [|done]); (split; [|done]); rewrite <- Et; apply send_ok; congruence.
  - destruct (thread m); try done. destruct (queue m) as [|[call command] rest] eqn:Eq; [done|].
    destruct (apply_command _ _ _) as [answer a]. injection Hs as <- <-. split; [|done].
    eapply serve_ok; [done|by destruct (bool_decide _)|done].
  - destruct (thread m); try done. injection Hs as <- <-. split; [by apply stop_ok|done].
  - destruct (calls m !! call) as [[| |answer|]|] eqn:Ec; try done; injection Hs as <- <-;
      (split; [by eapply give_back_ok|done]).
Qed.

Lemma mailbox_reachable_ok cap a m : mailbox_reachable cap a m -> mailbox_ok m /\ capacity m = cap.
Proof.
  induction 1 as [|m e m' out _ [IH Hcap] Hs].
  - split; [|done]. split; simpl; [by rewrite map_size_empty|lia|constructor| |done].
    intros i. rewrite lookup_empty. split; [by intros ?%elem_of_nil|done].
  - destruct (mailbox_step_ok _ _ _ _ IH Hs) as [? ->]. done.
Qed.

(** Every step but a new reservation brings the calls under way closer to their end. *)
Lemma mailbox_step_work e m m' out :
  mailbox_ok m -> mailbox_step e m = Some (m', out) -> (forall call command, e <> Reserve call command) ->
  mailbox_work m' < mailbox_work m.
Proof.
  intros Hm Hs Hne. unfold mailbox_work. destruct e as [call command|call| | |call]; simpl in Hs.
  - by destruct (Hne call command).
  - destruct (calls m !! call) as [[command| | |]|] eqn:Ec; try done.
    pose proof (calls_work_replace _ _ _ Waiting Ec) as Hr. pose proof (calls_work_delete _ _ _ Ec) as Hd.
    simpl in Hr, Hd. destruct (thread m) eqn:Et; [| |injection Hs as <- <-; simpl; rewrite Et; simpl; lia];
      (destruct (_ <? _)%nat; injection Hs as <- <-; simpl; rewrite ?Et; simpl; lia).
  - destruct (thread m); try done. destruct (queue m) as [|[call command] rest] eqn:Eq; [done|].
    assert (calls m !! call = Some Waiting) as Hw by (apply (ok_queued _ Hm); rewrite Eq; by left).
    destruct (apply_command _ _ _) as [answer a]. injection Hs as <- <-. simpl.
    pose proof (calls_work_replace _ _ _ (Answered answer) Hw) as Hr. simpl in Hr.
    destruct (bool_decide _); simpl; lia.
  - destruct (thread m); try done. injection Hs as <- <-. simpl.
    pose proof (calls_work_fmap drop_waiting (calls m) ltac:(by intros []; simpl; lia)). lia.
  - destruct (calls m !! call) as [[| |answer|]|] eqn:Ec; try done; injection Hs as <- <-;
      pose proof (calls_work_delete _ _ _ Ec) as Hd; simpl in *; lia.
Qed.

(** While a call is under way, the threads can make a step that is not a reservation. *)
Lemma mailbox_progress m call c :
  mailbox_ok m -> calls m !! call = Some c ->
  exists e m' out, mailbox_step e m = Some (m', out) /\ forall i command, e <> Reserve i command.
Proof.
  intros Hm Hc. destruct c as [command| |answer|].
  - exists (TrySend call). simpl. rewrite Hc. destruct (thread m); try destruct (_ <? _)%nat; eauto.
  - apply (ok_queued _ Hm) in Hc. destruct (queue m) as [|[i command] rest] eqn:Eq; [by apply elem_of_nil in Hc|].
    destruct (thread m) eqn:Et.
    + exists Serve. simpl. rewrite Et, Eq. destruct (apply_command _ _ _). eauto.
    + exists Stop. simpl. rewrite Et. eauto.
    + apply (ok_stopped _ Hm) in Et. congruence.
  - exists (Return call). simpl. rewrite Hc. eauto.
  - exists (Return call). simpl. rewrite Hc. eauto.
Qed.
End mailbox.

Section claims.
Context {W : Type} `{HClock : Clock W} (services : SessionServices W).

(** C36: The mailbox is bounded and its counter exact: however the calls of
    [dispatch] and the actor interleave, the counter is the number of calls
    under way and never exceeds the capacity, every waiting request is in the
    channel exactly once, and a call that holds a reservation always finds room
    in the channel, so [MailboxFull] only ever comes from the counter. *)
Theorem mailbox_bounded cap a m :
  mailbox_reachable services cap a m ->
  outstanding m = size (calls m) /\ outstanding m <= cap /\ length (queue m) <= cap
  /\ NoDup (queue m).*1
  /\ (forall call, call ∈ (queue m).*1 <-> calls m !! call = Some Waiting)
  /\ forall call m', mailbox_step services (TrySend call) m <> Some (m', Some (Err MailboxFull)).
Proof.
  intros Hr. destruct (mailbox_reachable_ok _ _ _ _ Hr) as [Hm <-].
  split; [apply Hm|]. split; [apply Hm|]. split.
  { rewrite <- (length_fmap fst). pose proof (ok_capacity _ Hm). rewrite (ok_outstanding _ Hm) in *.
    rewrite <- (size_list_to_set (C:=gset nat)) by apply Hm. rewrite <- size_dom in *.
    etransitivity; [apply subseteq_size|done]. intros i. rewrite elem_of_list_to_set, (ok_queued _ Hm).
    intros Hi. apply elem_of_dom. eauto. }
  split; [apply Hm|]. split; [apply Hm|]. intros call m'. simpl.
  destruct (calls m !! call) as [[command| | |]|] eqn:Ec; try done.
  pose proof (queue_room m call _ Hm Ec ltac:(done)) as Hroom. apply Nat.ltb_lt in Hroom.
  destruct (thread m); rewrite ?Hroom; congruence.
Qed.

(** C37: No call of [dispatch] is lost or waits forever: while calls are under
    way, some thread can make a step that completes, sends or answers one, and
    every such step decreases a bound on the steps that are left, so without
    new reservations all calls return. *)
Theorem dispatch_terminates cap a m :
  mailbox_reachable services cap a m ->
  (calls m <> ∅ ->
   exists e m' out, mailbox_step services e m = Some (m', out) /\ forall call command, e <> Reserve call command)
  /\ forall e m' out, mailbox_step services e m = Some (m', out) ->
       (forall call command, e <> Reserve call command) -> mailbox_work m' < mailbox_work m.
Proof.
  intros Hr. destruct (mailbox_reachable_ok _ _ _ _ Hr) as [Hm _]. split.
  - intros Hne. apply map_choose in Hne as (call & c & Hc). by eapply mailbox_progress.
  - intros e m' out Hs He. by eapply mailbox_step_work.
Qed.
End claims.
