(* ===== verification/SessionProperties.v ===== *)
(** * What a session guarantees

    The actor of [crates/session] answers every command as specified, moves its
    snapshot along the published life cycle one revision per change, changes it only together with a successful store, and the JSON writer
    keeps one complete snapshot on disk at all times: recovery never loses an
    acknowledged revision. *)

From Stdlib Require Import ZArith Lia String.
From stdpp Require Import base decidable countable gmap sorting option list relations.
From S2P Require Import Prelude RustStd AgentTypes Json FileSystem Session.

(** ** Steps of a snapshot *)

(** One change of a session: the next revision, in a state the life cycle allows. *)
Record snapshot_step (s s' : AgentSessionSnapshot) : Prop := {
  step_version : snap_version s' = snap_version s;
  step_identity : snap_identity s' = snap_identity s;
  step_allowed : allows (snap_state s) (snap_state s') = true;
  step_revision : revision_get (snap_revision s') = (revision_get (snap_revision s) + 1)%Z
}.

Definition reply_snapshot (reply : SessionReply) : AgentSessionSnapshot :=
  match reply with
  | Transitioned s | ServiceApplied _ s | SnapshotReply s | ShutdownReply s => s
  end.

(** States of the life cycle that a session can get to. *)
Definition leads_to : SessionRunState -> SessionRunState -> Prop := rtc (fun s t => allows s t = true).

(** The snapshot after a change: the next revision, with the new state and the
    last message of the services. *)
Record next_snapshot (s : AgentSessionSnapshot) (state : SessionRunState) (message : option ServiceMessage)
    (s' : AgentSessionSnapshot) : Prop := {
  next_version : snap_version s' = snap_version s;
  next_identity : snap_identity s' = snap_identity s;
  next_state : snap_state s' = state;
  next_revision : revision_get (snap_revision s') = (revision_get (snap_revision s) + 1)%Z;
  next_message : last_service_message s' = message
}.

(** What can go wrong with a change that is allowed. *)
Inductive failure (s : AgentSessionSnapshot) : SessionError -> Prop :=
| fail_overflow : checked_next (snap_revision s) = None -> failure s RevisionOverflow
| fail_clock : failure s ClockFailed
| fail_service e : failure s (Service e).

(** A command, its answer, and the snapshots before and after it. *)
Inductive answered : SessionCommand -> result SessionError SessionReply -> AgentSessionSnapshot -> AgentSessionSnapshot -> Prop :=
| answer_transition s next s' :
    snap_state s <> next -> allows (snap_state s) next = true -> next_snapshot s next (last_service_message s) s' ->
    answered (Transition next) (Ok (Transitioned s')) s s'
| answer_stay s : answered (Transition (snap_state s)) (Ok (Transitioned s)) s s
| answer_illegal s next :
    allows (snap_state s) next = false -> answered (Transition next) (Err (IllegalTransition (snap_state s) next)) s s
| answer_service s request message s' :
    let state := default (snap_state s) (message_target message) in
    allows (snap_state s) state = true -> next_snapshot s state (Some message) s' ->
    answered (Invoke request) (Ok (ServiceApplied message s')) s s'
| answer_refused s request message target :
    message_target message = Some target -> allows (snap_state s) target = false ->
    answered (Invoke request) (Err (IllegalTransition (snap_state s) target)) s s
| answer_snapshot s : answered SnapshotCommand (Ok (SnapshotReply s)) s s
| answer_shutdown s : answered Shutdown (Ok (ShutdownReply s)) s s
| answer_failure s command e : failure s e -> answered command (Err e) s s.

(** Answered commands one after the other, with the number of those that changed
    the snapshot. *)
Inductive session_path : list (SessionCommand * result SessionError SessionReply) -> nat ->
    AgentSessionSnapshot -> AgentSessionSnapshot -> Prop :=
| path_done s : session_path [] 0 s s
| path_step command r s s1 path n s' :
    answered command r s s1 -> session_path path n s1 s' ->
    session_path ((command, r) :: path) ((if decide (s1 = s) then 0 else 1) + n) s s'.

Lemma allows_refl s : allows s s = true.
Proof. unfold allows. by rewrite bool_decide_true. Qed.

Lemma answered_step command r s s' : answered command r s s' -> s' = s \/ snapshot_step s s'.
Proof. destruct 1 as [? ? ? ? ? []| | |? ? ? ? ? ? []| | | |]; try (by left); right; split; congruence. Qed.

Lemma snapshot_step_changes s s' : snapshot_step s s' -> s' <> s.
Proof. intros [_ _ _ Hr] ->. lia. Qed.

Lemma session_path_steps path n s s' :
  session_path path n s s' ->
  revision_get (snap_revision s') = (revision_get (snap_revision s) + Z.of_nat n)%Z
  /\ snap_version s' = snap_version s /\ snap_identity s' = snap_identity s
  /\ (snap_state s = Archived -> snap_state s' = Archived).
Proof.
  induction 1 as [s|command r s s1 path n s' [->|Hs]%answered_step _ (Hr & Hv & Hi & Ha)].
  - split_and!; try done. lia.
  - by rewrite decide_True.
  - pose proof (snapshot_step_changes _ _ Hs). destruct Hs as [Hv1 Hi1 Hal1 Hr1]. rewrite decide_False by done.
    split; [lia|]. split; [congruence|]. split; [congruence|]. intros Harch. apply Ha. rewrite Harch in Hal1.
    by destruct (snap_state s1).
Qed.

(** What the world of a session promises the actor: it holds one snapshot per
    session; a store replaces it as a whole or not at all; nothing else that the
    actor calls touches it. *)
Class DurableWorld {W : Type} `{Clock W} (services : SessionServices W) : Type := {
  holds : SessionId -> AgentSessionSnapshot -> W -> Prop;
  store_holds : forall id d s, session_id (snap_identity s) = id ->
    triple (holds id d) (store_snapshot services s) (fun _ => holds id s) (fun w => holds id d w \/ holds id s w);
  clock_holds : forall id d w, holds id d w -> holds id d (system_time_now w).2;
  request_holds : forall id d s request,
    triple (holds id d) (service_call services s request) (fun _ => holds id d) (holds id d)
}.

Section actor.
Context {W : Type} `{HClock : Clock W} (services : SessionServices W) `{HD : !DurableWorld services}.

(** The durable snapshot is the one in memory, or the next one when the
    acknowledgement of a store was lost. *)
Definition durable_actor (id : SessionId) (m : AgentSessionSnapshot) (a : Actor W) : Prop :=
  actor_snapshot a = m /\ session_id (snap_identity m) = id
  /\ exists d, holds id d (actor_world a) /\ (d = m \/ snapshot_step m d).

Lemma triple_in_world {E A} (wrap : E -> SessionError) (x : stateT W E A) m P Q F :
  triple P x Q F ->
  triple (fun a => actor_snapshot a = m /\ P (actor_world a)) (in_world wrap x)
    (fun r a => actor_snapshot a = m /\ Q r (actor_world a)) (fun a => actor_snapshot a = m /\ F (actor_world a)).
Proof.
  intros Hx a r a' [Hm HP] Hr. unfold in_world in Hr. destruct (x (actor_world a)) as [r0 w] eqn:Ex.
  injection Hr as <- <-. specialize (Hx _ _ _ HP Ex). destruct r0; simpl; auto.
Qed.

(** A call of the world that keeps whatever snapshot is held. *)
Lemma triple_keeping {E A} (wrap : E -> SessionError) (x : stateT W E A) id m :
  (forall d, triple (holds id d) x (fun _ => holds id d) (holds id d)) ->
  triple (durable_actor id m) (in_world wrap x) (fun _ => durable_actor id m) (durable_actor id m).
Proof.
  intros Hx a r a' (Hm & Hid & d & Hd & Hor) Hr.
  pose proof (triple_in_world wrap x m _ _ _ (Hx d) a r a' (conj Hm Hd) Hr) as Hpost.
  destruct r; destruct Hpost as [? ?]; (split; [done|]; split; [done|]; by exists d).
Qed.

Lemma triple_advance id m s :
  triple (durable_actor id m) (advance s)
    (fun c a => durable_actor id m a /\ snap_version c = snap_version s /\ snap_identity c = snap_identity s
       /\ snap_state c = snap_state s /\ revision_get (snap_revision c) = (revision_get (snap_revision s) + 1)%Z)
    (durable_actor id m).
Proof.
  unfold advance. apply triple_lift_bind; [|done]. intros rev Hrev. apply ok_or_Ok in Hrev.
  eapply triple_bind; [apply triple_keeping|].
  - intros d w r w' Hd Hr. unfold utc_now in Hr. pose proof (clock_holds id d w Hd) as Hc.
    destruct (system_time_now w). injection Hr as <- <-. by destruct (from_system_time _).
  - intros now. apply triple_ret. intros a Ha. split; [done|]. do 3 (split; [done|]). simpl.
    unfold checked_next in Hrev. destruct (u64_checked_add _ _) as [v|] eqn:Ev; [|done].
    apply u64_checked_add_Some in Ev as [-> _]. by injection Hrev as <-.
Qed.

Lemma triple_commit id m c :
  session_id (snap_identity m) = id -> snapshot_step m c ->
  triple (durable_actor id m) (in_world Service (store_snapshot services c) ;; set_snapshot c)
    (fun _ => durable_actor id c) (durable_actor id m).
Proof.
  intros Hid Hstep. assert (session_id (snap_identity c) = id) as Hcid by (rewrite (step_identity _ _ Hstep); done).
  apply (triple_bind _ _ (fun _ a => holds id c (actor_world a))).
  - intros a r a' (Hm & _ & d & Hd & Hor) Hr.
    pose proof (triple_in_world Service _ m _ _ _ (store_holds id d c Hcid) a r a' (conj Hm Hd) Hr) as Hpost.
    destruct r; destruct Hpost as [Hm' Hw]; [done|]. split; [done|]. split; [done|].
    destruct Hw as [Hw|Hw]; [by exists d|exists c; auto].
  - intros []. apply triple_modify. intros a Ha. split; [done|]. split; [done|]. exists c. auto.
Qed.

Definition moved (id : SessionId) (m : AgentSessionSnapshot) (a : Actor W) : Prop :=
  exists m', durable_actor id m' a /\ (m' = m \/ snapshot_step m m').

(** Advancing a changed copy of the snapshot, storing it and making it current. *)
Lemma triple_next id m s :
  session_id (snap_identity m) = id -> snap_version s = snap_version m -> snap_identity s = snap_identity m ->
  snap_revision s = snap_revision m -> allows (snap_state m) (snap_state s) = true ->
  triple (durable_actor id m)
    (c ← advance s; in_world Service (store_snapshot services c) ;; set_snapshot c)
    (fun _ => moved id m) (durable_actor id m).
Proof.
  intros Hid Hv Hi Hr Hal. eapply triple_bind; [apply triple_advance|]. intros c. simpl. apply triple_pre.
  intros a1 (Ha1 & Hcv & Hci & Hcs & Hcr). assert (snapshot_step m c) as Hstep by (split; congruence).
  eapply triple_weaken; [by apply (triple_commit id m c)|by intros ? <-| |done].
  intros u a Ha. exists c. auto.
Qed.

Lemma triple_transition id m next :
  triple (durable_actor id m) (transition services next) (fun _ => moved id m) (durable_actor id m).
Proof.
  unfold transition. apply triple_gets_bind. intros a0 Ha0. pose proof Ha0 as (Hm & Hid & _). rewrite Hm.
  apply triple_lift_bind; [|by intros ? <-]. intros [] Hok. unfold ensure_transition in Hok.
  destruct (allows _ _) eqn:Eal; [|done]. case_bool_decide as Heq.
  { apply triple_ret. intros a <-. exists m. auto. }
  eapply triple_weaken; [by apply (triple_next id m)|by intros ? <-|done..].
Qed.

Lemma triple_apply_service_message id m message :
  triple (durable_actor id m) (apply_service_message services message) (fun _ => moved id m) (durable_actor id m).
Proof.
  unfold apply_service_message. apply triple_gets_bind. intros a0 Ha0. pose proof Ha0 as (Hm & Hid & _). rewrite Hm.
  apply triple_lift_bind; [|by intros ? <-]. intros state Hok.
  assert (allows (snap_state m) state = true) as Hal.
  { destruct (message_target message) as [target|].
    - unfold ensure_transition in Hok. destruct (allows _ _) eqn:E; [|done]. simpl in Hok. by injection Hok as <-.
    - injection Hok as <-. unfold allows. by rewrite bool_decide_true. }
  eapply triple_weaken; [by apply (triple_next id m)|by intros ? <-|done..].
Qed.

(** A command succeeds with at most one step, or fails and changes nothing in
    memory; its answer shows the snapshot in memory. *)
Lemma triple_apply_command id m command :
  triple (durable_actor id m) (apply_command services command)
    (fun reply a => moved id m a /\ reply_snapshot reply = actor_snapshot a) (durable_actor id m).
Proof.
  assert (forall s a, durable_actor id m a -> durable_actor id m s -> moved id m a) as Hsame.
  { intros s a Ha _. exists m. auto. }
  destruct command as [next|request| |]; simpl.
  - eapply triple_bind; [apply triple_transition|]. intros u. apply triple_gets_bind. intros a Ha.
    apply triple_ret. by intros ? <-.
  - eapply (triple_bind _ _ (fun _ => durable_actor id m)).
    + unfold invoke_service. apply triple_gets_bind. intros a Ha.
      eapply triple_weaken; [apply (triple_keeping Service _ id m); intros d; apply request_holds|by intros ? <-|done..].
    + intros message. eapply triple_bind; [apply triple_apply_service_message|]. intros u.
      apply triple_gets_bind. intros a Ha. apply triple_ret. by intros ? <-.
  - apply triple_gets_bind. intros a Ha. apply triple_ret. intros ? <-. split; [by eapply Hsame|done].
  - apply triple_gets_bind. intros a Ha. pose proof Ha as (Hm & Hid & _). rewrite Hm.
    apply (triple_weaken (durable_actor id m) _ _
      (fun reply a => moved id m a /\ reply_snapshot reply = actor_snapshot a) _ (durable_actor id m)); [|by intros ? <-|done..].
    eapply (triple_bind _ _ (fun _ => durable_actor id m)); [|intros []; apply triple_ret; intros b Hb; split; [by eapply Hsame|]].
    + intros b r b' (Hmb & _ & d & Hd & Hor) Hr.
      pose proof (triple_in_world Service _ m _ _ _ (store_holds id d m Hid) b r b' (conj Hmb Hd) Hr) as Hpost.
      destruct r; destruct Hpost as [Hm' Hw]; (split; [done|]; split; [done|]); [by exists m; auto|].
      destruct Hw as [Hw|Hw]; [by exists d|by exists m; auto].
    + by destruct Hb as [-> _].
Qed.

Lemma run_actor_steps commands id m a answers running a' :
  durable_actor id m a -> run_actor services commands a = (answers, running, a') ->
  exists n m', n <= length commands /\ nsteps snapshot_step n m m' /\ durable_actor id m' a'.
Proof.
  revert m a answers running. induction commands as [|command commands IH]; intros m a answers running Ha Hr; simpl in Hr.
  { injection Hr as <- <- <-. exists 0, m. split; [lia|]. split; [constructor|done]. }
  destruct (apply_command services command a) as [r a1] eqn:Ec.
  assert (exists n m1, n <= 1 /\ nsteps snapshot_step n m m1 /\ durable_actor id m1 a1) as (n1 & m1 & Hn1 & Hs1 & Ha1).
  { pose proof (triple_apply_command id m command a r a1 Ha Ec) as Hpost. destruct r as [reply|e].
    - destruct Hpost as [(m1 & Hm1 & [->|Hstep]) _]; [exists 0, m|exists 1, m1]; (split; [lia|]; split; [|done]).
      + constructor.
      + by apply nsteps_once.
    - exists 0, m. split; [lia|]. split; [constructor|done]. }
  case_bool_decide.
  - injection Hr as <- <- <-. exists n1, m1. simpl. split; [lia|done].
  - destruct (run_actor services commands a1) as [[rs running'] a2] eqn:Er. injection Hr as <- <- <-.
    destruct (IH m1 a1 rs running' Ha1 Er) as (n2 & m2 & Hn2 & Hs2 & Ha2). exists (n1 + n2), m2. simpl.
    split; [lia|]. split; [by eapply nsteps_trans|done].
Qed.
End actor.

(** ** Consequences of the steps *)

Lemma nsteps_snapshot n m m' :
  nsteps snapshot_step n m m' ->
  snap_version m' = snap_version m /\ snap_identity m' = snap_identity m
  /\ revision_get (snap_revision m') = (revision_get (snap_revision m) + Z.of_nat n)%Z
  /\ leads_to (snap_state m) (snap_state m').
Proof.
  induction 1 as [m|n m1 m2 m3 [Hv Hi Hal Hr] _ (IHv & IHi & IHr & IHl)].
  - do 2 (split; [done|]). split; [lia|apply rtc_refl].
  - split; [congruence|]. split; [congruence|]. split; [lia|]. by eapply rtc_l.
Qed.

Lemma archived_terminal s : leads_to Archived s -> s = Archived.
Proof.
  intros Hl. remember Archived as s0 eqn:Hs0. revert Hs0.
  induction Hl as [|s1 s2 s3 Hal _ IH]; [done|]. intros ->. destruct s2; try done. by apply IH.
Qed.

(** ** The JSON writer is a durable world *)

(** The law of the derived codec. *)
Definition snapshot_codec_lawful `{SnapshotCodec} : Prop :=
  forall s v, snapshot_to_value s = Ok v ->
    distinct_keys v /\ readable v = true /\ snapshot_from_value (sort_json_value v) = Ok s.

Section writer.
Context `{HJ : SerdeJson, HC : SnapshotCodec} (HCL : snapshot_codec_lawful).
Context (process_id : rstr) (new_id : nat -> EntityId) (clock : nat -> Z) (self : LocalSessionServices).

Abbreviation writer := (loc_writer self).
#[local] Instance the_clock : Clock LocalWorld := local_clock clock.

Lemma snapshot_bytes_decode s bytes : snapshot_bytes s = Ok bytes -> decode_snapshot bytes = Ok s.
Proof.
  unfold snapshot_bytes, decode_snapshot. intros Hb. destruct (snapshot_to_value s) as [v|] eqn:Ev; [|done].
  destruct (HCL _ _ Ev) as (Hd & Hread & Hback). cbn [mbind result_bind] in Hb.
  rewrite (from_to_canonical (sort_json_value v) bytes); [done| | |done].
  - by apply sort_json_idemp.
  - by rewrite sort_json_readable.
Qed.

(** The file of the session holds the bytes of [d]. *)
Definition file_holds (id : SessionId) (d : AgentSessionSnapshot) (es : gmap Path Entry) : Prop :=
  exists bytes, es !! writer_path writer id = Some (EFile bytes) /\ decode_snapshot bytes = Ok d.

Lemma temporary_apart id : temporary_path process_id writer id <> writer_path writer id.
Proof.
  unfold temporary_path, writer_path, path_join. intros [= Heq]%(inj (app (directory writer))).
  destruct (with_extension_suffix (snapshot_name id) (process_id ++ str ".tmp")) as [p Hp]. rewrite Hp in Heq.
  apply (f_equal last) in Heq. unfold snapshot_name in Heq. by rewrite !last_app in Heq.
Qed.

Lemma directory_apart id : directory writer <> writer_path writer id.
Proof. unfold writer_path, path_join. intros Heq%(f_equal length). rewrite length_app in Heq. simpl in Heq. lia. Qed.

(** A call of the file system by the writer. *)
Lemma triple_persisting {A : Type} (act : gmap Path Entry -> result IoError A * gmap Path Entry)
    (failed : option (list Z) -> gmap Path Entry -> gmap Path Entry)
    (P : gmap Path Entry -> Prop) (Q : A -> gmap Path Entry -> Prop) (F : gmap Path Entry -> Prop) :
  (forall es, P es -> match act es with (Ok a, es') => Q a es' | (Err _, es') => F es' end) ->
  (forall leaves es, P es -> F (failed leaves es)) ->
  triple (fun w => P (entries (lw_fs w))) (persisting (on_files (io act failed)))
    (fun a w => Q a (entries (lw_fs w))) (fun w => F (entries (lw_fs w))).
Proof.
  intros Hact Hfail w r w' HP Hr. unfold persisting, on_files in Hr.
  destruct (io act failed (lw_fs w)) as [r0 fs] eqn:Em. injection Hr as <- <-.
  pose proof (io_spec_io P act failed Q F Hact Hfail _ _ _ HP Em). by destruct r0.
Qed.

Definition holding (id : SessionId) (d : AgentSessionSnapshot) (w : LocalWorld) : Prop :=
  file_holds id d (entries (lw_fs w)).

Lemma file_holds_insert id d es p e :
  p <> writer_path writer id -> file_holds id d es -> file_holds id d (<[p := e]> es).
Proof. intros Hne (b & Hb & Hd). exists b. by rewrite lookup_insert_ne. Qed.

Lemma file_holds_delete id d es p :
  p <> writer_path writer id -> file_holds id d es -> file_holds id d (delete p es).
Proof. intros Hne (b & Hb & Hd). exists b. by rewrite lookup_delete_ne. Qed.

(** Storing leaves the file of the session complete at every point: it holds the
    old snapshot, or the new one. *)
Lemma writer_store_holds id d s :
  session_id (snap_identity s) = id ->
  triple (holding id d) (writer_store process_id writer s) (fun _ => holding id s)
    (fun w => holding id d w \/ holding id s w).
Proof.
  intros Hid. unfold writer_store. rewrite Hid. pose proof (temporary_apart id) as Htmp.
  set (tmp := temporary_path process_id writer id) in *.
  set (F := fun es => file_holds id d es \/ file_holds id s es).
  eapply (triple_bind _ _ (fun _ => holding id d)).
  { apply (triple_persisting _ _ (file_holds id d) (fun _ => file_holds id d) F); [|by left].
    intros es Hes. destruct (es !! directory writer) as [[]|]; try (by left); [done|].
    apply file_holds_insert; [apply directory_apart|done]. }
  intros _. apply triple_lift_bind; [|by left]. intros bytes Hbytes.
  assert (snapshot_bytes s = Ok bytes) as Hb by (destruct (snapshot_bytes s); simpl in Hbytes; congruence).
  apply snapshot_bytes_decode in Hb.
  set (P := fun es => file_holds id d es /\ es !! tmp = Some (EFile bytes)).
  eapply (triple_bind _ _ (fun _ w => P (entries (lw_fs w)))).
  { apply (triple_persisting _ _ (file_holds id d) (fun _ => P) F).
    - intros es Hes. destruct (es !! tmp) as [[]|]; try (by left);
        (split; [by apply file_holds_insert|apply lookup_insert_eq]).
    - intros [b|] es Hes; left; [by apply file_holds_insert|done]. }
  intros _. eapply (triple_bind _ _ (fun _ w => P (entries (lw_fs w)))).
  { apply (triple_persisting _ _ P (fun _ => P) F).
    - intros es [Hes Ht]. by rewrite Ht.
    - intros leaves es [Hes _]. by left. }
  intros _. eapply (triple_bind _ _ (fun _ => holding id s)).
  { apply (triple_persisting _ _ P (fun _ => file_holds id s) F).
    - intros es [(old & Hold & _) Ht]. rewrite Ht, Hold. exists bytes. by rewrite lookup_insert_eq.
    - intros [b|] es [Hes _]; left; [done|by apply file_holds_delete]. }
  intros _. apply (triple_persisting _ _ (file_holds id s) (fun _ => file_holds id s) F).
  - intros es Hes. destruct (es !! directory writer); [done|by right].
  - intros leaves es Hes. by right.
Qed.

Lemma writer_load_holds id d w r w' :
  holding id d w -> writer_load writer id w = (r, w') ->
  holding id d w' /\ (r = Ok (Some d) \/ r = Err (Persistence (inl IoOther)) /\ script (lw_fs w) <> []).
Proof.
  intros (bytes & Hf & Hd) Hr. unfold writer_load, on_files, fs_read, io in Hr.
  destruct (script (lw_fs w)) as [|[|leaves] rest] eqn:Es; simpl in Hr; try rewrite Hf in Hr; try rewrite Hd in Hr;
    injection Hr as <- <-; (split; [by exists bytes|]); auto.
Qed.
End writer.

(** ** The local services are a durable world *)

Section local.
Context `{HJ : SerdeJson, HC : SnapshotCodec} (HCL : snapshot_codec_lawful).
Context (process_id : rstr) (new_id : nat -> EntityId) (clock : nat -> Z) (self : LocalSessionServices).

Abbreviation services := (into_services process_id new_id self).
#[local] Instance this_clock : Clock LocalWorld := local_clock clock.

Lemma service_call_files s request w r w' :
  service_call services s request w = (r, w') -> lw_fs w' = lw_fs w.
Proof.
  destruct request; simpl; unfold local_enqueue, local_validate_child, lift, throw; intros Hr;
    try (by injection Hr as _ <-); destruct (str_is_empty _); simpl in Hr; by injection Hr as _ <-.
Qed.

Program Definition local_durable : DurableWorld services := {| holds := holding self |}.
Next Obligation. intros id d s Hid. by apply (writer_store_holds HCL). Qed.
Next Obligation. done. Qed.
Next Obligation.
  intros id d s request w r w' Hw Hr. apply service_call_files in Hr.
  assert (holding self id d w') by (unfold holding; by rewrite Hr). by destruct r.
Qed.
End local.

(** ** What is guaranteed *)

Section claims.
Context {W : Type} `{HClock : Clock W} (services : SessionServices W).

(** With nothing asked of the world. *)
Program Definition any_world : DurableWorld services := {| holds := fun _ _ _ => True |}.
Next Obligation. intros id d s _ w r w' _ _. destruct r; auto. Qed.
Next Obligation. done. Qed.
Next Obligation. intros id d s request w r w' _ _. by destruct r. Qed.

Lemma any_durable a :
  durable_actor services (HD := any_world) (session_id (snap_identity (actor_snapshot a))) (actor_snapshot a) a.
Proof. split; [done|]. split; [done|]. exists (actor_snapshot a). by split; [|left]. Qed.

Lemma advance_Ok s a c a' :
  advance s a = (Ok c, a') ->
  next_snapshot s (snap_state s) (last_service_message s) c /\ actor_snapshot a' = actor_snapshot a.
Proof.
  unfold advance. rewrite stateT_bind_unfold. destruct (checked_next (snap_revision s)) as [rev|] eqn:En; [|done].
  apply checked_next_Some in En as [Hn _]. cbn [ok_or lift]. rewrite stateT_bind_unfold. unfold in_world.
  destruct (utc_now (actor_world a)) as [[now|e] w]; [|done]. intros [= <- <-]. by repeat split.
Qed.

Lemma advance_Err s a e a' :
  advance s a = (Err e, a') -> failure s e /\ actor_snapshot a' = actor_snapshot a.
Proof.
  unfold advance. rewrite stateT_bind_unfold. destruct (checked_next (snap_revision s)) as [rev|] eqn:En; cbn [ok_or lift];
    [|intros [= <- <-]; split; [by constructor|done]].
  rewrite stateT_bind_unfold. unfold in_world. destruct (utc_now (actor_world a)) as [[now|x] w]; [done|].
  intros [= <- <-]. split; [constructor|done].
Qed.

(** Advancing, storing and taking over. *)
Lemma commit_answers s a r a' :
  (c ← advance s; in_world Service (store_snapshot services c) ;; set_snapshot c) a = (r, a') ->
  match r with
  | Ok _ => next_snapshot s (snap_state s) (last_service_message s) (actor_snapshot a')
  | Err e => failure s e /\ actor_snapshot a' = actor_snapshot a
  end.
Proof.
  rewrite stateT_bind_unfold. destruct (advance s a) as [[c|e] a1] eqn:Ea; [|intros [= <- <-]; by apply advance_Err].
  apply advance_Ok in Ea as [Hc Ha]. rewrite stateT_bind_unfold. unfold in_world at 1.
  destruct (store_snapshot services c (actor_world a1)) as [[u|x] w]; simpl; intros [= <- <-]; [done|].
  split; [constructor|done].
Qed.

Lemma transition_answers next a r a' :
  transition services next a = (r, a') ->
  match r with
  | Ok _ => answered (Transition next) (Ok (Transitioned (actor_snapshot a'))) (actor_snapshot a) (actor_snapshot a')
  | Err e => answered (Transition next) (Err e) (actor_snapshot a) (actor_snapshot a')
  end.
Proof.
  unfold transition. rewrite stateT_bind_unfold. cbn [gets]. rewrite stateT_bind_unfold. unfold ensure_transition.
  destruct (allows _ next) eqn:Eal; cbn [lift]; [|intros [= <- <-]; by apply answer_illegal].
  case_bool_decide as Heq; [intros [= <- <-]; rewrite <- Heq; apply answer_stay|].
  intros Hr%commit_answers. destruct r as [u|e].
  - destruct Hr as [Hv Hi Hs Hn Hm]. by apply answer_transition.
  - destruct Hr as [Hf ->]. apply answer_failure. by destruct Hf; constructor.
Qed.

Lemma apply_service_message_answers request message a r a' :
  apply_service_message services message a = (r, a') ->
  match r with
  | Ok _ => answered (Invoke request) (Ok (ServiceApplied message (actor_snapshot a'))) (actor_snapshot a) (actor_snapshot a')
  | Err e => answered (Invoke request) (Err e) (actor_snapshot a) (actor_snapshot a')
  end.
Proof.
  unfold apply_service_message. rewrite stateT_bind_unfold. cbn [gets]. rewrite stateT_bind_unfold.
  destruct (message_target message) as [target|] eqn:Et; unfold ensure_transition.
  - destruct (allows _ target) eqn:Eal; cbn [mbind result_bind lift]; [|intros [= <- <-]; by eapply answer_refused].
    intros Hr%commit_answers. destruct r as [u|e].
    + destruct Hr as [Hv Hi Hs Hn Hm]. apply answer_service; rewrite Et; [done|by split].
    + destruct Hr as [Hf ->]. apply answer_failure. by destruct Hf; constructor.
  - cbn [lift]. intros Hr%commit_answers. destruct r as [u|e].
    + destruct Hr as [Hv Hi Hs Hn Hm]. apply answer_service; rewrite Et; [apply allows_refl|by split].
    + destruct Hr as [Hf ->]. apply answer_failure. by destruct Hf; constructor.
Qed.

Lemma apply_command_answers command a r a' :
  apply_command services command a = (r, a') -> answered command r (actor_snapshot a) (actor_snapshot a').
Proof.
  destruct command as [next|request| |]; cbn [apply_command]; rewrite stateT_bind_unfold.
  - destruct (transition services next a) as [[u|e] a1] eqn:Et; apply transition_answers in Et; [|by intros [= <- <-]].
    rewrite stateT_bind_unfold. by intros [= <- <-].
  - unfold invoke_service. rewrite stateT_bind_unfold. cbn [gets]. unfold in_world.
    destruct (service_call services _ request (actor_world a)) as [[message|e] w]; cbn [map_err];
      [|intros [= <- <-]; apply answer_failure; constructor].
    rewrite stateT_bind_unfold. destruct (apply_service_message services message _) as [[u|e] a1] eqn:Em;
      apply (apply_service_message_answers request) in Em; [|by intros [= <- <-]].
    rewrite stateT_bind_unfold. by intros [= <- <-].
  - intros [= <- <-]. constructor.
  - cbn [gets]. rewrite stateT_bind_unfold. unfold in_world.
    destruct (store_snapshot services _ (actor_world a)) as [[u|e] w]; intros [= <- <-]; [apply answer_shutdown|apply answer_failure; constructor].
Qed.

(** The commands an actor handles: all of them, or those up to its shutdown. *)
Definition handles (commands handled : list SessionCommand) (running : bool) : Prop :=
  if running then handled = commands /\ Shutdown ∉ commands
  else exists before after, handled = before ++ [Shutdown] /\ Shutdown ∉ before /\ commands = handled ++ after.

Lemma run_actor_path commands a answers running a' :
  run_actor services commands a = (answers, running, a') ->
  exists handled n, handles commands handled running /\ length answers = length handled
    /\ session_path (zip handled answers) n (actor_snapshot a) (actor_snapshot a').
Proof.
  revert a answers running. induction commands as [|command commands IH]; intros a answers running; cbn [run_actor].
  { intros [= <- <- <-]. exists [], 0. split; [by split; [|set_solver]|]. split; [done|constructor]. }
  destruct (apply_command services command a) as [r a1] eqn:Ec. apply apply_command_answers in Ec. case_bool_decide as Hs.
  - intros [= <- <- <-]. subst command. exists [Shutdown]. eexists. split; [exists [], commands; by split_and!; [|set_solver|]|].
    split; [done|]. eapply path_step; [exact Ec|constructor].
  - destruct (run_actor services commands a1) as [[rs running'] a2] eqn:Er. intros [= <- <- <-].
    destruct (IH a1 rs running' Er) as (handled & n & Hh & Hlen & Hp). exists (command :: handled). eexists.
    split; [|split; [simpl; by rewrite Hlen|by eapply path_step]]. destruct running'; simpl in *.
    + destruct Hh as [-> Hnot]. split; [done|]. rewrite elem_of_cons. naive_solver.
    + destruct Hh as (before & after & -> & Hnot & ->). exists (command :: before), after.
      split; [done|]. split; [|done]. rewrite elem_of_cons. naive_solver.
Qed.

(** C6: a session does what it is told, one revision per change: whatever services
    it runs on, the commands it handles (all, or those up to its shutdown) are
    answered one by one; a transition that the life cycle allows moves it to that
    state and a service message to the state that goes with it, both with the
    next revision, while a failed or refused command and a transition to where
    it already is change nothing; the answer shows the snapshot after the
    command.  So its revision grows by exactly the number of commands that
    changed it, its identity and schema version never change, and an archived
    session stays archived. *)
Theorem session_follows_lifecycle commands a answers running a' :
  run_actor services commands a = (answers, running, a') ->
  let m := actor_snapshot a in
  let m' := actor_snapshot a' in
  exists handled n, handles commands handled running /\ length answers = length handled
    /\ session_path (zip handled answers) n m m'
    /\ revision_get (snap_revision m') = (revision_get (snap_revision m) + Z.of_nat n)%Z
    /\ snap_version m' = snap_version m /\ snap_identity m' = snap_identity m
    /\ (snap_state m = Archived -> snap_state m' = Archived).
Proof.
  intros (handled & n & Hh & Hlen & Hp)%run_actor_path m m'. exists handled, n. do 3 (split; [done|]). by apply session_path_steps in Hp.
Qed.

(** A command takes effect as a whole or not at all: a failed one leaves the
    snapshot in memory as it was; a successful one leaves it alone or takes one
    step of the life cycle, and its answer carries the snapshot then in memory. *)
Theorem command_all_or_nothing command a r a' :
  apply_command services command a = (r, a') ->
  match r with
  | Ok reply =>
      reply_snapshot reply = actor_snapshot a'
      /\ (actor_snapshot a' = actor_snapshot a \/ snapshot_step (actor_snapshot a) (actor_snapshot a'))
  | Err _ => actor_snapshot a' = actor_snapshot a
  end.
Proof.
  intros Hr. pose proof (triple_apply_command services (HD := any_world) _ _ command _ _ _ (any_durable a) Hr) as Hpost.
  destruct r; [|by destruct Hpost]. destruct Hpost as [(m' & [-> _] & Hor) ->]. auto.
Qed.
End claims.

(** The life cycle is live and closed: every state leads to [Archived],
    every state but [Archived] leads to [Ready], every state can be reached from
    [Dormant], and [Archived] leads nowhere else. *)
Theorem lifecycle_shape s :
  leads_to s Archived /\ leads_to Dormant s /\ (s <> Archived -> leads_to s Ready)
  /\ (leads_to Archived s -> s = Archived).
Proof.
  assert (forall s t, allows s t = true -> leads_to s t) as Honce by (intros; by apply rtc_once).
  assert (forall s t, allows s Ready = true -> allows Ready t = true -> leads_to s t) as Hready.
  { intros s0 t H1 H2. eapply rtc_l; [exact H1|]. by apply rtc_once. }
  assert (forall t, allows Running t = true -> leads_to Dormant t) as Hrun.
  { intros t Ht. eapply rtc_l; [|eapply rtc_l; [|by apply rtc_once]]; [apply (eq_refl : allows Dormant Ready = true)|].
    apply (eq_refl : allows Ready Running = true). }
  split; [|split; [|split; [|apply archived_terminal]]].
  - destruct s; try (by apply Honce); by apply Hready.
  - destruct s; first [by apply Honce|by apply Hready|by apply Hrun].
  - intros Hne. destruct s; try done; by apply Honce.
Qed.

Section durable_claims.
Context `{HJ : SerdeJson, HC : SnapshotCodec}.
Context (process_id : rstr) (new_id : nat -> EntityId) (clock : nat -> Z) (self : LocalSessionServices).

Abbreviation services := (into_services process_id new_id self).
#[local] Instance that_clock : Clock LocalWorld := local_clock clock.

(** A snapshot is replaced atomically: whichever calls of the file system
    fail, and whatever a failed write leaves behind, the file of the session
    holds the complete old snapshot or the complete new one, and the new one
    when the store succeeded. *)
Theorem store_is_atomic d s w r w' :
  snapshot_codec_lawful -> holding self (session_id (snap_identity s)) d w ->
  writer_store process_id (loc_writer self) s w = (r, w') ->
  match r with
  | Ok _ => holding self (session_id (snap_identity s)) s w'
  | Err _ => holding self (session_id (snap_identity s)) d w' \/ holding self (session_id (snap_identity s)) s w'
  end.
Proof. intros HCL Hd Hr. by apply (writer_store_holds HCL process_id self _ d s eq_refl w r w'). Qed.

(** C5: Recovery never loses an acknowledged revision.  A session that was
    started on the JSON writer and has run any commands, with any failures of
    the file system, can be recovered: reading back either fails with an I/O
    error or finds the snapshot the actor had in memory, or the one it was about
    to take over when the acknowledgement of its store was lost; with a working
    file system recovery succeeds. *)
Theorem recovery_keeps_acknowledged commands m w answers running a' cap r w' :
  snapshot_codec_lawful -> holding self (session_id (snap_identity m)) m w ->
  snap_version m = CURRENT_SCHEMA_VERSION -> cap <> 0%Z ->
  run_actor services commands (MkActor m w) = (answers, running, a') ->
  recover services (snap_identity m) cap (actor_world a') = (r, w') ->
  match r with
  | Ok b => actor_snapshot b = actor_snapshot a' \/ snapshot_step (actor_snapshot a') (actor_snapshot b)
  | Err e => e = Service (Persistence (inl IoOther)) /\ script (lw_fs (actor_world a')) <> []
  end.
Proof.
  intros HCL Hw Hv Hcap Hrun Hrec. set (id := session_id (snap_identity m)) in *.
  destruct (run_actor_steps services (HD := local_durable HCL process_id new_id clock self) commands id m (MkActor m w)
    answers running a') as (n & m' & _ & Hs & Hm' & _ & d & Hd & Hor); [|done|].
  { split; [done|]. split; [done|]. exists m. by split; [|left]. }
  destruct (nsteps_snapshot _ _ _ Hs) as (Hv' & Hi' & _ & _).
  assert (snap_version d = CURRENT_SCHEMA_VERSION /\ snap_identity d = snap_identity m) as [Hdv Hdi].
  { destruct Hor as [->|[Hsv Hsi _ _]]; split; congruence. }
  unfold recover in Hrec. cbn [load_snapshot into_services] in Hrec.
  destruct (writer_load (loc_writer self) (session_id (snap_identity m)) (actor_world a')) as [r0 w0] eqn:El.
  destruct (writer_load_holds self id d _ _ _ Hd El) as [_ [->|[-> Hscript]]].
  - rewrite !bool_decide_true in Hrec by done. simpl in Hrec. unfold spawn_snapshot in Hrec.
    rewrite (proj2 (Z.eqb_neq _ _) Hcap) in Hrec. injection Hrec as <- <-. simpl. rewrite Hm'. done.
  - injection Hrec as <- <-. done.
Qed.
End durable_claims.

(** ** Input *)

Definition clean_edges (s : rstr) : Prop :=
  forall c, (head s = Some c \/ last s = Some c) -> char_is_whitespace c = false.

Lemma trim_start_head s c : head (trim_start s) = Some c -> char_is_whitespace c = false.
Proof.
  induction s as [|d s IH]; simpl; [done|]. destruct (char_is_whitespace d) eqn:E; [exact IH|].
  simpl. by intros [= <-].
Qed.

Lemma trim_start_suffix s : exists p, s = p ++ trim_start s.
Proof.
  induction s as [|d s [p IH]]; [by exists []|]. simpl. destruct (char_is_whitespace d).
  - exists (d :: p). simpl. by rewrite <- IH.
  - by exists [].
Qed.

Lemma trim_edges s : clean_edges (trim s).
Proof.
  unfold trim. set (t := trim_start s). intros c [Hh|Hl].
  - destruct (trim_start_suffix (reverse t)) as [p Hp].
    rewrite head_reverse in Hh. apply (trim_start_head s c). fold t.
    rewrite <- (reverse_involutive t), head_reverse, Hp, last_app, Hh. done.
  - rewrite last_reverse in Hl. by eapply trim_start_head.
Qed.

Lemma trim_elem c s : c ∈ trim s -> c ∈ s.
Proof.
  unfold trim. rewrite elem_of_reverse. intros Hc.
  destruct (trim_start_suffix (reverse (trim_start s))) as [p Hp].
  destruct (trim_start_suffix s) as [q Hq]. rewrite Hq. apply elem_of_app. right.
  rewrite <- elem_of_reverse, Hp. apply elem_of_app. by right.
Qed.

(** Induction along the pairs that are replaced. *)
Lemma replace_crlf_ind (P : rstr -> Prop) :
  P [] -> (forall c, P [c]) -> (forall s, P s -> P (13%Z :: 10%Z :: s)) ->
  (forall c d s, ((c =? 13) && (d =? 10))%Z%bool = false -> P (d :: s) -> P (c :: d :: s)) ->
  forall s, P s.
Proof.
  intros H0 H1 H2 H3 s. remember (length s) as n eqn:Hn. revert s Hn.
  induction n as [n IH] using lt_wf_ind. intros [|c [|d s]] Hn; [done|done|].
  destruct ((c =? 13) && (d =? 10))%Z%bool eqn:E.
  - apply andb_true_iff in E as [->%Z.eqb_eq ->%Z.eqb_eq]. apply H2. apply (IH (length s)); [simpl in *; lia|done].
  - apply H3; [done|]. apply (IH (length (d :: s))); [simpl in *; lia|done].
Qed.

Lemma replace_crlf_cons c d s :
  ((c =? 13) && (d =? 10))%Z%bool = false -> replace_crlf (c :: d :: s) = c :: replace_crlf (d :: s).
Proof. intros E. cbn [replace_crlf]. by rewrite E. Qed.

Lemma replace_crlf_elem c s : c ∈ replace_crlf s -> c ∈ s.
Proof.
  induction s as [|d|s IH|d e s E IH] using replace_crlf_ind; [done|done|set_solver|].
  rewrite replace_crlf_cons by done. set_solver.
Qed.

Lemma replace_crlf_last s c : last s = Some c -> c <> 10%Z -> last (replace_crlf s) = Some c.
Proof.
  induction s as [|d|s IH|d e s E IH] using replace_crlf_ind; [done|done| |].
  - intros Hl Hne. cbn [replace_crlf Z.eqb Pos.eqb andb]. destruct s as [|e s]; [simpl in Hl; congruence|].
    rewrite last_cons, (IH Hl Hne). done.
  - rewrite replace_crlf_cons by done. intros Hl Hne. rewrite last_cons, (IH Hl Hne). done.
Qed.

Lemma replace_crlf_edges s : s <> [] -> clean_edges s -> replace_crlf s <> [] /\ clean_edges (replace_crlf s).
Proof.
  intros Hne Hc. destruct s as [|d s]; [done|]. clear Hne.
  assert (d <> 13%Z) as Hd. { intros ->. by specialize (Hc 13%Z (or_introl eq_refl)). }
  assert (exists t, replace_crlf (d :: s) = d :: t) as [t Ht].
  { destruct s as [|e s]; [by exists []|]. rewrite replace_crlf_cons; [eauto|]. by apply Z.eqb_neq in Hd as ->. }
  split; [by rewrite Ht|]. intros c [Hh|Hl].
  - rewrite Ht in Hh. apply Hc. by left.
  - destruct (last (d :: s)) as [e|] eqn:El; [|by apply last_None in El].
    assert (e <> 10%Z) as He. { intros ->. by specialize (Hc 10%Z (or_intror El)). }
    rewrite (replace_crlf_last _ _ El He) in Hl. apply Hc. right. congruence.
Qed.

(** C40: accepted input is clean: it is not empty, fits the byte limit of the
    service, holds no NUL, and neither starts nor ends with whitespace; nothing
    is in it that was not in the text of the client. *)
Theorem accepted_input_clean self text message :
  local_accept_input self text = Ok message ->
  exists normalized, message = InputAccepted normalized /\ normalized <> []
    /\ (str_len normalized <= max_input_bytes self)%Z /\ (0%Z ∉ normalized) /\ clean_edges normalized
    /\ forall c, c ∈ normalized -> c ∈ text.
Proof.
  unfold local_accept_input, validate_client_text, normalize_input. intros Hr.
  destruct (str_contains 0 text) eqn:Enul; simpl in Hr; [done|].
  destruct (str_is_empty _ || _)%bool eqn:E; simpl in Hr; [done|]. injection Hr as <-.
  apply orb_false_iff in E as [Eempty Elen%Z.ltb_ge]. exists (replace_crlf (trim text)). split; [done|].
  assert (trim text <> []) as Hne by (intros Ht; by rewrite Ht in Eempty).
  destruct (replace_crlf_edges _ Hne (trim_edges text)) as [Hne' Hedges].
  assert (forall c, c ∈ replace_crlf (trim text) -> c ∈ text) as Hin.
  { intros c Hc. by apply trim_elem, replace_crlf_elem. }
  do 2 (split; [done|]). split; [|done]. intros H0%Hin. unfold str_contains in Enul.
  assert (existsb (Z.eqb 0) text = true); [|congruence]. apply existsb_exists. exists 0%Z. split; [|done].
  by apply list_elem_of_In.
Qed.
