(* ===== verification/SessionExample.v ===== *)
(** * A concrete session

    Closed instances of the theorems about sessions: a codec that lays
    snapshots out as JSON arrays, the local services on an in-memory file
    system with a script of failures, and runs of the actor and the mailbox. *)

From Stdlib Require Import ZArith Lia String.
From stdpp Require Import base decidable countable gmap sorting option list relations.
From S2P Require Import Prelude RustStd AgentTypes Json FileSystem Session SessionMailbox SessionProperties.

(** ** Codec *)

Definition enc_typed {name} (id : TypedId name) : Value := Str (as_str (as_entity_id id)).
Definition dec_typed {name} (v : Value) : TypedId name := MkTypedId (MkEntityId (dec_str v)).

Definition state_code (s : SessionRunState) : Z :=
  match list_find (fun t => t = s) SessionRunState_ALL with Some (n, _) => Z.of_nat n | None => 0 end.
Definition dec_state (z : Z) : SessionRunState := default Dormant (SessionRunState_ALL !! Z.to_nat z).

Definition enc_message (o : option ServiceMessage) : Value :=
  match o with
  | None => Null
  | Some (InputAccepted s) => Array [jnum 0; Str s]
  | Some (ActionQueued i) => Array [jnum 1; enc_typed i]
  | Some (TurnPrepared p m) => Array [jnum 2; Str p; Str m]
  | Some (ContextBuilt s) => Array [jnum 3; Str s]
  | Some (ToolAuthorized s) => Array [jnum 4; Str s]
  | Some (CompactionPrepared n) => Array [jnum 5; jnum n]
  | Some (GoalValidated s) => Array [jnum 6; Str s]
  | Some (ChildValidated i) => Array [jnum 7; enc_typed i]
  | Some (KernelPrepared s) => Array [jnum 8; Str s]
  | Some (ExtensionResolved k v) => Array [jnum 9; Str k; Str v]
  end.
Definition dec_message (v : Value) : option ServiceMessage :=
  match v with
  | Array [jnum 0; x] => Some (InputAccepted (dec_str x))
  | Array [jnum 1; x] => Some (ActionQueued (dec_typed x))
  | Array [jnum 2; x; y] => Some (TurnPrepared (dec_str x) (dec_str y))
  | Array [jnum 3; x] => Some (ContextBuilt (dec_str x))
  | Array [jnum 4; x] => Some (ToolAuthorized (dec_str x))
  | Array [jnum 5; x] => Some (CompactionPrepared (dec_num x))
  | Array [jnum 6; x] => Some (GoalValidated (dec_str x))
  | Array [jnum 7; x] => Some (ChildValidated (dec_typed x))
  | Array [jnum 8; x] => Some (KernelPrepared (dec_str x))
  | Array [jnum 9; x; y] => Some (ExtensionResolved (dec_str x) (dec_str y))
  | _ => None
  end.

Definition enc_kind (k : SessionKind) : Value := Bool (bool_decide (k = Root)).
Definition dec_kind (v : Value) : SessionKind := match v with Bool true => Root | _ => DurableChild end.
Definition enc_parent (o : option SessionId) : Value := match o with Some i => enc_typed i | None => Null end.
Definition dec_parent (v : Value) : option SessionId := match v with Null => None | _ => Some (dec_typed v) end.

Definition enc_snapshot (s : AgentSessionSnapshot) : Value :=
  let i := snap_identity s in
  Array [jnum (sv_major (snap_version s)); jnum (sv_minor (snap_version s)); enc_kind (kind i);
         enc_typed (session_id i); enc_typed (root_tree_id i); enc_parent (parent_session_id i);
         enc_typed (profile_id i); jnum (state_code (snap_state s)); jnum (revision_get (snap_revision s));
         jnum (unix_millis (snap_updated_at s)); enc_message (last_service_message s)].
Definition dec_snapshot (v : Value) : result JsonError AgentSessionSnapshot :=
  match v with
  | Array [a; b; k; i; t; p; f; s; r; u; m] =>
      Ok (MkSnapshot (MkSchemaVersion (dec_num a) (dec_num b))
            (MkIdentity (dec_kind k) (dec_typed i) (dec_typed t) (dec_parent p) (dec_typed f))
            (dec_state (dec_num s)) (MkRevision (dec_num r)) (MkUtcTimestamp (dec_num u)) (dec_message m))
  | _ => Err JsonErr
  end.

Definition snapshot_codec : SnapshotCodec :=
  {| snapshot_to_value s := Ok (enc_snapshot s); snapshot_from_value := dec_snapshot |}.

#[local] Existing Instance token_json.
#[local] Existing Instance snapshot_codec.

(** ** A run *)

Definition sample_identity : SessionIdentity :=
  identity_root (MkTypedId (MkEntityId (str "session"))) (MkTypedId (MkEntityId (str "tree")))
    (MkTypedId (MkEntityId (str "profile"))).
Definition sample_writer : JsonSessionWriter := MkWriter [str "sessions"].
Definition sample_local : LocalSessionServices :=
  local_new sample_writer (str "provider") (str "model") {[str "shell"]} ∅.
Definition sample_services : SessionServices LocalWorld :=
  into_services (str "42") (fun n => MkEntityId (str "id")) sample_local.
Definition sample_clock : Clock LocalWorld := local_clock (fun n => (Z.of_nat n * 1000000)%Z).
#[local] Existing Instance sample_clock.

Definition sample_initial : AgentSessionSnapshot := snapshot_initial sample_identity.

(** The world after the session was started, in which the fifth call of the file
    system will fail. *)
Definition started : LocalWorld :=
  let w := (writer_store (str "42") sample_writer sample_initial (MkLocalWorld (MkFs ∅ []) 0 0)).2 in
  MkLocalWorld (MkFs (entries (lw_fs w)) [IoDone; IoDone; IoDone; IoDone; IoFails None]) 0 0.

Definition sample_commands : list SessionCommand :=
  [Transition Ready; Transition Ready; Invoke PrepareTurn; Invoke (AuthorizeTool (str "shell"));
   Transition Archived; SnapshotCommand; Shutdown; Transition Paused].

Definition sample_run := run_actor sample_services sample_commands (MkActor sample_initial started).

(** ** The codec is lawful *)

Lemma snapshot_codec_is_lawful : snapshot_codec_lawful.
Proof.
  intros s v [= <-]. destruct s as [[a b] [k [[i]] [[t]] p [[f]]] st [r] [u] m].
  assert (distinct_keys (enc_message m) /\ sort_json_value (enc_message m) = enc_message m
    /\ readable_at (enc_message m) 126 = true /\ dec_message (enc_message m) = m) as (Hd & Hs & Hr & Hm).
  { destruct m as [[| [[]] | | | | | | [[]] | | ]|]; by repeat split. }
  assert (distinct_keys (enc_parent p) /\ sort_json_value (enc_parent p) = enc_parent p
    /\ readable_at (enc_parent p) 126 = true /\ dec_parent (enc_parent p) = p) as (Hd' & Hs' & Hr' & Hp).
  { destruct p as [[[]]|]; by repeat split. }
  split; [|split].
  - unfold enc_snapshot. simpl. by repeat split.
  - unfold enc_snapshot, readable. cbn [readable_at forallb]. simpl in *. by rewrite Hr, Hr'.
  - unfold enc_snapshot. cbn [sort_json_value List.map snapshot_from_value snapshot_codec dec_snapshot].
    simpl. rewrite Hs, Hs', Hm, Hp. do 2 f_equal; [by destruct k|by destruct st].
Qed.

(** ** Closed instances *)

Lemma eta3 {A B C : Type} (p : A * B * C) : p = (p.1.1, p.1.2, p.2).
Proof. by destruct p as [[]]. Qed.

Lemma ok_file (s : AgentSessionSnapshot) es bytes :
  es !! writer_path sample_writer (session_id (snap_identity s)) = Some (EFile bytes) ->
  decode_snapshot bytes = Ok s -> file_holds sample_local (session_id (snap_identity s)) s es.
Proof. intros Hf Hd. by exists bytes. Qed.

Lemma started_holds : holding sample_local (session_id sample_identity) sample_initial started.
Proof.
  apply (ok_file sample_initial _ [Zpos (encode (sort_json_value (enc_snapshot sample_initial)))]).
  - apply (bool_decide_eq_true_1 _). vm_compute. reflexivity.
  - unfold decode_snapshot. cbn [from_slice token_json]. unfold token_from_slice. rewrite decode_encode. reflexivity.
Qed.

(** A transition whose store fails, one that succeeds, two services, and a
    transition that is refused: three changes, three revisions. *)
Lemma session_follows_lifecycle_witness :
  exists handled n, handles sample_commands handled false
    /\ session_path (zip handled sample_run.1.1) n sample_initial (actor_snapshot sample_run.2)
    /\ revision_get (snap_revision (actor_snapshot sample_run.2)) = (0 + Z.of_nat n)%Z /\ n = 3.
Proof.
  destruct (session_follows_lifecycle sample_services sample_commands (MkActor sample_initial started)
    sample_run.1.1 sample_run.1.2 sample_run.2 (eta3 _)) as (handled & n & Hh & _ & Hp & Hr & _).
  exists handled, n. split; [exact Hh|]. split; [exact Hp|]. split; [exact Hr|].
  assert (revision_get (snap_revision (actor_snapshot sample_run.2)) = 3%Z) as H3 by (vm_compute; reflexivity).
  cbn [actor_snapshot sample_initial snapshot_initial snap_revision Revision_ZERO revision_get] in Hr. lia.
Defined.

Lemma command_all_or_nothing_witness :
  actor_snapshot (apply_command sample_services (Transition Paused) (MkActor sample_initial started)).2 = sample_initial.
Proof.
  pose proof (command_all_or_nothing sample_services (Transition Paused) (MkActor sample_initial started)
    (Err (IllegalTransition Dormant Paused))
    (apply_command sample_services (Transition Paused) (MkActor sample_initial started)).2) as H.
  apply H. reflexivity.
Defined.

Lemma store_is_atomic_witness :
  let s := MkSnapshot CURRENT_SCHEMA_VERSION sample_identity Ready (MkRevision 1) UNIX_EPOCH None in
  let w' := (writer_store (str "42") sample_writer s started).2 in
  holding sample_local (session_id sample_identity) sample_initial w'
  \/ holding sample_local (session_id sample_identity) s w'.
Proof.
  intros s w'.
  apply (store_is_atomic (str "42") sample_local sample_initial s started (Err (Persistence (inl IoOther))) w').
  - apply snapshot_codec_is_lawful.
  - apply started_holds.
  - vm_compute. reflexivity.
Defined.

Lemma recovery_keeps_acknowledged_witness :
  exists b, (recover sample_services sample_identity 8 (actor_world sample_run.2)).1 = Ok b
    /\ (actor_snapshot b = actor_snapshot sample_run.2
        \/ snapshot_step (actor_snapshot sample_run.2) (actor_snapshot b)).
Proof.
  pose proof (recovery_keeps_acknowledged (str "42") (fun n => MkEntityId (str "id"))
    (fun n => (Z.of_nat n * 1000000)%Z) sample_local sample_commands sample_initial started
    sample_run.1.1 sample_run.1.2 sample_run.2 8
    (recover sample_services sample_identity 8 (actor_world sample_run.2)).1
    (recover sample_services sample_identity 8 (actor_world sample_run.2)).2
    snapshot_codec_is_lawful started_holds eq_refl ltac:(discriminate) (eta3 _) (surjective_pairing _)) as H.
  assert (is_ok (recover sample_services sample_identity 8 (actor_world sample_run.2)).1 = true) as Hok
    by (vm_compute; reflexivity).
  destruct (recover sample_services sample_identity 8 (actor_world sample_run.2)).1 as [b|e]; [|discriminate Hok].
  exists b. split; [reflexivity|exact H].
Defined.

Lemma accepted_input_clean_witness :
  exists normalized, local_accept_input sample_local (str " hello ") = Ok (InputAccepted normalized)
    /\ (0%Z ∉ normalized) /\ clean_edges normalized.
Proof.
  destruct (accepted_input_clean sample_local (str " hello ") (InputAccepted (str "hello")) eq_refl)
    as (normalized & Hn & _ & _ & H0 & He & _).
  exists normalized. split; [rewrite <- Hn; reflexivity|]. split; [exact H0|exact He].
Defined.

Definition sample_mailbox : Mailbox LocalWorld :=
  MkMailbox 2 1 [(7, SnapshotCommand)] {[7 := Waiting]} (MkActor sample_initial started) Serving.

Lemma sample_mailbox_reachable :
  mailbox_reachable sample_services 2 (MkActor sample_initial started) sample_mailbox.
Proof.
  eapply (reachable_step _ _ _ _ (TrySend 7) _ None); [eapply (reachable_step _ _ _ _ (Reserve 7 SnapshotCommand) _ None)|].
  - apply reachable_new.
  - reflexivity.
  - reflexivity.
Qed.

Lemma mailbox_bounded_witness :
  outstanding sample_mailbox = size (calls sample_mailbox) /\ length (queue sample_mailbox) <= 2.
Proof.
  destruct (mailbox_bounded sample_services 2 (MkActor sample_initial started) sample_mailbox sample_mailbox_reachable)
    as (Ho & _ & Hq & _).
  split; [exact Ho|exact Hq].
Defined.

Lemma dispatch_terminates_witness :
  exists e m' out, mailbox_step sample_services e sample_mailbox = Some (m', out) /\ mailbox_work m' < mailbox_work sample_mailbox.
Proof.
  destruct (dispatch_terminates sample_services 2 (MkActor sample_initial started) sample_mailbox sample_mailbox_reachable)
    as [Hp Hw].
  destruct Hp as (e & m' & out & Hs & He); [discriminate|].
  exists e, m', out. split; [exact Hs|]. exact (Hw e m' out Hs He).
Defined.
