(* ===== verification/ResourceModel.v ===== *)
(** * Resource vocabulary: [crates/resource-governor/src/model.rs]

    Scopes, kinds of resources, ceilings and policies, scope paths, acquire
    requests and leases.  Constructors of [ResourceKind] carry a [K] prefix,
    those of [ReclaimClass] an [R] prefix. *)

From Stdlib Require Import ZArith Lia String.
From stdpp Require Import base decidable countable gmap sorting option list.
From S2P Require Import Prelude RustStd AgentTypes.

(** ** Scopes *)

Inductive ResourceScope :=
| Installation
| Worker (id : RootTreeId)
| Profile (id : ProfileId)
| Tree (id : RootTreeId)
| Session (id : SessionId)
| Goal (id : GoalId)
| Action (id : ActionId)
| ProviderAccount (provider account : rstr)
| Tool (name : rstr)
| Child (id : SessionId)
| Kernel (id : SessionId)
| Browser (id : SessionId)
| Process (id : SessionId)
| Channel (name : rstr)
| Scheduler (id : ProfileId)
| Background (id : ProfileId).

(** [{id}] of a typed identifier. *)
Definition display_id {name} (id : TypedId name) : rstr := as_str (as_entity_id id).

Definition safe_label (self : ResourceScope) : rstr :=
  match self with
  | Installation => str "installation"
  | Worker id => str "worker:" ++ display_id id
  | Profile id => str "profile:" ++ display_id id
  | Tree id => str "tree:" ++ display_id id
  | Session id => str "session:" ++ display_id id
  | Goal id => str "goal:" ++ display_id id
  | Action id => str "action:" ++ display_id id
  | ProviderAccount provider _ => str "provider:" ++ provider ++ str ":<redacted>"
  | Tool name => str "tool:" ++ name
  | Child id => str "child:" ++ display_id id
  | Kernel id => str "kernel:" ++ display_id id
  | Browser id => str "browser:" ++ display_id id
  | Process id => str "process:" ++ display_id id
  | Channel name => str "channel:" ++ name
  | Scheduler id => str "scheduler:" ++ display_id id
  | Background id => str "background:" ++ display_id id
  end.

(** The derived order: first the position of the variant, then its fields. *)
Definition scope_code (s : ResourceScope) : Z * list rstr :=
  match s with
  | Installation => (0, [])
  | Worker id => (1, [display_id id])
  | Profile id => (2, [display_id id])
  | Tree id => (3, [display_id id])
  | Session id => (4, [display_id id])
  | Goal id => (5, [display_id id])
  | Action id => (6, [display_id id])
  | ProviderAccount provider account => (7, [provider; account])
  | Tool name => (8, [name])
  | Child id => (9, [display_id id])
  | Kernel id => (10, [display_id id])
  | Browser id => (11, [display_id id])
  | Process id => (12, [display_id id])
  | Channel name => (13, [name])
  | Scheduler id => (14, [display_id id])
  | Background id => (15, [display_id id])
  end%Z.

Definition scope_decode (c : Z * list rstr) : ResourceScope :=
  let typed {name} (s : rstr) : TypedId name := MkTypedId (MkEntityId s) in
  match c with
  | (1%Z, [s]) => Worker (typed s)
  | (2%Z, [s]) => Profile (typed s)
  | (3%Z, [s]) => Tree (typed s)
  | (4%Z, [s]) => Session (typed s)
  | (5%Z, [s]) => Goal (typed s)
  | (6%Z, [s]) => Action (typed s)
  | (7%Z, [p; a]) => ProviderAccount p a
  | (8%Z, [s]) => Tool s
  | (9%Z, [s]) => Child (typed s)
  | (10%Z, [s]) => Kernel (typed s)
  | (11%Z, [s]) => Browser (typed s)
  | (12%Z, [s]) => Process (typed s)
  | (13%Z, [s]) => Channel s
  | (14%Z, [s]) => Scheduler (typed s)
  | (15%Z, [s]) => Background (typed s)
  | _ => Installation
  end.

Lemma scope_decode_code s : scope_decode (scope_code s) = s.
Proof. destruct s as [|[[]]|[[]]|[[]]|[[]]|[[]]|[[]]| | |[[]]|[[]]|[[]]|[[]]| |[[]]|[[]]]; reflexivity. Qed.

#[export] Instance scope_code_inj : Inj (=) (=) scope_code.
Proof. intros s t Heq. rewrite <- (scope_decode_code s), <- (scope_decode_code t). by rewrite Heq. Qed.
#[export] Instance ResourceScope_eq_dec : EqDecision ResourceScope.
Proof. solve_decision. Defined.
#[export] Instance ResourceScope_countable : Countable ResourceScope.
Proof. apply (inj_countable' scope_code scope_decode). apply scope_decode_code. Defined.
#[export] Instance ResourceScope_ord : RustOrd ResourceScope := ord_by scope_code.

(** ** Kinds *)

Inductive ResourceKind :=
| KWorkers
| KActiveSessions
| KProviderRequests
| KSafeParallelTools
| KChildren
| KRecursiveDepth
| KKernels
| KBrowsers
| KProcesses
| KChannels
| KSchedules
| KBackgroundInitiatives
| KMcpSessions
| KEvolutionHypotheses
| KEvolutionShadowTrees
| KEvolutionBuilds
| KEvolutionCanaries
| KTokens
| KModelCostMicros
| KWallTimeMs
| KCpuTimeMs
| KToolCalls
| KMemoryBytes
| KStorageBytes
| KNetworkBytes
| KRetries
| KNotifications.

Definition is_concurrency (self : ResourceKind) : bool :=
  match self with
  | KWorkers | KActiveSessions | KProviderRequests | KSafeParallelTools | KChildren
  | KRecursiveDepth | KKernels | KBrowsers | KProcesses | KChannels | KSchedules
  | KBackgroundInitiatives | KMcpSessions | KEvolutionHypotheses | KEvolutionShadowTrees
  | KEvolutionBuilds | KEvolutionCanaries => true
  | _ => false
  end.

Definition concurrency_kinds : list ResourceKind :=
  [KWorkers; KActiveSessions; KProviderRequests; KSafeParallelTools; KChildren; KRecursiveDepth;
   KKernels; KBrowsers; KProcesses; KChannels; KSchedules; KBackgroundInitiatives; KMcpSessions;
   KEvolutionHypotheses; KEvolutionShadowTrees; KEvolutionBuilds; KEvolutionCanaries].

Definition all_kinds : list ResourceKind :=
  concurrency_kinds ++
  [KTokens; KModelCostMicros; KWallTimeMs; KCpuTimeMs; KToolCalls; KMemoryBytes; KStorageBytes;
   KNetworkBytes; KRetries; KNotifications].

#[export] Instance ResourceKind_eq_dec : EqDecision ResourceKind.
Proof. solve_decision. Defined.

(** The position of the variant. *)
Definition kind_code (k : ResourceKind) : Z :=
  match list_find (fun j => j = k) all_kinds with Some (n, _) => Z.of_nat n | None => 0 end.
Definition kind_decode (z : Z) : ResourceKind := default KWorkers (all_kinds !! Z.to_nat z).

#[export] Instance kind_code_inj : Inj (=) (=) kind_code.
Proof.
  assert (forall k, kind_decode (kind_code k) = k) as Hk by by intros [].
  intros k j Heq. rewrite <- (Hk k), <- (Hk j). by rewrite Heq.
Qed.
#[export] Instance ResourceKind_countable : Countable ResourceKind.
Proof. apply (inj_countable' kind_code kind_decode). by intros []. Defined.
#[export] Instance ResourceKind_ord : RustOrd ResourceKind := ord_by kind_code.

(** ** Ceilings and policies *)

Inductive ExhaustionBehavior := Pause | FailRequest.

#[export] Instance ExhaustionBehavior_eq_dec : EqDecision ExhaustionBehavior.
Proof. solve_decision. Defined.

Record ResourceCeiling := MkCeiling { ceiling_maximum : Z; exhaustion : ExhaustionBehavior }.
Record QueueCeiling := MkQueueCeiling { queue_maximum : Z; interactive_reserve : Z }.

Abbreviation Key := (ResourceScope * ResourceKind)%type.

Record ResourcePolicy := MkPolicy {
  ceilings : gmap Key ResourceCeiling;
  queue_ceilings : gmap ResourceScope QueueCeiling
}.

(** ** Requests and leases *)

Record ScopePath := MkScopePath { scopes : list ResourceScope }.

Inductive WorkPriority := PBackground | PNormal | PInteractive.

Definition priority_code (p : WorkPriority) : Z :=
  match p with PBackground => 0 | PNormal => 1 | PInteractive => 2 end.

#[export] Instance WorkPriority_eq_dec : EqDecision WorkPriority.
Proof. solve_decision. Defined.
#[export] Instance priority_code_inj : Inj (=) (=) priority_code.
Proof. by intros [] []. Qed.
#[export] Instance WorkPriority_countable : Countable WorkPriority.
Proof.
  apply (inj_countable' priority_code
    (fun z => match z with 0 => PBackground | 1 => PNormal | _ => PInteractive end%Z)). by intros [].
Defined.
#[export] Instance WorkPriority_ord : RustOrd WorkPriority := ord_by priority_code.

Inductive ReclaimClass := RWorker | RChild | RKernel | RBrowser | RMcpSession | RToolProcess.

Definition reclaim_resource (self : ReclaimClass) : ResourceKind :=
  match self with
  | RWorker => KWorkers
  | RChild => KChildren
  | RKernel => KKernels
  | RBrowser => KBrowsers
  | RMcpSession => KMcpSessions
  | RToolProcess => KProcesses
  end.

Record RecoveryDescriptor := MkRecovery {
  recovery_class : ReclaimClass;
  durable_state_id : EntityId;
  resume_marker : rstr
}.

Record AcquireRequest := MkAcquire {
  req_id : EntityId;
  req_path : ScopePath;
  req_resource : ResourceKind;
  req_units : Z;
  req_priority : WorkPriority;
  req_recovery : option RecoveryDescriptor;
  req_submitted_at : UtcTimestamp;
  req_idle_timeout_ms : Z
}.

Record ResourceLease := MkLease {
  lease_id : EntityId;
  lease_request : AcquireRequest;
  acquired_at : UtcTimestamp;
  heartbeat_at : UtcTimestamp;
  expires_at : UtcTimestamp;
  lease_revision : Revision
}.

#[export] Instance ScopePath_eq_dec : EqDecision ScopePath.
Proof. solve_decision. Defined.
#[export] Instance ReclaimClass_eq_dec : EqDecision ReclaimClass.
Proof. solve_decision. Defined.
#[export] Instance RecoveryDescriptor_eq_dec : EqDecision RecoveryDescriptor.
Proof. solve_decision. Defined.
#[export] Instance AcquireRequest_eq_dec : EqDecision AcquireRequest.
Proof. solve_decision. Defined.
#[export] Instance ResourceLease_eq_dec : EqDecision ResourceLease.
Proof. solve_decision. Defined.

Inductive ScheduleOutcome :=
| Granted (lease : ResourceLease)
| Paused (request_id : EntityId) (scope : ResourceScope) (resource : ResourceKind)
| Failed (request_id : EntityId) (scope : ResourceScope) (resource : ResourceKind).

Record ReclaimedResource := MkReclaimed {
  reclaimed_lease_id : EntityId;
  reclaimed_recovery : RecoveryDescriptor
}.

Record UsageDelta := MkUsageDelta {
  usage_path : ScopePath;
  usage_resource : ResourceKind;
  usage_units : Z
}.

Inductive UsageOutcome :=
| Recorded
| UsagePaused (scope : ResourceScope) (resource : ResourceKind)
| UsageFailed (scope : ResourceScope) (resource : ResourceKind).

Record ResourceProjection := MkProjection {
  proj_scope : rstr;
  proj_resource : ResourceKind;
  proj_consumed : Z;
  proj_active : Z;
  proj_ceiling : option Z;
  proj_remaining : option Z
}.

(** The messages of [ResourceError::Invalid]. *)
Inductive InvalidReason :=
| ZeroCeiling
| MissingInstallationCeiling (resource : ResourceKind)
| InvalidQueueCeilings
| InvalidScopePath
| InvalidAcquire
| ZeroDecisions
| AdmissionRetriesExhausted
| ReleaseRetriesExhausted
| HeartbeatRetriesExhausted
| UsageRetriesExhausted
| HeartbeatBackwards
| LeaseRevisionExhausted
| AccountRevisionExhausted
| RecoveryDisappeared
| InvalidUsage
| MissingLeaseAccount
| AccountingUnderflow
| DuplicateAccount
| DuplicatePending
| DuplicateLease
| CounterOverflow
| ActiveOverflow
| UsageOverflow
| IdleTimeoutTooLarge
| LeaseExpiryOverflow
| IdentityMismatch.

Inductive ResourceError {E J : Type} :=
| ReInvalid (reason : InvalidReason)
| ReDuplicate (id : EntityId)
| ReMissing (id : EntityId)
| ReQueueFull (scope : rstr) (priority : WorkPriority)
| ReLockPoisoned
| ReRepository (error : E)
| ReRepositoryConflict (error : E)
| ReSerialize (error : J).
Global Arguments ResourceError : clear implicits.

(** ** Operations *)

Section operations.
Context {E J : Type}.
Abbreviation Error := (ResourceError E J).

Definition policy_new (ceilings : gmap Key ResourceCeiling) : result Error ResourcePolicy :=
  reject_if (existsb (fun c => ceiling_maximum c =? 0)%Z (btree_values ceilings)) (ReInvalid ZeroCeiling) ;;
  try_fold (fun _ resource =>
      reject_if (negb (bool_decide (is_Some (ceilings !! (Installation, resource)))))
        (ReInvalid (MissingInstallationCeiling resource))) tt concurrency_kinds ;;
  Ok (MkPolicy ceilings {[Installation := MkQueueCeiling 4096 256]}).

Definition with_queue_ceilings (self : ResourcePolicy) (queue_ceilings : gmap ResourceScope QueueCeiling)
  : result Error ResourcePolicy :=
  reject_if
    (negb (bool_decide (is_Some (queue_ceilings !! Installation)))
     || existsb (fun limit => (queue_maximum limit =? 0)
                              || (queue_maximum limit <? interactive_reserve limit))%Z
          (btree_values queue_ceilings))%bool
    (ReInvalid InvalidQueueCeilings) ;;
  Ok (MkPolicy (ceilings self) queue_ceilings).

Definition ceiling (self : ResourcePolicy) (scope : ResourceScope) (resource : ResourceKind)
  : option ResourceCeiling := ceilings self !! (scope, resource).

Definition queue_ceiling (self : ResourcePolicy) (scope : ResourceScope) : option QueueCeiling :=
  queue_ceilings self !! scope.

Definition scope_path_new (scopes : list ResourceScope) : result Error ScopePath :=
  if (negb (bool_decide (head scopes = Some Installation))
      || (32 <? length scopes)%nat
      || negb (size (list_to_set scopes : gset ResourceScope) =? length scopes)%nat)%bool
  then Err (ReInvalid InvalidScopePath)
  else Ok (MkScopePath scopes).
End operations.

Fixpoint find_map {A B} (f : A -> option B) (xs : list A) : option B :=
  match xs with
  | [] => None
  | x :: xs => match f x with Some y => Some y | None => find_map f xs end
  end.

Definition path_tree (self : ScopePath) : option RootTreeId :=
  find_map (fun scope => match scope with Tree id => Some id | _ => None end) (scopes self).

Definition path_session (self : ScopePath) : option SessionId :=
  find_map (fun scope => match scope with Session id => Some id | _ => None end) (scopes self).

(** ** Facts *)

(** What [ScopePath::new] establishes. *)
Record wf_path (p : ScopePath) : Prop := {
  path_rooted : head (scopes p) = Some Installation;
  path_bounded : length (scopes p) <= 32;
  path_unique : NoDup (scopes p)
}.

Lemma scope_path_new_Ok {E J} ss p :
  scope_path_new ss = (Ok p : result (ResourceError E J) _) <-> p = MkScopePath ss /\ wf_path p.
Proof.
  unfold scope_path_new. split.
  - intros Hp. res_inv. bool_inv. apply Nat.eqb_eq, size_list_to_set_NoDup in H0.
    split; [done|]. by split.
  - intros [-> [Hr Hb Hu]]. simpl in *. rewrite bool_decide_eq_true_2 by done.
    rewrite (proj2 (Nat.ltb_ge _ _) Hb). simpl.
    by rewrite (proj2 (Nat.eqb_eq _ _) (proj2 (size_list_to_set_NoDup ss) Hu)).
Qed.
