(* ===== verification/ResourceGovernor.v ===== *)
(** * The resource governor: [crates/resource-governor/src/service.rs]

    Durable accounts, pending requests and leases over an atomic repository, and
    the in-memory state a governor caches between calls.  Several processes may
    run a governor over one repository: what the others write between two
    repository calls of this one is the list [interference], one function per
    call.  Parameters: the repository (the interface of [StateStoreCore]), the
    derived [serde] codecs, [sha2], and the identifiers [EntityId::new] draws. *)

From Stdlib Require Import ZArith Lia String.
From stdpp Require Import base decidable countable gmap sorting option list.
From S2P Require Import Prelude RustStd Sha2 AgentTypes Json StateStoreCore ResourceModel.

(** ** Durable records *)

Record Account := MkAccount {
  acc_id : EntityId;
  acc_scope : ResourceScope;
  acc_resource : ResourceKind;
  acc_consumed : Z;
  acc_active : Z;
  acc_revision : Revision;
  acc_updated_at : UtcTimestamp
}.

Record Pending := MkPending {
  pend_request : AcquireRequest;
  pend_revision : Revision
}.

Inductive StoredResource :=
| SAccount (account : Account)
| SPending (pending : Pending)
| SLease (lease : ResourceLease).

#[export] Instance Account_eq_dec : EqDecision Account.
Proof. solve_decision. Defined.
#[export] Instance Pending_eq_dec : EqDecision Pending.
Proof. solve_decision. Defined.
#[export] Instance StoredResource_eq_dec : EqDecision StoredResource.
Proof. solve_decision. Defined.

Definition stored_id (r : StoredResource) : EntityId :=
  match r with
  | SAccount a => acc_id a
  | SPending p => req_id (pend_request p)
  | SLease l => lease_id l
  end.

Definition stored_revision (r : StoredResource) : Revision :=
  match r with
  | SAccount a => acc_revision a
  | SPending p => pend_revision p
  | SLease l => lease_revision l
  end.

(** The derived codecs: a stored resource and the pair an account is named by. *)
Class ResourceCodec : Type := {
  resource_to_value : StoredResource -> result JsonError Value;
  resource_from_value : Value -> result JsonError StoredResource;
  key_to_value : Key -> result JsonError Value
}.

(** ** In-memory state *)

Record State := MkState {
  accounts : gmap Key Account;
  pending : gmap EntityId Pending;
  leases : gmap EntityId ResourceLease;
  last_tree : gmap WorkPriority RootTreeId
}.

Definition default_state : State := MkState ∅ ∅ ∅ ∅.

Definition MAX_CONFLICT_RETRIES : nat := 8.

Section governor.
Context {S : Type} `{HR : Repository S, HU : Ulid, HJ : SerdeJson, HC : ResourceCodec, HH : Sha256}.
(** The values of successive calls of [EntityId::new]. *)
Context (new_id : nat -> EntityId).

Abbreviation Error := (ResourceError repo_error JsonError).

Record ResourceGovernor := MkGovernor {
  repository : S;
  policy : ResourcePolicy;
  state : State;
  gov_poisoned : bool;
  interference : list (S -> S);
  ids_drawn : nat
}.

Abbreviation gov_m := (stateT ResourceGovernor Error).

Definition set_state (s : State) : gov_m unit :=
  modify (fun g => MkGovernor (repository g) (policy g) s (gov_poisoned g) (interference g) (ids_drawn g)).

(** The writes of other processes that land before the next repository call. *)
Definition interfere (g : ResourceGovernor) : ResourceGovernor :=
  match interference g with
  | [] => g
  | e :: es => MkGovernor (e (repository g)) (policy g) (state g) (gov_poisoned g) es (ids_drawn g)
  end.

Definition repository_list (c : Collection) (g : ResourceGovernor)
  : result repo_error (list VersionedRecord) * ResourceGovernor :=
  let g := interfere g in (list_records (repository g) c, g).

Definition repository_transact (ms : list RecordMutation) (g : ResourceGovernor)
  : result repo_error CommitReceipt * ResourceGovernor :=
  let g := interfere g in
  let '(r, s) := transact (repository g) ms in
  (r, MkGovernor s (policy g) (state g) (gov_poisoned g) (interference g) (ids_drawn g)).

(** [EntityId::new()]. *)
Definition entity_id_new : gov_m EntityId :=
  fun g => (Ok (new_id (ids_drawn g)),
            MkGovernor (repository g) (policy g) (state g) (gov_poisoned g) (interference g)
              (Datatypes.S (ids_drawn g))).

Definition repository_error (e : repo_error) : Error := ReRepository e.

Definition classified_repository_error (e : repo_error) : Error :=
  if is_conflict e then ReRepositoryConflict e else ReRepository e.

(** [self.repository.transact(ms).map_err(classified_repository_error)]. *)
Definition transact_classified (ms : list RecordMutation) : gov_m CommitReceipt :=
  fun g => let '(r, g') := repository_transact ms g in (map_err classified_repository_error r, g').

Definition gov_lock : gov_m State :=
  fun g => if gov_poisoned g then (Err ReLockPoisoned, g) else (Ok (state g), g).

(** ** Pure helpers *)

Definition decode (record : VersionedRecord) : result Error StoredResource :=
  resource ← map_err ReSerialize (resource_from_value (rec_payload record));
  reject_if (negb (bool_decide (stored_id resource = rec_id record))
             || negb (bool_decide (stored_revision resource = rec_revision record)))%bool
    (ReInvalid IdentityMismatch) ;;
  Ok resource.

Definition load_record (st : State) (record : VersionedRecord) : result Error State :=
  resource ← decode record;
  match resource with
  | SAccount a =>
      let key := (acc_scope a, acc_resource a) in
      reject_if (bool_decide (is_Some (accounts st !! key))) (ReInvalid DuplicateAccount) ;;
      Ok (MkState (<[key := a]> (accounts st)) (pending st) (leases st) (last_tree st))
  | SPending p =>
      let id := req_id (pend_request p) in
      reject_if (bool_decide (is_Some (pending st !! id))) (ReInvalid DuplicatePending) ;;
      Ok (MkState (accounts st) (<[id := p]> (pending st)) (leases st) (last_tree st))
  | SLease l =>
      reject_if (bool_decide (is_Some (leases st !! lease_id l))) (ReInvalid DuplicateLease) ;;
      Ok (MkState (accounts st) (pending st) (<[lease_id l := l]> (leases st)) (last_tree st))
  end.

Definition load_state : gov_m State :=
  fun g => let '(r, g') := repository_list ResourceGovernance g in
           (records ← map_err repository_error r; try_fold load_record default_state records, g').

(** [last_tree] is taken out of the state before the reload, and lost when it
    fails. *)
Definition refresh_durable_state : gov_m unit :=
  st ← gets state;
  set_state (MkState (accounts st) (pending st) (leases st) ∅) ;;
  refreshed ← load_state;
  set_state (MkState (accounts refreshed) (pending refreshed) (leases refreshed) (last_tree st)).

Definition validate_acquire (request : AcquireRequest) : result Error unit :=
  let session_required := negb (bool_decide (req_resource request = KWorkers)) in
  reject_if
    (negb (is_concurrency (req_resource request))
     || (req_units request =? 0)%Z
     || (req_idle_timeout_ms request =? 0)%Z
     || negb (bool_decide (is_Some (path_tree (req_path request))))
     || (session_required && negb (bool_decide (is_Some (path_session (req_path request)))))
     || match req_recovery request with
        | Some recovery =>
            negb (bool_decide (reclaim_resource (recovery_class recovery) = req_resource request))
            || str_is_empty (trim (resume_marker recovery))
            || (1024 <? str_len (resume_marker recovery))%Z
        | None => false
        end)%bool
    (ReInvalid InvalidAcquire).

(** Pending requests whose path holds [scope]. *)
Definition admitted (st : State) (scope : ResourceScope) : Z :=
  Z.of_nat (length (filter (fun p => scope ∈ scopes (req_path (pend_request p)))
                           (btree_values (pending st)))).

Definition ensure_queue_capacity (st : State) (pol : ResourcePolicy) (request : AcquireRequest)
  : result Error unit :=
  try_fold (fun _ scope =>
    match queue_ceiling pol scope with
    | None => Ok tt
    | Some c =>
        let maximum :=
          if bool_decide (req_priority request = PBackground)
          then u64_saturating_sub (queue_maximum c) (interactive_reserve c)
          else queue_maximum c in
        reject_if (maximum <=? admitted st scope)%Z
          (ReQueueFull (safe_label scope) (req_priority request))
    end) tt (scopes (req_path request)).

(** The counter of an account that a request is measured against. *)
Definition counter (active : bool) (a : Account) : Z :=
  if active then acc_active a else acc_consumed a.

Fixpoint exhausted_in (st : State) (pol : ResourcePolicy) (path : list ResourceScope)
    (resource : ResourceKind) (units : Z) (active : bool)
  : result Error (option (ResourceScope * ExhaustionBehavior)) :=
  match path with
  | [] => Ok None
  | scope :: path =>
      match ceiling pol scope resource with
      | None => exhausted_in st pol path resource units active
      | Some c =>
          let current :=
            match accounts st !! (scope, resource) with
            | Some account => counter active account
            | None => 0%Z
            end in
          next ← ok_or (u64_checked_add current units) (ReInvalid CounterOverflow);
          if (ceiling_maximum c <? next)%Z then Ok (Some (scope, exhaustion c))
          else exhausted_in st pol path resource units active
      end
  end.

Definition exhausted (st : State) (pol : ResourcePolicy) (path : ScopePath)
    (resource : ResourceKind) (units : Z) (active : bool)
  : result Error (option (ResourceScope * ExhaustionBehavior)) :=
  exhausted_in st pol (scopes path) resource units active.

(** [u128::from_be_bytes]. *)
Definition u128_from_be_bytes (bytes : list Z) : Z := fold_left (fun a b => a * 256 + b)%Z bytes 0%Z.

Definition account_prefix : list Z := str "keith-resource-account-v1" ++ [0%Z].

Definition account_id (scope : ResourceScope) (resource : ResourceKind) : result Error EntityId :=
  value ← map_err ReSerialize (key_to_value (scope, resource));
  bytes ← map_err ReSerialize (canonical_json_bytes value);
  Ok (entity_id_from_u128 (u128_from_be_bytes (take 16 (sha256 (account_prefix ++ bytes))))).

Definition put_mutation (id : EntityId) (resource : StoredResource) (revision : Revision)
    (updated_at : UtcTimestamp) (precondition : WritePrecondition) : result Error RecordMutation :=
  payload ← map_err ReSerialize (resource_to_value resource);
  Ok (Put ResourceGovernance
        (MkVersionedRecord CURRENT_SCHEMA_VERSION id revision updated_at payload) precondition).

Abbreviation AccountChange := (Key * Account)%type.
Abbreviation AccountBatch := (list AccountChange * list RecordMutation)%type.

Definition account_update (st : State) (resource : ResourceKind) (units : Z) (active : bool)
    (now : UtcTimestamp) (batch : AccountBatch) (scope : ResourceScope) : result Error AccountBatch :=
  let key := (scope, resource) in
  id ← account_id scope resource;
  let existing := accounts st !! key in
  let account := default (MkAccount id scope resource 0 0 Revision_ZERO now) existing in
  '(revision, precondition) ←
    match existing with
    | Some current =>
        next ← ok_or (checked_next (acc_revision current)) (ReInvalid AccountRevisionExhausted);
        Ok (next, PreExact (acc_revision current))
    | None => Ok (acc_revision account, PreMissing)
    end;
  '(consumed, active_units) ←
    (if active : bool
     then total ← ok_or (u64_checked_add (acc_active account) units) (ReInvalid ActiveOverflow);
          Ok (acc_consumed account, total)
     else total ← ok_or (u64_checked_add (acc_consumed account) units) (ReInvalid UsageOverflow);
          Ok (total, acc_active account));
  let updated := MkAccount (acc_id account) (acc_scope account) (acc_resource account)
                   consumed active_units revision now in
  mutation ← put_mutation (acc_id updated) (SAccount updated) (acc_revision updated) now precondition;
  Ok (batch.1 ++ [(key, updated)], batch.2 ++ [mutation]).

Definition account_updates (st : State) (path : ScopePath) (resource : ResourceKind) (units : Z)
    (active : bool) (now : UtcTimestamp) : result Error AccountBatch :=
  try_fold (account_update st resource units active now) ([], []) (scopes path).

Definition apply_accounts (st : State) (updates : list AccountChange) : State :=
  MkState (foldl (fun m u => <[u.1 := u.2]> m) (accounts st) updates)
    (pending st) (leases st) (last_tree st).

Definition checked_timestamp (timestamp : UtcTimestamp) (delta_ms : Z) : result Error UtcTimestamp :=
  delta ← ok_or (i64_try_from delta_ms) (ReInvalid IdleTimeoutTooLarge);
  ok_or (MkUtcTimestamp <$> i64_checked_add (unix_millis timestamp) delta) (ReInvalid LeaseExpiryOverflow).

(** ** Selection *)

(** [(submitted_at, id)], the FIFO key of a request. *)
Definition fifo_key (p : Pending) : UtcTimestamp * EntityId :=
  (req_submitted_at (pend_request p), req_id (pend_request p)).

Definition session_of (p : Pending) : option SessionId := path_session (req_path (pend_request p)).
Definition tree_of (p : Pending) : option RootTreeId := path_tree (req_path (pend_request p)).

Definition session_head (heads : gmap (option SessionId) Pending) (p : Pending)
  : gmap (option SessionId) Pending :=
  let replace := match heads !! session_of p with
                 | None => true
                 | Some current => rltb (fifo_key p) (fifo_key current)
                 end in
  if replace : bool then <[session_of p := p]> heads else heads.

Definition session_heads (st : State) : gmap (option SessionId) Pending :=
  foldl session_head ∅ (btree_values (pending st)).

(** [Iterator::max]. *)
Definition priority_max (ps : list WorkPriority) : option WorkPriority :=
  match ps with
  | [] => None
  | p :: ps => Some (foldl (fun a b => if rltb b a then a else b) p ps)
  end.

Definition candidate_cmp (l r : Pending) : comparison :=
  cmp_then (cmp_then (rcmp (tree_of l) (tree_of r))
                     (rcmp (req_submitted_at (pend_request l)) (req_submitted_at (pend_request r))))
           (rcmp (req_id (pend_request l)) (req_id (pend_request r))).

Definition open_heads (st : State) (attempted : gset EntityId) : list Pending :=
  filter (fun p => req_id (pend_request p) ∉ attempted) (btree_values (session_heads st)).

Definition select_next (st : State) (attempted : gset EntityId) : option EntityId :=
  let heads := open_heads st attempted in
  priority ← priority_max ((fun p => req_priority (pend_request p)) <$> heads);
  let candidates :=
    sort_by candidate_cmp (filter (fun p => req_priority (pend_request p) = priority) heads) in
  let selected :=
    last ← last_tree st !! priority;
    List.find (fun p => match tree_of p with Some tree => rltb last tree | None => false end) candidates in
  (fun p => req_id (pend_request p)) <$>
    match selected with Some p => Some p | None => head candidates end.

(** ** Writes *)

Definition delete_mutation (id : EntityId) (revision : Revision) : RecordMutation :=
  Delete ResourceGovernance id (PreExact revision).

Definition grant (p : Pending) (now : UtcTimestamp) : gov_m ResourceLease :=
  st ← gets state;
  id ← entity_id_new;
  expires ← lift (checked_timestamp now (req_idle_timeout_ms (pend_request p)));
  let lease := MkLease id (pend_request p) now now expires Revision_ZERO in
  '(updates, mutations) ← lift (account_updates st (req_path (pend_request p))
      (req_resource (pend_request p)) (req_units (pend_request p)) true now);
  put ← lift (put_mutation id (SLease lease) Revision_ZERO now PreMissing);
  transact_classified
    (mutations ++ [put; delete_mutation (req_id (pend_request p)) (pend_revision p)]) ;;
  let st := apply_accounts st updates in
  set_state (MkState (accounts st) (delete (req_id (pend_request p)) (pending st))
               (<[id := lease]> (leases st)) (last_tree st)) ;;
  mret lease.

Definition delete_pending (p : Pending) : gov_m unit :=
  transact_classified [delete_mutation (req_id (pend_request p)) (pend_revision p)] ;;
  st ← gets state;
  set_state (MkState (accounts st) (delete (req_id (pend_request p)) (pending st))
               (leases st) (last_tree st)).

Definition release_account (st : State) (lease : ResourceLease) (now : UtcTimestamp)
    (batch : AccountBatch) (scope : ResourceScope) : result Error AccountBatch :=
  let key := (scope, req_resource (lease_request lease)) in
  current ← ok_or (accounts st !! key) (ReInvalid MissingLeaseAccount);
  active ← ok_or (u64_checked_sub (acc_active current) (req_units (lease_request lease)))
             (ReInvalid AccountingUnderflow);
  revision ← ok_or (checked_next (acc_revision current)) (ReInvalid AccountRevisionExhausted);
  let next := MkAccount (acc_id current) (acc_scope current) (acc_resource current)
                (acc_consumed current) active revision now in
  mutation ← put_mutation (acc_id next) (SAccount next) (acc_revision next) now
               (PreExact (acc_revision current));
  Ok (batch.1 ++ [(key, next)], batch.2 ++ [mutation]).

Definition release_locked (lease : ResourceLease) (now : UtcTimestamp) : gov_m unit :=
  st ← gets state;
  '(changes, mutations) ← lift (try_fold (release_account st lease now) ([], [])
      (scopes (req_path (lease_request lease))));
  transact_classified (mutations ++ [delete_mutation (lease_id lease) (lease_revision lease)]) ;;
  let st := apply_accounts st changes in
  set_state (MkState (accounts st) (pending st) (delete (lease_id lease) (leases st)) (last_tree st)).

(** ** Operations *)

(** [for attempt in 0..=MAX_CONFLICT_RETRIES { ... }]: the body either returns
    ([Some]) or goes on to the next attempt ([None]); the error after the loop. *)
Fixpoint retry_from {A} (attempts : list nat) (body : nat -> gov_m (option A)) (after : Error) : gov_m A :=
  match attempts with
  | [] => throw after
  | attempt :: attempts =>
      r ← body attempt;
      match r with
      | Some a => mret a
      | None => retry_from attempts body after
      end
  end.

Definition retry {A} (body : nat -> gov_m (option A)) (after : Error) : gov_m A :=
  retry_from (seq 0 (MAX_CONFLICT_RETRIES + 1)) body after.

(** A conflict before the last attempt goes on to the next one. *)
Definition unless_conflict {A} (attempt : nat) (m : gov_m A) : gov_m (option A) :=
  fun g => match m g with
           | (Ok a, g') => (Ok (Some a), g')
           | (Err (ReRepositoryConflict e), g') =>
               if (attempt <? MAX_CONFLICT_RETRIES)%nat then (Ok None, g')
               else (Err (ReRepositoryConflict e), g')
           | (Err e, g') => (Err e, g')
           end.

(** [match self.repository.transact(ms) { Ok(_) => ..., Err(e) if e.is_conflict() && ... }]:
    the callers of this form report a conflict of the last attempt as
    [ResourceError::Repository]. *)
Definition transact_unless_conflict (attempt : nat) (ms : list RecordMutation) : gov_m (option unit) :=
  fun g => match repository_transact ms g with
           | (Ok _, g') => (Ok (Some tt), g')
           | (Err e, g') =>
               if (is_conflict e && (attempt <? MAX_CONFLICT_RETRIES)%nat)%bool then (Ok None, g')
               else (Err (repository_error e), g')
           end.

Definition submit (request : AcquireRequest) : gov_m unit :=
  lift (validate_acquire request) ;;
  gov_lock ;;
  refresh_durable_state ;;
  st ← gets state;
  lift (reject_if
    (bool_decide (is_Some (pending st !! req_id request))
     || existsb (fun l => bool_decide (req_id (lease_request l) = req_id request))
          (btree_values (leases st)))%bool
    (ReDuplicate (req_id request))) ;;
  pol ← gets policy;
  lift (ensure_queue_capacity st pol request) ;;
  let p := MkPending request Revision_ZERO in
  put ← lift (put_mutation (req_id request) (SPending p) Revision_ZERO (req_submitted_at request) PreMissing);
  transact_classified [put] ;;
  set_state (MkState (accounts st) (<[req_id request := p]> (pending st)) (leases st) (last_tree st)).

(** One turn of the [while] of [schedule]: [None] is the [break]. *)
Definition schedule_one (now : UtcTimestamp) (attempted : gset EntityId)
  : gov_m (option (EntityId * ScheduleOutcome)) :=
  st ← gets state;
  pol ← gets policy;
  match select_next st attempted with
  | None => mret None
  | Some request_id =>
      p ← lift (ok_or (pending st !! request_id) (ReMissing request_id));
      let request := pend_request p in
      full ← lift (exhausted st pol (req_path request) (req_resource request) (req_units request) true);
      match full with
      | Some (scope, Pause) => mret (Some (request_id, Paused request_id scope (req_resource request)))
      | Some (scope, FailRequest) =>
          delete_pending p ;;
          mret (Some (request_id, Failed request_id scope (req_resource request)))
      | None =>
          lease ← grant p now;
          match path_tree (req_path request) with
          | Some tree =>
              st ← gets state;
              set_state (MkState (accounts st) (pending st) (leases st)
                           (<[req_priority request := tree]> (last_tree st))) ;;
              mret (Some (request_id, Granted lease))
          | None => mret (Some (request_id, Granted lease))
          end
      end
  end.

(** The [while] of [schedule]: every turn adds one outcome, so [max_decisions]
    bounds the number of turns. *)
Fixpoint schedule_loop (fuel : nat) (now : UtcTimestamp) (attempted : gset EntityId)
    (outcomes : list ScheduleOutcome) : gov_m (list ScheduleOutcome) :=
  match fuel with
  | O => mret outcomes
  | Datatypes.S fuel =>
      r ← schedule_one now attempted;
      match r with
      | None => mret outcomes
      | Some (request_id, outcome) =>
          schedule_loop fuel now ({[request_id]} ∪ attempted) (outcomes ++ [outcome])
      end
  end.

Definition schedule (now : UtcTimestamp) (max_decisions : nat) : gov_m (list ScheduleOutcome) :=
  lift (reject_if (max_decisions =? 0)%nat (ReInvalid ZeroDecisions)) ;;
  gov_lock ;;
  refresh_durable_state ;;
  schedule_loop max_decisions now ∅ [].

Definition schedule_request_attempt (request_id : EntityId) (now : UtcTimestamp) (attempt : nat)
  : gov_m (option ScheduleOutcome) :=
  refresh_durable_state ;;
  st ← gets state;
  pol ← gets policy;
  p ← lift (ok_or (pending st !! request_id) (ReMissing request_id));
  let request := pend_request p in
  full ← lift (exhausted st pol (req_path request) (req_resource request) (req_units request) true);
  match full with
  | Some (scope, Pause) => mret (Some (Paused request_id scope (req_resource request)))
  | Some (scope, FailRequest) =>
      unless_conflict attempt
        (delete_pending p ;; mret (Failed request_id scope (req_resource request)))
  | None => unless_conflict attempt (lease ← grant p now; mret (Granted lease))
  end.

Definition schedule_request (request_id : EntityId) (now : UtcTimestamp) : gov_m ScheduleOutcome :=
  gov_lock ;;
  retry (schedule_request_attempt request_id now) (ReInvalid AdmissionRetriesExhausted).

Definition release_attempt (id : EntityId) (now : UtcTimestamp) (attempt : nat) : gov_m (option unit) :=
  refresh_durable_state ;;
  st ← gets state;
  lease ← lift (ok_or (leases st !! id) (ReMissing id));
  unless_conflict attempt (release_locked lease now).

Definition release (id : EntityId) (now : UtcTimestamp) : gov_m unit :=
  gov_lock ;;
  retry (release_attempt id now) (ReInvalid ReleaseRetriesExhausted).

Definition heartbeat_attempt (id : EntityId) (now : UtcTimestamp) (attempt : nat)
  : gov_m (option ResourceLease) :=
  refresh_durable_state ;;
  st ← gets state;
  lease ← lift (ok_or (leases st !! id) (ReMissing id));
  lift (reject_if (rltb now (heartbeat_at lease)) (ReInvalid HeartbeatBackwards)) ;;
  expires ← lift (checked_timestamp now (req_idle_timeout_ms (lease_request lease)));
  revision ← lift (ok_or (checked_next (lease_revision lease)) (ReInvalid LeaseRevisionExhausted));
  let updated := MkLease (lease_id lease) (lease_request lease) (acquired_at lease) now expires revision in
  put ← lift (put_mutation (lease_id updated) (SLease updated) revision now (PreExact (lease_revision lease)));
  r ← transact_unless_conflict attempt [put];
  match r with
  | Some _ =>
      set_state (MkState (accounts st) (pending st) (<[lease_id updated := updated]> (leases st))
                   (last_tree st)) ;;
      mret (Some updated)
  | None => mret None
  end.

Definition heartbeat (id : EntityId) (now : UtcTimestamp) : gov_m ResourceLease :=
  gov_lock ;;
  retry (heartbeat_attempt id now) (ReInvalid HeartbeatRetriesExhausted).

Definition reclaim_one (now : UtcTimestamp) (reclaimed : list ReclaimedResource) (lease : ResourceLease)
  : gov_m (list ReclaimedResource) :=
  recovery ← lift (ok_or (req_recovery (lease_request lease)) (ReInvalid RecoveryDisappeared));
  release_locked lease now ;;
  mret (reclaimed ++ [MkReclaimed (lease_id lease) recovery]).

Definition reclaim_idle (now : UtcTimestamp) : gov_m (list ReclaimedResource) :=
  gov_lock ;;
  st ← gets state;
  let expired :=
    filter (fun l => rle (expires_at l) now /\ is_Some (req_recovery (lease_request l)))
      (btree_values (leases st)) in
  reclaimed ← fold_m (reclaim_one now) [] expired;
  mret (sort_by (fun l r => rcmp (reclaimed_lease_id l) (reclaimed_lease_id r)) reclaimed).

Definition record_usage_attempt (delta : UsageDelta) (now : UtcTimestamp) (attempt : nat)
  : gov_m (option UsageOutcome) :=
  refresh_durable_state ;;
  st ← gets state;
  pol ← gets policy;
  full ← lift (exhausted st pol (usage_path delta) (usage_resource delta) (usage_units delta) false);
  match full with
  | Some (scope, Pause) => mret (Some (UsagePaused scope (usage_resource delta)))
  | Some (scope, FailRequest) => mret (Some (UsageFailed scope (usage_resource delta)))
  | None =>
      '(updates, mutations) ← lift (account_updates st (usage_path delta) (usage_resource delta)
          (usage_units delta) false now);
      r ← transact_unless_conflict attempt mutations;
      match r with
      | Some _ => set_state (apply_accounts st updates) ;; mret (Some Recorded)
      | None => mret None
      end
  end.

Definition record_usage (delta : UsageDelta) (now : UtcTimestamp) : gov_m UsageOutcome :=
  lift (reject_if (is_concurrency (usage_resource delta) || (usage_units delta =? 0)%Z)%bool
    (ReInvalid InvalidUsage)) ;;
  gov_lock ;;
  retry (record_usage_attempt delta now) (ReInvalid UsageRetriesExhausted).

Definition project (pol : ResourcePolicy) (a : Account) : ResourceProjection :=
  let c := ceiling pol (acc_scope a) (acc_resource a) in
  let used := if is_concurrency (acc_resource a) then acc_active a else acc_consumed a in
  MkProjection (safe_label (acc_scope a)) (acc_resource a) (acc_consumed a) (acc_active a)
    (ceiling_maximum <$> c) ((fun c => u64_saturating_sub (ceiling_maximum c) used) <$> c).

Definition projections : gov_m (list ResourceProjection) :=
  st ← gov_lock;
  pol ← gets policy;
  mret (sort_by (fun l r => cmp_then (rcmp (proj_scope l) (proj_scope r))
                                     (rcmp (proj_resource l) (proj_resource r)))
          (project pol <$> btree_values (accounts st))).

Definition pending_count : gov_m nat := st ← gov_lock; mret (size (pending st)).
Definition lease_count : gov_m nat := st ← gov_lock; mret (size (leases st)).

Definition open_governor (s : S) (pol : ResourcePolicy) (env : list (S -> S)) (drawn : nat)
  : result Error ResourceGovernor :=
  let '(r, g) := load_state (MkGovernor s pol default_state false env drawn) in
  st ← r;
  Ok (MkGovernor (repository g) pol st false (interference g) drawn).
End governor.
