(* ===== verification/GovernorDurable.v ===== *)
(** * The durable state of the governor

    The records of [crates/resource-governor/src/service.rs] seen as a finite
    map of stored resources, the writes of the service as operations on that
    map, the units leased on a scope as a sum over the leases, and what it means
    for the durable state to be governed: every account counts exactly the
    leases on its scope, and no counter exceeds its ceiling. *)

From Stdlib Require Import ZArith Lia String.
From stdpp Require Import base decidable countable gmap sorting option list.
From S2P Require Import Prelude RustStd Sha2 AgentTypes Json StateStoreCore ResourceModel ResourceGovernor.

Abbreviation Durable := (gmap EntityId StoredResource).

(** ** Records and stored resources *)

Section durable.
Context `{HU : Ulid, HC : ResourceCodec}.

(** The law of the derived codec: what was written is read back from the
    canonical form, and a stored resource is a document without floats and
    within the parser's limits. *)
Definition codec_lawful : Prop :=
  forall x v, resource_to_value x = Ok v ->
    distinct_keys v /\ readable v = true /\ resource_from_value (sort_json_value v) = Ok x.

Definition stored_as (r : VersionedRecord) (x : StoredResource) : Prop :=
  resource_from_value (rec_payload r) = Ok x
  /\ stored_id x = rec_id r /\ stored_revision x = rec_revision r.

Definition durable (recs : Records) (D : Durable) : Prop :=
  forall id, option_Forall2 (fun r x => rec_id r = id /\ stored_as r x)
               (recs !! (ResourceGovernance, id)) (D !! id).

(** ** Writes *)

Inductive write :=
| WPut (x : StoredResource) (precondition : WritePrecondition)
| WDelete (id : EntityId) (precondition : WritePrecondition).

Definition revision_admitted (current : option Revision) (revision : Revision) (p : WritePrecondition)
  : bool :=
  precondition_holds current p &&
  match current with
  | Some old => (revision_get old <? revision_get revision)%Z
  | None => true
  end.

Definition write_step (D : Durable) (w : write) : option Durable :=
  match w with
  | WPut x p =>
      if revision_admitted (stored_revision <$> D !! stored_id x) (stored_revision x) p
      then Some (<[stored_id x := x]> D) else None
  | WDelete id p =>
      if precondition_holds (stored_revision <$> D !! id) p then Some (delete id D) else None
  end.

Fixpoint write_steps (D : Durable) (ws : list write) : option Durable :=
  match ws with
  | [] => Some D
  | w :: ws => D' ← write_step D w; write_steps D' ws
  end.

(** The mutation that a write is sent to the repository as. *)
Inductive encodes : write -> RecordMutation -> Prop :=
| encodes_put x now p payload :
    resource_to_value x = Ok payload -> is_i64 (unix_millis now) ->
    id_canonical (stored_id x) -> is_u64 (revision_get (stored_revision x)) ->
    encodes (WPut x p)
      (Put ResourceGovernance
         (MkVersionedRecord CURRENT_SCHEMA_VERSION (stored_id x) (stored_revision x) now payload) p)
| encodes_delete id p : encodes (WDelete id p) (Delete ResourceGovernance id p).

Lemma encodes_wf w m : codec_lawful -> encodes w m -> wf_mutation m.
Proof.
  intros Hlaw [x now p v Hv Hnow Hid Hrev|id p]; [|done].
  destruct (Hlaw _ _ Hv) as (Hd & Hread & _).
  split; [done|]. do 2 (split; [simpl; unfold u16_max; lia|]). done.
Qed.

Lemma encodes_all_wf ws ms : codec_lawful -> Forall2 encodes ws ms -> Forall wf_mutation ms.
Proof. intros Hlaw. induction 1; constructor; eauto using encodes_wf. Qed.

Lemma durable_revision recs D id :
  durable recs D -> rec_revision <$> recs !! (ResourceGovernance, id) = stored_revision <$> D !! id.
Proof. intros Hd. destruct (Hd id) as [r x (_ & _ & _ & Hrev)|]; simpl; congruence. Qed.

Lemma write_step_spec recs D w m :
  codec_lawful -> durable recs D -> encodes w m ->
  option_Forall2 durable (spec_mutation recs m) (write_step D w).
Proof.
  intros Hlaw Hd [x now p v Hv Hnow Hid Hrev|id p]; unfold spec_mutation; simpl.
  - unfold put_admitted. simpl. rewrite (durable_revision recs D) by done.
    unfold revision_admitted. destruct (_ && _)%bool; constructor.
    intros i. destruct (decide (i = stored_id x)) as [->|Hne].
    + rewrite !lookup_insert_eq. constructor. split; [done|].
      destruct (Hlaw _ _ Hv) as (_ & _ & Hback). done.
    + rewrite !lookup_insert_ne by congruence. apply Hd.
  - rewrite (durable_revision recs D) by done. destruct (precondition_holds _ p); constructor.
    intros i. destruct (decide (i = id)) as [->|Hne].
    + rewrite !lookup_delete_eq. constructor.
    + rewrite !lookup_delete_ne by congruence. apply Hd.
Qed.

(** The specification of the repository and the writes agree, refusals included. *)
Lemma write_steps_spec ws ms recs D :
  codec_lawful -> durable recs D -> Forall2 encodes ws ms ->
  option_Forall2 durable (spec_mutations recs ms) (write_steps D ws).
Proof.
  intros Hlaw Hd Hws. revert recs D Hd.
  induction Hws as [|w m ws ms Hwm Hws IH]; intros recs D Hd; simpl; [by constructor|].
  destruct (write_step_spec recs D w m Hlaw Hd Hwm) as [recs1 D1 Hd1|]; simpl; [by apply IH|constructor].
Qed.

Lemma write_steps_app D ws vs : write_steps D (ws ++ vs) = D' ← write_steps D ws; write_steps D' vs.
Proof.
  revert D. induction ws as [|w ws IH]; intros D; simpl; [done|].
  destruct (write_step D w); simpl; auto.
Qed.
End durable.

(** ** Leased units *)

Definition on_key (k : Key) (q : AcquireRequest) : bool :=
  bool_decide (req_resource q = k.2 /\ k.1 ∈ scopes (req_path q)).

Definition contribution (k : Key) (x : StoredResource) : Z :=
  match x with
  | SLease l => if on_key k (lease_request l) then req_units (lease_request l) else 0
  | _ => 0
  end.

(** The units that the leases of [D] hold on a scope and resource. *)
Definition leased (D : Durable) (k : Key) : Z := map_fold (fun _ x n => contribution k x + n)%Z 0%Z D.

Definition contribution_at (D : Durable) (k : Key) (id : EntityId) : Z :=
  match D !! id with Some x => contribution k x | None => 0 end.

Lemma leased_insert_fresh D k i x :
  D !! i = None -> leased (<[i := x]> D) k = (contribution k x + leased D k)%Z.
Proof.
  intros Hi. unfold leased. apply (map_fold_insert_L (fun _ x n => contribution k x + n)%Z); [|done].
  intros. lia.
Qed.

Lemma leased_delete D k i : leased (delete i D) k = (leased D k - contribution_at D k i)%Z.
Proof.
  unfold contribution_at. destruct (D !! i) as [x|] eqn:Hi.
  - rewrite <- (insert_delete_id D i x) at 2 by done.
    rewrite leased_insert_fresh by apply lookup_delete_eq. lia.
  - rewrite delete_id by done. lia.
Qed.

Lemma leased_insert D k i x :
  leased (<[i := x]> D) k = (leased D k - contribution_at D k i + contribution k x)%Z.
Proof.
  rewrite <- insert_delete_eq. rewrite leased_insert_fresh by apply lookup_delete_eq.
  rewrite leased_delete. lia.
Qed.

Lemma leased_zero D k :
  (forall id x, D !! id = Some x -> contribution k x = 0%Z) -> leased D k = 0%Z.
Proof.
  intros Hz. unfold leased.
  apply (map_fold_weak_ind (fun n m => (forall id x, m !! id = Some x -> contribution k x = 0%Z) -> n = 0%Z));
    [done| |done].
  intros i x m n Hi IH Hm. rewrite (Hm i x) by apply lookup_insert_eq. rewrite IH; [lia|].
  intros id y Hy. apply (Hm id). rewrite lookup_insert_ne; [done|]. intros ->. congruence.
Qed.

Lemma leased_nonneg D k :
  (forall id l, D !! id = Some (SLease l) -> (0 <= req_units (lease_request l))%Z) -> (0 <= leased D k)%Z.
Proof.
  intros Hz. unfold leased.
  apply (map_fold_weak_ind (fun n m =>
    (forall id l, m !! id = Some (SLease l) -> (0 <= req_units (lease_request l))%Z) -> (0 <= n)%Z));
    [done| |done].
  intros i x m n Hi IH Hm. assert (0 <= n)%Z.
  { apply IH. intros id l Hl. apply (Hm id). rewrite lookup_insert_ne; [done|]. intros ->. congruence. }
  assert (0 <= contribution k x)%Z; [|lia].
  destruct x as [| |l]; simpl; try lia. destruct (on_key _ _); [|lia]. apply (Hm i), lookup_insert_eq.
Qed.

(** A lease on the key is counted. *)
Lemma leased_at_least D k id l :
  (forall id l, D !! id = Some (SLease l) -> (0 <= req_units (lease_request l))%Z) ->
  D !! id = Some (SLease l) -> on_key k (lease_request l) = true ->
  (req_units (lease_request l) <= leased D k)%Z.
Proof.
  intros Hz Hl Hk. pose proof (leased_delete D k id) as Hd. unfold contribution_at in Hd.
  rewrite Hl in Hd. simpl in Hd. rewrite Hk in Hd.
  assert (0 <= leased (delete id D) k)%Z; [|lia].
  apply leased_nonneg. intros id' l' Hl'. apply (Hz id').
  destruct (decide (id = id')) as [->|]; [by rewrite lookup_delete_eq in Hl'|].
  by rewrite lookup_delete_ne in Hl'.
Qed.

(** ** Writing accounts *)

Definition put_account (D : Durable) (a : Account) : Durable := <[acc_id a := SAccount a]> D.
Definition put_accounts (D : Durable) (as_ : list Account) : Durable := foldl put_account D as_.

Definition is_lease (x : StoredResource) : bool := match x with SLease _ => true | _ => false end.

Lemma put_accounts_other D as_ id : id ∉ acc_id <$> as_ -> put_accounts D as_ !! id = D !! id.
Proof.
  revert D. induction as_ as [|a as_ IH]; intros D Hni; simpl; [done|]. csimpl in Hni.
  apply not_elem_of_cons in Hni as [Hne Hni]. change (put_accounts (put_account D a) as_ !! id = D !! id).
  rewrite IH by done. unfold put_account. by rewrite lookup_insert_ne by congruence.
Qed.

Lemma put_accounts_in D as_ a :
  NoDup (acc_id <$> as_) -> a ∈ as_ -> put_accounts D as_ !! acc_id a = Some (SAccount a).
Proof.
  revert D. induction as_ as [|b as_ IH]; intros D Hnd Hin; [by apply elem_of_nil in Hin|].
  csimpl in Hnd. apply NoDup_cons in Hnd as [Hni Hnd]. apply elem_of_cons in Hin as [->|Hin].
  - change (put_accounts (put_account D b) as_ !! acc_id b = Some (SAccount b)).
    rewrite put_accounts_other by done. apply lookup_insert_eq.
  - by apply IH.
Qed.

Lemma leased_put_accounts D as_ k :
  (forall a x, a ∈ as_ -> D !! acc_id a = Some x -> is_lease x = false) ->
  leased (put_accounts D as_) k = leased D k.
Proof.
  revert D. induction as_ as [|a as_ IH]; intros D Hold; simpl; [done|].
  change (leased (put_accounts (put_account D a) as_) k = leased D k). rewrite IH.
  - unfold put_account. rewrite leased_insert. simpl. unfold contribution_at.
    destruct (D !! acc_id a) as [x|] eqn:Hx; [|lia].
    assert (is_lease x = false) by (eapply Hold; [|exact Hx]; by left). destruct x; simpl; done || lia.
  - intros b x Hb. unfold put_account. destruct (decide (acc_id a = acc_id b)) as [->|Hne].
    + rewrite lookup_insert_eq. by intros [= <-].
    + rewrite lookup_insert_ne by done. intros Hx. eapply Hold; [|exact Hx]. by right.
Qed.
