(* ===== verification/GovernorInvariant.v ===== *)
(** * The invariant of the governor and the writes that keep it

    [governed] is the invariant of the durable state, [evolves] the relation
    that every write of every governor keeps (the guarantee each process gives
    and relies on), [coherent] what a cached state still knows about a durable
    state that has moved on.  The lemmas of this file show, for the write sets
    of granting, releasing, refreshing and accounting, that a batch computed
    from a stale cache is either refused by its preconditions or keeps the
    invariant. *)

From Stdlib Require Import ZArith Lia String.
From stdpp Require Import base decidable countable gmap sorting option list.
From S2P Require Import Prelude RustStd Sha2 AgentTypes Json StateStoreCore ResourceModel ResourceGovernor.
From S2P Require Import GovernorDurable.

(** The three kinds of identifiers in the collection of the governor. *)
Inductive IdSpace := AccountSpace | RequestSpace | LeaseSpace.

Section invariant.
Context {S : Type} `{HR : Repository S, HU : Ulid, HJ : SerdeJson, HC : ResourceCodec, HH : Sha256}.
(** The scopes in use, and which identifiers name what. *)
Context (in_play : ResourceScope -> Prop) (id_space : EntityId -> IdSpace).
Context (pol : ResourcePolicy).

Abbreviation acct_id := (@account_id S HR HU HJ HC HH).

(** Identifiers do not collide: the digests of the scopes in use are pairwise
    distinct and are not used as request or lease identifiers. *)
Record ids_apart : Prop := {
  account_id_inj : forall s r s' r' i, in_play s -> in_play s' ->
    acct_id s r = Ok i -> acct_id s' r' = Ok i -> s = s' /\ r = r';
  account_id_space : forall s r i, in_play s -> acct_id s r = Ok i -> id_space i = AccountSpace
}.

Record wf_request (q : AcquireRequest) : Prop := {
  request_canonical : id_canonical (req_id q);
  request_space : id_space (req_id q) = RequestSpace;
  request_path : wf_path (req_path q);
  request_in_play : Forall in_play (scopes (req_path q));
  request_concurrency : is_concurrency (req_resource q) = true;
  request_units : (0 < req_units q <= u64_max)%Z
}.

Definition account_at (D : Durable) (k : Key) : option Account :=
  match acct_id k.1 k.2 with
  | Ok i => match D !! i with Some (SAccount a) => Some a | _ => None end
  | Err _ => None
  end.

Definition lease_at (D : Durable) (id : EntityId) : option ResourceLease :=
  match D !! id with Some (SLease l) => Some l | _ => None end.

Definition account_key (a : Account) : Key := (acc_scope a, acc_resource a).

(** The counter that a ceiling bounds. *)
Definition bounded_counter (a : Account) : Z := counter (is_concurrency (acc_resource a)) a.

Record wf_account (id : EntityId) (a : Account) : Prop := {
  account_named : acct_id (acc_scope a) (acc_resource a) = Ok id;
  account_self : acc_id a = id;
  account_in_play : in_play (acc_scope a);
  account_consumed : is_u64 (acc_consumed a);
  account_active : is_u64 (acc_active a);
  account_revision : is_u64 (revision_get (acc_revision a))
}.

Record wf_lease (id : EntityId) (l : ResourceLease) : Prop := {
  lease_self : lease_id l = id;
  lease_canonical : id_canonical id;
  lease_space : id_space id = LeaseSpace;
  lease_wf_request : wf_request (lease_request l);
  lease_u64 : is_u64 (revision_get (lease_revision l))
}.

Record wf_pending (id : EntityId) (p : Pending) : Prop := {
  pending_self : req_id (pend_request p) = id;
  pending_wf_request : wf_request (pend_request p);
  pending_u64 : is_u64 (revision_get (pend_revision p))
}.

Record governed (D : Durable) : Prop := {
  governed_account : forall id a, D !! id = Some (SAccount a) -> wf_account id a;
  governed_pending : forall id p, D !! id = Some (SPending p) -> wf_pending id p;
  governed_lease : forall id l, D !! id = Some (SLease l) -> wf_lease id l;
  governed_backed : forall id l scope, D !! id = Some (SLease l) ->
    scope ∈ scopes (req_path (lease_request l)) ->
    is_Some (account_at D (scope, req_resource (lease_request l)));
  governed_active : forall id a, D !! id = Some (SAccount a) -> acc_active a = leased D (account_key a);
  governed_ceiling : forall id a c, D !! id = Some (SAccount a) ->
    ceiling pol (acc_scope a) (acc_resource a) = Some c -> (bounded_counter a <= ceiling_maximum c)%Z
}.

(** ** The relation between durable states *)

Definition account_forward (a b : Account) : Prop :=
  b = a \/ (revision_get (acc_revision a) < revision_get (acc_revision b))%Z.

Definition lease_forward (l m : ResourceLease) : Prop :=
  m = l \/ ((revision_get (lease_revision l) < revision_get (lease_revision m))%Z
            /\ lease_request m = lease_request l).

Definition account_advanced (D D' : Durable) (k : Key) : Prop :=
  exists a b, account_at D k = Some a /\ account_at D' k = Some b
    /\ (revision_get (acc_revision a) < revision_get (acc_revision b))%Z.

(** A durable state with the identifiers that were ever given to a lease. *)
Abbreviation Ghost := (Durable * gset EntityId)%type.

Record evolves (G G' : Ghost) : Prop := {
  evolves_used : G.2 ⊆ G'.2;
  evolves_account : forall k a, account_at G.1 k = Some a ->
    exists b, account_at G'.1 k = Some b /\ account_forward a b;
  evolves_no_reuse : forall id m, id ∈ G.2 -> lease_at G'.1 id = Some m ->
    exists l, lease_at G.1 id = Some l /\ lease_forward l m;
  evolves_lease : forall id l, lease_at G.1 id = Some l ->
    is_Some (lease_at G'.1 id)
    \/ forall scope, scope ∈ scopes (req_path (lease_request l)) ->
       account_advanced G.1 G'.1 (scope, req_resource (lease_request l))
}.

#[export] Instance account_forward_preorder : PreOrder account_forward.
Proof.
  split; [by left|]. intros a b c [->|?] [->|?]; try (by left); right; lia.
Qed.
#[export] Instance lease_forward_preorder : PreOrder lease_forward.
Proof.
  split; [by left|]. intros a b c [->|[? ?]] [->|[? ?]]; [by left|by right|by right|].
  right. split; [lia|congruence].
Qed.

Lemma account_advanced_l D D1 D2 k :
  account_advanced D D1 k ->
  (forall k a, account_at D1 k = Some a -> exists b, account_at D2 k = Some b /\ account_forward a b) ->
  account_advanced D D2 k.
Proof.
  intros (a & b & Ha & Hb & Hlt) Hfw. destruct (Hfw _ _ Hb) as (c & Hc & Hbc).
  exists a, c. split; [done|]. split; [done|]. destruct Hbc as [->|?]; lia.
Qed.

Lemma account_advanced_r D D1 D2 k :
  (forall k a, account_at D k = Some a -> exists b, account_at D1 k = Some b /\ account_forward a b) ->
  is_Some (account_at D k) -> account_advanced D1 D2 k -> account_advanced D D2 k.
Proof.
  intros Hfw [a Ha] (b & c & Hb & Hc & Hlt). destruct (Hfw _ _ Ha) as (b' & Hb' & Hab).
  rewrite Hb in Hb'. injection Hb' as <-. exists a, c. split; [done|]. split; [done|].
  destruct Hab as [->|?]; lia.
Qed.

Lemma evolves_refl G : evolves G G.
Proof.
  split; [done| | |].
  - intros k a Ha. exists a. split; [done|reflexivity].
  - intros id m _ Hm. exists m. split; [done|reflexivity].
  - intros id l Hl. left. by eexists.
Qed.

Lemma lease_at_Some D id l : lease_at D id = Some l <-> D !! id = Some (SLease l).
Proof. unfold lease_at. destruct (D !! id) as [[]|]; split; congruence. Qed.

Lemma evolves_trans G1 G2 G3 :
  governed G1.1 -> (forall id l, lease_at G1.1 id = Some l -> id ∈ G1.2) ->
  evolves G1 G2 -> evolves G2 G3 -> evolves G1 G3.
Proof.
  intros HG Hu [U12 A12 N12 L12] [U23 A23 N23 L23]. split.
  - set_solver.
  - intros k a Ha. destruct (A12 k a Ha) as (b & Hb & Hab). destruct (A23 k b Hb) as (c & Hc & Hbc).
    exists c. split; [done|]. by etransitivity.
  - intros id m Hid Hm. destruct (N23 id m) as (l2 & Hl2 & H23); [set_solver|done|].
    destruct (N12 id l2 Hid Hl2) as (l1 & Hl1 & H12). exists l1. split; [done|]. by etransitivity.
  - intros id l Hl. destruct (L12 id l Hl) as [[l2 Hl2]|Hadv].
    + destruct (L23 id l2 Hl2) as [?|Hadv]; [by left|]. right. intros scope Hin.
      destruct (N12 id l2 (Hu _ _ Hl) Hl2) as (l' & Hl' & Hfw). rewrite Hl in Hl'. injection Hl' as <-.
      assert (lease_request l2 = lease_request l) as Hreq by (destruct Hfw as [->|[_ ?]]; done).
      rewrite Hreq in Hadv. eapply account_advanced_r; [exact A12| |by apply Hadv].
      eapply governed_backed; [done|by apply lease_at_Some|done].
    + right. intros scope Hin. eapply account_advanced_l; [by apply Hadv|exact A23].
Qed.

Lemma account_at_Some D k a :
  account_at D k = Some a <-> exists i, acct_id k.1 k.2 = Ok i /\ D !! i = Some (SAccount a).
Proof.
  unfold account_at. destruct (acct_id k.1 k.2) as [i|]; [|split; [done|by intros (? & ? & _)]].
  split.
  - intros Ha. exists i. split; [done|]. by destruct (D !! i) as [[]|]; simplify_eq.
  - intros (j & [= <-] & ->). done.
Qed.

(** ** Cached states *)

(** The account of the durable state has moved past the cached one. *)
Definition outdated (st : State) (D : Durable) (k : Key) : Prop :=
  exists b, account_at D k = Some b
    /\ forall a, accounts st !! k = Some a ->
         (revision_get (acc_revision a) < revision_get (acc_revision b))%Z.

Record coherent (st : State) (G : Ghost) : Prop := {
  coherent_account : forall k a, accounts st !! k = Some a ->
    account_key a = k /\ wf_account (acc_id a) a
    /\ exists b, account_at G.1 k = Some b /\ account_forward a b;
  coherent_pending : forall id p, pending st !! id = Some p -> wf_pending id p;
  coherent_lease : forall id l, leases st !! id = Some l ->
    wf_lease id l /\ id ∈ G.2
    /\ (forall m, lease_at G.1 id = Some m -> lease_forward l m)
    /\ (is_Some (lease_at G.1 id)
        \/ exists scope, scope ∈ scopes (req_path (lease_request l))
             /\ outdated st G.1 (scope, req_resource (lease_request l)))
}.

Lemma path_has_installation p : wf_path p -> Installation ∈ scopes p.
Proof. intros [Hr _ _]. destruct (scopes p); simplify_eq/=. by left. Qed.

Lemma lease_forward_request l m : lease_forward l m -> lease_request m = lease_request l.
Proof. by intros [->|[_ ?]]. Qed.

(** A cached state stays coherent while other processes write. *)
Lemma coherent_evolves st G G' : coherent st G -> evolves G G' -> coherent st G'.
Proof.
  intros [CA CP CL] [U A N L]. split; [|done|].
  - intros k a Ha. destruct (CA k a Ha) as (? & ? & b & Hb & Hab). destruct (A k b Hb) as (c & Hc & Hbc).
    split; [done|]. split; [done|]. exists c. split; [done|]. by etransitivity.
  - intros id l Hl. destruct (CL id l Hl) as (Hwf & Hid & Hm & Hor).
    split; [done|]. split; [set_solver|]. split.
    { intros m Hm'. destruct (N id m Hid Hm') as (l1 & Hl1 & Hfw). etransitivity; [by apply Hm|done]. }
    destruct Hor as [[l1 Hl1]|(scope & Hin & b & Hb & Hout)].
    + destruct (L id l1 Hl1) as [?|Hadv]; [by left|]. right.
      rewrite (lease_forward_request l l1) in Hadv by auto. exists Installation.
      assert (Installation ∈ scopes (req_path (lease_request l))) as Hi
        by apply path_has_installation, (lease_wf_request _ _ Hwf).
      split; [done|]. destruct (Hadv _ Hi) as (b & c & Hb & Hc & Hlt). exists c. split; [done|].
      intros a Ha. destruct (CA _ a Ha) as (_ & _ & b' & Hb' & [->|?]); simplify_eq; lia.
    + right. exists scope. split; [done|]. destruct (A _ b Hb) as (c & Hc & Hbc).
      exists c. split; [done|]. intros a Ha. specialize (Hout a Ha). destruct Hbc as [->|?]; lia.
Qed.

(** ** Account batches *)

(** The account a batch writes for a scope: the cached one, or a new one, with
    [dc] consumed and [da] active units added. *)
Definition account_next (st : State) (resource : ResourceKind) (dc da : Z) (scope : ResourceScope)
    (a : Account) : Prop :=
  account_key a = (scope, resource) /\ wf_account (acc_id a) a
  /\ match accounts st !! (scope, resource) with
     | Some cur =>
         revision_get (acc_revision a) = (revision_get (acc_revision cur) + 1)%Z
         /\ acc_consumed a = (acc_consumed cur + dc)%Z /\ acc_active a = (acc_active cur + da)%Z
     | None => acc_revision a = Revision_ZERO /\ acc_consumed a = dc /\ acc_active a = da
     end.

Definition cached_precondition (st : State) (k : Key) : WritePrecondition :=
  match accounts st !! k with Some cur => PreExact (acc_revision cur) | None => PreMissing end.

Definition account_write (st : State) (a : Account) : write :=
  WPut (SAccount a) (cached_precondition st (account_key a)).

Lemma fold_be_bound bytes acc n :
  Forall (fun x => 0 <= x < 256)%Z bytes -> (0 <= acc < 256 ^ n)%Z -> (0 <= n)%Z ->
  (0 <= fold_left (fun a b => a * 256 + b)%Z bytes acc < 256 ^ (n + Z.of_nat (length bytes)))%Z.
Proof.
  revert acc n. induction bytes as [|b bytes IH]; intros acc n Hb Hacc Hn; simpl.
  - by rewrite Z.add_0_r.
  - apply Forall_cons in Hb as [Hb Hbs].
    replace (n + Z.of_nat (Datatypes.S (length bytes)))%Z with ((n + 1) + Z.of_nat (length bytes))%Z by lia.
    apply IH; [done| |lia]. rewrite Z.pow_add_r by lia. lia.
Qed.

Lemma account_id_canonical scope resource i : acct_id scope resource = Ok i -> id_canonical i.
Proof.
  unfold account_id. destruct (key_to_value _) as [v|]; [|done]. cbn [map_err mbind result_bind].
  destruct (canonical_json_bytes v) as [bytes|]; [|done]. cbn [map_err mbind result_bind].
  generalize (account_prefix ++ bytes). intros input [= <-]. eexists. split; [|done].
  pose proof (fold_be_bound (take 16 (sha256 input)) 0 0) as Hb.
  rewrite length_take_le in Hb by (rewrite sha256_length; lia).
  apply Hb; [|lia..]. apply Forall_take, sha256_bytes.
Qed.

Lemma put_mutation_encodes x now p m :
  put_mutation (stored_id x) x (stored_revision x) now p = (Ok m : result (ResourceError (@repo_error S HR) JsonError) _) ->
  is_i64 (unix_millis now) -> id_canonical (stored_id x) -> is_u64 (revision_get (stored_revision x)) ->
  encodes (WPut x p) m.
Proof. unfold put_mutation. intros Hm. res_inv. by constructor. Qed.

(** The two loops that build batches append one account and one mutation per scope. *)
Lemma batch_fold {Err} (f : list (Key * Account) * list RecordMutation -> ResourceScope ->
      result Err (list (Key * Account) * list RecordMutation))
    (P : ResourceScope -> Account -> Prop) (W : Account -> write) ss b b' :
  (forall b scope b', scope ∈ ss -> f b scope = Ok b' ->
     exists a m, b' = (b.1 ++ [(account_key a, a)], b.2 ++ [m]) /\ P scope a /\ encodes (W a) m) ->
  try_fold f b ss = Ok b' ->
  exists l ms, b' = (b.1 ++ ((fun a => (account_key a, a)) <$> l), b.2 ++ ms)
    /\ Forall2 P ss l /\ Forall2 encodes (W <$> l) ms.
Proof.
  revert b. induction ss as [|scope ss IH]; intros b Hf Hb; simpl in Hb.
  - res_inv. exists [], []. simpl. rewrite !app_nil_r. destruct b'. split; [done|]. split; constructor.
  - destruct (f b scope) as [b1|] eqn:E1; [|done].
    destruct (Hf b scope b1) as (a & m & -> & HP & He); [by left|done|].
    destruct (IH _ ltac:(intros; eapply Hf; [by right|done]) Hb) as (l & ms & -> & HPs & Hes).
    exists (a :: l), (m :: ms). simpl. rewrite <- !app_assoc. split; [done|].
    split; by constructor.
Qed.

Abbreviation Error := (ResourceError (@repo_error S HR) JsonError).

Lemma account_update_spec st resource units active now b scope b' :
  (forall k a, accounts st !! k = Some a -> account_key a = k /\ wf_account (acc_id a) a) ->
  in_play scope -> (0 <= units)%Z -> is_i64 (unix_millis now) ->
  account_update st resource units active now b scope = (Ok b' : result Error _) ->
  exists a m, b' = (b.1 ++ [(account_key a, a)], b.2 ++ [m])
    /\ account_next st resource (if active then 0 else units)%Z (if active then units else 0)%Z scope a
    /\ encodes (account_write st a) m.
Proof.
  intros Hst Hplay Hunits Hnow Hu. unfold account_update in Hu.
  destruct (acct_id scope resource) as [i|] eqn:Ei; simpl in Hu; [|done].
  set (cur := accounts st !! (scope, resource)) in *.
  set (acc := default (MkAccount i scope resource 0 0 Revision_ZERO now) cur) in *.
  assert (account_key acc = (scope, resource) /\ wf_account (acc_id acc) acc) as [Hkey Hwf].
  { destruct cur as [a|] eqn:Ecur; simpl in *; [by apply Hst|]. split; [done|].
    split; simpl; try done; unfold is_u64, u64_max; lia. }
  assert (acc_id acc = i) as Hid.
  { pose proof (account_named _ _ Hwf) as Hn. unfold account_key in Hkey. injection Hkey as Hs Hr.
    rewrite Hs, Hr, Ei in Hn. by injection Hn. }
  destruct (match cur with Some _ => _ | None => _ end) as [[rev p]|] eqn:Er; simpl in Hu; [|done].
  destruct (if active then _ else _) as [[consumed act]|] eqn:Ec; simpl in Hu; [|done].
  destruct (put_mutation _ _ _ _ _) as [m|] eqn:Em; simpl in Hu; [|done]. injection Hu as <-.
  set (next := MkAccount _ _ _ consumed act rev now) in *. exists next, m.
  assert (account_key next = (scope, resource)) as Hnk by done. split; [by rewrite Hnk|].
  destruct Hwf as [Hn _ Hp [Hc0 Hc1] [Ha0 Ha1] [Hr0 Hr1]].
  assert (is_u64 consumed /\ is_u64 act /\ consumed = (acc_consumed acc + if active then 0 else units)%Z
          /\ act = (acc_active acc + if active then units else 0)%Z) as (Hcu & Hau & Hceq & Haeq).
  { destruct active; destruct (u64_checked_add _ _) as [t|] eqn:Ea; try done; injection Ec as <- <-;
      apply u64_checked_add_Some in Ea as [-> ?]; unfold is_u64; repeat split; lia. }
  assert (is_u64 (revision_get rev) /\ p = cached_precondition st (scope, resource)
          /\ match cur with
             | Some a => revision_get rev = (revision_get (acc_revision a) + 1)%Z
             | None => rev = Revision_ZERO
             end) as (Hru & -> & Hreq).
  { unfold cached_precondition. fold cur. destruct cur as [a|] eqn:Ecur; simpl in *.
    - destruct (checked_next _) as [rev1|] eqn:En; [|done]. injection Er as <- <-.
      apply checked_next_Some in En as [En En']. unfold is_u64. rewrite En. unfold acc in Hr0. repeat split; first [done|lia].
    - injection Er as <- <-. unfold is_u64, u64_max. simpl. repeat split; first [done|lia]. }
  split.
  - split; [done|]. split; [by split|]. fold cur. unfold next. simpl. rewrite Hceq, Haeq.
    destruct cur; simpl in *; [done|]. by rewrite !Z.add_0_l.
  - unfold account_write. rewrite Hnk.
    apply (put_mutation_encodes (SAccount next) now); [exact Em|done| |done].
    simpl. rewrite Hid. by eapply account_id_canonical.
Qed.

Lemma account_updates_spec st path resource units active now ups ms :
  (forall k a, accounts st !! k = Some a -> account_key a = k /\ wf_account (acc_id a) a) ->
  Forall in_play (scopes path) -> (0 <= units)%Z -> is_i64 (unix_millis now) ->
  account_updates st path resource units active now = (Ok (ups, ms) : result Error _) ->
  exists l, ups = (fun a => (account_key a, a)) <$> l
    /\ Forall2 (account_next st resource (if active then 0 else units)%Z (if active then units else 0)%Z)
         (scopes path) l
    /\ Forall2 encodes (account_write st <$> l) ms.
Proof.
  intros Hst Hplay Hunits Hnow Hu. unfold account_updates in Hu.
  eapply (batch_fold _ _ (account_write st)) in Hu as (l & ms' & Heq & HP & He).
  - injection Heq as -> ->. by exists l.
  - intros b scope b' Hin Hf. eapply account_update_spec; try done.
    rewrite Forall_forall in Hplay. auto.
Qed.

Lemma release_account_spec st lease now b scope b' :
  (forall k a, accounts st !! k = Some a -> account_key a = k /\ wf_account (acc_id a) a) ->
  is_i64 (unix_millis now) -> (0 <= req_units (lease_request lease))%Z ->
  release_account st lease now b scope = (Ok b' : result Error _) ->
  exists a m, b' = (b.1 ++ [(account_key a, a)], b.2 ++ [m])
    /\ (is_Some (accounts st !! (scope, req_resource (lease_request lease)))
        /\ account_next st (req_resource (lease_request lease)) 0 (- req_units (lease_request lease)) scope a)
    /\ encodes (account_write st a) m.
Proof.
  intros Hst Hnow Hunits Hu. unfold release_account in Hu.
  set (k := (scope, req_resource (lease_request lease))) in *.
  destruct (accounts st !! k) as [cur|] eqn:Ecur; simpl in Hu; [|done].
  destruct (Hst _ _ Ecur) as [Hkey Hwf].
  destruct (u64_checked_sub _ _) as [act|] eqn:Es; simpl in Hu; [|done].
  destruct (checked_next _) as [rev|] eqn:En; simpl in Hu; [|done].
  destruct (put_mutation _ _ _ _ _) as [m|] eqn:Em; simpl in Hu; [|done]. injection Hu as <-.
  set (next := MkAccount _ _ _ _ act rev now) in *. exists next, m.
  assert (account_key next = k) as Hnk by done. split; [by rewrite Hnk|].
  apply u64_checked_sub_Some in Es as [-> Hle]. apply checked_next_Some in En as [En En'].
  destruct Hwf as [Hn Hself Hp Hc [Ha0 Ha1] [Hr0 Hr1]].
  assert (is_u64 (revision_get rev)) as Hru by (unfold is_u64; lia).
  split; [split; [by eexists|]|].
  - split; [done|]. split; [split; simpl; try done; unfold is_u64; lia|].
    fold k. rewrite Ecur. unfold next. simpl. rewrite En. repeat split; lia.
  - unfold account_write, cached_precondition. rewrite Hnk, Ecur.
    apply (put_mutation_encodes (SAccount next) now); [exact Em|done| |done].
    simpl. eapply account_id_canonical. done.
Qed.

(** ** What a successful account batch does *)

Lemma account_writes_applied st l D D' :
  NoDup (acc_id <$> l) -> write_steps D (account_write st <$> l) = Some D' ->
  D' = put_accounts D l
  /\ forall a, a ∈ l -> revision_admitted (stored_revision <$> D !! acc_id a) (acc_revision a)
                         (cached_precondition st (account_key a)) = true.
Proof.
  revert D. induction l as [|a l IH]; intros D Hnd Hw; csimpl in *.
  { injection Hw as <-. split; [done|]. by intros a ?%elem_of_nil. }
  apply NoDup_cons in Hnd as [Hni Hnd].
  destruct (revision_admitted _ _ _) eqn:Ea; simpl in Hw; [|done].
  destruct (IH _ Hnd Hw) as [-> Hall]. split; [done|]. intros b Hb.
  apply elem_of_cons in Hb as [->|Hb]; [done|]. rewrite <- (Hall b Hb).
  rewrite lookup_insert_ne; [done|]. intros Heq. destruct Hni. rewrite Heq. by apply list_elem_of_fmap_2.
Qed.

Lemma nexts_scopes st resource dc da ss l :
  Forall2 (account_next st resource dc da) ss l -> acc_scope <$> l = ss.
Proof.
  induction 1 as [|scope a ss l (Hkey & _) _ IH]; csimpl; [done|].
  unfold account_key in Hkey. injection Hkey as -> _. by f_equal.
Qed.

Lemma nexts_elem st resource dc da ss l a :
  Forall2 (account_next st resource dc da) ss l -> a ∈ l ->
  acc_scope a ∈ ss /\ account_next st resource dc da (acc_scope a) a.
Proof.
  intros H2 Ha. split.
  - rewrite <- (nexts_scopes _ _ _ _ _ _ H2). by apply list_elem_of_fmap_2.
  - apply list_elem_of_lookup in Ha as [i Hi].
    destruct (Forall2_lookup_r _ _ _ _ _ H2 Hi) as (scope & _ & Hn).
    pose proof (proj1 Hn) as Hkey. unfold account_key in Hkey. injection Hkey as -> _. done.
Qed.

Lemma nexts_scope st resource dc da ss l scope :
  Forall2 (account_next st resource dc da) ss l -> scope ∈ ss ->
  exists a, a ∈ l /\ account_key a = (scope, resource).
Proof.
  intros H2 Hs. apply list_elem_of_lookup in Hs as [i Hi].
  destruct (Forall2_lookup_l _ _ _ _ _ H2 Hi) as (a & Ha & Hkey & _). exists a.
  split; [by eapply list_elem_of_lookup_2|done].
Qed.

Lemma nexts_distinct st resource dc da ss l :
  ids_apart -> NoDup ss -> Forall2 (account_next st resource dc da) ss l -> NoDup (acc_id <$> l).
Proof.
  intros Hap Hnd H2. pose proof (nexts_scopes _ _ _ _ _ _ H2) as Hss. rewrite <- Hss in Hnd.
  apply NoDup_fmap_2_strong; [|by eapply NoDup_fmap_1].
  intros a b Ha Hb Heq. destruct (nexts_elem _ _ _ _ _ _ _ H2 Ha) as [_ (_ & Hwa & _)].
  destruct (nexts_elem _ _ _ _ _ _ _ H2 Hb) as [_ (_ & Hwb & _)].
  destruct (account_id_inj Hap (acc_scope a) (acc_resource a) (acc_scope b) (acc_resource b) (acc_id a))
    as [Hs _]; [apply Hwa|apply Hwb|apply Hwa|rewrite Heq; apply Hwb|].
  apply list_elem_of_lookup in Ha as [i Hi], Hb as [j Hj].
  assert (i = j) as ->; [|congruence]. eapply NoDup_lookup; [exact Hnd|..].
  - rewrite list_lookup_fmap, Hi. done.
  - rewrite list_lookup_fmap, Hj. simpl. by rewrite Hs.
Qed.

(** A cached account that passes its precondition is the current one. *)
Lemma cached_fresh st G a :
  coherent st G -> wf_account (acc_id a) a ->
  revision_admitted (stored_revision <$> G.1 !! acc_id a) (acc_revision a)
    (cached_precondition st (account_key a)) = true ->
  G.1 !! acc_id a = SAccount <$> accounts st !! account_key a.
Proof.
  intros Hco Hwf Hadm. unfold revision_admitted, cached_precondition in Hadm. bool_inv.
  destruct (accounts st !! account_key a) as [cur|] eqn:Ecur; simpl in *; bool_inv.
  - destruct (coherent_account _ _ Hco _ _ Ecur) as (_ & _ & b & Hb & Hfw).
    apply account_at_Some in Hb as (i & Hi & Hb). simpl in Hi.
    rewrite (account_named _ _ Hwf) in Hi. injection Hi as <-. rewrite Hb in *. simpl in *.
    destruct Hfw as [->|Hlt]; [done|]. injection H as Hr. rewrite Hr in Hlt. lia.
  - by destruct (G.1 !! acc_id a).
Qed.

Lemma fresh_account_at st D a :
  wf_account (acc_id a) a -> D !! acc_id a = SAccount <$> accounts st !! account_key a ->
  account_at D (account_key a) = accounts st !! account_key a.
Proof.
  intros Hwf HD. unfold account_at. simpl. rewrite (account_named _ _ Hwf), HD.
  by destruct (accounts st !! _).
Qed.

(** The accounts [l] were written over the current ones and the rest of the
    accounts is as it was. *)
Record own_write (st : State) (l : list Account) (D D' : Durable) : Prop := {
  own_distinct : NoDup (acc_id <$> l);
  own_wf : forall a, a ∈ l -> wf_account (acc_id a) a;
  own_fresh : forall a, a ∈ l -> D !! acc_id a = SAccount <$> accounts st !! account_key a;
  own_newer : forall a, a ∈ l -> match accounts st !! account_key a with
    | Some cur => (revision_get (acc_revision cur) < revision_get (acc_revision a))%Z
    | None => True
    end;
  own_put : forall a, a ∈ l -> D' !! acc_id a = Some (SAccount a);
  own_other : forall id b, id ∉ acc_id <$> l ->
    D' !! id = Some (SAccount b) <-> D !! id = Some (SAccount b)
}.

Lemma own_account_in st l D D' a :
  own_write st l D D' -> a ∈ l -> account_at D' (account_key a) = Some a.
Proof.
  intros Hw Ha. apply account_at_Some. exists (acc_id a).
  split; [apply (own_wf _ _ _ _ Hw _ Ha)|by apply (own_put _ _ _ _ Hw)].
Qed.

Lemma own_account_other st l D D' k :
  ids_apart -> own_write st l D D' -> in_play k.1 -> k ∉ account_key <$> l ->
  account_at D' k = account_at D k.
Proof.
  intros Hap Hw Hplay Hk. apply option_eq. intros b. rewrite !account_at_Some.
  assert (forall i, acct_id k.1 k.2 = Ok i -> i ∉ acc_id <$> l) as Hi.
  { intros i Ei (a & -> & Ha)%list_elem_of_fmap. pose proof (own_wf _ _ _ _ Hw _ Ha) as Hwf.
    destruct Hk. apply list_elem_of_fmap. exists a. split; [|done]. unfold account_key.
    destruct (account_id_inj Hap k.1 k.2 (acc_scope a) (acc_resource a) (acc_id a)) as [<- <-];
      [done|apply Hwf|done|apply Hwf|]. by destruct k. }
  split; intros (i & Ei & Hb); exists i; (split; [done|]); by apply (own_other _ _ _ _ Hw i b (Hi i Ei)).
Qed.

Lemma own_write_forward st l D D' id a :
  own_write st l D D' -> D !! id = Some (SAccount a) ->
  exists b, D' !! id = Some (SAccount b) /\ account_forward a b.
Proof.
  intros Hw Ha. destruct (decide (id ∈ acc_id <$> l)) as [(b & -> & Hb)%list_elem_of_fmap|Hni].
  - exists b. split; [by apply (own_put _ _ _ _ Hw)|]. right.
    pose proof (own_fresh _ _ _ _ Hw b Hb) as Hf. pose proof (own_newer _ _ _ _ Hw b Hb) as Hn.
    rewrite Ha in Hf. destruct (accounts st !! account_key b) as [cur|]; simpl in Hf; [|done].
    injection Hf as ->. done.
  - exists a. split; [by apply (own_other _ _ _ _ Hw)|reflexivity].
Qed.

Lemma own_write_evolves_account st l D D' k a :
  own_write st l D D' -> account_at D k = Some a ->
  exists b, account_at D' k = Some b /\ account_forward a b.
Proof.
  intros Hw (i & Hi & Ha)%account_at_Some.
  destruct (own_write_forward _ _ _ _ _ _ Hw Ha) as (b & Hb & Hfw).
  exists b. split; [|done]. apply account_at_Some. eauto.
Qed.

(** A batch computed from a coherent cache either is refused or writes over
    current accounts. *)
Lemma account_batch_own st G resource dc da ss l D1 :
  ids_apart -> coherent st G -> NoDup ss -> Forall2 (account_next st resource dc da) ss l ->
  write_steps G.1 (account_write st <$> l) = Some D1 ->
  D1 = put_accounts G.1 l /\ own_write st l G.1 D1.
Proof.
  intros Hap Hco Hnd H2 Hw. pose proof (nexts_distinct _ _ _ _ _ _ Hap Hnd H2) as Hids.
  destruct (account_writes_applied st l _ _ Hids Hw) as [-> Hadm]. split; [done|].
  assert (forall a, a ∈ l -> wf_account (acc_id a) a) as Hwf.
  { intros a Ha. by destruct (nexts_elem _ _ _ _ _ _ _ H2 Ha) as [_ (_ & ? & _)]. }
  assert (forall a, a ∈ l -> G.1 !! acc_id a = SAccount <$> accounts st !! account_key a) as Hfresh.
  { intros a Ha. apply cached_fresh; auto. }
  split; auto.
  - intros a Ha. destruct (nexts_elem _ _ _ _ _ _ _ H2 Ha) as [_ (Hkey & _ & Hm)].
    rewrite Hkey. destruct (accounts st !! _); [lia|done].
  - intros a Ha. by apply put_accounts_in.
  - intros id b Hni. by rewrite put_accounts_other.
Qed.

Lemma own_lease_free st l D D' a x :
  own_write st l D D' -> a ∈ l -> D !! acc_id a = Some x -> is_lease x = false.
Proof.
  intros Hw Ha Hx. rewrite (own_fresh _ _ _ _ Hw a Ha) in Hx.
  destruct (accounts st !! _); simpl in Hx; [|done]. by injection Hx as <-.
Qed.

(** The other fields of the invariant, once the counters are right. *)
Lemma governed_own_write st l D D' :
  ids_apart -> governed D -> own_write st l D D' ->
  (forall id p, D' !! id = Some (SPending p) -> D !! id = Some (SPending p) \/ wf_pending id p) ->
  (forall id m, D' !! id = Some (SLease m) ->
     D !! id = Some (SLease m)
     \/ wf_lease id m /\ forall scope, scope ∈ scopes (req_path (lease_request m)) ->
          is_Some (account_at D' (scope, req_resource (lease_request m)))) ->
  (forall a, a ∈ l -> acc_active a = leased D' (account_key a)) ->
  (forall a c, a ∈ l -> ceiling pol (acc_scope a) (acc_resource a) = Some c ->
     (bounded_counter a <= ceiling_maximum c)%Z) ->
  (forall id b, D !! id = Some (SAccount b) -> id ∉ acc_id <$> l ->
     leased D' (account_key b) = leased D (account_key b)) ->
  governed D'.
Proof.
  intros Hap [GA GP GL GB GS GC] Hw HP HL Hact Hceil Hsame.
  assert (forall id b, D' !! id = Some (SAccount b) ->
            (b ∈ l /\ id = acc_id b) \/ (D !! id = Some (SAccount b) /\ id ∉ acc_id <$> l)) as Hcase.
  { intros id b Hb. destruct (decide (id ∈ acc_id <$> l)) as [(a & -> & Ha)%list_elem_of_fmap|Hni].
    - rewrite (own_put _ _ _ _ Hw a Ha) in Hb. injection Hb as <-. by left.
    - right. split; [by apply (own_other _ _ _ _ Hw)|done]. }
  split.
  - intros id a Ha. destruct (Hcase _ _ Ha) as [[Hin ->]|[Hold _]]; [by apply (own_wf _ _ _ _ Hw)|by apply GA].
  - intros id p Hp. destruct (HP _ _ Hp); [by apply GP|done].
  - intros id m Hm. destruct (HL _ _ Hm) as [?|[? _]]; [by apply GL|done].
  - intros id m scope Hm Hs. destruct (HL _ _ Hm) as [Hold|[_ Hb]]; [|by apply Hb].
    destruct (GB _ _ _ Hold Hs) as [a Ha].
    destruct (own_write_evolves_account _ _ _ _ _ _ Hw Ha) as (b & Hb & _). by eexists.
  - intros id a Ha. destruct (Hcase _ _ Ha) as [[Hin ->]|[Hold Hni]]; [by apply Hact|].
    rewrite (GS _ _ Hold). symmetry. by eapply Hsame.
  - intros id a c Ha. destruct (Hcase _ _ Ha) as [[Hin ->]|[Hold _]]; [by apply Hceil|by eapply GC].
Qed.

Definition space_of (x : StoredResource) : IdSpace :=
  match x with SAccount _ => AccountSpace | SPending _ => RequestSpace | SLease _ => LeaseSpace end.

Lemma governed_space D id x :
  ids_apart -> governed D -> D !! id = Some x -> id_space id = space_of x.
Proof.
  intros Hap HG Hx. destruct x as [a|p|l]; simpl.
  - destruct (governed_account _ HG _ _ Hx). by eapply (account_id_space Hap).
  - destruct (governed_pending _ HG _ _ Hx) as [<- Hq _]. by apply request_space.
  - by destruct (governed_lease _ HG _ _ Hx).
Qed.

Lemma own_space st l D D' id :
  ids_apart -> own_write st l D D' -> id ∈ acc_id <$> l -> id_space id = AccountSpace.
Proof.
  intros Hap Hw (a & -> & Ha)%list_elem_of_fmap. destruct (own_wf _ _ _ _ Hw a Ha).
  by eapply (account_id_space Hap).
Qed.

(** Records other than accounts may change along with the batch. *)
Lemma own_write_extend st l D D1 D' :
  own_write st l D D1 ->
  (forall id b, D' !! id = Some (SAccount b) <-> D1 !! id = Some (SAccount b)) -> own_write st l D D'.
Proof.
  intros [Hd Hw Hf Hn Hp Ho] Hs. split; auto.
  - intros a Ha. by apply Hs, Hp.
  - intros id b Hni. rewrite Hs. by apply Ho.
Qed.

(** Nothing is leased where there is no account. *)
Lemma leased_unbacked D k : governed D -> account_at D k = None -> leased D k = 0%Z.
Proof.
  intros HG Hk. apply leased_zero. intros id x Hx. destruct x as [| |l]; try done. simpl.
  destruct (on_key k (lease_request l)) eqn:Eo; [|done]. unfold on_key in Eo. bool_inv.
  destruct Eo as [Hr Hs]. destruct (governed_backed _ HG _ _ _ Hx Hs) as [a Ha].
  rewrite Hr in Ha. destruct k. simpl in *. congruence.
Qed.

(** The counter a written account starts from is what is leased. *)
Lemma own_active st G l D' a resource dc da ss :
  governed G.1 -> coherent st G -> own_write st l G.1 D' ->
  Forall2 (account_next st resource dc da) ss l -> a ∈ l ->
  acc_active a = (leased G.1 (account_key a) + da)%Z.
Proof.
  intros HG Hco Hw H2 Ha. destruct (nexts_elem _ _ _ _ _ _ _ H2 Ha) as [_ (Hkey & Hwf & Hm)].
  pose proof (own_fresh _ _ _ _ Hw a Ha) as Hf. rewrite <- Hkey in Hm.
  pose proof (fresh_account_at _ _ _ Hwf Hf) as Hat.
  destruct (accounts st !! account_key a) as [cur|] eqn:Ecur; simpl in Hf.
  - destruct Hm as (_ & _ & ->). rewrite (governed_active _ HG _ _ Hf).
    by destruct (coherent_account _ _ Hco _ _ Ecur) as [-> _].
  - destruct Hm as (_ & _ & ->). rewrite leased_unbacked by done. lia.
Qed.

Lemma exhausted_None st path resource units active :
  exhausted_in st pol path resource units active = (Ok None : result Error _) ->
  forall scope c, scope ∈ path -> ceiling pol scope resource = Some c ->
    (match accounts st !! (scope, resource) with Some a => counter active a | None => 0 end + units
     <= ceiling_maximum c)%Z.
Proof.
  induction path as [|scope path IH]; simpl; intros He s c Hs Hc; [by apply elem_of_nil in Hs|].
  apply elem_of_cons in Hs as [->|Hs].
  - rewrite Hc in He. destruct (u64_checked_add _ _) as [next|] eqn:Ea; simpl in He; [|done].
    apply u64_checked_add_Some in Ea as [-> _]. destruct (Z.ltb_spec (ceiling_maximum c)
      (match accounts st !! (scope, resource) with Some a => counter active a | None => 0 end + units));
      [done|lia].
  - apply IH; [|done..]. destruct (ceiling pol scope resource); [|done].
    destruct (u64_checked_add _ _); simpl in He; [|done]. by destruct (_ <? _)%Z.
Qed.

Lemma own_ceiling st D l D' a c resource dc da ss active units :
  own_write st l D D' -> Forall2 (account_next st resource dc da) ss l -> a ∈ l ->
  is_concurrency resource = active -> units = (if active then da else dc) ->
  exhausted_in st pol ss resource units active = (Ok None : result Error _) ->
  ceiling pol (acc_scope a) (acc_resource a) = Some c -> (bounded_counter a <= ceiling_maximum c)%Z.
Proof.
  intros Hw H2 Ha Hact -> He Hc. destruct (nexts_elem _ _ _ _ _ _ _ H2 Ha) as [Hs (Hkey & _ & Hm)].
  unfold account_key in Hkey. injection Hkey as Hr. rewrite Hr in Hc.
  pose proof (exhausted_None _ _ _ _ _ He _ _ Hs Hc) as Hle.
  unfold bounded_counter. rewrite Hr, Hact.
  destruct (accounts st !! (acc_scope a, resource)) as [cur|];
    destruct Hm as (_ & Hcons & Hactive); destruct active; simpl in *; lia.
Qed.

Lemma contribution_off_batch st D l D' b id q resource dc da :
  ids_apart -> governed D -> own_write st l D D' ->
  Forall2 (account_next st resource dc da) (scopes (req_path q)) l -> req_resource q = resource ->
  D !! id = Some (SAccount b) -> id ∉ acc_id <$> l -> on_key (account_key b) q = false.
Proof.
  intros Hap HG Hw H2 Hq Hb Hni. destruct (on_key _ q) eqn:Eo; [|done].
  unfold on_key in Eo. bool_inv. destruct Eo as [Hr Hs]. simpl in *.
  destruct (nexts_scope _ _ _ _ _ _ _ H2 Hs) as (a & Ha & Hkey). destruct Hni.
  destruct (governed_account _ HG _ _ Hb) as [Hn _ _ _ _ _]. destruct (own_wf _ _ _ _ Hw a Ha) as [Hna _ _ _ _ _].
  unfold account_key in Hkey. injection Hkey as Hs' Hr'. rewrite Hs', Hr', <- Hq, Hr, Hn in Hna.
  injection Hna as ->. by apply list_elem_of_fmap_2.
Qed.

(** ** The write sets of the service *)

(** Every lease identifier is recorded as used. *)
Definition used (G : Ghost) : Prop := forall id l, lease_at G.1 id = Some l -> id ∈ G.2.

(** What a committed write set guarantees. *)
Record committed (st : State) (l : list Account) (G G' : Ghost) : Prop := {
  committed_governed : governed G'.1;
  committed_evolves : evolves G G';
  committed_used : used G';
  committed_own : own_write st l G.1 G'.1
}.

Lemma lease_at_own st l D D1 id :
  own_write st l D D1 -> D1 = put_accounts D l -> lease_at D1 id = lease_at D id.
Proof.
  intros Hw ->. unfold lease_at. destruct (decide (id ∈ acc_id <$> l)) as [Hin|Hni].
  - apply list_elem_of_fmap in Hin as (a & -> & Ha). rewrite (own_put _ _ _ _ Hw a Ha).
    rewrite (own_fresh _ _ _ _ Hw a Ha). by destruct (accounts st !! _).
  - by rewrite put_accounts_other.
Qed.

Lemma own_leased st l D D1 k :
  own_write st l D D1 -> D1 = put_accounts D l -> leased D1 k = leased D k.
Proof.
  intros Hw ->. apply leased_put_accounts. intros a x Ha Hx. by eapply own_lease_free.
Qed.

(** A request identifier names a pending request or nothing. *)
Definition request_slot (D : Durable) (id : EntityId) : Prop :=
  match D !! id with Some (SPending _) | None => True | _ => False end.

Lemma own_request_slot st l D D1 id :
  ids_apart -> governed D -> own_write st l D D1 -> D1 = put_accounts D l ->
  id_space id = RequestSpace -> request_slot D1 id.
Proof.
  intros Hap HG Hw -> Hs. unfold request_slot. rewrite put_accounts_other.
  - destruct (D !! id) as [x|] eqn:Ex; [|done].
    apply (governed_space _ _ _ Hap HG) in Ex. rewrite Hs in Ex. by destruct x.
  - intros Hin. pose proof (own_space _ _ _ _ _ Hap Hw Hin). congruence.
Qed.

(** The part of a grant that is not accounts: the lease comes, the request goes. *)
Lemma grant_shape D lid lease rid D' :
  D !! lid = None -> rid <> lid -> request_slot D rid ->
  D' = delete rid (<[lid := SLease lease]> D) ->
  (forall id b, D' !! id = Some (SAccount b) <-> D !! id = Some (SAccount b))
  /\ lease_at D' lid = Some lease
  /\ (forall id, id <> lid -> lease_at D' id = lease_at D id)
  /\ (forall id p, D' !! id = Some (SPending p) -> D !! id = Some (SPending p))
  /\ (forall k, leased D' k = (leased D k + contribution k (SLease lease))%Z).
Proof.
  unfold request_slot, lease_at. intros Hl Hne Hr ->. repeat split.
  1,2: destruct (decide (id = rid)) as [->|?];
    [rewrite lookup_delete_eq; intros Hb; try done; by rewrite Hb in Hr|rewrite lookup_delete_ne by done];
    destruct (decide (id = lid)) as [->|?];
    [rewrite lookup_insert_eq; congruence|by rewrite lookup_insert_ne by done].
  - by rewrite lookup_delete_ne, lookup_insert_eq by done.
  - intros id Hid. destruct (decide (id = rid)) as [->|?].
    + rewrite lookup_delete_eq. by destruct (D !! rid) as [[]|].
    + by rewrite lookup_delete_ne, lookup_insert_ne by done.
  - intros id p. destruct (decide (id = rid)) as [->|?]; [by rewrite lookup_delete_eq|].
    rewrite lookup_delete_ne by done. destruct (decide (id = lid)) as [->|?].
    + by rewrite lookup_insert_eq.
    + by rewrite lookup_insert_ne by done.
  - intros k. rewrite leased_delete, leased_insert. unfold contribution_at.
    rewrite lookup_insert_ne, Hl by done. destruct (D !! rid) as [[]|]; simpl; try done; lia.
Qed.

Lemma own_pending_kept st l D D1 id p :
  own_write st l D D1 -> D1 = put_accounts D l -> D1 !! id = Some (SPending p) -> D !! id = Some (SPending p).
Proof.
  intros Hw -> Hp. destruct (decide (id ∈ acc_id <$> l)) as [Hin|Hni]; [|by rewrite put_accounts_other in Hp].
  apply list_elem_of_fmap in Hin as (a & -> & Ha). by rewrite (own_put _ _ _ _ Hw a Ha) in Hp.
Qed.

Lemma grant_committed st G l lease p D' :
  let q := pend_request p in
  ids_apart -> governed G.1 -> used G -> coherent st G -> wf_request q ->
  lease_request lease = q -> lease_revision lease = Revision_ZERO ->
  id_canonical (lease_id lease) -> id_space (lease_id lease) = LeaseSpace -> lease_id lease ∉ G.2 ->
  Forall2 (account_next st (req_resource q) 0 (req_units q)) (scopes (req_path q)) l ->
  exhausted_in st pol (scopes (req_path q)) (req_resource q) (req_units q) true
    = (Ok None : result Error _) ->
  write_steps G.1 ((account_write st <$> l) ++
    [WPut (SLease lease) PreMissing; WDelete (req_id q) (PreExact (pend_revision p))]) = Some D' ->
  committed st l G (D', {[lease_id lease]} ∪ G.2)
  /\ lease_at D' (lease_id lease) = Some lease
  /\ (forall id, id <> lease_id lease -> lease_at D' id = lease_at G.1 id).
Proof.
  intros q Hap HG Hu Hco Hq Hreq Hrev Hcan Hspace Hnew H2 He Hws.
  rewrite write_steps_app in Hws.
  destruct (write_steps G.1 _) as [D1|] eqn:Ew; simpl in Hws; [|done].
  destruct (account_batch_own _ _ _ _ _ _ _ _ Hap Hco (path_unique _ (request_path _ Hq)) H2 Ew) as [HD1 Hw1].
  set (lid := lease_id lease) in *. set (rid := req_id q) in *.
  assert (id_space rid = RequestSpace) as Hrs by apply (request_space _ Hq).
  assert (rid <> lid) as Hne by congruence.
  unfold revision_admitted in Hws. simpl in Hws. fold lid in Hws.
  destruct (D1 !! lid) as [x|] eqn:Elid; simpl in Hws; [done|].
  destruct (bool_decide _); [|done]. injection Hws as HD'.
  destruct (grant_shape D1 lid lease rid D' Elid Hne) as (Hacc & Hlid & Hla & Hpe & Hsum);
    [by eapply own_request_slot|done|].
  assert (own_write st l G.1 D') as Hw by by eapply own_write_extend.
  assert (forall id, id <> lid -> lease_at D' id = lease_at G.1 id) as Hla'.
  { intros id Hid. rewrite Hla by done. by eapply lease_at_own. }
  assert (forall k, leased D' k = (leased G.1 k + contribution k (SLease lease))%Z) as Hsum'.
  { intros k. rewrite Hsum. f_equal. by eapply own_leased. }
  split; [|done]. split; simpl; [| | |done].
  - eapply governed_own_write; try done.
    + intros id p' Hp'. left. by eapply own_pending_kept, Hpe.
    + intros id m Hm%lease_at_Some. destruct (decide (id = lid)) as [->|Hid].
      * right. rewrite Hlid in Hm. injection Hm as <-. split.
        { split; try done; [by rewrite Hreq|]. rewrite Hrev. unfold is_u64, u64_max. simpl. lia. }
        intros scope Hs. rewrite Hreq in *. destruct (nexts_scope _ _ _ _ _ _ _ H2 Hs) as (a & Ha & <-).
        exists a. by eapply own_account_in.
      * left. rewrite Hla' in Hm by done. by apply lease_at_Some.
    + intros a Ha. rewrite Hsum'. rewrite (own_active st G l D' a _ _ _ _ HG Hco Hw H2 Ha).
      f_equal. simpl. rewrite Hreq. destruct (nexts_elem _ _ _ _ _ _ _ H2 Ha) as [Hs (Hkey & _)].
      unfold on_key. rewrite Hkey. simpl. by rewrite bool_decide_eq_true_2.
    + intros a c Ha Hc. eapply (own_ceiling _ _ _ _ _ _ _ _ _ _ true (req_units q)); try done.
      apply (request_concurrency _ Hq).
    + intros id b Hb Hni. rewrite Hsum'. simpl. rewrite Hreq.
      erewrite contribution_off_batch; [lia|done..].
  - split; simpl; [set_solver| | |].
    + intros k a Ha. by eapply own_write_evolves_account.
    + intros id m Hid Hm. rewrite Hla' in Hm by (intros ->; done). exists m. split; [done|reflexivity].
    + intros id m Hm. left. rewrite Hla'; [by eexists|]. intros ->. by apply Hnew, (Hu _ _ Hm).
  - intros id m Hm. simpl in *. destruct (decide (id = lid)) as [->|Hid]; [set_solver|].
    rewrite Hla' in Hm by done. pose proof (Hu _ _ Hm). set_solver.
Qed.

(** A cached lease all of whose accounts are current is still there. *)
Lemma cached_lease_current st G l D' id lease resource dc da :
  coherent st G -> leases st !! id = Some lease -> own_write st l G.1 D' ->
  Forall2 (account_next st resource dc da) (scopes (req_path (lease_request lease))) l ->
  resource = req_resource (lease_request lease) ->
  exists m, lease_at G.1 id = Some m /\ lease_forward lease m.
Proof.
  intros Hco Hl Hw H2 ->. destruct (coherent_lease _ _ Hco _ _ Hl) as (_ & _ & Hfw & [[m Hm]|Hout]); [eauto|].
  destruct Hout as (scope & Hs & b & Hb & Hlt).
  destruct (nexts_scope _ _ _ _ _ _ _ H2 Hs) as (a & Ha & Hkey). rewrite <- Hkey in Hb, Hlt.
  rewrite (fresh_account_at st _ a) in Hb; [|by apply (own_wf _ _ _ _ Hw)|by apply (own_fresh _ _ _ _ Hw)].
  specialize (Hlt _ Hb). lia.
Qed.

(** The part of a release that is not accounts: the lease goes. *)
Lemma release_shape D lid lease D' :
  D !! lid = Some (SLease lease) -> D' = delete lid D ->
  (forall id b, D' !! id = Some (SAccount b) <-> D !! id = Some (SAccount b))
  /\ lease_at D' lid = None
  /\ (forall id, id <> lid -> lease_at D' id = lease_at D id)
  /\ (forall id p, D' !! id = Some (SPending p) -> D !! id = Some (SPending p))
  /\ (forall k, leased D' k = (leased D k - contribution k (SLease lease))%Z).
Proof.
  unfold lease_at. intros Hl ->. split; [|split; [|split; [|split]]].
  - intros id b. destruct (decide (id = lid)) as [->|?].
    + rewrite lookup_delete_eq, Hl. done.
    + by rewrite lookup_delete_ne by done.
  - by rewrite lookup_delete_eq.
  - intros id Hid. by rewrite lookup_delete_ne by done.
  - intros id p. destruct (decide (id = lid)) as [->|?]; [by rewrite lookup_delete_eq|].
    by rewrite lookup_delete_ne by done.
  - intros k. rewrite leased_delete. unfold contribution_at. by rewrite Hl.
Qed.

Lemma release_governed st G l lease D' :
  let q := lease_request lease in
  ids_apart -> governed G.1 -> coherent st G -> own_write st l G.1 D' ->
  Forall2 (account_next st (req_resource q) 0 (- req_units q)) (scopes (req_path q)) l ->
  lease_at G.1 (lease_id lease) = Some lease ->
  (forall id p, D' !! id = Some (SPending p) -> G.1 !! id = Some (SPending p)) ->
  (forall id m, lease_at D' id = Some m -> lease_at G.1 id = Some m) ->
  (forall k, leased D' k = (leased G.1 k - contribution k (SLease lease))%Z) ->
  governed D'.
Proof.
  intros q Hap HG Hco Hw H2 Hlease HP HL Hsum.
  assert (wf_request q) as Hq by (apply lease_at_Some in Hlease; by destruct (governed_lease _ HG _ _ Hlease)).
  eapply governed_own_write; try done.
  - intros id p Hp. left. auto.
  - intros id m Hm. left. by apply lease_at_Some, HL, lease_at_Some.
  - intros a Ha. rewrite Hsum, (own_active st G l D' a _ _ _ _ HG Hco Hw H2 Ha). simpl.
    destruct (nexts_elem _ _ _ _ _ _ _ H2 Ha) as [Hs (Hkey & _)]. unfold on_key. rewrite Hkey. simpl.
    rewrite bool_decide_eq_true_2 by done. fold q. lia.
  - intros a c Ha Hc. destruct (nexts_elem _ _ _ _ _ _ _ H2 Ha) as [Hs (Hkey & Hwf & Hm)].
    apply lease_at_Some in Hlease. destruct (governed_backed _ HG _ _ _ Hlease Hs) as [cur Hcur].
    fold q in Hcur. rewrite <- Hkey in Hcur, Hm.
    rewrite (fresh_account_at st _ a Hwf (own_fresh _ _ _ _ Hw a Ha)) in Hcur.
    pose proof (own_fresh _ _ _ _ Hw a Ha) as Hf. rewrite Hcur in Hf, Hm. simpl in Hf.
    destruct (coherent_account _ _ Hco _ _ Hcur) as [Hk _]. unfold account_key in Hk. injection Hk as Hk1 Hk2.
    rewrite <- Hk1, <- Hk2 in Hc. pose proof (governed_ceiling _ HG _ _ _ Hf Hc) as Hle.
    unfold bounded_counter, account_key in *. injection Hkey as Hr. rewrite Hk2 in Hle.
    pose proof (request_units _ Hq). rewrite Hr in *. destruct (is_concurrency _); simpl in *; lia.
  - intros id b Hb Hni. rewrite Hsum. simpl. fold q. erewrite contribution_off_batch; [lia|done..].
Qed.

Lemma release_committed st G l lease D' :
  let q := lease_request lease in
  ids_apart -> governed G.1 -> used G -> coherent st G -> leases st !! lease_id lease = Some lease ->
  Forall2 (account_next st (req_resource q) 0 (- req_units q)) (scopes (req_path q)) l ->
  write_steps G.1 ((account_write st <$> l) ++ [WDelete (lease_id lease) (PreExact (lease_revision lease))])
    = Some D' ->
  committed st l G (D', G.2)
  /\ lease_at D' (lease_id lease) = None
  /\ (forall id, id <> lease_id lease -> lease_at D' id = lease_at G.1 id).
Proof.
  intros q Hap HG Hu Hco Hl H2 Hws. rewrite write_steps_app in Hws.
  destruct (write_steps G.1 _) as [D1|] eqn:Ew; simpl in Hws; [|done].
  destruct (coherent_lease _ _ Hco _ _ Hl) as (Hwl & _ & _).
  pose proof (lease_wf_request _ _ Hwl) as Hq. fold q in Hq.
  destruct (account_batch_own _ _ _ _ _ _ _ _ Hap Hco (path_unique _ (request_path _ Hq)) H2 Ew) as [HD1 Hw1].
  destruct (cached_lease_current _ _ _ _ _ _ _ _ _ Hco Hl Hw1 H2 eq_refl) as (m & Hm & Hfw).
  set (lid := lease_id lease) in *.
  pose proof Hm as Hm1. rewrite <- (lease_at_own _ _ _ _ lid Hw1 HD1) in Hm1.
  apply lease_at_Some in Hm1. rewrite Hm1 in Hws. simpl in Hws.
  case_bool_decide as Hrev; [|done]. injection Hws as HD'.
  assert (m = lease) as ->. { destruct Hfw as [?|[Hlt _]]; [done|]. injection Hrev as Hrev. rewrite Hrev in Hlt. lia. }
  destruct (release_shape D1 lid lease D' Hm1 ltac:(done)) as (Hacc & Hlid & Hla & Hpe & Hsum).
  assert (own_write st l G.1 D') as Hw by by eapply own_write_extend.
  assert (forall id, id <> lid -> lease_at D' id = lease_at G.1 id) as Hla'.
  { intros id Hid. rewrite Hla by done. by eapply lease_at_own. }
  assert (forall id n, lease_at D' id = Some n -> id <> lid /\ lease_at G.1 id = Some n) as Hkept.
  { intros id n Hn. destruct (decide (id = lid)) as [->|Hid]; [congruence|]. split; [done|]. by rewrite <- Hla'. }
  split; [|done]. split; simpl; [| | |done].
  - eapply release_governed; try done.
    + intros id p Hp. by eapply own_pending_kept, Hpe.
    + intros id n Hn. by apply Hkept.
    + intros k. rewrite Hsum. f_equal. by eapply own_leased.
  - split; simpl; [done| | |].
    + intros k a Ha. by eapply own_write_evolves_account.
    + intros id n Hid Hn. exists n. split; [by apply Hkept|reflexivity].
    + intros id n Hn. destruct (decide (id = lid)) as [->|Hid]; [|left; rewrite Hla' by done; by eexists].
      right. rewrite Hm in Hn. injection Hn as <-. intros scope Hs.
      destruct (nexts_scope _ _ _ _ _ _ _ H2 Hs) as (a & Ha & Hkey). fold q. rewrite <- Hkey.
      apply lease_at_Some in Hm. destruct (governed_backed _ HG _ _ _ Hm Hs) as [cur Hcur].
      fold q in Hcur. rewrite <- Hkey in Hcur. exists cur, a. split; [done|]. split; [by eapply own_account_in|].
      rewrite (fresh_account_at st _ a) in Hcur; [|by apply (own_wf _ _ _ _ Hw)|by apply (own_fresh _ _ _ _ Hw)].
      pose proof (own_newer _ _ _ _ Hw a Ha) as Hn. by rewrite Hcur in Hn.
  - intros id n Hn. apply (Hu id n). by apply Hkept.
Qed.

Lemma usage_committed st G l ss resource units D' :
  ids_apart -> governed G.1 -> used G -> coherent st G -> NoDup ss ->
  is_concurrency resource = false -> Forall2 (account_next st resource units 0) ss l ->
  exhausted_in st pol ss resource units false = (Ok None : result Error _) ->
  write_steps G.1 (account_write st <$> l) = Some D' ->
  committed st l G (D', G.2) /\ forall id, lease_at D' id = lease_at G.1 id.
Proof.
  intros Hap HG Hu Hco Hnd Hres H2 He Hws.
  destruct (account_batch_own _ _ _ _ _ _ _ _ Hap Hco Hnd H2 Hws) as [HD Hw].
  assert (forall id, lease_at D' id = lease_at G.1 id) as Hla by (intros id; by eapply lease_at_own).
  assert (forall k, leased D' k = leased G.1 k) as Hsum by (intros k; by eapply own_leased).
  split; [|done]. split; simpl; [| | |done].
  - eapply governed_own_write; try done.
    + intros id p Hp. left. by eapply own_pending_kept.
    + intros id m Hm. left. by apply lease_at_Some; rewrite <- Hla; apply lease_at_Some.
    + intros a Ha. rewrite Hsum, (own_active st G l D' a _ _ _ _ HG Hco Hw H2 Ha). lia.
    + intros a c Ha Hc. by eapply (own_ceiling _ _ _ _ _ _ _ _ _ _ false units).
  - split; simpl; [done| | |].
    + intros k a Ha. by eapply own_write_evolves_account.
    + intros id m _ Hm. rewrite Hla in Hm. exists m. split; [done|reflexivity].
    + intros id m Hm. left. rewrite Hla. by eexists.
  - intros id m Hm. rewrite Hla in Hm. by eapply Hu.
Qed.

(** ** Writes without accounts *)

Lemma own_nil st D D' :
  (forall id b, D' !! id = Some (SAccount b) <-> D !! id = Some (SAccount b)) -> own_write st [] D D'.
Proof. intros Hacc. split; try (by intros a ?%elem_of_nil); [constructor|]. intros id b _. apply Hacc. Qed.

(** A write that keeps accounts, adds no lease and leaves what is leased alone. *)
Lemma plain_committed st G D' :
  ids_apart -> governed G.1 -> used G ->
  (forall id b, D' !! id = Some (SAccount b) <-> G.1 !! id = Some (SAccount b)) ->
  (forall id p, D' !! id = Some (SPending p) -> G.1 !! id = Some (SPending p) \/ wf_pending id p) ->
  (forall id m, lease_at D' id = Some m ->
     wf_lease id m /\ exists l, lease_at G.1 id = Some l /\ lease_forward l m) ->
  (forall id l, lease_at G.1 id = Some l -> is_Some (lease_at D' id)) ->
  (forall k, leased D' k = leased G.1 k) ->
  committed st [] G (D', G.2).
Proof.
  intros Hap HG Hu Hacc HP HL Hkeep Hsum. pose proof (own_nil st _ _ Hacc) as Hw.
  split; simpl; [| | |done].
  - eapply governed_own_write; try done; try (by intros a ?%elem_of_nil).
    + intros id m Hm%lease_at_Some. right. destruct (HL _ _ Hm) as (Hwf & l & Hl & Hfw). split; [done|].
      rewrite (lease_forward_request _ _ Hfw). intros scope Hs. apply lease_at_Some in Hl.
      destruct (governed_backed _ HG _ _ _ Hl Hs) as [a Ha].
      destruct (own_write_evolves_account _ _ _ _ _ _ Hw Ha) as (b & Hb & _). by eexists.
    + by intros a c ?%elem_of_nil.
  - split; simpl; [done| | |].
    + intros k a Ha. by eapply own_write_evolves_account.
    + intros id m _ Hm. by apply HL.
    + intros id l Hl. left. by eapply Hkeep.
  - intros id m Hm. destruct (HL _ _ Hm) as (_ & l & Hl & _). by eapply Hu.
Qed.

Lemma heartbeat_committed st G lease updated D' :
  ids_apart -> governed G.1 -> used G -> coherent st G -> leases st !! lease_id lease = Some lease ->
  lease_id updated = lease_id lease -> lease_request updated = lease_request lease ->
  is_u64 (revision_get (lease_revision updated)) ->
  (revision_get (lease_revision lease) < revision_get (lease_revision updated))%Z ->
  write_steps G.1 [WPut (SLease updated) (PreExact (lease_revision lease))] = Some D' ->
  committed st [] G (D', G.2)
  /\ lease_at D' (lease_id lease) = Some updated
  /\ (forall id, id <> lease_id lease -> lease_at D' id = lease_at G.1 id).
Proof.
  intros Hap HG Hu Hco Hl Hid Hreq Hu64 Hlt Hws. simpl in Hws. rewrite Hid in Hws.
  destruct (coherent_lease _ _ Hco _ _ Hl) as (Hwl & _ & Hfw & _).
  unfold revision_admitted in Hws. simpl in Hws.
  set (lid := lease_id lease) in *. destruct (G.1 !! lid) as [x|] eqn:Ex; simpl in Hws; [|done].
  case_bool_decide as Hrev; [|done]. injection Hrev as Hrev. simpl in Hws.
  destruct (_ <? _)%Z; [|done]. injection Hws as <-.
  pose proof (governed_space _ _ _ Hap HG Ex) as Hsp. rewrite (lease_space _ _ Hwl) in Hsp.
  destruct x as [| |m]; try done. simpl in Hrev.
  assert (m = lease) as ->.
  { destruct (Hfw m) as [?|[Hr _]]; [by apply lease_at_Some|done|]. rewrite Hrev in Hr. lia. }
  assert (forall id, id <> lid -> lease_at (<[lid := SLease updated]> G.1) id = lease_at G.1 id) as Hla.
  { intros id Hne. unfold lease_at. by rewrite lookup_insert_ne by done. }
  assert (lease_at (<[lid := SLease updated]> G.1) lid = Some updated) as Hlid
    by (apply lease_at_Some, lookup_insert_eq).
  split; [|done]. apply plain_committed; try done.
  - intros id b. destruct (decide (id = lid)) as [->|?].
    + by rewrite lookup_insert_eq, Ex.
    + by rewrite lookup_insert_ne by done.
  - intros id p. destruct (decide (id = lid)) as [->|?].
    + by rewrite lookup_insert_eq.
    + rewrite lookup_insert_ne by done. by left.
  - intros id m. destruct (decide (id = lid)) as [->|?].
    + rewrite Hlid. intros [= <-]. split.
      { destruct Hwl. split; try done. by rewrite Hreq. }
      exists lease. split; [by apply lease_at_Some|]. by right.
    + rewrite Hla by done. intros Hm. split; [by apply (governed_lease _ HG), lease_at_Some|].
      exists m. split; [done|reflexivity].
  - intros id l Hl'. destruct (decide (id = lid)) as [->|?]; [by eexists|]. rewrite Hla by done. by eexists.
  - intros k. rewrite leased_insert. unfold contribution_at. rewrite Ex. simpl. rewrite Hreq. lia.
Qed.

(** A pending request comes or goes. *)
Lemma pending_committed st G rid D' (slot : option Pending) :
  ids_apart -> governed G.1 -> used G -> id_space rid = RequestSpace ->
  (forall p, slot = Some p -> wf_pending rid p) ->
  D' = partial_alter (fun _ => SPending <$> slot) rid G.1 ->
  committed st [] G (D', G.2) /\ forall id, lease_at D' id = lease_at G.1 id.
Proof.
  intros Hap HG Hu Hrs Hslot ->. set (D' := partial_alter _ rid G.1).
  assert (forall id, id <> rid -> D' !! id = G.1 !! id) as Hother
    by (intros id Hne; by apply lookup_partial_alter_ne).
  assert (D' !! rid = SPending <$> slot) as Hrid by apply lookup_partial_alter_eq.
  assert (forall x, G.1 !! rid = Some x -> exists p, x = SPending p) as Hold.
  { intros x Hx. apply (governed_space _ _ _ Hap HG) in Hx. rewrite Hrs in Hx. destruct x; eauto; done. }
  assert (forall id, lease_at D' id = lease_at G.1 id) as Hla.
  { intros id. unfold lease_at. destruct (decide (id = rid)) as [->|Hne]; [|by rewrite Hother].
    rewrite Hrid. destruct (G.1 !! rid) as [x|]; [destruct (Hold x eq_refl) as [p ->]|]; by destruct slot. }
  split; [|done]. apply plain_committed; try done.
  - intros id b. destruct (decide (id = rid)) as [->|Hne]; [|by rewrite Hother]. rewrite Hrid. split.
    + by destruct slot.
    + intros Hb. by destruct (Hold _ Hb).
  - intros id p. destruct (decide (id = rid)) as [->|Hne]; [|rewrite Hother by done; by left].
    rewrite Hrid. intros Hp. right. apply Hslot. by destruct slot; simplify_eq/=.
  - intros id m. rewrite Hla. intros Hm. split; [by apply (governed_lease _ HG), lease_at_Some|].
    exists m. split; [done|reflexivity].
  - intros id l. rewrite Hla. by eexists.
  - intros k. unfold D'. destruct slot as [p|]; simpl.
    + change (leased (<[rid := SPending p]> G.1) k = leased G.1 k). rewrite leased_insert. unfold contribution_at.
      destruct (G.1 !! rid) as [x|]; [destruct (Hold x eq_refl) as [p' ->]|]; simpl; lia.
    + change (leased (delete rid G.1) k = leased G.1 k). rewrite leased_delete. unfold contribution_at.
      destruct (G.1 !! rid) as [x|]; [destruct (Hold x eq_refl) as [p' ->]|]; simpl; lia.
Qed.

(** ** The cache after an own write *)

Lemma coherent_own st st' l G G' :
  ids_apart -> coherent st G -> committed st l G G' ->
  (forall a, a ∈ l -> accounts st' !! account_key a = Some a) ->
  (forall k, k ∉ account_key <$> l -> accounts st' !! k = accounts st !! k) ->
  (forall id p, pending st' !! id = Some p -> wf_pending id p) ->
  (forall id m, leases st' !! id = Some m ->
     (leases st !! id = Some m /\ lease_at G'.1 id = lease_at G.1 id)
     \/ (wf_lease id m /\ id ∈ G'.2 /\ lease_at G'.1 id = Some m)) ->
  coherent st' G'.
Proof.
  intros Hap Hco [HG' Hev _ Hw] Hin Hout Hp Hl. split; [|done|].
  - intros k a Ha. destruct (decide (k ∈ account_key <$> l)) as [(b & -> & Hb)%list_elem_of_fmap|Hni].
    + rewrite Hin in Ha by done. injection Ha as <-. split; [done|]. split; [by apply (own_wf _ _ _ _ Hw)|].
      exists b. split; [by eapply own_account_in|reflexivity].
    + rewrite Hout in Ha by done. by apply (coherent_account _ _ (coherent_evolves _ _ _ Hco Hev)).
  - intros id m Hm. destruct (Hl id m Hm) as [[Hm' Hsame]|(Hwf & Hid & Hla)].
    + destruct (coherent_lease _ _ Hco _ _ Hm') as (Hwf & Hid & Hfw & Hor).
      split; [done|]. split; [by apply (evolves_used _ _ Hev)|]. rewrite Hsame. split; [done|].
      destruct Hor as [?|(scope & Hs & b & Hb & Hlt)]; [by left|]. right. exists scope. split; [done|].
      set (k := (scope, req_resource (lease_request m))) in *.
      assert (in_play k.1) as Hplay.
      { pose proof (request_in_play _ (lease_wf_request _ _ Hwf)) as Hf. rewrite Forall_forall in Hf. by apply Hf. }
      assert (k ∉ account_key <$> l) as Hni.
      { intros (a & Hk & Ha)%list_elem_of_fmap. rewrite Hk in Hb, Hlt.
        rewrite (fresh_account_at st _ a) in Hb; [|by apply (own_wf _ _ _ _ Hw)|by apply (own_fresh _ _ _ _ Hw)].
        specialize (Hlt _ Hb). lia. }
      exists b. rewrite (own_account_other _ _ _ _ _ Hap Hw Hplay Hni), Hout by done. done.
    + split; [done|]. split; [done|]. rewrite Hla. split; [|by left]. intros n [= <-]. reflexivity.
Qed.

Lemma own_keys_distinct st l D D' : own_write st l D D' -> NoDup (account_key <$> l).
Proof.
  intros Hw. pose proof (own_distinct _ _ _ _ Hw) as Hnd.
  apply NoDup_fmap_2_strong; [|by eapply NoDup_fmap_1].
  intros a b Ha Hb Heq. pose proof (own_wf _ _ _ _ Hw a Ha) as Hwa. pose proof (own_wf _ _ _ _ Hw b Hb) as Hwb.
  assert (acc_id a = acc_id b) as Hid.
  { pose proof (account_named _ _ Hwa) as Hna. pose proof (account_named _ _ Hwb) as Hnb.
    unfold account_key in Heq. injection Heq as Hs Hr. rewrite Hs, Hr, Hnb in Hna. by injection Hna. }
  apply list_elem_of_lookup in Ha as [i Hi], Hb as [j Hj].
  assert (i = j) as ->; [|congruence]. eapply NoDup_lookup; [exact Hnd|..].
  - rewrite list_lookup_fmap, Hi. done.
  - rewrite list_lookup_fmap, Hj. simpl. by rewrite Hid.
Qed.

Lemma apply_accounts_other st l k :
  k ∉ account_key <$> l ->
  accounts (apply_accounts st ((fun a => (account_key a, a)) <$> l)) !! k = accounts st !! k.
Proof.
  unfold apply_accounts. simpl. generalize (accounts st). induction l as [|a l IH]; intros m Hni; csimpl in *; [done|].
  apply not_elem_of_cons in Hni as [Hne Hni]. rewrite IH by done. by rewrite lookup_insert_ne by congruence.
Qed.

Lemma apply_accounts_in st l a :
  NoDup (account_key <$> l) -> a ∈ l ->
  accounts (apply_accounts st ((fun a => (account_key a, a)) <$> l)) !! account_key a = Some a.
Proof.
  unfold apply_accounts. simpl. generalize (accounts st).
  induction l as [|b l IH]; intros m Hnd Ha; csimpl in *; [by apply elem_of_nil in Ha|].
  apply NoDup_cons in Hnd as [Hni Hnd]. apply elem_of_cons in Ha as [->|Ha]; [|by apply IH].
  pose proof (apply_accounts_other (MkState (<[account_key b := b]> m) ∅ ∅ ∅) l (account_key b) Hni) as Ho.
  unfold apply_accounts in Ho. simpl in Ho. rewrite Ho. apply lookup_insert_eq.
Qed.
End invariant.
