(* ===== verification/GovernorSafety.v ===== *)
(** * Safety of the governor under interference

    Every operation of [crates/resource-governor/src/service.rs], run from a
    cache that may be stale, against a repository that other governors write
    to between any two calls and that may lose acknowledgements, keeps the
    invariant of [GovernorInvariant] and only makes steps that the other
    governors rely on. *)

From Stdlib Require Import ZArith Lia String.
From stdpp Require Import base decidable countable gmap sorting option list.
From S2P Require Import Prelude RustStd Sha2 AgentTypes Json StateStoreCore ResourceModel ResourceGovernor.
From S2P Require Import GovernorDurable GovernorInvariant.

Section safety.
Context {S : Type} `{HU : Ulid, HR : Repository S, HL : !RepositoryLaws S}.
Context `{HJ : SerdeJson, HC : ResourceCodec, HH : Sha256}.
(** The identifiers this governor draws, and how many draws are considered. *)
Context (new_id : nat -> EntityId) (limit : nat).
Context (in_play : ResourceScope -> Prop) (id_space : EntityId -> IdSpace) (pol : ResourcePolicy).

Abbreviation Error := (ResourceError (@repo_error S HR) JsonError).
Abbreviation Governor := (@ResourceGovernor S).
Abbreviation gov_m := (stateT Governor Error).
Abbreviation governed := (governed (S:=S) in_play id_space pol).
Abbreviation wf_request := (wf_request in_play id_space).
Abbreviation coherent := (coherent (S:=S) in_play id_space).
Abbreviation committed := (committed (S:=S) in_play id_space pol).
Abbreviation evolves := (evolves (S:=S)).
Abbreviation Ghost := (Durable * gset EntityId)%type.

(** What is assumed of the parameters: the codec reads back what it wrote, the
    digests of the scopes in use and the drawn identifiers do not collide, and
    the drawn identifiers are distinct. *)
Record environment : Prop := {
  env_codec : codec_lawful;
  env_ids : ids_apart (S:=S) in_play id_space;
  env_new_canonical : forall n, n < limit -> id_canonical (new_id n);
  env_new_space : forall n, n < limit -> id_space (new_id n) = LeaseSpace;
  env_new_inj : forall n m, n < limit -> m < limit -> new_id n = new_id m -> n = m
}.

Definition gview (s : S) (D : Durable) : Prop := exists recs, repo_view s recs /\ durable recs D.

(** What other processes may do to the repository between two calls. *)
Definition rely (e : S -> S) : Prop :=
  forall s (G : Ghost), gview s G.1 -> governed G.1 -> used G ->
  exists G', gview (e s) G'.1 /\ governed G'.1 /\ used G' /\ evolves G G'
    /\ forall n, n < limit -> new_id n ∈ G'.2 -> new_id n ∈ G.2.

(** The durable state is governed, the cache coherent, the other processes well
    behaved and the identifiers still to be drawn unused. *)
Record healthy (g : Governor) (G : Ghost) : Prop := {
  healthy_view : gview (repository g) G.1;
  healthy_policy : policy g = pol;
  healthy_governed : governed G.1;
  healthy_used : used G;
  healthy_env : Forall rely (interference g);
  healthy_supply : forall n, ids_drawn g <= n < limit -> new_id n ∉ G.2;
  healthy_coherent : coherent (state g) G
}.

(** [m], started in a healthy governor, ends in one, with [Q] when it succeeds,
    as long as no more than [limit] identifiers are drawn. *)
Definition safe {A} (P : Governor -> Ghost -> Prop) (m : gov_m A) (Q : A -> Governor -> Ghost -> Prop) : Prop :=
  forall g G r g', healthy g G -> P g G -> m g = (r, g') -> ids_drawn g' <= limit ->
  exists G', healthy g' G' /\ evolves G G' /\ match r with Ok a => Q a g' G' | Err _ => True end.

Abbreviation anything := (fun (_ : Governor) (_ : Ghost) => True).

Lemma healthy_evolves_trans g G1 G2 G3 : healthy g G1 -> evolves G1 G2 -> evolves G2 G3 -> evolves G1 G3.
Proof. intros Hh. eapply evolves_trans; apply Hh. Qed.

(** Identifiers are drawn, never given back. *)
Class Mono {A} (m : gov_m A) : Prop := mono : forall g, ids_drawn g <= ids_drawn (m g).2.
Class MonoAll {A B} (f : A -> gov_m B) : Prop := mono_all : forall a, Mono (f a).

Lemma mono_bind {A B} (m : gov_m A) (f : A -> gov_m B) : Mono m -> MonoAll f -> Mono (x ← m; f x).
Proof.
  intros Hm Hf g. rewrite stateT_bind_unfold. specialize (Hm g).
  destruct (m g) as [[a|e] g1]; simpl in *; [|done]. specialize (Hf a g1). lia.
Qed.

Lemma mono_same {A} (m : gov_m A) : (forall g, ids_drawn (m g).2 = ids_drawn g) -> Mono m.
Proof. intros Hm g. by rewrite Hm. Qed.

Lemma interfere_ids (g : Governor) : ids_drawn (interfere g) = ids_drawn g.
Proof. unfold interfere. by destruct (interference g). Qed.

Lemma repository_transact_ids ms (g : Governor) : ids_drawn (repository_transact ms g).2 = ids_drawn g.
Proof. unfold repository_transact. destruct (transact _ _). simpl. apply interfere_ids. Qed.

Lemma transact_classified_ids ms (g : Governor) : ids_drawn (transact_classified ms g).2 = ids_drawn g.
Proof.
  unfold transact_classified. rewrite <- (repository_transact_ids ms g).
  by destruct (repository_transact ms g).
Qed.

Lemma mono_transact_classified ms : Mono (transact_classified ms).
Proof. apply mono_same. intros g. apply transact_classified_ids. Qed.

Lemma mono_transact_unless_conflict n ms : Mono (transact_unless_conflict n ms).
Proof.
  apply mono_same. intros g. unfold transact_unless_conflict. rewrite <- (repository_transact_ids ms g).
  destruct (repository_transact ms g) as [[r|e] g']; [done|]. by destruct (is_conflict e && _)%bool.
Qed.

Lemma mono_load_state : Mono load_state.
Proof. apply mono_same. intros g. apply interfere_ids. Qed.

Lemma mono_gov_lock : Mono gov_lock.
Proof. apply mono_same. intros g. unfold gov_lock. by destruct (gov_poisoned g). Qed.

Lemma mono_entity_id_new : Mono (entity_id_new new_id).
Proof. intros g. simpl. lia. Qed.

Lemma mono_unless_conflict {A} n (m : gov_m A) : Mono m -> Mono (unless_conflict n m).
Proof.
  intros Hm g. unfold unless_conflict. specialize (Hm g). destruct (m g) as [[a|e] g']; [done|].
  destruct e; try done. by destruct (n <? _)%nat.
Qed.

Ltac solve_mono :=
  cbv beta;
  lazymatch goal with
  | |- MonoAll _ => intros ?; solve_mono
  | |- Mono (mbind _ _) => apply mono_bind; solve_mono
  | |- Mono (match ?x with _ => _ end) => destruct x; solve_mono
  | |- Mono (let _ := _ in _) => cbv zeta; solve_mono
  | |- Mono (transact_classified _) => apply mono_transact_classified
  | |- Mono (transact_unless_conflict _ _) => apply mono_transact_unless_conflict
  | |- Mono load_state => apply mono_load_state
  | |- Mono gov_lock => apply mono_gov_lock
  | |- Mono (entity_id_new _) => apply mono_entity_id_new
  | |- Mono (unless_conflict _ _) => apply mono_unless_conflict; solve_mono
  | |- Mono refresh_durable_state => unfold refresh_durable_state; solve_mono
  | |- Mono (grant _ _ _) => unfold grant; solve_mono
  | |- Mono (delete_pending _) => unfold delete_pending; solve_mono
  | |- Mono (release_locked _ _) => unfold release_locked; solve_mono
  | |- Mono (reclaim_one _ _ _) => unfold reclaim_one; solve_mono
  | |- Mono _ => first [assumption | by apply mono_same]
  end.

Lemma safe_bind {A B} P (m : gov_m A) Q (f : A -> gov_m B) R :
  MonoAll f -> safe P m Q -> (forall a, safe (Q a) (f a) R) -> safe P (x ← m; f x) R.
Proof.
  intros HM Hm Hf g G r g' Hh HP Hr Hlim. rewrite stateT_bind_unfold in Hr.
  destruct (m g) as [[a|e] g1] eqn:Em.
  - pose proof (HM a g1) as Hmono. rewrite Hr in Hmono. simpl in Hmono.
    destruct (Hm _ _ _ _ Hh HP Em) as (G1 & Hh1 & He1 & HQ); [lia|].
    destruct (Hf a _ _ _ _ Hh1 HQ Hr Hlim) as (G2 & Hh2 & He2 & HR2).
    exists G2. split; [done|]. split; [by eapply healthy_evolves_trans|done].
  - injection Hr as <- <-. destruct (Hm _ _ _ _ Hh HP Em Hlim) as (G1 & Hh1 & He1 & _). by exists G1.
Qed.

Ltac sbind := eapply safe_bind; [solve_mono| |].
Tactic Notation "sbind_at" uconstr(Q) := eapply (safe_bind _ _ Q); [solve_mono| |].

Lemma safe_weaken {A} (P P' : Governor -> Ghost -> Prop) (m : gov_m A) Q Q' :
  safe P m Q -> (forall g G, P' g G -> P g G) -> (forall a g G, Q a g G -> Q' a g G) -> safe P' m Q'.
Proof.
  intros Hm HP HQ g G r g' Hh Hp Hr Hlim. destruct (Hm _ _ _ _ Hh (HP _ _ Hp) Hr Hlim) as (G' & ? & ? & Hq).
  exists G'. split; [done|]. split; [done|]. destruct r; auto.
Qed.

(** Computations that do not touch the governor. *)
Lemma safe_pure {A} P (m : gov_m A) Q :
  (forall g r g', m g = (r, g') -> g' = g /\ forall a G, r = Ok a -> healthy g G -> P g G -> Q a g G) ->
  safe P m Q.
Proof.
  intros Hm g G r g' Hh HP Hr _. destruct (Hm _ _ _ Hr) as [-> HQ]. exists G. split; [done|].
  split; [apply evolves_refl|]. destruct r; auto.
Qed.

Lemma safe_ret {A} P (a : A) Q : (forall g G, healthy g G -> P g G -> Q a g G) -> safe P (mret a) Q.
Proof. intros HQ. apply safe_pure. intros g r g' Hr. unfold mret, stateT_ret in Hr. injection Hr as <- <-. split; [done|]. intros a' G [= <-]. auto. Qed.

Lemma safe_lift {A} P (r : result Error A) Q :
  (forall a g G, r = Ok a -> healthy g G -> P g G -> Q a g G) -> safe P (lift r) Q.
Proof. intros HQ. apply safe_pure. intros g r' g' Hr. unfold lift in Hr. injection Hr as <- <-. split; [done|]. intros. eauto. Qed.

Lemma safe_gets {A} P (f : Governor -> A) Q :
  (forall g G, healthy g G -> P g G -> Q (f g) g G) -> safe P (gets f) Q.
Proof. intros HQ. apply safe_pure. intros g r' g' Hr. unfold gets in Hr. injection Hr as <- <-. split; [done|]. intros a G [= <-]. auto. Qed.

Lemma safe_throw {A} P e (Q : A -> Governor -> Ghost -> Prop) : safe P (throw e) Q.
Proof. apply safe_pure. intros g r' g' Hr. unfold throw in Hr. injection Hr as <- <-. split; [done|]. by intros. Qed.

Lemma safe_lock P Q : (forall g G, healthy g G -> P g G -> Q (state g) g G) -> safe P gov_lock Q.
Proof.
  intros HQ. apply safe_pure. intros g r' g' Hr. unfold gov_lock in Hr.
  destruct (gov_poisoned g); injection Hr as <- <-; (split; [done|]); intros a G Ha; [done|].
  injection Ha as <-. auto.
Qed.

Lemma safe_set_state P (st : State) Q :
  (forall g G, healthy g G -> P g G -> coherent st G) ->
  (forall g G, healthy g G -> P g G ->
     Q tt (MkGovernor (repository g) (policy g) st (gov_poisoned g) (interference g) (ids_drawn g)) G) ->
  safe P (set_state st) Q.
Proof.
  intros Hc HQ g G r g' Hh HP Hr _. unfold set_state, modify in Hr. injection Hr as <- <-.
  exists G. split; [destruct Hh; split; simpl; eauto|]; [eapply Hc; [by split|done]|].
  split; [apply evolves_refl|auto].
Qed.

(** ** Interference and repository calls *)

Lemma interfere_healthy g G :
  healthy g G -> exists G', healthy (interfere g) G' /\ evolves G G'
    /\ forall n, n < limit -> new_id n ∈ G'.2 -> new_id n ∈ G.2.
Proof.
  intros [Hv Hp Hg Hu He Hs Hc]. unfold interfere. destruct (interference g) as [|e es] eqn:Ei.
  { exists G. split; [split; try done; by rewrite Ei|]. split; [apply evolves_refl|done]. }
  apply Forall_cons in He as [He Hes].
  destruct (He _ _ Hv Hg Hu) as (G' & Hv' & Hg' & Hu' & Hev & Hn). exists G'.
  split; [|done]. split; simpl; try done; [|by eapply coherent_evolves].
  intros n Hle Hin. eapply Hs, Hn; [done|lia|done].
Qed.

(** The governor after a repository call that left it at [s]. *)
Definition at_repository (g : Governor) (s : S) : Governor :=
  MkGovernor s (policy g) (state g) (gov_poisoned g) (interference g) (ids_drawn g).

Lemma repository_transact_spec g G ws ms r g' :
  environment -> healthy g G -> Forall2 encodes ws ms -> repository_transact ms g = (r, g') ->
  exists G1 s, healthy (interfere g) G1 /\ evolves G G1 /\ (forall n, n < limit -> new_id n ∈ G1.2 -> new_id n ∈ G.2)
    /\ g' = at_repository (interfere g) s
    /\ match r with
       | Ok _ => exists D', write_steps G1.1 ws = Some D' /\ gview s D'
       | Err e => gview s G1.1
                  \/ is_conflict e = false /\ exists D', write_steps G1.1 ws = Some D' /\ gview s D'
       end.
Proof.
  intros Henv Hh Hws Ht. destruct (interfere_healthy g G Hh) as (G1 & Hh1 & Hev & Hn).
  unfold repository_transact in Ht. destruct (transact (repository (interfere g)) ms) as [r0 s] eqn:Etr.
  injection Ht as <- <-. exists G1, s. do 4 (split; [done|]).
  destruct (healthy_view _ _ Hh1) as (recs & Hv & Hd).
  pose proof (encodes_all_wf _ _ (env_codec Henv) Hws) as Hwf.
  assert (forall recs', spec_mutations recs ms = Some recs' -> repo_view s recs' ->
    exists D', write_steps G1.1 ws = Some D' /\ gview s D') as Hcommit.
  { intros recs' Hs Hv'. pose proof (write_steps_spec ws ms recs G1.1 (env_codec Henv) Hd Hws) as Hrel.
    rewrite Hs in Hrel. inversion Hrel as [? D' Hd' Heq|]; subst. exists D'. split; [done|]. by exists recs'. }
  destruct r0 as [receipt|e].
  - destruct (transact_ok _ _ _ _ _ Hv Hwf Etr) as (recs' & Hs & Hv'). eauto.
  - destruct (transact_err _ _ _ _ _ Hv Hwf Etr) as [Hv'|(Hc & recs' & Hs & Hv')].
    + left. by exists recs.
    + right. eauto.
Qed.

(** A write set that keeps the invariant from every durable state the cache is
    coherent with, where [U] are the identifiers it gives to leases. *)
Definition write_set (st : State) (l : list Account) (U : gset EntityId) (ws : list write)
    (X : Ghost -> Ghost -> Prop) : Prop :=
  forall G D', governed G.1 -> used G -> coherent st G -> (U ## G.2) -> write_steps G.1 ws = Some D' ->
    committed st l G (D', U ∪ G.2) /\ X G (D', U ∪ G.2).

(** The identifiers of [U] were drawn by this governor and are not in use. *)
Definition drawn (U : gset EntityId) (g : Governor) (G : Ghost) : Prop :=
  forall id, id ∈ U -> (id ∉ G.2) /\ exists n, n < ids_drawn g /\ n < limit /\ id = new_id n.

Lemma interfere_state (g : Governor) : state (interfere g) = state g.
Proof. unfold interfere. by destruct (interference g). Qed.

Lemma transact_healthy st l U ws X ms g G r g' :
  environment -> write_set st l U ws X -> Forall2 encodes ws ms ->
  healthy g G -> state g = st -> drawn U g G -> repository_transact ms g = (r, g') ->
  exists G', healthy g' G' /\ evolves G G' /\ state g' = st
    /\ match r with
       | Ok _ => exists G1, coherent st G1 /\ committed st l G1 G' /\ X G1 G'
       | Err _ => True
       end.
Proof.
  intros Henv Hset Hws Hh Hst Hdr Ht.
  destruct (repository_transact_spec _ _ _ _ _ _ Henv Hh Hws Ht) as (G1 & s & Hh1 & Hev & Hn & -> & Hr).
  pose proof (interfere_state g) as Hs1. pose proof (interfere_ids g) as Hi1.
  assert (coherent st G1) as Hco by (rewrite <- Hst, <- Hs1; apply Hh1).
  assert (gview s G1.1 -> healthy (at_repository (interfere g) s) G1) as Hsame.
  { intros Hv. destruct Hh1. by split. }
  assert (forall D', write_steps G1.1 ws = Some D' -> gview s D' ->
    let G' := (D', U ∪ G1.2) in
    healthy (at_repository (interfere g) s) G' /\ evolves G G' /\ committed st l G1 G' /\ X G1 G') as Hcommit.
  { intros D' Hw Hv. destruct (Hset G1 D') as [Hc HX]; try done; [apply Hh1..| |].
    { intros id Hid Hin. destruct (Hdr id Hid) as [Hni (n & _ & Hlt & ->)]. by apply Hni, Hn. }
    split; [|split; [by eapply healthy_evolves_trans, (committed_evolves _ _ _ _ _ _ _ Hc)|done]].
    destruct Hh1 as [_ Hp _ _ He Hsup _]. split; simpl in *; try done; try apply Hc.
    - intros n Hle Hin. apply elem_of_union in Hin as [Hin|Hin]; [|by apply (Hsup n)].
      destruct (Hdr _ Hin) as [_ (m & Hm & Hlt & Heq)]. apply (env_new_inj Henv) in Heq; lia.
    - rewrite Hs1, Hst. eapply coherent_evolves; [done|apply Hc]. }
  destruct r as [receipt|e].
  - destruct Hr as (D' & Hw & Hv). destruct (Hcommit D' Hw Hv) as (? & ? & ? & ?).
    exists (D', U ∪ G1.2). simpl. rewrite Hs1. eauto 10.
  - destruct Hr as [Hv|(_ & D' & Hw & Hv)].
    + exists G1. simpl. rewrite Hs1. auto.
    + destruct (Hcommit D' Hw Hv) as (? & ? & _). exists (D', U ∪ G1.2). simpl. rewrite Hs1. auto.
Qed.

(** After a commit: the cache is still the one the batch was computed from. *)
Definition after_commit (st : State) (l : list Account) (X : Ghost -> Ghost -> Prop)
    (g : Governor) (G : Ghost) : Prop :=
  state g = st /\ exists G1, coherent st G1 /\ committed st l G1 G /\ X G1 G.

Lemma transact_classified_healthy st l U ws X ms g G r g' :
  environment -> write_set st l U ws X -> Forall2 encodes ws ms ->
  healthy g G -> state g = st -> drawn U g G -> transact_classified ms g = (r, g') ->
  exists G', healthy g' G' /\ evolves G G'
    /\ match r with Ok _ => after_commit st l X g' G' | Err _ => True end.
Proof.
  intros Henv Hset Hws Hh Hst Hdr Ht. unfold transact_classified in Ht.
  destruct (repository_transact ms g) as [r0 g0] eqn:Etr. injection Ht as <- <-.
  destruct (transact_healthy _ _ _ _ _ _ _ _ _ _ Henv Hset Hws Hh Hst Hdr Etr) as (G' & ? & ? & ? & HX).
  exists G'. split; [done|]. split; [done|]. destruct r0; simpl; [by split|done].
Qed.

Lemma safe_transact_classified st l U ws X ms :
  environment -> write_set st l U ws X -> Forall2 encodes ws ms ->
  safe (fun g G => state g = st /\ drawn U g G) (transact_classified ms)
    (fun _ => after_commit st l X).
Proof.
  intros Henv Hset Hws g G r g' Hh [Hst Hdr] Ht _.
  by apply (transact_classified_healthy _ _ _ _ _ _ _ _ _ _ Henv Hset Hws Hh Hst Hdr Ht).
Qed.

Lemma safe_transact_unless_conflict st l U ws X ms attempt :
  environment -> write_set st l U ws X -> Forall2 encodes ws ms ->
  safe (fun g G => state g = st /\ drawn U g G) (transact_unless_conflict attempt ms)
    (fun o g G => match o with Some _ => after_commit st l X g G | None => True end).
Proof.
  intros Henv Hset Hws g G r g' Hh [Hst Hdr] Ht _. unfold transact_unless_conflict in Ht.
  destruct (repository_transact ms g) as [r0 g0] eqn:Etr.
  destruct (transact_healthy _ _ _ _ _ _ _ _ _ _ Henv Hset Hws Hh Hst Hdr Etr) as (G' & ? & ? & ? & HX).
  exists G'. destruct r0 as [receipt|e].
  - injection Ht as <- <-. split; [done|]. split; [done|]. by split.
  - destruct (is_conflict e && _)%bool; injection Ht as <- <-; auto.
Qed.

Lemma drawn_none g G : drawn ∅ g G.
Proof. intros id Hid. set_solver. Qed.

(** ** Reloading *)

Abbreviation wf_account := (wf_account (S:=S) in_play).

(** [st] holds exactly the records of [D] whose identifier satisfies [P]. *)
Record loaded (D : Durable) (P : EntityId -> Prop) (st : State) : Prop := {
  loaded_accounts : forall k a, accounts st !! k = Some a <->
    exists id, P id /\ D !! id = Some (SAccount a) /\ account_key a = k;
  loaded_pending : forall id p, pending st !! id = Some p <-> P id /\ D !! id = Some (SPending p);
  loaded_leases : forall id l, leases st !! id = Some l <-> P id /\ D !! id = Some (SLease l)
}.

Lemma decode_stored_as r x : stored_as r x -> decode r = (Ok x : result Error _).
Proof.
  intros (Hf & Hid & Hrev). unfold decode. rewrite Hf. simpl.
  by rewrite !bool_decide_eq_true_2.
Qed.

Lemma lookup_insert_iff {K V} `{Countable K} (m : gmap K V) k k' v w :
  <[k := v]> m !! k' = Some w <-> (k' = k /\ w = v) \/ (k' <> k /\ m !! k' = Some w).
Proof.
  destruct (decide (k' = k)) as [->|Hne].
  - rewrite lookup_insert_eq. naive_solver.
  - rewrite lookup_insert_ne by done. naive_solver.
Qed.

Lemma load_record_spec D P st r x :
  governed D -> loaded D P st -> ~ P (rec_id r) -> stored_as r x -> D !! rec_id r = Some x ->
  exists st', load_record st r = (Ok st' : result Error _)
    /\ loaded D (fun id => id = rec_id r \/ P id) st'.
Proof.
  intros HG [LA LP LL] Hni Hst HD. unfold load_record. rewrite (decode_stored_as _ _ Hst). simpl.
  destruct Hst as (_ & Hid & _). destruct x as [a|p|l]; simpl in *.
  - destruct (accounts st !! (acc_scope a, acc_resource a)) as [b|] eqn:Eb.
    { exfalso. apply LA in Eb as (id & HP & Hb & Hk).
      destruct (governed_account _ _ _ _ HG _ _ Hb) as [Hn _ _ _ _ _].
      destruct (governed_account _ _ _ _ HG _ _ HD) as [Hn' _ _ _ _ _].
      unfold account_key in Hk. injection Hk as Hs Hr. rewrite Hs, Hr, Hn' in Hn. injection Hn as <-. done. }
    rewrite bool_decide_eq_false_2 by (by intros []). simpl. eexists. split; [done|]. split; simpl.
    + intros k b. rewrite lookup_insert_iff, LA. split.
      * intros [[-> ->]|[Hne (id & HP & Hb & Hk)]]; [exists (rec_id r); auto|exists id; auto].
      * intros (id & [->|HP] & Hb & <-); [rewrite HD in Hb; injection Hb as <-; by left|]. right.
        split; [|by exists id]. intros Hk.
        assert (accounts st !! account_key b = Some b) as Hl by (apply LA; eauto). congruence.
    + intros id p. rewrite LP. split; [intros []; auto|]. intros [[->|HP] Hp]; [congruence|auto].
    + intros id l. rewrite LL. split; [intros []; auto|]. intros [[->|HP] Hp]; [congruence|auto].
  - rewrite Hid. destruct (pending st !! rec_id r) as [b|] eqn:Eb.
    { exfalso. apply LP in Eb as [HP _]. done. }
    rewrite bool_decide_eq_false_2 by (by intros []). simpl. eexists. split; [done|]. split; simpl.
    + intros k b. rewrite LA. split; intros (id & HP & Hb & Hk); exists id; [by auto|].
      destruct HP as [->|HP]; [congruence|auto].
    + intros id q. rewrite lookup_insert_iff, LP. split.
      * intros [[-> ->]|[Hne []]]; auto.
      * intros [[->|HP] Hp]; [left; split; congruence|]. right. split; [by intros ->|auto].
    + intros id l. rewrite LL. split; [intros []; auto|]. intros [[->|HP] Hp]; [congruence|auto].
  - rewrite Hid. destruct (leases st !! rec_id r) as [b|] eqn:Eb.
    { exfalso. apply LL in Eb as [HP _]. done. }
    rewrite bool_decide_eq_false_2 by (by intros []). simpl. eexists. split; [done|]. split; simpl.
    + intros k b. rewrite LA. split; intros (id & HP & Hb & Hk); exists id; [by auto|].
      destruct HP as [->|HP]; [congruence|auto].
    + intros id q. rewrite LP. split; [intros []; auto|]. intros [[->|HP] Hp]; [congruence|auto].
    + intros id q. rewrite lookup_insert_iff, LL. split.
      * intros [[-> ->]|[Hne []]]; auto.
      * intros [[->|HP] Hp]; [left; split; congruence|]. right. split; [by intros ->|auto].
Qed.

Lemma load_records_spec D rs P st :
  governed D -> loaded D P st -> NoDup (rec_id <$> rs) ->
  (forall r, r ∈ rs -> ~ P (rec_id r) /\ exists x, stored_as r x /\ D !! rec_id r = Some x) ->
  exists st', try_fold load_record st rs = (Ok st' : result Error _)
    /\ loaded D (fun id => id ∈ rec_id <$> rs \/ P id) st'.
Proof.
  intros HG. revert P st. induction rs as [|r rs IH]; intros P st Hld Hnd Hrs; csimpl in *.
  { exists st. split; [done|]. destruct Hld as [LA LP LL]. split.
    - intros k a. rewrite LA. split; intros (id & HP & Hx); exists id; [auto|].
      destruct HP as [?%elem_of_nil|?]; done.
    - intros id p. rewrite LP. split; intros [HP Hx]; split; auto. by destruct HP as [?%elem_of_nil|?].
    - intros id p. rewrite LL. split; intros [HP Hx]; split; auto. by destruct HP as [?%elem_of_nil|?]. }
  apply NoDup_cons in Hnd as [Hni Hnd]. destruct (Hrs r) as (HP & x & Hst & Hx); [by left|].
  destruct (load_record_spec D P st r x HG Hld HP Hst Hx) as (st1 & -> & Hld1).
  destruct (IH _ st1 Hld1 Hnd) as (st2 & Hf & Hld2).
  - intros q Hq. destruct (Hrs q) as (HPq & y & Hy); [by right|]. split; [|by exists y].
    intros [Heq|?]; [|done]. apply Hni. rewrite <- Heq. by apply list_elem_of_fmap_2.
  - exists st2. split; [done|]. destruct Hld2 as [LA LP LL]. split.
    + intros k a. rewrite LA. setoid_rewrite elem_of_cons. naive_solver.
    + intros id p. rewrite LP, elem_of_cons. naive_solver.
    + intros id p. rewrite LL, elem_of_cons. naive_solver.
Qed.

Lemma listed_nodup rs :
  StronglySorted (fun r q => rcmp (rec_id r) (rec_id q) = Lt) rs -> NoDup (rec_id <$> rs).
Proof.
  induction 1 as [|r rs Hs IH Hr]; csimpl; constructor; [|done].
  intros (q & Heq & Hq)%list_elem_of_fmap. rewrite Forall_forall in Hr. specialize (Hr _ Hq).
  rewrite Heq in Hr. by rewrite rcmp_refl in Hr.
Qed.

(** Reloading gives exactly the durable state, or the error of the repository. *)
Lemma load_state_spec g G r g' :
  healthy g G -> load_state g = (r, g') ->
  g' = interfere g /\ exists G1, healthy g' G1 /\ evolves G G1
    /\ match r with
       | Ok st => loaded G1.1 (fun _ => True) st
       | Err e => exists e', e = ReRepository e'
       end.
Proof.
  intros Hh Hl. unfold load_state, repository_list in Hl.
  destruct (list_records (repository (interfere g)) ResourceGovernance) as [rs|e] eqn:Er; simpl in Hl;
    injection Hl as <- <-; (split; [done|]);
    destruct (interfere_healthy g G Hh) as (G1 & Hh1 & Hev & _); exists G1; (split; [done|]);
    (split; [done|]); [|by eexists].
  destruct (healthy_view _ _ Hh1) as (recs & Hv & Hd).
  destruct (list_ok _ _ _ _ Hv Er) as [Hsort Hin].
  destruct (load_records_spec G1.1 rs (fun _ => False) default_state) as (st & -> & Hld).
  - apply Hh1.
  - split; simpl; intros ??; rewrite lookup_empty; naive_solver.
  - by apply listed_nodup.
  - intros q Hq. split; [by intros []|]. apply Hin in Hq. specialize (Hd (rec_id q)). rewrite Hq in Hd.
    inversion Hd as [? x [_ Hx] Heq|]; subst. by exists x.
  - assert (forall id x, G1.1 !! id = Some x -> id ∈ rec_id <$> rs) as Hall.
    { intros id x Hx. specialize (Hd id). rewrite Hx in Hd. inversion Hd as [q ? [Hid _] Heq|]; subst.
      apply list_elem_of_fmap_2, Hin. by symmetry. }
    destruct Hld as [LA LP LL]. split.
    + intros k a. rewrite LA. split; intros (id & HP & Ha & Hk); exists id; eauto 10.
    + intros id p. rewrite LP. split; intros [HP Hx]; split; eauto.
    + intros id p. rewrite LL. split; intros [HP Hx]; split; eauto.
Qed.

Lemma loaded_coherent G st lt :
  governed G.1 -> used G -> loaded G.1 (fun _ => True) st ->
  coherent (MkState (accounts st) (pending st) (leases st) lt) G.
Proof.
  intros HG Hu [LA LP LL]. split; simpl.
  - intros k a (id & _ & Ha & Hk)%LA. pose proof (governed_account _ _ _ _ HG _ _ Ha) as Hwf.
    split; [done|]. rewrite (account_self _ _ _ Hwf). split; [done|].
    exists a. split; [|by left]. apply account_at_Some. exists id. rewrite <- Hk. split; [apply Hwf|done].
  - intros id p [_ Hp]%LP. by apply (governed_pending _ _ _ _ HG).
  - intros id l [_ Hl]%LL. assert (lease_at G.1 id = Some l) as Hat by by apply lease_at_Some.
    split; [by apply (governed_lease _ _ _ _ HG)|]. split; [by eapply Hu|]. rewrite Hat.
    split; [|left; by eexists]. intros m [= <-]. by left.
Qed.

Lemma coherent_last_tree st lt G :
  coherent st G -> coherent (MkState (accounts st) (pending st) (leases st) lt) G.
Proof. intros [CA CP CL]. by split. Qed.

Lemma safe_refresh : safe anything refresh_durable_state (fun _ => anything).
Proof.
  unfold refresh_durable_state.
  sbind; [apply (safe_gets _ _ (fun st g _ => st = state g)); auto|]. intros st.
  sbind.
  { apply (safe_set_state _ _ (fun _ _ _ => True)); [|done]. intros g G Hh Hst. rewrite Hst. apply coherent_last_tree, Hh. }
  intros []. sbind_at (fun st' _ G => loaded G.1 (fun _ => True) st').
  { intros g G r g' Hh _ Hl _. destruct (load_state_spec _ _ _ _ Hh Hl) as (-> & G1 & Hh1 & Hev & Hr).
    exists G1. split; [done|]. split; [done|]. by destruct r. }
  intros st'. apply safe_set_state; [|done]. intros g G Hh Hld. apply loaded_coherent; [apply Hh..|done].
Qed.

(** ** Write sets *)

Abbreviation wf_pending := (wf_pending in_play id_space).

(** The leases of two durable states agree but for one identifier. *)
Definition leases_but (id : EntityId) (o : option ResourceLease) (G G' : Ghost) : Prop :=
  lease_at G'.1 id = o /\ forall id', id' <> id -> lease_at G'.1 id' = lease_at G.1 id'.

Lemma coherent_accounts_wf st G :
  coherent st G -> forall k a, accounts st !! k = Some a -> account_key a = k /\ wf_account (acc_id a) a.
Proof. intros Hco k a Ha. by destruct (coherent_account _ _ _ _ Hco _ _ Ha) as (? & ? & _). Qed.

Lemma grant_write_set st p l lease :
  let q := pend_request p in
  environment -> wf_request q -> lease_request lease = q -> lease_revision lease = Revision_ZERO ->
  id_canonical (lease_id lease) -> id_space (lease_id lease) = LeaseSpace ->
  Forall2 (account_next in_play st (req_resource q) 0 (req_units q)) (scopes (req_path q)) l ->
  exhausted st pol (req_path q) (req_resource q) (req_units q) true = (Ok None : result Error _) ->
  write_set st l {[lease_id lease]}
    ((account_write st <$> l) ++
     [WPut (SLease lease) PreMissing; WDelete (req_id q) (PreExact (pend_revision p))])
    (leases_but (lease_id lease) (Some lease)).
Proof.
  intros q Henv Hq Hreq Hrev Hcan Hsp H2 He G D' HG Hu Hco Hdis Hw.
  destruct (grant_committed in_play id_space pol st G l lease p D' (env_ids Henv)) as (Hc & Hl & Ho);
    try done; set_solver.
Qed.

Lemma release_write_set st lease l :
  let q := lease_request lease in
  environment -> leases st !! lease_id lease = Some lease ->
  Forall2 (account_next in_play st (req_resource q) 0 (- req_units q)) (scopes (req_path q)) l ->
  write_set st l ∅
    ((account_write st <$> l) ++ [WDelete (lease_id lease) (PreExact (lease_revision lease))])
    (leases_but (lease_id lease) None).
Proof.
  intros q Henv Hl H2 G D' HG Hu Hco _ Hw. rewrite (left_id_L ∅ (∪)).
  by destruct (release_committed in_play id_space pol st G l lease D' (env_ids Henv) HG Hu Hco Hl H2 Hw)
    as (? & ? & ?).
Qed.

Lemma usage_write_set st l ss resource units :
  environment -> NoDup ss -> is_concurrency resource = false ->
  Forall2 (account_next in_play st resource units 0) ss l ->
  exhausted_in st pol ss resource units false = (Ok None : result Error _) ->
  write_set st l ∅ (account_write st <$> l) (fun G G' => forall id, lease_at G'.1 id = lease_at G.1 id).
Proof.
  intros Henv Hnd Hres H2 He G D' HG Hu Hco _ Hw. rewrite (left_id_L ∅ (∪)).
  by eapply usage_committed; [apply Henv|..].
Qed.

Lemma heartbeat_write_set st lease updated :
  environment -> leases st !! lease_id lease = Some lease ->
  lease_id updated = lease_id lease -> lease_request updated = lease_request lease ->
  is_u64 (revision_get (lease_revision updated)) ->
  (revision_get (lease_revision lease) < revision_get (lease_revision updated))%Z ->
  write_set st [] ∅ [WPut (SLease updated) (PreExact (lease_revision lease))]
    (leases_but (lease_id lease) (Some updated)).
Proof.
  intros Henv Hl Hid Hreq Hu64 Hlt G D' HG Hu Hco _ Hw. rewrite (left_id_L ∅ (∪)).
  by destruct (heartbeat_committed in_play id_space pol st G lease updated D' (env_ids Henv) HG Hu Hco Hl
    Hid Hreq Hu64 Hlt Hw) as (? & ? & ?).
Qed.

Lemma submit_write_set st p :
  environment -> wf_pending (req_id (pend_request p)) p ->
  write_set st [] ∅ [WPut (SPending p) PreMissing] (fun G G' => forall id, lease_at G'.1 id = lease_at G.1 id).
Proof.
  intros Henv Hp G D' HG Hu Hco _ Hw. rewrite (left_id_L ∅ (∪)). simpl in Hw.
  destruct (revision_admitted _ _ _); [|done]. injection Hw as <-.
  apply (pending_committed in_play id_space pol st G (req_id (pend_request p)) _ (Some p)); try done;
    [apply Henv|apply (request_space _ _ _ (pending_wf_request _ _ _ _ Hp))|].
  by intros p' [= <-].
Qed.

Lemma delete_pending_write_set st rid p :
  environment -> id_space rid = RequestSpace ->
  write_set st [] ∅ [WDelete rid p] (fun G G' => forall id, lease_at G'.1 id = lease_at G.1 id).
Proof.
  intros Henv Hp G D' HG Hu Hco _ Hw. rewrite (left_id_L ∅ (∪)). simpl in Hw.
  destruct (precondition_holds _ _); [|done]. injection Hw as <-.
  by apply (pending_committed in_play id_space pol st G rid _ None); try done; [apply Henv].
Qed.

(** ** Writes of the service *)

Lemma after_commit_coherent st l X g G st' :
  environment -> after_commit st l X g G ->
  accounts st' = accounts (apply_accounts st ((fun a => (account_key a, a)) <$> l)) ->
  (forall id p, pending st' !! id = Some p -> wf_pending id p) ->
  (forall G1, coherent st G1 -> X G1 G -> forall id m, leases st' !! id = Some m ->
     (leases st !! id = Some m /\ lease_at G.1 id = lease_at G1.1 id)
     \/ (wf_lease in_play id_space id m /\ (id ∈ G.2) /\ lease_at G.1 id = Some m)) ->
  coherent st' G.
Proof.
  intros Henv (_ & G1 & Hco & Hc & HX) Ha Hp Hl.
  pose proof (own_keys_distinct _ _ _ _ _ (committed_own _ _ _ _ _ _ _ Hc)) as Hnd.
  eapply coherent_own; [apply Henv|exact Hco|exact Hc| | |done|eauto].
  - intros a Hin. rewrite Ha. by apply apply_accounts_in.
  - intros k Hk. rewrite Ha. by apply apply_accounts_other.
Qed.

(** A failed computation that left the governor alone. *)
Lemma safe_stop g G : healthy g G -> exists G', healthy g G' /\ evolves G G' /\ True.
Proof. intros Hh. exists G. split; [done|]. split; [apply evolves_refl|done]. Qed.

Lemma safe_commit {A} st l U ws X ms st' (a : A) (Q : A -> Governor -> Ghost -> Prop) :
  environment -> write_set st l U ws X -> Forall2 encodes ws ms ->
  (forall g G, after_commit st l X g G -> coherent st' G) ->
  (forall g G, healthy g G -> state g = st' -> (exists G1, evolves G1 G /\ X G1 G) -> Q a g G) ->
  safe (fun g G => state g = st /\ drawn U g G)
    (transact_classified ms ;; set_state st' ;; mret a) Q.
Proof.
  intros Henv Hset Hws Hco HQ. sbind; [by eapply safe_transact_classified|]. intros receipt.
  sbind; [apply (safe_set_state _ _
    (fun _ g G => state g = st' /\ exists G1, evolves G1 G /\ X G1 G)); [eauto|]|].
  - intros g G Hh (_ & G1 & _ & Hc & HX). split; [done|]. exists G1. split; [apply Hc|done].
  - intros []. apply safe_ret. intros g G Hh [Hst HX]. auto.
Qed.

Lemma draw_healthy g G :
  environment -> healthy g G -> ids_drawn g < limit ->
  let g1 := MkGovernor (repository g) (policy g) (state g) (gov_poisoned g) (interference g)
              (Datatypes.S (ids_drawn g)) in
  healthy g1 G /\ drawn {[new_id (ids_drawn g)]} g1 G.
Proof.
  intros Henv [Hv Hp Hg Hu Hen Hs Hc] Hlt. split; [split; simpl; try done; intros n Hn; apply Hs; lia|].
  intros id ->%elem_of_singleton. split; [by apply Hs|]. exists (ids_drawn g). simpl. split; [lia|done].
Qed.

Lemma safe_grant st p now :
  environment -> is_i64 (unix_millis now) -> wf_request (pend_request p) ->
  exhausted st pol (req_path (pend_request p)) (req_resource (pend_request p)) (req_units (pend_request p)) true
    = (Ok None : result Error _) ->
  safe (fun g _ => state g = st) (grant new_id p now)
    (fun lease g G => leases (state g) !! lease_id lease = Some lease /\ lease_at G.1 (lease_id lease) = Some lease
       /\ lease_request lease = pend_request p).
Proof.
  intros Henv Hnow Hq He g G r g' Hh Hst Hr Hlim. set (q := pend_request p) in *.
  unfold grant in Hr. rewrite stateT_bind_unfold in Hr. unfold gets at 1 in Hr.
  rewrite stateT_bind_unfold in Hr. unfold entity_id_new at 1 in Hr.
  match type of Hr with ?m ?h = _ => assert (Mono m) as Hmono by solve_mono; specialize (Hmono h) end.
  rewrite Hr in Hmono. simpl in Hmono.
  destruct (draw_healthy g G Henv Hh) as [Hh1 Hdr]; [lia|].
  set (g1 := MkGovernor (repository g) _ _ _ _ _) in *. set (id := new_id (ids_drawn g)) in *.
  rewrite Hst in Hr. rewrite stateT_bind_unfold in Hr. unfold lift at 1 in Hr. fold q in Hr.
  destruct (checked_timestamp now _) as [expires|e]; [|injection Hr as <- <-; by apply safe_stop].
  set (lease := MkLease id q now now expires Revision_ZERO) in *.
  rewrite stateT_bind_unfold in Hr. unfold lift at 1 in Hr.
  destruct (account_updates st _ _ _ true now) as [[ups ms]|e] eqn:Eu; [|injection Hr as <- <-; by apply safe_stop].
  rewrite stateT_bind_unfold in Hr. unfold lift at 1 in Hr.
  destruct (put_mutation id (SLease lease) _ now _) as [put|e] eqn:Ep; [|injection Hr as <- <-; by apply safe_stop].
  assert (coherent st G) as Hco by (rewrite <- Hst; apply Hh).
  destruct (account_updates_spec in_play st (req_path q) (req_resource q) (req_units q) true now ups ms)
    as (l & -> & H2 & Henc);
    [by eapply coherent_accounts_wf|apply (request_in_play _ _ _ Hq)|pose proof (request_units _ _ _ Hq); lia
    |done|done|].
  assert (wf_lease in_play id_space id lease) as Hwl.
  { split; try done; apply Henv; lia. }
  eapply (safe_commit st l {[id]} _ _ _ _ lease (fun lease g G =>
    leases (state g) !! lease_id lease = Some lease /\ lease_at G.1 (lease_id lease) = Some lease
    /\ lease_request lease = q)); [done| | | | |exact Hh1| |exact Hr|exact Hlim]; [| | | |done].
  - apply (grant_write_set st p l lease); try done; apply Henv; lia.
  - apply Forall2_app; [done|]. constructor; [|constructor; [constructor|constructor]].
    apply (put_mutation_encodes (SLease lease) now PreMissing); [done|done|apply Hwl|apply Hwl].
  - intros g2 G2 Hac. eapply after_commit_coherent; [done|exact Hac|done| |]; simpl.
    + intros rid p'. destruct (decide (rid = req_id q)) as [->|Hne]; [by rewrite lookup_delete_eq|].
      rewrite lookup_delete_ne by done. apply (coherent_pending _ _ _ _ Hco).
    + intros G1 Hco1 [Hl Ho] id' m. rewrite lookup_insert_iff. intros [[-> ->]|[Hne Hm]].
      * right. split; [done|]. split; [|done]. destruct Hac as (_ & G3 & _ & Hc & _).
        by eapply (committed_used _ _ _ _ _ _ _ Hc).
      * left. split; [done|]. by apply Ho.
  - intros g2 G2 Hh2 Hs2 (G1 & _ & Hl & _). rewrite Hs2. simpl. split; [apply lookup_insert_eq|]. done.
Qed.

Lemma safe_delete_pending p :
  environment -> wf_request (pend_request p) ->
  safe anything (delete_pending p) (fun _ => anything).
Proof.
  intros Henv Hq g G r g' Hh _ Hr Hlim. set (st := state g). set (rid := req_id (pend_request p)) in *.
  unfold delete_pending in Hr. rewrite stateT_bind_unfold in Hr.
  destruct (transact_classified _ g) as [[receipt|e] g1] eqn:Et;
    (eapply (transact_classified_healthy st [] ∅) in Et as (G1 & Hh1 & Hev & Hac);
      [|done|by apply delete_pending_write_set, (request_space _ _ _ Hq)|by repeat constructor|exact Hh
       |done|apply drawn_none]).
  - rewrite stateT_bind_unfold in Hr. unfold gets in Hr. unfold set_state, modify in Hr.
    injection Hr as <- <-. exists G1. split; [|split; [done|done]].
    destruct Hh1 as [Hv Hp Hg Hu He Hs Hc]. split; simpl; try done.
    destruct Hac as [Hst Hac]. destruct Hc as [CA CP CL]. split; simpl; try done.
    intros id p'. destruct (decide (id = rid)) as [->|Hne]; [by rewrite lookup_delete_eq|].
    rewrite lookup_delete_ne by done. apply CP.
  - injection Hr as <- <-. by exists G1.
Qed.

Lemma safe_release_locked L lease now :
  environment -> is_i64 (unix_millis now) -> L !! lease_id lease = Some lease ->
  safe (fun g _ => leases (state g) = L) (release_locked lease now)
    (fun _ g G => lease_at G.1 (lease_id lease) = None /\ leases (state g) = delete (lease_id lease) L).
Proof.
  intros Henv Hnow HL' g G r g' Hh Hst Hr Hlim. set (st := state g) in *. set (q := lease_request lease) in *.
  assert (leases st !! lease_id lease = Some lease) as Hl by by rewrite Hst.
  assert (coherent st G) as Hco by apply Hh.
  destruct (coherent_lease _ _ _ _ Hco _ _ Hl) as (Hwl & _).
  pose proof (lease_wf_request _ _ _ _ Hwl) as Hq. fold q in Hq.
  unfold release_locked in Hr. rewrite stateT_bind_unfold in Hr. unfold gets in Hr. fold st q in Hr.
  rewrite stateT_bind_unfold in Hr. unfold lift in Hr.
  destruct (try_fold _ _ _) as [[changes ms]|e] eqn:Ef; [|injection Hr as <- <-; by apply safe_stop].
  eapply (batch_fold _ _ (account_write st)) in Ef as (l & ms' & Heq & H2 & Henc).
  2:{ intros b scope b' _ Hf. eapply (release_account_spec in_play); try done;
        [by eapply coherent_accounts_wf|pose proof (request_units _ _ _ Hq); fold q; lia]. }
  injection Heq as -> ->.
  assert (Forall2 (account_next in_play st (req_resource q) 0 (- req_units q)) (scopes (req_path q)) l) as H2'.
  { eapply Forall2_impl; [exact H2|]. by intros scope a [_ ?]. }
  rewrite stateT_bind_unfold in Hr.
  destruct (transact_classified _ g) as [[receipt|e] g1] eqn:Et;
    (eapply (transact_classified_healthy st l ∅) in Et as (G1 & Hh1 & Hev & Hac);
      [|done|by apply (release_write_set st lease l)
       |apply Forall2_app; [done|repeat constructor]|exact Hh|done|apply drawn_none]).
  - unfold set_state, modify in Hr. injection Hr as <- <-. exists G1. split; [|split; [done|]].
    + destruct Hh1 as [Hv Hp Hg Hu He Hs Hc]. split; simpl; try done.
      eapply after_commit_coherent; [done|exact Hac|done| |]; simpl.
      * apply (coherent_pending _ _ _ _ Hco).
      * intros G2 _ [_ Ho] id m. destruct (decide (id = lease_id lease)) as [->|Hne];
          [by rewrite lookup_delete_eq|].
        rewrite lookup_delete_ne by done. intros Hm. left. split; [done|]. by apply Ho.
    + destruct Hac as (_ & G2 & _ & _ & Hn & _). simpl. split; [done|]. by rewrite Hst.
  - injection Hr as <- <-. by exists G1.
Qed.

(** ** Operations *)

Lemma safe_unless_conflict {A} P attempt (m : gov_m A) Q :
  safe P m Q -> safe P (unless_conflict attempt m)
    (fun o g G => match o with Some a => Q a g G | None => True end).
Proof.
  intros Hm g G r g' Hh HP Hr Hlim. unfold unless_conflict in Hr. destruct (m g) as [[a|e] g1] eqn:Em.
  - injection Hr as <- <-. by apply (Hm _ _ _ _ Hh HP Em).
  - assert (g' = g1) as -> by (destruct e; simpl in Hr; try congruence; destruct (attempt <? _)%nat; congruence).
    destruct (Hm _ _ _ _ Hh HP Em Hlim) as (G1 & ? & ? & _). exists G1.
    destruct e; try (injection Hr as <-; done). destruct (attempt <? _)%nat; injection Hr as <-; done.
Qed.

Lemma mono_retry_from {A} (body : nat -> gov_m (option A)) after attempts :
  MonoAll body -> Mono (retry_from attempts body after).
Proof.
  intros Hb. induction attempts as [|attempt attempts IH]; simpl; [solve_mono|].
  apply mono_bind; [apply Hb|]. intros [a|]; solve_mono.
Qed.

Ltac solve_mono_attempt :=
  intros ?;
  first [progress unfold release_attempt | progress unfold schedule_request_attempt
        | progress unfold heartbeat_attempt | progress unfold record_usage_attempt];
  solve_mono.

Lemma safe_retry {A} (body : nat -> gov_m (option A)) after Q :
  MonoAll body ->
  (forall attempt, safe anything (body attempt)
     (fun o g G => match o with Some a => Q a g G | None => True end)) ->
  safe anything (retry body after) Q.
Proof.
  intros HM Hb. unfold retry. generalize (seq 0 (MAX_CONFLICT_RETRIES + 1)). intros attempts.
  induction attempts as [|attempt attempts IH]; simpl; [apply safe_throw|].
  pose proof (mono_retry_from body after attempts HM) as Hrest. sbind; [apply Hb|]. intros [a|]; [by apply safe_ret|exact IH].
Qed.

(** The cached state and the policy, read at the start of an attempt. *)
Lemma safe_read {A} (f : State -> gov_m A) Q :
  (forall st, safe (fun g G => state g = st /\ coherent st G) (f st) Q) ->
  safe anything (st ← gets state; f st) Q.
Proof.
  intros Hf g G r g' Hh _ Hr Hlim. rewrite stateT_bind_unfold in Hr. unfold gets in Hr.
  eapply (Hf (state g)); [done| |done|done]. split; [done|apply Hh].
Qed.

Lemma safe_policy {A} P (f : ResourcePolicy -> gov_m A) Q :
  safe P (f pol) Q -> safe P (p ← gets policy; f p) Q.
Proof.
  intros Hf g G r g' Hh HP Hr Hlim. rewrite stateT_bind_unfold in Hr. unfold gets in Hr.
  rewrite (healthy_policy _ _ Hh) in Hr. by eapply Hf.
Qed.

Lemma safe_lift_bind {A B} P (x : result Error A) (f : A -> gov_m B) Q :
  (forall a, x = Ok a -> safe P (f a) Q) -> safe P (a ← lift x; f a) Q.
Proof.
  intros Hf g G r g' Hh HP Hr Hlim. rewrite stateT_bind_unfold in Hr. unfold lift in Hr.
  destruct x as [a|e]; [by eapply Hf|]. injection Hr as <- <-. by apply safe_stop.
Qed.

Lemma safe_lock_bind {A} P (f : State -> gov_m A) Q :
  (forall st, safe P (f st) Q) -> safe P (st ← gov_lock; f st) Q.
Proof.
  intros Hf g G r g' Hh HP Hr Hlim. rewrite stateT_bind_unfold in Hr. unfold gov_lock in Hr.
  destruct (gov_poisoned g); [|by eapply Hf]. injection Hr as <- <-. by apply safe_stop.
Qed.

Lemma safe_refresh_bind {A} (f : unit -> gov_m A) Q :
  MonoAll f -> (forall u, safe anything (f u) Q) -> safe anything (u ← refresh_durable_state; f u) Q.
Proof. intros HM Hf. eapply safe_bind; [done|apply safe_refresh|exact Hf]. Qed.

Lemma safe_fix {A} (P : Governor -> Ghost -> Prop) (m : gov_m A) Q :
  (forall g G, healthy g G -> P g G -> safe (fun g' G' => g' = g /\ P g' G') m Q) -> safe P m Q.
Proof. intros Hm g G r g' Hh HP Hr Hlim. by eapply (Hm g G Hh HP). Qed.

(** What the theorems ask of the arguments of an operation. *)
Definition wf_usage (d : UsageDelta) : Prop :=
  wf_path (usage_path d) /\ Forall in_play (scopes (usage_path d)) /\ (0 <= usage_units d)%Z.

Lemma safe_release_attempt id now attempt :
  environment -> is_i64 (unix_millis now) ->
  safe anything (release_attempt id now attempt)
    (fun o g G => match o with Some _ => lease_at G.1 id = None | None => True end).
Proof.
  intros Henv Hnow. unfold release_attempt. apply safe_refresh_bind; [solve_mono|]. intros _. apply safe_read. intros st.
  apply safe_lift_bind. intros lease Hl. apply ok_or_Ok in Hl.
  eapply safe_weaken; [apply (safe_unless_conflict (fun g G => state g = st /\ coherent st G) _ _
    (fun _ _ G => lease_at G.1 id = None))|done|by intros []].
  apply safe_fix. intros g G Hh [Hst Hco]. destruct (coherent_lease _ _ _ _ Hco _ _ Hl) as ([Hid _ _ _ _] & _).
  eapply safe_weaken; [apply (safe_release_locked (leases st) lease now Henv Hnow); by rewrite Hid| |].
  - intros g' G' [-> [-> _]]. done.
  - intros [] g' G' [Hn _]. by rewrite Hid in Hn.
Qed.

(** What a scheduling decision promises: a granted lease is durable. *)
Definition decided (outcome : ScheduleOutcome) (G : Ghost) : Prop :=
  match outcome with Granted lease => lease_at G.1 (lease_id lease) = Some lease | _ => True end.

Lemma pending_request_wf st G id p :
  coherent st G -> pending st !! id = Some p -> wf_request (pend_request p).
Proof. intros Hco Hp. apply (pending_wf_request _ _ _ _ (coherent_pending _ _ _ _ Hco _ _ Hp)). Qed.

Lemma safe_grant_from st p now :
  environment -> is_i64 (unix_millis now) -> wf_request (pend_request p) ->
  exhausted st pol (req_path (pend_request p)) (req_resource (pend_request p)) (req_units (pend_request p)) true
    = (Ok None : result Error _) ->
  safe (fun g G => state g = st /\ coherent st G) (grant new_id p now)
    (fun lease _ G => lease_at G.1 (lease_id lease) = Some lease).
Proof.
  intros Henv Hnow Hq He. eapply safe_weaken; [by apply (safe_grant st)|by intros g G [? _]|].
  by intros lease g G (_ & ? & _).
Qed.

Lemma safe_schedule_request_attempt id now attempt :
  environment -> is_i64 (unix_millis now) ->
  safe anything (schedule_request_attempt new_id id now attempt)
    (fun o _ G => match o with Some outcome => decided outcome G | None => True end).
Proof.
  intros Henv Hnow. unfold schedule_request_attempt. apply safe_refresh_bind; [solve_mono|]. intros _.
  apply safe_read. intros st. apply safe_policy. apply safe_lift_bind. intros p Hp. apply ok_or_Ok in Hp.
  apply safe_lift_bind. intros full Hfull. apply safe_fix. intros g0 G0 _ [_ Hco0].
  pose proof (pending_request_wf _ _ _ _ Hco0 Hp) as Hq. destruct full as [[scope []]|].
  - by apply safe_ret.
  - eapply safe_weaken; [apply (safe_unless_conflict anything _ _ (fun o _ G => decided o G))|done|by intros []].
    sbind; [by apply safe_delete_pending|]. intros []. by apply safe_ret.
  - eapply safe_weaken; [apply (safe_unless_conflict (fun g G => state g = st /\ coherent st G) _ _
      (fun o _ G => decided o G))|by intros g G [_ ?]|by intros []].
    sbind; [by apply safe_grant_from|]. intros lease. by apply safe_ret.
Qed.

Lemma safe_schedule_one now attempted :
  environment -> is_i64 (unix_millis now) ->
  safe anything (schedule_one new_id now attempted) (fun _ => anything).
Proof.
  intros Henv Hnow. unfold schedule_one. apply safe_read. intros st. apply safe_policy.
  destruct (select_next st attempted) as [id|]; [|by apply safe_ret].
  apply safe_lift_bind. intros p Hp. apply ok_or_Ok in Hp.
  apply safe_lift_bind. intros full Hfull. apply safe_fix. intros g0 G0 _ [_ Hco0].
  pose proof (pending_request_wf _ _ _ _ Hco0 Hp) as Hq. destruct full as [[scope []]|].
  - by apply safe_ret.
  - sbind; [eapply safe_weaken; [by apply safe_delete_pending|done|]|]; [done|].
    intros []. by apply safe_ret.
  - sbind_at (fun _ => anything).
    { eapply safe_weaken; [by apply safe_grant_from|by intros g G [_ ?]|done]. }
    intros lease. destruct (path_tree _) as [tree|]; [|by apply safe_ret].
    apply safe_read. intros st2. sbind; [|intros []; by apply safe_ret].
    apply (safe_set_state _ _ (fun _ => anything)); [|done]. intros g G Hh [_ Hc]. by apply coherent_last_tree.
Qed.

Lemma mono_schedule_loop fuel now attempted outcomes : Mono (schedule_loop new_id fuel now attempted outcomes).
Proof.
  revert attempted outcomes. induction fuel as [|fuel IH]; intros attempted outcomes; simpl; [solve_mono|].
  apply mono_bind; [unfold schedule_one; solve_mono|]. intros [[id outcome]|]; [apply IH|solve_mono].
Qed.

Lemma safe_schedule_loop fuel now attempted outcomes :
  environment -> is_i64 (unix_millis now) ->
  safe anything (schedule_loop new_id fuel now attempted outcomes) (fun _ => anything).
Proof.
  intros Henv Hnow. revert attempted outcomes. induction fuel as [|fuel IH]; intros attempted outcomes; simpl.
  { by apply safe_ret. }
  eapply safe_bind; [|by apply safe_schedule_one|].
  { intros [[]|]; [apply mono_schedule_loop|solve_mono]. }
  intros [[id outcome]|]; [apply IH|by apply safe_ret].
Qed.

Lemma safe_heartbeat_attempt id now attempt :
  environment -> is_i64 (unix_millis now) ->
  safe anything (heartbeat_attempt id now attempt)
    (fun o _ G => match o with Some l => lease_at G.1 id = Some l | None => True end).
Proof.
  intros Henv Hnow. unfold heartbeat_attempt. apply safe_refresh_bind; [solve_mono|]. intros _. apply safe_read. intros st.
  apply safe_lift_bind. intros lease Hl. apply ok_or_Ok in Hl.
  apply safe_lift_bind. intros _ _. apply safe_lift_bind. intros expires _.
  apply safe_lift_bind. intros rev Hrev. apply ok_or_Ok, checked_next_Some in Hrev as [Hrev Hmax].
  apply safe_lift_bind. intros put Hput. apply safe_fix. intros g0 G0 _ [_ Hco].
  destruct (coherent_lease _ _ _ _ Hco _ _ Hl) as ([Hid Hcan _ _ Hu64] & _).
  set (updated := MkLease _ _ _ _ _ _) in *.
  assert (is_u64 (revision_get (lease_revision updated))) as Hu64'.
  { destruct Hu64. unfold updated, is_u64. simpl. lia. }
  sbind.
  - eapply safe_weaken; [apply (safe_transact_unless_conflict st [] ∅ [WPut (SLease updated) (PreExact (lease_revision lease))]
      (leases_but (lease_id lease) (Some updated)))| |]; [done| | | |].
    + apply heartbeat_write_set; try done; [by rewrite Hid|simpl; lia].
    + constructor; [|constructor]. apply (put_mutation_encodes (SLease updated) now); try done.
      simpl. by rewrite Hid.
    + intros g G [_ [? _]]. split; [done|apply drawn_none].
    + intros o g G HQ. exact HQ.
  - intros [u|]; [|by apply safe_ret]. sbind.
    + apply (safe_set_state _ _ (fun _ _ G => lease_at G.1 id = Some updated)).
      * intros g G Hh Hac. eapply after_commit_coherent; [done|exact Hac|done| |]; simpl.
        -- apply (coherent_pending _ _ _ _ Hco).
        -- intros G1 _ [Hlu Ho] id' m. rewrite lookup_insert_iff. intros [[-> ->]|[Hne Hm]].
           ++ right. destruct Hac as (_ & G3 & _ & Hc & _).
              split; [by apply (governed_lease _ _ _ _ (committed_governed _ _ _ _ _ _ _ Hc)), lease_at_Some|].
              split; [|done]. by eapply (committed_used _ _ _ _ _ _ _ Hc).
           ++ left. split; [done|]. by apply Ho.
      * intros g G Hh (_ & G1 & _ & _ & Hlu & _). by rewrite Hid in Hlu.
    + intros []. by apply safe_ret.
Qed.

Lemma safe_record_usage_attempt d now attempt :
  environment -> is_i64 (unix_millis now) -> wf_usage d -> is_concurrency (usage_resource d) = false ->
  safe anything (record_usage_attempt d now attempt) (fun _ => anything).
Proof.
  intros Henv Hnow (Hpath & Hplay & Hunits) Hres. unfold record_usage_attempt.
  apply safe_refresh_bind; [solve_mono|]. intros _. apply safe_read. intros st. apply safe_policy.
  apply safe_lift_bind. intros full Hfull. destruct full as [[scope []]|]; [by apply safe_ret..|].
  apply safe_lift_bind. intros [ups ms] Hups. apply safe_fix. intros g0 G0 _ [_ Hco].
  destruct (account_updates_spec in_play st (usage_path d) (usage_resource d) (usage_units d) false now ups ms)
    as (l & -> & H2 & Henc); [by eapply coherent_accounts_wf|done..|].
  sbind.
  - eapply safe_weaken; [apply (safe_transact_unless_conflict st l ∅ (account_write st <$> l)
      (fun G G' => forall id, lease_at G'.1 id = lease_at G.1 id) ms attempt Henv)| |]; [|done| |].
    + by apply (usage_write_set st l _ _ _ Henv (path_unique _ Hpath) Hres H2).
    + intros g G [_ [? _]]. split; [done|apply drawn_none].
    + intros o g G HQ. exact HQ.
  - intros [u|]; [|by apply safe_ret]. sbind; [|intros []; by apply safe_ret].
    apply (safe_set_state _ _ (fun _ => anything)); [|done]. intros g G Hh Hac.
    eapply after_commit_coherent; [done|exact Hac|done|apply (coherent_pending _ _ _ _ Hco)|].
    simpl. intros G1 _ Hla id m Hm. left. split; [done|]. by rewrite Hla.
Qed.

Lemma safe_submit q :
  environment -> wf_request q -> is_i64 (unix_millis (req_submitted_at q)) ->
  safe anything (submit q) (fun _ => anything).
Proof.
  intros Henv Hq Hnow. unfold submit. apply safe_lift_bind. intros _ _. apply safe_lock_bind. intros _.
  apply safe_refresh_bind; [solve_mono|]. intros _. apply safe_read. intros st. apply safe_lift_bind. intros _ _.
  apply safe_policy. apply safe_lift_bind. intros _ _. apply safe_lift_bind. intros put Hput.
  apply safe_fix. intros g0 G0 _ [_ Hco]. set (p := MkPending q Revision_ZERO) in *.
  assert (wf_pending (req_id q) p) as Hp by by split.
  sbind.
  - eapply safe_weaken; [apply (safe_transact_classified st [] ∅ [WPut (SPending p) PreMissing]
      (fun G G' => forall id, lease_at G'.1 id = lease_at G.1 id) [put] Henv)| |].
    + by apply submit_write_set.
    + constructor; [|constructor].
      apply (put_mutation_encodes (SPending p) (req_submitted_at q)); try done; [apply (request_canonical _ _ _ Hq)].
    + intros g G [_ [? _]]. split; [done|apply drawn_none].
    + intros o g G HQ. exact HQ.
  - intros receipt. apply safe_set_state; [|done]. intros g G Hh Hac.
    eapply after_commit_coherent; [done|exact Hac|done| |]; simpl.
    + intros id p'. rewrite lookup_insert_iff. intros [[-> ->]|[_ Hp']]; [done|].
      by apply (coherent_pending _ _ _ _ Hco).
    + intros G1 _ Hla id m Hm. left. split; [done|]. by rewrite Hla.
Qed.

Lemma mono_fold_m {A B} (f : B -> A -> gov_m B) acc l : (forall b, MonoAll (f b)) -> Mono (fold_m f acc l).
Proof.
  intros Hf. revert acc. induction l as [|x l IH]; intros acc; simpl; [solve_mono|].
  apply mono_bind; [apply Hf|]. intros b. apply IH.
Qed.

Lemma safe_reclaim_all now L expired acc :
  environment -> is_i64 (unix_millis now) -> NoDup (lease_id <$> expired) ->
  (forall l, l ∈ expired -> L !! lease_id l = Some l) ->
  safe (fun g _ => leases (state g) = L) (fold_m (reclaim_one now) acc expired) (fun _ => anything).
Proof.
  intros Henv Hnow. revert L acc. induction expired as [|l expired IH]; intros L acc Hnd Hin; simpl.
  { by apply safe_ret. }
  csimpl in Hnd. apply NoDup_cons in Hnd as [Hni Hnd].
  eapply (safe_bind _ _ (fun _ g _ => leases (state g) = delete (lease_id l) L)).
  { intros acc'. apply mono_fold_m. intros ?. solve_mono. }
  - unfold reclaim_one. apply safe_lift_bind. intros recovery _. sbind.
    + apply (safe_release_locked L l now Henv Hnow). apply Hin. by left.
    + intros []. apply safe_ret. by intros g G _ [_ ?].
  - intros acc'. apply IH; [done|]. intros m Hm. rewrite lookup_delete_ne; [apply Hin; by right|].
    intros Heq. apply Hni. rewrite Heq. by apply list_elem_of_fmap_2.
Qed.

Lemma safe_reclaim_idle now :
  environment -> is_i64 (unix_millis now) -> safe anything (reclaim_idle now) (fun _ => anything).
Proof.
  intros Henv Hnow. unfold reclaim_idle. apply safe_lock_bind. intros _. apply safe_read. intros st.
  sbind; [|intros acc; by apply safe_ret].
  apply safe_fix. intros g0 G0 _ [_ Hco]. set (expired := filter _ _).
  assert (forall l, l ∈ expired -> leases st !! lease_id l = Some l) as Hin.
  { intros l [_ Hl]%list_elem_of_filter. apply elem_of_btree_values in Hl as [id Hid].
    destruct (coherent_lease _ _ _ _ Hco _ _ Hid) as ([Hself _ _ _ _] & _). by rewrite Hself. }
  eapply safe_weaken; [apply (safe_reclaim_all now (leases st) expired); try done| |done].
  - unfold expired. apply (sublist_NoDup _ (btree_keys (leases st))); [apply NoDup_btree_keys|].
    etransitivity; [apply fmap_sublist, sublist_filter|]. unfold btree_values, btree_keys.
    rewrite <- list_fmap_compose. apply reflexive_eq, list_fmap_ext.
    intros i [id l] Hi. simpl. apply list_elem_of_lookup_2, elem_of_btree_iter in Hi.
    by destruct (coherent_lease _ _ _ _ Hco _ _ Hi) as ([Hself _ _ _ _] & _).
  - by intros g G [_ [-> _]].
Qed.

(** ** The service *)

(** The public operations that may write, with what is asked of their arguments. *)
Inductive Operation :=
| OpSubmit (request : AcquireRequest)
| OpSchedule (now : UtcTimestamp) (max_decisions : nat)
| OpScheduleRequest (id : EntityId) (now : UtcTimestamp)
| OpRelease (id : EntityId) (now : UtcTimestamp)
| OpHeartbeat (id : EntityId) (now : UtcTimestamp)
| OpReclaimIdle (now : UtcTimestamp)
| OpRecordUsage (delta : UsageDelta) (now : UtcTimestamp).

Definition run (o : Operation) : gov_m unit :=
  match o with
  | OpSubmit q => submit q
  | OpSchedule now n => schedule new_id now n ;; mret tt
  | OpScheduleRequest id now => schedule_request new_id id now ;; mret tt
  | OpRelease id now => release id now
  | OpHeartbeat id now => heartbeat id now ;; mret tt
  | OpReclaimIdle now => reclaim_idle now ;; mret tt
  | OpRecordUsage d now => record_usage d now ;; mret tt
  end.

Definition wf_operation (o : Operation) : Prop :=
  match o with
  | OpSubmit q => wf_request q /\ is_i64 (unix_millis (req_submitted_at q))
  | OpSchedule now _ | OpScheduleRequest _ now | OpRelease _ now | OpHeartbeat _ now
  | OpReclaimIdle now => is_i64 (unix_millis now)
  | OpRecordUsage d now => wf_usage d /\ is_i64 (unix_millis now)
  end.

Lemma safe_release id now :
  environment -> is_i64 (unix_millis now) ->
  safe anything (release id now) (fun _ _ G => lease_at G.1 id = None).
Proof.
  intros Henv Hnow. unfold release. apply safe_lock_bind. intros _. apply safe_retry; [solve_mono_attempt|]. intros attempt.
  eapply safe_weaken; [by apply safe_release_attempt|done|]. by intros [[]|].
Qed.

Lemma safe_schedule_request id now :
  environment -> is_i64 (unix_millis now) ->
  safe anything (schedule_request new_id id now) (fun outcome _ G => decided outcome G).
Proof.
  intros Henv Hnow. unfold schedule_request. apply safe_lock_bind. intros _. apply safe_retry; [solve_mono_attempt|]. intros attempt.
  by apply safe_schedule_request_attempt.
Qed.

Lemma safe_heartbeat id now :
  environment -> is_i64 (unix_millis now) ->
  safe anything (heartbeat id now) (fun l _ G => lease_at G.1 id = Some l).
Proof.
  intros Henv Hnow. unfold heartbeat. apply safe_lock_bind. intros _. apply safe_retry; [solve_mono_attempt|]. intros attempt.
  by apply safe_heartbeat_attempt.
Qed.

Lemma safe_record_usage d now :
  environment -> is_i64 (unix_millis now) -> wf_usage d ->
  safe anything (record_usage d now) (fun _ => anything).
Proof.
  intros Henv Hnow Hd. unfold record_usage. apply safe_lift_bind. intros [] Hok.
  assert (is_concurrency (usage_resource d) = false) as Hres.
  { unfold reject_if in Hok. by destruct (is_concurrency _). }
  apply safe_lock_bind. intros _. apply safe_retry; [solve_mono_attempt|]. intros attempt.
  eapply safe_weaken; [by apply safe_record_usage_attempt|done|]. by intros [].
Qed.

Lemma safe_then {A} (m : gov_m A) :
  safe anything m (fun _ => anything) -> safe anything (m ;; mret tt) (fun _ => anything).
Proof. intros Hm. sbind; [exact Hm|]. intros a. by apply safe_ret. Qed.

Lemma safe_forget {A} P (m : gov_m A) Q : safe P m Q -> safe P m (fun _ => anything).
Proof. intros Hm. by eapply safe_weaken. Qed.

Lemma safe_run o : environment -> wf_operation o -> safe anything (run o) (fun _ => anything).
Proof.
  intros Henv Hwf. destruct o as [q|now n|id now|id now|id now|now|d now]; simpl in *;
    try apply safe_then.
  - destruct Hwf. by apply safe_submit.
  - unfold schedule. apply safe_lift_bind. intros _ _. apply safe_lock_bind. intros _.
    apply safe_refresh_bind; [intros ?; apply mono_schedule_loop|]. intros _. by apply safe_schedule_loop.
  - by eapply safe_forget, safe_schedule_request.
  - by eapply safe_forget, safe_release.
  - by eapply safe_forget, safe_heartbeat.
  - by apply safe_reclaim_idle.
  - destruct Hwf. by apply safe_record_usage.
Qed.

Lemma mono_retry {A} (body : nat -> gov_m (option A)) after : MonoAll body -> Mono (retry body after).
Proof. apply mono_retry_from. Qed.

Lemma mono_run o : Mono (run o).
Proof.
  destruct o as [q|now n|id now|id now|id now|now|d now]; simpl;
    unfold submit, schedule, schedule_request, release, heartbeat, reclaim_idle, record_usage;
    repeat lazymatch goal with
      | |- MonoAll _ => intros ?
      | |- Mono (mbind _ _) => apply mono_bind
      | |- Mono (retry _ _) => apply mono_retry; solve_mono_attempt
      | |- Mono (fold_m _ _ _) => apply mono_fold_m; intros ?; solve_mono
      | |- Mono (schedule_loop _ _ _ _ _) => apply mono_schedule_loop
      | |- _ => solve_mono
      end.
Qed.

(** Opening a governor establishes a healthy state. *)
Lemma open_healthy s G env n g :
  environment -> gview s G.1 -> governed G.1 -> used G -> Forall rely env ->
  (forall m, n <= m < limit -> new_id m ∉ G.2) ->
  open_governor s pol env n = (Ok g : result Error _) ->
  exists G', healthy g G' /\ evolves G G'.
Proof.
  intros Henv Hv Hg Hu He Hs Ho. unfold open_governor in Ho.
  set (g0 := MkGovernor s pol default_state false env n) in *.
  assert (healthy g0 G) as Hh0.
  { by split. }
  destruct (load_state g0) as [[st|e] g1] eqn:El; simpl in Ho; [|done]. injection Ho as <-.
  destruct (load_state_spec _ _ _ _ Hh0 El) as (-> & G1 & Hh1 & Hev & Hld).
  exists G1. split; [|done]. destruct Hh1 as [Hv1 Hp1 Hg1 Hu1 He1 Hs1 Hc1]. split; try done.
  - intros m Hm. apply Hs1. unfold interfere. by destruct env.
  - simpl. destruct st. by apply (loaded_coherent G1 (MkState _ _ _ last_tree)).
Qed.
End safety.
