(* ===== verification/GovernorScheduling.v ===== *)
(** * Scheduling decisions of the governor

    What [select_next], [schedule] and [ensure_queue_capacity] of
    [crates/resource-governor/src/service.rs] decide: first come first served
    within a session, priority between sessions, round robin between root trees
    of one priority, at most one decision per request and pass, and queues that
    never grow past their ceilings. *)

From Stdlib Require Import ZArith Lia String.
From stdpp Require Import base decidable countable gmap sorting option list.
From S2P Require Import Prelude RustStd Sha2 AgentTypes Json StateStoreCore ResourceModel ResourceGovernor.

Abbreviation request_id_of p := (req_id (pend_request p)).
Abbreviation priority_of p := (req_priority (pend_request p)).

(** Pending requests are filed under their own identifier. *)
Definition well_keyed (st : State) : Prop :=
  forall id p, pending st !! id = Some p -> request_id_of p = id.

(** The oldest pending request of its session. *)
Definition session_first (st : State) (p : Pending) : Prop :=
  pending st !! request_id_of p = Some p
  /\ forall id q, pending st !! id = Some q -> session_of q = session_of p -> rle (fifo_key p) (fifo_key q).

Definition eligible (st : State) (attempted : gset EntityId) (p : Pending) : Prop :=
  session_first st p /\ request_id_of p ∉ attempted.

Definition after_tree (last : RootTreeId) (p : Pending) : bool :=
  match tree_of p with Some tree => rltb last tree | None => false end.

(** Its root tree comes after the one served last at its priority. *)
Definition in_turn (st : State) (p : Pending) : bool :=
  match last_tree st !! priority_of p with Some last => after_tree last p | None => false end.

Definition candidate_key (p : Pending) : option RootTreeId * UtcTimestamp * EntityId :=
  (tree_of p, req_submitted_at (pend_request p), request_id_of p).

(** The request that the rules of the scheduler put before every other one. *)
Definition next_in_line (st : State) (attempted : gset EntityId) (p : Pending) : Prop :=
  eligible st attempted p
  /\ forall q, eligible st attempted q ->
       rle (priority_of q) (priority_of p)
       /\ (priority_of q = priority_of p ->
             (in_turn st q = true -> in_turn st p = true)
             /\ (in_turn st q = in_turn st p -> rle (candidate_key p) (candidate_key q))).

Definition decided_request (o : ScheduleOutcome) : EntityId :=
  match o with
  | Granted lease => req_id (lease_request lease)
  | Paused id _ _ | Failed id _ _ => id
  end.

(** The number of requests [priority] may queue below [c]. *)
Definition queue_share (priority : WorkPriority) (c : QueueCeiling) : Z :=
  if bool_decide (priority = PBackground)
  then u64_saturating_sub (queue_maximum c) (interactive_reserve c) else queue_maximum c.

(** [heads] holds the oldest request of every session of [ps]. *)
Definition oldest (ps : list Pending) (heads : gmap (option SessionId) Pending) : Prop :=
  (forall s p, heads !! s = Some p ->
     p ∈ ps /\ session_of p = s /\ forall q, q ∈ ps -> session_of q = s -> rle (fifo_key p) (fifo_key q))
  /\ forall q, q ∈ ps -> is_Some (heads !! session_of q).

(** The request chosen among the open heads of priority [m]. *)
Definition selection (st : State) (attempted : gset EntityId) (m : WorkPriority) : option Pending :=
  let candidates :=
    sort_by candidate_cmp (filter (fun p => priority_of p = m) (open_heads st attempted)) in
  match
    last ← last_tree st !! m; List.find (after_tree last) candidates
  with
  | Some p => Some p
  | None => head candidates
  end.

(** ** Selection *)

Lemma candidates_sorted ps :
  StronglySorted (fun l r => rle (candidate_key l) (candidate_key r)) (sort_by candidate_cmp ps).
Proof.
  apply sort_by_sorted.
  - intros x y HG. change (rcmp (candidate_key x) (candidate_key y) = Gt) in HG.
    change (rcmp (candidate_key y) (candidate_key x) <> Gt). apply rcmp_Gt in HG. by rewrite HG.
  - intros x y z. apply (rle_trans (candidate_key x)).
Qed.

Lemma oldest_replace ps heads p :
  oldest ps heads -> (forall q, q ∈ ps -> session_of q = session_of p -> rle (fifo_key p) (fifo_key q)) ->
  oldest (ps ++ [p]) (<[session_of p := p]> heads).
Proof.
  intros [Hsome Hall] Hmin. split.
  - intros s x. rewrite lookup_insert_Some. intros [[<- <-]|[Hne Hx]].
    + split; [set_solver|]. split; [done|]. intros q [Hq|Hq]%elem_of_app Hs; [auto|].
      apply list_elem_of_singleton in Hq as ->. apply rle_refl.
    + destruct (Hsome _ _ Hx) as (? & <- & Hm). split; [set_solver|]. split; [done|].
      intros q [Hq|Hq]%elem_of_app Hs; [auto|]. apply list_elem_of_singleton in Hq as ->. congruence.
  - intros q Hq. apply lookup_insert_is_Some. destruct (decide (session_of p = session_of q)); [by left|].
    right. split; [done|]. apply elem_of_app in Hq as [Hq|Hq]; [auto|].
    apply list_elem_of_singleton in Hq as ->. done.
Qed.

Lemma oldest_keep ps heads p h :
  oldest ps heads -> heads !! session_of p = Some h -> rle (fifo_key h) (fifo_key p) ->
  oldest (ps ++ [p]) heads.
Proof.
  intros [Hsome Hall] Hh Hle. split.
  - intros s x Hx. destruct (Hsome _ _ Hx) as (? & <- & Hm). split; [set_solver|]. split; [done|].
    intros q [Hq|Hq]%elem_of_app Hs; [auto|]. apply list_elem_of_singleton in Hq as ->.
    rewrite <- Hs, Hh in Hx. by injection Hx as <-.
  - intros q [Hq|Hq]%elem_of_app; [auto|]. apply list_elem_of_singleton in Hq as ->. eauto.
Qed.

Lemma session_head_oldest ps heads p :
  oldest ps heads -> oldest (ps ++ [p]) (session_head heads p).
Proof.
  intros Ho. unfold session_head. destruct (heads !! session_of p) as [h|] eqn:Eh.
  - destruct (proj1 Ho _ _ Eh) as (_ & _ & Hmin). destruct (rltb _ _) eqn:Elt.
    + apply rltb_lt in Elt. apply oldest_replace; [done|]. intros q Hq Hs.
      eapply rle_trans; [apply rle_lt_or_eq; by left|by apply Hmin].
    + eapply oldest_keep; [done..|]. intros HG%rcmp_Gt. apply rltb_lt in HG. congruence.
  - apply oldest_replace; [done|]. intros q Hq Hs. destruct (proj2 Ho q Hq) as [x Hx]. congruence.
Qed.

Lemma session_heads_oldest st : oldest (btree_values (pending st)) (session_heads st).
Proof.
  unfold session_heads. generalize (btree_values (pending st)). intros ps.
  induction ps as [|p ps IH] using rev_ind; [by split; [intros ? ? ?|intros ? ?%elem_of_nil]|].
  rewrite foldl_snoc. by apply session_head_oldest.
Qed.

Lemma open_heads_eligible st attempted p :
  well_keyed st -> p ∈ open_heads st attempted <-> eligible st attempted p.
Proof.
  intros Hk. unfold open_heads. rewrite list_elem_of_filter, elem_of_btree_values.
  destruct (session_heads_oldest st) as [Hsome Hall]. split.
  - intros [Hn [s Hs]]. destruct (Hsome _ _ Hs) as (Hin & <- & Hmin). split; [|done].
    apply elem_of_btree_values in Hin as [id Hid]. split; [by rewrite (Hk _ _ Hid)|].
    intros id' q Hq. apply Hmin, elem_of_btree_values. eauto.
  - intros [[Hp Hmin] Hn]. split; [done|]. exists (session_of p).
    destruct (Hall p) as [h Hh]; [apply elem_of_btree_values; eauto|]. rewrite Hh. f_equal.
    destruct (Hsome _ _ Hh) as (Hin & Hs & Hmin'). apply elem_of_btree_values in Hin as [id Hid].
    assert (fifo_key h = fifo_key p) as Heq.
    { apply rle_antisym; [|by eapply Hmin]. apply Hmin'; [|done]. apply elem_of_btree_values. eauto. }
    injection Heq as _ Hids. rewrite (Hk _ _ Hid) in Hids. congruence.
Qed.

Lemma priority_max_spec ps m : priority_max ps = Some m -> m ∈ ps /\ forall x, x ∈ ps -> rle x m.
Proof.
  destruct ps as [|p ps]; [done|]. simpl. intros [= <-].
  induction ps as [|x ps [IHin IHmax]] using rev_ind.
  { split; [by left|]. intros y ->%list_elem_of_singleton. apply rle_refl. }
  rewrite foldl_snoc. set (b := foldl _ p ps) in *. destruct (rltb x b) eqn:E.
  - split; [set_solver|]. apply rltb_lt in E. intros y Hy.
    assert (y ∈ p :: ps \/ y = x) as [?| ->] by set_solver; [auto|]. apply rle_lt_or_eq. by left.
  - assert (rle b x) as Hb. { intros HG%rcmp_Gt. apply rltb_lt in HG. congruence. }
    split; [set_solver|]. intros y Hy. assert (y ∈ p :: ps \/ y = x) as [?| ->] by set_solver.
    + eapply rle_trans; [by apply IHmax|done].
    + apply rle_refl.
Qed.

Lemma head_sorted ps p :
  StronglySorted (fun l r => rle (candidate_key l) (candidate_key r)) ps -> head ps = Some p ->
  p ∈ ps /\ forall q, q ∈ ps -> rle (candidate_key p) (candidate_key q).
Proof.
  destruct 1 as [|x xs Hxs Hx]; simpl; [done|]. intros [= <-]. split; [by left|].
  intros q [->|Hq]%elem_of_cons; [apply rle_refl|]. by eapply Forall_forall in Hx.
Qed.

Lemma select_next_selection st attempted :
  select_next st attempted =
    m ← priority_max ((fun p => priority_of p) <$> open_heads st attempted);
    (fun p => request_id_of p) <$> selection st attempted m.
Proof. reflexivity. Qed.

Lemma selection_spec st attempted m :
  (exists p, p ∈ open_heads st attempted /\ priority_of p = m) ->
  exists p, p ∈ open_heads st attempted /\ priority_of p = m /\ selection st attempted m = Some p
    /\ forall q, q ∈ open_heads st attempted -> priority_of q = m ->
         (in_turn st q = true -> in_turn st p = true)
         /\ (in_turn st q = in_turn st p -> rle (candidate_key p) (candidate_key q)).
Proof.
  intros (h & Hh & Hhm). unfold selection.
  pose proof (candidates_sorted (filter (fun p => priority_of p = m) (open_heads st attempted))) as Hsorted.
  assert (forall q, q ∈ sort_by candidate_cmp (filter (fun p => priority_of p = m) (open_heads st attempted))
    <-> q ∈ open_heads st attempted /\ priority_of q = m) as Hmem.
  { intros q. rewrite sort_by_perm, list_elem_of_filter. tauto. }
  set (candidates := sort_by _ _) in *.
  assert (forall q, priority_of q = m ->
    in_turn st q = match last_tree st !! m with Some last => after_tree last q | None => false end) as Hin.
  { by intros q <-. }
  destruct (last ← last_tree st !! m; List.find (after_tree last) candidates) as [p|] eqn:Ef.
  - apply bind_Some in Ef as (last & El & Ef). destruct (find_sorted _ _ _ _ (fun q => rle_refl (candidate_key q)) Hsorted Ef) as (Hp & Ht & Hmin).
    apply Hmem in Hp as [Hp Hpm]. exists p. do 3 (split; [done|]). intros q Hq Hqm.
    rewrite !Hin, El, Ht by done. split; [done|]. intros Hqt. by apply Hmin; [apply Hmem|].
  - assert (forall q, q ∈ candidates -> in_turn st q = false) as Hnone.
    { intros q Hq. destruct (proj1 (Hmem q) Hq) as [_ Hqm]. rewrite Hin by done.
      destruct (last_tree st !! m) as [last|]; [|done]. simpl in Ef. apply (List.find_none _ _ Ef).
      by apply list_elem_of_In. }
    pose proof (proj2 (Hmem h) (conj Hh Hhm)) as Hc.
    destruct candidates as [|p ps]; [by apply elem_of_nil in Hc|].
    destruct (head_sorted (p :: ps) p) as [Hp Hmin]; [done|done|]. exists p.
    destruct (proj1 (Hmem p) Hp). do 3 (split; [done|]). intros q Hq Hqm.
    rewrite !Hnone by (done || by apply Hmem). split; [done|]. intros _. by apply Hmin, Hmem.
Qed.

Lemma select_next_spec st attempted :
  well_keyed st ->
  match select_next st attempted with
  | Some id => exists p, request_id_of p = id /\ next_in_line st attempted p
  | None => forall p, ~ eligible st attempted p
  end.
Proof.
  intros Hk. rewrite select_next_selection.
  destruct (priority_max _) as [m|] eqn:Em; cbn [mbind option_bind].
  - destruct (priority_max_spec _ _ Em) as [Hin Hmax].
    destruct (selection_spec st attempted m) as (p & Hp & Hpm & Hsel & Hfair).
    { apply list_elem_of_fmap in Hin as (h & -> & Hh). eauto. }
    rewrite Hsel. simpl. exists p. split; [done|].
    split; [by apply open_heads_eligible|]. intros q Hq. apply open_heads_eligible in Hq; [|done].
    rewrite Hpm. split; [apply Hmax, list_elem_of_fmap; eauto|]. intros Hqm. auto.
  - intros p Hp. apply open_heads_eligible in Hp; [|done].
    destruct (open_heads st attempted); [by apply elem_of_nil in Hp|done].
Qed.

(** ** One decision per request *)

Section schedule.
Context {S : Type} `{HR : Repository S, HU : Ulid, HJ : SerdeJson, HC : ResourceCodec, HH : Sha256}.
Context (new_id : nat -> EntityId) (pol : ResourcePolicy).

Abbreviation Error := (ResourceError (@repo_error S HR) JsonError).
Abbreviation Governor := (@ResourceGovernor S).

Abbreviation gov_m := (stateT Governor Error).

(** What a successful computation says of the cached state; the policy stays. *)
Definition ends {A} (P : State -> Prop) (m : gov_m A) (Q : A -> State -> Prop) : Prop :=
  forall g a g', policy g = pol -> P (state g) -> m g = (Ok a, g') -> policy g' = pol /\ Q a (state g').

Lemma ends_bind {A B} P (m : gov_m A) Q (f : A -> gov_m B) R :
  ends P m Q -> (forall a, ends (Q a) (f a) R) -> ends P (x ← m; f x) R.
Proof.
  intros Hm Hf g b g' Hp HP Hr. rewrite stateT_bind_unfold in Hr.
  destruct (m g) as [[a|e] g1] eqn:Em; [|done]. destruct (Hm _ _ _ Hp HP Em) as [Hp1 HQ]. by eapply Hf.
Qed.

Lemma ends_ret {A} (P : State -> Prop) (a : A) (Q : A -> State -> Prop) :
  (forall st, P st -> Q a st) -> ends P (mret a) Q.
Proof. intros HQ g b g' Hp HP Hr. unfold mret, stateT_ret in Hr. injection Hr as <- <-. auto. Qed.

Lemma ends_lift_bind {A B} P (r : result Error A) (f : A -> gov_m B) Q :
  (forall a, r = Ok a -> ends P (f a) Q) -> ends P (a ← lift r; f a) Q.
Proof.
  intros Hf g b g' Hp HP Hr. rewrite stateT_bind_unfold in Hr. unfold lift in Hr.
  destruct r as [a|e]; [|done]. by eapply Hf.
Qed.

Lemma ends_read {A} P (f : State -> gov_m A) Q :
  (forall st0, P st0 -> ends (eq st0) (f st0) Q) -> ends P (st ← gets state; f st) Q.
Proof. intros Hf g a g' Hp HP Hr. by eapply (Hf (state g)). Qed.

Lemma ends_policy {A} P (f : ResourcePolicy -> gov_m A) Q :
  ends P (f pol) Q -> ends P (p ← gets policy; f p) Q.
Proof.
  intros Hf g a g' Hp HP Hr. rewrite stateT_bind_unfold in Hr. unfold gets in Hr. rewrite Hp in Hr.
  by eapply Hf.
Qed.

Lemma ends_set_state (P : State -> Prop) st (Q : unit -> State -> Prop) :
  (forall st0, P st0 -> Q tt st) -> ends P (set_state st) Q.
Proof. intros HQ g a g' Hp HP Hr. unfold set_state, modify in Hr. injection Hr as <- <-. eauto. Qed.

Lemma ends_set_bind {A} P st (f : unit -> gov_m A) Q :
  ends (eq st) (f tt) Q -> ends P (u ← set_state st; f u) Q.
Proof. intros Hf g a g' Hp _ Hr. rewrite stateT_bind_unfold in Hr. simpl in Hr. by eapply Hf, Hr. Qed.

Lemma ends_lock_bind {A} P (f : State -> gov_m A) Q :
  (forall st, ends P (f st) Q) -> ends P (st ← gov_lock; f st) Q.
Proof.
  intros Hf g a g' Hp HP Hr. rewrite stateT_bind_unfold in Hr. unfold gov_lock in Hr.
  destruct (gov_poisoned g); [done|]. by eapply Hf.
Qed.

Lemma ends_transact P ms : ends P (transact_classified ms) (fun _ => P).
Proof.
  intros g a g' Hp HP Hr. assert (policy g' = policy g /\ state g' = state g) as [-> ->]; [|done].
  unfold transact_classified, repository_transact in Hr. destruct (transact _ _) as [r s].
  injection Hr as _ <-. simpl. unfold interfere. by destruct (interference g).
Qed.

Lemma ends_entity_id_new P : ends P (entity_id_new new_id) (fun _ => P).
Proof. intros g id g' Hp HP Hr. unfold entity_id_new in Hr. by injection Hr as <- <-. Qed.

Lemma ends_grant st p now :
  ends (eq st) (grant new_id p now)
    (fun lease st' => lease_request lease = pend_request p
                      /\ pending st' = delete (request_id_of p) (pending st)).
Proof.
  unfold grant. apply ends_read. intros st0 <-. eapply ends_bind.
  { apply ends_entity_id_new. }
  intros id. apply ends_lift_bind. intros expires _. apply ends_lift_bind. intros [ups ms] _.
  apply ends_lift_bind. intros put _. eapply ends_bind; [apply ends_transact|]. intros receipt.
  apply ends_set_bind, ends_ret. by intros st' <-.
Qed.

Lemma ends_delete_pending st p :
  ends (eq st) (delete_pending p) (fun _ st' => pending st' = delete (request_id_of p) (pending st)).
Proof.
  unfold delete_pending. eapply ends_bind; [apply ends_transact|]. intros receipt.
  apply ends_read. intros st0 <-. by apply ends_set_state.
Qed.

Lemma well_keyed_delete st st' id : well_keyed st -> pending st' = delete id (pending st) -> well_keyed st'.
Proof. intros Hk Hp i p. rewrite Hp, lookup_delete_Some. intros [_ Hi]. by apply Hk. Qed.

Lemma ends_schedule_one now attempted :
  ends well_keyed (schedule_one new_id now attempted)
    (fun o st => well_keyed st
       /\ match o with Some (id, outcome) => decided_request outcome = id /\ id ∉ attempted | None => True end).
Proof.
  unfold schedule_one. apply ends_read. intros st Hk. apply ends_policy.
  pose proof (select_next_spec st attempted Hk) as Hsel.
  destruct (select_next st attempted) as [id|]; [|by apply ends_ret; intros st' <-].
  destruct Hsel as (p0 & Hid & [_ Hn] & _). rewrite Hid in Hn.
  apply ends_lift_bind. intros p Hp. apply ok_or_Ok in Hp. pose proof (Hk _ _ Hp) as Hpid.
  apply ends_lift_bind. intros [[scope []]|] _.
  - apply ends_ret. by intros st' <-.
  - eapply ends_bind; [apply ends_delete_pending|]. intros []. apply ends_ret. intros st' Hst'.
    split; [by eapply well_keyed_delete|done].
  - eapply ends_bind; [apply ends_grant|]. intros lease.
    assert (forall st', lease_request lease = pend_request p /\ pending st' = delete (request_id_of p) (pending st) ->
      well_keyed st' /\ req_id (lease_request lease) = id /\ id ∉ attempted) as Hgoal.
    { intros st' [-> Hst']. split; [by eapply well_keyed_delete|done]. }
    destruct (path_tree _) as [tree|]; [|by apply ends_ret].
    apply ends_read. intros st1 Hst1. apply ends_set_bind, ends_ret. intros st' <-. destruct (Hgoal st1 Hst1) as [Hk1 ?]. by split.
Qed.

Lemma schedule_loop_once fuel now attempted outcomes :
  NoDup (decided_request <$> outcomes) -> (forall o, o ∈ outcomes -> decided_request o ∈ attempted) ->
  ends well_keyed (schedule_loop new_id fuel now attempted outcomes)
    (fun outcomes' _ => NoDup (decided_request <$> outcomes') /\ length outcomes' <= length outcomes + fuel).
Proof.
  revert attempted outcomes. induction fuel as [|fuel IH]; intros attempted outcomes Hnd Hin; simpl.
  { apply ends_ret. intros st _. split; [done|lia]. }
  eapply ends_bind; [apply ends_schedule_one|]. intros [[id outcome]|].
  - intros g final g' Hp (Hk & <- & Hn) Hr. destruct (IH ({[decided_request outcome]} ∪ attempted) (outcomes ++ [outcome])) with g final g'
      as (Hp' & Hnd' & Hlen); try done.
    + rewrite fmap_app. apply NoDup_app. split; [done|]. split; [|apply NoDup_singleton].
      intros i (o & -> & Ho)%list_elem_of_fmap Hi. apply list_elem_of_singleton in Hi. apply Hn.
      rewrite <- Hi. auto.
    + intros o [Ho|Ho]%elem_of_app; [set_solver|]. apply list_elem_of_singleton in Ho as ->. set_solver.
    + split; [done|]. split; [done|]. rewrite length_app in Hlen. simpl in Hlen. lia.
  - apply ends_ret. intros st _. split; [done|lia].
Qed.

Lemma load_record_keyed st record st' : well_keyed st -> load_record st record = (Ok st' : result Error _) -> well_keyed st'.
Proof.
  intros Hk Hl. unfold load_record in Hl. res_inv; try done.
  intros id q. simpl. rewrite lookup_insert_Some. intros [[<- <-]|[_ Hq]]; [done|by apply Hk].
Qed.

Lemma ends_refresh P : ends P refresh_durable_state (fun _ => well_keyed).
Proof.
  unfold refresh_durable_state. apply ends_read. intros st _.
  apply ends_set_bind.
  apply (ends_bind _ _ (fun st' _ => well_keyed st')).
  - intros g st' g' Hp _ Hl. unfold load_state, repository_list in Hl. injection Hl as Hl <-. res_inv.
    split; [unfold interfere; by destruct (interference g)|].
    eapply (try_fold_ind well_keyed); [| |exact Hl]; [done|]. intros. by eapply load_record_keyed.
  - intros st'. apply ends_set_state. by intros _ Hk.
Qed.

Lemma ends_schedule now n :
  ends (fun _ => True) (schedule new_id now n)
    (fun outcomes _ => NoDup (decided_request <$> outcomes) /\ length outcomes <= n).
Proof.
  unfold schedule. apply ends_lift_bind. intros _ _. apply ends_lock_bind. intros _.
  eapply ends_bind; [apply ends_refresh|]. intros []. apply (schedule_loop_once n now ∅ []); [constructor|].
  by intros o ?%elem_of_nil.
Qed.

(** ** Queues *)

Lemma capacity_left st q scope c :
  ensure_queue_capacity st pol q = (Ok tt : result Error _) -> scope ∈ scopes (req_path q) ->
  queue_ceiling pol scope = Some c -> (admitted st scope < queue_share (req_priority q) c)%Z.
Proof.
  unfold ensure_queue_capacity. intros Hok Hin Hc. revert Hok.
  induction Hin as [scope' ss|scope s ss Hin IH]; simpl.
  - rewrite Hc. fold (queue_share (req_priority q) c). destruct (_ <=? _)%Z eqn:E; [done|]. intros _. by bool_inv.
  - destruct (queue_ceiling pol s) as [c'|]; simpl; [|by apply IH].
    destruct (_ <=? _)%Z; [done|]. by apply IH.
Qed.

Lemma admitted_insert accs (ps : gmap EntityId Pending) ls trees p scope :
  ps !! request_id_of p = None ->
  (admitted (MkState accs (<[request_id_of p := p]> ps) ls trees) scope
   <= admitted (MkState accs ps ls trees) scope + 1)%Z.
Proof.
  intros Hnone. unfold admitted. cbn [pending].
  assert (btree_values (<[request_id_of p := p]> ps) ≡ₚ p :: btree_values ps) as ->.
  { unfold btree_values. rewrite !btree_iter_perm, map_to_list_insert by done. done. }
  rewrite filter_cons. destruct (decide _); simpl; lia.
Qed.

Lemma ends_submit q :
  ends (fun _ => True) (submit q)
    (fun _ st => pending st !! req_id q = Some (MkPending q Revision_ZERO)
       /\ forall scope c, scope ∈ scopes (req_path q) -> queue_ceiling pol scope = Some c ->
            (admitted st scope <= queue_share (req_priority q) c)%Z).
Proof.
  unfold submit. apply ends_lift_bind. intros _ _. apply ends_lock_bind. intros _.
  eapply ends_bind; [apply ends_refresh|]. intros []. apply ends_read. intros st _.
  apply ends_lift_bind. intros [] Hdup. apply ends_policy. apply ends_lift_bind. intros [] Hcap.
  apply ends_lift_bind. intros put _. eapply ends_bind; [apply ends_transact|]. intros receipt.
  apply ends_set_state. intros st0 <-. cbn [pending]. split; [apply lookup_insert_eq|]. intros scope c Hin Hc.
  pose proof (capacity_left _ _ _ _ Hcap Hin Hc). destruct st as [accs ps ls trees]. cbn [accounts pending leases last_tree] in *.
  unfold reject_if in Hdup. destruct (_ || _)%bool eqn:E; [done|].
  apply orb_false_iff in E as [E _]. apply bool_decide_eq_false_1, eq_None_not_Some in E.
  pose proof (admitted_insert accs ps ls trees (MkPending q Revision_ZERO) scope E). simpl in *. lia.
Qed.
End schedule.

Section claims.
Context {S : Type} `{HR : Repository S, HU : Ulid, HJ : SerdeJson, HC : ResourceCodec, HH : Sha256}.

(** The scheduler picks by its published rules and never idles.  The
    selected request is the oldest of its session and was not tried in this
    pass; no eligible request has a higher priority; among those of the same
    priority it belongs to a root tree after the one served last if any does,
    and is the least by tree, submission time and identifier.  Nothing is
    selected only when no request is eligible. *)
Theorem select_next_in_line st attempted :
  well_keyed st ->
  match select_next st attempted with
  | Some id => exists p, request_id_of p = id /\ next_in_line st attempted p
  | None => forall p, ~ eligible st attempted p
  end.
Proof. apply select_next_spec. Qed.

(** One pass of the scheduler makes at most [max_decisions] decisions and
    never decides the same request twice, whatever other processes write in
    between. *)
Theorem schedule_decides_once (new_id : nat -> EntityId) now max_decisions (g : @ResourceGovernor S) outcomes g' :
  schedule new_id now max_decisions g = (Ok outcomes, g') ->
  NoDup (decided_request <$> outcomes) /\ length outcomes <= max_decisions.
Proof. intros Hs. by destruct (ends_schedule new_id (policy g) now max_decisions g outcomes g'). Qed.

(** A request that is accepted is queued, and no queue it joins holds more
    requests than the ceiling of the queue grants to the priority of the
    request: background work leaves the interactive reserve free. *)
Theorem submit_respects_queues q (g : @ResourceGovernor S) g' :
  submit q g = (Ok tt, g') ->
  pending (state g') !! req_id q = Some (MkPending q Revision_ZERO)
  /\ forall scope c, scope ∈ scopes (req_path q) -> queue_ceiling (policy g) scope = Some c ->
       (admitted (state g') scope <= queue_share (req_priority q) c)%Z.
Proof. intros Hs. by destruct (ends_submit (policy g) q g tt g'). Qed.
End claims.
