(* ===== verification/GovernorExample.v ===== *)
(** * A concrete world for the governor

    Instances of everything the governor takes as a parameter: a codec that
    lays stored resources out as JSON arrays, a digest that names the accounts
    of three scopes apart, a supply of lease identifiers, a policy and requests.
    The hypotheses of the theorems about the governor hold of them, over the
    embedded store on the engine of finite maps. *)

From Stdlib Require Import ZArith Lia String.
From stdpp Require Import base decidable countable gmap sorting option list.
From S2P Require Import Prelude RustStd Sha2 AgentTypes Json StateStoreCore Sqlite StateStore.
From S2P Require Import StoreProperties ResourceModel ResourceGovernor.
From S2P Require Import GovernorDurable GovernorInvariant GovernorSafety GovernorScheduling.

(** ** Codec *)

Definition enc_scope (s : ResourceScope) : Value :=
  Array (jnum (scope_code s).1 :: (Str <$> (scope_code s).2)).
Definition dec_scope (v : Value) : ResourceScope :=
  match v with Array (n :: ss) => scope_decode (dec_num n, dec_str <$> ss) | _ => Installation end.

Definition reclaim_classes : list ReclaimClass := [RWorker; RChild; RKernel; RBrowser; RMcpSession; RToolProcess].
Definition class_code (c : ReclaimClass) : Z :=
  match c with RWorker => 0 | RChild => 1 | RKernel => 2 | RBrowser => 3 | RMcpSession => 4 | RToolProcess => 5 end.
Definition dec_class (z : Z) : ReclaimClass := default RWorker (reclaim_classes !! Z.to_nat z).
Definition dec_priority (z : Z) : WorkPriority :=
  match z with 0 => PBackground | 1 => PNormal | _ => PInteractive end%Z.

Definition enc_recovery (o : option RecoveryDescriptor) : Value :=
  match o with
  | Some r => Array [jnum (class_code (recovery_class r)); Str (as_str (durable_state_id r)); Str (resume_marker r)]
  | None => Null
  end.
Definition dec_recovery (v : Value) : option RecoveryDescriptor :=
  match v with
  | Array [c; i; m] => Some (MkRecovery (dec_class (dec_num c)) (MkEntityId (dec_str i)) (dec_str m))
  | _ => None
  end.

Definition enc_request (q : AcquireRequest) : Value :=
  Array [Str (as_str (req_id q)); Array (enc_scope <$> scopes (req_path q)); jnum (kind_code (req_resource q));
         jnum (req_units q); jnum (priority_code (req_priority q)); enc_recovery (req_recovery q);
         jnum (unix_millis (req_submitted_at q)); jnum (req_idle_timeout_ms q)].
Definition dec_request (v : Value) : option AcquireRequest :=
  match v with
  | Array [i; Array ss; k; u; p; r; t; d] =>
      Some (MkAcquire (MkEntityId (dec_str i)) (MkScopePath (dec_scope <$> ss)) (kind_decode (dec_num k))
              (dec_num u) (dec_priority (dec_num p)) (dec_recovery r) (MkUtcTimestamp (dec_num t)) (dec_num d))
  | _ => None
  end.

Definition enc_resource (x : StoredResource) : Value :=
  match x with
  | SAccount a =>
      Array [jnum 0; Str (as_str (acc_id a)); enc_scope (acc_scope a); jnum (kind_code (acc_resource a));
             jnum (acc_consumed a); jnum (acc_active a); jnum (revision_get (acc_revision a));
             jnum (unix_millis (acc_updated_at a))]
  | SPending p => Array [jnum 1; enc_request (pend_request p); jnum (revision_get (pend_revision p))]
  | SLease l =>
      Array [jnum 2; Str (as_str (lease_id l)); enc_request (lease_request l); jnum (unix_millis (acquired_at l));
             jnum (unix_millis (heartbeat_at l)); jnum (unix_millis (expires_at l));
             jnum (revision_get (lease_revision l))]
  end.
Definition dec_resource (v : Value) : option StoredResource :=
  match v with
  | Array [_; i; s; k; c; a; r; t] =>
      Some (SAccount (MkAccount (MkEntityId (dec_str i)) (dec_scope s) (kind_decode (dec_num k)) (dec_num c)
        (dec_num a) (MkRevision (dec_num r)) (MkUtcTimestamp (dec_num t))))
  | Array [_; q; r] => (fun q => SPending (MkPending q (MkRevision (dec_num r)))) <$> dec_request q
  | Array [_; i; q; a; h; e; r] =>
      (fun q => SLease (MkLease (MkEntityId (dec_str i)) q (MkUtcTimestamp (dec_num a))
        (MkUtcTimestamp (dec_num h)) (MkUtcTimestamp (dec_num e)) (MkRevision (dec_num r)))) <$> dec_request q
  | _ => None
  end.

(** ** Scopes, keys and digests *)

Definition sample_tree : RootTreeId := MkTypedId (MkEntityId (str "tree")).
Definition sample_session : SessionId := MkTypedId (MkEntityId (str "session")).
Definition sample_scopes : list ResourceScope := [Installation; Tree sample_tree; Session sample_session].
Definition sample_in_play (s : ResourceScope) : Prop := s ∈ sample_scopes.

Definition scope_number (s : ResourceScope) : Z :=
  match s with Installation => 0 | Tree _ => 1 | Session _ => 2 | _ => 3 end.
Definition key_number (k : Key) : Z := (32 * scope_number k.1 + kind_code k.2)%Z.

Definition array_codec : ResourceCodec := {|
  resource_to_value x := Ok (enc_resource x);
  resource_from_value v := match dec_resource v with Some x => Ok x | None => Err JsonErr end;
  key_to_value k := Ok (jnum (key_number k))
|}.

(** The number in the document that ends the input. *)
Definition digested (input : list Z) : Z :=
  match last input with
  | Some token => match token_from_slice [token] with Ok v => dec_num v | Err _ => 0 end
  | None => 0
  end%Z.

Program Definition numbering_digest : Sha256 := {|
  sha256 input :=
    replicate 14 0%Z ++ [digested input / 256 mod 256; digested input mod 256]%Z ++ replicate 16 0%Z
|}.
Next Obligation. done. Qed.
Next Obligation.
  intros b. apply Forall_app. split; [by apply Forall_replicate|]. apply Forall_app.
  split; [|by apply Forall_replicate].
  repeat (apply Forall_cons; split; [by apply Z.mod_pos_bound|]). by apply Forall_nil.
Qed.

(** ** Identifiers, policy and requests *)

#[export] Existing Instance crockford_ulid.
#[export] Existing Instance token_json.
#[export] Existing Instance memory_sqlite.
#[export] Existing Instance memory_laws.
#[export] Existing Instance array_codec.
#[export] Existing Instance numbering_digest.

Definition sample_space (id : EntityId) : IdSpace :=
  match crockford_from_string (as_str id) with
  | Some v => if (v <? 2 ^ 16)%Z then AccountSpace else if (v <? 2 ^ 64)%Z then RequestSpace else LeaseSpace
  | None => RequestSpace
  end.

Definition sample_new_id (n : nat) : EntityId := entity_id_from_u128 (2 ^ 100 + Z.of_nat n).
Definition sample_limit : nat := 64.

(** Every concurrency resource is limited to two units per installation. *)
Definition sample_policy : ResourcePolicy :=
  MkPolicy (list_to_map ((fun k => ((Installation, k), MkCeiling 2 Pause)) <$> concurrency_kinds))
    {[Installation := MkQueueCeiling 2 1]}.

Definition sample_request (n : Z) (priority : WorkPriority) : AcquireRequest :=
  MkAcquire (entity_id_from_u128 (2 ^ 40 + n)) (MkScopePath sample_scopes) KKernels 1 priority
    (Some (MkRecovery RKernel (entity_id_from_u128 5) (str "resume"))) (MkUtcTimestamp n) 1000.

Abbreviation SampleGovernor := (@ResourceGovernor EmbeddedStore).

Definition sample_governor : SampleGovernor :=
  MkGovernor empty_store sample_policy default_state false [] 0.

(** ** The parameters satisfy what is asked of them *)

Lemma sort_enc_scope s : sort_json_value (enc_scope s) = enc_scope s.
Proof. by destruct s. Qed.
Lemma dec_enc_scope s : dec_scope (enc_scope s) = s.
Proof. rewrite <- (scope_decode_code s) at 2. by destruct s. Qed.
Lemma distinct_enc_scope s : distinct_keys (enc_scope s).
Proof. by destruct s. Qed.
Lemma readable_enc_scope s n : readable_at (enc_scope s) (S n) = true.
Proof. by destruct s. Qed.

Lemma sort_enc_request q : sort_json_value (enc_request q) = enc_request q.
Proof.
  destruct q as [i [ss] k u p r t d]. unfold enc_request. simpl. do 2 f_equal. f_equal.
  - f_equal. induction ss as [|s ss IH]; [done|]. simpl. f_equal; [apply sort_enc_scope|exact IH].
  - f_equal. f_equal. f_equal. f_equal. by destruct r as [[[] ? ?]|].
Qed.

Lemma dec_enc_request q : dec_request (enc_request q) = Some q.
Proof.
  destruct q as [[i] [ss] k u p r [t] d]. unfold enc_request. simpl. do 2 f_equal.
  - f_equal. induction ss as [|s ss IH]; [done|]. csimpl. f_equal; [apply dec_enc_scope|exact IH].
  - by destruct k.
  - by destruct p.
  - by destruct r as [[[] [?] ?]|].
Qed.

Lemma distinct_enc_request q : distinct_keys (enc_request q).
Proof.
  destruct q as [i [ss] k u p r t d]. unfold enc_request. cbn [distinct_keys foldr req_path scopes].
  split; [done|]. split; [induction ss; [done|split; [apply distinct_enc_scope|done]]|].
  do 3 (split; [done|]). split; [by destruct r|done].
Qed.

Lemma readable_enc_request q n : readable_at (enc_request q) (S (S (S n))) = true.
Proof.
  destruct q as [i [ss] k u p r t d]. unfold enc_request. cbn [readable_at forallb req_path scopes].
  assert (forallb (fun v => readable_at v (S n)) (enc_scope <$> ss) = true) as ->.
  { induction ss as [|s ss IH]; [done|]. cbn [fmap list_fmap forallb]. by rewrite readable_enc_scope. }
  by destruct r as [[]|].
Qed.

Lemma sort_enc_resource x : sort_json_value (enc_resource x) = enc_resource x.
Proof.
  destruct x as [a|p|l]; cbn [enc_resource sort_json_value List.map];
    by rewrite ?sort_enc_scope, ?sort_enc_request.
Qed.

Lemma dec_enc_resource x : dec_resource (enc_resource x) = Some x.
Proof.
  destruct x as [[[i] s k c n [r] [t]]|[q [r]]|[[i] q [a] [h] [e] [r]]]; cbn [enc_resource dec_resource].
  - rewrite dec_enc_scope. by destruct k.
  - by rewrite dec_enc_request.
  - by rewrite dec_enc_request.
Qed.

Lemma array_codec_lawful : codec_lawful.
Proof.
  intros x v [= <-]. split; [|split].
  - destruct x as [a|p|l]; cbn [enc_resource distinct_keys foldr];
      repeat (split; [first [done|apply distinct_enc_scope|apply distinct_enc_request]|]); done.
  - unfold readable. destruct x as [a|p|l]; cbn [enc_resource readable_at forallb];
      by rewrite ?readable_enc_scope, ?readable_enc_request.
  - cbn [resource_from_value array_codec]. by rewrite sort_enc_resource, dec_enc_resource.
Qed.

Lemma kind_code_bound k : (0 <= kind_code k < 32)%Z.
Proof. by destruct k. Qed.

Lemma scope_number_bound s : s ∈ sample_scopes -> (0 <= scope_number s < 3)%Z.
Proof. unfold sample_scopes. rewrite !elem_of_cons, !elem_of_nil. by intros [->|[->|[->|[]]]]. Qed.

Lemma scope_number_inj s t : s ∈ sample_scopes -> t ∈ sample_scopes -> scope_number s = scope_number t -> s = t.
Proof.
  unfold sample_scopes. rewrite !elem_of_cons, !elem_of_nil.
  by intros [->|[->|[->|[]]]] [->|[->|[->|[]]]].
Qed.

Lemma digested_number n : digested (account_prefix ++ [Zpos (encode (jnum n))]) = n.
Proof. unfold digested. rewrite last_snoc. unfold token_from_slice. by rewrite decode_encode. Qed.

Lemma account_id_number s k :
  (0 <= key_number (s, k) < 65536)%Z ->
  account_id (S:=EmbeddedStore) s k = Ok (entity_id_from_u128 (key_number (s, k))).
Proof.
  intros Hn. unfold account_id, canonical_json_bytes.
  cbn [key_to_value array_codec map_err mbind result_bind sort_json_value to_vec token_json].
  unfold token_to_vec. cbn [map_err mbind result_bind sha256 numbering_digest]. rewrite digested_number.
  do 2 f_equal. unfold u128_from_be_bytes. simpl take. simpl fold_left.
  pose proof (Z.div_mod (key_number (s, k)) 256). rewrite (Z.mod_small (_ / 256)); [lia|].
  split; [apply Z.div_pos; lia|apply Z.div_lt_upper_bound; lia].
Qed.

Lemma sample_key_bound s k : s ∈ sample_scopes -> (0 <= key_number (s, k) < 128)%Z.
Proof.
  intros Hs. pose proof (scope_number_bound s Hs). pose proof (kind_code_bound k). unfold key_number. simpl. lia.
Qed.

Lemma crockford_inj v w :
  (0 <= v < 2 ^ 128)%Z -> (0 <= w < 2 ^ 128)%Z -> entity_id_from_u128 v = entity_id_from_u128 w -> v = w.
Proof.
  intros Hv Hw Heq. apply (f_equal (fun i => crockford_from_string (as_str i))) in Heq.
  unfold entity_id_from_u128 in Heq. cbn [as_str ulid_to_string crockford_ulid] in Heq.
  rewrite !crockford_round_trip in Heq by done. by injection Heq.
Qed.

Lemma sample_space_of v :
  (0 <= v < 2 ^ 128)%Z ->
  sample_space (entity_id_from_u128 v) =
    if (v <? 2 ^ 16)%Z then AccountSpace else if (v <? 2 ^ 64)%Z then RequestSpace else LeaseSpace.
Proof.
  intros Hv. unfold sample_space, entity_id_from_u128. cbn [as_str ulid_to_string crockford_ulid].
  by rewrite crockford_round_trip.
Qed.

Lemma Ok_inj {E A} (x y : A) : (Ok x : result E A) = Ok y -> x = y.
Proof. congruence. Qed.

Lemma sample_ids_apart : ids_apart (S:=EmbeddedStore) sample_in_play sample_space.
Proof.
  split.
  - intros s r s' r' i Hs Hs' Hi Hi'.
    pose proof (sample_key_bound s r Hs). pose proof (sample_key_bound s' r' Hs').
    rewrite account_id_number in Hi, Hi' by lia. apply Ok_inj in Hi as <-.
    apply Ok_inj, crockford_inj in Hi' as Heq; [|lia..].
    pose proof (kind_code_bound r). pose proof (kind_code_bound r'). unfold key_number in Heq. simpl in Heq.
    split; [apply scope_number_inj; [done..|lia]|apply (inj kind_code); lia].
  - intros s r i Hs Hi. pose proof (sample_key_bound s r Hs).
    rewrite account_id_number in Hi by lia. apply Ok_inj in Hi as <-. rewrite sample_space_of by lia.
    by destruct (Z.ltb_spec (key_number (s, r)) (2 ^ 16)); [|lia].
Qed.

Lemma sample_environment :
  environment (S:=EmbeddedStore) sample_new_id sample_limit sample_in_play sample_space.
Proof.
  assert (forall n, n < sample_limit -> (0 <= 2 ^ 100 + Z.of_nat n < 2 ^ 128)%Z) as Hb.
  { unfold sample_limit. intros n Hn. lia. }
  split.
  - apply array_codec_lawful.
  - apply sample_ids_apart.
  - intros n Hn. exists (2 ^ 100 + Z.of_nat n)%Z. split; [by apply Hb|done].
  - intros n Hn. unfold sample_new_id. rewrite sample_space_of by by apply Hb.
    destruct (Z.ltb_spec (2 ^ 100 + Z.of_nat n) (2 ^ 16)); [lia|].
    by destruct (Z.ltb_spec (2 ^ 100 + Z.of_nat n) (2 ^ 64)); [lia|].
  - intros n m Hn Hm Heq. apply crockford_inj in Heq; [lia|by apply Hb..].
Qed.
