(* ===== verification/GovernorProperties.v ===== *)
(** * What the governor guarantees

    The theorems of [GovernorSafety] in terms of the service: a governor that
    was opened on a governed repository, runs any sequence of operations and
    shares the repository with other governors never lets the units leased on a
    scope exceed the ceiling of its policy; grants are durable, heartbeats
    extend leases, releases give them back, and reclaiming takes exactly what
    has expired. *)

From Stdlib Require Import ZArith Lia String.
From stdpp Require Import base decidable countable gmap sorting option list.
From S2P Require Import Prelude RustStd Sha2 AgentTypes Json StateStoreCore Sqlite StateStore StoreProperties.
From S2P Require Import ResourceModel ResourceGovernor GovernorDurable GovernorInvariant GovernorSafety.
From S2P Require Import GovernorScheduling GovernorExample.

(** ** Runs *)

Section runs.
Context {S : Type} `{HU : Ulid, HR : Repository S, HL : !RepositoryLaws S}.
Context `{HJ : SerdeJson, HC : ResourceCodec, HH : Sha256}.
Context (new_id : nat -> EntityId) (limit : nat).
Context (in_play : ResourceScope -> Prop) (id_space : EntityId -> IdSpace) (pol : ResourcePolicy).

Abbreviation Governor := (@ResourceGovernor S).
Abbreviation Error := (ResourceError (@repo_error S HR) JsonError).
Abbreviation governed := (governed (S:=S) in_play id_space pol).
Abbreviation evolves := (evolves (S:=S)).
Abbreviation environment := (environment (S:=S) new_id limit in_play id_space).
Abbreviation healthy := (healthy (S:=S) new_id limit in_play id_space pol).
Abbreviation rely := (rely (S:=S) new_id limit in_play id_space pol).
Abbreviation Ghost := (Durable * gset EntityId)%type.

(** A sequence of operations; a failed one is followed by the next. *)
Definition run_all (ops : list Operation) (g : Governor) : Governor :=
  foldl (fun g o => (run new_id o g).2) g ops.

(** A governor opened on [s], which holds [G], that has run [ops]. *)
Record service (s : S) (G : Ghost) (env : list (S -> S)) (n : nat) (ops : list Operation) (g : Governor)
  : Prop := {
  service_environment : environment;
  service_view : gview s G.1;
  service_governed : governed G.1;
  service_used : used G;
  service_rely : Forall rely env;
  service_supply : forall m, n <= m < limit -> new_id m ∉ G.2;
  service_ops : Forall (wf_operation in_play id_space) ops;
  service_run : exists g0, open_governor s pol env n = (Ok g0 : result Error _) /\ g = run_all ops g0;
  service_drawn : ids_drawn g <= limit
}.

Lemma run_all_drawn ops g : ids_drawn g <= ids_drawn (run_all ops g).
Proof.
  revert g. induction ops as [|o ops IH]; intros g; simpl; [done|].
  etransitivity; [apply (mono_run new_id o g)|apply IH].
Qed.

Lemma run_all_healthy ops g G :
  environment -> Forall (wf_operation in_play id_space) ops -> healthy g G ->
  ids_drawn (run_all ops g) <= limit ->
  exists G', healthy (run_all ops g) G' /\ evolves G G'.
Proof.
  intros Henv. revert g G. induction ops as [|o ops IH]; intros g G Hops Hh Hlim; simpl in *.
  { exists G. split; [done|apply evolves_refl]. }
  apply Forall_cons in Hops as [Ho Hops]. destruct (run new_id o g) as [r g1] eqn:Er. simpl in Hlim.
  pose proof (run_all_drawn ops g1). fold (run_all ops g1) in *.
  destruct (safe_run new_id limit in_play id_space pol o Henv Ho g G r g1 Hh I Er) as (G1 & Hh1 & He1 & _); [lia|].
  destruct (IH g1 G1 Hops Hh1 Hlim) as (G2 & Hh2 & He2). exists G2. split; [done|].
  by eapply healthy_evolves_trans.
Qed.

Lemma service_healthy s G env n ops g :
  service s G env n ops g -> exists G', healthy g G' /\ evolves G G'.
Proof.
  intros [Henv Hv Hg Hu Hr Hs Hops (g0 & Ho & ->) Hlim].
  destruct (open_healthy new_id limit in_play id_space pol s G env n g0) as (G1 & Hh1 & He1); try done.
  destruct (run_all_healthy ops g0 G1) as (G2 & Hh2 & He2); try done.
  exists G2. split; [done|]. eapply (evolves_trans _ _ _ G); [exact Hg|exact Hu|done..].
Qed.

(** The records determine the durable state. *)
Lemma gview_inj s D D' : gview s D -> gview s D' -> D = D'.
Proof.
  intros (recs & Hv & Hd) (recs' & Hv' & Hd'). pose proof (view_inj _ _ _ Hv Hv') as <-.
  apply map_eq. intros id. specialize (Hd id). specialize (Hd' id).
  inversion Hd as [r x [_ [Hx _]] E1 E2|E1 E2]; inversion Hd' as [r' x' [_ [Hx' _]] E1' E2'|E1' E2']; congruence.
Qed.

Lemma leased_within D k c :
  environment -> governed D -> is_concurrency k.2 = true ->
  ceiling pol k.1 k.2 = Some c -> (0 <= ceiling_maximum c)%Z -> (leased D k <= ceiling_maximum c)%Z.
Proof.
  intros Henv Hg Hk Hc Hmax.
  destruct (decide (map_Forall (fun _ x => contribution k x = 0%Z) D)) as [Hz|Hz].
  { rewrite leased_zero; [done|exact Hz]. }
  apply map_not_Forall in Hz as (id & x & Hx & Hn); [|apply _]. destruct x as [| |l]; try done. simpl in Hn.
  destruct (on_key k (lease_request l)) eqn:Eon; [|done]. apply bool_decide_eq_true_1 in Eon as [Hres Hin].
  destruct (governed_backed _ _ _ _ Hg id l k.1 Hx Hin) as [a Ha]. rewrite Hres in Ha.
  apply account_at_Some in Ha as (i & Hi & Ha). pose proof (governed_account _ _ _ _ Hg i a Ha) as Hwf.
  pose proof (lease_wf_request _ _ _ _ (governed_lease _ _ _ _ Hg id l Hx)) as Hq.
  pose proof (request_in_play _ _ _ Hq) as Hplay. rewrite Forall_forall in Hplay.
  destruct (account_id_inj _ _ (env_ids _ _ _ _ Henv) (acc_scope a) (acc_resource a) k.1 k.2 i) as [Hs Hr];
    [apply (account_in_play _ _ _ Hwf)|by apply Hplay|apply (account_named _ _ _ Hwf)|done|].
  assert (account_key a = k) as Hkey by (destruct k; unfold account_key; simpl in *; congruence).
  pose proof (governed_active _ _ _ _ Hg i a Ha) as Hact. rewrite Hkey in Hact. rewrite <- Hact.
  pose proof (governed_ceiling _ _ _ _ Hg i a c Ha) as Hb. rewrite Hs, Hr in Hb. specialize (Hb Hc).
  unfold bounded_counter, counter in Hb. by rewrite Hr, Hk in Hb.
Qed.
End runs.

(** ** The cached state after heartbeats and reclaims *)

Definition reclaimable (now : UtcTimestamp) (l : ResourceLease) : Prop :=
  rle (expires_at l) now /\ is_Some (req_recovery (lease_request l)).

#[export] Instance reclaimable_dec now l : Decision (reclaimable now l).
Proof. unfold reclaimable. apply _. Defined.

Definition reclaimed_of (l : ResourceLease) : option ReclaimedResource :=
  MkReclaimed (lease_id l) <$> req_recovery (lease_request l).

Section cached.
Context {S : Type} `{HR : Repository S, HU : Ulid, HJ : SerdeJson, HC : ResourceCodec, HH : Sha256}.
Context (pol : ResourcePolicy).

Abbreviation Governor := (@ResourceGovernor S).
Abbreviation Error := (ResourceError (@repo_error S HR) JsonError).
Abbreviation gov_m := (stateT Governor Error).
Abbreviation ends := (ends pol).

Lemma ends_transact_unless P attempt ms : ends P (transact_unless_conflict attempt ms) (fun _ => P).
Proof.
  intros g a g' Hp HP Hr. assert (policy g' = policy g /\ state g' = state g) as [-> ->]; [|done].
  unfold transact_unless_conflict, repository_transact in Hr. destruct (transact _ _) as [[r|e] s]; simpl in Hr.
  - injection Hr as _ <-. simpl. unfold interfere. by destruct (interference g).
  - destruct (_ && _)%bool; [|done]. injection Hr as _ <-. simpl. unfold interfere. by destruct (interference g).
Qed.

Lemma ends_retry {A} P (body : nat -> gov_m (option A)) after Q :
  (forall n, ends P (body n) (fun o st => match o with Some a => Q a st | None => P st end)) ->
  ends P (retry body after) Q.
Proof.
  intros Hb. unfold retry. generalize (seq 0 (MAX_CONFLICT_RETRIES + 1)). intros attempts.
  induction attempts as [|n attempts IH]; simpl; [by intros g a g' _ _ [=]|].
  eapply ends_bind; [apply Hb|]. intros [a|]; [by apply ends_ret|exact IH].
Qed.

Lemma ends_any {A} P P' (m : gov_m A) Q : ends P m Q -> (forall st, P' st -> P st) -> ends P' m Q.
Proof. intros Hm HP g a g' Hp HP' Hr. eapply Hm; eauto. Qed.

Lemma checked_timestamp_Ok t d e :
  checked_timestamp t d = (Ok e : result Error _) -> unix_millis e = (unix_millis t + d)%Z.
Proof.
  unfold checked_timestamp. destruct (i64_try_from d) as [d'|] eqn:Ed; [|done]. cbn [ok_or mbind result_bind].
  intros He%ok_or_Ok. apply fmap_Some in He as (u & Hu & ->). apply i64_checked_add_Some in Hu as [-> _].
  unfold i64_try_from in Ed. destruct (_ && _)%bool; [|done]. by injection Ed as ->.
Qed.

Lemma ends_heartbeat id now :
  ends (fun _ => True) (heartbeat id now)
    (fun l _ => heartbeat_at l = now
       /\ checked_timestamp now (req_idle_timeout_ms (lease_request l)) = (Ok (expires_at l) : result Error _)).
Proof.
  unfold heartbeat. apply ends_lock_bind. intros _. apply ends_retry. intros n. unfold heartbeat_attempt.
  eapply ends_bind; [apply ends_refresh|]. intros []. apply ends_read. intros st _.
  apply ends_lift_bind. intros lease _. apply ends_lift_bind. intros _ _.
  apply ends_lift_bind. intros expires Hexp. apply ends_lift_bind. intros rev _.
  apply ends_lift_bind. intros put _. eapply ends_bind; [apply ends_transact_unless|].
  intros [u|]; [apply ends_set_bind|]; by apply ends_ret.
Qed.

Lemma ends_release_locked L l now :
  ends (fun st => leases st = L) (release_locked l now) (fun _ st => leases st = delete (lease_id l) L).
Proof.
  unfold release_locked. apply ends_read. intros st <-. apply ends_lift_bind. intros [changes ms] _.
  eapply ends_bind; [apply ends_transact|]. intros receipt. by apply ends_set_state.
Qed.

Lemma ends_reclaim_all now L ls acc :
  ends (fun st => leases st = L) (fold_m (reclaim_one now) acc ls)
    (fun acc' st => acc' = acc ++ omap reclaimed_of ls
       /\ leases st = filter (fun p => p.1 ∉ lease_id <$> ls) L).
Proof.
  revert L acc. induction ls as [|l ls IH]; intros L acc; cbn [fold_m].
  { apply ends_ret. intros st ->. split; [by rewrite app_nil_r|].
    symmetry. apply map_filter_id. intros i x _. by apply not_elem_of_nil. }
  apply (ends_bind _ _ _ (fun acc' st => acc' = acc ++ omap reclaimed_of [l] /\ leases st = delete (lease_id l) L)).
  { unfold reclaim_one. apply ends_lift_bind. intros r Hr. apply ok_or_Ok in Hr.
    eapply ends_bind; [apply ends_release_locked|]. intros []. apply ends_ret. intros st ->. split; [|done].
    simpl. unfold reclaimed_of. by rewrite Hr. }
  intros acc' g b g' Hp [-> Hst] Hr. destruct (IH _ _ _ _ _ Hp Hst Hr) as (Hp' & -> & ->).
  split; [done|]. split; [by rewrite <- app_assoc, <- omap_app|].
  apply map_eq. intros i. rewrite !map_lookup_filter. csimpl. destruct (decide (i = lease_id l)) as [->|Hne].
  - rewrite lookup_delete_eq. simpl. destruct (L !! lease_id l); simpl; [|done].
    rewrite option_guard_False; [done|]. set_solver.
  - rewrite lookup_delete_ne by done. destruct (L !! i); simpl; [|done]. f_equal.
    apply option_guard_iff. set_solver.
Qed.

Lemma ends_reclaim_idle now L :
  ends (fun st => leases st = L) (reclaim_idle now)
    (fun rs st => let expired := filter (reclaimable now) (btree_values L) in
       rs = sort_by (fun l r => rcmp (reclaimed_lease_id l) (reclaimed_lease_id r)) (omap reclaimed_of expired)
       /\ leases st = filter (fun p => p.1 ∉ lease_id <$> expired) L).
Proof.
  unfold reclaim_idle. apply ends_lock_bind. intros _. apply ends_read. intros st HL.
  eapply ends_bind; [eapply ends_any; [apply (ends_reclaim_all now L)|by intros ? <-]|].
  intros acc. apply ends_ret. intros st' [-> ->]. rewrite HL. done.
Qed.
End cached.

(** Which leases are reclaimed, and which are left, of leases filed under their
    own identifiers. *)
Lemma reclaimed_members now (L : gmap EntityId ResourceLease) r :
  (forall id l, L !! id = Some l -> lease_id l = id) ->
  r ∈ omap reclaimed_of (filter (reclaimable now) (btree_values L)) <->
  exists l, L !! reclaimed_lease_id r = Some l /\ rle (expires_at l) now
    /\ req_recovery (lease_request l) = Some (reclaimed_recovery r).
Proof.
  intros Hkey. rewrite list_elem_of_omap. split.
  - intros (l & [[Hle _] Hin]%list_elem_of_filter & Hr). apply elem_of_btree_values in Hin as [id Hl].
    apply fmap_Some in Hr as (rec & Hrec & ->). exists l. simpl. by rewrite (Hkey _ _ Hl).
  - intros (l & Hl & Hle & Hrec). exists l. split.
    + apply list_elem_of_filter. split; [by split|]. apply elem_of_btree_values. eauto.
    + unfold reclaimed_of. rewrite Hrec, (Hkey _ _ Hl). by destruct r.
Qed.

Lemma reclaimed_rest now (L : gmap EntityId ResourceLease) id :
  (forall id l, L !! id = Some l -> lease_id l = id) ->
  filter (fun p => p.1 ∉ lease_id <$> filter (reclaimable now) (btree_values L)) L !! id =
  match L !! id with Some l => if decide (reclaimable now l) then None else Some l | None => None end.
Proof.
  intros Hkey. rewrite map_lookup_filter. destruct (L !! id) as [l|] eqn:Hl; simpl; [|done].
  assert (id ∈ lease_id <$> filter (reclaimable now) (btree_values L) <-> reclaimable now l) as Hiff.
  { rewrite list_elem_of_fmap. split.
    - intros (l' & -> & [Hr Hin]%list_elem_of_filter). apply elem_of_btree_values in Hin as [id' Hl'].
      rewrite (Hkey _ _ Hl') in Hl. congruence.
    - intros Hr. exists l. rewrite (Hkey _ _ Hl). split; [done|]. apply list_elem_of_filter. split; [done|].
      apply elem_of_btree_values. eauto. }
  destruct (decide (reclaimable now l)); [rewrite option_guard_False|rewrite option_guard_True]; naive_solver.
Qed.

(** ** The guarantees *)

Section claims.
Context {S : Type} `{HU : Ulid, HR : Repository S, HL : !RepositoryLaws S}.
Context `{HJ : SerdeJson, HC : ResourceCodec, HH : Sha256}.
Context (new_id : nat -> EntityId) (limit : nat).
Context (in_play : ResourceScope -> Prop) (id_space : EntityId -> IdSpace) (pol : ResourcePolicy).

Abbreviation Governor := (@ResourceGovernor S).
Abbreviation service := (service (S:=S) new_id limit in_play id_space pol).
Abbreviation healthy := (healthy (S:=S) new_id limit in_play id_space pol).
Abbreviation environment := (environment (S:=S) new_id limit in_play id_space).

(** C1: A governor keeps the durable accounting exact.  Opened on a governed
    repository and run through any sequence of operations, with other governors
    writing between any two repository calls, stale caches, conflicts, failed
    calls and lost acknowledgements, it leaves the repository in a governed
    state: every account counts exactly the units of the leases on its scope,
    no counter exceeds its ceiling, and the state has only moved forward. *)
Theorem governor_keeps_accounts s G env n ops g :
  service s G env n ops g ->
  exists G', gview (repository g) G'.1
    /\ governed (S:=S) in_play id_space pol G'.1 /\ evolves (S:=S) G G'.
Proof.
  intros Hs. destruct (service_healthy _ _ _ _ _ _ _ _ _ _ _ Hs) as (G' & Hh & He).
  exists G'. split; [apply Hh|]. split; [apply Hh|done].
Qed.

(** C2: No overcommitment: at the end of any run of a governor, whatever the
    repository then holds, the units that all leases together hold on a scope
    are within the ceiling the policy sets for that scope and resource. *)
Theorem leases_never_overcommit s G env n ops g D scope resource c :
  service s G env n ops g -> gview (repository g) D ->
  ceiling pol scope resource = Some c -> is_concurrency resource = true -> (0 <= ceiling_maximum c)%Z ->
  (leased D (scope, resource) <= ceiling_maximum c)%Z.
Proof.
  intros Hs HD Hc Hres Hmax. destruct (service_healthy _ _ _ _ _ _ _ _ _ _ _ Hs) as (G' & Hh & _).
  rewrite (gview_inj _ D G'.1 HD) by apply Hh. destruct Hs as [Henv _ _ _ _ _ _ _ _].
  eapply (leased_within new_id limit in_play id_space pol G'.1 (scope, resource)); try done. apply Hh.
Qed.

(** A granted request holds a durable lease: when [schedule_request] answers
    that the lease was granted, the repository holds exactly that lease. *)
Theorem grant_is_durable id now g G lease g' :
  environment -> is_i64 (unix_millis now) -> healthy g G ->
  schedule_request new_id id now g = (Ok (Granted lease), g') -> ids_drawn g' <= limit ->
  exists D, gview (repository g') D /\ lease_at D (lease_id lease) = Some lease.
Proof.
  intros Henv Hnow Hh Hs Hlim.
  destruct (safe_schedule_request new_id limit in_play id_space pol id now Henv Hnow g G _ _ Hh I Hs Hlim)
    as (G' & Hh' & _ & Hd). exists G'.1. split; [apply Hh'|done].
Qed.

(** A heartbeat extends the lease it names: the lease it returns is the one
    the repository holds, was last seen [now] and expires its idle timeout
    later. *)
Theorem heartbeat_extends id now g G lease g' :
  environment -> is_i64 (unix_millis now) -> healthy g G ->
  heartbeat id now g = (Ok lease, g') -> ids_drawn g' <= limit ->
  (exists D, gview (repository g') D /\ lease_at D id = Some lease)
  /\ heartbeat_at lease = now
  /\ unix_millis (expires_at lease) = (unix_millis now + req_idle_timeout_ms (lease_request lease))%Z.
Proof.
  intros Henv Hnow Hh Hb Hlim.
  destruct (safe_heartbeat new_id limit in_play id_space pol id now Henv Hnow g G _ _ Hh I Hb Hlim)
    as (G' & Hh' & _ & Hl). split; [exists G'.1; split; [apply Hh'|done]|].
  destruct (ends_heartbeat pol id now g lease g') as (_ & Hat & Hexp); [apply Hh|done..|].
  split; [done|]. by apply checked_timestamp_Ok in Hexp.
Qed.

(** A release takes effect: when [release] succeeds, the repository no longer
    holds the lease, and the accounts count the leases that are left. *)
Theorem release_frees id now g G g' :
  environment -> is_i64 (unix_millis now) -> healthy g G ->
  release id now g = (Ok tt, g') -> ids_drawn g' <= limit ->
  exists D, gview (repository g') D /\ lease_at D id = None
    /\ forall i a, D !! i = Some (SAccount a) -> acc_active a = leased D (account_key a).
Proof.
  intros Henv Hnow Hh Hr Hlim.
  destruct (safe_release new_id limit in_play id_space pol id now Henv Hnow g G _ _ Hh I Hr Hlim)
    as (G' & Hh' & _ & Hl). exists G'.1. split; [apply Hh'|]. split; [done|].
  apply (governed_active _ _ _ _ (healthy_governed _ _ _ _ _ _ _ Hh')).
Qed.

(** Reclaiming takes exactly the idle leases: [reclaim_idle] returns, in the
    order of their identifiers, the leases of the cache that have expired and
    can be recovered, each with its recovery descriptor, and afterwards the
    cache holds exactly the other leases. *)
Theorem reclaim_idle_exact now (g : Governor) rs g' :
  (forall id l, leases (state g) !! id = Some l -> lease_id l = id) ->
  reclaim_idle now g = (Ok rs, g') ->
  (forall r, r ∈ rs <-> exists l, leases (state g) !! reclaimed_lease_id r = Some l /\ rle (expires_at l) now
                        /\ req_recovery (lease_request l) = Some (reclaimed_recovery r))
  /\ StronglySorted (fun a b => rle (reclaimed_lease_id a) (reclaimed_lease_id b)) rs
  /\ forall id, leases (state g') !! id =
       match leases (state g) !! id with
       | Some l => if decide (reclaimable now l) then None else Some l
       | None => None
       end.
Proof.
  intros Hkey Hr. destruct (ends_reclaim_idle (policy g) now (leases (state g)) g rs g') as (_ & -> & Hrest); [done..|].
  split; [|split].
  - intros r. rewrite sort_by_perm. apply reclaimed_members, Hkey.
  - apply sort_by_sorted; intros *; [|apply rle_trans]. intros HG%rcmp_Gt. by rewrite HG.
  - intros id. rewrite Hrest. by apply reclaimed_rest.
Qed.
End claims.

(** ** Closed examples *)

Abbreviation sample_healthy :=
  (healthy (S:=EmbeddedStore) sample_new_id sample_limit sample_in_play sample_space sample_policy).
Abbreviation sample_request_id := (req_id (sample_request 1 PNormal)).
Abbreviation moment := (MkUtcTimestamp 10).

(** Another process that reads and writes nothing, twice. *)
Definition sample_interference : list (EmbeddedStore -> EmbeddedStore) := [(fun s => s); (fun s => s)].

Definition opened : SampleGovernor :=
  match open_governor empty_store sample_policy sample_interference 0 with
  | Ok g => g
  | Err _ => sample_governor
  end.

Definition sample_ops : list Operation :=
  [OpSubmit (sample_request 1 PNormal); OpScheduleRequest sample_request_id moment;
   OpSubmit (sample_request 2 PInteractive); OpSubmit (sample_request 3 PInteractive); OpSchedule moment 4;
   OpHeartbeat (sample_new_id 0) moment; OpReclaimIdle (MkUtcTimestamp 5000)].

Definition finished : SampleGovernor := run_all sample_new_id sample_ops opened.

Definition submitted : SampleGovernor := run_all sample_new_id [OpSubmit (sample_request 1 PNormal)] opened.
Definition scheduled : SampleGovernor := (schedule_request sample_new_id sample_request_id moment submitted).2.

Lemma opened_Ok :
  open_governor empty_store sample_policy sample_interference 0
  = (Ok opened : result (ResourceError (@repo_error EmbeddedStore _) JsonError) _).
Proof.
  unfold opened. assert (is_ok (open_governor (S:=EmbeddedStore) empty_store sample_policy sample_interference 0) = true)
    as Hok by (vm_compute; reflexivity).
  by destruct (open_governor _ _ _ _).
Qed.

Lemma sample_request_wf n p :
  (0 <= n < 100)%Z -> wf_request sample_in_play sample_space (sample_request n p).
Proof.
  intros Hn. split; simpl; try done.
  - exists (2 ^ 40 + n)%Z. split; [lia|done].
  - rewrite sample_space_of by lia. destruct (Z.ltb_spec (2 ^ 40 + n) (2 ^ 16)); [lia|].
    by destruct (Z.ltb_spec (2 ^ 40 + n) (2 ^ 64)); [|lia].
  - split; simpl; [done| |apply (bool_decide_unpack _); vm_compute; exact I].
    apply (bool_decide_unpack _); vm_compute; exact I.
  - apply Forall_forall. by intros s Hs.
Qed.

Lemma sample_rely : Forall (rely (S:=EmbeddedStore) sample_new_id sample_limit sample_in_play sample_space sample_policy)
  sample_interference.
Proof. repeat constructor; intros s G Hv Hg Hu; exists G; (do 3 (split; [done|])); by split; [apply evolves_refl|]. Qed.

Lemma sample_start :
  gview (S:=EmbeddedStore) empty_store ∅ /\ governed (S:=EmbeddedStore) sample_in_play sample_space sample_policy ∅
  /\ used (∅, ∅).
Proof.
  split; [|split].
  - exists ∅. split; [apply empty_store_view|]. intros id. rewrite !lookup_empty. constructor.
  - split; intros *; by rewrite lookup_empty.
  - intros id l. unfold lease_at. simpl. by rewrite lookup_empty.
Qed.

Lemma sample_opened : exists G, sample_healthy opened G.
Proof.
  destruct sample_start as (Hv & Hg & Hu).
  destruct (open_healthy sample_new_id sample_limit sample_in_play sample_space sample_policy empty_store (∅, ∅)
    sample_interference 0 opened) as (G & Hh & _);
    [apply sample_environment|done|done|done|apply sample_rely|by intros m _ ?%elem_of_empty|apply opened_Ok|by exists G].
Qed.

Lemma sample_ops_wf : Forall (wf_operation sample_in_play sample_space) [OpSubmit (sample_request 1 PNormal)].
Proof. apply Forall_singleton. split; [apply sample_request_wf; lia|done]. Qed.

Lemma sample_submitted : exists G, sample_healthy submitted G.
Proof.
  destruct sample_opened as [G Hh].
  destruct (run_all_healthy sample_new_id sample_limit sample_in_play sample_space sample_policy
    [OpSubmit (sample_request 1 PNormal)] opened G) as (G' & Hh' & _).
  - apply sample_environment.
  - apply sample_ops_wf.
  - exact Hh.
  - apply Nat.leb_le. vm_compute. reflexivity.
  - exists G'. exact Hh'.
Qed.

Lemma sample_scheduled : exists G, sample_healthy scheduled G.
Proof.
  destruct sample_submitted as [G Hh].
  destruct (safe_schedule_request sample_new_id sample_limit sample_in_play sample_space sample_policy
    sample_request_id moment sample_environment ltac:(done) submitted G _ scheduled Hh I (surjective_pairing _))
    as (G' & Hh' & _).
  - apply Nat.leb_le. vm_compute. reflexivity.
  - exists G'. exact Hh'.
Qed.

Lemma sample_ops_all_wf : Forall (wf_operation sample_in_play sample_space) sample_ops.
Proof.
  unfold sample_ops. repeat (apply Forall_cons; split);
    [split; [apply sample_request_wf; lia|done]|done|split; [apply sample_request_wf; lia|done]
    |split; [apply sample_request_wf; lia|done]|done|done|done|by apply Forall_nil].
Qed.

Lemma sample_service :
  service (S:=EmbeddedStore) sample_new_id sample_limit sample_in_play sample_space sample_policy
    empty_store (∅, ∅) sample_interference 0 sample_ops finished.
Proof.
  destruct sample_start as (Hv & Hg & Hu). split.
  - apply sample_environment.
  - exact Hv.
  - exact Hg.
  - exact Hu.
  - apply sample_rely.
  - by intros m _ ?%elem_of_empty.
  - apply sample_ops_all_wf.
  - exists opened. split; [apply opened_Ok|reflexivity].
  - apply Nat.leb_le. vm_compute. reflexivity.
Qed.

Lemma governor_keeps_accounts_witness :
  exists G, gview (repository finished) G.1
    /\ governed (S:=EmbeddedStore) sample_in_play sample_space sample_policy G.1
    /\ evolves (S:=EmbeddedStore) (∅, ∅) G.
Proof.
  apply (governor_keeps_accounts sample_new_id sample_limit sample_in_play sample_space sample_policy
    empty_store (∅, ∅) sample_interference 0 sample_ops).
  apply sample_service.
Defined.

Lemma leases_never_overcommit_witness :
  exists D, gview (repository finished) D /\ (leased D (Installation, KKernels) <= 2)%Z.
Proof.
  destruct (service_healthy _ _ _ _ _ _ _ _ _ _ _ sample_service) as (G & Hh & _).
  exists G.1. split; [apply Hh|].
  apply (leases_never_overcommit sample_new_id sample_limit sample_in_play sample_space sample_policy
    empty_store (∅, ∅) sample_interference 0 sample_ops finished G.1 Installation KKernels (MkCeiling 2 Pause)).
  - apply sample_service.
  - apply Hh.
  - reflexivity.
  - reflexivity.
  - done.
Defined.

Definition is_granted {S E} (p : result E ScheduleOutcome * S) : bool :=
  match p.1 with Ok (Granted _) => true | _ => false end.

Lemma granted_pair {S E} (p : result E ScheduleOutcome * S) :
  is_granted p = true -> exists lease, p = (Ok (Granted lease), p.2).
Proof. destruct p as [[[lease| |]|e] s]; try done. by exists lease. Qed.

Lemma clock_i64 t : (0 <= t <= 5000)%Z -> is_i64 (unix_millis (MkUtcTimestamp t)).
Proof. unfold is_i64, i64_min, i64_max. simpl. lia. Qed.

Lemma grant_is_durable_witness :
  exists lease D, schedule_request sample_new_id sample_request_id moment submitted = (Ok (Granted lease), scheduled)
    /\ gview (repository scheduled) D /\ lease_at D (lease_id lease) = Some lease.
Proof.
  destruct sample_submitted as [G Hh].
  destruct (granted_pair (schedule_request sample_new_id sample_request_id moment submitted)) as [lease Hs];
    [vm_compute; reflexivity|].
  destruct (grant_is_durable sample_new_id sample_limit sample_in_play sample_space sample_policy
    sample_request_id moment submitted G lease scheduled) as (D & HD & Hl).
  - apply sample_environment.
  - apply clock_i64. lia.
  - exact Hh.
  - exact Hs.
  - apply Nat.leb_le. vm_compute. reflexivity.
  - exists lease, D. split; [exact Hs|]. split; [exact HD|exact Hl].
Defined.

Abbreviation later := (MkUtcTimestamp 500).
Definition refreshed : SampleGovernor := (heartbeat (sample_new_id 0) later scheduled).2.

Lemma heartbeat_extends_witness :
  exists lease D, heartbeat (sample_new_id 0) later scheduled = (Ok lease, refreshed)
    /\ gview (repository refreshed) D /\ lease_at D (sample_new_id 0) = Some lease
    /\ unix_millis (expires_at lease) = (500 + req_idle_timeout_ms (lease_request lease))%Z.
Proof.
  destruct sample_scheduled as [G Hh].
  destruct (ok_pair (heartbeat (sample_new_id 0) later scheduled)) as [lease Hb]; [vm_compute; reflexivity|].
  destruct (heartbeat_extends sample_new_id sample_limit sample_in_play sample_space sample_policy
    (sample_new_id 0) later scheduled G lease refreshed) as ((D & HD & Hl) & _ & He).
  - apply sample_environment.
  - apply clock_i64. lia.
  - exact Hh.
  - exact Hb.
  - apply Nat.leb_le. vm_compute. reflexivity.
  - exists lease, D. split; [exact Hb|]. split; [exact HD|]. split; [exact Hl|exact He].
Defined.

Definition released : SampleGovernor := (release (sample_new_id 0) later scheduled).2.

Lemma release_frees_witness :
  exists D, gview (repository released) D /\ lease_at D (sample_new_id 0) = None.
Proof.
  destruct sample_scheduled as [G Hh].
  destruct (ok_pair (release (sample_new_id 0) later scheduled)) as [[] Hr]; [vm_compute; reflexivity|].
  destruct (release_frees sample_new_id sample_limit sample_in_play sample_space sample_policy
    (sample_new_id 0) later scheduled G released) as (D & HD & Hl & _).
  - apply sample_environment.
  - apply clock_i64. lia.
  - exact Hh.
  - exact Hr.
  - apply Nat.leb_le. vm_compute. reflexivity.
  - exists D. split; [exact HD|exact Hl].
Defined.

Definition reclaimed : SampleGovernor := (reclaim_idle (MkUtcTimestamp 5000) scheduled).2.

Lemma reclaim_idle_exact_witness :
  exists rs l, reclaim_idle (MkUtcTimestamp 5000) scheduled = (Ok rs, reclaimed)
    /\ leases (state scheduled) !! sample_new_id 0 = Some l /\ leases (state reclaimed) !! sample_new_id 0 = None.
Proof.
  destruct sample_scheduled as [G Hh].
  destruct (ok_pair (reclaim_idle (MkUtcTimestamp 5000) scheduled)) as [rs Hr]; [vm_compute; reflexivity|].
  destruct (reclaim_idle_exact (MkUtcTimestamp 5000) scheduled rs reclaimed) as (_ & _ & Hrest).
  - intros id l Hl. destruct (coherent_lease _ _ _ _ (healthy_coherent _ _ _ _ _ _ _ Hh) id l Hl) as [[Hid _ _ _ _] _].
    exact Hid.
  - exact Hr.
  - assert (match leases (state scheduled) !! sample_new_id 0 with
            | Some l => bool_decide (reclaimable (MkUtcTimestamp 5000) l)
            | None => false
            end = true) as Hl by (vm_compute; reflexivity).
    specialize (Hrest (sample_new_id 0)).
    destruct (leases (state scheduled) !! sample_new_id 0) as [l|]; [|discriminate Hl].
    exists rs, l. split; [exact Hr|]. split; [reflexivity|].
    rewrite decide_True in Hrest by exact (bool_decide_eq_true_1 _ Hl). exact Hrest.
Defined.

(** ** Scheduling examples *)

Definition queue_state : State :=
  MkState ∅ (list_to_map ((fun q => (req_id q, MkPending q Revision_ZERO)) <$>
    [sample_request 1 PNormal; sample_request 2 PInteractive])) ∅ ∅.

Lemma queue_state_keyed : well_keyed queue_state.
Proof.
  intros id p Hp. apply elem_of_list_to_map_2, list_elem_of_fmap in Hp as (q & Hq & _). by injection Hq as -> ->.
Qed.

Lemma select_next_in_line_witness :
  exists p, request_id_of p = req_id (sample_request 1 PNormal) /\ next_in_line queue_state ∅ p.
Proof.
  pose proof (select_next_in_line queue_state ∅ queue_state_keyed) as Hsel.
  assert (select_next queue_state ∅ = Some (req_id (sample_request 1 PNormal))) as Hid by (vm_compute; reflexivity).
  rewrite Hid in Hsel. exact Hsel.
Defined.

Lemma schedule_decides_once_witness :
  exists outcomes, schedule sample_new_id moment 3 submitted = (Ok outcomes, (schedule sample_new_id moment 3 submitted).2)
    /\ NoDup (decided_request <$> outcomes) /\ length outcomes <= 3.
Proof.
  destruct (ok_pair (schedule sample_new_id moment 3 submitted)) as [outcomes Hs]; [vm_compute; reflexivity|].
  exists outcomes. split; [exact Hs|]. eapply (schedule_decides_once sample_new_id moment 3 submitted). exact Hs.
Defined.

Definition queued : SampleGovernor := (submit (sample_request 1 PNormal) opened).2.

Lemma submit_respects_queues_witness :
  pending (state queued) !! req_id (sample_request 1 PNormal) = Some (MkPending (sample_request 1 PNormal) Revision_ZERO)
  /\ (admitted (state queued) Installation <= 2)%Z.
Proof.
  destruct (ok_pair (submit (sample_request 1 PNormal) opened)) as [[] Hs]; [vm_compute; reflexivity|].
  destruct (submit_respects_queues (sample_request 1 PNormal) opened queued) as [Hp Hq]; [exact Hs|].
  split; [exact Hp|]. apply (Hq Installation (MkQueueCeiling 2 1)).
  - by left.
  - vm_compute. reflexivity.
Defined.
